(* ===== verification/_CoqProject ===== *)
-Q . S2P
Prelude.v
Sha256.v
Codec.v
ResumableWire.v
ResumableConn.v
ResumableInv.v
ResumableSafety.v
ResumableView.v
ResumableSystem.v
ResumablePipe.v
ResumableEpoch.v
ResumableProps.v
ResumableWedge.v
History.v
Fanout.v
FanoutRing.v
FanoutProps.v
SessionOutput.v
InputJournal.v
RelayRecord.v
RelayChannel.v
RelayStream.v
RelayStreamProps.v
RelayDelivery.v
RelayHandshake.v
RelayRekey.v
RelayRekeyProps.v
RelayRekeyRun.v
RelayToy.v
Pmtu.v
PmtuProps.v
PasteWord.v
PasteStream.v
PasteProps.v
RelaySelect.v
OpJournal.v
OpJournalReplay.v
Race.v
RaceProps.v
RaceFailures.v
TransferCodec.v
TransferManifest.v
TransferCrypto.v
TransferCryptoProps.v
TransferFile.v
TransferFileProps.v
PeerContext.v
TransferKeys.v
TransferKeysProps.v
TransferProps.v
UpdateGate.v
UpdateGateProps.v
UpdateGateRuns.v
UpdateGateLife.v
Effects.v
UpdateFlow.v
WorkerRelease.v
WorkerUpdate.v
WorkerUpdateInv.v
WorkerUpdateSafe.v
WorkerUpdateRun.v
WorkerUpdateProps.v
WorkerFence.v
WorkerFenceProps.v
Inbox.v
InboxProps.v
InboxLife.v
InboxRetry.v
Connector.v
ConnectorServer.v
ConnectorClient.v
ConnectorLife.v
ConnectorFence.v
ConnectorAgree.v
ConnectorRollout.v
ConnectorProps.v
Rotation.v
RotationCoordinator.v
RotationLife.v
RotationProps.v
