(* ===== verification/Prelude.v ===== *)
(** * Paperboat: a verification library

    Paperboat connects a command line client to processes on a remote host over
    a peer-to-peer transport.  Its Go packages, under [src/], that carry the logic
    of that path are modelled here, operation by operation, with the theorems that
    make them correct.

    ** The parts and how they interact

    A client's terminal is a byte stream to the host.  The stream survives changes
    of network because [resumablestream] keeps it alive across carriers, which come
    and go: an initiator prepares a carrier, promotes it, and both sides replay what
    the other has not acknowledged.  A carrier through a relay is protected end to
    end by [relaynoise] and [relaycarrier]: a Noise handshake gives each side a
    session, a session seals and opens numbered records, a [SecureConn] presents
    them as a connection, and the session's keys are replaced in band.  How large a
    datagram a path carries is measured by [networkadaptation], and which relay region
    a pair of peers uses is chosen by [relayselection].  The paths themselves are opened
    in a race by [connectionmanager].  On the host, mutating requests
    go through an operation journal ([operation] over [store]),
    [session] keeps the output of a process in a bounded [history], hands it to the
    attached clients through a [fanout], and takes their input through a journal
    that lets a client retry without typing twice.  On the client, [paste] watches
    the keyboard for bracketed pastes.  Files are sent sealed: [transfercrypto] seals
    the chunks of a file and the manifest that describes them under a key of the
    transfer, whose delivery to the peer is acknowledged and which both sides keep in a
    vault; [filetransfer] reads and writes the chunks, and [inbox] stages them.  Files that
    are not sealed are fetched by [inbox] too, into a directory with a journal of receipts.
    The host's runtime is replaced in place: [workerupdate] drives a transaction that
    stages, probes, drains, promotes, watches and commits a release, with its progress in
    the journal of [updateflow], and at each step it asks the update gate of
    [tunnelmanager], in the daemon that keeps running, to probe, drain and restore the
    carriers that the host serves.  That daemon, with [hostdproto], grants each worker a lease
    with an epoch and fences the workers before it.  A tunnel's connector holds a session with
    a server ([connectorprotocol]): the server admits one process at a time, sends it
    configurations, which the connector stages, activates and reports, keeps it alive with
    heartbeats and renewals, and drains it.  The credentials of the connectors of a tunnel are
    rotated together: a coordinator challenges each, installs the new key that it proves, waits
    until all are ready with theirs, and only then revokes the old ones.

    ** The files

    - [Prelude], [Codec], [Sha256]: 64-bit arithmetic, Go slices, big-endian
      integers, records with update, results; stream codecs as an interface
      ([StreamCodec]) with its laws; SHA-256 and HMAC as executable functions.
    - [ResumableWire] (protocol.go and the framing of conn.go): identities, hellos
      and frames.  [ResumableConn] (conn.go): [Conn], its operations and goroutines,
      each cut where the code releases its mutex or blocks, as tasks of [step].
      [ResumableInv], [ResumableSafety]: one endpoint against any peer.
      [ResumableView], [ResumableSystem], [ResumablePipe]: two endpoints over
      carriers that fail, delay and cut; the abstract pipe.  [ResumableEpoch]:
      carrier transitions.  [ResumableProps]: concrete schedules and the theorems.
      [ResumableWedge]: what each side sends, and a carrier that is lost in between.
    - [History] (history.go): the output log with its shared, reference counted
      buffers.  [Fanout], [FanoutRing], [FanoutProps] (fanout.go): the event ring and
      the attachments' cursors.  [SessionOutput] (manager.go): [capture] and
      [attachLocked], which compose the two.  [InputJournal] (input.go).
    - [RelayRecord] (record.go), [RelayStream] (stream_carrier.go, noise.go,
      secure_conn.go), [RelayHandshake] (handshake.go, rekey.go), [RelayRekey]
      (rekey_driver.go): the protected stream.  [RelayChannel], [RelayStreamProps],
      [RelayDelivery], [RelayRekeyProps], [RelayRekeyRun]: its theorems.
      [RelayToy]: a concrete cipher and handshake, at which the theorems are
      instantiated.
    - [Pmtu], [PmtuProps] (pmtu.go, pmtu_wire.go): path MTU discovery.
    - [PasteWord], [PasteStream], [PasteProps] (paste.go): how a pasted line is read
      as a path; the interceptor's worker, with every other goroutine that touches
      it as a step; the theorems.
    - [RelaySelect] (selector.go): the relay region selector and its hysteresis.
    - [Race], [RaceProps], [RaceFailures] (race.go): the race of direct, relayed and
      WebSocket paths, its goroutines as events; the theorems.
    - [OpJournal], [OpJournalReplay] (operation/journal.go and the operation table of
      store.go): operations that run once across retries, crashes and restarts.
    - [TransferCodec], [TransferManifest], [TransferCrypto] (transfercrypto chunk.go,
      record.go, manifest.go): the decoder, manifests and receipts, contexts, nonces and
      sealing.  [PeerContext] (peercontext): the binding of a stream.  [TransferFile]
      (filetransfer/encrypted.go, inbox/encrypted.go): reading, writing and staging
      chunks.  [TransferKeys] (control.go, vault.go, keys.go): delivery and storage of
      keys.  [TransferCryptoProps], [TransferFileProps], [TransferKeysProps],
      [TransferProps]: the theorems, the last with a concrete cipher.
    - [UpdateGate] (tunnelmanager/update_gate.go, hostdproto/update_gate.go): the gate's
      transactions, their file, its requests and their answers.  [UpdateGateProps],
      [UpdateGateRuns], [UpdateGateLife]: the abstract lifecycle, reachable states, the
      theorems.
    - [Effects]: programs over a world and a list of replies, with failure and the death of
      the process, and their weakest preconditions.
    - [UpdateFlow] (updateflow/journal.go): the journal of a worker update.
      [WorkerRelease] (workerupdate, its data): releases, versions and gate requests, in
      the terms of [UpdateGate].  [WorkerUpdate] (manager.go, deployment_gate.go,
      hostd_provider.go, updated_unix.go): the transaction, its recovery and the start of
      the updater, as programs of [Effects] over the world and the replies of the environment.
      [WorkerUpdateInv], [WorkerUpdateSafe], [WorkerUpdateRun]: what its
      programs do not change, and the invariant, through the storage, through
      the failures and recoveries, through an activation.  [WorkerUpdateProps]: the
      theorems.
    - [WorkerFence], [WorkerFenceProps] (hostdproto protocol.go, state.go, socket_unix.go,
      candidate_unix.go): worker leases, their epochs, the fence file, the requests over the
      socket and the candidate's half; the theorems.
    - [Inbox] (inbox/inbox.go): the delivery of a plain file, as a program of [Effects] over a
      directory with hard links.  [InboxProps]: what its steps do to the directory.
      [InboxLife], [InboxRetry]: the theorems, over runs and over repeated attempts.
    - [Connector] (connectorprotocol/protocol.go): the messages of a session, their validation,
      versions and capabilities.  [ConnectorServer], [ConnectorClient] (session.go): the
      registry and [ServerSession]; [ClientSession], cut where it calls the applier and the
      drainer.  [ConnectorLife]: runs of a connector and what they ask of the applier.
      [ConnectorFence]: the sessions of a server.  [ConnectorAgree]: a session and its
      connector.  [ConnectorRollout]: the exchange of a configuration.  [ConnectorProps]: the
      theorems, and runs that go wrong.
    - [Rotation], [RotationCoordinator] (rotation.go): plans and messages; the coordinator and
      the in-memory store.  [RotationLife]: what runs keep and what is recovered.
      [RotationProps]: signed proofs, the theorems, and runs that go wrong.

    ** What the theorems show

    Resumable stream: every schedule of two endpoints refines a byte pipe in each
    direction ([resumable_refines_pipe]); nothing is lost or invented; the two waits
    mean what they say; correct endpoints never accuse each other; and, against a
    peer that sends anything at all, no slice expression is out of range, the
    buffers stay within the window, what is sent can be read, and the committed
    epoch grows.  Three schedules show what the code does not handle
    ([ResumableWedge]).
    Session: a replay is exactly the retained output; buffers are released when
    unreferenced; an attachment reads the output from the position that its attach
    returned, in order and without a gap, whatever else is attached; an input reaches the PTY at most once and in order.
    Relay: what is read is a prefix of what was written, over a relay that does
    anything to the bytes; over one that forwards, everything arrives; a rekey
    either completes on both sides or poisons the session.
    Path MTU: the measurement terminates within the attempts its policy allows and
    is exact on a path with a size limit; probes and responses authenticate.
    Paste: the interceptor keeps the order of the keyboard and releases held pastes
    in order; without a transfer, and with a destination that takes its writes, it is the
    identity; the word decoder agrees with the shell's quoting rules where it should.  Two schedules show where order and the
    last bytes are lost.
    Relay regions: a decision is for a usable region and does not depend on map order;
    a usable region is left only on sustained evidence.
    Operations: two runs of one operation id are a retention apart whatever fails in
    between, and a retry is answered with the outcome of a run of the same request.
    Entries without a stored outcome are never evicted ([uncertain_entries_fill]).
    Transfers: everything that is encoded has one encoding, and no two values, of one or
    of different kinds, share it; a nonce determines the chunk or record it is for; a
    staging file holds a prefix of the sender's file whatever the host does, and the
    whole file when staging succeeds; an interrupted transfer completes exactly when the
    file ends between two chunks, so not when the end of the process tore a write
    ([torn_write_wedges]) or a [Truncate] after a failed write failed too; an acknowledged key can be loaded
    by the receiver, and retries of a transfer use one key.
    Updates: a call of the gate is a step of the lifecycle of its transaction, and an
    answer promises the state it speaks of; a commit that was answered is final across
    failing writes, crashes and the restarts that load their file; that file loads exactly
    when it is within the size limit and every target stored in it is valid, which the gate
    does not check when it stores one.
    The worker updater never loses the runtime that is active, wherever its process dies,
    and activates no worker that the journal on disk does not announce; an update that it
    reports is complete.  With the deployment's gate, an update that was interrupted from the
    drain on is not recovered, since the journal does not hold the release's probe policy
    ([interrupted_update_blocks], [promoted_start_refused]).
    Workers: once a lease was activated only its heartbeats and later epochs are accepted, over
    restarts of the daemon, and an undisturbed candidate becomes the active worker, as the
    updater expects.  A restart hides the active worker until it is replaced
    ([restart_hides_fence]).
    Inbox: a delivery whose temporary name is one file of the inbox and no symbolic link touches
    no other file, wherever it fails or dies ([linked_temporary_written] and
    [temporary_outside_inbox] show what it touches otherwise), and when it succeeds the file is
    there, whole and verified; from a new inbox, with at most 1024 transfers, a transfer is
    saved under one name; an interrupted delivery completes.  Two transfers can get in each
    other's way ([reserved_name_taken], [temporary_name_delivered]).
    Connector: at most one session of a connector can act, and one that was replaced or closed
    never acts again; what the server holds for active the connector has activated; each
    prepared configuration is activated and aborted at most once, and none is lost; an accepted
    process is welcomed, and configurations are rolled out to it.  An expired session keeps what
    it prepared ([expired_leaks]), and drains leave marks ([drain_reopens],
    [refused_drain_stays], [ready_in_drain]).
    Rotation: an old credential is revoked only after every connector is ready with its new key,
    over failures of the store and restarts; a coordinator that resumes has what the lost one
    had, as long as no result was recorded ([result_hides_revocation], [failure_forgotten] show
    what follows one); a proof signed with both keys verifies.
    Race: each connection that a candidate opens, admitted or not, is closed, returned or kept
    warm, except after the warm fallback gave up; the one that was selected may be closed in
    addition, by the drain, after a verdict against its path; the race returns; a verdict against a path ends it outside
    the latency modes; a sequential race opens one path at a time.

    ** Parameters, bounds and fuel

    Code outside [src/] is a parameter with its documented laws: the AEAD
    ([CipherState], [CipherLaws]; [AEAD], [AEADLaws] for transfers), the Noise handshake ([NoiseHandshake]) and the
    carrier of the rekey drivers ([RekeyCarrier]).  The canonical hash of a request
    (JSON decoding) and the order of map iteration are arguments.  What the relay theorems assume of
    the AEAD's strength is the predicate [unforgeable], for the records of one run; the
    transfer theorems assume [authentic] of the ciphertexts received.  Of SHA-256 only
    the freedom from a collision between two given payloads is assumed, where it is said.
    Clocks, random bytes and the results of reads and writes are arguments; the programs of
    the updater and of the inbox consume a list of replies, one for each call outside the process, and a list
    that ends is a process that dies there.  The size of the gate's JSON text, the parsing
    of a request URI, the platform, the signed index and the text of the inbox's journal are
    arguments too, and so are the path of the inbox and the canonical form of JSON text and the check of a
    configuration's contents ([ConfigPayload]) and, for rotations, the parsing of a URL, the JSON
    text of strings and times and Ed25519 ([RotationEnv]), of which nothing is assumed.
    Integers are [Z] with the wrap-around of their width written out ([u64]).
    Loops that are not structural take fuel: [writeActive_loop], [writeLoop] and
    [sendLoop] recurse over data or over the results of the writes they make;
    [drainLoop] takes one round per buffered byte and is proved to end before;
    [search] of [Pmtu] takes 17 rounds, which is enough for a 16-bit range, and its
    termination theorem does not depend on the fuel; [ReadAll] and [WriteSeq] are
    drivers of the theorems and their fuel is quantified.

    ** Not modelled

    The command line, HTTP clients, configuration files, service installation,
    process supervision, Windows and SSH glue, telemetry: input and output around
    operating system or third-party calls.  The drivers of ICE and QUIC, whose
    behaviour is that of the libraries.  Darwin packages, the event sink and the starter of
    the worker updater, the scheduler above it, and the update of the command line.  The
    inbox's polling and its names on Windows.  The frames of a connector's session and
    its data streams.  Within the modelled packages: logging
    callbacks beyond their order, address methods, and the memory a garbage
    collector reclaims.  The Go memory model: every access modelled is under the
    mutex that the code holds, and interleavings are at the points where it is
    released. *)
From stdpp Require Export base numbers list list_numbers gmap strings.
From stdpp Require Import countable.
From Corelib Require Export Init.Byte.
From Stdlib Require Import Strings.Byte.

(** ** Go integers

    A Go [uint64], [uint32], [uint16] or [byte] is a [Z]; the operations of the
    source that can wrap are followed by the truncation to their width. *)
Declare Scope go_scope.
Delimit Scope go_scope with go.
#[global] Open Scope Z_scope.

Definition two64 : Z := 18446744073709551616.
Definition maxUint64 : Z := 18446744073709551615.
Definition u64 (z : Z) : Z := z mod two64.

Notation "a '+64' b" := (u64 (a + b)) (at level 50, left associativity) : go_scope.
Notation "a '-64' b" := (u64 (a - b)) (at level 50, left associativity) : go_scope.
#[global] Open Scope go_scope.

Lemma u64_range z : 0 <= u64 z < two64.
Proof. apply Z.mod_pos_bound. reflexivity. Qed.

Lemma u64_id z : 0 <= z < two64 -> u64 z = z.
Proof. apply Z.mod_small. Qed.

Lemma u64_sub a b : 0 <= b <= a -> a < two64 -> u64 (a - b) = a - b.
Proof. intros. apply u64_id. lia. Qed.

(** ** Slices

    [len] is Go's [len]; [slice lo hi l] is [l[lo:hi]], [None] where Go panics. *)
Definition len {A} (l : list A) : Z := Z.of_nat (length l).

Definition slice {A} (lo hi : Z) (l : list A) : option (list A) :=
  if (0 <=? lo) && (lo <=? hi) && (hi <=? len l)
  then Some (take (Z.to_nat (hi - lo)) (drop (Z.to_nat lo) l)) else None.

Definition zdrop {A} (n : Z) (l : list A) : list A := drop (Z.to_nat n) l.
Definition ztake {A} (n : Z) (l : list A) : list A := take (Z.to_nat n) l.

Section slices.
Context {A : Type}.
Implicit Types l k : list A.

Lemma len_nonneg l : 0 <= len l.
Proof. unfold len. lia. Qed.

Lemma len_nil : len (@nil A) = 0.
Proof. reflexivity. Qed.

Lemma len_app l k : len (l ++ k) = len l + len k.
Proof. unfold len. rewrite length_app. lia. Qed.

Lemma len_cons x l : len (x :: l) = 1 + len l.
Proof. unfold len. simpl. lia. Qed.

Lemma len_zero_nil l : len l = 0 <-> l = [].
Proof. destruct l; unfold len; simpl; split; intros; try done; lia. Qed.

Lemma len_zdrop n l : 0 <= n <= len l -> len (zdrop n l) = len l - n.
Proof. unfold len, zdrop. rewrite length_drop. lia. Qed.

Lemma len_ztake n l : 0 <= n <= len l -> len (ztake n l) = n.
Proof. unfold len, ztake. rewrite length_take. lia. Qed.

Lemma zdrop_0 l : zdrop 0 l = l.
Proof. reflexivity. Qed.

Lemma zdrop_all n l : len l <= n -> zdrop n l = [].
Proof. unfold zdrop, len. intros. apply drop_ge. lia. Qed.

Lemma ztake_all n l : len l <= n -> ztake n l = l.
Proof. unfold ztake, len. intros. apply take_ge. lia. Qed.

Lemma zdrop_zdrop a b l : 0 <= a -> 0 <= b -> zdrop a (zdrop b l) = zdrop (a + b) l.
Proof. unfold zdrop. intros. rewrite drop_drop. f_equal. lia. Qed.

Lemma zdrop_app_le n l k : 0 <= n <= len l -> zdrop n (l ++ k) = zdrop n l ++ k.
Proof. unfold zdrop, len. intros. apply drop_app_le. lia. Qed.

Lemma ztake_app_le n l k : 0 <= n <= len l -> ztake n (l ++ k) = ztake n l.
Proof. unfold ztake, len. intros. apply take_app_le. lia. Qed.

Lemma zdrop_app_ge n l k : len l <= n -> zdrop n (l ++ k) = zdrop (n - len l) k.
Proof. unfold zdrop, len. intros. rewrite drop_app_ge by lia. f_equal. lia. Qed.

Lemma ztake_app_ge n l k : len l <= n -> ztake n (l ++ k) = l ++ ztake (n - len l) k.
Proof. unfold ztake, len. intros. rewrite take_app_ge by lia. do 2 f_equal. lia. Qed.

Lemma zdrop_len_app l k : zdrop (len l) (l ++ k) = k.
Proof. rewrite zdrop_app_le by (pose proof (len_nonneg l); lia). by rewrite zdrop_all. Qed.

Lemma ztake_len_app l k : ztake (len l) (l ++ k) = l.
Proof. rewrite ztake_app_le by (pose proof (len_nonneg l); lia). by rewrite ztake_all. Qed.

Lemma ztake_zdrop n l : ztake n l ++ zdrop n l = l.
Proof. apply take_drop. Qed.

Lemma ztake_ztake_zdrop a b l :
  0 <= a -> 0 <= b -> ztake a l ++ ztake b (zdrop a l) = ztake (a + b) l.
Proof.
  unfold ztake, zdrop. intros.
  rewrite take_drop_commute, <- Z2Nat.inj_add by lia.
  rewrite <- (take_drop (Z.to_nat a) (take (Z.to_nat (a + b)) l)) at 2.
  by rewrite take_take, Nat.min_l by lia.
Qed.

Lemma ztake_ztake a b l : a <= b -> ztake a (ztake b l) = ztake a l.
Proof. unfold ztake. intros. by rewrite take_take, Nat.min_l by lia. Qed.

Lemma zdrop_ztake_zdrop a n b l :
  0 <= a <= n -> 0 <= b -> zdrop a (ztake n (zdrop b l)) = ztake (n - a) (zdrop (a + b) l).
Proof.
  unfold ztake, zdrop. intros. rewrite skipn_firstn_comm, drop_drop.
  f_equal; [lia|]. f_equal. lia.
Qed.

Lemma slice_Some lo hi l :
  0 <= lo <= hi -> hi <= len l -> slice lo hi l = Some (ztake (hi - lo) (zdrop lo l)).
Proof.
  intros. unfold slice, ztake, zdrop.
  rewrite (proj2 (Z.leb_le 0 lo)), (proj2 (Z.leb_le lo hi)), (proj2 (Z.leb_le hi (len l))) by lia.
  reflexivity.
Qed.

Lemma slice_to_end lo l : 0 <= lo <= len l -> slice lo (len l) l = Some (zdrop lo l).
Proof.
  intros. rewrite slice_Some by lia. f_equal. apply ztake_all. rewrite len_zdrop; lia.
Qed.

End slices.

(** ** Bytes and big-endian integers ([encoding/binary]) *)
#[export] Instance byte_eq_dec : EqDecision byte.
Proof. exact Byte.byte_eq_dec. Defined.

#[export] Instance byte_countable : Countable byte :=
  inj_countable Byte.to_N Byte.of_N Byte.of_to_N.

Definition byte_of_Z (z : Z) : byte := default x00 (Byte.of_N (Z.to_N (z mod 256))).
Definition Z_of_byte (b : byte) : Z := Z.of_N (Byte.to_N b).

Lemma Z_of_byte_range b : 0 <= Z_of_byte b < 256.
Proof. unfold Z_of_byte. pose proof (Byte.to_N_bounded b). lia. Qed.

Lemma Z_of_byte_of_Z z : Z_of_byte (byte_of_Z z) = z mod 256.
Proof.
  unfold byte_of_Z, Z_of_byte.
  pose proof (Z.mod_pos_bound z 256 ltac:(lia)) as Hz.
  destruct (Byte.of_N (Z.to_N (z mod 256))) as [b|] eqn:E; simpl.
  - apply Byte.to_of_N in E. rewrite E. lia.
  - apply Byte.of_N_None_iff in E. lia.
Qed.

Lemma byte_of_Z_of_byte b : byte_of_Z (Z_of_byte b) = b.
Proof.
  unfold byte_of_Z. rewrite Z.mod_small by apply Z_of_byte_range.
  unfold Z_of_byte. rewrite N2Z.id, Byte.of_to_N. reflexivity.
Qed.

(** [be_put n z] is [PutUint(8n)]: [n] bytes, most significant first. *)
Fixpoint be_put (n : nat) (z : Z) : list byte :=
  match n with
  | O => []
  | S m => byte_of_Z (z / 256 ^ Z.of_nat m) :: be_put m z
  end.

Definition be_get (l : list byte) : Z :=
  fold_left (fun acc b => acc * 256 + Z_of_byte b) l 0.

Definition PutUint16 := be_put 2.
Definition PutUint32 := be_put 4.
Definition PutUint64 := be_put 8.

Lemma be_put_length n z : length (be_put n z) = n.
Proof. induction n; simpl; auto. Qed.

Lemma be_get_acc l acc :
  fold_left (fun acc b => acc * 256 + Z_of_byte b) l acc = acc * 256 ^ len l + be_get l.
Proof.
  revert acc. unfold be_get, len. induction l as [|b l IH]; intros acc; simpl fold_left.
  - rewrite Z.pow_0_r. lia.
  - rewrite IH, (IH (0 * 256 + Z_of_byte b)).
    simpl length. rewrite Nat2Z.inj_succ, Z.pow_succ_r by lia. ring.
Qed.

Lemma be_get_put n z : be_get (be_put n z) = z mod 256 ^ Z.of_nat n.
Proof.
  induction n as [|n IH]; simpl be_put.
  - rewrite Z.pow_0_r, Z.mod_1_r. reflexivity.
  - unfold be_get. simpl fold_left. rewrite be_get_acc, IH, Z_of_byte_of_Z.
    unfold len. rewrite be_put_length, Nat2Z.inj_succ, Z.pow_succ_r by lia.
    rewrite (Z.mul_comm 256), Z.rem_mul_r by lia. lia.
Qed.

Lemma be_get_range l : 0 <= be_get l < 256 ^ len l.
Proof.
  induction l as [|b l IH]; [cbv; split; congruence|].
  unfold be_get. simpl fold_left. rewrite be_get_acc.
  unfold len in *. simpl length. rewrite Nat2Z.inj_succ, Z.pow_succ_r by lia.
  pose proof (Z_of_byte_range b). nia.
Qed.

Lemma be_get_put_id n z : 0 <= z < 256 ^ Z.of_nat n -> be_get (be_put n z) = z.
Proof. intros. rewrite be_get_put. by apply Z.mod_small. Qed.

Lemma be_put_get_aux n l z :
  length l = n -> z mod 256 ^ Z.of_nat n = be_get l -> be_put n z = l.
Proof.
  revert l z. induction n as [|n IH]; intros [|b l] z Hl Hz; try discriminate; [done|].
  simpl in Hl. injection Hl as Hl. simpl be_put.
  unfold be_get in Hz. simpl fold_left in Hz. rewrite be_get_acc in Hz.
  assert (Hlen : len l = Z.of_nat n) by (unfold len; lia). rewrite Hlen in Hz.
  rewrite Nat2Z.inj_succ, Z.pow_succ_r in Hz by lia.
  rewrite (Z.mul_comm 256), Z.rem_mul_r in Hz by lia.
  pose proof (be_get_range l) as Hr. rewrite Hlen in Hr.
  pose proof (Z_of_byte_range b).
  assert (0 < 256 ^ Z.of_nat n) as Hp by lia.
  pose proof (Z.mod_pos_bound z (256 ^ Z.of_nat n) Hp).
  set (q := (z / 256 ^ Z.of_nat n) mod 256) in *.
  destruct (Z.div_mod_unique (256 ^ Z.of_nat n) q (Z_of_byte b)
    (z mod 256 ^ Z.of_nat n) (be_get l)) as [Hq Hm]; [lia..|].
  f_equal; [|by apply IH].
  rewrite <- (byte_of_Z_of_byte b), <- Hq. unfold byte_of_Z, q.
  by rewrite Z.mod_mod by lia.
Qed.

Lemma be_put_get l : be_put (length l) (be_get l) = l.
Proof.
  apply be_put_get_aux; [done|]. apply Z.mod_small.
  pose proof (be_get_range l) as H. unfold len in H. exact H.
Qed.

(** The bytes of a Go string literal. *)
Fixpoint bytes (s : string) : list byte :=
  match s with
  | EmptyString => []
  | String c s' => byte_of_Z (Z.of_N (Ascii.N_of_ascii c)) :: bytes s'
  end.

Definition zero_bytes (n : nat) : list byte := replicate n x00.

#[global] Arguments be_put : simpl never.
#[global] Arguments be_get : simpl never.
#[global] Arguments bytes : simpl never.
#[global] Arguments u64 : simpl never.
#[global] Arguments len : simpl never.
#[global] Arguments ztake : simpl never.
#[global] Arguments zdrop : simpl never.
#[global] Arguments slice : simpl never.
#[global] Arguments byte_of_Z : simpl never.
#[global] Arguments Z_of_byte : simpl never.
#[global] Arguments zero_bytes : simpl never.

(** ** Record update

    [Eta R] rebuilds a record from its projections; a [Setter] for a field is
    that term with the field's projection replaced. *)
Class Eta (R : Type) := eta : R -> R.

Class Setter {R E : Type} (proj : R -> E) := set_field : E -> R -> R.
Arguments set_field {R E} proj {_} _ _ /.

Ltac derive_setter :=
  lazymatch goal with
  | |- @Setter ?R ?E ?proj =>
      let e := constr:(_ : Eta R) in
      let body := eval red in e in
      lazymatch eval pattern proj in body with
      | ?f _ => let t := eval cbv beta in (fun (v : E) => f (fun _ => v)) in exact t
      end
  end.
#[export] Hint Extern 1 (Setter _) => derive_setter : typeclass_instances.

Notation "x <| proj := v |>" := (set_field proj v x)
  (at level 1, v at level 99, left associativity, format "x <| proj  :=  v |>").

(** ** Errors and panics

    A Go function that returns [(value, error)] returns a [result]; a step that
    may panic returns an [option]. *)
Inductive result (E A : Type) : Type :=
| Ok (a : A)
| Err (e : E).
Arguments Ok {E A} a.
Arguments Err {E A} e.

Lemma Ok_inj {E A} (a b : A) : @Ok E A a = Ok b -> a = b.
Proof. by inversion 1. Qed.

Definition is_ok {E A} (r : result E A) : bool :=
  match r with Ok _ => true | Err _ => false end.

(** ** Tactics *)
Ltac invc H := inversion H; subst; clear H.

(** Case analysis on the innermost condition or scrutinee of the goal or of a
    hypothesis, keeping the equation. *)
Ltac case_one :=
  match goal with
  | |- context [match ?x with _ => _ end] =>
      lazymatch x with context [match _ with _ => _ end] => fail | _ => destruct x eqn:? end
  | H : context [match ?x with _ => _ end] |- _ =>
      lazymatch x with context [match _ with _ => _ end] => fail | _ => destruct x eqn:? end
  end.

(** Boolean comparisons of the code as propositions. *)
Ltac bool_hyp :=
  match goal with
  | H : _ && _ = true |- _ => apply andb_true_iff in H as [? ?]
  | H : _ || _ = false |- _ => apply orb_false_iff in H as [? ?]
  | H : negb _ = true |- _ => apply negb_true_iff in H
  | H : negb _ = false |- _ => apply negb_false_iff in H
  | H : (_ <? _) = true |- _ => apply Z.ltb_lt in H
  | H : (_ <? _) = false |- _ => apply Z.ltb_ge in H
  | H : (_ <=? _) = true |- _ => apply Z.leb_le in H
  | H : (_ <=? _) = false |- _ => apply Z.leb_gt in H
  | H : (_ =? _) = true |- _ => apply Z.eqb_eq in H
  | H : (_ =? _) = false |- _ => apply Z.eqb_neq in H
  | H : bool_decide _ = true |- _ => apply bool_decide_eq_true_1 in H
  | H : bool_decide _ = false |- _ => apply bool_decide_eq_false_1 in H
  end.
Ltac bool_hyps := repeat bool_hyp.

(** ** Hint databases *)
Create HintDb go.
Create Rewrite HintDb conn.
#[export] Hint Resolve len_nonneg u64_range Z_of_byte_range : go.
Create Rewrite HintDb len.
#[export] Hint Rewrite @len_app @len_cons @len_nil : len.
#[export] Hint Rewrite @len_zdrop @len_ztake using lia : len.

(** ** The characters of a relay region *)
(** A rune outside ASCII is none of the allowed characters, and so is a byte of it. *)
Definition regionChar (c : Ascii.ascii) : bool :=
  let z := Z.of_N (Ascii.N_of_ascii c) in
  ((97 <=? z) && (z <=? 122)) || ((65 <=? z) && (z <=? 90)) || ((48 <=? z) && (z <=? 57))
  || (z =? 95) || (z =? 46) || (z =? 58) || (z =? 45).
Fixpoint allChars (s : string) : bool :=
  match s with EmptyString => true | String c s' => regionChar c && allChars s' end.
