(* ===== verification/Sha256.v ===== *)
(** * SHA-256 and HMAC-SHA-256

    Executable definitions of the two functions of Go's [crypto/sha256] and
    [crypto/hmac] that the modelled code calls.  They follow FIPS 180-4 and RFC
    2104 and are checked against the published test vectors. *)
From S2P Require Import Prelude.

Definition w32 (z : Z) : Z := z mod 4294967296.
Definition add32 (a b : Z) : Z := w32 (a + b).
Definition rotr (n x : Z) : Z := Z.lor (Z.shiftr x n) (w32 (Z.shiftl x (32 - n))).
Definition not32 (x : Z) : Z := Z.lxor x 4294967295.

Definition Ch (x y z : Z) := Z.lxor (Z.land x y) (Z.land (not32 x) z).
Definition Maj (x y z : Z) := Z.lxor (Z.lxor (Z.land x y) (Z.land x z)) (Z.land y z).
Definition bigSigma0 x := Z.lxor (Z.lxor (rotr 2 x) (rotr 13 x)) (rotr 22 x).
Definition bigSigma1 x := Z.lxor (Z.lxor (rotr 6 x) (rotr 11 x)) (rotr 25 x).
Definition smallSigma0 x := Z.lxor (Z.lxor (rotr 7 x) (rotr 18 x)) (Z.shiftr x 3).
Definition smallSigma1 x := Z.lxor (Z.lxor (rotr 17 x) (rotr 19 x)) (Z.shiftr x 10).

(** The constants, as FIPS 180-4 defines them: the first 32 bits of the fractional
    parts of the cube roots of the first 64 primes, and of the square roots of the
    first eight.  [cbrt] finds the integer cube root bit by bit; 35 bits are enough
    for the cube root of [311 * 2 ^ 96]. *)
Definition prime (n : Z) : bool := forallb (fun d => negb (n mod Z.of_nat d =? 0)) (seq 2 16).
Definition primes64 : list Z :=
  [2; 3; 5; 7; 11; 13; 17] ++ List.filter prime (map Z.of_nat (seq 18 294)).

Fixpoint cbrt (bits : nat) (n acc : Z) : Z :=
  match bits with
  | O => acc
  | S m => let c := acc + 2 ^ Z.of_nat m in cbrt m n (if c * c * c <=? n then c else acc)
  end.

Definition K256 : list Z :=
  Eval vm_compute in map (fun p => w32 (cbrt 35 (p * 2 ^ 96) 0)) primes64.
Definition H256 : list Z :=
  Eval vm_compute in map (fun p => w32 (Z.sqrt (p * 2 ^ 64))) (take 8 primes64).

(** The message schedule: [prev] holds the last sixteen words, newest first. *)
Fixpoint schedule (n : nat) (prev acc : list Z) : list Z :=
  match n with
  | O => reverse acc
  | S m =>
      let w i := nth i prev 0 in
      let x := add32 (add32 (smallSigma1 (w 1%nat)) (w 6%nat)) (add32 (smallSigma0 (w 14%nat)) (w 15%nat)) in
      schedule m (x :: take 15 prev) (x :: acc)
  end.

Definition round (st : list Z) (kw : Z * Z) : list Z :=
  match st with
  | [a; b; c; d; e; f; g; h] =>
      let t1 := add32 (add32 (add32 h (bigSigma1 e)) (Ch e f g)) (add32 (fst kw) (snd kw)) in
      let t2 := add32 (bigSigma0 a) (Maj a b c) in
      [add32 t1 t2; a; b; c; add32 d t1; e; f; g]
  | _ => st
  end.

Fixpoint words (n : nat) (l : list byte) : list Z :=
  match n with O => [] | S m => be_get (take 4 l) :: words m (drop 4 l) end.

Definition compress (st : list Z) (block : list byte) : list Z :=
  let w := words 16 block in
  let ws := w ++ schedule 48 (reverse w) [] in
  zip_with add32 st (fold_left round (zip_with pair K256 ws) st).

Fixpoint blocks (n : nat) (l : list byte) (st : list Z) : list Z :=
  match n with O => st | S m => blocks m (drop 64 l) (compress st (take 64 l)) end.

Definition pad (m : list byte) : list byte :=
  let n := length m in
  m ++ byte_of_Z 128 :: zero_bytes (Z.to_nat ((55 - len m) mod 64)) ++ be_put 8 (8 * Z.of_nat n).

(** [sha256.Sum256]. *)
Definition Sum256 (m : list byte) : list byte :=
  let p := pad m in
  flat_map (be_put 4) (blocks (Nat.div (length p) 64) p H256).

(** [hmac.New(sha256.New, key)] written with [m] and summed. *)
Definition hmac256 (key m : list byte) : list byte :=
  let k := if (64 <? len key) then Sum256 key else key in
  let k0 := k ++ zero_bytes (64 - length k) in
  let xor c := map (fun b => byte_of_Z (Z.lxor (Z_of_byte b) c)) k0 in
  Sum256 (xor 0x5c ++ Sum256 (xor 0x36 ++ m)).

Lemma round_length st kw : length st = 8%nat -> length (round st kw) = 8%nat.
Proof. do 9 (destruct st as [|? st]; try done). Qed.

Lemma rounds_length kws st : length st = 8%nat -> length (fold_left round kws st) = 8%nat.
Proof. revert st. induction kws; intros; simpl; auto using round_length. Qed.

Lemma blocks_length n l st : length st = 8%nat -> length (blocks n l st) = 8%nat.
Proof.
  revert l st. induction n as [|n IH]; intros l st H; simpl; [done|].
  apply IH. unfold compress. rewrite length_zip_with, rounds_length; lia.
Qed.

Lemma flat_map_be_put_length n l : length (flat_map (be_put n) l) = (n * length l)%nat.
Proof. induction l; simpl; rewrite ?length_app, ?be_put_length; lia. Qed.

(** A digest has 32 bytes whatever the message. *)
Lemma Sum256_length m : length (Sum256 m) = 32%nat.
Proof. unfold Sum256. rewrite flat_map_be_put_length, blocks_length; done. Qed.

Lemma hmac256_length k m : length (hmac256 k m) = 32%nat.
Proof. apply Sum256_length. Qed.

Example Sum256_abc :
  map Z_of_byte (take 8 (Sum256 (bytes "abc"))) = [0xba; 0x78; 0x16; 0xbf; 0x8f; 0x01; 0xcf; 0xea].
Proof. vm_compute. reflexivity. Qed.

Example Sum256_two_blocks :
  map Z_of_byte (take 8 (Sum256 (bytes "abcdbcdecdefdefgefghfghighijhijkijkljklmklmnlmnomnopnopq")))
  = [0x24; 0x8d; 0x6a; 0x61; 0xd2; 0x06; 0x38; 0xb8].
Proof. vm_compute. reflexivity. Qed.

Example hmac256_rfc4231_2 :
  map Z_of_byte (take 8 (hmac256 (bytes "Jefe") (bytes "what do ya want for nothing?")))
  = [0x5b; 0xdc; 0xc1; 0x46; 0xbf; 0x60; 0x75; 0x4e].
Proof. vm_compute. reflexivity. Qed.
