(* ===== verification/Codec.v ===== *)
(** * Byte-stream codecs

    The framing interface the wire formats implement: a reader that consumes a
    prefix of a byte stream, a writer, and the two laws that make a format
    usable over an ordered byte carrier.  Clients that move sequences of
    messages are proved against the class. *)
From S2P Require Import Prelude.

(** Errors a reader of a stream can return ([io.EOF], [io.ErrUnexpectedEOF]) and
    the format's own rejection. *)
Inductive ReadError := EOF | ErrUnexpectedEOF | ErrProtocol.

(** [io.ReadFull(r, make([]byte, n))] on the bytes the peer has sent before it
    closed: the [n] bytes and the rest. *)
Definition ReadFull (n : nat) (s : list byte) : result ReadError (list byte * list byte) :=
  match n, s with
  | O, _ => Ok ([], s)
  | _, [] => Err EOF
  | _, _ => if (Z.of_nat n <=? len s) then Ok (take n s, drop n s) else Err ErrUnexpectedEOF
  end.

(** Fixed-position fields of a header: [sub lo hi l] is [l[lo:hi]] for constant
    bounds inside a fixed-size array. *)
Definition sub (lo hi : nat) (l : list byte) : list byte := take (hi - lo) (drop lo l).

Lemma ReadFull_app n a s : length a = n -> ReadFull n (a ++ s) = Ok (a, s).
Proof.
  intros <-. unfold ReadFull. destruct a as [|b a]; [done|]. simpl app. cbv beta iota.
  change (b :: a ++ s) with ((b :: a) ++ s).
  rewrite (proj2 (Z.leb_le _ _)); [|unfold len; rewrite length_app; simpl; lia].
  by rewrite take_app_length, drop_app_length.
Qed.

Lemma ReadFull_Ok n s a r : ReadFull n s = Ok (a, r) -> s = a ++ r /\ length a = n.
Proof.
  unfold ReadFull, len. destruct n as [|n]; [by intros [= <- <-]|].
  destruct s as [|b s]; [done|]. case_match eqn:E; intros [= <- <-].
  apply Z.leb_le in E. simpl in *. split; [by rewrite take_drop|].
  rewrite length_take. lia.
Qed.

Lemma sub_length lo hi l : (lo <= hi <= length l)%nat -> length (sub lo hi l) = (hi - lo)%nat.
Proof. intros. unfold sub. rewrite length_take, length_drop. lia. Qed.

Lemma sub_skip lo hi a l :
  (length a <= lo)%nat -> sub lo hi (a ++ l) = sub (lo - length a) (hi - length a) l.
Proof.
  intros. unfold sub. rewrite drop_app_ge by lia. f_equal. lia.
Qed.

Lemma sub_here hi a l : length a = hi -> sub 0 hi (a ++ l) = a.
Proof. intros <-. unfold sub. rewrite drop_0, Nat.sub_0_r. apply take_app_length. Qed.

Lemma sub_all hi a : length a = hi -> sub 0 hi a = a.
Proof. intros <-. unfold sub. rewrite drop_0, Nat.sub_0_r. by apply take_ge. Qed.

Lemma sub_glue a b c l :
  (a <= b <= c)%nat -> sub a b l ++ sub b c l = sub a c l.
Proof.
  intros. unfold sub. replace (drop b l) with (drop (b - a) (drop a l)).
  2: { rewrite drop_drop. f_equal. lia. }
  rewrite (take_drop_commute (drop a l)). replace (b - a + (c - b))%nat with (c - a)%nat by lia.
  rewrite <- (take_drop (b - a) (take (c - a) (drop a l))) at 2.
  by rewrite take_take, Nat.min_l by lia.
Qed.

Lemma sub_whole n l : length l = n -> sub 0 n l = l.
Proof. apply sub_all. Qed.

Lemma nth_sub k l : (k < length l)%nat -> sub k (S k) l = [nth k l x00].
Proof.
  revert k. induction l as [|b l IH]; intros [|k] Hk; simpl in Hk; try lia; [done|].
  change (sub (S k) (S (S k)) (b :: l)) with (sub k (S k) l). apply IH. lia.
Qed.

Lemma nth_skip k a l : (length a <= k)%nat -> nth k (a ++ l) x00 = nth (k - length a) l x00.
Proof. apply app_nth2. Qed.

(** Solves [sub lo hi (f1 ++ f2 ++ ...) = fi] when the lengths of the fields are
    hypotheses of the form [length f = n]. *)
Ltac known_lengths :=
  cbn [length];
  repeat match goal with H : length ?x = _ |- context [length ?x] => rewrite H end.
Ltac take_field :=
  repeat (rewrite sub_skip by (known_lengths; lia); known_lengths; cbn [Nat.sub]);
  first [apply sub_here; known_lengths; lia | apply sub_all; known_lengths; lia].

(** ** The codec interface *)
Class StreamCodec (A : Type) := {
  codec_valid : A -> Prop;
  codec_put : A -> list byte;
  codec_get : list byte -> result ReadError (A * list byte);
  codec_get_put a rest : codec_valid a -> codec_get (codec_put a ++ rest) = Ok (a, rest);
  codec_put_get s a rest :
    codec_get s = Ok (a, rest) -> codec_valid a /\ s = codec_put a ++ rest;
  codec_put_nonempty a : codec_put a <> [];
  codec_get_nil : codec_get [] = Err EOF
}.

Section client.
Context {A : Type} `{StreamCodec A}.

(** A reader loop: messages until the stream fails, with the error it saw. *)
Fixpoint read_all (fuel : nat) (s : list byte) : list A * ReadError :=
  match fuel with
  | O => ([], EOF)
  | S n =>
      match codec_get s with
      | Ok (a, rest) => let '(l, e) := read_all n rest in (a :: l, e)
      | Err e => ([], e)
      end
  end.

Definition write_all (l : list A) : list byte := flat_map codec_put l.

Lemma codec_put_pos a : (1 <= length (codec_put a))%nat.
Proof. destruct (codec_put a) eqn:E; [by apply codec_put_nonempty in E|simpl; lia]. Qed.

(** Whatever a writer loop puts on the carrier, the reader loop gets, in order,
    and then a clean end of stream; one fuel unit per message is enough. *)
Lemma read_all_write_all l fuel :
  Forall codec_valid l -> (length l < fuel)%nat -> read_all fuel (write_all l) = (l, EOF).
Proof.
  intros HF. revert fuel. induction HF as [|a l Ha HF IH]; intros [|fuel] Hf; simpl in *; try lia.
  - by rewrite codec_get_nil.
  - unfold write_all. simpl. rewrite codec_get_put by done.
    change (flat_map codec_put l) with (write_all l). rewrite IH by lia. done.
Qed.

(** Two message sequences with the same bytes are the same sequence. *)
Lemma write_all_inj l l' :
  Forall codec_valid l -> Forall codec_valid l' -> write_all l = write_all l' -> l = l'.
Proof.
  intros H1 H2 Heq.
  pose proof (read_all_write_all l (S (length l + length l')) H1 ltac:(lia)) as E1.
  pose proof (read_all_write_all l' (S (length l + length l')) H2 ltac:(lia)) as E2.
  rewrite Heq in E1. congruence.
Qed.

(** A carrier cut inside its last message delivers a prefix of what was sent. *)
Lemma read_all_cut l n fuel out e :
  Forall codec_valid l -> read_all fuel (take n (write_all l)) = (out, e) -> out `prefix_of` l.
Proof.
  intros HF. revert n fuel out e. induction HF as [|a l Ha HF IH]; intros n fuel out e.
  - unfold write_all. simpl. rewrite take_nil. destruct fuel; simpl.
    + intros [= <- _]. apply prefix_nil.
    + rewrite codec_get_nil. intros [= <- _]. apply prefix_nil.
  - destruct fuel as [|fuel]; simpl; [intros [= <- _]; apply prefix_nil|].
    unfold write_all. simpl. change (flat_map codec_put l) with (write_all l).
    destruct (le_lt_dec (length (codec_put a)) n) as [Hn|Hn].
    + rewrite take_app_ge by lia. rewrite codec_get_put by done.
      destruct (read_all fuel _) as [out' e'] eqn:E. intros [= <- <-].
      apply prefix_cons. by eapply IH.
    + rewrite take_app_le by lia.
      destruct (codec_get _) as [[b rest]|e0] eqn:E; [|intros [= <- _]; apply prefix_nil].
      exfalso. apply codec_put_get in E as [Hb E].
      pose proof (codec_get_put b (rest ++ drop n (codec_put a)) Hb) as G1.
      rewrite app_assoc, <- E, take_drop in G1.
      pose proof (codec_get_put a [] Ha) as G2. rewrite app_nil_r in G2.
      rewrite G1 in G2. injection G2 as -> G2.
      apply app_eq_nil in G2 as [_ G2]. apply (f_equal length) in G2.
      rewrite length_drop in G2. simpl in G2. lia.
Qed.

End client.
