(* ===== verification/ResumableWire.v ===== *)
(** * Resumable stream: identities and wire formats

    Models [internal/peertransport/resumablestream/protocol.go] and the framing
    half of [conn.go]: the stream identity digest, the carrier hello and the
    thirteen-byte frame header, with both codecs as [StreamCodec] instances. *)
From S2P Require Import Prelude Sha256 Codec.

Inductive Role := RoleUnspecified | RoleInitiator | RoleResponder.
#[export] Instance Role_eq_dec : EqDecision Role.
Proof. solve_decision. Defined.

(** [CarrierID] is a [[16]byte], a digest a [[32]byte]. *)
Abbreviation CarrierID := (list byte).
Definition zeroCarrierID : CarrierID := zero_bytes 16.

Record StreamIdentity := mkStreamIdentity {
  Principal : list byte;
  OperationID : list byte;
  Consumer : list byte;
  StreamID : list byte
}.

Definition digest_preimage (i : StreamIdentity) : list byte :=
  bytes "paperboat-resumable-stream-v2" ++ [x00] ++
  flat_map (fun value => PutUint32 (len value) ++ value)
    [Principal i; OperationID i; Consumer i; StreamID i].

(** [None] is [ErrInvalid]. *)
Definition digest (i : StreamIdentity) : option (list byte) :=
  if bool_decide (Principal i = []) || bool_decide (OperationID i = []) ||
     bool_decide (Consumer i = []) || bool_decide (StreamID i = [])
  then None else Some (Sum256 (digest_preimage i)).

(** ** Carrier hello *)
Inductive HelloKind := helloPrepare | helloReady.
#[export] Instance HelloKind_eq_dec : EqDecision HelloKind.
Proof. solve_decision. Defined.

Definition HelloKind_byte (k : HelloKind) : byte :=
  match k with helloPrepare => x01 | helloReady => x02 end.

Definition HelloKind_of_byte (b : byte) : option HelloKind :=
  match b with x01 => Some helloPrepare | x02 => Some helloReady | _ => None end.

Record helloV2 := mkHello {
  kind : HelloKind;
  hdigest : list byte;
  carrier : CarrierID;
  epoch : Z;
  hcommittedEpoch : Z;
  ack : Z;
  fin : bool;
  finOffset : Z
}.

Definition helloMagic : list byte := bytes "PBRS" ++ [x00; x00; x00; x03].
Definition helloV2Size : nat := 90.

Definition writeHello (h : helloV2) : list byte :=
  helloMagic ++ [HelloKind_byte (kind h)] ++ hdigest h ++ carrier h ++
  PutUint64 (epoch h) ++ PutUint64 (hcommittedEpoch h) ++ PutUint64 (ack h) ++
  [if fin h then x01 else x00] ++ PutUint64 (finOffset h).

Definition decodeHello (encoded : list byte) : result ReadError helloV2 :=
  match HelloKind_of_byte (nth 8 encoded x00) with
  | None => Err ErrProtocol
  | Some k =>
      if negb (bool_decide (sub 0 8 encoded = helloMagic)) ||
         (1 <? Z_of_byte (nth 81 encoded x00)) then Err ErrProtocol
      else
        let value := {| kind := k; hdigest := sub 9 41 encoded; carrier := sub 41 57 encoded;
             epoch := be_get (sub 57 65 encoded); hcommittedEpoch := be_get (sub 65 73 encoded);
             ack := be_get (sub 73 81 encoded); fin := (Z_of_byte (nth 81 encoded x00) =? 1);
             finOffset := be_get (sub 82 90 encoded) |} in
        if bool_decide (carrier value = zeroCarrierID) || (epoch value =? 0)
        then Err ErrProtocol else Ok value
  end.

Definition readHello (s : list byte) : result ReadError (helloV2 * list byte) :=
  match ReadFull helloV2Size s with
  | Err e => Err e
  | Ok (encoded, rest) =>
      match decodeHello encoded with Err e => Err e | Ok h => Ok (h, rest) end
  end.

(** What Go's types guarantee of a [helloV2], and what [readHello] checks. *)
Definition isUint64 (z : Z) : Prop := 0 <= z < two64.
Definition hello_valid (h : helloV2) : Prop :=
  length (hdigest h) = 32%nat /\ length (carrier h) = 16%nat /\ carrier h <> zeroCarrierID /\
  isUint64 (epoch h) /\ epoch h <> 0 /\ isUint64 (hcommittedEpoch h) /\
  isUint64 (ack h) /\ isUint64 (finOffset h).

(** ** Frames *)
Inductive FrameKind :=
| frameData | frameAck | frameFIN | frameReset | frameFINAck
| frameCommit | frameCommitAck | frameConfirm | frameDiscard | frameDiscardAck.
#[export] Instance FrameKind_eq_dec : EqDecision FrameKind.
Proof. solve_decision. Defined.

Definition FrameKind_byte (k : FrameKind) : byte :=
  match k with
  | frameData => x01 | frameAck => x02 | frameFIN => x03 | frameReset => x04
  | frameFINAck => x05 | frameCommit => x06 | frameCommitAck => x07
  | frameConfirm => x08 | frameDiscard => x09 | frameDiscardAck => x0a
  end.

Definition FrameKind_of_byte (b : byte) : option FrameKind :=
  match b with
  | x01 => Some frameData | x02 => Some frameAck | x03 => Some frameFIN | x04 => Some frameReset
  | x05 => Some frameFINAck | x06 => Some frameCommit | x07 => Some frameCommitAck
  | x08 => Some frameConfirm | x09 => Some frameDiscard | x0a => Some frameDiscardAck
  | _ => None
  end.

Definition maximumFrame : Z := 32768.
Definition headerSize : nat := 13.

Record Frame := mkFrame { fkind : FrameKind; fseq : Z; fpayload : list byte }.
#[export] Instance Frame_eq_dec : EqDecision Frame.
Proof. solve_decision. Defined.

Definition writeFrame_bytes (f : Frame) : list byte :=
  ([FrameKind_byte (fkind f)] ++ PutUint64 (fseq f) ++ PutUint32 (len (fpayload f))) ++ fpayload f.

Definition readFrame (s : list byte) : result ReadError (Frame * list byte) :=
  match ReadFull headerSize s with
  | Err e => Err e
  | Ok (header, s1) =>
      let size := be_get (sub 9 13 header) in
      match FrameKind_of_byte (nth 0 header x00) with
      | None => Err ErrProtocol
      | Some k =>
          if (maximumFrame <? size) || (negb (bool_decide (k = frameData)) && negb (size =? 0))
          then Err ErrProtocol
          else match ReadFull (Z.to_nat size) s1 with
               | Err e => Err e
               | Ok (payload, rest) => Ok (mkFrame k (be_get (sub 1 9 header)) payload, rest)
               end
      end
  end.

Definition frame_valid (f : Frame) : Prop :=
  isUint64 (fseq f) /\ len (fpayload f) <= maximumFrame /\
  (fkind f <> frameData -> fpayload f = []).

(** ** Round trips *)
Lemma HelloKind_of_to k : HelloKind_of_byte (HelloKind_byte k) = Some k.
Proof. by destruct k. Qed.

Lemma HelloKind_to_of b k : HelloKind_of_byte b = Some k -> HelloKind_byte k = b.
Proof. destruct b; simpl; try discriminate; by intros [= <-]. Qed.

Lemma FrameKind_of_to k : FrameKind_of_byte (FrameKind_byte k) = Some k.
Proof. by destruct k. Qed.

Lemma FrameKind_to_of b k : FrameKind_of_byte b = Some k -> FrameKind_byte k = b.
Proof. destruct b; simpl; try discriminate; by intros [= <-]. Qed.

Lemma writeHello_length h : hello_valid h -> length (writeHello h) = helloV2Size.
Proof.
  intros (H1 & H2 & _). unfold writeHello, helloV2Size, PutUint64.
  rewrite !length_app, !be_put_length, H1, H2. reflexivity.
Qed.

Lemma be_get_put64 z : isUint64 z -> be_get (PutUint64 z) = z.
Proof. intros H. apply be_get_put_id. exact H. Qed.

Lemma PutUint64_get l : length l = 8%nat -> PutUint64 (be_get l) = l.
Proof. intros H. unfold PutUint64. rewrite <- H. apply be_put_get. Qed.

Lemma be_get_uint64 l : length l = 8%nat -> isUint64 (be_get l).
Proof. intros H. pose proof (be_get_range l) as R. unfold len in R. rewrite H in R. exact R. Qed.

(** The field positions of a hello. *)
Lemma hello_fields (m g a b c d e f r : list byte) :
  length m = 8%nat -> length g = 1%nat -> length a = 32%nat -> length b = 16%nat ->
  length c = 8%nat -> length d = 8%nat -> length e = 8%nat -> length f = 1%nat ->
  length r = 8%nat ->
  let l := m ++ g ++ a ++ b ++ c ++ d ++ e ++ f ++ r in
  sub 0 8 l = m /\ sub 8 9 l = g /\ sub 9 41 l = a /\ sub 41 57 l = b /\ sub 57 65 l = c /\
  sub 65 73 l = d /\ sub 73 81 l = e /\ sub 81 82 l = f /\ sub 82 90 l = r.
Proof. intros. unfold l. repeat split; take_field. Qed.

Lemma hello_refields l :
  length l = 90%nat ->
  sub 0 8 l ++ sub 8 9 l ++ sub 9 41 l ++ sub 41 57 l ++ sub 57 65 l ++ sub 65 73 l ++
  sub 73 81 l ++ sub 81 82 l ++ sub 82 90 l = l.
Proof. intros. rewrite !sub_glue by lia. by apply sub_whole. Qed.

Lemma decodeHello_writeHello h : hello_valid h -> decodeHello (writeHello h) = Ok h.
Proof.
  intros Hv. pose proof (writeHello_length h Hv) as HL.
  destruct Hv as (Hd & Hc & Hz & He & He0 & Hce & Ha & Hf).
  destruct (hello_fields helloMagic [HelloKind_byte (kind h)] (hdigest h) (carrier h)
    (PutUint64 (epoch h)) (PutUint64 (hcommittedEpoch h)) (PutUint64 (ack h))
    [if fin h then x01 else x00] (PutUint64 (finOffset h)))
    as (F1 & F2 & F3 & F4 & F5 & F6 & F7 & F8 & F9); try done; try apply be_put_length.
  fold (writeHello h) in *.
  rewrite nth_sub in F2, F8 by (rewrite HL; unfold helloV2Size; lia).
  apply (f_equal (hd x00)) in F2, F8. cbn [hd] in F2, F8.
  unfold decodeHello. rewrite F1, F2, F3, F4, F5, F6, F7, F8, F9, HelloKind_of_to.
  rewrite !be_get_put64 by done. simpl.
  rewrite bool_decide_eq_false_2 by done. rewrite (proj2 (Z.eqb_neq _ _)) by done.
  destruct h as [? ? ? ? ? ? [] ?]; reflexivity.
Qed.

Lemma decodeHello_Ok l h :
  length l = 90%nat -> decodeHello l = Ok h -> hello_valid h /\ writeHello h = l.
Proof.
  intros HL. unfold decodeHello.
  destruct (HelloKind_of_byte _) as [k|] eqn:Hk; [|done].
  case_match eqn:G1; [done|]. case_match eqn:G2; [done|]. intros [= <-].
  bool_hyps. apply HelloKind_to_of in Hk. simpl in *.
  split.
  - unfold hello_valid; simpl. rewrite !sub_length by lia.
    repeat (split; [by try apply be_get_uint64; rewrite ?sub_length by lia|]).
    by apply be_get_uint64; rewrite sub_length by lia.
  - unfold writeHello. cbn [kind hdigest carrier epoch hcommittedEpoch ack fin finOffset].
    rewrite !PutUint64_get by (rewrite sub_length; lia).
    rewrite Hk. match goal with H : _ = helloMagic |- _ => rewrite <- H end.
    etransitivity; [|apply (hello_refields l HL)]. rewrite !nth_sub by lia.
    do 7 f_equal. f_equal. f_equal.
    destruct (nth 81 l x00); try done; exfalso;
      match goal with H : Z_of_byte _ <= 1 |- _ => by apply H end.
Qed.

Lemma readFrame_writeFrame f rest :
  frame_valid f -> readFrame (writeFrame_bytes f ++ rest) = Ok (f, rest).
Proof.
  intros (Hs & Hl & Hp). pose proof (len_nonneg (fpayload f)) as H0.
  unfold readFrame, writeFrame_bytes.
  set (hdr := [FrameKind_byte (fkind f)] ++ PutUint64 (fseq f) ++ PutUint32 (len (fpayload f))).
  assert (Lhdr : length hdr = 13%nat).
  { unfold hdr, PutUint64, PutUint32. rewrite !length_app, !be_put_length. done. }
  rewrite <- app_assoc, ReadFull_app by done.
  assert (L8 : length (PutUint64 (fseq f)) = 8%nat) by apply be_put_length.
  assert (L4 : length (PutUint32 (len (fpayload f))) = 4%nat) by apply be_put_length.
  replace (nth 0 hdr x00) with (FrameKind_byte (fkind f)) by done. rewrite FrameKind_of_to.
  replace (sub 9 13 hdr) with (PutUint32 (len (fpayload f))) by (symmetry; unfold hdr; take_field).
  replace (sub 1 9 hdr) with (PutUint64 (fseq f)) by (symmetry; unfold hdr; take_field).
  rewrite be_get_put64 by done. unfold PutUint32.
  rewrite be_get_put_id by (unfold maximumFrame in Hl; simpl; lia).
  rewrite (proj2 (Z.ltb_ge _ _)) by done.
  replace (negb _ && negb _) with false; cycle 1.
  { destruct (decide (fkind f = frameData)) as [->|Hk]; [done|]. by rewrite (Hp Hk), andb_false_r. }
  simpl orb. unfold len at 1. rewrite Nat2Z.id, ReadFull_app by done. by destruct f.
Qed.

Lemma readFrame_Ok s f rest :
  readFrame s = Ok (f, rest) -> frame_valid f /\ s = writeFrame_bytes f ++ rest.
Proof.
  unfold readFrame. destruct (ReadFull headerSize s) as [[header s1]|] eqn:E1; [|done].
  apply ReadFull_Ok in E1 as [-> Hh]. unfold headerSize in Hh.
  destruct (FrameKind_of_byte _) as [k|] eqn:Ek; [|done].
  case_match eqn:G; [done|].
  destruct (ReadFull _ s1) as [[payload rest']|] eqn:E2; [|done]. intros [= <- <-].
  apply ReadFull_Ok in E2 as [-> Hp]. apply orb_false_iff in G as [G1 G2]. bool_hyps.
  pose proof (be_get_range (sub 9 13 header)) as R.
  assert (Hlen : len payload = be_get (sub 9 13 header)) by (unfold len; lia).
  split.
  - unfold frame_valid; simpl. split; [apply be_get_uint64; rewrite sub_length; lia|].
    split; [lia|]. intros Hk. rewrite bool_decide_eq_false_2 in G2 by done.
    apply negb_false_iff, Z.eqb_eq in G2. apply len_zero_nil. lia.
  - unfold writeFrame_bytes; simpl fkind; simpl fseq; simpl fpayload.
    rewrite app_assoc. f_equal. f_equal. rewrite Hlen. unfold PutUint32.
    replace (be_put 4 _) with (sub 9 13 header)
      by (rewrite <- (be_put_get (sub 9 13 header)) at 1; by rewrite sub_length by lia).
    rewrite PutUint64_get by (rewrite sub_length; lia).
    apply FrameKind_to_of in Ek. rewrite Ek, <- nth_sub by lia.
    rewrite !sub_glue by lia. symmetry. by apply sub_whole.
Qed.

#[local] Obligation Tactic := idtac.

#[export] Program Instance frame_codec : StreamCodec Frame := {|
  codec_valid := frame_valid;
  codec_put := writeFrame_bytes;
  codec_get := readFrame;
  codec_get_put := readFrame_writeFrame;
  codec_put_get := readFrame_Ok
|}.
Next Obligation. done. Qed.
Next Obligation. done. Qed.

#[export] Program Instance hello_codec : StreamCodec helloV2 := {|
  codec_valid := hello_valid;
  codec_put := writeHello;
  codec_get := readHello
|}.
Next Obligation.
  intros h rest Hv. unfold readHello. rewrite ReadFull_app by by apply writeHello_length.
  by rewrite decodeHello_writeHello.
Qed.
Next Obligation.
  intros s h rest. unfold readHello.
  destruct (ReadFull _ s) as [[l r]|] eqn:E; [|done].
  apply ReadFull_Ok in E as [-> HL]. destruct (decodeHello l) as [h'|] eqn:D; [|done].
  intros [= <- <-]. apply decodeHello_Ok in D as [Hv <-]; done.
Qed.
Next Obligation. done. Qed.
Next Obligation. done. Qed.

(** Distinct identities have distinct digest pre-images: the length prefixes make
    the encoding of the four fields injective. *)
Lemma PutUint32_app_inj a b r r' :
  len a < 4294967296 -> len b < 4294967296 ->
  (PutUint32 (len a) ++ a) ++ r = (PutUint32 (len b) ++ b) ++ r' -> a = b /\ r = r'.
Proof.
  intros Ha Hb. rewrite <- !app_assoc. intros Heq.
  apply app_inj_1 in Heq as [H1 H2]; [|by unfold PutUint32; rewrite !be_put_length].
  apply (f_equal be_get) in H1. unfold PutUint32 in H1.
  pose proof (len_nonneg a). pose proof (len_nonneg b).
  rewrite !be_get_put_id in H1 by (simpl; lia).
  apply app_inj_1 in H2; [done|]. unfold len in H1. lia.
Qed.
