(* ===== verification/ResumableConn.v ===== *)
(** * Resumable stream: one endpoint

    Models [Conn] of [internal/peertransport/resumablestream/conn.go].

    [Conn] is shared by many goroutines: one reader and one writer per carrier,
    the acknowledgement writer, the goroutines a frame or a failure spawns, and
    the callers of the API.  Every goroutine alternates sections that hold
    [c.mu] with operations on a carrier.  Here a [Task] is one point of a
    goroutine between two such sections, and [step_task] runs the next section:
    it returns the new [Conn], what the goroutine does next, the goroutines it
    spawned and what it put on its carriers.  A reader of the source finds one
    [Task] constructor per place where the source releases [c.mu] or does I/O.

    Physical carriers are shared mutable objects in the source ([c.active],
    [c.prepared], [c.retained] and every goroutine hold pointers to them), so
    they live in a heap indexed by a reference, which also names the carrier's
    [net.Conn]. *)
From S2P Require Import Prelude Codec ResumableWire.

Abbreviation Ref := nat.

Inductive CarrierState :=
| carrierProvisional | carrierPrepared | carrierCommitting | carrierActive
| carrierRetained | carrierSuperseded | carrierFailed.
#[export] Instance CarrierState_eq_dec : EqDecision CarrierState.
Proof. solve_decision. Defined.

Inductive applicationDispositionT := applicationReject | applicationAccept | applicationIgnoreLate.

Inductive Error :=
| ErrInvalid
| ErrProto
| ErrZeroCarrier
| ErrFrame (stage : string) (k : FrameKind) (sequence : Z) (carrierEpoch : Z)
    (state : CarrierState) (committed : Z)
| ErrNetClosed
| ErrIO (code : Z)
| ErrContext
| ErrDetachedExpired
| ErrDeadlineExceeded.

Record physicalCarrier := mkCarrier { pcid : CarrierID; pcepoch : Z; pcstate : CarrierState }.
#[export] Instance physicalCarrier_eta : Eta physicalCarrier :=
  fun p => mkCarrier (pcid p) (pcepoch p) (pcstate p).

Inductive EventType := EventDetached | EventActive | EventPrepared | EventCarrierFailed | EventAborted.
#[export] Instance EventType_eq_dec : EqDecision EventType.
Proof. solve_decision. Defined.

Record Event := mkEvent {
  evType : EventType;
  evFailed : CarrierID;
  evActive : CarrierID;
  evPrepared : CarrierID;
  evCommittedEpoch : Z;
  evErr : option Error
}.

Record CarrierHandle := mkHandle { hID : CarrierID; hEpoch : Z }.

(** A [chan error] of capacity one: empty, or holding a value ([None] is nil). *)
Abbreviation ErrChan := (option (option Error)).

Record Conn := mkConn {
  window : Z;
  role : Role;
  identity : list byte;
  transitionMu : bool;
  heap : gmap Ref physicalCarrier;
  active : option Ref;
  prepared : option Ref;
  retained : option Ref;
  nextEpoch : Z;
  committedEpoch : Z;
  commitWait : gmap CarrierID nat;
  discardWait : gmap CarrierID nat;
  chans : list ErrChan;
  events : list Event;
  detached : bool;
  detachedSeq : Z;
  sendBase : Z;
  sendNext : Z;
  send : list byte;
  localFIN : bool;
  finSent : CarrierID;
  finAcked : bool;
  recvNext : Z;
  recvBase : Z;
  recv : list byte;
  ackCarrier : CarrierID;
  ackOffset : Z;
  remoteFIN : bool;
  remoteFINAt : Z;
  readDeadline : option Z;
  writeDeadline : option Z;
  closed : bool;
  terminalErr : option Error;
  firstRecvSeen : bool;
  ctxDone : bool
}.
#[export] Instance Conn_eta : Eta Conn := fun c => mkConn (window c) (role c) (identity c)
  (transitionMu c) (heap c) (active c) (prepared c) (retained c) (nextEpoch c)
  (committedEpoch c) (commitWait c) (discardWait c) (chans c) (events c) (detached c)
  (detachedSeq c) (sendBase c) (sendNext c) (send c) (localFIN c) (finSent c) (finAcked c)
  (recvNext c) (recvBase c) (recv c) (ackCarrier c) (ackOffset c) (remoteFIN c)
  (remoteFINAt c) (readDeadline c) (writeDeadline c) (closed c) (terminalErr c) (firstRecvSeen c) (ctxDone c).

Record Config := mkConfig {
  cfgWindowBytes : Z; cfgRole : Role; cfgIdentity : StreamIdentity }.

(** The logical stream [New] returns, before any carrier is attached. *)
Definition initConn (w : Z) (r : Role) (dig : list byte) : Conn :=
  {| window := w; role := r; identity := dig; transitionMu := false; heap := ∅;
     active := None; prepared := None; retained := None; nextEpoch := 0; committedEpoch := 0;
     commitWait := ∅; discardWait := ∅; chans := []; events := []; detached := false;
     detachedSeq := 0; sendBase := 0; sendNext := 0; send := []; localFIN := false;
     finSent := zeroCarrierID; finAcked := false; recvNext := 0; recvBase := 0; recv := [];
     ackCarrier := zeroCarrierID; ackOffset := 0; remoteFIN := false; remoteFINAt := 0;
     readDeadline := None; writeDeadline := None; closed := false; terminalErr := None; firstRecvSeen := false; ctxDone := false |}.

Definition New (config : Config) : option Conn :=
  match digest (cfgIdentity config) with
  | None => None
  | Some dig =>
      if (cfgWindowBytes config <? maximumFrame) || (67108864 <? cfgWindowBytes config) ||
         bool_decide (cfgRole config = RoleUnspecified) then None
      else Some (initConn (cfgWindowBytes config) (cfgRole config) dig)
  end.

(** ** What a section does *)
Inductive Out :=
| OFrame (p : Ref) (f : Frame)     (** a frame handed to the carrier *)
| OHello (p : Ref) (h : helloV2)
| OClose (p : Ref)                 (** [carrier.conn.Close()] *)
| ORet (r : result Error CarrierHandle). (** the API call returns *)

(** Program points of the goroutines (the name says the function). *)
Inductive Task :=
| RdRead (p : Ref) | RdFrame (p : Ref) (f : Frame) | RdSwitch (p : Ref) (f : Frame)
| RdApply (p : Ref) (f : Frame) | RdCommitAck (p : Ref) (first : bool) | RdDiscardAck (p : Ref)
| WaLoop (p : Ref) (offset : Z) | WaData (p : Ref) (offset sequence : Z) (payload : list byte)
| WaFin (p : Ref) (offset sequence : Z) | WaFinSent (p : Ref) (offset : Z)
| AkLoop | AkWrite (p : Ref) (offset : Z) | AkDone (p : Ref) (offset : Z)
| FinAckWrite (p : Ref) (sequence : Z)
| Confirm (p : Ref) | Confirmed (p : Ref)
| Fail (p : Ref) (err : Error) | FailEmit (ev : Event) (expire : option Z)
| ExpireDetached (sequence : Z) | WatchContext | FailTerminal (err : Error)
| PrepStart (p : Ref) | PrepWrite (p : Ref) (h : helloV2) | PrepRead (p : Ref) (h : helloV2)
| PrepInstall (p : Ref) (h ready : helloV2) | PrepSpawn (p : Ref) (h : helloV2)
| AccStart (p : Ref) | AccRead (p : Ref) | AccCheck (p : Ref) (request : helloV2)
| AccWrite (p : Ref) (ready : helloV2) (old : option Ref)
| AccWriteFailed (p : Ref) (old : option Ref) (err : Error) | AccFinish (p : Ref) (old : option Ref)
| PromStart (h : CarrierHandle) | PromWrite (p : Ref) (ch : nat) | PromWait (p : Ref) (ch : nat)
| PromCheck (p : Ref) | UnlockRet (r : result Error CarrierHandle)
| DropStart (h : CarrierHandle) | DropWrite (p : Ref) (ch : nat) | DropWait (p : Ref) (ch : nat)
| DropDone (p : Ref)
| CloseStart.

(** What the environment supplies to a section that does I/O or waits. *)
Inductive IO :=
| IoNone
| IoWrite (err : option Error)
| IoFrame (r : result Error Frame)
| IoHello (r : result Error helloV2)
| IoRandom (r : result Error (list byte))  (** [rand.Read] of sixteen bytes *)
| IoCtxDone
| IoTimer.

Inductive StepResult :=
| Blocked
| Panic
| Step (c : Conn) (continue : list Task) (spawn : list Task) (out : list Out).

(** ** Sections shared by several functions *)
Definition lookupC (c : Conn) (p : Ref) : physicalCarrier :=
  default (mkCarrier [] 0 carrierFailed) (heap c !! p).

Definition setState (p : Ref) (s : CarrierState) (c : Conn) : Conn :=
  c <| heap := alter (fun k => k <| pcstate := s |>) p (heap c) |>.

Definition setStateOpt (o : option Ref) (s : CarrierState) (c : Conn) : Conn :=
  match o with Some p => setState p s c | None => c end.

Definition isRef (o : option Ref) (p : Ref) : bool := bool_decide (o = Some p).

Definition closes (l : list (option Ref)) : list Out := OClose <$> (omap id l).

(** [emit]: a full channel drops every event but [EventDetached], which
    [FailEmit] waits to deliver. *)
Definition emit (ev : Event) (c : Conn) : Conn :=
  if (len (events c) <? 16) then c <| events := events c ++ [ev] |> else c.

(** A non-blocking send on a capacity-one channel. *)
Definition chanSend (ch : nat) (v : option Error) (c : Conn) : Conn :=
  match chans c !! ch with
  | Some None => c <| chans := <[ch := Some v]> (chans c) |>
  | _ => c
  end.

(** [make(chan error, 1)]; the new channel is the last one. *)
Definition newChan (c : Conn) : Conn := c <| chans := chans c ++ [None] |>.

(** [None] where [c.send[:int(n)]] is out of range. *)
Definition discardAckedLocked (offset : Z) (c : Conn) : option Conn :=
  if (offset <=? sendBase c) then Some c
  else
    let n := offset -64 sendBase c in
    match slice n (len (send c)) (send c) with
    | Some rest => Some (c <| send := rest |> <| sendBase := offset |>)
    | None => None
    end.

Definition detachAllLocked (c : Conn) : Conn * list (option Ref) :=
  (c <| active := None |> <| prepared := None |> <| retained := None |>,
   [active c; prepared c; retained c]).

Definition applicationDisposition (c : Conn) (p : Ref) : applicationDispositionT :=
  let s := pcstate (lookupC c p) in
  if (isRef (active c) p && bool_decide (s = carrierActive)) ||
     (isRef (retained c) p && bool_decide (s = carrierRetained)) then applicationAccept
  else if bool_decide (s = carrierRetained) || bool_decide (s = carrierSuperseded) ||
          bool_decide (s = carrierFailed) ||
          (bool_decide (s = carrierActive) && negb (isRef (active c) p)) then applicationIgnoreLate
  else applicationReject.

(** [failFrameProtocol] formats the error and calls [failTerminal]. *)
Definition failFrameProtocol (c : Conn) (p : Ref) (f : Frame) (stage : string) : Task :=
  FailTerminal (ErrFrame stage (fkind f) (fseq f) (pcepoch (lookupC c p))
    (pcstate (lookupC c p)) (committedEpoch c)).

Definition failTerminal (err : Error) (c : Conn) : StepResult :=
  let c1 := match terminalErr c with None => c <| terminalErr := Some err |> | Some _ => c end in
  let '(c2, carriers) := detachAllLocked c1 in
  let c3 := c2 <| ctxDone := true |> in
  Step (emit (mkEvent EventAborted zeroCarrierID zeroCarrierID zeroCarrierID
                (committedEpoch c3) (Some err)) c3) [] [] (closes carriers).

Definition watchContext (c : Conn) : StepResult :=
  if ctxDone c then
    let c1 := match terminalErr c with
              | None => if closed c then c else c <| terminalErr := Some ErrContext |>
              | Some _ => c end in
    let '(c2, carriers) := detachAllLocked c1 in
    Step c2 [] []
      (omap id carriers ≫= fun p => [OFrame p (mkFrame frameReset 0 []); OClose p])
  else Blocked.

(** The waiters of a carrier that failed get its error. *)
Definition failWaiters (p : Ref) (err : Error) (c : Conn) : Conn :=
  let k := pcid (lookupC c p) in
  let c1 := match commitWait c !! k with
            | Some ch => chanSend ch (Some err) (c <| commitWait := delete k (commitWait c) |>)
            | None => c end in
  match discardWait c1 !! k with
  | Some ch => chanSend ch (Some err) (c1 <| discardWait := delete k (discardWait c1) |>)
  | None => c1
  end.

Definition optID (c : Conn) (o : option Ref) : CarrierID :=
  match o with Some p => pcid (lookupC c p) | None => zeroCarrierID end.

(** The state [failCarrier] leaves under [c.mu]. *)
Definition failCarrierState (p : Ref) (err : Error) (c : Conn) : Conn :=
  let c1 :=
    if isRef (active c) p then
      let c0 := c <| active := None |> in
      if detached c then c0 else c0 <| detached := true |> <| detachedSeq := detachedSeq c +64 1 |>
    else c in
  let c2 := if isRef (prepared c) p then c1 <| prepared := None |> else c1 in
  let c3 := if isRef (retained c) p then c2 <| retained := None |> else c2 in
  failWaiters p err (setState p carrierFailed c3).

(** [failCarrier]; the responder holds [transitionMu] until its event is out. *)
Definition failCarrier (p : Ref) (err : Error) (c : Conn) : StepResult :=
  if bool_decide (role c = RoleResponder) && transitionMu c then Blocked
  else if negb (isRef (active c) p) && negb (isRef (prepared c) p) && negb (isRef (retained c) p)
  then Step c [] [] []
  else
    let wasActive := isRef (active c) p in
    let c1 := failCarrierState p err c in
    let ev := mkEvent (if wasActive then EventDetached else EventCarrierFailed)
                (pcid (lookupC c p)) (optID c1 (active c1)) (optID c1 (prepared c1))
                (committedEpoch c1) (Some err) in
    let c2 := if bool_decide (role c = RoleResponder) then c1 <| transitionMu := true |> else c1 in
    Step c2 [FailEmit ev (if wasActive then Some (detachedSeq c1) else None)] [] [OClose p].

Definition failEmit (ev : Event) (expire : option Z) (c : Conn) : StepResult :=
  let full := (16 <=? len (events c)) in
  if bool_decide (evType ev = EventDetached) && full && negb (ctxDone c) then Blocked
  else
    let c1 := emit ev c in
    let c2 := if bool_decide (role c = RoleResponder) then c1 <| transitionMu := false |> else c1 in
    Step c2 [] (match expire with Some s => [ExpireDetached s] | None => [] end) [].

Definition expireDetached (sequence : Z) (io : IO) (c : Conn) : StepResult :=
  match io with
  | IoTimer =>
      if detached c && (detachedSeq c =? sequence) && bool_decide (active c = None) &&
         bool_decide (terminalErr c = None) && negb (closed c)
      then Step c [FailTerminal ErrDetachedExpired] [] []
      else Step c [] [] []
  | _ => if ctxDone c then Step c [] [] [] else Blocked
  end.

(** ** [readCarrier]: the application frames *)
Definition applyData (p : Ref) (f : Frame) (c : Conn) : StepResult :=
  let c := c <| firstRecvSeen := true |> in
  let sequence := fseq f in
  if (recvNext c <? sequence) then Step c [failFrameProtocol c p f "data_sequence_gap"] [] []
  else
    let end_ := sequence +64 len (fpayload f) in
    if (recvNext c <? end_) then
      let start := recvNext c -64 sequence in
      if (window c <? len (recv c) + len (fpayload f) - start)
      then Step c [failFrameProtocol c p f "data_window_exceeded"] [] []
      else
        match slice start (len (fpayload f)) (fpayload f) with
        | None => Panic
        | Some tail =>
            Step (c <| recv := recv c ++ tail |> <| recvNext := end_ |>) [RdRead p] [] []
        end
    else Step c [RdRead p] [] [].

Definition applyAck (p : Ref) (f : Frame) (c : Conn) : StepResult :=
  if (sendNext c <? fseq f) then Step c [failFrameProtocol c p f "ack_beyond_send_next"] [] []
  else match discardAckedLocked (fseq f) c with
       | None => Panic
       | Some c1 => Step c1 [RdRead p] [] []
       end.

Definition applyFIN (p : Ref) (f : Frame) (c : Conn) : StepResult :=
  if (fseq f <? recvNext c) || (remoteFIN c && (fseq f =? remoteFINAt c))
  then Step c [RdRead p] [] []
  else if (recvNext c <? fseq f) || remoteFIN c
  then Step c [failFrameProtocol c p f "fin_sequence_mismatch"] [] []
  else Step (c <| remoteFIN := true |> <| remoteFINAt := fseq f |>) [RdRead p]
         [FinAckWrite p (fseq f)] [].

Definition applyFINAck (p : Ref) (f : Frame) (c : Conn) : StepResult :=
  if negb (localFIN c) || negb (fseq f =? sendNext c)
  then Step c [failFrameProtocol c p f "fin_ack_state_mismatch"] [] []
  else Step (c <| finAcked := true |>) [RdRead p] [] [].

(** ** [readCarrier]: the transition frames *)

(** COMMIT at the responder and COMMIT_ACK at the initiator promote the same way. *)
Definition promote (p : Ref) (c : Conn) : Conn :=
  let old := active c in
  let c1 := setState p carrierActive (setStateOpt old carrierRetained c) in
  c1 <| retained := old |> <| active := Some p |> <| prepared := None |>
     <| committedEpoch := pcepoch (lookupC c p) |> <| detached := false |>.

Definition isDead (s : CarrierState) : bool :=
  bool_decide (s = carrierSuperseded) || bool_decide (s = carrierFailed).

Definition applyCommit (p : Ref) (f : Frame) (c : Conn) : StepResult :=
  if transitionMu c then Blocked
  else
    let s := pcstate (lookupC c p) in
    if isDead s then Step c [] [] [OClose p]
    else if isRef (active c) p && (committedEpoch c =? pcepoch (lookupC c p))
    then Step c [RdCommitAck p false] [] []
    else if negb (isRef (prepared c) p) ||
            (negb (bool_decide (s = carrierPrepared)) && negb (bool_decide (s = carrierCommitting)))
    then Step c [failFrameProtocol c p f "commit_carrier_not_prepared"] [] []
    else Step (promote p c) [RdCommitAck p true] [] [].

Definition applyCommitAck (p : Ref) (f : Frame) (c : Conn) : StepResult :=
  let s := pcstate (lookupC c p) in
  if negb (isRef (prepared c) p) || negb (bool_decide (s = carrierCommitting))
  then Step c [failFrameProtocol c p f "commit_ack_carrier_not_committing"] [] []
  else
    let c1 := promote p c in
    let c2 := match commitWait c1 !! pcid (lookupC c p) with
              | Some ch => chanSend ch None c1
              | None => c1 end in
    Step c2 [RdRead p] [] [].

Definition applyConfirm (p : Ref) (f : Frame) (c : Conn) : StepResult :=
  if transitionMu c then Blocked
  else if isDead (pcstate (lookupC c p)) then Step c [] [] [OClose p]
  else Step (c <| retained := None |>) [RdRead p] [] (closes [retained c]).

Definition applyDiscard (p : Ref) (f : Frame) (c : Conn) : StepResult :=
  if transitionMu c then Blocked
  else
    let s := pcstate (lookupC c p) in
    if isDead s then Step c [] [] [OClose p]
    else if negb (isRef (prepared c) p) || negb (bool_decide (s = carrierPrepared))
    then Step c [failFrameProtocol c p f "discard_carrier_not_prepared"] [] []
    else Step (c <| prepared := None |>) [RdDiscardAck p] [] [].

Definition applyDiscardAck (p : Ref) (f : Frame) (c : Conn) : StepResult :=
  let s := pcstate (lookupC c p) in
  if negb (isRef (prepared c) p) || negb (bool_decide (s = carrierPrepared))
  then Step c [failFrameProtocol c p f "discard_ack_carrier_not_prepared"] [] []
  else
    let k := pcid (lookupC c p) in
    let c1 := c <| prepared := None |> <| discardWait := delete k (discardWait c) |> in
    let c2 := match discardWait c !! k with
              | Some ch => chanSend ch None c1
              | None => c1 end in
    Step c2 [RdRead p] [] [].

(** After [readFrame]: drop the frames of a carrier that has been replaced. *)
Definition readCarrier_frame (p : Ref) (f : Frame) (c : Conn) : StepResult :=
  if isDead (pcstate (lookupC c p)) then Step c [] [] [OClose p] else Step c [RdSwitch p f] [] [].

(** A control frame must match the role it is sent to and its carrier's epoch. *)
Definition controlShape (r : Role) (stage : string) (p : Ref) (f : Frame) (c : Conn) : StepResult :=
  if negb (bool_decide (role c = r)) || negb (fseq f =? pcepoch (lookupC c p)) ||
     negb (len (fpayload f) =? 0)
  then Step c [failFrameProtocol c p f stage] [] []
  else Step c [RdApply p f] [] [].

(** An application frame needs an accepted carrier; [late] says what a frame of a
    prepared carrier does. *)
Definition applicationFrame (reject : Task) (p : Ref) (f : Frame) (c : Conn) : StepResult :=
  match applicationDisposition c p with
  | applicationAccept => Step c [RdApply p f] [] []
  | applicationIgnoreLate => Step c [RdRead p] [] []
  | applicationReject => Step c [reject] [] []
  end.

Definition readCarrier_switch (p : Ref) (f : Frame) (c : Conn) : StepResult :=
  match fkind f with
  | frameData => applicationFrame (failFrameProtocol c p f "data_carrier_not_application") p f c
  | frameAck => applicationFrame (RdRead p) p f c
  | frameFIN => applicationFrame (failFrameProtocol c p f "fin_carrier_not_application") p f c
  | frameFINAck => applicationFrame (failFrameProtocol c p f "fin_ack_carrier_not_application") p f c
  | frameReset =>
      if remoteFIN c && (remoteFINAt c <=? recvNext c) then Step c [] [] []
      else Step c [FailTerminal ErrNetClosed] [] []
  | frameCommit => controlShape RoleResponder "commit_shape_or_role" p f c
  | frameCommitAck => controlShape RoleInitiator "commit_ack_shape_or_role" p f c
  | frameConfirm => controlShape RoleResponder "confirm_shape_or_role" p f c
  | frameDiscard => controlShape RoleResponder "discard_shape_or_role" p f c
  | frameDiscardAck => controlShape RoleInitiator "discard_ack_shape_or_role" p f c
  end.

Definition readCarrier_apply (p : Ref) (f : Frame) (c : Conn) : StepResult :=
  match fkind f with
  | frameData => applyData p f c
  | frameAck => applyAck p f c
  | frameFIN => applyFIN p f c
  | frameFINAck => applyFINAck p f c
  | frameReset => Step c [] [] []
  | frameCommit => applyCommit p f c
  | frameCommitAck => applyCommitAck p f c
  | frameConfirm => applyConfirm p f c
  | frameDiscard => applyDiscard p f c
  | frameDiscardAck => applyDiscardAck p f c
  end.

(** [readCarrier] from the loop head: [readFrame], then the sections above. *)
Definition readCarrier_read (p : Ref) (io : IO) (c : Conn) : StepResult :=
  match io with
  | IoFrame (Err e) => Step c [Fail p e] [] []
  | IoFrame (Ok f) => Step c [RdFrame p f] [] []
  | _ => Blocked
  end.

(** ** Writers *)

(** [writeFrame]/[writeControl]: the frame, or the carrier's error. *)
Definition writeThen (p : Ref) (f : Frame) (ok bad : list Task) (io : IO) (c : Conn) : StepResult :=
  match io with
  | IoWrite None => Step c ok [] [OFrame p f]
  | IoWrite (Some e) => Step c bad [] []
  | _ => Blocked
  end.

Definition ioErr (io : IO) : Error := match io with IoWrite (Some e) => e | _ => ErrNetClosed end.

Definition control (k : FrameKind) (p : Ref) (c : Conn) : Frame :=
  mkFrame k (pcepoch (lookupC c p)) [].

Definition writeActive_loop (p : Ref) (offset : Z) (c : Conn) : StepResult :=
  if negb (isRef (active c) p) || closed c || negb (bool_decide (terminalErr c = None))
  then Step c [] [] []
  else
    let offset := if (offset <? sendBase c) then sendBase c else offset in
    if (offset <? sendNext c) then
      let start := offset -64 sendBase c in
      let n := Z.min maximumFrame (len (send c) - start) in
      match slice start (start + n) (send c) with
      | None => Panic
      | Some payload => Step c [WaData p (offset +64 n) offset payload] [] []
      end
    else if localFIN c && negb (finAcked c) &&
            negb (bool_decide (finSent c = pcid (lookupC c p)))
    then Step c [WaFin p offset (sendNext c)] [] []
    else if ctxDone c then Step c [] [] [] else Blocked.

Definition writeActive_finSent (p : Ref) (offset : Z) (c : Conn) : StepResult :=
  Step (if isRef (active c) p then c <| finSent := pcid (lookupC c p) |> else c)
    [WaLoop p offset] [] [].

Definition writeAcknowledgements_loop (c : Conn) : StepResult :=
  let idle := if ctxDone c then Step c [] [] [] else Blocked in
  match active c with
  | None => idle
  | Some p =>
      if bool_decide (ackCarrier c = pcid (lookupC c p)) && (recvBase c <=? ackOffset c) then idle
      else Step c [AkWrite p (recvBase c)] [] []
  end.

Definition writeAcknowledgements_done (p : Ref) (offset : Z) (c : Conn) : StepResult :=
  Step (if isRef (active c) p then
          c <| ackCarrier := pcid (lookupC c p) |>
            <| ackOffset := if (ackOffset c <? offset) then offset else ackOffset c |>
        else c) [AkLoop] [] [].

Definition confirmCarrier_confirmed (p : Ref) (c : Conn) : StepResult :=
  if isRef (active c) p
  then Step (c <| retained := None |>) [WaLoop p 0] [] (closes [retained c])
  else Step c [WaLoop p 0] [] [].

Definition readCarrier_commitAck (p : Ref) (first : bool) (io : IO) (c : Conn) : StepResult :=
  match io with
  | IoWrite None =>
      let k := lookupC c p in
      let out := [OFrame p (control frameCommitAck p c)] in
      if first then
        Step (emit (mkEvent EventActive zeroCarrierID (pcid k) zeroCarrierID (pcepoch k) None) c)
          [RdRead p] [WaLoop p 0] out
      else Step c [RdRead p] [] out
  | IoWrite (Some e) => Step c [Fail p e] [] []
  | _ => Blocked
  end.

Definition readCarrier_discardAck (p : Ref) (io : IO) (c : Conn) : StepResult :=
  match io with
  | IoWrite None => Step c [] [] [OFrame p (control frameDiscardAck p c); OClose p]
  | IoWrite (Some e) => Step c [] [] [OClose p]
  | _ => Blocked
  end.

(** ** Carrier transitions: the initiator *)
Definition ret (r : result Error CarrierHandle) (out : list Out) (c : Conn) : StepResult :=
  Step c [] [] (out ++ [ORet r]).

Definition unlockRet (r : result Error CarrierHandle) (out : list Out) (c : Conn) : StepResult :=
  ret r out (c <| transitionMu := false |>).

Definition randomCarrierID (r : result Error (list byte)) : result Error CarrierID :=
  match r with
  | Err e => Err e
  | Ok k => if bool_decide (k = zeroCarrierID) then Err ErrZeroCarrier else Ok k
  end.

Definition PrepareCarrier_start (p : Ref) (io : IO) (c : Conn) : StepResult :=
  if negb (bool_decide (role c = RoleInitiator)) then ret (Err ErrInvalid) [] c
  else if transitionMu c then Blocked
  else if closed c || negb (bool_decide (terminalErr c = None)) ||
          negb (bool_decide (prepared c = None)) || (nextEpoch c =? maxUint64)
  then ret (Err ErrProto) [OClose p] c
  else
    match io with
    | IoRandom r =>
        match randomCarrierID r with
        | Err e => ret (Err e) [OClose p] c
        | Ok k =>
            let request := mkHello helloPrepare (identity c) k (nextEpoch c + 1) (committedEpoch c)
                             (recvBase c) (remoteFIN c) (remoteFINAt c) in
            Step (c <| transitionMu := true |>) [PrepWrite p request] [] []
        end
    | _ => Blocked
    end.

Definition PrepareCarrier_write (p : Ref) (h : helloV2) (io : IO) (c : Conn) : StepResult :=
  match io with
  | IoWrite None => Step c [PrepRead p h] [] [OHello p h]
  | IoWrite (Some e) => unlockRet (Err e) [OClose p] c
  | _ => Blocked
  end.

Definition PrepareCarrier_read (p : Ref) (h : helloV2) (io : IO) (c : Conn) : StepResult :=
  match io with
  | IoHello (Err e) => unlockRet (Err e) [OClose p] c
  | IoHello (Ok ready) =>
      if negb (bool_decide (kind ready = helloReady)) ||
         negb (bool_decide (hdigest ready = identity c)) ||
         negb (bool_decide (carrier ready = carrier h)) || negb (epoch ready =? epoch h)
      then unlockRet (Err ErrProto) [OClose p] c
      else Step c [PrepInstall p h ready] [] []
  | _ => Blocked
  end.

Definition PrepareCarrier_install (p : Ref) (h ready : helloV2) (c : Conn) : StepResult :=
  if (sendNext c <? ack ready) || closed c || negb (bool_decide (terminalErr c = None)) ||
     negb (bool_decide (prepared c = None))
  then unlockRet (Err ErrProto) [OClose p] c
  else
    match discardAckedLocked (ack ready) c with
    | None => Panic
    | Some c1 =>
        Step (c1 <| nextEpoch := epoch h |>
                 <| heap := <[p := mkCarrier (carrier h) (epoch h) carrierPrepared]> (heap c1) |>
                 <| prepared := Some p |>
                 <| detached := bool_decide (active c1 = None) |>) [PrepSpawn p h] [] []
    end.

(** [go c.readCarrier(c.prepared)]: [c.prepared] is read after [c.mu] is
    released; a nil there is a nil dereference in the new goroutine. *)
Definition PrepareCarrier_spawn (p : Ref) (h : helloV2) (c : Conn) : StepResult :=
  match prepared c with
  | None => Panic
  | Some q =>
      Step (emit (mkEvent EventPrepared zeroCarrierID zeroCarrierID (carrier h) (committedEpoch c) None)
              (c <| transitionMu := false |>))
        [] [RdRead q] [ORet (Ok (mkHandle (carrier h) (epoch h)))]
  end.

(** The commit waiter of a carrier, made when a first promotion needs it. *)
Definition commitWaiter (k : CarrierID) (c : Conn) : Conn * nat :=
  match commitWait c !! k with
  | Some ch => (c, ch)
  | None => ((newChan c) <| commitWait := <[k := length (chans c)]> (commitWait c) |>, length (chans c))
  end.

Definition PromoteCarrier_start (h : CarrierHandle) (c : Conn) : StepResult :=
  if negb (bool_decide (role c = RoleInitiator)) || bool_decide (hID h = zeroCarrierID) ||
     (hEpoch h =? 0) then ret (Err ErrInvalid) [] c
  else if transitionMu c then Blocked
  else
    match prepared c with
    | None => ret (Err ErrProto) [] c
    | Some p =>
        let k := lookupC c p in
        if negb (bool_decide (pcid k = hID h)) || negb (pcepoch k =? hEpoch h) ||
           (negb (bool_decide (pcstate k = carrierPrepared)) &&
            negb (bool_decide (pcstate k = carrierCommitting)))
        then ret (Err ErrProto) [] c
        else
          let r := commitWaiter (pcid k) (setState p carrierCommitting c) in
          Step ((fst r) <| transitionMu := true |>) [PromWrite p (snd r)] [] []
    end.

Definition PromoteCarrier_write (p : Ref) (ch : nat) (io : IO) (c : Conn) : StepResult :=
  writeThen p (control frameCommit p c) [PromWait p ch] [Fail p (ioErr io); UnlockRet (Err (ioErr io))] io c.

(** The [select] on the waiter, the caller's context and the stream's context. *)
Definition waitChan (p : Ref) (ch : nat) (ok : list Task) (io : IO) (c : Conn) : StepResult :=
  match io with
  | IoCtxDone => unlockRet (Err ErrContext) [] c
  | _ =>
      match chans c !! ch with
      | Some (Some v) =>
          let c1 := c <| chans := <[ch := None]> (chans c) |> in
          match v with
          | Some e => unlockRet (Err e) [] c1
          | None => Step c1 ok [] []
          end
      | _ => if ctxDone c then unlockRet (Err ErrContext) [] c else Blocked
      end
  end.

Definition PromoteCarrier_check (p : Ref) (c : Conn) : StepResult :=
  let k := lookupC c p in
  let c1 := c <| commitWait := delete (pcid k) (commitWait c) |> in
  if negb (isRef (active c) p) || negb (bool_decide (pcstate k = carrierActive)) ||
     negb (committedEpoch c =? pcepoch k)
  then unlockRet (Err ErrProto) [] c1
  else
    Step (emit (mkEvent EventActive zeroCarrierID (pcid k) zeroCarrierID (pcepoch k) None)
            (c1 <| transitionMu := false |>))
      [] [Confirm p] [ORet (Ok (mkHandle (pcid k) (pcepoch k)))].

Definition DropPrepared_start (h : CarrierHandle) (c : Conn) : StepResult :=
  if bool_decide (hID h = zeroCarrierID) then ret (Err ErrInvalid) [] c
  else if transitionMu c then Blocked
  else
    match prepared c with
    | None => ret (Err ErrProto) [] c
    | Some p =>
        let k := lookupC c p in
        if negb (bool_decide (pcid k = hID h)) || bool_decide (pcstate k = carrierCommitting)
        then ret (Err ErrProto) [] c
        else
          let ch := length (chans c) in
          Step ((newChan c) <| discardWait := <[pcid k := ch]> (discardWait c) |>
                            <| transitionMu := true |>) [DropWrite p ch] [] []
    end.

Definition DropPrepared_write (p : Ref) (ch : nat) (io : IO) (c : Conn) : StepResult :=
  writeThen p (control frameDiscard p c) [DropWait p ch] [Fail p (ioErr io); UnlockRet (Err (ioErr io))] io c.

(** ** Carrier transitions: the responder *)
Definition AcceptCarrier_start (p : Ref) (c : Conn) : StepResult :=
  if negb (bool_decide (role c = RoleResponder)) then ret (Err ErrInvalid) [] c
  else if transitionMu c then Blocked
  else Step (c <| transitionMu := true |>) [AccRead p] [] [].

Definition AcceptCarrier_read (p : Ref) (io : IO) (c : Conn) : StepResult :=
  match io with
  | IoHello (Err e) => unlockRet (Err e) [OClose p] c
  | IoHello (Ok request) =>
      if negb (bool_decide (kind request = helloPrepare)) ||
         negb (bool_decide (hdigest request = identity c))
      then unlockRet (Err ErrProto) [OClose p] c
      else Step c [AccCheck p request] [] []
  | _ => Blocked
  end.

Definition AcceptCarrier_check (p : Ref) (request : helloV2) (c : Conn) : StepResult :=
  if closed c || negb (bool_decide (terminalErr c = None)) ||
     negb (hcommittedEpoch request =? committedEpoch c) ||
     (epoch request <=? committedEpoch c) || (epoch request <=? nextEpoch c) ||
     (sendNext c <? ack request)
  then unlockRet (Err ErrProto) [OClose p] c
  else
    let old := prepared c in
    let oldBad :=
      match old with
      | None => false
      | Some q =>
          let k := lookupC c q in
          bool_decide (pcstate k = carrierCommitting) || (epoch request <=? pcepoch k) ||
          (negb (bool_decide (pcstate k = carrierPrepared)) &&
           negb (bool_decide (pcstate k = carrierProvisional)))
      end in
    if oldBad then unlockRet (Err ErrProto) [OClose p] c
    else
      match discardAckedLocked (ack request) (setStateOpt old carrierSuperseded c) with
      | None => Panic
      | Some c1 =>
          let c2 := c1
            <| heap := <[p := mkCarrier (carrier request) (epoch request) carrierProvisional]> (heap c1) |>
            <| nextEpoch := epoch request |> <| prepared := Some p |> in
          let ready := mkHello helloReady (identity c) (carrier request) (epoch request)
                         (committedEpoch c2) (recvBase c2) (remoteFIN c2) (remoteFINAt c2) in
          Step c2 [AccWrite p ready old] [] []
      end.

Definition AcceptCarrier_write (p : Ref) (ready : helloV2) (old : option Ref) (io : IO) (c : Conn)
  : StepResult :=
  match io with
  | IoWrite None => Step c [AccFinish p old] [] [OHello p ready]
  | IoWrite (Some e) => Step c [AccWriteFailed p old e] [] []
  | _ => Blocked
  end.

Definition AcceptCarrier_writeFailed (p : Ref) (old : option Ref) (e : Error) (c : Conn) : StepResult :=
  let c1 := if isRef (prepared c) p && bool_decide (pcstate (lookupC c p) = carrierProvisional)
            then setState p carrierFailed (c <| prepared := None |>) else c in
  unlockRet (Err e) (closes [old] ++ [OClose p]) c1.

Definition AcceptCarrier_finish (p : Ref) (old : option Ref) (c : Conn) : StepResult :=
  let k := lookupC c p in
  if negb (isRef (prepared c) p) || negb (bool_decide (pcstate k = carrierProvisional))
  then unlockRet (Err ErrProto) (closes [old] ++ [OClose p]) c
  else
    let c1 := setState p carrierPrepared c in
    Step (emit (mkEvent EventPrepared zeroCarrierID zeroCarrierID (pcid k) (committedEpoch c1) None)
            (c1 <| transitionMu := false |>))
      [] [RdRead p] (closes [old] ++ [ORet (Ok (mkHandle (pcid k) (pcepoch k)))]).

(** ** The application interface *)
Definition closedError (c : Conn) : Error := default ErrNetClosed (terminalErr c).

(** One iteration of the loop of [Read], [Write] and the [Wait] functions: it
    returns, or waits for the next signal. *)
Inductive Outcome (A : Type) := Returns (a : A) | Waits.
Arguments Returns {A} a.
Arguments Waits {A}.

(** What a [Read] of a buffer of [n] bytes returns. *)
Inductive ReadResult := ReadData (data : list byte) | ReadEOF | ReadErr (e : Error).

Definition Read (n : Z) (c : Conn) : Conn * Outcome ReadResult :=
  if (n <=? 0) then (c, Returns (ReadData []))
  else if (0 <? len (recv c)) then
    let k := Z.min n (len (recv c)) in
    (c <| recv := zdrop k (recv c) |> <| recvBase := recvBase c +64 k |>,
     Returns (ReadData (ztake k (recv c))))
  else if remoteFIN c && (remoteFINAt c <=? recvNext c) then (c, Returns ReadEOF)
  else if negb (bool_decide (terminalErr c = None)) || closed c
  then (c, Returns (ReadErr (closedError c)))
  else (c, Waits).

(** One iteration of [Write] on the bytes not yet accepted: how many it took. *)
Definition Write (data : list byte) (c : Conn) : Conn * Outcome (result Error Z) :=
  if (len data =? 0) then (c, Returns (Ok 0))
  else if localFIN c || closed c || negb (bool_decide (terminalErr c = None))
  then (c, Returns (Err (closedError c)))
  else
    let available := window c - len (send c) in
    if (0 <? available) then
      let n := Z.min available (len data) in
      (c <| send := send c ++ ztake n data |> <| sendNext := sendNext c +64 n |>, Returns (Ok n))
    else (c, Waits).

(** [wait]: how a blocked [Read] or [Write] resumes.  A deadline that has passed
    wins over everything; otherwise the signal, the context or the timer. *)
Inductive Wake := WakeNotify | WakeContext | WakeTimer.

Definition wait (deadline : option Z) (now : Z) (w : Wake) : option Error :=
  match deadline with
  | None => match w with WakeNotify => None | _ => Some ErrContext end
  | Some d =>
      if (d - now <=? 0) then Some ErrDeadlineExceeded
      else match w with
           | WakeNotify => None
           | WakeContext => Some ErrContext
           | WakeTimer => Some ErrDeadlineExceeded
           end
  end.

Definition SetDeadline (value : option Z) (c : Conn) : Conn :=
  c <| readDeadline := value |> <| writeDeadline := value |>.
Definition SetReadDeadline (value : option Z) (c : Conn) : Conn := c <| readDeadline := value |>.
Definition SetWriteDeadline (value : option Z) (c : Conn) : Conn := c <| writeDeadline := value |>.

Definition CloseWrite (c : Conn) : Conn * result Error unit :=
  if closed c || negb (bool_decide (terminalErr c = None)) then (c, Err ErrNetClosed)
  else (c <| localFIN := true |>, Ok tt).

Definition WaitAcknowledged (c : Conn) : Outcome (result Error unit) :=
  if (len (send c) =? 0) then Returns (Ok tt)
  else if closed c || negb (bool_decide (terminalErr c = None)) then Returns (Err (closedError c))
  else Waits.

Definition WaitWriteClosed (c : Conn) : Outcome (result Error unit) :=
  if localFIN c && (len (send c) =? 0) && finAcked c then Returns (Ok tt)
  else if closed c || negb (bool_decide (terminalErr c = None)) then Returns (Err (closedError c))
  else Waits.

Definition Close_start (c : Conn) : StepResult :=
  if closed c then Step c [] [] []
  else
    let '(c1, carriers) := detachAllLocked (c <| closed := true |>) in
    let graceful := (localFIN c && (len (send c) =? 0) && finAcked c) ||
                    (remoteFIN c && (remoteFINAt c <=? recvNext c)) in
    Step (c1 <| ctxDone := true |>) [] []
      (omap id carriers ≫= fun p =>
         if graceful then [OClose p] else [OFrame p (mkFrame frameReset 0 []); OClose p]).

(** [Abort] is [failTerminal] with the caller's reason. *)
Definition Abort (reason : option Error) : Task := FailTerminal (default ErrNetClosed reason).

(** ** One step of a goroutine *)
Definition step_task (c : Conn) (t : Task) (io : IO) : StepResult :=
  match t with
  | RdRead p => readCarrier_read p io c
  | RdFrame p f => readCarrier_frame p f c
  | RdSwitch p f => readCarrier_switch p f c
  | RdApply p f => readCarrier_apply p f c
  | RdCommitAck p first => readCarrier_commitAck p first io c
  | RdDiscardAck p => readCarrier_discardAck p io c
  | WaLoop p off => writeActive_loop p off c
  | WaData p off s payload =>
      writeThen p (mkFrame frameData s payload) [WaLoop p off] [Fail p (ioErr io)] io c
  | WaFin p off s =>
      writeThen p (mkFrame frameFIN s []) [WaFinSent p off] [Fail p (ioErr io)] io c
  | WaFinSent p off => writeActive_finSent p off c
  | AkLoop => writeAcknowledgements_loop c
  | AkWrite p off =>
      writeThen p (mkFrame frameAck off []) [AkDone p off] [Fail p (ioErr io); AkLoop] io c
  | AkDone p off => writeAcknowledgements_done p off c
  | FinAckWrite p s => writeThen p (mkFrame frameFINAck s []) [] [Fail p (ioErr io)] io c
  | Confirm p => writeThen p (control frameConfirm p c) [Confirmed p] [WaLoop p 0] io c
  | Confirmed p => confirmCarrier_confirmed p c
  | Fail p e => failCarrier p e c
  | FailEmit ev ex => failEmit ev ex c
  | ExpireDetached s => expireDetached s io c
  | WatchContext => watchContext c
  | FailTerminal e => failTerminal e c
  | PrepStart p => PrepareCarrier_start p io c
  | PrepWrite p h => PrepareCarrier_write p h io c
  | PrepRead p h => PrepareCarrier_read p h io c
  | PrepInstall p h r => PrepareCarrier_install p h r c
  | PrepSpawn p h => PrepareCarrier_spawn p h c
  | AccStart p => AcceptCarrier_start p c
  | AccRead p => AcceptCarrier_read p io c
  | AccCheck p r => AcceptCarrier_check p r c
  | AccWrite p r old => AcceptCarrier_write p r old io c
  | AccWriteFailed p old e => AcceptCarrier_writeFailed p old e c
  | AccFinish p old => AcceptCarrier_finish p old c
  | PromStart h => PromoteCarrier_start h c
  | PromWrite p ch => PromoteCarrier_write p ch io c
  | PromWait p ch => waitChan p ch [PromCheck p] io c
  | PromCheck p => PromoteCarrier_check p c
  | UnlockRet r => unlockRet r [] c
  | DropStart h => DropPrepared_start h c
  | DropWrite p ch => DropPrepared_write p ch io c
  | DropWait p ch => waitChan p ch [DropDone p] io c
  | DropDone p =>
      unlockRet (Ok (mkHandle (pcid (lookupC c p)) (pcepoch (lookupC c p)))) [OClose p] c
  | CloseStart => Close_start c
  end.
