(* ===== verification/ResumableInv.v ===== *)
(** * Resumable stream: what one step can change

    Every goroutine step of an endpoint either leaves the byte-stream half of
    [Conn] alone or is one of six sections ([data_step]); what it sends and what
    its goroutines hold afterwards is controlled by the frames it read and by
    the buffers ([step_output]).  On these two lemmas rest the endpoint's own
    safety properties, which hold against any peer: buffers stay inside the
    window, counters never disagree with the buffers, frames written are frames
    the reader accepts, and no slice expression is out of range. *)
From S2P Require Import Prelude Codec ResumableWire ResumableConn.

(** The byte-stream half of [Conn]. *)
Record StreamData := mkData {
  dWindow : Z; dSendBase : Z; dSendNext : Z; dSend : list byte; dLocalFIN : bool;
  dFinAcked : bool; dRecvNext : Z; dRecvBase : Z; dRecv : list byte; dRemoteFIN : bool;
  dRemoteFINAt : Z }.

#[export] Instance StreamData_eta : Eta StreamData := fun d => mkData (dWindow d) (dSendBase d)
  (dSendNext d) (dSend d) (dLocalFIN d) (dFinAcked d) (dRecvNext d) (dRecvBase d) (dRecv d)
  (dRemoteFIN d) (dRemoteFINAt d).

Definition data (c : Conn) : StreamData :=
  mkData (window c) (sendBase c) (sendNext c) (send c) (localFIN c) (finAcked c)
    (recvNext c) (recvBase c) (recv c) (remoteFIN c) (remoteFINAt c).

(** ** Sections that do not touch the byte stream *)

(** Drops the updates of fields outside [data]. *)
Ltac drop_update :=
  match goal with
  | |- context [data (@set_field ?R ?E ?pr ?i ?v ?x)] =>
      change (data (@set_field R E pr i v x)) with (data x)
  end.

Lemma data_emit ev c : data (emit ev c) = data c.
Proof. unfold emit. by case_match. Qed.

Lemma data_setState p s c : data (setState p s c) = data c.
Proof. done. Qed.

Lemma data_setStateOpt o s c : data (setStateOpt o s c) = data c.
Proof. by destruct o. Qed.

Lemma data_chanSend ch v c : data (chanSend ch v c) = data c.
Proof. unfold chanSend. by destruct (chans c !! ch) as [[]|]. Qed.

Lemma data_newChan c : data (newChan c) = data c.
Proof. done. Qed.

Lemma data_commitWaiter k c : data (fst (commitWaiter k c)) = data c.
Proof. unfold commitWaiter. by destruct (commitWait c !! k). Qed.

#[export] Hint Rewrite data_emit data_setState data_setStateOpt data_chanSend data_newChan
  data_commitWaiter : conn.
Ltac same_data := repeat first [drop_update | progress autorewrite with conn]; try done.

Lemma data_failWaiters p e c : data (failWaiters p e c) = data c.
Proof. unfold failWaiters. repeat case_match; same_data. Qed.
#[export] Hint Rewrite data_failWaiters : conn.

Lemma data_failCarrierState p e c : data (failCarrierState p e c) = data c.
Proof. unfold failCarrierState. repeat case_match; same_data. Qed.

Lemma data_promote p c : data (promote p c) = data c.
Proof. unfold promote. same_data. Qed.
#[export] Hint Rewrite data_failCarrierState data_promote : conn.

(** ** The sections that do

    [discard d off d']: the send buffer drops what an acknowledgement covers. *)
Definition discard (offset : Z) (d : StreamData) : option StreamData :=
  if (offset <=? dSendBase d) then Some d
  else match slice (offset -64 dSendBase d) (len (dSend d)) (dSend d) with
       | Some rest => Some (mkData (dWindow d) offset (dSendNext d) rest (dLocalFIN d) (dFinAcked d)
                              (dRecvNext d) (dRecvBase d) (dRecv d) (dRemoteFIN d) (dRemoteFINAt d))
       | None => None
       end.

Inductive data_step (d : StreamData) : Task -> StreamData -> Prop :=
| ds_same t : data_step d t d
| ds_data p f tail :
    fkind f = frameData ->
    fseq f <= dRecvNext d < u64 (fseq f + len (fpayload f)) ->
    len (dRecv d) + len (fpayload f) - u64 (dRecvNext d - fseq f) <= dWindow d ->
    slice (u64 (dRecvNext d - fseq f)) (len (fpayload f)) (fpayload f) = Some tail ->
    data_step d (RdApply p f)
      (mkData (dWindow d) (dSendBase d) (dSendNext d) (dSend d) (dLocalFIN d) (dFinAcked d)
         (u64 (fseq f + len (fpayload f))) (dRecvBase d) (dRecv d ++ tail) (dRemoteFIN d)
         (dRemoteFINAt d))
| ds_ack p f d' :
    fkind f = frameAck -> fseq f <= dSendNext d -> discard (fseq f) d = Some d' ->
    data_step d (RdApply p f) d'
| ds_fin p f :
    fkind f = frameFIN -> fseq f = dRecvNext d -> dRemoteFIN d = false ->
    data_step d (RdApply p f)
      (mkData (dWindow d) (dSendBase d) (dSendNext d) (dSend d) (dLocalFIN d) (dFinAcked d)
         (dRecvNext d) (dRecvBase d) (dRecv d) true (fseq f))
| ds_finack p f :
    fkind f = frameFINAck -> dLocalFIN d = true -> fseq f = dSendNext d ->
    data_step d (RdApply p f)
      (mkData (dWindow d) (dSendBase d) (dSendNext d) (dSend d) (dLocalFIN d) true
         (dRecvNext d) (dRecvBase d) (dRecv d) (dRemoteFIN d) (dRemoteFINAt d))
| ds_install p h ready d' :
    ack ready <= dSendNext d -> discard (ack ready) d = Some d' ->
    data_step d (PrepInstall p h ready) d'
| ds_accept p request d' :
    ack request <= dSendNext d -> discard (ack request) d = Some d' ->
    data_step d (AccCheck p request) d'.

Lemma discard_data off c : data <$> discardAckedLocked off c = discard off (data c).
Proof.
  unfold discardAckedLocked, discard. simpl. case_match; [done|].
  by destruct (slice _ _ _).
Qed.

Lemma discard_data_Some off c c' :
  discardAckedLocked off c = Some c' -> discard off (data c) = Some (data c').
Proof. intros H. by rewrite <- discard_data, H. Qed.

Lemma Step_inj a k sp o a' k' sp' o' :
  Step a k sp o = Step a' k' sp' o' -> a' = a /\ k' = k /\ sp' = sp /\ o' = o.
Proof. by intros [= -> -> -> ->]. Qed.

(** Runs the section in [H : section = Step c' k sp out] down each branch. *)
Ltac run_section H :=
  repeat (case_match; try discriminate H); try discriminate H;
  try (apply Step_inj in H as (-> & -> & -> & ->)).
Ltac unfold_section H :=
  unfold readCarrier_read, readCarrier_frame, readCarrier_switch, applicationFrame, controlShape,
    readCarrier_commitAck, readCarrier_discardAck, PromoteCarrier_write,
    DropPrepared_write, writeThen, writeActive_loop,
    writeActive_finSent, writeAcknowledgements_loop, writeAcknowledgements_done,
    confirmCarrier_confirmed, failCarrier, failEmit, expireDetached, watchContext, failTerminal,
    PrepareCarrier_start, PrepareCarrier_write, PrepareCarrier_read,
    PrepareCarrier_spawn, AcceptCarrier_start, AcceptCarrier_read, AcceptCarrier_write,
    AcceptCarrier_writeFailed, AcceptCarrier_finish, PromoteCarrier_start,
    PromoteCarrier_check, DropPrepared_start, waitChan, Close_start,
    unlockRet, ret, applyCommit, applyCommitAck, applyConfirm, applyDiscard, applyDiscardAck,
    detachAllLocked in H; cbv zeta beta in H.

Lemma step_data_apply c p f c' k sp out :
  readCarrier_apply p f c = Step c' k sp out -> data_step (data c) (RdApply p f) (data c').
Proof.
  unfold readCarrier_apply. destruct (fkind f) eqn:Ek; intros H.
  - unfold applyData in H. cbv zeta in H. simpl recvNext in H. simpl window in H. simpl recv in H.
    run_section H; try solve [same_data; apply ds_same].
    bool_hyps. refine (ds_data (data c) p f _ Ek _ _ _); eauto; simpl; lia.
  - unfold applyAck in H. run_section H; [apply ds_same|]. bool_hyps.
    eapply ds_ack; eauto using discard_data_Some.
  - unfold applyFIN in H. run_section H; try apply ds_same. bool_hyps.
    refine (ds_fin (data c) p f Ek _ _); simpl; auto; lia.
  - run_section H. apply ds_same.
  - unfold applyFINAck in H. run_section H; try apply ds_same. bool_hyps.
    refine (ds_finack (data c) p f Ek _ _); auto.
  - unfold_section H. run_section H; same_data; apply ds_same.
  - unfold_section H. run_section H; same_data; apply ds_same.
  - unfold_section H. run_section H; same_data; apply ds_same.
  - unfold_section H. run_section H; same_data; apply ds_same.
  - unfold_section H. run_section H; same_data; apply ds_same.
Qed.

Lemma step_data_install c p h r c' k sp out :
  PrepareCarrier_install p h r c = Step c' k sp out -> data_step (data c) (PrepInstall p h r) (data c').
Proof.
  unfold PrepareCarrier_install, unlockRet, ret. intros H. run_section H; [apply ds_same|].
  bool_hyps. match goal with E : discardAckedLocked _ _ = _ |- _ => apply discard_data_Some in E end.
  same_data. by eapply ds_install.
Qed.

Lemma step_data_check c p r c' k sp out :
  AcceptCarrier_check p r c = Step c' k sp out -> data_step (data c) (AccCheck p r) (data c').
Proof.
  unfold AcceptCarrier_check, unlockRet, ret. cbv zeta. intros H.
  destruct (_ || _) eqn:G; [apply Step_inj in H as (-> & _); apply ds_same|].
  destruct (match prepared c with Some _ => _ | None => _ end);
    [apply Step_inj in H as (-> & _); apply ds_same|].
  destruct (discardAckedLocked _ _) as [c1|] eqn:E; [|done]. apply Step_inj in H as (-> & _).
  apply discard_data_Some in E. rewrite data_setStateOpt in E. bool_hyps.
  same_data. by eapply ds_accept.
Qed.

(** The byte stream changes only in the sections [data_step] lists. *)
Lemma step_data c t io c' k sp out :
  step_task c t io = Step c' k sp out -> data_step (data c) t (data c').
Proof.
  destruct t; simpl step_task; intros H;
    lazymatch type of H with
    | readCarrier_apply _ _ _ = _ => by eapply step_data_apply
    | PrepareCarrier_install _ _ _ _ = _ => by eapply step_data_install
    | AcceptCarrier_check _ _ _ = _ => by eapply step_data_check
    | _ => unfold_section H; run_section H; same_data; apply ds_same
    end.
Qed.

(** ** What a step sends and what its goroutines hold *)
Definition isControl (k : FrameKind) : bool :=
  match k with frameData | frameAck | frameFIN | frameFINAck | frameReset => false | _ => true end.

Section output.
(** What is known of the frames and hellos received, and what is to be shown of
    the ones sent. *)
Variables (InF OutF : Frame -> Prop) (InH OutH : helloV2 -> Prop).

Definition task_ok (t : Task) : Prop :=
  match t with
  | RdFrame _ f | RdSwitch _ f | RdApply _ f => InF f
  | WaData _ _ s pl => OutF (mkFrame frameData s pl)
  | WaFin _ _ s => OutF (mkFrame frameFIN s [])
  | AkWrite _ off | AkDone _ off => OutF (mkFrame frameAck off [])
  | FinAckWrite _ s => OutF (mkFrame frameFINAck s [])
  | PrepWrite _ h | PrepRead _ h => OutH h
  | PrepInstall _ h r => OutH h /\ InH r
  | AccCheck _ r => InH r
  | AccWrite _ r _ => OutH r
  | _ => True
  end.

Definition out_ok (o : Out) : Prop :=
  match o with OFrame _ f => OutF f | OHello _ h => OutH h | _ => True end.

Definition io_ok (io : IO) : Prop :=
  match io with IoFrame (Ok f) => InF f | IoHello (Ok h) => InH h | _ => True end.

(** The frames the section starting at [c] can produce. *)
Record sends_ok (c : Conn) (t : Task) (io : IO) : Prop := {
  so_control p k : isControl k = true -> OutF (mkFrame k (pcepoch (lookupC c p)) []);
  so_reset : OutF (mkFrame frameReset 0 []);
  so_ack : OutF (mkFrame frameAck (recvBase c) []);
  so_data off payload :
    sendBase c <= off < sendNext c ->
    slice (u64 (off - sendBase c))
      (u64 (off - sendBase c) + Z.min maximumFrame (len (send c) - u64 (off - sendBase c)))
      (send c) = Some payload ->
    OutF (mkFrame frameData off payload);
  so_fin : localFIN c = true -> OutF (mkFrame frameFIN (sendNext c) []);
  so_finack p f :
    t = RdApply p f -> fkind f = frameFIN -> fseq f = recvNext c -> remoteFIN c = false ->
    OutF (mkFrame frameFINAck (fseq f) []);
  so_prepare p k :
    t = PrepStart p -> role c = RoleInitiator -> io = IoRandom (Ok k) -> k <> zeroCarrierID -> nextEpoch c <> maxUint64 ->
    OutH (mkHello helloPrepare (identity c) k (nextEpoch c + 1) (committedEpoch c)
            (recvBase c) (remoteFIN c) (remoteFINAt c));
  so_ready p request :
    t = AccCheck p request -> hcommittedEpoch request = committedEpoch c ->
    OutH (mkHello helloReady (identity c) (carrier request) (epoch request) (committedEpoch c)
            (recvBase c) (remoteFIN c) (remoteFINAt c))
}.

Lemma Forall_closes l : Forall out_ok (closes l).
Proof. unfold closes. induction (omap id l); constructor; done. Qed.

Lemma Forall_resets l (g : Ref -> list Out) :
  (forall p, Forall out_ok (g p)) -> Forall out_ok (l ≫= g).
Proof. intros Hg. induction l; simpl; [constructor|]. apply Forall_app. auto. Qed.

Ltac out_list :=
  repeat first [progress simpl | split | apply Forall_cons | apply Forall_nil | apply Forall_app
    | apply Forall_closes | assumption | done].

Lemma discardAcked_fields off c c' :
  discardAckedLocked off c = Some c' ->
  recvBase c' = recvBase c /\ remoteFIN c' = remoteFIN c /\ remoteFINAt c' = remoteFINAt c /\
  committedEpoch c' = committedEpoch c /\ identity c' = identity c /\ heap c' = heap c /\
  active c' = active c /\ nextEpoch c' = nextEpoch c /\ role c' = role c /\ prepared c' = prepared c /\
  retained c' = retained c.
Proof.
  unfold discardAckedLocked. case_match; [by intros [= <-]|].
  destruct (slice _ _ _); [|done]. by intros [= <-].
Qed.

Lemma apply_output c p f c' k sp out :
  readCarrier_apply p f c = Step c' k sp out -> sends_ok c (RdApply p f) IoNone -> InF f ->
  Forall task_ok (k ++ sp) /\ Forall out_ok out.
Proof.
  unfold readCarrier_apply. intros H S Hf. destruct (fkind f) eqn:Ek.
  - unfold applyData in H. cbv zeta in H. run_section H; out_list.
  - unfold applyAck in H. run_section H; out_list.
  - unfold applyFIN in H. run_section H; out_list.
    bool_hyps. eapply (so_finack _ _ _ S); eauto. lia.
  - run_section H; out_list.
  - unfold applyFINAck in H. run_section H; out_list.
  - unfold_section H. run_section H; out_list.
  - unfold_section H. run_section H; out_list.
  - unfold_section H. run_section H; out_list.
  - unfold_section H. run_section H; out_list.
  - unfold_section H. run_section H; out_list.
Qed.

Lemma check_output c p r c' k sp out :
  AcceptCarrier_check p r c = Step c' k sp out -> sends_ok c (AccCheck p r) IoNone ->
  Forall task_ok (k ++ sp) /\ Forall out_ok out.
Proof.
  unfold AcceptCarrier_check, unlockRet, ret. cbv zeta. intros H S.
  destruct (_ || _) eqn:G; [apply Step_inj in H as (-> & -> & -> & ->); out_list|].
  destruct (match prepared c with Some _ => _ | None => _ end);
    [apply Step_inj in H as (-> & -> & -> & ->); out_list|].
  destruct (discardAckedLocked _ _) as [c1|] eqn:E; [|done].
  apply Step_inj in H as (-> & -> & -> & ->).
  apply discardAcked_fields in E as (E1 & E2 & E3 & E4 & E5 & _). simpl in *.
  assert (recvBase c1 = recvBase c /\ remoteFIN c1 = remoteFIN c /\
          remoteFINAt c1 = remoteFINAt c /\ committedEpoch c1 = committedEpoch c) as (-> & -> & -> & ->).
  { rewrite E1, E2, E3, E4. by destruct (prepared c). }
  bool_hyps. out_list. by eapply so_ready.
Qed.

Lemma sends_ok_io c t io io' :
  (forall k, io <> IoRandom (Ok k)) -> sends_ok c t io' -> sends_ok c t io.
Proof. intros Hio [S1 S2 S3 S4 S5 S6 S7 S8]. split; eauto. intros p k _ _ ->. by destruct (Hio k). Qed.

Lemma randomCarrierID_Ok r k : randomCarrierID r = Ok k -> r = Ok k /\ k <> zeroCarrierID.
Proof. unfold randomCarrierID. destruct r; [|done]. case_match; [done|]. intros [= <-]. bool_hyps. done. Qed.

Lemma step_output c t io c' k sp out :
  step_task c t io = Step c' k sp out -> task_ok t -> io_ok io -> sends_ok c t io ->
  Forall task_ok (k ++ sp) /\ Forall out_ok out.
Proof.
  intros H Ht Hio S. destruct t; simpl in H, Ht;
    lazymatch type of H with
    | readCarrier_apply _ _ _ = _ =>
        eapply apply_output; eauto; eapply sends_ok_io; [|exact S]; done
    | AcceptCarrier_check _ _ _ = _ =>
        eapply check_output; eauto; eapply sends_ok_io; [|exact S]; done
    | _ => idtac
    end.
  all: try (unfold PrepareCarrier_install in H).
  all: unfold_section H; run_section H; out_list; bool_hyps.
  all: first
    [ apply (so_control _ _ _ S); reflexivity
    | apply Forall_resets; intros ?; out_list; apply (so_reset _ _ _ S)
    | apply Forall_resets; intros ?; out_list
    | exact (so_ack _ _ _ S)
    | apply (so_fin _ _ _ S); assumption
    | eapply (so_data _ _ _ S); [|eassumption]; lia
    | match goal with E : randomCarrierID _ = Ok _ |- _ => apply randomCarrierID_Ok in E as [-> ?] end;
      eapply (so_prepare _ _ _ S); [reflexivity|assumption|reflexivity|assumption..] ].
Qed.
End output.

(** ** Identities and epochs *)
Definition meta (c : Conn) : list byte * Z * Z * gmap Ref Z :=
  (identity c, nextEpoch c, committedEpoch c, pcepoch <$> heap c).

Ltac drop_meta :=
  match goal with
  | |- context [meta (@set_field ?R ?E ?pr ?i ?v ?x)] =>
      change (meta (@set_field R E pr i v x)) with (meta x)
  end.

Lemma pcepoch_alter p (g : physicalCarrier -> physicalCarrier) (m : gmap Ref physicalCarrier) :
  (forall k, pcepoch (g k) = pcepoch k) -> pcepoch <$> alter g p m = pcepoch <$> m.
Proof.
  intros Hg. apply map_eq. intros q. rewrite !lookup_fmap, lookup_alter.
  case_decide; subst; [|done]. destruct (m !! q); simpl; by rewrite ?Hg.
Qed.

Lemma meta_setState p s c : meta (setState p s c) = meta c.
Proof. unfold meta, setState. simpl. by rewrite pcepoch_alter. Qed.

Lemma meta_setStateOpt o s c : meta (setStateOpt o s c) = meta c.
Proof. destruct o; [apply meta_setState|done]. Qed.

Lemma meta_emit ev c : meta (emit ev c) = meta c.
Proof. unfold emit. by case_match. Qed.

Lemma meta_chanSend ch v c : meta (chanSend ch v c) = meta c.
Proof. unfold chanSend. by destruct (chans c !! ch) as [[]|]. Qed.

Lemma meta_commitWaiter k c : meta (fst (commitWaiter k c)) = meta c.
Proof. unfold commitWaiter. by destruct (commitWait c !! k). Qed.

Create Rewrite HintDb meta.
#[export] Hint Rewrite meta_setState meta_setStateOpt meta_emit meta_chanSend meta_commitWaiter : meta.
Ltac same_meta :=
  repeat first [drop_meta | progress autorewrite with meta | progress unfold newChan]; try done.

Lemma meta_failWaiters p e c : meta (failWaiters p e c) = meta c.
Proof. unfold failWaiters. repeat case_match; same_meta. Qed.
#[export] Hint Rewrite meta_failWaiters : meta.

Lemma meta_failCarrierState p e c : meta (failCarrierState p e c) = meta c.
Proof. unfold failCarrierState. repeat case_match; same_meta. Qed.
#[export] Hint Rewrite meta_failCarrierState : meta.

Lemma meta_discard off c c' : discardAckedLocked off c = Some c' -> meta c' = meta c.
Proof.
  unfold discardAckedLocked. case_match; [by intros [= <-]|].
  destruct (slice _ _ _); [|done]. by intros [= <-].
Qed.

(** Epochs and the identity are machine words of the right size. *)
Definition meta_ok (m : list byte * Z * Z * gmap Ref Z) : Prop :=
  let '(i, n, k, h) := m in
  length i = 32%nat /\ isUint64 n /\ isUint64 k /\ map_Forall (fun _ e => isUint64 e) h.

Lemma meta_ok_epoch c p : meta_ok (meta c) -> isUint64 (pcepoch (lookupC c p)).
Proof.
  intros (_ & _ & _ & Hh). unfold lookupC. destruct (heap c !! p) as [k|] eqn:E; simpl; [|done].
  apply (Hh p). by rewrite lookup_fmap, E.
Qed.

Lemma promote_meta_ok p c : meta_ok (meta c) -> meta_ok (meta (promote p c)).
Proof.
  intros Hm. pose proof (meta_ok_epoch c p Hm) as He.
  assert (meta (promote p c) = (identity c, nextEpoch c, pcepoch (lookupC c p), pcepoch <$> heap c)) as ->.
  { unfold meta, promote, setState. simpl. rewrite pcepoch_alter by done.
    destruct (active c); simpl; by rewrite ?pcepoch_alter by done. }
  destruct Hm as (H1 & H2 & _ & H4). simpl. auto.
Qed.

Lemma install_meta_ok p h n c :
  isUint64 (pcepoch h) -> isUint64 n -> meta_ok (meta c) ->
  meta_ok (meta (c <| heap := <[p := h]> (heap c) |> <| nextEpoch := n |>)).
Proof.
  intros Hh Hn (H1 & H2 & H3 & H4). unfold meta. simpl. rewrite fmap_insert.
  do 3 (split; [assumption|]). by apply map_Forall_insert_2.
Qed.

Lemma step_meta c t io c' k sp out :
  step_task c t io = Step c' k sp out -> meta_ok (meta c) ->
  match t with PrepInstall _ h _ => isUint64 (epoch h) | AccCheck _ r => isUint64 (epoch r) | _ => True end ->
  meta_ok (meta c').
Proof.
  intros H Hm Ht. destruct t; simpl in H.
  all: try (unfold_section H; run_section H; same_meta; fail).
  - unfold readCarrier_apply, applyData, applyAck, applyFIN, applyFINAck in H. cbv zeta in H.
    unfold_section H. run_section H; same_meta; try by apply promote_meta_ok.
    by erewrite meta_discard.
  - unfold PrepareCarrier_install in H. unfold_section H. run_section H; same_meta.
    refine (install_meta_ok _ (mkCarrier _ (epoch h) _) _ _ Ht Ht _). by erewrite meta_discard.
  - unfold AcceptCarrier_check, unlockRet, ret in H. cbv zeta in H.
    destruct (_ || _); [by apply Step_inj in H as (-> & _)|].
    destruct (match prepared c with Some _ => _ | None => _ end); [by apply Step_inj in H as (-> & _)|].
    destruct (discardAckedLocked _ _) as [c1|] eqn:E; [|done]. apply Step_inj in H as (-> & _).
    drop_meta. refine (install_meta_ok _ (mkCarrier _ (epoch request) _) _ _ Ht Ht _).
    apply meta_discard in E. rewrite meta_setStateOpt in E. by rewrite E.
Qed.
