(* ===== verification/ResumableSafety.v ===== *)
(** * Resumable stream: endpoint safety against any peer

    An [Endpoint] is a [Conn] with its goroutines.  [exec] runs one action of it:
    a goroutine section with whatever the carriers supplied, or a call of the
    [net.Conn] interface.  Nothing is assumed of the peer beyond what
    [readFrame] and [readHello] check. *)
From S2P Require Import Prelude Sha256 Codec ResumableWire ResumableConn ResumableInv.

(** [written] and [delivered] record what the application wrote and read; the
    code has no such fields and no section looks at them. *)
Record Endpoint := mkEndpoint {
  conn : Conn;
  threads : list (list Task);
  written : list byte;
  delivered : list byte
}.

Inductive Action :=
| ARun (i : nat) (io : IO)
| ACall (t : Task)
| ARead (n : Z)
| AWrite (bs : list byte)
| ACloseWrite
| ASetDeadline (r w : option Z).

(** The entry points of the API that start with a section of their own. *)
Definition isCall (t : Task) : bool :=
  match t with
  | PrepStart _ | AccStart _ | PromStart _ | DropStart _ | CloseStart | FailTerminal _ => true
  | _ => false
  end.

Inductive ExecResult :=
| Stuck
| Panicked
| Done (e : Endpoint) (out : list Out).

Definition exec (e : Endpoint) (a : Action) : ExecResult :=
  match a with
  | ARun i io =>
      match threads e !! i with
      | Some (t :: rest) =>
          match step_task (conn e) t io with
          | Blocked => Stuck
          | Panic => Panicked
          | Step c k sp out =>
              Done (mkEndpoint c (<[i := k ++ rest]> (threads e) ++ map (fun t => [t]) sp)
                      (written e) (delivered e)) out
          end
      | _ => Stuck
      end
  | ACall t =>
      if isCall t then Done (mkEndpoint (conn e) (threads e ++ [[t]]) (written e) (delivered e)) []
      else Stuck
  | ARead n =>
      match Read n (conn e) with
      | (c, Returns (ReadData bs)) => Done (mkEndpoint c (threads e) (written e) (delivered e ++ bs)) []
      | (c, _) => Done (mkEndpoint c (threads e) (written e) (delivered e)) []
      end
  | AWrite bs =>
      match Write bs (conn e) with
      | (c, Returns (Ok n)) => Done (mkEndpoint c (threads e) (written e ++ ztake n bs) (delivered e)) []
      | (c, _) => Done (mkEndpoint c (threads e) (written e) (delivered e)) []
      end
  | ACloseWrite =>
      Done (mkEndpoint (fst (CloseWrite (conn e))) (threads e) (written e) (delivered e)) []
  | ASetDeadline r w =>
      Done (mkEndpoint (SetWriteDeadline w (SetReadDeadline r (conn e))) (threads e)
              (written e) (delivered e)) []
  end.

(** [New] starts [watchContext] and [writeAcknowledgements]. *)
Definition initEndpoint (w : Z) (r : Role) (dig : list byte) : Endpoint :=
  mkEndpoint (initConn w r dig) [[WatchContext]; [AkLoop]] [] [].

(** ** Well-formed byte streams *)
Record data_wf (d : StreamData) : Prop := {
  wf_window : maximumFrame <= dWindow d <= 67108864;
  wf_send_base : 0 <= dSendBase d;
  wf_send : dSendBase d + len (dSend d) = dSendNext d;
  wf_send_next : dSendNext d < two64;
  wf_send_window : len (dSend d) <= dWindow d;
  wf_recv_base : 0 <= dRecvBase d;
  wf_recv : dRecvBase d + len (dRecv d) = dRecvNext d;
  wf_recv_next : dRecvNext d < two64;
  wf_recv_window : len (dRecv d) <= dWindow d;
  wf_fin : isUint64 (dRemoteFINAt d)
}.

Definition task_frames_ok (t : Task) : Prop :=
  task_ok frame_valid frame_valid hello_valid hello_valid t.

(** A data frame that moves [recvNext] does so without wrapping. *)
Lemma data_end_nowrap s n r :
  isUint64 s -> 0 <= n <= maximumFrame -> s <= r -> r < u64 (s + n) -> u64 (s + n) = s + n.
Proof.
  unfold isUint64, maximumFrame, two64. intros Hs Hn Hr Hu.
  destruct (Z.lt_ge_cases (s + n) two64) as [L|L]; [apply u64_id; unfold two64 in *; lia|].
  assert (u64 (s + n) = s + n - two64) as E by (unfold u64, two64 in *; symmetry; apply Z.mod_unique with 1; lia).
  unfold two64 in *. lia.
Qed.

Lemma discard_wf off d d' :
  data_wf d -> off <= dSendNext d -> discard off d = Some d' ->
  data_wf d' /\ dSend d' = zdrop (dSendBase d' - dSendBase d) (dSend d) /\
  dSendBase d' = Z.max off (dSendBase d) /\ dSendNext d' = dSendNext d.
Proof.
  intros [] Hoff. unfold discard. case_match; bool_hyps.
  - intros [= <-]. rewrite Z.sub_diag, zdrop_0, Z.max_r by lia. done.
  - rewrite u64_sub by lia. rewrite slice_to_end by lia. intros [= <-]. simpl.
    rewrite Z.max_l by lia.
    split; [split; simpl; rewrite ?len_zdrop by lia; try lia; done|done].
Qed.

Lemma discard_total off d : data_wf d -> off <= dSendNext d -> discard off d <> None.
Proof.
  intros [] Hoff. unfold discard. case_match; bool_hyps; [done|].
  by rewrite u64_sub, slice_to_end by lia.
Qed.

Lemma data_step_wf d t d' :
  data_step d t d' -> data_wf d -> task_frames_ok t -> data_wf d'.
Proof.
  intros H Hwf Ht. destruct H.
  - done.
  - destruct Ht as (Hs & Hl & _). pose proof (len_nonneg (fpayload f)).
    pose proof (u64_range (fseq f + len (fpayload f))).
    rewrite (data_end_nowrap _ _ (dRecvNext d)) in * by (done || lia).
    destruct Hwf. unfold isUint64 in Hs. rewrite u64_sub in * by lia.
    rewrite slice_to_end in H2 by lia. injection H2 as <-.
    split; simpl; rewrite ?len_app, ?len_zdrop; auto; lia.
  - by eapply discard_wf.
  - destruct Ht as (Hs & _). destruct Hwf. by split.
  - destruct Hwf. by split.
  - by eapply discard_wf.
  - by eapply discard_wf.
Qed.

Definition io_valid (io : IO) : Prop :=
  io_ok frame_valid hello_valid io /\
  match io with IoRandom (Ok k) => length k = 16%nat | _ => True end.

Definition conn_wf (c : Conn) : Prop := data_wf (data c) /\ meta_ok (meta c).

(** What a well-formed endpoint sends is what its peer's reader accepts. *)
Lemma conn_sends_ok c t io :
  conn_wf c -> task_frames_ok t -> io_valid io ->
  sends_ok frame_valid hello_valid c t io.
Proof.
  intros [Hd Hm] Ht [_ Hio]. pose proof Hm as (Hi & Hn & Hk & _). destruct Hd; simpl in *.
  assert (Hempty : forall k z, isUint64 z -> frame_valid (mkFrame k z [])).
  { intros k z Hz. split; [done|]. split; [by compute|done]. }
  split.
  - intros p k _. apply Hempty, meta_ok_epoch, Hm.
  - by apply Hempty.
  - apply Hempty. split; [done|]. pose proof (len_nonneg (recv c)). lia.
  - intros off payload Hoff. rewrite u64_sub by lia.
    rewrite slice_Some by (unfold maximumFrame; lia). intros [= <-].
    split; [|split; [|done]]; simpl; [split; lia|].
    rewrite len_ztake; rewrite ?len_zdrop; unfold maximumFrame in *; lia.
  - intros _. apply Hempty. pose proof (len_nonneg (send c)). split; lia.
  - intros p f -> _ _ _. destruct Ht as (Hs & _). by apply Hempty.
  - intros p k _ _ -> Hz Hn'. unfold maxUint64, isUint64, two64 in *.
    repeat split; simpl; unfold isUint64, two64 in *; try lia; try done.
    all: pose proof (len_nonneg (recv c)); lia.
  - intros p r -> _. destruct Ht as (H1 & H2 & H3 & H4 & H5 & H6 & H7 & H8).
    repeat split; simpl; try done; try apply H4; try apply Hk; try apply wf_fin0;
      pose proof (len_nonneg (recv c)); lia.
Qed.

Lemma step_wf c t io c' k sp out :
  step_task c t io = Step c' k sp out -> conn_wf c -> task_frames_ok t -> io_valid io ->
  conn_wf c' /\ Forall task_frames_ok (k ++ sp) /\
  Forall (out_ok frame_valid hello_valid) out.
Proof.
  intros H Hwf Ht Hio. split; [split|].
  - eapply data_step_wf; [by eapply step_data|apply Hwf|done].
  - eapply step_meta; [done|apply Hwf|]. destruct t; try done; simpl in Ht.
    + destruct Ht as [Ht _]. apply Ht.
    + apply Ht.
  - eapply step_output; [done|done|apply Hio|by apply conn_sends_ok].
Qed.

Lemma discardAcked_total off c : conn_wf c -> off <= sendNext c -> discardAckedLocked off c <> None.
Proof.
  intros [Hd _] Hoff E. apply (discard_total off (data c)); [done|done|].
  by rewrite <- discard_data, E.
Qed.

Lemma applyData_no_panic p f c : conn_wf c -> frame_valid f -> applyData p f c <> Panic.
Proof.
  intros [[] _] (Hs & Hl & _). unfold applyData. cbv zeta. simpl in *.
  pose proof (len_nonneg (fpayload f)). pose proof (len_nonneg (recv c)).
  unfold isUint64 in Hs.
  case_match; [done|]. case_match; [|done]. case_match; [done|]. bool_hyps.
  rewrite (data_end_nowrap _ _ (recvNext c)) in * by (done || lia).
  by rewrite u64_sub, slice_to_end by lia.
Qed.

Lemma writeActive_no_panic p off c : conn_wf c -> writeActive_loop p off c <> Panic.
Proof.
  intros [[] _]. unfold writeActive_loop. cbv zeta. simpl in *.
  case_match; [done|].
  assert (sendBase c <= if (off <? sendBase c) then sendBase c else off)
    by (case_match; bool_hyps; lia).
  revert H0. generalize (if (off <? sendBase c) then sendBase c else off). intros o Ho.
  case_match; [|repeat case_match; done]. bool_hyps.
  rewrite u64_sub by lia. rewrite slice_Some; [done|unfold maximumFrame; lia|lia].
Qed.

(** The only panic of the model is [PrepareCarrier]'s unlocked read of
    [c.prepared]. *)
Lemma step_no_panic c t io :
  conn_wf c -> task_frames_ok t -> step_task c t io = Panic ->
  exists p h, t = PrepSpawn p h /\ prepared c = None.
Proof.
  intros Hwf Ht H. destruct t; simpl in H.
  all: try (unfold_section H; repeat (case_match; try discriminate H); discriminate H).
  - exfalso. unfold readCarrier_apply in H. destruct (fkind f).
    + by eapply applyData_no_panic.
    + unfold applyAck in H. case_match; [done|]. bool_hyps.
      destruct (discardAckedLocked _ _) eqn:E; [done|]. by eapply discardAcked_total.
    + unfold applyFIN in H. repeat (case_match; try done).
    + done.
    + unfold applyFINAck in H. repeat (case_match; try done).
    + unfold applyCommit in H. repeat (case_match; try done).
    + unfold applyCommitAck in H. repeat (case_match; try done).
    + unfold applyConfirm in H. repeat (case_match; try done).
    + unfold applyDiscard in H. repeat (case_match; try done).
    + unfold applyDiscardAck in H. repeat (case_match; try done).
  - by eapply writeActive_no_panic in H.
  - exfalso. unfold PrepareCarrier_install, unlockRet, ret in H. case_match; [done|]. bool_hyps.
    destruct (discardAckedLocked _ _) eqn:E; [done|]. by eapply discardAcked_total.
  - unfold PrepareCarrier_spawn in H. destruct (prepared c) eqn:E; [done|]. eauto.
  - exfalso. unfold AcceptCarrier_check, unlockRet, ret in H. cbv zeta in H.
    destruct (_ || _) eqn:G; [done|].
    destruct (match prepared c with Some _ => _ | None => _ end); [done|].
    destruct (discardAckedLocked _ _) eqn:E; [done|]. bool_hyps.
    apply (discard_total (ack request) (data c)); [apply Hwf|done|].
    rewrite <- (data_setStateOpt (prepared c) carrierSuperseded). by rewrite <- discard_data, E.
Qed.

(** ** Endpoint runs *)
Definition endpoint_wf (e : Endpoint) : Prop :=
  conn_wf (conn e) /\ Forall (Forall task_frames_ok) (threads e).

(** The application stays below 2^64 bytes: the one counter the code lets wrap. *)
Definition action_valid (e : Endpoint) (a : Action) : Prop :=
  match a with
  | ARun _ io => io_valid io
  | AWrite bs => sendNext (conn e) + len bs < two64
  | _ => True
  end.

(** [Reaches e e' out]: a run of the endpoint, with all it sent. *)
Inductive Reaches : Endpoint -> Endpoint -> Prop :=
| reach_refl e : Reaches e e
| reach_step e a e1 out e2 :
    action_valid e a -> exec e a = Done e1 out -> Reaches e1 e2 -> Reaches e e2.

Lemma Read_wf n c : conn_wf c -> conn_wf (fst (Read n c)).
Proof.
  intros [[] Hm]. unfold Read. case_match; [done|]. case_match; [|repeat case_match; done].
  bool_hyps. split; [|done]. simpl in *.
  assert (0 <= Z.min n (len (recv c)) <= len (recv c)) by lia.
  rewrite u64_id by lia. split; simpl; rewrite ?len_zdrop; auto; lia.
Qed.

Lemma Write_wf bs c :
  conn_wf c -> sendNext c + len bs < two64 -> conn_wf (fst (Write bs c)).
Proof.
  intros [[] Hm] Hb. unfold Write. case_match; [done|]. case_match; [done|]. cbv zeta.
  case_match; [|done]. bool_hyps. split; [|done]. simpl in *. pose proof (len_nonneg bs).
  pose proof (len_nonneg (send c)).
  assert (0 <= Z.min (window c - len (send c)) (len bs) <= len bs) by lia.
  rewrite u64_id by lia. split; simpl; rewrite ?len_app, ?len_ztake; auto; lia.
Qed.

Lemma CloseWrite_wf c : conn_wf c -> conn_wf (fst (CloseWrite c)).
Proof. intros [[] Hm]. unfold CloseWrite. case_match; split; done. Qed.

Lemma exec_wf e a e' out :
  exec e a = Done e' out -> action_valid e a -> endpoint_wf e ->
  endpoint_wf e' /\ Forall (out_ok frame_valid hello_valid) out.
Proof.
  intros H Ha [Hc Ht]. destruct a; simpl in H, Ha.
  - destruct (threads e !! i) as [[|t rest]|] eqn:Ei; try done.
    destruct (step_task (conn e) t io) as [| |c k sp o] eqn:Es; try done.
    injection H as <- <-.
    assert (Hi : Forall task_frames_ok (t :: rest))
      by (eapply Forall_lookup_1; eauto).
    inversion Hi as [|? ? Ht1 Hrest]; subst.
    destruct (step_wf _ _ _ _ _ _ _ Es Hc Ht1 Ha) as (Hc' & Hk & Ho).
    split; [|done]. split; [done|]. simpl. apply Forall_app in Hk as [Hk Hsp].
    apply Forall_app. split; [apply Forall_insert; [done|apply Forall_app; done]|].
    apply Forall_map. eapply Forall_impl; [exact Hsp|]. intros t' Ht'. by constructor.
  - destruct (isCall t) eqn:Ec; [|done]. injection H as <- <-. split; [|done].
    split; [done|]. simpl. apply Forall_app. split; [done|]. repeat constructor. by destruct t.
  - pose proof (Read_wf n _ Hc) as Hr. destruct (Read n (conn e)) as [c [[]|]];
      injection H as <- <-; done.
  - pose proof (Write_wf bs _ Hc Ha) as Hr. destruct (Write bs (conn e)) as [c [[]|]];
      injection H as <- <-; done.
  - injection H as <- <-. split; [|done]. split; [by apply CloseWrite_wf|done].
  - injection H as <- <-. split; [|done]. split; [|done]. destruct Hc as [[] Hm]. by split.
Qed.

Lemma init_wf w r dig :
  maximumFrame <= w <= 67108864 -> length dig = 32%nat -> endpoint_wf (initEndpoint w r dig).
Proof.
  intros Hw Hd. split.
  - split; [|by repeat split].
    split; simpl; try done; unfold maximumFrame, len, two64 in *; simpl; lia.
  - repeat constructor.
Qed.

Lemma New_wf config c : New config = Some c -> conn_wf c /\ window c = cfgWindowBytes config.
Proof.
  unfold New. destruct (digest _) as [dig|] eqn:E; [|done]. case_match; [done|]. intros [= <-].
  bool_hyps. split; [|done].
  assert (length dig = 32%nat).
  { unfold digest in E. case_match; [done|]. injection E as <-. apply Sha256.Sum256_length. }
  eapply (init_wf _ (cfgRole config)); [lia|done].
Qed.

Lemma Reaches_wf e e' : Reaches e e' -> endpoint_wf e -> endpoint_wf e'.
Proof. induction 1; intros; [done|]. apply IHReaches. by eapply exec_wf. Qed.
