(* ===== verification/ResumableView.v ===== *)
(** * Resumable stream: one direction between two endpoints

    A [View] is what an endpoint knows and did with its byte stream; [view_step]
    is how it can move.  [stream_inv s r] ties the sender [s] of a direction to
    its receiver [r]: the receiver holds a prefix of what was written, what it
    has not delivered is still in the send buffer, and a FIN stands at the end.
    [stream_inv] survives every step of either end as long as the frames the end
    reacts to are frames its peer sent at some time ([frame_from]): how they
    travelled, in which order and how often does not matter. *)
From S2P Require Import Prelude Codec ResumableWire ResumableConn ResumableInv ResumableSafety.

Record View := mkView { vd : StreamData; vWritten : list byte; vDelivered : list byte }.

Definition view (e : Endpoint) : View := mkView (data (conn e)) (written e) (delivered e).

(** ** What a sender's frames mean *)
Definition data_of (v : View) (seq : Z) (pl : list byte) : Prop :=
  0 <= seq /\ seq + len pl <= len (vWritten v) /\ pl = ztake (len pl) (zdrop seq (vWritten v)).

Definition frame_from (v : View) (f : Frame) : Prop :=
  match fkind f with
  | frameData => data_of v (fseq f) (fpayload f)
  | frameAck => fseq f <= dRecvBase (vd v)
  | frameFIN => dLocalFIN (vd v) = true /\ fseq f = len (vWritten v)
  | frameFINAck => dRemoteFIN (vd v) = true /\ fseq f = dRemoteFINAt (vd v)
  | _ => True
  end.

Definition hello_from (v : View) (h : helloV2) : Prop := ack h <= dRecvBase (vd v).

(** An endpoint only moves forward. *)
Record evolves (v v' : View) : Prop := {
  ev_written : exists k, vWritten v' = vWritten v ++ k;
  ev_frozen : dLocalFIN (vd v) = true -> vWritten v' = vWritten v /\ dLocalFIN (vd v') = true;
  ev_recvBase : dRecvBase (vd v) <= dRecvBase (vd v');
  ev_fin : dRemoteFIN (vd v) = true ->
           dRemoteFIN (vd v') = true /\ dRemoteFINAt (vd v') = dRemoteFINAt (vd v)
}.

Lemma data_of_app v v' k seq pl :
  vWritten v' = vWritten v ++ k -> data_of v seq pl -> data_of v' seq pl.
Proof.
  unfold data_of. intros Hw (H1 & H2 & H3). pose proof (len_nonneg pl). pose proof (len_nonneg k).
  rewrite Hw, len_app. split; [done|]. split; [lia|].
  rewrite zdrop_app_le by lia. rewrite ztake_app_le; [done|]. rewrite len_zdrop; lia.
Qed.

Lemma frame_from_mono v v' f : evolves v v' -> frame_from v f -> frame_from v' f.
Proof.
  intros [[k Hw] Hf Hr Hfin]. unfold frame_from. destruct (fkind f); try done.
  - by apply (data_of_app v v' k).
  - lia.
  - intros [H1 H2]. destruct (Hf H1) as [-> ->]. done.
  - intros [H1 H2]. destruct (Hfin H1) as [-> ->]. done.
Qed.

Lemma hello_from_mono v v' h : evolves v v' -> hello_from v h -> hello_from v' h.
Proof. intros []. unfold hello_from. lia. Qed.

(** The goroutines of [v] react to frames of [u] and hold frames of [v]. *)
Definition task_from (u v : View) : Task -> Prop :=
  task_ok (frame_from u) (frame_from v) (hello_from u) (hello_from v).

Lemma task_from_mono u u' v v' t :
  evolves u u' -> evolves v v' -> task_from u v t -> task_from u' v' t.
Proof.
  intros Hu Hv. unfold task_from.
  destruct t; simpl; try done; eauto using frame_from_mono, hello_from_mono.
  intros [? ?]. split; eauto using hello_from_mono.
Qed.

(** ** How a view moves *)
Inductive view_step (P : Task -> Prop) (v : View) : View -> Prop :=
| vs_task t d' : P t -> data_step (vd v) t d' -> view_step P v (mkView d' (vWritten v) (vDelivered v))
| vs_read k :
    0 <= k <= len (dRecv (vd v)) ->
    view_step P v
      (mkView ((vd v) <| dRecv := zdrop k (dRecv (vd v)) |> <| dRecvBase := dRecvBase (vd v) + k |>)
         (vWritten v) (vDelivered v ++ ztake k (dRecv (vd v))))
| vs_write bs :
    dLocalFIN (vd v) = false ->
    view_step P v
      (mkView ((vd v) <| dSend := dSend (vd v) ++ bs |> <| dSendNext := dSendNext (vd v) + len bs |>)
         (vWritten v ++ bs) (vDelivered v))
| vs_close :
    view_step P v (mkView ((vd v) <| dLocalFIN := true |>) (vWritten v) (vDelivered v)).

Lemma view_same P v : view_step P v (mkView (vd v) (vWritten v) (vDelivered v ++ ztake 0 (dRecv (vd v)))).
Proof.
  pose proof (vs_read P v 0) as H. rewrite zdrop_0, Z.add_0_r in H. destruct v as [[] ? ?]. apply H.
  simpl. pose proof (len_nonneg dRecv). lia.
Qed.

Lemma data_step_sends d t d' :
  data_step d t d' -> dLocalFIN d' = dLocalFIN d /\ dSendNext d' = dSendNext d /\ dRecvBase d' = dRecvBase d.
Proof.
  destruct 1; try done;
    match goal with E : discard _ _ = _ |- _ => revert E end; unfold discard;
    (case_match; [by intros [= <-]|]); (destruct (slice _ _ _); [|done]); by intros [= <-].
Qed.

Lemma data_step_fin d t d' :
  data_step d t d' -> dRemoteFIN d = true ->
  dRemoteFIN d' = true /\ dRemoteFINAt d' = dRemoteFINAt d.
Proof.
  destruct 1; try done; try congruence;
    match goal with E : discard _ _ = _ |- _ => revert E end; unfold discard;
    (case_match; [by intros [= <-]|]); (destruct (slice _ _ _); [|done]); by intros [= <-].
Qed.

Lemma view_step_evolves P v v' : view_step P v v' -> evolves v v'.
Proof.
  destruct 1 as [t d' _ H|k Hk|bs Hl|].
  - pose proof (data_step_sends _ _ _ H) as (E1 & E2 & E3). pose proof (data_step_fin _ _ _ H).
    split; simpl; [exists []; by rewrite app_nil_r|rewrite E1; done|lia|done].
  - split; simpl; [exists []; by rewrite app_nil_r|done|lia|done].
  - split; simpl; [by exists bs|congruence|lia|done].
  - split; simpl; [exists []; by rewrite app_nil_r|done|lia|done].
Qed.

(** ** The invariant of a direction *)
Record stream_inv (s r : View) : Prop := {
  si_next : dSendNext (vd s) = len (vWritten s);
  si_send : dSend (vd s) = zdrop (dSendBase (vd s)) (vWritten s);
  si_base : dRecvBase (vd r) = len (vDelivered r);
  si_recv_le : dRecvNext (vd r) <= len (vWritten s);
  si_recv : vDelivered r ++ dRecv (vd r) = ztake (dRecvNext (vd r)) (vWritten s);
  si_acked : dSendBase (vd s) <= dRecvBase (vd r);
  si_fin : dRemoteFIN (vd r) = true ->
           dLocalFIN (vd s) = true /\ dRemoteFINAt (vd r) = len (vWritten s) /\
           dRecvNext (vd r) = len (vWritten s);
  si_finack : dFinAcked (vd s) = true -> dRemoteFIN (vd r) = true
}.

Definition task_both (u v : View) (t : Task) : Prop := task_frames_ok t /\ task_from u v t.

Lemma discard_inv s r off d' :
  stream_inv s r -> data_wf (vd s) -> off <= dRecvBase (vd r) -> off <= dSendNext (vd s) ->
  discard off (vd s) = Some d' -> stream_inv (mkView d' (vWritten s) (vDelivered s)) r.
Proof.
  intros I W Hr Hn Hd. pose proof (discard_wf _ _ _ W Hn Hd) as (_ & Hs & Hb & Hsn).
  assert (dLocalFIN d' = dLocalFIN (vd s) /\ dFinAcked d' = dFinAcked (vd s)) as [E1 E2].
  { revert Hd. unfold discard. case_match; [by intros [= <-]|].
    destruct (slice _ _ _); [|done]. by intros [= <-]. }
  destruct I, W. split; simpl; try done; try congruence; try lia.
  - rewrite Hs, si_send0, zdrop_zdrop by lia. f_equal. lia.
  - rewrite E1. done.
  - rewrite E2. done.
Qed.

(** What a goroutine does at the sending end. *)
Lemma sender_data_step s r t d' :
  data_step (vd s) t d' -> data_wf (vd s) -> task_from r s t -> stream_inv s r ->
  stream_inv (mkView d' (vWritten s) (vDelivered s)) r.
Proof.
  intros H W Ht I. destruct H; simpl in Ht.
  - destruct s; done.
  - destruct I; by split.
  - unfold frame_from in Ht. rewrite H in Ht. by eapply discard_inv.
  - destruct I; by split.
  - unfold frame_from in Ht. rewrite H in Ht. destruct Ht as [Hf _]. destruct I; by split.
  - destruct Ht as [_ Ht]. by eapply discard_inv.
  - by eapply discard_inv.
Qed.

(** What a goroutine does at the receiving end. *)
Lemma receiver_data_step s r t d' :
  data_step (vd r) t d' -> data_wf (vd r) -> task_both s r t -> stream_inv s r ->
  stream_inv s (mkView d' (vWritten r) (vDelivered r)).
Proof.
  assert (Hdisc : forall off d', discard off (vd r) = Some d' -> stream_inv s r ->
                  stream_inv s (mkView d' (vWritten r) (vDelivered r))).
  { intros off d0. unfold discard. case_match; [intros [= <-]; by destruct r|].
    destruct (slice _ _ _); [|done]. intros [= <-] []. by split. }
  intros H W [Hv Ht] I. destruct H; simpl in Ht, Hv; eauto.
  - destruct r; done.
  - unfold frame_from in Ht. rewrite H in Ht. destruct Ht as (Hp & Hle & Hpl).
    destruct Hv as (Hu & Hl & _). pose proof (len_nonneg (fpayload f)).
    rewrite (data_end_nowrap _ _ (dRecvNext (vd r))) in * by (done || lia).
    destruct I, W. unfold isUint64 in Hu. rewrite u64_sub in * by lia.
    rewrite slice_to_end in H2 by lia. injection H2 as <-.
    split; simpl; try done.
    + rewrite app_assoc, si_recv0. rewrite Hpl at 1.
      rewrite zdrop_ztake_zdrop, Z.sub_add, ztake_ztake_zdrop by lia. f_equal. lia.
    + intros Hf. destruct (si_fin0 Hf) as (E1 & E2 & E3). split; [done|]. split; [done|lia].
  - unfold frame_from in Ht. rewrite H in Ht. destruct Ht as [Hf He].
    destruct I. split; simpl; try done. intros _. rewrite He in *. by rewrite <- H0.
  - destruct I. by split.
Qed.

(** A step of the sender keeps its direction. *)
Lemma sender_step s r s' :
  view_step (task_both r s) s s' -> data_wf (vd s) -> data_wf (vd r) -> stream_inv s r ->
  stream_inv s' r.
Proof.
  destruct 1 as [t d' [_ Ht] H|k Hk|bs Hl|]; intros W Wr I.
  - by eapply sender_data_step.
  - destruct I; by split.
  - pose proof (len_nonneg bs). pose proof (len_nonneg (dRecv (vd r))).
    pose proof (wf_send _ W) as Hlen. pose proof (wf_recv _ Wr). pose proof (wf_recv_base _ Wr).
    pose proof (wf_send_base _ W). destruct I. rewrite si_send0 in Hlen.
    assert (dSendBase (vd s) <= len (vWritten s)).
    { pose proof (len_nonneg (zdrop (dSendBase (vd s)) (vWritten s))). lia. }
    split; simpl; rewrite ?len_app; try done; try lia.
    + by rewrite si_send0, zdrop_app_le by lia.
    + rewrite ztake_app_le by lia. done.
    + intros Hf. destruct (si_fin0 Hf). congruence.
  - destruct I. split; simpl; try done. intros Hf. by destruct (si_fin0 Hf).
Qed.

(** A step of the receiver keeps its direction. *)
Lemma receiver_step s r r' :
  view_step (task_both s r) r r' -> data_wf (vd r) -> stream_inv s r -> stream_inv s r'.
Proof.
  destruct 1 as [t d' Ht H|k Hk|bs Hl|]; intros W I.
  - by eapply receiver_data_step.
  - destruct I, W. split; simpl; try done; try lia.
    + rewrite len_app, len_ztake by lia. lia.
    + by rewrite <- app_assoc, ztake_zdrop.
  - destruct I; by split.
  - destruct I; by split.
Qed.

(** The receiver's counter of delivered bytes is exact for any peer. *)
Lemma stream_inv_init w w' r r' dig dig' :
  stream_inv (view (initEndpoint w r dig)) (view (initEndpoint w' r' dig')).
Proof. by split. Qed.
