(* ===== verification/ResumableSystem.v ===== *)
(** * Resumable stream: two endpoints over failing carriers

    An initiator and a responder exchange hellos and frames over carriers that
    are ordered byte streams until they break.  Either side may start any API
    call, any goroutine may run its next section, and a carrier may break at any
    point, losing what was in flight; a read or a write on it then fails or, for
    a write, is lost.  The system is executable: [sysExec] runs one action.

    The main results: each direction is a byte pipe whatever carriers come and
    go ([Pipe], [resumable_refines_pipe]), the end of stream is seen only after
    the last byte, and the acknowledgement the [Wait] functions wait for means
    that the peer's application has the bytes. *)
From S2P Require Import Prelude Codec ResumableWire ResumableConn ResumableInv ResumableSafety ResumableView.

Inductive Wire := WHello (h : helloV2) | WFrame (f : Frame).

(** What is in flight on a carrier, and whether it still takes writes. *)
Record Link := mkLink { toResponder : list Wire; toInitiator : list Wire; broken : bool }.
#[export] Instance Link_eta : Eta Link :=
  fun l => mkLink (toResponder l) (toInitiator l) (broken l).

Inductive Side := SideI | SideR.
#[export] Instance Side_eq_dec : EqDecision Side.
Proof. solve_decision. Defined.

Definition other (s : Side) : Side := match s with SideI => SideR | SideR => SideI end.

Record System := mkSystem { epI : Endpoint; epR : Endpoint; links : gmap Ref Link }.

Definition ep (s : Side) (w : System) : Endpoint := match s with SideI => epI w | SideR => epR w end.
Definition setEp (s : Side) (e : Endpoint) (w : System) : System :=
  match s with
  | SideI => mkSystem e (epR w) (links w)
  | SideR => mkSystem (epI w) e (links w)
  end.

(** The queue towards a side. *)
Definition inbox (s : Side) (l : Link) : list Wire :=
  match s with SideI => toInitiator l | SideR => toResponder l end.
Definition setInbox (s : Side) (q : list Wire) (l : Link) : Link :=
  match s with SideI => l <| toInitiator := q |> | SideR => l <| toResponder := q |> end.

(** What [s] hands to its carriers: appended to the peer's queue unless the
    carrier has broken; a [Close] breaks it. *)
Definition deliver (s : Side) (ls : gmap Ref Link) (o : Out) : gmap Ref Link :=
  let push p x := alter (fun l => if broken l then l
                                  else setInbox (other s) (inbox (other s) l ++ [x]) l) p ls in
  match o with
  | OFrame p f => push p (WFrame f)
  | OHello p h => push p (WHello h)
  | OClose p => alter (fun l => l <| broken := true |>) p ls
  | ORet _ => ls
  end.

Definition deliverAll (s : Side) (ls : gmap Ref Link) (out : list Out) : gmap Ref Link :=
  fold_left (deliver s) out ls.

Inductive SysAction :=
| SDial (p : Ref)                       (** a new carrier between the two hosts *)
| SBreak (p : Ref) (nI nR : nat)        (** the carrier breaks, keeping a prefix of each queue *)
| SAct (s : Side) (a : Action)          (** anything that reads no carrier *)
| SRecv (s : Side) (i : nat) (p : Ref). (** goroutine [i] receives the next item of [p] *)

(** The item as the reader of the goroutine's program point sees it. *)
Definition wireIO (t : Task) (p : Ref) (x : Wire) : option IO :=
  match t, x with
  | RdRead q, WFrame f => if bool_decide (q = p) then Some (IoFrame (Ok f)) else None
  | PrepRead q _, WHello h => if bool_decide (q = p) then Some (IoHello (Ok h)) else None
  | AccRead q, WHello h => if bool_decide (q = p) then Some (IoHello (Ok h)) else None
  | _, _ => None
  end.

(** An action that takes nothing off a carrier. *)
Definition localAction (a : Action) : bool :=
  match a with
  | ARun _ (IoFrame (Ok _)) | ARun _ (IoHello (Ok _)) => false
  | ARun _ (IoRandom (Ok k)) => bool_decide (length k = 16%nat)
  | _ => true
  end.

Inductive SysResult := SysStuck | SysPanic | SysDone (w : System).

Definition runEp (s : Side) (a : Action) (ls : gmap Ref Link) (w : System) : SysResult :=
  match exec (ep s w) a with
  | Stuck => SysStuck
  | Panicked => SysPanic
  | Done e out => SysDone (setEp s e (mkSystem (epI w) (epR w) (deliverAll s ls out)))
  end.

Definition sysExec (w : System) (a : SysAction) : SysResult :=
  match a with
  | SDial p =>
      match links w !! p with
      | Some _ => SysStuck
      | None => SysDone (mkSystem (epI w) (epR w) (<[p := mkLink [] [] false]> (links w)))
      end
  | SBreak p nI nR =>
      SysDone (mkSystem (epI w) (epR w)
        (alter (fun l => mkLink (take nR (toResponder l)) (take nI (toInitiator l)) true) p (links w)))
  | SAct s a => if localAction a then runEp s a (links w) w else SysStuck
  | SRecv s i p =>
      match links w !! p, threads (ep s w) !! i with
      | Some l, Some (t :: _) =>
          match inbox s l with
          | x :: q =>
              match wireIO t p x with
              | Some io => runEp s (ARun i io) (<[p := setInbox s q l]> (links w)) w
              | None => SysStuck
              end
          | [] => SysStuck
          end
      | _, _ => SysStuck
      end
  end.

(** The applications stay below 2^64 bytes in each direction. *)
Definition sysAction_valid (w : System) (a : SysAction) : Prop :=
  match a with
  | SAct s (AWrite bs) => len (written (ep s w)) + len bs < two64
  | _ => True
  end.

Definition initSystem (wi wr : Z) (dig : list byte) : System :=
  mkSystem (initEndpoint wi RoleInitiator dig) (initEndpoint wr RoleResponder dig) ∅.

Inductive SysReach (w0 : System) : System -> Prop :=
| sys_refl : SysReach w0 w0
| sys_step w a w' :
    SysReach w0 w -> sysAction_valid w a -> sysExec w a = SysDone w' -> SysReach w0 w'.

(** ** An endpoint of the system *)
Definition wire_from (v : View) (x : Wire) : Prop :=
  match x with
  | WHello h => hello_valid h /\ hello_from v h
  | WFrame f => frame_valid f /\ frame_from v f
  end.

Lemma wire_from_mono v v' x : evolves v v' -> wire_from v x -> wire_from v' x.
Proof.
  intros He. destruct x; intros [? ?]; (split; [done|]);
    eauto using hello_from_mono, frame_from_mono.
Qed.

Definition io_from (u : View) (a : Action) : Prop :=
  match a with ARun _ io => io_ok (frame_from u) (hello_from u) io | _ => True end.

Lemma exec_view P e a e' out :
  exec e a = Done e' out -> endpoint_wf e -> action_valid e a -> Forall (Forall P) (threads e) ->
  view_step P (view e) (view e').
Proof.
  intros H [[W _] _] Ha HP.
  assert (Hsame : forall c ts, data c = data (conn e) ->
                  view_step P (view e) (view (mkEndpoint c ts (written e) (delivered e)))).
  { intros c ts E. pose proof (view_same P (view e)) as V. unfold ztake in V. simpl in V.
    rewrite app_nil_r in V. unfold view at 2. simpl. by rewrite E. }
  destruct a; simpl in H, Ha.
  - destruct (threads e !! i) as [[|t rest]|] eqn:Ei; try done.
    destruct (step_task (conn e) t io) as [| |c k sp o] eqn:Es; try done. injection H as <- <-.
    apply (Forall_lookup_1 _ _ _ _ HP) in Ei. inversion Ei; subst.
    unfold view at 2; simpl. eapply (vs_task P (view e)); [done|by eapply step_data].
  - destruct (isCall t); [|done]. injection H as <- <-. by apply Hsame.
  - unfold Read in H. repeat case_match; simplify_eq; try (by apply Hsame);
      try (unfold ztake in *; simpl; rewrite app_nil_r; by apply Hsame).
    bool_hyps. destruct W; simpl in *.
    pose proof (vs_read P (view e) (Z.min n (len (recv (conn e))))) as V. simpl in V.
    unfold view at 2. unfold data at 1. simpl. rewrite u64_id by lia. apply V. lia.
  - unfold Write in H. repeat case_match; simplify_eq; try (by apply Hsame).
    + unfold ztake; simpl; rewrite app_nil_r; by apply Hsame.
    + bool_hyps. destruct W; simpl in *. pose proof (len_nonneg bs). pose proof (len_nonneg (send (conn e))).
      set (n := Z.min _ _). assert (len (ztake n bs) = n) as En by (apply len_ztake; lia).
      pose proof (vs_write P (view e) (ztake n bs)) as V. simpl in V. rewrite En in V.
      unfold view at 2. unfold data at 1. simpl. rewrite u64_id by lia. by apply V.
  - injection H as <- <-. unfold CloseWrite. case_match; simpl; [by apply Hsame|].
    apply (vs_close P (view e)).
  - injection H as <- <-. by apply Hsame.
Qed.

(** What an endpoint sends says the truth about its stream. *)
Lemma sends_from e u c' t io k sp out :
  step_task (conn e) t io = Step c' k sp out -> data_wf (data (conn e)) ->
  stream_inv (view e) u -> evolves (view e) (mkView (data c') (written e) (delivered e)) ->
  sends_ok (frame_from (mkView (data c') (written e) (delivered e)))
    (hello_from (mkView (data c') (written e) (delivered e))) (conn e) t io.
Proof.
  intros H W I Hev. pose proof (ev_recvBase _ _ Hev) as Hb. simpl in Hb. split.
  - intros p [] Hk; done.
  - done.
  - apply Hb.
  - intros off payload Hoff Hsl. unfold frame_from, data_of. simpl.
    pose proof (wf_send _ W). pose proof (wf_send_base _ W). pose proof (wf_send_next _ W).
    destruct I; simpl in *. rewrite u64_sub in Hsl by lia.
    rewrite slice_Some in Hsl by (unfold maximumFrame; lia).
    assert (Hn : 0 <= Z.min maximumFrame (len (send (conn e)) - (off - sendBase (conn e))))
      by (unfold maximumFrame; lia).
    revert Hsl Hn. set (n := Z.min _ _). intros [= <-] Hn.
    rewrite len_ztake by (rewrite len_zdrop; lia).
    rewrite si_send, zdrop_zdrop by lia.
    replace (off - sendBase (conn e) + n - (off - sendBase (conn e))) with n by lia.
    replace (off - sendBase (conn e) + sendBase (conn e)) with off by lia.
    split; [lia|]. split; [lia|done].
  - intros Hl. unfold frame_from; simpl. split; [|apply I].
    by destruct (ev_frozen _ _ Hev Hl).
  - intros p f -> Hk Hs Hr. unfold frame_from; simpl.
    simpl in H. unfold readCarrier_apply in H. rewrite Hk in H. unfold applyFIN in H.
    rewrite Hr in H. simpl in H. rewrite (proj2 (Z.ltb_ge _ _)) in H by lia. simpl in H.
    rewrite (proj2 (Z.ltb_ge _ _)) in H by lia. simpl in H.
    by apply Step_inj in H as (-> & _).
  - intros. apply Hb.
  - intros. apply Hb.
Qed.

Lemma exec_from u e a e' out :
  exec e a = Done e' out -> endpoint_wf e -> action_valid e a -> io_from u a ->
  stream_inv (view e) u -> Forall (Forall (task_from u (view e))) (threads e) ->
  Forall (Forall (task_from u (view e'))) (threads e') /\
  Forall (out_ok (frame_from (view e')) (hello_from (view e'))) out.
Proof.
  intros H Hwf Ha Hio I HT.
  assert (Hev : evolves (view e) (view e')).
  { eapply (view_step_evolves (fun _ => True)), exec_view; eauto.
    eapply Forall_impl; [exact HT|]. intros ? ?. by apply Forall_true. }
  assert (HT' : Forall (Forall (task_from u (view e'))) (threads e)).
  { eapply Forall_impl; [exact HT|]. intros ts Hts. eapply Forall_impl; [exact Hts|].
    intros t. apply task_from_mono; [|done]. split; try done. exists []. by rewrite app_nil_r. }
  destruct a; simpl in H, Ha, Hio.
  - destruct (threads e !! i) as [[|t rest]|] eqn:Ei; try done.
    destruct (step_task (conn e) t io) as [| |c k sp o] eqn:Es; try done. injection H as <- <-.
    pose proof (Forall_lookup_1 _ _ _ _ HT' Ei) as Hi. inversion Hi as [|? ? Ht Hrest]; subst.
    pose proof (sends_from e u c t io k sp o Es (proj1 (proj1 Hwf)) I Hev) as S.
    destruct (step_output _ _ _ _ _ _ _ _ _ _ _ Es Ht Hio S) as [Hk Ho].
    split; [|done]. simpl. apply Forall_app in Hk as [Hk Hsp].
    apply Forall_app. split; [apply Forall_insert; [done|apply Forall_app; done]|].
    apply Forall_map. eapply Forall_impl; [exact Hsp|]. intros t' Ht'. by constructor.
  - destruct (isCall t) eqn:Ec; [|done]. injection H as <- <-. split; [|constructor]. simpl.
    apply Forall_app. split; [done|]. repeat constructor. by destruct t.
  - destruct (Read n (conn e)) as [c [[]|]]; injection H as <- <-; split; done.
  - destruct (Write bs (conn e)) as [c [[]|]]; injection H as <- <-; split; done.
  - injection H as <- <-. by split.
  - injection H as <- <-. by split.
Qed.

(** ** The system invariant *)
Definition links_from (w : System) (ls : gmap Ref Link) : Prop :=
  map_Forall (fun _ l => forall s, Forall (wire_from (view (ep (other s) w))) (inbox s l)) ls.

Record sys_inv (w : System) : Prop := {
  inv_wf : forall s, endpoint_wf (ep s w);
  inv_stream : forall s, stream_inv (view (ep s w)) (view (ep (other s) w));
  inv_tasks : forall s,
    Forall (Forall (task_from (view (ep (other s) w)) (view (ep s w)))) (threads (ep s w));
  inv_links : links_from w (links w)
}.

Lemma ep_setEp s e w : ep s (setEp s e w) = e.
Proof. by destruct s. Qed.

Lemma ep_setEp_other s e w : ep (other s) (setEp s e w) = ep (other s) w.
Proof. by destruct s. Qed.

Lemma other_other s : other (other s) = s.
Proof. by destruct s. Qed.

Lemma side_cases s s' : s' = s \/ s' = other s.
Proof. destruct s, s'; auto. Qed.

Lemma inbox_setInbox s s' q l :
  inbox s' (setInbox s q l) = if decide (s' = s) then q else inbox s' l.
Proof. by destruct s, s'. Qed.

Lemma links_from_mono w w' ls :
  (forall s, evolves (view (ep s w)) (view (ep s w'))) -> links_from w ls -> links_from w' ls.
Proof.
  intros He Hl. eapply map_Forall_impl; [exact Hl|]. intros p l H s.
  eapply Forall_impl; [apply H|]. intros x. by apply wire_from_mono.
Qed.

Lemma links_from_alter w ls p (g : Link -> Link) :
  links_from w ls ->
  (forall l s, Forall (wire_from (view (ep (other s) w))) (inbox s l) ->
               Forall (wire_from (view (ep (other s) w))) (inbox s (g l))) ->
  links_from w (alter g p ls).
Proof.
  intros Hl Hg q l. rewrite lookup_alter_Some. intros [(-> & l' & E & ->)|[_ E]] s.
  - apply Hg. by apply (Hl q).
  - by apply (Hl q).
Qed.

Lemma deliver_from w s o ls :
  links_from w ls -> out_ok frame_valid hello_valid o ->
  out_ok (frame_from (view (ep s w))) (hello_from (view (ep s w))) o ->
  links_from w (deliver s ls o).
Proof.
  intros Hl Hv Hf.
  assert (Hpush : forall p x, wire_from (view (ep s w)) x ->
    links_from w (alter (fun l => if broken l then l
                    else setInbox (other s) (inbox (other s) l ++ [x]) l) p ls)).
  { intros p x Hx. apply links_from_alter; [done|]. intros l s' Hq. case_match; [done|].
    rewrite inbox_setInbox. case_decide; subst; [|done].
    apply Forall_app. split; [done|]. rewrite other_other. by constructor. }
  destruct o; simpl in *; [by apply Hpush|by apply Hpush| |done].
  apply links_from_alter; [done|]. by intros l [].
Qed.

Lemma deliverAll_from w s out ls :
  links_from w ls -> Forall (out_ok frame_valid hello_valid) out ->
  Forall (out_ok (frame_from (view (ep s w))) (hello_from (view (ep s w)))) out ->
  links_from w (deliverAll s ls out).
Proof.
  unfold deliverAll. intros Hl Hv. revert ls Hl. induction Hv; intros ls Hl Hf; simpl; [done|].
  inversion Hf; subst. apply IHHv; [|done]. by apply deliver_from.
Qed.

Lemma tasks_both u e :
  endpoint_wf e -> Forall (Forall (task_from u (view e))) (threads e) ->
  Forall (Forall (task_both u (view e))) (threads e).
Proof.
  intros [_ Hv] Hf. apply Forall_forall. intros ts Hin. apply Forall_forall. intros t Ht.
  rewrite Forall_forall in Hv, Hf. specialize (Hv ts Hin). specialize (Hf ts Hin).
  rewrite Forall_forall in Hv, Hf. split; auto.
Qed.

Lemma runEp_inv s a ls w w' :
  runEp s a ls w = SysDone w' -> action_valid (ep s w) a -> io_from (view (ep (other s) w)) a ->
  links_from w ls -> sys_inv w -> sys_inv w'.
Proof.
  unfold runEp. destruct (exec (ep s w) a) as [| |e out] eqn:He; try done.
  intros [= <-] Ha Hio Hls [Iw Is It Il].
  destruct (exec_wf _ _ _ _ He Ha (Iw s)) as [Hwf' Hov].
  destruct (exec_from _ _ _ _ _ He (Iw s) Ha Hio (Is s) (It s)) as [Ht' Hof].
  pose proof (exec_view _ _ _ _ _ He (Iw s) Ha (tasks_both _ _ (Iw s) (It s))) as Hvs.
  pose proof (view_step_evolves _ _ _ Hvs) as Hev.
  set (w1 := setEp s e _).
  assert (E1 : ep s w1 = e) by apply ep_setEp.
  assert (E2 : ep (other s) w1 = ep (other s) w) by (unfold w1; by destruct s).
  assert (Hrefl : forall v, evolves v v)
    by (intros v; split; [exists []; by rewrite app_nil_r|done..]).
  split.
  - intros s'. destruct (side_cases s s') as [->| ->]; [by rewrite E1|by rewrite E2].
  - intros s'. destruct (side_cases s s') as [->| ->]; rewrite ?other_other, E1, E2.
    + eapply sender_step; [exact Hvs|apply Iw..|apply Is].
    + eapply receiver_step; [exact Hvs|apply Iw|]. pose proof (Is (other s)) as H.
      by rewrite other_other in H.
  - intros s'. destruct (side_cases s s') as [->| ->]; rewrite ?other_other, E1, E2; [done|].
    pose proof (It (other s)) as H. rewrite other_other in H.
    eapply Forall_impl; [exact H|]. intros ts Hts. eapply Forall_impl; [exact Hts|].
    intros t. by apply task_from_mono.
  - replace (links w1) with (deliverAll s ls out) by (unfold w1; by destruct s).
    apply deliverAll_from; [|done|by rewrite E1]. eapply links_from_mono; [|done].
    intros s'. destruct (side_cases s s') as [->| ->]; [by rewrite E1|by rewrite E2].
Qed.

Lemma localAction_from u a : localAction a = true -> io_from u a.
Proof. destruct a; simpl; try done. destruct io as [| |[]|[]| | |]; done. Qed.

Lemma localAction_valid e a :
  localAction a = true -> (forall bs, a = AWrite bs -> sendNext (conn e) + len bs < two64) ->
  action_valid e a.
Proof.
  destruct a; simpl; try done; [|by auto]. intros H _. unfold io_valid.
  destruct io as [| |[]|[]|[]| |]; try done. split; [done|]. by bool_hyps.
Qed.

Lemma wireIO_from u t p x io i :
  wireIO t p x = Some io -> wire_from u x -> io_valid io /\ io_from u (ARun i io).
Proof.
  destruct t, x; simpl; try done; case_match; try done; intros [= <-] [? ?];
    (split; [split; done|done]).
Qed.

Lemma sysExec_inv w a w' :
  sysExec w a = SysDone w' -> sysAction_valid w a -> sys_inv w -> sys_inv w'.
Proof.
  intros H Ha I. destruct a; simpl in H.
  - destruct (links w !! p) eqn:E; [done|]. injection H as <-. destruct I as [Iw Is It Il].
    split; try done. apply map_Forall_insert_2; [|done]. intros []; constructor.
  - injection H as <-. destruct I as [Iw Is It Il]. split; try done.
    apply (links_from_alter w); [done|]. intros l []; simpl; intros; by apply Forall_take.
  - destruct (localAction a) eqn:El; [|done].
    eapply runEp_inv; [exact H| |by apply localAction_from|apply I|done].
    apply localAction_valid; [done|]. intros bs ->. simpl in Ha.
    pose proof (si_next _ _ (inv_stream _ I s)) as Hn. simpl in Hn. lia.
  - destruct (links w !! p) as [l|] eqn:El; [|done].
    destruct (threads (ep s w) !! i) as [[|t rest]|] eqn:Et; try done.
    destruct (inbox s l) as [|x q] eqn:Eq; [done|].
    destruct (wireIO t p x) as [io|] eqn:Ew; [|done].
    pose proof (inv_links _ I p l El) as Hl. pose proof (Hl s) as Hx. rewrite Eq in Hx.
    inversion Hx as [|? ? Hx1 Hq]; subst.
    destruct (wireIO_from _ _ _ _ _ i Ew Hx1) as [Hv Hf].
    eapply runEp_inv; [exact H|done|done| |done].
    apply map_Forall_insert_2; [|apply I]. intros s'. rewrite inbox_setInbox.
    case_decide; subst; [done|apply Hl].
Qed.

Lemma init_inv wi wr dig :
  maximumFrame <= wi <= 67108864 -> maximumFrame <= wr <= 67108864 -> length dig = 32%nat ->
  sys_inv (initSystem wi wr dig).
Proof.
  intros Hi Hr Hd. split.
  - intros []; by apply init_wf.
  - intros []; apply stream_inv_init.
  - intros []; repeat constructor.
  - apply map_Forall_empty.
Qed.

Lemma SysReach_inv w w' : SysReach w w' -> sys_inv w -> sys_inv w'.
Proof. induction 1; [done|]. intros I. eapply sysExec_inv; eauto. Qed.
