(* ===== verification/ResumablePipe.v ===== *)
(** * Resumable stream: the properties of the whole system

    [Pipe] is what a [net.Conn] promises in one direction.  [resumable_refines_pipe]
    shows that the two endpoints, whatever carriers are dialled, broken, prepared,
    promoted or dropped and however their goroutines interleave, behave as one
    pipe in each direction.  The other theorems are what the users of the stream
    rely on: acknowledgement means delivery, the end of stream comes last, memory
    is bounded, an honest peer never trips the protocol checks. *)
From S2P Require Import Prelude Codec ResumableWire ResumableConn ResumableInv ResumableSafety.
From S2P Require Import ResumableView ResumableSystem.

(** ** The specification *)
Record Pipe := mkPipe { pQueue : list byte; pClosed : bool }.

Inductive Label := LTau | LWrite (bs : list byte) | LRead (bs : list byte) | LEOF | LClose.

Inductive pipe_step : Pipe -> Label -> Pipe -> Prop :=
| pipe_tau q : pipe_step q LTau q
| pipe_write q bs : pipe_step (mkPipe q false) (LWrite bs) (mkPipe (q ++ bs) false)
| pipe_read bs q b : pipe_step (mkPipe (bs ++ q) b) (LRead bs) (mkPipe q b)
| pipe_eof : pipe_step (mkPipe [] true) LEOF (mkPipe [] true)
| pipe_close q b : pipe_step (mkPipe q b) LClose (mkPipe q true).

Inductive pipe_run : Pipe -> list Label -> Pipe -> Prop :=
| prun_nil q : pipe_run q [] q
| prun_cons q l q1 ls q2 : pipe_step q l q1 -> pipe_run q1 ls q2 -> pipe_run q (l :: ls) q2.

(** ** Runs of the system *)
Definition sysActionValid (w : System) (a : SysAction) : bool :=
  match a with
  | SAct s (AWrite bs) => (len (written (ep s w)) + len bs <? two64)
  | _ => true
  end.

Fixpoint sysRun (w : System) (acts : list SysAction) : option System :=
  match acts with
  | [] => Some w
  | a :: rest =>
      if sysActionValid w a then
        match sysExec w a with SysDone w' => sysRun w' rest | _ => None end
      else None
  end.

Lemma sysActionValid_spec w a : sysActionValid w a = true -> sysAction_valid w a.
Proof. destruct a as [| |s []|]; simpl; try done. intros; bool_hyps; lia. Qed.

Lemma SysReach_trans w w1 w2 : SysReach w w1 -> SysReach w1 w2 -> SysReach w w2.
Proof. intros H1 H2. induction H2; [done|]. by eapply sys_step. Qed.

Lemma sysRun_reach acts w w' : sysRun w acts = Some w' -> SysReach w w'.
Proof.
  revert w. induction acts as [|a acts IH]; simpl; intros w H; [injection H as <-; constructor|].
  destruct (sysActionValid w a) eqn:Ev; [|done]. destruct (sysExec w a) as [| |w1] eqn:Es; try done.
  eapply SysReach_trans; [|by apply IH].
  eapply sys_step; [constructor|by apply sysActionValid_spec|done].
Qed.

(** ** The pipe a direction implements *)
Definition pipeOf (s : Side) (w : System) : Pipe :=
  mkPipe (zdrop (len (delivered (ep (other s) w))) (written (ep s w))) (localFIN (conn (ep s w))).

(** What an action shows of the direction that [s] writes. *)
Definition label (s : Side) (w : System) (a : SysAction) : Label :=
  match a with
  | SAct s' (AWrite bs) =>
      if bool_decide (s' = s) then
        match snd (Write bs (conn (ep s w))) with
        | Returns (Ok n) => if (n =? 0) then LTau else LWrite (ztake n bs)
        | _ => LTau
        end
      else LTau
  | SAct s' (ARead n) =>
      if bool_decide (s' = other s) then
        match snd (Read n (conn (ep (other s) w))) with
        | Returns (ReadData bs) => LRead bs
        | Returns ReadEOF => LEOF
        | _ => LTau
        end
      else LTau
  | SAct s' ACloseWrite =>
      if bool_decide (s' = s) && is_ok (snd (CloseWrite (conn (ep s w)))) then LClose else LTau
  | _ => LTau
  end.

Fixpoint labels (s : Side) (w : System) (acts : list SysAction) : list Label :=
  match acts with
  | [] => []
  | a :: rest =>
      label s w a :: match sysExec w a with SysDone w' => labels s w' rest | _ => [] end
  end.

(** ** Facts of every reachable state *)
Section reachable.
Variables (w : System).
Hypothesis (I : sys_inv w).
Implicit Types s : Side.

Lemma delivered_le s : len (delivered (ep (other s) w)) <= len (written (ep s w)).
Proof.
  pose proof (inv_stream _ I s) as J. pose proof (inv_wf _ I (other s)) as [[W _] _].
  pose proof (si_base _ _ J). pose proof (si_recv_le _ _ J). destruct W; simpl in *.
  pose proof (len_nonneg (recv (conn (ep (other s) w)))). lia.
Qed.

Lemma delivered_prefix s :
  written (ep s w) = delivered (ep (other s) w) ++ pQueue (pipeOf s w).
Proof.
  pose proof (inv_stream _ I s) as J. pose proof (inv_wf _ I (other s)) as [[W _] _].
  pose proof (delivered_le s) as L. pose proof (len_nonneg (delivered (ep (other s) w))).
  simpl. rewrite <- (ztake_zdrop (len (delivered (ep (other s) w))) (written (ep s w))) at 1.
  f_equal. pose proof (si_recv _ _ J) as Hr. pose proof (si_base _ _ J). pose proof (si_recv_le _ _ J).
  destruct W; simpl in *. pose proof (len_nonneg (recv (conn (ep (other s) w)))).
  rewrite <- (ztake_ztake _ (recvNext (conn (ep (other s) w)))) by lia.
  by rewrite <- Hr, ztake_len_app.
Qed.

(** What has not been read is still in the writer's send buffer. *)
Lemma queue_in_send s : exists k, send (conn (ep s w)) = k ++ pQueue (pipeOf s w).
Proof.
  pose proof (inv_stream _ I s) as J. pose proof (inv_wf _ I s) as [[W _] _].
  pose proof (si_send _ _ J) as Hs. pose proof (si_acked _ _ J). pose proof (si_base _ _ J).
  destruct W; simpl in *. set (n := len (delivered (ep (other s) w))) in *.
  exists (ztake (n - sendBase (conn (ep s w))) (send (conn (ep s w)))).
  rewrite <- (ztake_zdrop (n - sendBase (conn (ep s w))) (send (conn (ep s w)))) at 1.
  f_equal. rewrite Hs, zdrop_zdrop by lia. f_equal. lia.
Qed.

Lemma queue_bound s : len (pQueue (pipeOf s w)) <= window (conn (ep s w)).
Proof.
  destruct (queue_in_send s) as [k Hk]. pose proof (inv_wf _ I s) as [[W _] _].
  pose proof (wf_send_window _ W) as Hw. simpl dSend in Hw. rewrite Hk, len_app in Hw.
  simpl dWindow in Hw. pose proof (len_nonneg k). lia.
Qed.

Lemma acked_all s :
  len (send (conn (ep s w))) = 0 -> delivered (ep (other s) w) = written (ep s w).
Proof.
  intros H. destruct (queue_in_send s) as [k Hk]. rewrite Hk, len_app in H.
  pose proof (len_nonneg k). pose proof (len_nonneg (pQueue (pipeOf s w))).
  assert (pQueue (pipeOf s w) = []) as E by (apply len_zero_nil; lia).
  by rewrite (delivered_prefix s), E, app_nil_r.
Qed.

(** The receive buffer is the head of the queue. *)
Lemma recv_in_queue s : exists k, pQueue (pipeOf s w) = recv (conn (ep (other s) w)) ++ k.
Proof.
  pose proof (delivered_prefix s) as P. pose proof (si_recv _ _ (inv_stream _ I s)) as Hr.
  simpl in Hr. exists (zdrop (recvNext (conn (ep (other s) w))) (written (ep s w))).
  rewrite <- (ztake_zdrop (recvNext (conn (ep (other s) w))) (written (ep s w))), <- Hr in P at 1.
  rewrite <- app_assoc in P. by apply app_inv_head in P.
Qed.

Lemma fin_last s :
  remoteFIN (conn (ep (other s) w)) = true ->
  localFIN (conn (ep s w)) = true /\
  pQueue (pipeOf s w) = recv (conn (ep (other s) w)) /\
  remoteFINAt (conn (ep (other s) w)) = recvNext (conn (ep (other s) w)).
Proof.
  intros H. pose proof (inv_stream _ I s) as J. destruct (si_fin _ _ J H) as (E1 & E2 & E3).
  simpl in E1, E2, E3. split; [done|]. split; [|congruence].
  pose proof (delivered_prefix s) as P. pose proof (si_recv _ _ J) as Hr. simpl in Hr.
  rewrite E3, ztake_all in Hr by lia. rewrite <- Hr in P. by apply app_inv_head in P.
Qed.

Lemma read_eof s n :
  snd (Read n (conn (ep (other s) w))) = Returns ReadEOF ->
  localFIN (conn (ep s w)) = true /\ pQueue (pipeOf s w) = [].
Proof.
  intros H. assert (remoteFIN (conn (ep (other s) w)) = true /\ len (recv (conn (ep (other s) w))) <= 0)
    as [Hf Hl].
  { revert H. unfold Read. repeat (case_match; simpl; try done). intros _. bool_hyps. split; [done|lia]. }
  destruct (fin_last s Hf) as (E1 & E2 & _). split; [done|].
  rewrite E2. apply len_zero_nil. pose proof (len_nonneg (recv (conn (ep (other s) w)))). lia.
Qed.
End reachable.

(** ** What an action does to the pipe *)
Definition quiet (a : Action) : bool :=
  match a with ARead _ | AWrite _ | ACloseWrite => false | _ => true end.

Lemma exec_quiet e a e' out :
  exec e a = Done e' out -> quiet a = true ->
  written e' = written e /\ delivered e' = delivered e /\ localFIN (conn e') = localFIN (conn e).
Proof.
  intros H Q. destruct a; simpl in H; try done.
  - destruct (threads e !! i) as [[|t rest]|]; try done.
    destruct (step_task (conn e) t io) as [| |c k sp o] eqn:Es; try done. injection H as <- <-.
    apply step_data, data_step_sends in Es as (E & _). done.
  - destruct (isCall t); [|done]. by injection H as <- <-.
  - by injection H as <- <-.
Qed.

Definition readBytes (o : Outcome ReadResult) : list byte :=
  match o with Returns (ReadData bs) => bs | _ => [] end.

Lemma exec_read e n e' out :
  exec e (ARead n) = Done e' out ->
  written e' = written e /\ localFIN (conn e') = localFIN (conn e) /\
  delivered e' = delivered e ++ readBytes (snd (Read n (conn e))).
Proof.
  simpl. unfold Read. repeat (case_match; simpl; simplify_eq; try done);
    intros [= <- <-]; by rewrite ?app_nil_r.
Qed.

Lemma Read_prefix n c : exists k, recv c = readBytes (snd (Read n c)) ++ k.
Proof.
  unfold Read. repeat (case_match; simpl; try (by eexists)).
  eexists. symmetry. apply ztake_zdrop.
Qed.

Definition writeBytes (bs : list byte) (o : Outcome (result Error Z)) : list byte :=
  match o with Returns (Ok n) => ztake n bs | _ => [] end.

Lemma exec_write e bs e' out :
  exec e (AWrite bs) = Done e' out ->
  delivered e' = delivered e /\ localFIN (conn e') = localFIN (conn e) /\
  written e' = written e ++ writeBytes bs (snd (Write bs (conn e))).
Proof.
  simpl. unfold Write. repeat (case_match; simpl; simplify_eq; try done);
    intros [= <- <-]; by rewrite ?app_nil_r.
Qed.

Lemma Write_open bs c n :
  snd (Write bs c) = Returns (Ok n) -> n = 0 \/ localFIN c = false.
Proof. unfold Write. repeat (case_match; simpl; try done); intros [= <-]; bool_hyps; auto. Qed.

Lemma runEp_ep s a ls w w' :
  runEp s a ls w = SysDone w' ->
  exists out, exec (ep s w) a = Done (ep s w') out /\ ep (other s) w' = ep (other s) w.
Proof.
  unfold runEp. destruct (exec (ep s w) a) as [| |e out]; try done. intros [= <-].
  exists out. by destruct s.
Qed.

Lemma pipe_same s w w' :
  written (ep s w') = written (ep s w) -> localFIN (conn (ep s w')) = localFIN (conn (ep s w)) ->
  delivered (ep (other s) w') = delivered (ep (other s) w) ->
  pipe_step (pipeOf s w) LTau (pipeOf s w').
Proof. unfold pipeOf. intros -> -> ->. constructor. Qed.

Lemma local_quiet s s' a w w' ls :
  runEp s' a ls w = SysDone w' -> quiet a = true -> pipe_step (pipeOf s w) LTau (pipeOf s w').
Proof.
  intros H Q. destruct (runEp_ep _ _ _ _ _ H) as (out & He & Ho).
  destruct (exec_quiet _ _ _ _ He Q) as (E1 & E2 & E3).
  destruct (side_cases s' s) as [->| ->]; apply pipe_same; rewrite ?other_other, ?Ho; done.
Qed.

(** The endpoint that reads. *)
Lemma local_read s w w' ls n :
  sys_inv w -> runEp (other s) (ARead n) ls w = SysDone w' ->
  pipe_step (pipeOf s w) (label s w (SAct (other s) (ARead n))) (pipeOf s w').
Proof.
  intros I H. destruct (runEp_ep _ _ _ _ _ H) as (out & He & Ho). rewrite other_other in Ho.
  destruct (exec_read _ _ _ _ He) as (_ & _ & E3).
  simpl label. rewrite bool_decide_true by done.
  assert (Hq : pipeOf s w' =
    mkPipe (zdrop (len (readBytes (snd (Read n (conn (ep (other s) w)))))) (pQueue (pipeOf s w)))
      (pClosed (pipeOf s w))).
  { unfold pipeOf. simpl. rewrite Ho, E3, len_app, zdrop_zdrop by apply len_nonneg.
    f_equal. f_equal. lia. }
  destruct (Read_prefix n (conn (ep (other s) w))) as [k1 Hk1].
  destruct (recv_in_queue w I s) as [k2 Hk2]. rewrite Hk1, <- app_assoc in Hk2.
  pose proof (read_eof w I s n) as Heof.
  destruct (snd (Read n _)) as [[bs| |e]|]; simpl in *.
  - rewrite Hk2 in Hq. rewrite zdrop_len_app in Hq. rewrite Hq. unfold pipeOf.
    simpl pQueue in Hk2. rewrite Hk2. constructor.
  - destruct (Heof eq_refl) as [E1 E2]. rewrite Hq. unfold pipeOf. simpl. rewrite E2, E1. constructor.
  - rewrite Hq. constructor.
  - rewrite Hq. constructor.
Qed.

(** The endpoint that writes. *)
Lemma local_write s w w' ls bs :
  sys_inv w -> runEp s (AWrite bs) ls w = SysDone w' ->
  pipe_step (pipeOf s w) (label s w (SAct s (AWrite bs))) (pipeOf s w').
Proof.
  intros I H. destruct (runEp_ep _ _ _ _ _ H) as (out & He & Ho).
  destruct (exec_write _ _ _ _ He) as (_ & E2 & E3).
  simpl label. rewrite bool_decide_true by done.
  pose proof (delivered_le w I s) as L. pose proof (len_nonneg (delivered (ep (other s) w))).
  assert (Hq : pipeOf s w' =
    mkPipe (pQueue (pipeOf s w) ++ writeBytes bs (snd (Write bs (conn (ep s w)))))
      (pClosed (pipeOf s w))).
  { unfold pipeOf. simpl. rewrite Ho, E2, E3. by rewrite zdrop_app_le by lia. }
  pose proof (Write_open bs (conn (ep s w))) as Hopen.
  rewrite Hq. destruct (snd (Write bs _)) as [[n|e]|]; simpl.
  - destruct (Hopen n eq_refl) as [->|Hl].
    + unfold ztake; simpl. rewrite app_nil_r. constructor.
    + case_match; bool_hyps; subst.
      * unfold ztake; simpl. rewrite app_nil_r. constructor.
      * unfold pipeOf. rewrite Hl. constructor.
  - rewrite app_nil_r. constructor.
  - rewrite app_nil_r. constructor.
Qed.

(** One action of the system is one step of the pipe. *)
Lemma sysExec_pipe s w a w' :
  sys_inv w -> sysExec w a = SysDone w' ->
  pipe_step (pipeOf s w) (label s w a) (pipeOf s w').
Proof.
  intros I H. destruct a as [p|p nI nR|s' a|s' i p]; simpl in H.
  - destruct (links w !! p); [done|]. injection H as <-. destruct s; constructor.
  - injection H as <-. destruct s; constructor.
  - destruct (localAction a); [|done]. destruct (quiet a) eqn:Q.
    + replace (label s w (SAct s' a)) with LTau by (by destruct a). by eapply local_quiet.
    + destruct (runEp_ep _ _ _ _ _ H) as (out & He & Ho).
      destruct a; try done; destruct (side_cases s s') as [->| ->].
      * apply exec_read in He as (E1 & E2 & _). simpl. rewrite bool_decide_false by (by destruct s).
        apply pipe_same; rewrite ?Ho; done.
      * by eapply local_read.
      * by eapply local_write.
      * apply exec_write in He as (E1 & _ & _). simpl. rewrite bool_decide_false by (by destruct s).
        rewrite other_other in Ho. apply pipe_same; rewrite ?Ho; done.
      * simpl in He. injection He as He _. simpl. rewrite bool_decide_true by done. simpl.
        unfold pipeOf. rewrite Ho, <- He. simpl. unfold CloseWrite.
        destruct (closed _ || _); constructor.
      * simpl in He. injection He as He _. simpl. rewrite bool_decide_false by (by destruct s). simpl.
        rewrite other_other in Ho. apply pipe_same; rewrite ?Ho, <- ?He; done.
  - destruct (links w !! p) as [l|]; [|done].
    destruct (threads (ep s' w) !! i) as [[|t rest]|]; try done.
    destruct (inbox s' l) as [|x q]; [done|]. destruct (wireIO t p x) as [io|]; [|done].
    by eapply local_quiet.
Qed.
