(* ===== verification/ResumableEpoch.v ===== *)
(** * Resumable stream: carrier transitions

    [PrepareCarrier], [PromoteCarrier], [DropPrepared], [AcceptCarrier] and, at
    the responder, the transition frames and [failCarrier] exclude each other
    through [transitionMu].  From that exclusion follows that epochs are handed
    out once: every promotion is to a carrier newer than every one committed
    before. *)
From S2P Require Import Prelude Codec ResumableWire ResumableConn ResumableInv ResumableSafety.

(** ** Who holds [transitionMu] *)
Definition holds (r : Role) (t : Task) : bool :=
  match t with
  | PrepWrite _ _ | PrepRead _ _ | PrepInstall _ _ _ | PrepSpawn _ _
  | AccRead _ | AccCheck _ _ | AccWrite _ _ _ | AccWriteFailed _ _ _ | AccFinish _ _
  | PromWrite _ _ | PromWait _ _ | PromCheck _ | UnlockRet _
  | DropWrite _ _ | DropWait _ _ | DropDone _ => true
  | FailEmit _ _ => bool_decide (r = RoleResponder)
  | _ => false
  end.

Definition holders (r : Role) (ts : list Task) : nat := length (List.filter (holds r) ts).

Lemma holders_app r a b : holders r (a ++ b) = (holders r a + holders r b)%nat.
Proof. unfold holders. by rewrite List.filter_app, length_app. Qed.

Lemma holders_cons r t b : holders r (t :: b) = ((if holds r t then 1 else 0) + holders r b)%nat.
Proof. unfold holders. simpl. by destruct (holds r t). Qed.

(** The fields the transitions depend on. *)
Definition lockOf (c : Conn) : Role * bool := (role c, transitionMu c).

Ltac drop_lock :=
  match goal with
  | |- context [lockOf (@set_field ?R ?E ?pr ?i ?v ?x)] =>
      change (lockOf (@set_field R E pr i v x)) with (lockOf x)
  end.

Lemma lockOf_emit ev c : lockOf (emit ev c) = lockOf c.
Proof. unfold emit. by case_match. Qed.

Lemma lockOf_setStateOpt o s c : lockOf (setStateOpt o s c) = lockOf c.
Proof. by destruct o. Qed.

Lemma lockOf_chanSend ch v c : lockOf (chanSend ch v c) = lockOf c.
Proof. unfold chanSend. by destruct (chans c !! ch) as [[]|]. Qed.

Lemma lockOf_commitWaiter k c : lockOf (fst (commitWaiter k c)) = lockOf c.
Proof. unfold commitWaiter. by destruct (commitWait c !! k). Qed.

Lemma lockOf_discard off c c' : discardAckedLocked off c = Some c' -> lockOf c' = lockOf c.
Proof.
  unfold discardAckedLocked. case_match; [by intros [= <-]|].
  destruct (slice _ _ _); [|done]. by intros [= <-].
Qed.

Create Rewrite HintDb lock.
#[export] Hint Rewrite lockOf_emit lockOf_setStateOpt lockOf_chanSend lockOf_commitWaiter : lock.
Ltac same_lock := repeat first [drop_lock | progress autorewrite with lock | progress unfold promote, setState, newChan]; try done.

Lemma lockOf_failWaiters p e c : lockOf (failWaiters p e c) = lockOf c.
Proof. unfold failWaiters. repeat case_match; same_lock. Qed.

Lemma lockOf_failCarrierState p e c : lockOf (failCarrierState p e c) = lockOf c.
Proof.
  unfold failCarrierState. rewrite lockOf_failWaiters. same_lock. repeat case_match; same_lock.
Qed.
#[export] Hint Rewrite lockOf_failCarrierState lockOf_failWaiters : lock.

(** A section takes or releases the lock with the task it leaves behind. *)
Definition lock_step (r : Role) (b : bool) (t : Task) (ts : list Task) (l : Role * bool) : Prop :=
  l.1 = r /\
  (holders r ts + (if b then 1 else 0) = holders r [t] + (if l.2 then 1 else 0))%nat.

Lemma lock_same r b t ts c :
  lockOf c = (r, b) -> holders r ts = holders r [t] -> lock_step r b t ts (lockOf c).
Proof. intros -> Hh. split; [done|]. simpl. lia. Qed.

Lemma lock_take r t ts c :
  role c = r -> holders r [t] = 0%nat -> holders r ts = 1%nat ->
  lock_step r false t ts (lockOf (c <| transitionMu := true |>)).
Proof. intros <- H1 H2. split; [done|]. simpl. lia. Qed.

Lemma lock_release r t ts c :
  role c = r -> holders r [t] = 1%nat -> holders r ts = 0%nat ->
  lock_step r true t ts (lockOf (c <| transitionMu := false |>)).
Proof. intros <- H1 H2. split; [done|]. simpl. lia. Qed.

Ltac lock_done :=
  same_lock; unfold lock_step, holders, lockOf in *; simpl in *;
  repeat match goal with
  | E : transitionMu ?c = _ |- context [transitionMu ?c] => rewrite E
  | E : bool_decide (role ?c = RoleResponder) = _ |- context [bool_decide (role ?c = RoleResponder)] => rewrite E
  end; simpl; (split; [done|lia]).

Lemma step_lock c t io c' k sp out :
  step_task c t io = Step c' k sp out -> (holds (role c) t = true -> transitionMu c = true) ->
  lock_step (role c) (transitionMu c) t (k ++ sp) (lockOf c').
Proof.
  intros H Hm. destruct t; simpl in H, Hm; try specialize (Hm eq_refl).
  all: try (unfold PrepareCarrier_install in H; unfold_section H; run_section H; lock_done).
  - assert (lockOf c' = lockOf c /\ holders (role c) (k ++ sp) = 0%nat) as [El Eh].
    { unfold readCarrier_apply, applyData, applyAck, applyFIN, applyFINAck in H. cbv zeta in H.
      unfold_section H. run_section H; (split; [same_lock|done]). by eapply lockOf_discard. }
    by apply lock_same.
  - unfold failCarrier in H. cbv zeta in H.
    pose proof (lockOf_failCarrierState p err c) as E. injection E as E1 E2.
    destruct (bool_decide (role c = RoleResponder)) eqn:Er; simpl in H.
    + destruct (transitionMu c) eqn:Et; [done|].
      run_section H; try (apply lock_same; [by unfold lockOf; rewrite Et|done]);
        (apply lock_take; [done|done|]); unfold holders; simpl; by rewrite Er.
    + run_section H; try (by apply lock_same);
        (apply lock_same; [by unfold lockOf; rewrite E1, E2|]);
        unfold holders; simpl; by rewrite Er.
  - unfold failEmit in H. cbv zeta in H. pose proof (lockOf_emit ev c) as E. injection E as E1 E2.
    destruct (bool_decide (role c = RoleResponder)) eqn:Er.
    + rewrite Hm by done. run_section H; (apply lock_release; [done| |by destruct expire]);
        unfold holders; simpl; by rewrite Er.
    + run_section H; (apply lock_same; [by unfold lockOf; rewrite E1, E2|]);
        unfold holders; simpl; rewrite Er; by destruct expire.
  - unfold PrepareCarrier_install in H. unfold_section H. rewrite Hm.
    run_section H; [by apply lock_release|]. apply lock_same; [|done].
    same_lock. erewrite lockOf_discard by done. unfold lockOf. by rewrite Hm.
  - unfold AcceptCarrier_check, unlockRet, ret in H. cbv zeta in H. rewrite Hm.
    destruct (_ || _); [apply Step_inj in H as (-> & -> & -> & ->); by apply lock_release|].
    destruct (match prepared c with Some _ => _ | None => _ end);
      [apply Step_inj in H as (-> & -> & -> & ->); by apply lock_release|].
    destruct (discardAckedLocked _ _) as [c1|] eqn:E; [|done].
    apply Step_inj in H as (-> & -> & -> & ->). apply lock_same; [|done].
    same_lock. erewrite lockOf_discard by done. rewrite lockOf_setStateOpt. unfold lockOf. by rewrite Hm.
  - unfold PromoteCarrier_start in H. unfold_section H.
    destruct (transitionMu c) eqn:Et; run_section H; try (by apply lock_same; [unfold lockOf; rewrite Et|]).
    apply lock_take; [|done|done].
    pose proof (lockOf_commitWaiter (pcid (lookupC c n)) (setState n carrierCommitting c)) as E.
    by injection E as ->.
Qed.

(** ** Epochs *)
Lemma prepared_emit ev c : prepared (emit ev c) = prepared c.
Proof. unfold emit. by case_match. Qed.

Lemma prepared_setStateOpt o s c : prepared (setStateOpt o s c) = prepared c.
Proof. by destruct o. Qed.

Lemma prepared_chanSend ch v c : prepared (chanSend ch v c) = prepared c.
Proof. unfold chanSend. by destruct (chans c !! ch) as [[]|]. Qed.

Lemma prepared_commitWaiter k c : prepared (fst (commitWaiter k c)) = prepared c.
Proof. unfold commitWaiter. by destruct (commitWait c !! k). Qed.

Create Rewrite HintDb prepared.
#[export] Hint Rewrite prepared_emit prepared_setStateOpt prepared_chanSend prepared_commitWaiter : prepared.

Lemma prepared_failWaiters p e c : prepared (failWaiters p e c) = prepared c.
Proof.
  unfold failWaiters. cbv zeta.
  destruct (commitWait c !! _) as [ch|]; simpl; destruct (discardWait _ !! _); simpl;
    autorewrite with prepared; simpl; by autorewrite with prepared.
Qed.

Lemma prepared_failCarrierState p e c :
  prepared (failCarrierState p e c) = prepared c \/ prepared (failCarrierState p e c) = None.
Proof.
  unfold failCarrierState. rewrite prepared_failWaiters. cbv zeta.
  assert (forall s x, prepared (setState p s x) = prepared x) as -> by done.
  assert (forall (b : bool) x, prepared (if b then x <| retained := None |> else x) = prepared x)
    as -> by (by intros []).
  assert (forall (b : bool) x, prepared (if b then x <| prepared := None |> else x) = prepared x \/
            prepared (if b then x <| prepared := None |> else x) = None) as E
    by (intros [] x; auto).
  match goal with |- context [if isRef (prepared c) p then set_field _ _ ?x else _] =>
    assert (prepared x = prepared c) as <- by (by destruct (isRef (active c) p), (detached c)) end.
  apply E.
Qed.

(** How a section moves the epochs. *)
Inductive epoch_step (c : Conn) (t : Task) (c' : Conn) : Prop :=
| es_same :
    meta c' = meta c -> prepared c' = prepared c \/ prepared c' = None -> epoch_step c t c'
| es_install p e :
    (exists h r, t = PrepInstall p h r /\ e = epoch h) \/
    (exists r, t = AccCheck p r /\ e = epoch r /\ nextEpoch c < e /\ committedEpoch c < e) ->
    nextEpoch c' = e -> committedEpoch c' = committedEpoch c -> prepared c' = Some p ->
    pcepoch (lookupC c' p) = e -> epoch_step c t c'
| es_promote p :
    prepared c = Some p -> prepared c' = None -> active c' = Some p -> nextEpoch c' = nextEpoch c ->
    committedEpoch c' = pcepoch (lookupC c p) -> epoch_step c t c'.

Lemma isRef_true o p : isRef o p = true -> o = Some p.
Proof. unfold isRef. intros. by bool_hyps. Qed.

Definition transitionView (c : Conn) : option Ref * option Ref * Z * Z :=
  (active c, prepared c, nextEpoch c, committedEpoch c).

Lemma transitionView_chanSend ch v c : transitionView (chanSend ch v c) = transitionView c.
Proof. unfold chanSend. by destruct (chans c !! ch) as [[]|]. Qed.

Lemma promote_epoch c t p c' :
  prepared c = Some p ->
  transitionView c' = transitionView (promote p c) ->
  epoch_step c t c'.
Proof.
  intros Hp [= E1 E2 E3 E4]. eapply es_promote; [done|..].
  - by rewrite E2.
  - by rewrite E1.
  - rewrite E3. unfold promote. simpl. by destruct (active c).
  - by rewrite E4.
Qed.

Ltac epoch_same := apply es_same; [same_meta|simpl; autorewrite with prepared; auto].

Lemma apply_epoch c p f c' k sp out :
  readCarrier_apply p f c = Step c' k sp out -> epoch_step c (RdApply p f) c'.
Proof.
  unfold readCarrier_apply. intros H. destruct (fkind f).
  - unfold applyData in H. cbv zeta in H. run_section H; epoch_same.
  - unfold applyAck in H. run_section H; [epoch_same|].
    apply es_same; [by eapply meta_discard|]. left. apply discardAcked_fields in H1. tauto.
  - unfold applyFIN in H. run_section H; epoch_same.
  - run_section H; epoch_same.
  - unfold applyFINAck in H. run_section H; epoch_same.
  - unfold applyCommit in H. cbv zeta in H. run_section H; try solve [epoch_same].
    bool_hyps. apply (promote_epoch _ _ p); [|done]. by apply isRef_true.
  - unfold applyCommitAck in H. cbv zeta in H. run_section H; try solve [epoch_same];
      bool_hyps; (apply (promote_epoch _ _ p); [by apply isRef_true|]); [|done].
    apply transitionView_chanSend.
  - unfold applyConfirm in H. run_section H; epoch_same.
  - unfold applyDiscard in H. cbv zeta in H. run_section H; epoch_same.
  - unfold applyDiscardAck in H. cbv zeta in H. run_section H; epoch_same.
Qed.

Lemma check_epoch c p r c' k sp out :
  AcceptCarrier_check p r c = Step c' k sp out -> epoch_step c (AccCheck p r) c'.
Proof.
  unfold AcceptCarrier_check, unlockRet, ret. cbv zeta. intros H.
  destruct (_ || _) eqn:G; [apply Step_inj in H as (-> & _); epoch_same|].
  destruct (match prepared c with Some _ => _ | None => _ end);
    [apply Step_inj in H as (-> & _); epoch_same|].
  destruct (discardAckedLocked _ _) as [c1|] eqn:E; [|done]. apply Step_inj in H as (-> & _).
  apply discardAcked_fields in E as (_ & _ & _ & E4 & _). bool_hyps.
  eapply (es_install _ _ _ p (epoch r)); simpl; [right; eexists; repeat split; lia|done| |done|].
  - rewrite E4. by destruct (prepared c).
  - unfold lookupC. simpl. by rewrite lookup_insert_eq.
Qed.

Lemma step_epoch c t io c' k sp out : step_task c t io = Step c' k sp out -> epoch_step c t c'.
Proof.
  intros H. destruct t; simpl in H.
  all: try (unfold_section H; run_section H; epoch_same; fail).
  - by eapply apply_epoch.
  - unfold failCarrier in H. cbv zeta in H. pose proof (prepared_failCarrierState p err c).
    run_section H; (apply es_same; [same_meta|simpl; auto]).
  - unfold PrepareCarrier_install in H. unfold_section H. run_section H; [epoch_same|].
    eapply (es_install _ _ _ p (epoch h)); simpl; [left; eauto|done| |done|].
    + by apply discardAcked_fields in H1 as (_ & _ & _ & -> & _).
    + unfold lookupC. simpl. by rewrite lookup_insert_eq.
  - by eapply check_epoch.
Qed.

(** ** The invariant of the transitions *)
Definition prep_epoch (n : Z) (t : Task) : Prop :=
  match t with
  | PrepWrite _ h | PrepRead _ h | PrepInstall _ h _ => epoch h = n + 1
  | _ => True
  end.

Lemma prep_epoch_free r n n' ts :
  holders r ts = 0%nat -> Forall (prep_epoch n) ts -> Forall (prep_epoch n') ts.
Proof.
  intros Hh HF. induction HF as [|t ts Ht HF IH]; [constructor|]. rewrite holders_cons in Hh.
  constructor; [by destruct t|apply IH; destruct (holds r t); simpl in *; lia].
Qed.

(** The sections that hand out an epoch leave no task that carries an older one. *)
Lemma install_tasks c t io c' k sp out n :
  step_task c t io = Step c' k sp out ->
  (exists p h r, t = PrepInstall p h r) \/ (exists p r, t = AccCheck p r) ->
  Forall (prep_epoch n) (k ++ sp).
Proof.
  intros H [(p & h & r & ->)|(p & r & ->)]; simpl in H.
  - unfold PrepareCarrier_install in H. unfold_section H. run_section H; by repeat constructor.
  - unfold AcceptCarrier_check, unlockRet, ret in H. cbv zeta in H.
    destruct (_ || _); [by apply Step_inj in H as (_ & -> & -> & _)|].
    destruct (match prepared c with Some _ => _ | None => _ end);
      [by apply Step_inj in H as (_ & -> & -> & _)|].
    destruct (discardAckedLocked _ _) as [c1|] eqn:E; [|done].
    apply Step_inj in H as (_ & -> & -> & _). by repeat constructor.
Qed.

Lemma step_prep_epoch c t io c' k sp out :
  step_task c t io = Step c' k sp out -> prep_epoch (nextEpoch c) t ->
  Forall (prep_epoch (nextEpoch c)) (k ++ sp).
Proof.
  intros H Ht. destruct t; simpl in H, Ht.
  all: try (unfold PrepareCarrier_install in H; unfold_section H; run_section H; simpl; by repeat constructor).
  - unfold readCarrier_apply, applyData, applyAck, applyFIN, applyFINAck in H. cbv zeta in H.
    unfold_section H. run_section H; simpl; by repeat constructor.
  - eapply (install_tasks c (AccCheck p request) io); [exact H|by eauto].
Qed.

Record trans_inv (c : Conn) (ts : list Task) : Prop := {
  ti_lock : holders (role c) ts = if transitionMu c then 1%nat else 0%nat;
  ti_le : committedEpoch c <= nextEpoch c;
  ti_prep p : prepared c = Some p ->
              pcepoch (lookupC c p) = nextEpoch c /\ committedEpoch c < nextEpoch c;
  ti_task : Forall (prep_epoch (nextEpoch c)) ts
}.

(** A change of the committed epoch is a promotion to a newer carrier. *)
Definition promoted (c c' : Conn) : Prop :=
  committedEpoch c' = committedEpoch c \/
  (committedEpoch c < committedEpoch c' /\ prepared c' = None /\
   exists p, active c' = Some p /\ prepared c = Some p /\ pcepoch (lookupC c p) = committedEpoch c').

Lemma pcepoch_meta c c' p : meta c' = meta c -> pcepoch (lookupC c' p) = pcepoch (lookupC c p).
Proof.
  intros [= _ _ _ E]. apply (f_equal (fun m : gmap Ref Z => m !! p)) in E. rewrite !lookup_fmap in E.
  unfold lookupC. by destruct (heap c' !! p), (heap c !! p); simpl in *; simplify_eq.
Qed.

Lemma Permutation_holders r a b : a ≡ₚ b -> holders r a = holders r b.
Proof.
  induction 1; [done|by rewrite !holders_cons, IHPermutation| |congruence].
  rewrite !holders_cons. lia.
Qed.

Lemma step_trans c t io c' k sp out rest :
  step_task c t io = Step c' k sp out -> trans_inv c (t :: rest) ->
  trans_inv c' ((k ++ sp) ++ rest) /\ promoted c c'.
Proof.
  intros H [Hl Hle Hp Ht]. inversion Ht as [|? ? Ht1 Hrest]; subst. rewrite holders_cons in Hl.
  assert (Hh : holds (role c) t = true -> transitionMu c = true).
  { intros Hh. rewrite Hh in Hl. by destruct (transitionMu c). }
  pose proof (step_lock _ _ _ _ _ _ _ H Hh) as [Hr Hc]. simpl in Hr, Hc. rewrite holders_cons in Hc.
  change (holders (role c) []) with 0%nat in Hc.
  pose proof (step_prep_epoch _ _ _ _ _ _ _ H Ht1) as Hk.
  assert (Hlock : holders (role c') ((k ++ sp) ++ rest) = if transitionMu c' then 1%nat else 0%nat)
    by (rewrite Hr, holders_app; destruct (transitionMu c), (transitionMu c'); lia).
  destruct (step_epoch _ _ _ _ _ _ _ H) as [E Epr|p e Ht' En Ec Ep Ee|p Ep Ep' Ea En Ec].
  - assert (nextEpoch c' = nextEpoch c /\ committedEpoch c' = committedEpoch c) as [En Ec]
      by (by injection E).
    split; [|by left]. split; [done|lia| |].
    + intros p Hp'. rewrite (pcepoch_meta c c') by done. rewrite En, Ec. apply Hp. destruct Epr; congruence.
    + rewrite En. by apply Forall_app.
  - assert (holds (role c) t = true) as Ht2
      by (by destruct Ht' as [(h & r & -> & _)|(r & -> & _)]).
    assert (holders (role c) rest = 0%nat) as Hr0.
    { rewrite Ht2, (Hh Ht2) in Hl. lia. }
    assert (nextEpoch c < e /\ committedEpoch c < e) as [Hlt Hlt2].
    { destruct Ht' as [(h & r & -> & ->)|(r & -> & -> & ? & ?)]; [simpl in Ht1; lia|done]. }
    split; [|by left]. split; [done|lia| |].
    + intros q Hq. simplify_eq. split; [done|lia].
    + apply Forall_app. split; [|by eapply prep_epoch_free].
      eapply install_tasks; [exact H|].
      destruct Ht' as [(h & r & -> & _)|(r & -> & _)]; eauto.
  - destruct (Hp p Ep) as [Hpe Hlt]. split.
    + split; [done|lia|intros q Hq; congruence|]. rewrite En. by apply Forall_app.
    + right. split; [lia|]. split; [done|]. exists p. split; [done|]. split; [done|lia].
Qed.

(** ** Runs of an endpoint *)
Definition allTasks (e : Endpoint) : list Task := concat (threads e).

Lemma concat_map_single {A} (l : list A) : concat (map (fun x => [x]) l) = l.
Proof. induction l; simpl; congruence. Qed.

Lemma threads_split (ts : list (list Task)) i t rest k sp :
  ts !! i = Some (t :: rest) ->
  exists others, concat ts ≡ₚ t :: others /\
    concat (<[i := k ++ rest]> ts ++ map (fun x => [x]) sp) ≡ₚ (k ++ sp) ++ others.
Proof.
  intros Hi. pose proof (lookup_lt_Some _ _ _ Hi) as Hlt.
  exists (concat (take i ts) ++ rest ++ concat (drop (S i) ts)). split.
  - rewrite <- (take_drop_middle ts i (t :: rest)) at 1 by done. rewrite concat_app. simpl.
    by rewrite <- Permutation_middle.
  - rewrite insert_take_drop by done. rewrite !concat_app. simpl. rewrite concat_map_single.
    solve_Permutation.
Qed.

Lemma trans_inv_perm c a b : a ≡ₚ b -> trans_inv c a -> trans_inv c b.
Proof.
  intros Hp [H1 H2 H3 H4]. split; [by rewrite <- (Permutation_holders _ _ _ Hp)|done|done|by rewrite <- Hp].
Qed.

Definition endpoint_trans (e : Endpoint) : Prop := trans_inv (conn e) (allTasks e).

(** The application's calls leave the transitions alone. *)
Lemma trans_inv_same c c' ts :
  (role c', transitionMu c', committedEpoch c', nextEpoch c', prepared c', heap c') =
  (role c, transitionMu c, committedEpoch c, nextEpoch c, prepared c, heap c) ->
  trans_inv c ts -> trans_inv c' ts /\ promoted c c'.
Proof.
  intros [= E1 E2 E3 E4 E5 E6] [H1 H2 H3 H4]. split; [|by left].
  split; unfold lookupC in *; rewrite ?E1, ?E2, ?E3, ?E4, ?E5, ?E6 in *; done.
Qed.

Lemma exec_trans e a e' out :
  exec e a = Done e' out -> endpoint_trans e -> endpoint_trans e' /\ promoted (conn e) (conn e').
Proof.
  unfold endpoint_trans, allTasks. intros H T. destruct a; simpl in H.
  - destruct (threads e !! i) as [[|t rest]|] eqn:Ei; try done.
    destruct (step_task (conn e) t io) as [| |c k sp o] eqn:Es; try done. injection H as <- <-.
    destruct (threads_split _ _ _ _ k sp Ei) as (others & Ho & Hn). simpl.
    destruct (step_trans _ _ _ _ _ _ _ others Es) as [T' P]; [by eapply trans_inv_perm|].
    split; [by eapply trans_inv_perm|done].
  - destruct (isCall t) eqn:Ec; [|done]. injection H as <- <-. simpl. split; [|by left].
    rewrite concat_app. simpl. destruct T as [H1 H2 H3 H4]. split; try done.
    + rewrite holders_app, H1. destruct t; try done; simpl; lia.
    + apply Forall_app. split; [done|]. by destruct t; repeat constructor.
  - assert (E : forall c', fst (Read n (conn e)) = c' -> trans_inv c' (concat (threads e)) /\ promoted (conn e) c').
    { intros c' <-. eapply trans_inv_same; [|done]. unfold Read. by repeat case_match. }
    destruct (Read n (conn e)) as [c [[]|]]; injection H as <- <-; by apply E.
  - assert (E : forall c', fst (Write bs (conn e)) = c' -> trans_inv c' (concat (threads e)) /\ promoted (conn e) c').
    { intros c' <-. eapply trans_inv_same; [|done]. unfold Write. by repeat case_match. }
    destruct (Write bs (conn e)) as [c [[]|]]; injection H as <- <-; by apply E.
  - injection H as <- <-. eapply trans_inv_same; [|done]. simpl. unfold CloseWrite. by case_match.
  - injection H as <- <-. by eapply trans_inv_same.
Qed.

Lemma init_trans w r dig : endpoint_trans (initEndpoint w r dig).
Proof. split; simpl; try done. by repeat constructor. Qed.

Lemma Reaches_trans e e' : Reaches e e' -> endpoint_trans e -> endpoint_trans e'.
Proof. induction 1; intros; [done|]. apply IHReaches. by eapply exec_trans. Qed.
