(* ===== verification/ResumableProps.v ===== *)
(** * Resumable stream: the theorems

    What the two endpoints guarantee together, over every schedule, carrier
    failure and sequence of calls ([sysRun] from [initSystem]), and what one
    endpoint guarantees against any peer ([Reaches] from [initEndpoint]).

    The system is executable; the schedules of [ResumableRuns] drive it, and serve as inputs of
    the theorems about every run.  [attach] sets up the first carrier the way
    [AttachInitial] does, [transfer] moves two bytes and closes the direction. *)
From S2P Require Import Prelude.
From S2P Require Import Sha256.
From S2P Require Import Codec.
From S2P Require Import ResumableWire.
From S2P Require Import ResumableConn.
From S2P Require Import ResumableInv.
From S2P Require Import ResumableSafety.
From S2P Require Import ResumableView.
From S2P Require Import ResumableSystem.
From S2P Require Import ResumablePipe.
From S2P Require Import ResumableEpoch.

Module ResumableRuns.
Definition demoDigest : list byte := replicate 32 Byte.x01.
Definition demoID (n : byte) : CarrierID := replicate 16 n.
Definition demoInit : System := initSystem 65536 65536 demoDigest.

(** Run goroutine [i] of side [s]: a section, or a write that succeeds. *)
Definition go (s : Side) (i : nat) : SysAction := SAct s (ARun i IoNone).
Definition wr (s : Side) (i : nat) : SysAction := SAct s (ARun i (IoWrite None)).

(** Receive a frame on carrier [p] and process it. *)
Definition rd (s : Side) (i : nat) (p : Ref) : list SysAction :=
  [SRecv s i p; go s i; go s i; go s i].

(** [PrepareCarrier] and [AcceptCarrier] on carrier [p], run by goroutines [i]
    and [j]. *)
Definition prepare (p : Ref) (k : CarrierID) (i j : nat) : list SysAction :=
  [SDial p; SAct SideI (ACall (PrepStart p)); SAct SideR (ACall (AccStart p));
   SAct SideI (ARun i (IoRandom (Ok k))); wr SideI i; go SideR j; SRecv SideR j p; go SideR j;
   wr SideR j; go SideR j; SRecv SideI i p; go SideI i; go SideI i].

(** [PromoteCarrier] (goroutine [i]) with the readers [ri] and [rj] of the carrier. *)
Definition promoteRun (p : Ref) (h : CarrierHandle) (i ri rj : nat) : list SysAction :=
  [SAct SideI (ACall (PromStart h)); go SideI i; wr SideI i] ++
  rd SideR rj p ++ [wr SideR rj] ++ rd SideI ri p ++ [go SideI i; go SideI i].

Definition attach : list SysAction :=
  prepare 0 (demoID Byte.x07) 2 2 ++ promoteRun 0 (mkHandle (demoID Byte.x07) 1) 4 3 3 ++
  [wr SideI 5; go SideI 5] ++ rd SideR 3 0.

Definition transfer : list SysAction :=
  [SAct SideI (AWrite (bytes "hi")); go SideI 5; wr SideI 5] ++ rd SideR 3 0 ++
  [SAct SideR (ARead 10); go SideR 1; wr SideR 1; go SideR 1] ++ rd SideI 3 0.

Definition finish : list SysAction :=
  [SAct SideI ACloseWrite; go SideI 5; wr SideI 5; go SideI 5] ++ rd SideR 3 0 ++
  [SAct SideR (ARead 10); wr SideR 5] ++ rd SideI 3 0.

(** The state a schedule leads to. *)
Definition after (acts : list SysAction) : System := default demoInit (sysRun demoInit acts).

Definition completes (acts : list SysAction) : bool :=
  match sysRun demoInit acts with Some _ => true | None => false end.

Lemma after_run acts : completes acts = true -> sysRun demoInit acts = Some (after acts).
Proof. unfold completes, after. by destruct (sysRun demoInit acts). Qed.
End ResumableRuns.
Import ResumableRuns.

(** What [New] accepts as [Config.WindowBytes]. *)
Definition windowOk (w : Z) : bool := (maximumFrame <=? w) && (w <=? 67108864).

Section runs.
Variables (wi wr : Z) (dig : list byte).
Hypothesis (Hwi : windowOk wi = true) (Hwr : windowOk wr = true) (Hdig : length dig = 32%nat).

Lemma run_inv acts w : sysRun (initSystem wi wr dig) acts = Some w -> sys_inv w.
Proof.
  intros H. eapply SysReach_inv; [by eapply sysRun_reach|].
  unfold windowOk in *. bool_hyps. apply init_inv; [lia|lia|done].
Qed.

Lemma pipe_run_from s acts : forall w w',
  sys_inv w -> sysRun w acts = Some w' -> pipe_run (pipeOf s w) (labels s w acts) (pipeOf s w').
Proof.
  induction acts as [|a acts IH]; simpl; intros w w' I H; [injection H as <-; constructor|].
  destruct (sysActionValid w a) eqn:Ev; [|done]. destruct (sysExec w a) as [| |w1] eqn:Es; try done.
  econstructor; [by apply sysExec_pipe|]. apply IH; [|done].
  eapply sysExec_inv; eauto using sysActionValid_spec.
Qed.

(** C1: in each direction the two endpoints are a byte pipe.  Every run from two
    fresh endpoints - carriers dialled, broken with bytes in flight, prepared,
    promoted, dropped, goroutines interleaved in any order - shows its
    applications the writes, reads, close and end of stream of one FIFO queue. *)
Theorem resumable_refines_pipe (s : Side) (acts : list SysAction) (w : System) :
  sysRun (initSystem wi wr dig) acts = Some w ->
  pipe_run (mkPipe [] false) (labels s (initSystem wi wr dig) acts) (pipeOf s w).
Proof.
  intros H. assert (pipeOf s (initSystem wi wr dig) = mkPipe [] false) as <- by (by destruct s).
  apply pipe_run_from; [|done]. by apply (run_inv []).
Qed.

(** C2: no byte is lost or invented.  What was written is what the peer's
    application has read, then what the peer's receive buffer holds, then a rest;
    the receive buffer and the rest are both still in the writer's send buffer,
    behind the bytes read but not yet acknowledged, hence never more than its
    window. *)
Theorem resumable_no_loss (s : Side) (acts : list SysAction) (w : System) :
  sysRun (initSystem wi wr dig) acts = Some w ->
  exists acked rest,
    written (ep s w) = delivered (ep (other s) w) ++ recv (conn (ep (other s) w)) ++ rest /\
    send (conn (ep s w)) = acked ++ recv (conn (ep (other s) w)) ++ rest /\
    len (recv (conn (ep (other s) w)) ++ rest) <= window (conn (ep s w)).
Proof.
  intros H. apply run_inv in H as I. destruct (queue_in_send w I s) as [k Hk].
  destruct (recv_in_queue w I s) as [rest Hr]. rewrite Hr in Hk. exists k, rest. rewrite <- Hr.
  split; [by apply delivered_prefix|]. split; [by rewrite Hr|by apply queue_bound].
Qed.

(** C33: when [WaitAcknowledged] returns nil, the peer's application has read
    every byte written so far. *)
Theorem WaitAcknowledged_delivered (s : Side) (acts : list SysAction) (w : System) :
  sysRun (initSystem wi wr dig) acts = Some w ->
  WaitAcknowledged (conn (ep s w)) = Returns (Ok tt) ->
  delivered (ep (other s) w) = written (ep s w).
Proof.
  intros H Hw. apply run_inv in H as I. apply acked_all; [done|].
  unfold WaitAcknowledged in Hw. case_match; [by bool_hyps|]. by case_match.
Qed.

(** When [WaitWriteClosed] returns nil, the peer's application has read every
    byte of the direction and its next [Read] reports the end of stream. *)
Theorem WaitWriteClosed_delivered (s : Side) (acts : list SysAction) (w : System) (n : Z) :
  sysRun (initSystem wi wr dig) acts = Some w -> 0 < n ->
  WaitWriteClosed (conn (ep s w)) = Returns (Ok tt) ->
  delivered (ep (other s) w) = written (ep s w) /\
  Read n (conn (ep (other s) w)) = (conn (ep (other s) w), Returns ReadEOF).
Proof.
  intros H Hn Hw. apply run_inv in H as I. unfold WaitWriteClosed in Hw.
  destruct (localFIN _ && _ && _) eqn:E; [|by case_match]. bool_hyps.
  split; [by apply acked_all|].
  assert (Hf : remoteFIN (conn (ep (other s) w)) = true)
    by (eapply (si_finack _ _ (inv_stream _ I s)); done).
  destruct (fin_last w I s Hf) as (_ & E2 & E3).
  destruct (recv_in_queue w I s) as [k Hk]. destruct (queue_in_send w I s) as [k' Hk'].
  assert (len (recv (conn (ep (other s) w))) = 0) as Hr.
  { rewrite E2 in Hk'. rewrite Hk', len_app in *. pose proof (len_nonneg k').
    pose proof (len_nonneg (recv (conn (ep (other s) w)))). lia. }
  unfold Read. rewrite (proj2 (Z.leb_gt _ _)) by lia. rewrite Hr, Hf, E3. simpl.
  by rewrite Z.leb_refl.
Qed.

(** The protocol check a section ended the stream with. *)
Definition failStage (r : StepResult) : option string :=
  match r with
  | Step _ (FailTerminal (ErrFrame stage _ _ _ _ _) :: _) _ _ => Some stage
  | _ => None
  end.

(** An honest peer never trips the receive window, the acknowledgement or the
    FIN_ACK checks, provided its window is not larger than ours. *)
Theorem honest_peer_accepted (s : Side) (acts : list SysAction) (w : System) i p f rest stage :
  sysRun (initSystem wi wr dig) acts = Some w ->
  window (conn (ep (other s) w)) <= window (conn (ep s w)) ->
  threads (ep s w) !! i = Some (RdApply p f :: rest) ->
  failStage (readCarrier_apply p f (conn (ep s w))) = Some stage ->
  stage <> "data_window_exceeded" /\ stage <> "ack_beyond_send_next" /\
  stage <> "fin_ack_state_mismatch".
Proof.
  intros H Hwin Ht Hf. apply run_inv in H as I.
  pose proof (Forall_lookup_1 _ _ _ _ (inv_tasks _ I s) Ht) as Hp. inversion Hp as [|? ? Hfrom _]; subst.
  pose proof (Forall_lookup_1 _ _ _ _ (proj2 (inv_wf _ I s)) Ht) as Hv.
  inversion Hv as [|? ? Hvalid _]; subst. destruct Hvalid as (Hu & Hl & _).
  pose proof (inv_stream _ I s) as J. pose proof (inv_stream _ I (other s)) as K.
  rewrite other_other in K. pose proof (queue_bound w I (other s)) as Hq.
  pose proof (delivered_le w I (other s)) as Hd. rewrite other_other in Hd.
  unfold pipeOf in Hq. rewrite other_other in Hq. simpl in Hq.
  rewrite len_zdrop in Hq by (pose proof (len_nonneg (delivered (ep s w))); lia).
  pose proof (inv_wf _ I s) as [[W _] _].
  unfold task_from, task_ok, frame_from in Hfrom. unfold readCarrier_apply in Hf.
  destruct (fkind f); try (by repeat (case_match; try done)).
  - unfold applyData in Hf. cbv zeta in Hf. simpl recvNext in Hf. simpl window in Hf. simpl recv in Hf.
    destruct Hfrom as (Hs & Hle & _). destruct W, K; simpl in *.
    case_match; [by injection Hf as <-|]. case_match; [|done]. bool_hyps.
    rewrite (data_end_nowrap _ _ (recvNext (conn (ep s w)))) in * by (done || (pose proof (len_nonneg (fpayload f)); lia)).
    unfold isUint64 in Hu. rewrite u64_sub in Hf by lia.
    rewrite (proj2 (Z.ltb_ge _ _)) in Hf by lia. by case_match.
  - unfold applyAck in Hf. destruct J, W; simpl in *.
    rewrite (proj2 (Z.ltb_ge _ _)) in Hf; [by case_match|].
    pose proof (si_recv_le). pose proof (inv_wf _ I (other s)) as [[W' _] _]. destruct W'; simpl in *.
    pose proof (len_nonneg (recv (conn (ep (other s) w)))). lia.
  - unfold applyFIN in Hf. repeat (case_match; try done). by injection Hf as <-.
  - unfold applyFINAck in Hf. destruct Hfrom as [Hr Hs].
    destruct (si_fin _ _ J Hr) as (E1 & E2 & _). pose proof (si_next _ _ J). simpl in *.
    rewrite E1 in Hf. rewrite (proj2 (Z.eqb_eq _ _)) in Hf by lia. done.
  - unfold applyCommit in Hf. repeat (case_match; try done). by injection Hf as <-.
  - unfold applyCommitAck in Hf. repeat (case_match; try done). by injection Hf as <-.
  - unfold applyConfirm in Hf. repeat (case_match; try done).
  - unfold applyDiscard in Hf. repeat (case_match; try done). by injection Hf as <-.
  - unfold applyDiscardAck in Hf. repeat (case_match; try done). by injection Hf as <-.
Qed.
End runs.

(** ** The theorems on a concrete run: attach, two bytes, close *)
Definition demoRun : list SysAction := attach ++ transfer ++ finish.
Definition isTau (l : Label) : bool := match l with LTau => true | _ => false end.
Definition visible (ls : list Label) : list Label := List.filter (fun l => negb (isTau l)) ls.

Lemma resumable_refines_pipe_witness :
  visible (labels SideI demoInit demoRun) = [LWrite (bytes "hi"); LRead (bytes "hi"); LClose; LEOF] /\
  pipe_run (mkPipe [] false) (labels SideI demoInit demoRun) (pipeOf SideI (after demoRun)).
Proof.
  split; [vm_compute; reflexivity|].
  apply (resumable_refines_pipe 65536 65536 demoDigest eq_refl eq_refl eq_refl SideI demoRun).
  apply after_run. vm_compute. reflexivity.
Defined.

(** The carrier breaks with the first write received but unread and the second
    one in flight. *)
Definition demoCut : list SysAction :=
  attach ++ [SAct SideI (AWrite (bytes "hi")); go SideI 5; ResumableRuns.wr SideI 5] ++ rd SideR 3 0 ++
  [SAct SideI (AWrite (bytes "there")); go SideI 5; ResumableRuns.wr SideI 5; SBreak 0 0 0].

Lemma resumable_no_loss_witness :
  delivered (epR (after demoCut)) = [] /\ recv (conn (epR (after demoCut))) = bytes "hi" /\
  written (epI (after demoCut)) = bytes "hithere" /\
  exists acked rest,
    written (epI (after demoCut)) = delivered (epR (after demoCut)) ++ recv (conn (epR (after demoCut))) ++ rest /\
    send (conn (epI (after demoCut))) = acked ++ recv (conn (epR (after demoCut))) ++ rest /\
    len (recv (conn (epR (after demoCut))) ++ rest) <= window (conn (epI (after demoCut))).
Proof.
  do 3 (split; [vm_compute; reflexivity|]).
  apply (resumable_no_loss 65536 65536 demoDigest eq_refl eq_refl eq_refl SideI demoCut).
  apply after_run. vm_compute. reflexivity.
Defined.

Lemma WaitAcknowledged_delivered_witness :
  written (epI (after (attach ++ transfer))) = bytes "hi" /\
  delivered (epR (after (attach ++ transfer))) = written (epI (after (attach ++ transfer))).
Proof.
  split; [vm_compute; reflexivity|].
  apply (WaitAcknowledged_delivered 65536 65536 demoDigest eq_refl eq_refl eq_refl SideI (attach ++ transfer)).
  - apply after_run. vm_compute. reflexivity.
  - vm_compute. reflexivity.
Defined.

Lemma WaitWriteClosed_delivered_witness :
  delivered (epR (after demoRun)) = written (epI (after demoRun)) /\
  Read 10 (conn (epR (after demoRun))) = (conn (epR (after demoRun)), Returns ReadEOF).
Proof.
  apply (WaitWriteClosed_delivered 65536 65536 demoDigest eq_refl eq_refl eq_refl SideI demoRun).
  - apply after_run. vm_compute. reflexivity.
  - lia.
  - vm_compute. reflexivity.
Defined.

(** The responder closes between reading a COMMIT and applying it: the check
    that fires is the one on the carrier. *)
Definition demoLateCommit : list SysAction :=
  prepare 0 (demoID Byte.x07) 2 2 ++
  [SAct SideI (ACall (PromStart (mkHandle (demoID Byte.x07) 1))); go SideI 4; ResumableRuns.wr SideI 4;
   SRecv SideR 3 0; go SideR 3; go SideR 3; SAct SideR (ACall CloseStart); go SideR 4].

Lemma honest_peer_accepted_witness :
  "commit_carrier_not_prepared" <> "data_window_exceeded" /\
  "commit_carrier_not_prepared" <> "ack_beyond_send_next" /\
  "commit_carrier_not_prepared" <> "fin_ack_state_mismatch".
Proof.
  apply (honest_peer_accepted 65536 65536 demoDigest eq_refl eq_refl eq_refl SideR demoLateCommit
           (after demoLateCommit) 3 0 (mkFrame frameCommit 1 []) []).
  - apply after_run. vm_compute. reflexivity.
  - vm_compute. discriminate.
  - vm_compute. reflexivity.
  - vm_compute. reflexivity.
Defined.

(** ** One endpoint against any peer *)

(** C34: whatever the peer sends, the only slice or pointer expression of the
    stream that can panic is [PrepareCarrier]'s read of [c.prepared] after it has
    released [c.mu]. *)
Theorem endpoint_no_panic (win : Z) (r : Role) (dig : list byte) (e : Endpoint) (a : Action) :
  windowOk win = true -> length dig = 32%nat -> Reaches (initEndpoint win r dig) e ->
  exec e a = Panicked ->
  exists i io p h rest,
    a = ARun i io /\ threads e !! i = Some (PrepSpawn p h :: rest) /\ prepared (conn e) = None.
Proof.
  intros Hw Hd Hr H. unfold windowOk in Hw. bool_hyps.
  destruct (Reaches_wf _ _ Hr) as [Hc Ht]; [apply init_wf; [lia|done]|].
  destruct a; simpl in H; try (by repeat case_match).
  destruct (threads e !! i) as [[|t rest]|] eqn:Ei; try done.
  destruct (step_task (conn e) t io) eqn:Es; try done.
  pose proof (Forall_lookup_1 _ _ _ _ Ht Ei) as Hi. inversion Hi; subst.
  destruct (step_no_panic _ _ _ Hc ltac:(done) Es) as (p & h & -> & Hp).
  by exists i, io, p, h, rest.
Qed.

(** C35: whatever the peer sends, both buffers stay inside the configured window
    and the counters describe the buffers exactly, without wrapping. *)
Theorem endpoint_bounded (win : Z) (r : Role) (dig : list byte) (e : Endpoint) :
  windowOk win = true -> length dig = 32%nat -> Reaches (initEndpoint win r dig) e ->
  len (recv (conn e)) <= window (conn e) /\ len (send (conn e)) <= window (conn e) /\
  recvNext (conn e) = recvBase (conn e) + len (recv (conn e)) /\ 0 <= recvBase (conn e) /\
  sendNext (conn e) = sendBase (conn e) + len (send (conn e)) /\ 0 <= sendBase (conn e) /\
  recvNext (conn e) < two64 /\ sendNext (conn e) < two64.
Proof.
  intros Hw Hd Hr. unfold windowOk in Hw. bool_hyps.
  destruct (Reaches_wf _ _ Hr) as [[[] _] _]; [apply init_wf; [lia|done]|]. simpl in *. lia.
Qed.

(** Every frame and hello an endpoint puts on a carrier is read back whole by
    the reader of its peer, whatever follows it on the carrier. *)
Theorem endpoint_output_readable (win : Z) (r : Role) (dig : list byte) (e e' : Endpoint) (a : Action)
    (out : list Out) (rest : list byte) :
  windowOk win = true -> length dig = 32%nat -> Reaches (initEndpoint win r dig) e ->
  action_valid e a -> exec e a = Done e' out ->
  Forall (fun o => match o with
                   | OFrame _ f => readFrame (writeFrame_bytes f ++ rest) = Ok (f, rest)
                   | OHello _ h => readHello (writeHello h ++ rest) = Ok (h, rest)
                   | _ => True
                   end) out.
Proof.
  intros Hw Hd Hr Ha H. unfold windowOk in Hw. bool_hyps.
  destruct (exec_wf _ _ _ _ H Ha) as [_ Ho].
  { eapply Reaches_wf; [done|]. apply init_wf; [lia|done]. }
  eapply Forall_impl; [exact Ho|]. intros [] Hv; try done; simpl in Hv.
  - by apply (codec_get_put (StreamCodec := frame_codec)).
  - by apply (codec_get_put (StreamCodec := hello_codec)).
Qed.

(** A run of one endpoint that writes nothing, with what its peer supplied. *)
Fixpoint epRun (e : Endpoint) (acts : list Action) : option Endpoint :=
  match acts with
  | [] => Some e
  | a :: rest => match exec e a with Done e' _ => epRun e' rest | _ => None end
  end.

Lemma epRun_reaches acts : forall e e',
  Forall (fun a => match a with ARun _ io => io_valid io | AWrite _ => False | _ => True end) acts ->
  epRun e acts = Some e' -> Reaches e e'.
Proof.
  induction acts as [|a acts IH]; simpl; intros e e' HF H; [injection H as <-; constructor|].
  inversion HF; subst. destruct (exec e a) as [| |e1 out] eqn:E; try done.
  eapply (reach_step e a e1 out); [|done|by apply IH]. by destruct a.
Qed.

Definition demoEndpoint : Endpoint := initEndpoint 65536 RoleInitiator demoDigest.
Definition demoReady : helloV2 := mkHello helloReady demoDigest (demoID Byte.x07) 1 0 0 false 0.
Definition demoRequest : helloV2 := mkHello helloPrepare demoDigest (demoID Byte.x07) 1 0 0 false 0.

Lemma demoReady_valid : hello_valid demoReady.
Proof. by repeat split. Qed.

(** [Close] runs between the unlock of [PrepareCarrier] and its [go] statement. *)
Definition closeRace : list Action :=
  [ACall (PrepStart 0); ARun 2 (IoRandom (Ok (demoID Byte.x07))); ARun 2 (IoWrite None);
   ARun 2 (IoHello (Ok demoReady)); ARun 2 IoNone; ACall CloseStart; ARun 3 IoNone].

Definition raceEndpoint : Endpoint := default demoEndpoint (epRun demoEndpoint closeRace).

Lemma closeRace_reaches : Reaches demoEndpoint raceEndpoint.
Proof.
  apply (epRun_reaches closeRace); [|vm_compute; reflexivity].
  pose proof demoReady_valid. repeat constructor; by apply H.
Qed.

Lemma endpoint_no_panic_witness :
  exists i io p h rest,
    ARun 2 IoNone = ARun i io /\ threads raceEndpoint !! i = Some (PrepSpawn p h :: rest) /\
    prepared (conn raceEndpoint) = None.
Proof.
  apply (endpoint_no_panic 65536 RoleInitiator demoDigest raceEndpoint (ARun 2 IoNone)).
  - reflexivity.
  - reflexivity.
  - exact closeRace_reaches.
  - vm_compute. reflexivity.
Defined.

Lemma endpoint_bounded_witness :
  window (conn raceEndpoint) = 65536 /\ len (recv (conn raceEndpoint)) <= window (conn raceEndpoint).
Proof.
  split; [vm_compute; reflexivity|].
  apply (endpoint_bounded 65536 RoleInitiator demoDigest raceEndpoint); [reflexivity|reflexivity|].
  exact closeRace_reaches.
Defined.

Lemma endpoint_output_readable_witness :
  readHello (writeHello demoRequest ++ bytes "tail") = Ok (demoRequest, bytes "tail").
Proof.
  assert (H : Forall (fun o => match o with
     | OFrame _ f => readFrame (writeFrame_bytes f ++ bytes "tail") = Ok (f, bytes "tail")
     | OHello _ h => readHello (writeHello h ++ bytes "tail") = Ok (h, bytes "tail")
     | _ => True end) [OHello 0 demoRequest]).
  { pose (pre := [ACall (PrepStart 0); ARun 2 (IoRandom (Ok (demoID Byte.x07)))]).
    pose (e := default demoEndpoint (epRun demoEndpoint pre)).
    pose (e' := default demoEndpoint (epRun demoEndpoint (pre ++ [ARun 2 (IoWrite None)]))).
    apply (endpoint_output_readable 65536 RoleInitiator demoDigest e e' (ARun 2 (IoWrite None))).
    - reflexivity.
    - reflexivity.
    - apply (epRun_reaches pre); [repeat constructor|vm_compute; reflexivity].
    - done.
    - vm_compute. reflexivity. }
  by inversion H.
Defined.

(** The byte level of a carrier.  Frames written one after the other and cut
    anywhere by a broken carrier are read back as a prefix of the frames, never
    as anything else; uncut, as exactly the frames and a clean end of stream. *)
Theorem carrier_bytes_prefix (fs out : list Frame) (n fuel : nat) (e : ReadError) :
  Forall frame_valid fs ->
  (read_all fuel (take n (write_all fs)) = (out, e) -> out `prefix_of` fs) /\
  ((length fs < fuel)%nat -> read_all fuel (write_all fs) = (fs, EOF)).
Proof.
  intros H. split; [by apply read_all_cut|by apply read_all_write_all].
Qed.

Lemma carrier_bytes_prefix_witness :
  [mkFrame frameFIN 2 []] `prefix_of` [mkFrame frameFIN 2 []; mkFrame frameAck 7 []].
Proof.
  apply (carrier_bytes_prefix [mkFrame frameFIN 2 []; mkFrame frameAck 7 []]
           [mkFrame frameFIN 2 []] 20 5 ErrUnexpectedEOF).
  - repeat (apply Forall_cons; split); [by repeat split..|done].
  - vm_compute. reflexivity.
Defined.

(** ** Carrier transitions against any peer *)

(** The carrier transitions exclude each other: [transitionMu] is held by
    exactly one goroutine when it is locked and by none when it is not. *)
Theorem transitions_exclusive (win : Z) (r : Role) (dig : list byte) (e : Endpoint) :
  Reaches (initEndpoint win r dig) e ->
  holders (role (conn e)) (allTasks e) = if transitionMu (conn e) then 1%nat else 0%nat.
Proof. intros H. apply (Reaches_trans _ _ H), init_trans. Qed.

(** The committed epoch never goes back, and it moves only by promoting the
    prepared carrier, to that carrier's strictly newer epoch: a carrier that was
    replaced or refused cannot be committed again, whatever the peer sends. *)
Theorem committed_epoch_increases (win : Z) (r : Role) (dig : list byte) (e e' : Endpoint)
    (a : Action) (out : list Out) :
  Reaches (initEndpoint win r dig) e -> exec e a = Done e' out ->
  committedEpoch (conn e') = committedEpoch (conn e) \/
  (committedEpoch (conn e) < committedEpoch (conn e') /\ prepared (conn e') = None /\
   exists p, active (conn e') = Some p /\ prepared (conn e) = Some p /\
             pcepoch (lookupC (conn e) p) = committedEpoch (conn e')).
Proof.
  intros H He. eapply exec_trans; [exact He|]. eapply Reaches_trans; [exact H|apply init_trans].
Qed.

(** An initiator up to the COMMIT_ACK it is about to apply. *)
Definition beforeCommitAck : list Action :=
  [ACall (PrepStart 0); ARun 2 (IoRandom (Ok (demoID Byte.x07))); ARun 2 (IoWrite None);
   ARun 2 (IoHello (Ok demoReady)); ARun 2 IoNone; ARun 2 IoNone;
   ACall (PromStart (mkHandle (demoID Byte.x07) 1)); ARun 4 IoNone; ARun 4 (IoWrite None);
   ARun 3 (IoFrame (Ok (mkFrame frameCommitAck 1 []))); ARun 3 IoNone; ARun 3 IoNone].

Definition committing : Endpoint := default demoEndpoint (epRun demoEndpoint beforeCommitAck).
Definition committed : Endpoint :=
  default demoEndpoint (epRun demoEndpoint (beforeCommitAck ++ [ARun 3 IoNone])).

Lemma committing_reaches : Reaches demoEndpoint committing.
Proof.
  apply (epRun_reaches beforeCommitAck); [|vm_compute; reflexivity].
  pose proof demoReady_valid. repeat constructor; by apply H.
Qed.

Lemma transitions_exclusive_witness :
  transitionMu (conn committing) = true /\
  holders (role (conn committing)) (allTasks committing) = if transitionMu (conn committing) then 1%nat else 0%nat.
Proof.
  split; [vm_compute; reflexivity|].
  apply (transitions_exclusive 65536 RoleInitiator demoDigest). exact committing_reaches.
Defined.

Lemma committed_epoch_increases_witness :
  committedEpoch (conn committing) = 0 /\ committedEpoch (conn committed) = 1 /\
  (committedEpoch (conn committed) = committedEpoch (conn committing) \/
   (committedEpoch (conn committing) < committedEpoch (conn committed) /\ prepared (conn committed) = None /\
    exists p, active (conn committed) = Some p /\ prepared (conn committing) = Some p /\
              pcepoch (lookupC (conn committing) p) = committedEpoch (conn committed))).
Proof.
  split; [vm_compute; reflexivity|]. split; [vm_compute; reflexivity|].
  apply (committed_epoch_increases 65536 RoleInitiator demoDigest committing committed (ARun 3 IoNone) []).
  - exact committing_reaches.
  - vm_compute. reflexivity.
Defined.
