(* ===== verification/ResumableWedge.v ===== *)
(** * Resumable stream: a lost COMMIT_ACK

    First, invariants about what each side sends: a property [St s] of the endpoint of side
    [s] and properties [F s], [H s] of the frames and hellos it sends are invariants of the
    system when the sections and the application's calls keep them; the travelling through
    goroutines and carriers is proved here once.

    The responder moves [committedEpoch] when it reads COMMIT, the initiator when
    it reads COMMIT_ACK.  If the carrier breaks in between the two disagree, and
    [AcceptCarrier] refuses every later hello because of it: no schedule brings
    the stream back ([lost_commit_ack_is_permanent]). *)
From S2P Require Import Prelude.
From S2P Require Import Codec.
From S2P Require Import ResumableWire.
From S2P Require Import ResumableConn.
From S2P Require Import ResumableInv.
From S2P Require Import ResumableSafety.
From S2P Require Import ResumableView.
From S2P Require Import ResumableSystem.
From S2P Require Import ResumablePipe.
From S2P Require Import ResumableProps.
Import ResumableRuns.

(** [St s], [F s] and [H s] as above, with what an endpoint must keep. *)
Class Carried (St : Side -> Conn -> Prop) (F : Side -> Frame -> Prop) (H : Side -> helloV2 -> Prop) := {
  carried_sends s c t io :
    St s c -> task_ok (F (other s)) (F s) (H (other s)) (H s) t -> sends_ok (F s) (H s) c t io;
  carried_step s c t io c' k sp out :
    St s c -> task_ok (F (other s)) (F s) (H (other s)) (H s) t ->
    step_task c t io = Step c' k sp out -> St s c';
  carried_read s c n : St s c -> St s (fst (Read n c));
  carried_write s c bs : St s c -> St s (fst (Write bs c));
  carried_closeWrite s c : St s c -> St s (fst (CloseWrite c));
  carried_deadline s c r wd : St s c -> St s (SetWriteDeadline wd (SetReadDeadline r c))
}.

Section carried.
Context (St : Side -> Conn -> Prop) (F : Side -> Frame -> Prop) (H : Side -> helloV2 -> Prop)
  `{!Carried St F H}.

Definition carriedTask (s : Side) : Task -> Prop := task_ok (F (other s)) (F s) (H (other s)) (H s).
Definition carriedIO (s : Side) (a : Action) : Prop :=
  match a with ARun _ io => io_ok (F (other s)) (H (other s)) io | _ => True end.
Definition carriedWire (s : Side) (x : Wire) : Prop :=
  match x with WHello h => H s h | WFrame f => F s f end.

Record carriedEp (s : Side) (e : Endpoint) : Prop := {
  ce_state : St s (conn e);
  ce_tasks : Forall (Forall (carriedTask s)) (threads e)
}.

Definition carriedLinks (ls : gmap Ref Link) : Prop :=
  map_Forall (fun _ l => forall s, Forall (carriedWire (other s)) (inbox s l)) ls.

Record carried (w : System) : Prop := {
  cd_ep : forall s, carriedEp s (ep s w);
  cd_links : carriedLinks (links w)
}.

Lemma exec_carried s e a e' out :
  exec e a = Done e' out -> carriedEp s e -> carriedIO s a ->
  carriedEp s e' /\ Forall (out_ok (F s) (H s)) out.
Proof.
  intros He [Ha Ht] Hio. destruct a; simpl in He.
  - destruct (threads e !! i) as [[|t rest]|] eqn:Ei; try done.
    destruct (step_task (conn e) t io) as [| |c k sp o] eqn:Es; try done. injection He as <- <-.
    pose proof (Forall_lookup_1 _ _ _ _ Ht Ei) as Hi. inversion Hi as [|? ? Ht1 Hrest]; subst.
    destruct (step_output _ _ _ _ _ _ _ _ _ _ _ Es Ht1 Hio (carried_sends _ _ _ io Ha Ht1)) as [Hk Ho].
    split; [|done]. split; [by eapply carried_step|].
    apply Forall_app in Hk as [Hk Hsp]. simpl.
    apply Forall_app. split; [apply Forall_insert; [done|apply Forall_app; done]|].
    apply Forall_map. eapply Forall_impl; [exact Hsp|]. intros t' Ht'. by constructor.
  - destruct (isCall t) eqn:Ec; [|done]. injection He as <- <-. split; [|constructor]. split; [done|].
    simpl. apply Forall_app. split; [done|]. repeat constructor. by destruct t.
  - pose proof (carried_read s _ n Ha) as E.
    destruct (Read n (conn e)) as [c [[]|]]; injection He as <- <-; by repeat split.
  - pose proof (carried_write s _ bs Ha) as E.
    destruct (Write bs (conn e)) as [c [[]|]]; injection He as <- <-; by repeat split.
  - injection He as <- <-. split; [|done]. split; [by apply carried_closeWrite|done].
  - injection He as <- <-. split; [|done]. split; [by apply carried_deadline|done].
Qed.

Lemma carried_alter ls p (g : Link -> Link) :
  carriedLinks ls ->
  (forall l s, Forall (carriedWire (other s)) (inbox s l) -> Forall (carriedWire (other s)) (inbox s (g l))) ->
  carriedLinks (alter g p ls).
Proof.
  intros Hl Hg q l. rewrite lookup_alter_Some. intros [(-> & l' & E & ->)|[_ E]] s.
  - apply Hg. by apply (Hl q).
  - by apply (Hl q).
Qed.

Lemma carried_deliverAll s out ls :
  carriedLinks ls -> Forall (out_ok (F s) (H s)) out -> carriedLinks (deliverAll s ls out).
Proof.
  unfold deliverAll. intros Hl Ho. revert ls Hl. induction Ho as [|o out Ho _ IH]; intros ls Hl; [done|].
  simpl. apply IH. clear IH.
  assert (Hpush : forall p x, carriedWire s x ->
    carriedLinks (alter (fun l => if broken l then l
                    else setInbox (other s) (inbox (other s) l ++ [x]) l) p ls)).
  { intros p x Hx. apply carried_alter; [done|]. intros l s' Hq. case_match; [done|].
    rewrite inbox_setInbox. case_decide; subst; [|done].
    apply Forall_app. split; [done|]. rewrite other_other. by constructor. }
  destruct o; simpl in *; [by apply Hpush|by apply Hpush| |done].
  apply carried_alter; [done|]. by intros l [].
Qed.

Lemma runEp_carried s a ls w w' :
  runEp s a ls w = SysDone w' -> carriedIO s a -> carriedLinks ls -> carried w -> carried w'.
Proof.
  unfold runEp. destruct (exec (ep s w) a) as [| |e out] eqn:He; try done.
  intros [= <-] Hio Hls [We Wl]. destruct (exec_carried s _ _ _ _ He (We s) Hio) as [We' Wo].
  split.
  - intros s'. destruct (side_cases s s') as [->| ->].
    + by rewrite ep_setEp.
    + rewrite ep_setEp_other. pose proof (We (other s)). by destruct s.
  - replace (links _) with (deliverAll s ls out) by (by destruct s). by apply carried_deliverAll.
Qed.

Lemma sysExec_carried w a w' : sysExec w a = SysDone w' -> carried w -> carried w'.
Proof.
  intros He W. destruct a; simpl in He.
  - destruct (links w !! p) eqn:E; [done|]. injection He as <-. destruct W as [We Wl].
    split; [done|]. apply map_Forall_insert_2; [|done]. intros []; constructor.
  - injection He as <-. destruct W as [We Wl]. split; [done|].
    apply carried_alter; [done|]. intros l []; simpl; intros; by apply Forall_take.
  - destruct (localAction a) eqn:El; [|done]. eapply runEp_carried; [exact He| |apply W|done].
    destruct a; try done. by destruct io as [| |[]|[]| | |].
  - destruct (links w !! p) as [l|] eqn:El; [|done].
    destruct (threads (ep s w) !! i) as [[|t rest]|] eqn:Et; try done.
    destruct (inbox s l) as [|x q] eqn:Eq; [done|].
    destruct (wireIO t p x) as [io|] eqn:Ew; [|done].
    pose proof (cd_links _ W p l El) as Hl. pose proof (Hl s) as Hx. rewrite Eq in Hx.
    inversion Hx as [|? ? Hx1 Hq]; subst.
    eapply runEp_carried; [exact He| | |done].
    + destruct t, x; simpl in Ew; try done; case_match; try done; by injection Ew as <-.
    + apply map_Forall_insert_2; [|apply W]. intros s'. rewrite inbox_setInbox.
      case_decide; subst; [done|apply Hl].
Qed.

Lemma sysRun_carried acts : forall w w', sysRun w acts = Some w' -> carried w -> carried w'.
Proof.
  induction acts as [|a acts IH]; simpl; intros w w' He W; [by injection He as <-|].
  destruct (sysActionValid w a); [|done]. destruct (sysExec w a) eqn:Es; try done.
  eapply IH; [done|]. by eapply sysExec_carried.
Qed.
End carried.

(** The attachment half of [Conn]. *)
Definition attached (c : Conn) : option Ref * option Ref * Z * Role :=
  (active c, prepared c, committedEpoch c, role c).

Ltac drop_attached :=
  match goal with
  | |- context [attached (@set_field ?R ?E ?pr ?i ?v ?x)] =>
      change (attached (@set_field R E pr i v x)) with (attached x)
  end.

Lemma attached_emit ev c : attached (emit ev c) = attached c.
Proof. unfold emit. by case_match. Qed.

Lemma attached_setState p s c : attached (setState p s c) = attached c.
Proof. done. Qed.

Lemma attached_chanSend ch v c : attached (chanSend ch v c) = attached c.
Proof. unfold chanSend. by destruct (chans c !! ch) as [[]|]. Qed.

Lemma attached_commitWaiter k c : attached (fst (commitWaiter k c)) = attached c.
Proof. unfold commitWaiter. by destruct (commitWait c !! k). Qed.

Lemma attached_discard off c c' : discardAckedLocked off c = Some c' -> attached c' = attached c.
Proof.
  intros H. apply discardAcked_fields in H as (_ & _ & _ & E4 & _ & _ & E7 & _ & E9 & E10 & _).
  unfold attached. congruence.
Qed.

Create Rewrite HintDb attached.
#[export] Hint Rewrite attached_emit attached_setState attached_chanSend attached_commitWaiter : attached.
Ltac same_attached := repeat first [drop_attached | progress autorewrite with attached]; try done.

Lemma attached_failWaiters p e c : attached (failWaiters p e c) = attached c.
Proof. unfold failWaiters. repeat case_match; same_attached. Qed.
#[export] Hint Rewrite attached_failWaiters : attached.

Lemma isRef_None p : isRef None p = false.
Proof. reflexivity. Qed.

(** Without a carrier, only an accepted hello changes the attachment. *)
Lemma step_idle c t io c' k sp out :
  step_task c t io = Step c' k sp out -> active c = None -> prepared c = None ->
  (forall p h r, t <> PrepInstall p h r) ->
  (forall p r, t = AccCheck p r -> hcommittedEpoch r <> committedEpoch c) ->
  attached c' = attached c.
Proof.
  intros H Ea Ep Hi Hc.
  assert (Hnone : attached c = (None, None, committedEpoch c, role c))
    by (unfold attached; by rewrite Ea, Ep).
  destruct t; simpl in H.
  all: try (unfold_section H; rewrite ?Ea, ?Ep, ?isRef_None in H; simpl in H; run_section H;
            same_attached; unfold attached in *; simpl in *; congruence).
  - unfold readCarrier_apply, applyData, applyAck, applyFIN, applyFINAck in H. cbv zeta in H.
    unfold_section H. rewrite ?Ea, ?Ep, ?isRef_None in H. simpl in H. run_section H; same_attached.
    by eapply attached_discard.
  - unfold failCarrier in H. cbv zeta in H. run_section H; try done;
      unfold failCarrierState; rewrite Ea, Ep, !isRef_None; case_match; same_attached.
  - unfold failEmit in H. cbv zeta in H. run_section H; same_attached.
  - by destruct (Hi p h ready).
  - unfold AcceptCarrier_check, unlockRet, ret in H. cbv zeta in H.
    specialize (Hc p request eq_refl). apply Z.eqb_neq in Hc. rewrite Hc in H. simpl in H.
    rewrite orb_true_r in H. simpl in H. by apply Step_inj in H as (-> & _).
Qed.

(** ** The wedged system

    The initiator is at epoch 0, the responder at 1; the hellos of the initiator
    name its epoch and the responder has no reason to send one. *)
Definition sideEpoch (s : Side) : Z := match s with SideI => 0 | SideR => 1 end.
Definition sideRole (s : Side) : Role := match s with SideI => RoleInitiator | SideR => RoleResponder end.

Definition wedgedState (s : Side) (c : Conn) : Prop :=
  attached c = (None, None, sideEpoch s, sideRole s).
Definition wedgedFrame (s : Side) (f : Frame) : Prop := True.
Definition wedgedHello (s : Side) (h : helloV2) : Prop :=
  match s with SideI => hcommittedEpoch h = 0 | SideR => False end.

#[export] Instance wedged_carried : Carried wedgedState wedgedFrame wedgedHello.
Proof.
  split; unfold wedgedState.
  - intros s c t io Ha Ht. injection Ha as _ _ Hc Hr. split; try done.
    + intros p k -> Hi _ _ _. destruct s; simpl in *; [done|congruence].
    + intros p r -> Heq. destruct s; simpl in *; [done|]. rewrite Hc in Heq. simpl in *. congruence.
  - intros s c t io c' k sp out Ha Ht Hs. pose proof Ha as Ha'. injection Ha' as E1 E2 E3 E4.
    erewrite step_idle; try done.
    + intros p h r ->. destruct Ht as [H1 H2]. destruct s; simpl in *; done.
    + intros p r ->. destruct s; simpl in *; [done|]. rewrite E3. simpl in *. congruence.
  - intros s c n <-. unfold Read. by repeat case_match.
  - intros s c bs <-. unfold Write. by repeat case_match.
  - intros s c <-. unfold CloseWrite. by case_match.
  - by intros s c r wd <-.
Qed.

(** ** The run that gets there *)
Definition brokenRead (s : Side) (i : nat) : SysAction := SAct s (ARun i (IoFrame (Err (ErrIO 1)))).

Definition loseCommitAck : list SysAction :=
  prepare 0 (demoID Byte.x07) 2 2 ++
  [SAct SideI (ACall (PromStart (mkHandle (demoID Byte.x07) 1))); go SideI 4; wr SideI 4] ++
  rd SideR 3 0 ++
  [wr SideR 3; SBreak 0 0 0; brokenRead SideR 3; go SideR 3; go SideR 3; brokenRead SideI 3;
   go SideI 3; go SideI 3; go SideI 4].

Lemma loseCommitAck_wedged :
  carried wedgedState wedgedFrame wedgedHello (after loseCommitAck).
Proof.
  split.
  - intros s. destruct s; (split; [vm_compute; reflexivity|]);
      match goal with |- Forall _ ?t => let t' := eval vm_compute in t in change t with t' end;
      repeat constructor.
  - intros p l H s.
    assert (links (after loseCommitAck) = {[0%nat := mkLink [] [] true]}) as El by (vm_compute; reflexivity).
    rewrite El in H. apply lookup_singleton_Some in H as [<- <-]. destruct s; constructor.
Qed.

(** A COMMIT_ACK lost with its carrier wedges the stream.  The responder has
    committed the carrier's epoch and the initiator has not; neither end is
    closed, yet in every continuation - any number of new carriers, hellos and
    retries - neither end ever has an active or a prepared carrier again. *)
Theorem lost_commit_ack_is_permanent :
  completes loseCommitAck = true /\
  terminalErr (conn (epI (after loseCommitAck))) = None /\ closed (conn (epI (after loseCommitAck))) = false /\
  terminalErr (conn (epR (after loseCommitAck))) = None /\ closed (conn (epR (after loseCommitAck))) = false /\
  forall acts w, sysRun (after loseCommitAck) acts = Some w ->
    active (conn (epI w)) = None /\ prepared (conn (epI w)) = None /\
    active (conn (epR w)) = None /\ prepared (conn (epR w)) = None.
Proof.
  do 5 (split; [vm_compute; reflexivity|]). intros acts w H.
  pose proof (sysRun_carried _ _ _ _ _ _ H loseCommitAck_wedged) as [We _].
  destruct (We SideI) as [Hi _]. destruct (We SideR) as [Hr _]. unfold wedgedState in *. simpl in Hi, Hr.
  injection Hi as ? ? _ _. injection Hr as ? ? _ _. done.
Qed.

(** ** A lost FIN_ACK *)
Definition finState (s : Side) (c : Conn) : Prop :=
  match s with SideI => finAcked c = false | SideR => remoteFIN c = true end.
Definition finFrame (s : Side) (f : Frame) : Prop :=
  match s with SideI => True | SideR => fkind f <> frameFINAck end.
Definition finHello (s : Side) (h : helloV2) : Prop := True.

Lemma data_step_finAcked d t d' :
  data_step d t d' -> dFinAcked d = false ->
  (forall p f, t = RdApply p f -> fkind f <> frameFINAck) -> dFinAcked d' = false.
Proof.
  intros H Hd Ht. destruct H; try done;
    try (match goal with E : discard _ _ = _ |- _ => revert E end; unfold discard;
         (case_match; [by intros [= <-]|]); (destruct (slice _ _ _); [|done]); by intros [= <-]).
  by destruct (Ht p f).
Qed.

#[export] Instance fin_carried : Carried finState finFrame finHello.
Proof.
  split.
  - intros s c t io Ha Ht. split; try done; destruct s; simpl in *; try done.
    + by intros p [].
    + intros p f _ _ _ Hr. congruence.
  - intros s c t io c' k sp out Ha Ht Hs. apply step_data in Hs. destruct s; simpl in *.
    + eapply (data_step_finAcked (data c) t (data c')); [done|done|]. by intros p f ->.
    + by eapply (data_step_fin (data c) t (data c')).
  - intros s c n Hc. unfold Read. destruct s; repeat case_match; done.
  - intros s c bs Hc. unfold Write. destruct s; repeat case_match; done.
  - intros s c Hc. unfold CloseWrite. destruct s; case_match; done.
  - intros s c r wd Hc. by destruct s.
Qed.

Definition loseFinAck : list SysAction :=
  attach ++ [SAct SideI ACloseWrite; go SideI 5; wr SideI 5; go SideI 5] ++ rd SideR 3 0 ++
  [wr SideR 5; SBreak 0 0 0].

Lemma loseFinAck_carried : carried finState finFrame finHello (after loseFinAck).
Proof.
  split.
  - intros s. destruct s; (split; [vm_compute; reflexivity|]);
      match goal with |- Forall _ ?t => let t' := eval vm_compute in t in change t with t' end;
      repeat constructor.
  - intros p l H s.
    assert (links (after loseFinAck) = {[0%nat := mkLink [] [] true]}) as El by (vm_compute; reflexivity).
    rewrite El in H. apply lookup_singleton_Some in H as [<- <-]. destruct s; constructor.
Qed.

(** A FIN_ACK lost with its carrier is never sent again.  The peer's
    application has its end of stream and neither end is closed, yet in every
    continuation [WaitWriteClosed] does not return nil. *)
Theorem lost_fin_ack_is_permanent :
  completes loseFinAck = true /\
  terminalErr (conn (epI (after loseFinAck))) = None /\ closed (conn (epI (after loseFinAck))) = false /\
  localFIN (conn (epI (after loseFinAck))) = true /\ send (conn (epI (after loseFinAck))) = [] /\
  snd (Read 1 (conn (epR (after loseFinAck)))) = Returns ReadEOF /\
  forall acts w, sysRun (after loseFinAck) acts = Some w ->
    WaitWriteClosed (conn (epI w)) <> Returns (Ok tt).
Proof.
  do 6 (split; [vm_compute; reflexivity|]). intros acts w H.
  pose proof (sysRun_carried _ _ _ _ _ _ H loseFinAck_carried) as [We _].
  destruct (We SideI) as [Hi _]. unfold finState in Hi. simpl in Hi.
  unfold WaitWriteClosed. rewrite Hi, andb_false_r. by case_match.
Qed.

(** ** [PrepareCarrier] against [Close] *)

(** [Close] between the unlock of [PrepareCarrier] and its [go] statement
    makes the new reader dereference a nil carrier. *)
Theorem PrepareCarrier_close_race_panics :
  exists acts w, sysRun demoInit acts = Some w /\ sysExec w (SAct SideI (ARun 2 IoNone)) = SysPanic.
Proof.
  exists ([SDial 0; SAct SideI (ACall (PrepStart 0)); SAct SideR (ACall (AccStart 0));
   SAct SideI (ARun 2 (IoRandom (Ok (demoID Byte.x07)))); wr SideI 2; go SideR 2; SRecv SideR 2 0;
   go SideR 2; wr SideR 2; go SideR 2; SRecv SideI 2 0; go SideI 2] ++
   [SAct SideI (ACall CloseStart); go SideI 3]).
  eexists. split; [vm_compute; reflexivity|]. vm_compute. reflexivity.
Qed.
