(* ===== verification/History.v ===== *)
(** * Output history

    Models [internal/hostruntime/history/history.go]: the bounded, sequence
    numbered record of a session's output.  [History] keeps the source's slice
    [events] with its [head] index (slots before [head] are cleared, not
    removed), and the reference counts of the buffers that events share with
    their consumers, since a count that reaches zero gives the buffer back to a
    pool that overwrites it.

    The abstraction is a window of the output: [content h] is the bytes from
    [earliest] to [latest]. *)
From S2P Require Import Prelude.

Inductive HistError :=
| ErrInvalidLimit
| ErrInvalidCursor
| ErrSequenceFull
| GapError (RequestedSequence EarliestSequence LatestSequence : Z).

Abbreviation Owner := nat.

Record Event := mkEv {
  Channel : byte; StartSequence : Z; EndSequence : Z; Data : list byte; owner : option Owner }.
#[export] Instance Event_eta : Eta Event :=
  fun e => mkEv (Channel e) (StartSequence e) (EndSequence e) (Data e) (owner e).

Definition zeroEvent : Event := mkEv Byte.x00 0 0 [] None.

Record ownedBuffer := mkOwned { orefs : Z; opool : bool }.

(** The buffers in use, the next fresh one, and those given back to the pool. *)
Record Store := mkStore { owners : gmap Owner ownedBuffer; fresh : Owner; returned : list Owner }.

Definition Retain (e : Event) (st : Store) : Store :=
  match owner e with
  | None => st
  | Some o =>
      mkStore (alter (fun b => mkOwned (orefs b + 1) (opool b)) o (owners st)) (fresh st) (returned st)
  end.

Definition Release (e : Event) (st : Store) : Store :=
  match owner e with
  | None => st
  | Some o =>
      match owners st !! o with
      | None => st
      | Some b =>
          if (orefs b - 1 =? 0) then
            mkStore (delete o (owners st)) (fresh st) (if opool b then o :: returned st else returned st)
          else mkStore (<[o := mkOwned (orefs b - 1) (opool b)]> (owners st)) (fresh st) (returned st)
      end
  end.

Definition ReleaseAll (es : list Event) (st : Store) : Store := fold_left (fun s e => Release e s) es st.

Record History := mkHistory {
  maxBytes : Z; hbytes : Z; earliest : Z; latest : Z;
  events : list Event; head : Z; acks : gmap string Z; store : Store }.
#[export] Instance History_eta : Eta History := fun h => mkHistory (maxBytes h) (hbytes h)
  (earliest h) (latest h) (events h) (head h) (acks h) (store h).

Record Replay := mkReplay {
  FromSequence : Z; ToSequence : Z; rEarliest : Z; rLatest : Z; rEvents : list Event }.

Definition New (st : Store) (limit : Z) : result HistError History :=
  if (limit =? 0) then Err ErrInvalidLimit
  else Ok (mkHistory limit 0 0 0 [] 0 ∅ st).

Definition cloneEvent (e : Event) : Event := e <| owner := None |>.

(** The loop of [Restore] over the stored events. *)
Fixpoint restoreLoop (es : list Event) (h : History) : result HistError History :=
  match es with
  | [] => Ok h
  | e :: rest =>
      if negb (StartSequence e =? latest h) || negb (EndSequence e -64 StartSequence e =? len (Data e))
      then Err ErrInvalidCursor
      else restoreLoop rest
             (h <| events := events h ++ [cloneEvent e] |> <| hbytes := hbytes h +64 len (Data e) |>
                <| latest := EndSequence e |>)
  end.

Definition Restore (st : Store) (limit early late : Z) (es : list Event) : result HistError History :=
  match New st limit with
  | Err _ => Err ErrInvalidCursor
  | Ok h =>
      if (late <? early) then Err ErrInvalidCursor
      else
        match restoreLoop es (h <| earliest := early |> <| latest := early |>) with
        | Err e => Err e
        | Ok h1 =>
            if negb (latest h1 =? late) || (limit <? hbytes h1) then Err ErrInvalidCursor else Ok h1
        end
  end.

(** One round of [compactLocked]'s loop. *)
Definition dropHead (h : History) : History :=
  let e := nth (Z.to_nat (head h)) (events h) zeroEvent in
  h <| hbytes := hbytes h -64 len (Data e) |> <| earliest := EndSequence e |>
    <| events := <[Z.to_nat (head h) := zeroEvent]> (events h) |> <| head := head h + 1 |>
    <| store := Release e (store h) |>.

(** [compactLocked]'s loop; the length of [events] is enough fuel, since [head]
    grows with every round. *)
Fixpoint compactLoop (fuel : nat) (h : History) : History :=
  match fuel with
  | O => h
  | S n =>
      if (maxBytes h <? hbytes h) && (head h <? len (events h)) then
        compactLoop n (dropHead h)
      else h
  end.

Definition compactLocked (h : History) : History :=
  let h1 := compactLoop (length (events h)) h in
  if (head h1 =? len (events h1)) then h1 <| earliest := latest h1 |> <| events := [] |> <| head := 0 |>
  else h1.

Definition newOwner (pooled producerReference : bool) (st : Store) : Store :=
  mkStore (<[fresh st := mkOwned (if producerReference then 2 else 1) pooled]> (owners st))
    (S (fresh st)) (returned st).

Definition appendOwned (channel : byte) (data : list byte) (pooled producerReference : bool) (h : History)
  : History * result HistError Event :=
  if (len data =? 0) then (h, Ok (mkEv channel (latest h) (latest h) [] None))
  else if (maxUint64 - latest h <? len data) then (h, Err ErrSequenceFull)
  else
    let e := mkEv channel (latest h) (latest h +64 len data) data (Some (fresh (store h))) in
    (compactLocked
       (h <| store := newOwner pooled producerReference (store h) |> <| latest := EndSequence e |>
          <| hbytes := hbytes h +64 len data |> <| events := events h ++ [e] |>), Ok e).

Definition AppendBuffer (channel : byte) (data : list byte) := appendOwned channel data true true.
Definition AppendOwned (channel : byte) (data : list byte) := appendOwned channel data false false.

Definition Append (channel : byte) (data : list byte) (h : History) : History * result HistError Event :=
  match AppendOwned channel data h with
  | (h1, Ok e) => (h1, Ok (cloneEvent e))
  | (h1, Err e) => (h1, Err e)
  end.

Definition SetLimit (limit : Z) (h : History) : History * result HistError unit :=
  if (limit =? 0) then (h, Err ErrInvalidLimit)
  else (compactLocked (h <| maxBytes := limit |>), Ok tt).

Definition live (h : History) : list Event := zdrop (head h) (events h).

Definition Clear (h : History) : History * Z :=
  (h <| store := ReleaseAll (live h) (store h) |> <| events := [] |> <| head := 0 |> <| hbytes := 0 |>
     <| earliest := latest h |>, latest h).

(** The part [start, end) of an event, as [retained] in the source; [None] where
    the slice expression is out of range. *)
Definition cut (e : Event) (start end_ : Z) : option Event :=
  match slice (start -64 StartSequence e) (end_ -64 StartSequence e) (Data e) with
  | Some d => Some (e <| StartSequence := start |> <| EndSequence := end_ |> <| Data := d |>)
  | None => None
  end.

(** The loop of [ReplayOwned]: the events selected so far and the store. *)
Fixpoint replayLoop (from byteLimit remaining : Z) (es : list Event) (st : Store) (to : Z)
    (acc : list Event) : option (list Event * Z * Store) :=
  match es with
  | [] => Some (acc, to, st)
  | e :: rest =>
      if (EndSequence e <=? from) then replayLoop from byteLimit remaining rest st to acc
      else
        let start := Z.max from (StartSequence e) in
        let end_ := if (0 <? byteLimit) && (remaining <? EndSequence e -64 start)
                    then start +64 remaining else EndSequence e in
        if (start <? end_) then
          match cut e start end_ with
          | None => None
          | Some r =>
              let st1 := Retain e st in
              let acc1 := acc ++ [r] in
              if (0 <? byteLimit) then
                let remaining1 := remaining -64 (end_ -64 start) in
                if (remaining1 =? 0) then Some (acc1, end_, st1)
                else replayLoop from byteLimit remaining1 rest st1 end_ acc1
              else replayLoop from byteLimit remaining rest st1 end_ acc1
          end
        else replayLoop from byteLimit remaining rest st to acc
  end.

(** [None] for an out of range slice expression. *)
Definition ReplayOwned (from byteLimit : Z) (h : History) : option (History * result HistError Replay) :=
  if (from <? earliest h) then Some (h, Err (GapError from (earliest h) (latest h)))
  else if (latest h <? from) then Some (h, Err ErrInvalidCursor)
  else
    match replayLoop from byteLimit byteLimit (live h) (store h) from [] with
    | None => None
    | Some (es, to, st) => Some (h <| store := st |>, Ok (mkReplay from to (earliest h) (latest h) es))
    end.

(** [Replay]: copies, and the references given back. *)
Definition Replay_ (from byteLimit : Z) (h : History) : option (History * result HistError Replay) :=
  match ReplayOwned from byteLimit h with
  | Some (h1, Ok r) =>
      Some (h1 <| store := ReleaseAll (rEvents r) (store h1) |>,
            Ok (mkReplay (FromSequence r) (ToSequence r) (rEarliest r) (rLatest r)
                  (map cloneEvent (rEvents r))))
  | o => o
  end.

Definition ackOf (id : string) (h : History) : Z := default 0 (acks h !! id).

Definition Acknowledge (id : string) (next : Z) (h : History) : History * result HistError unit :=
  if bool_decide (id = EmptyString) || (latest h <? next) || (next <? ackOf id h)
  then (h, Err ErrInvalidCursor)
  else (h <| acks := <[id := next]> (acks h) |>, Ok tt).

Definition Acknowledged (id : string) (h : History) : Z * bool :=
  match acks h !! id with Some n => (n, true) | None => (0, false) end.

Definition Bounds (h : History) : Z * Z * Z := (earliest h, latest h, hbytes h).

(** ** The window invariant *)

(** Contiguous events from [a] to [b]. *)
Fixpoint chain (a : Z) (es : list Event) (b : Z) : Prop :=
  match es with
  | [] => a = b
  | e :: rest =>
      StartSequence e = a /\ EndSequence e = a + len (Data e) /\ chain (EndSequence e) rest b
  end.

Definition contentOf (es : list Event) : list byte := concat (map Data es).
Definition content (h : History) : list byte := contentOf (live h).

(** Everything but the bound, which [compactLocked] restores. *)
Record loose_wf (h : History) : Prop := {
  hw_head : 0 <= head h <= len (events h);
  hw_chain : chain (earliest h) (live h) (latest h);
  hw_bytes : hbytes h = len (content h);
  hw_low : 0 <= earliest h;
  hw_high : latest h <= maxUint64;
  hw_max : 0 < maxBytes h <= maxUint64
}.

Definition hist_wf (h : History) : Prop := loose_wf h /\ hbytes h <= maxBytes h.

Lemma contentOf_app a b : contentOf (a ++ b) = contentOf a ++ contentOf b.
Proof. unfold contentOf. by rewrite map_app, concat_app. Qed.

Lemma chain_len a es b : chain a es b -> b = a + len (contentOf es).
Proof.
  revert a. induction es as [|e es IH]; simpl; intros a H.
  - change (len (contentOf [])) with 0. lia.
  - destruct H as (_ & E & H). apply IH in H. unfold contentOf in *. simpl. rewrite len_app. lia.
Qed.

Lemma chain_app a es fs b : chain a (es ++ fs) b <-> exists m, chain a es m /\ chain m fs b.
Proof.
  revert a. induction es as [|e es IH]; simpl; intros a.
  - split; [eauto|]. by intros (m & -> & H).
  - rewrite IH. split.
    + intros (E1 & E2 & m & H1 & H2). eauto.
    + intros (m & (E1 & E2 & H1) & H2). eauto.
Qed.

Lemma loose_len h : loose_wf h -> len (content h) = latest h - earliest h.
Proof. intros W. pose proof (chain_len _ _ _ (hw_chain _ W)). unfold content. lia. Qed.

(** ** Compaction *)
Lemma live_head h : loose_wf h -> head h < len (events h) ->
  exists e rest, live h = e :: rest /\ nth (Z.to_nat (head h)) (events h) zeroEvent = e /\
    zdrop (head h + 1) (<[Z.to_nat (head h) := zeroEvent]> (events h)) = rest.
Proof.
  intros W Hlt. destruct (hw_head _ W) as [H0 H1]. unfold live, zdrop, len in *.
  destruct (lookup_lt_is_Some_2 (events h) (Z.to_nat (head h))) as [e He]; [lia|].
  exists e, (drop (S (Z.to_nat (head h))) (events h)). split; [by apply drop_S|].
  split; [by apply nth_lookup_Some|].
  replace (Z.to_nat (head h + 1)) with (S (Z.to_nat (head h))) by lia.
  by rewrite drop_insert_lt by lia.
Qed.

(** What [compactLoop] drops. *)
Record compacts (h h' : History) : Prop := {
  co_wf : loose_wf h';
  co_latest : latest h' = latest h;
  co_max : maxBytes h' = maxBytes h;
  co_acks : acks h' = acks h;
  co_dropped : exists d, live h = d ++ live h' /\ store h' = ReleaseAll d (store h) /\
    (forall e d0, d = d0 ++ [e] -> maxBytes h < len (Data e) + len (content h'))
}.

Lemma compactLoop_spec fuel : forall h,
  loose_wf h -> (length (live h) <= fuel)%nat ->
  compacts h (compactLoop fuel h) /\
  (hbytes (compactLoop fuel h) <= maxBytes h \/ head (compactLoop fuel h) = len (events (compactLoop fuel h))).
Proof.
  assert (Hid : forall h, loose_wf h -> compacts h h).
  { intros h W. split; try done. exists []. split; [done|]. split; [done|].
    intros e d0 E. by destruct d0. }
  induction fuel as [|fuel IH]; intros h W Hf; simpl.
  - split; [by apply Hid|]. right. unfold live, zdrop in Hf. rewrite length_drop in Hf.
    pose proof (hw_head _ W). unfold len in *. lia.
  - destruct (maxBytes h <? hbytes h) eqn:Em; simpl; bool_hyps; [|split; [by apply Hid|left; lia]].
    destruct (head h <? len (events h)) eqn:Eh; simpl; bool_hyps;
      [|split; [by apply Hid|right; pose proof (hw_head _ W); lia]].
    destruct (live_head h W Eh) as (e & rest & El & En & Er).
    assert (Es : store (dropHead h) = Release e (store h)) by (unfold dropHead; by rewrite En).
    set (h1 := dropHead h) in *.
    assert (Hl1 : live h1 = rest) by done.
    assert (W1 : loose_wf h1).
    { destruct W as [Hh Hc Hb Hlo Hhi Hm]. rewrite El in Hc. destruct Hc as (E1 & E2 & E3).
      unfold content in Hb. rewrite El in Hb. unfold contentOf in Hb. simpl in Hb.
      rewrite len_app in Hb. fold (contentOf rest) in Hb.
      pose proof (len_nonneg (Data e)). pose proof (len_nonneg (contentOf rest)).
      pose proof (chain_len _ _ _ E3).
      split; simpl; rewrite ?Hl1, ?En; try done; try lia.
      - unfold len in *. rewrite length_insert. lia.
      - unfold content. rewrite Hl1. rewrite u64_sub; unfold maxUint64, two64 in *; lia. }
    destruct (IH h1 W1) as [[C1 C2 C3 C4 (d & Cd & Cs & Cm)] Cb].
    { rewrite Hl1. rewrite El in Hf. simpl in Hf. lia. }
    split; [|done]. split; try done. exists (e :: d). split; [by rewrite El, <- Hl1, Cd|].
    split; [by rewrite Cs, Es|]. intros e' d0 E. destruct d0 as [|x d0]; simplify_eq/=.
    + destruct W as [_ _ Hb _ _ _]. unfold content in Hb. rewrite El in Hb.
      unfold contentOf in Hb. simpl in Hb. rewrite len_app in Hb. unfold content.
      rewrite <- Cd, Hl1. unfold contentOf. lia.
    + by eapply Cm.
Qed.

Lemma compactLocked_spec h :
  loose_wf h ->
  compacts h (compactLocked h) /\ hbytes (compactLocked h) <= maxBytes h.
Proof.
  intros W. unfold compactLocked.
  destruct (compactLoop_spec (length (events h)) h W) as [C B].
  { unfold live, zdrop. rewrite length_drop. lia. }
  set (h1 := compactLoop (length (events h)) h) in *.
  pose proof (co_wf _ _ C) as W1. case_match; bool_hyps.
  - assert (El : live h1 = []) by (apply zdrop_all; lia).
    assert (Hb : hbytes h1 = 0) by (rewrite (hw_bytes _ W1); unfold content; by rewrite El).
    pose proof (co_max _ _ C). pose proof (hw_max _ W1). split; [|simpl; lia].
    destruct C as [_ C2 C3 C4 (d & Cd & Cs & Cm)].
    pose proof (chain_len _ _ _ (hw_chain _ W1)) as Hcl. rewrite El in Hcl.
    change (len (contentOf [])) with 0 in Hcl. destruct W1 as [W1 W2 W3 W4 W5 W6].
    split; try done.
    + split; simpl; try done; lia.
    + exists d. rewrite El in Cd. split; [done|]. split; [done|].
      intros e d0 E. specialize (Cm e d0 E). unfold content in Cm. by rewrite El in Cm.
  - split; [done|]. destruct B; [done|lia].
Qed.

(** ** The operations keep the window *)

(** What appending does to the output kept: [data] goes to the end, whole events
    leave from the front, and no more of them than the limit needs. *)
Record appended (h h' : History) (data : list byte) : Prop := {
  ap_wf : hist_wf h';
  ap_latest : latest h' = latest h + len data;
  ap_max : maxBytes h' = maxBytes h;
  ap_content : exists gone,
    content h ++ data = gone ++ content h' /\
    (gone = [] \/ exists g0 piece, gone = g0 ++ piece /\ maxBytes h < len (piece ++ content h'))
}.

Lemma live_app h e : 0 <= head h <= len (events h) -> zdrop (head h) (events h ++ [e]) = live h ++ [e].
Proof. intros. unfold live. by apply zdrop_app_le. Qed.

Lemma compacts_content h h' :
  compacts h h' -> exists gone, content h = gone ++ content h' /\
    (gone = [] \/ exists g0 piece, gone = g0 ++ piece /\ maxBytes h < len (piece ++ content h')).
Proof.
  intros [_ _ _ _ (d & Cd & _ & Cm)]. exists (contentOf d). unfold content at 1.
  rewrite Cd, contentOf_app. split; [done|].
  destruct d as [|e d0] using rev_ind; [by left|right].
  exists (contentOf d0), (Data e). rewrite contentOf_app. unfold contentOf at 2. simpl.
  rewrite app_nil_r. split; [done|]. rewrite len_app. by eapply Cm.
Qed.

(** [h] with one more event at its end, before compaction. *)
Definition pushed (h : History) (st : Store) (e : Event) : History :=
  h <| store := st |> <| latest := EndSequence e |> <| hbytes := hbytes h +64 len (Data e) |>
    <| events := events h ++ [e] |>.

Lemma pushed_wf h st e :
  hist_wf h -> StartSequence e = latest h -> EndSequence e = latest h + len (Data e) ->
  EndSequence e <= maxUint64 -> loose_wf (pushed h st e) /\ content (pushed h st e) = content h ++ Data e.
Proof.
  intros [W _] E1 E2 E3. pose proof (loose_len _ W) as Hl. destruct W as [Hh Hc Hb Hlo Hhi Hm].
  assert (El : live (pushed h st e) = live h ++ [e]) by exact (live_app h e Hh).
  assert (Ec : content (pushed h st e) = content h ++ Data e).
  { unfold content. rewrite El, contentOf_app. unfold contentOf at 2. simpl. by rewrite app_nil_r. }
  pose proof (len_nonneg (Data e)). pose proof (len_nonneg (content h)).
  split; [|done]. split; simpl; rewrite ?El, ?Ec; try done; try lia.
  - rewrite len_app. pose proof (len_nonneg [e]). lia.
  - apply chain_app. exists (latest h). simpl. rewrite E1, E2. done.
  - rewrite len_app, u64_id; unfold maxUint64, two64 in *; lia.
Qed.

Lemma appendOwned_spec ch data pooled pr h :
  hist_wf h -> 0 < len data <= maxUint64 - latest h ->
  exists h', appendOwned ch data pooled pr h =
    (h', Ok (mkEv ch (latest h) (latest h + len data) data (Some (fresh (store h))))) /\
    appended h h' data.
Proof.
  intros W Hd. unfold appendOwned. rewrite (proj2 (Z.eqb_neq _ _)) by lia.
  rewrite (proj2 (Z.ltb_ge _ _)) by lia. rewrite u64_id
    by (destruct W as [[? ? ? ? ? ?] _]; pose proof (chain_len _ _ _ hw_chain0);
        pose proof (len_nonneg (contentOf (live h))); unfold maxUint64, two64 in *; lia).
  set (e := mkEv _ _ _ _ _). eexists. split; [reflexivity|].
  destruct (pushed_wf h (newOwner pooled pr (store h)) e W) as [Wp Ec]; [done|done|simpl; lia|].
  destruct (compactLocked_spec _ Wp) as [C B]. unfold pushed in *. simpl in *.
  pose proof (compacts_content _ _ C) as Hc. rewrite Ec in Hc.
  destruct C as [C1 C2 C3 _ _]. split; try done. split; [done|]. by rewrite C3.
Qed.

Lemma SetLimit_spec limit h :
  hist_wf h -> 0 < limit <= maxUint64 ->
  exists h', SetLimit limit h = (h', Ok tt) /\ hist_wf h' /\ maxBytes h' = limit /\
    latest h' = latest h /\ exists gone, content h = gone ++ content h'.
Proof.
  intros [W _] Hl. unfold SetLimit. rewrite (proj2 (Z.eqb_neq _ _)) by lia. eexists. split; [done|].
  assert (loose_wf (h <| maxBytes := limit |>)) as W1 by (destruct W; by split).
  destruct (compactLocked_spec _ W1) as [C B].
  destruct (compacts_content _ _ C) as (gone & Hg & _).
  destruct C as [C1 C2 C3 _ _]. split; [split; [done|by rewrite C3]|]. split; [done|]. split; [done|].
  by exists gone.
Qed.

Lemma Clear_spec h : hist_wf h ->
  hist_wf (fst (Clear h)) /\ content (fst (Clear h)) = [] /\ snd (Clear h) = latest h /\
  earliest (fst (Clear h)) = latest h.
Proof.
  intros [[Hh Hc Hb Hlo Hhi Hm] Hx]. pose proof (chain_len _ _ _ Hc).
  pose proof (len_nonneg (contentOf (live h))). split; [|done]. split; [|simpl; lia].
  split; simpl; try done; lia.
Qed.

(** ** Replay *)

(** The part of an event a replay takes. *)
Lemma cut_spec e start end_ :
  0 <= StartSequence e -> EndSequence e = StartSequence e + len (Data e) -> EndSequence e <= maxUint64 ->
  StartSequence e <= start <= end_ -> end_ <= EndSequence e ->
  exists r, cut e start end_ = Some r /\ StartSequence r = start /\ EndSequence r = end_ /\
    owner r = owner e /\ Data r = ztake (end_ - start) (zdrop (start - StartSequence e) (Data e)).
Proof.
  intros H0 H1 H2 H3 H4. unfold cut. rewrite !u64_sub by (unfold maxUint64, two64 in *; lia).
  rewrite slice_Some by lia. eexists. split; [done|]. simpl. repeat split. f_equal. lia.
Qed.

(** What [ReplayOwned] still has to select: the output from [from] on, up to the
    bytes that remain. *)
Definition wanted (from byteLimit remaining a : Z) (es : list Event) : list byte :=
  let rest := zdrop (Z.max from a - a) (contentOf es) in
  if (0 <? byteLimit) then ztake remaining rest else rest.

(** One round of the loop: the event ends before the cursor, or the part of it from the
    cursor on, up to the limit, is put out. *)
Lemma replayLoop_step from byteLimit remaining e es st to acc :
  0 <= StartSequence e -> EndSequence e = StartSequence e + len (Data e) -> EndSequence e <= maxUint64 ->
  (0 < byteLimit -> 0 < remaining <= maxUint64) ->
  let start := Z.max from (StartSequence e) in
  (EndSequence e <= start /\
     replayLoop from byteLimit remaining (e :: es) st to acc = replayLoop from byteLimit remaining es st to acc) \/
  exists r, let en := if (0 <? byteLimit) then Z.min (EndSequence e) (start + remaining) else EndSequence e in
    start < en /\ cut e start en = Some r /\ StartSequence r = start /\ EndSequence r = en /\
    Data r = ztake (en - start) (zdrop (start - StartSequence e) (Data e)) /\
    replayLoop from byteLimit remaining (e :: es) st to acc =
      if (0 <? byteLimit) && (remaining =? en - start) then Some (acc ++ [r], en, Retain e st)
      else replayLoop from byteLimit (if (0 <? byteLimit) then remaining - (en - start) else remaining)
             es (Retain e st) en (acc ++ [r]).
Proof.
  intros H0 H1 H2 Hr start. cbn [replayLoop]. pose proof (len_nonneg (Data e)).
  destruct (Z.leb_spec (EndSequence e) from) as [Hf|Hf]; [left; split; [lia|done]|].
  fold start. rewrite u64_sub by (unfold maxUint64, two64 in *; lia).
  set (en := if (0 <? byteLimit) then Z.min (EndSequence e) (start + remaining) else EndSequence e).
  assert (Een : (if (0 <? byteLimit) && (remaining <? EndSequence e - start) then start +64 remaining else EndSequence e) = en).
  { subst en. destruct (Z.ltb_spec 0 byteLimit); simpl; [|done].
    destruct (Z.ltb_spec remaining (EndSequence e - start)); [|lia].
    rewrite u64_id by (unfold maxUint64, two64 in *; lia). lia. }
  rewrite Een. destruct (Z.ltb_spec start en) as [Hlt|Hge].
  2: { left. split; [|done]. subst en. destruct (Z.ltb_spec 0 byteLimit); lia. }
  assert (Hle : en <= EndSequence e) by (subst en; destruct (0 <? byteLimit); lia).
  destruct (cut_spec e start en) as (r & Hcut & R1 & R2 & _ & R4); try lia.
  right. exists r. split_and!; auto. rewrite Hcut. destruct (Z.ltb_spec 0 byteLimit); [|done].
  rewrite (u64_sub en) by (unfold maxUint64, two64 in *; lia).
  rewrite u64_sub by (unfold maxUint64, two64 in *; subst en; lia). simpl.
  destruct (Z.eqb_spec (remaining - (en - start)) 0), (Z.eqb_spec remaining (en - start)); try lia; done.
Qed.

Lemma replayLoop_spec from byteLimit es : forall remaining st to acc a b,
  chain a es b -> 0 <= a -> b <= maxUint64 ->
  (0 < byteLimit -> 0 < remaining <= maxUint64) -> to = Z.max from a ->
  exists es' to' st', replayLoop from byteLimit remaining es st to acc = Some (acc ++ es', to', st') /\
    contentOf es' = wanted from byteLimit remaining a es /\ chain to es' to'.
Proof.
  induction es as [|e es IH]; intros remaining st to acc a b Hc Ha Hb Hr Hto.
  { exists [], to, st. rewrite app_nil_r. split; [done|]. split; [|done].
    unfold wanted, contentOf, zdrop, ztake. simpl. rewrite drop_nil, take_nil. by case_match. }
  destruct Hc as (E1 & E2 & Hc). pose proof (len_nonneg (Data e)). pose proof (len_nonneg (contentOf es)).
  pose proof (chain_len _ _ _ Hc). unfold wanted. change (contentOf (e :: es)) with (Data e ++ contentOf es).
  destruct (replayLoop_step from byteLimit remaining e es st to acc) as [[Hs ->]|(r & Hlt & _ & R1 & R2 & R4 & ->)]; try lia; rewrite ?E1 in *.
  - destruct (IH remaining st to acc _ _ Hc) as (es' & to' & st' & G1 & G2 & G3); try done; [lia|lia|].
    exists es', to', st'. split; [done|]. split; [|done]. rewrite G2. unfold wanted.
    rewrite zdrop_app_ge by lia. by replace (Z.max from (EndSequence e) - EndSequence e) with (Z.max from a - a - len (Data e)) by lia.
  - set (start := Z.max from a) in *.
    assert (Hse : start < EndSequence e) by (destruct (0 <? byteLimit); lia). rewrite zdrop_app_le by lia.
    assert (Hld : len (zdrop (start - a) (Data e)) = EndSequence e - start) by (rewrite len_zdrop; lia).
    set (en := if (0 <? byteLimit) then _ else _) in *.
    destruct ((0 <? byteLimit) && (remaining =? en - start)) eqn:Ee.
    { bool_hyps. exists [r], en, (Retain e st). split; [done|]. rewrite (proj2 (Z.ltb_lt _ _)) in * by done.
      assert (Hen : en <= EndSequence e) by (subst en; rewrite (proj2 (Z.ltb_lt _ _)) by done; lia).
      unfold contentOf. simpl. rewrite app_nil_r, R2, R4, len_ztake by lia. split; [|lia].
      rewrite ztake_app_le by lia. by f_equal. }
    assert (Hen : en = EndSequence e /\ (0 < byteLimit -> en - start < remaining)).
    { subst en. destruct (Z.ltb_spec 0 byteLimit); simpl in Ee; [apply Z.eqb_neq in Ee|]; lia. }
    clearbody en. destruct Hen as [-> Hrem]. rewrite ztake_all in R4 by lia.
    destruct (IH (if 0 <? byteLimit then remaining - (EndSequence e - start) else remaining) (Retain e st) (EndSequence e)
      (acc ++ [r]) _ _ Hc) as (es' & to' & st' & -> & G2 & G3); [lia|done|destruct (Z.ltb_spec 0 byteLimit); lia|lia|].
    exists (r :: es'), to', st'. rewrite <- app_assoc. split; [done|]. unfold wanted in G2.
    rewrite Z.max_r, Z.sub_diag, zdrop_0 in G2 by lia.
    split; [|simpl; rewrite R2, R4; split_and!; [lia|lia|done]].
    change (contentOf (r :: es')) with (Data r ++ contentOf es'). rewrite G2, R4.
    destruct (Z.ltb_spec 0 byteLimit); [|done]. rewrite ztake_app_ge by lia. by rewrite Hld.
Qed.

Lemma ReplayOwned_spec from limit h :
  hist_wf h -> earliest h <= from <= latest h -> 0 <= limit <= maxUint64 ->
  exists h' es, ReplayOwned from limit h =
      Some (h', Ok (mkReplay from (from + len (contentOf es)) (earliest h) (latest h) es)) /\
    contentOf es = (let rest := zdrop (from - earliest h) (content h) in
                    if (0 <? limit) then ztake limit rest else rest) /\
    chain from es (from + len (contentOf es)).
Proof.
  intros [W _] Hf Hl. unfold ReplayOwned. rewrite !(proj2 (Z.ltb_ge _ _)) by lia.
  destruct W as [Hh Hc Hb Hlo Hhi Hm].
  destruct (replayLoop_spec from limit (live h) limit (store h) from [] _ _ Hc)
    as (es & to & st & -> & E1 & E2); [lia|lia|lia|lia|].
  pose proof (chain_len _ _ _ E2) as ->. simpl. eexists _, es. split; [done|]. split; [|done].
  rewrite E1. unfold wanted. rewrite Z.max_l by lia. done.
Qed.

(** ** Reference counts

    [held] lists the references in existence: the history's own and those handed
    out.  A buffer is in the store exactly while some reference is held. *)
Definition owns (o : Owner) (e : Event) : bool := bool_decide (owner e = Some o).
Definition refCount (o : Owner) (held : list Event) : Z := len (List.filter (owns o) held).

Record refs_ok (st : Store) (held : list Event) : Prop := {
  ro_count o : match owners st !! o with
               | Some b => orefs b = refCount o held /\ 0 < orefs b
               | None => refCount o held = 0
               end;
  ro_fresh o : is_Some (owners st !! o) -> (o < fresh st)%nat;
  ro_returned o : o ∈ returned st -> owners st !! o = None /\ (o < fresh st)%nat
}.

Lemma refCount_cons o e held : refCount o (e :: held) = (if owns o e then 1 else 0) + refCount o held.
Proof. unfold refCount. simpl. destruct (owns o e); [by rewrite len_cons|lia]. Qed.

Lemma refCount_nonneg o held : 0 <= refCount o held.
Proof. apply len_nonneg. Qed.

Lemma refCount_app o a b : refCount o (a ++ b) = refCount o a + refCount o b.
Proof. unfold refCount. by rewrite List.filter_app, len_app. Qed.

Lemma owns_true o e : owns o e = true <-> owner e = Some o.
Proof. unfold owns. by rewrite bool_decide_eq_true. Qed.

Lemma owns_false o e : owns o e = false <-> owner e <> Some o.
Proof. unfold owns. by rewrite bool_decide_eq_false. Qed.

Lemma refs_ok_perm st a b : a ≡ₚ b -> refs_ok st a -> refs_ok st b.
Proof.
  intros Hp [H1 H2 H3]. assert (Hc : forall o, refCount o a = refCount o b).
  { intros o. clear -Hp. induction Hp; rewrite ?refCount_cons; lia. }
  split; [|done|done]. intros o. specialize (H1 o). by rewrite <- Hc.
Qed.

Lemma Retain_ok st held e e' :
  refs_ok st held -> e ∈ held -> owner e' = owner e -> refs_ok (Retain e st) (e' :: held).
Proof.
  intros [H1 H2 H3] Hin Ho. unfold Retain. destruct (owner e) as [o|] eqn:Eo.
  - assert (Hpos : 0 < refCount o held).
    { apply list_elem_of_split in Hin as (a & b & ->). rewrite refCount_app, refCount_cons.
      rewrite (proj2 (owns_true o e)) by done. pose proof (refCount_nonneg o a).
      pose proof (refCount_nonneg o b). lia. }
    pose proof (H1 o) as Ho1. destruct (owners st !! o) as [b|] eqn:Eb; [|lia].
    split; simpl.
    + intros o'. rewrite refCount_cons. destruct (decide (o' = o)) as [->|Hne].
      * rewrite lookup_alter_eq, Eb. simpl. rewrite (proj2 (owns_true o e')) by done. lia.
      * rewrite lookup_alter_ne by done. rewrite (proj2 (owns_false o' e')) by congruence. apply H1.
    + intros o'. rewrite lookup_alter_is_Some. apply H2.
    + intros o' Hr. destruct (H3 o' Hr) as [E1 E2]. split; [|done].
      rewrite lookup_alter_ne; [done|]. congruence.
  - split; [|done|done]. intros o. rewrite refCount_cons, (proj2 (owns_false o e')) by congruence. apply H1.
Qed.

Lemma Release_ok st held e : refs_ok st (e :: held) -> refs_ok (Release e st) held.
Proof.
  intros [H1 H2 H3]. unfold Release. destruct (owner e) as [o|] eqn:Eo.
  - pose proof (H1 o) as Ho. rewrite refCount_cons, (proj2 (owns_true o e)) in Ho by done.
    pose proof (refCount_nonneg o held).
    destruct (owners st !! o) as [b|] eqn:Eb; [|lia].
    assert (Hother : forall o', o' <> o -> owns o' e = false) by (intros; apply owns_false; congruence).
    case_match; bool_hyps.
    + split; simpl.
      * intros o'. destruct (decide (o' = o)) as [->|Hne]; [rewrite lookup_delete_eq; lia|].
        rewrite lookup_delete_ne by done. specialize (H1 o').
        by rewrite refCount_cons, Hother in H1 by done.
      * intros o' Hs. apply H2. rewrite lookup_delete_is_Some in Hs. tauto.
      * intros o' Hr. destruct (decide (o' = o)) as [->|Hne].
        -- split; [apply lookup_delete_eq|]. apply H2. by rewrite Eb.
        -- assert (o' ∈ returned st) as Hr' by (destruct (opool b); [by apply elem_of_cons in Hr as [|]|done]).
           rewrite lookup_delete_ne by done. by apply H3.
    + split; simpl.
      * intros o'. destruct (decide (o' = o)) as [->|Hne]; [rewrite lookup_insert_eq; simpl; lia|].
        rewrite lookup_insert_ne by done. specialize (H1 o').
        by rewrite refCount_cons, Hother in H1 by done.
      * intros o' Hs. destruct (decide (o' = o)) as [->|Hne]; [apply H2; by rewrite Eb|].
        rewrite lookup_insert_ne in Hs by done. by apply H2.
      * intros o' Hr. destruct (H3 o' Hr) as [E1 E2]. split; [|done].
        rewrite lookup_insert_ne; [done|]. congruence.
  - split; [|done|done]. intros o. specialize (H1 o).
    by rewrite refCount_cons, (proj2 (owns_false o e)) in H1 by congruence.
Qed.

Lemma ReleaseAll_ok d : forall st held, refs_ok st (d ++ held) -> refs_ok (ReleaseAll d st) held.
Proof.
  unfold ReleaseAll. induction d as [|e d IH]; simpl; intros st held H; [done|].
  apply IH. by apply Release_ok.
Qed.

Lemma newOwner_ok pooled pr st held e :
  refs_ok st held -> owner e = Some (fresh st) ->
  refs_ok (newOwner pooled pr st) ((if pr then [e] else []) ++ e :: held).
Proof.
  intros [H1 H2 H3] Eo. pose proof (H1 (fresh st)) as Hf.
  destruct (owners st !! fresh st) eqn:Ef; [by apply mk_is_Some, H2, Nat.lt_irrefl in Ef|].
  split; simpl.
  - intros o. rewrite refCount_app, refCount_cons. destruct (decide (o = fresh st)) as [->|Hne].
    + rewrite lookup_insert_eq. simpl. rewrite (proj2 (owns_true _ e)), Hf by done.
      destruct pr; [rewrite refCount_cons, (proj2 (owns_true _ e)) by done|];
        change (refCount (fresh st) []) with 0; lia.
    + rewrite lookup_insert_ne by done. rewrite (proj2 (owns_false o e)) by congruence.
      replace (refCount o (if pr then [e] else [])) with 0; [apply H1|].
      destruct pr; [|done]. by rewrite refCount_cons, (proj2 (owns_false o e)) by congruence.
  - intros o Hs. destruct (decide (o = fresh st)) as [->|Hne]; [lia|].
    rewrite lookup_insert_ne in Hs by done. apply H2 in Hs. lia.
  - intros o Hr. destruct (H3 o Hr) as [E1 E2]. rewrite lookup_insert_ne by lia.
    split; [done|lia].
Qed.

Lemma replayLoop_refs from byteLimit es : forall remaining st to acc held out to' st',
  replayLoop from byteLimit remaining es st to acc = Some (out, to', st') ->
  es ⊆ held -> refs_ok st held -> exists es', out = acc ++ es' /\ refs_ok st' (es' ++ held).
Proof.
  induction es as [|e es IH]; simpl; intros remaining st to acc held out to' st' H Hin Hok.
  { injection H as <- _ <-. exists []. by rewrite app_nil_r. }
  assert (He : e ∈ held) by (apply Hin; left).
  assert (Hes : es ⊆ held) by (intros x Hx; apply Hin; by right).
  case_match; [by eapply IH|]. case_match; [|by eapply IH].
  destruct (cut e _ _) as [r|] eqn:Ec; [|done].
  assert (Hr : owner r = owner e) by (revert Ec; unfold cut; destruct (slice _ _ _); [by intros [= <-]|done]).
  pose proof (Retain_ok _ _ _ _ Hok He Hr) as Hok'.
  assert (Hes' : es ⊆ r :: held) by (intros x Hx; right; by apply Hes).
  assert (Hmore : forall rem t, replayLoop from byteLimit rem es (Retain e st) t (acc ++ [r]) = Some (out, to', st') ->
    exists es', out = acc ++ es' /\ refs_ok st' (es' ++ held)).
  { intros rem t Hm. destruct (IH _ _ _ _ _ _ _ _ Hm Hes' Hok') as (es' & -> & Hok2).
    exists (r :: es'). rewrite <- app_assoc. split; [done|].
    eapply refs_ok_perm; [|exact Hok2]. by rewrite <- Permutation_middle. }
  case_match; [|by eapply Hmore]. case_match; [|by eapply Hmore].
  injection H as <- _ <-. by exists [r].
Qed.

(** ** Runs of a history and its consumers *)
Inductive HistOp :=
| OpAppend (ch : byte) (data : list byte) (pooled producerReference : bool)
| OpReplay (from limit : Z)
| OpRelease (i : nat)          (** a consumer gives its reference back *)
| OpSetLimit (limit : Z)
| OpClear
| OpAck (id : string) (next : Z).

(** The history with the references its consumers hold. *)
Definition histOp (op : HistOp) (s : History * list Event) : option (History * list Event) :=
  let '(h, out) := s in
  match op with
  | OpAppend ch data pooled pr =>
      match appendOwned ch data pooled pr h with
      | (h1, Ok e) => Some (h1, if pr && negb (len data =? 0) then e :: out else out)
      | (h1, Err _) => Some (h1, out)
      end
  | OpReplay from limit =>
      match ReplayOwned from limit h with
      | Some (h1, Ok r) => Some (h1, rEvents r ++ out)
      | Some (h1, Err _) => Some (h1, out)
      | None => None
      end
  | OpRelease i =>
      match out !! i with
      | Some e => Some (h <| store := Release e (store h) |>, delete i out)
      | None => Some (h, out)
      end
  | OpSetLimit limit => Some (fst (SetLimit limit h), out)
  | OpClear => Some (fst (Clear h), out)
  | OpAck id next => Some (fst (Acknowledge id next h), out)
  end.

Fixpoint histRun (ops : list HistOp) (s : History * list Event) : option (History * list Event) :=
  match ops with
  | [] => Some s
  | op :: rest => match histOp op s with Some s1 => histRun rest s1 | None => None end
  end.

Definition opWord (op : HistOp) : bool :=
  match op with
  | OpReplay _ limit | OpSetLimit limit => (0 <=? limit) && (limit <=? maxUint64)
  | _ => true
  end.

Definition hist_inv (s : History * list Event) : Prop :=
  hist_wf s.1 /\ refs_ok (store s.1) (live s.1 ++ s.2).

Lemma compacts_refs h h' out :
  compacts h h' -> refs_ok (store h) (live h ++ out) -> refs_ok (store h') (live h' ++ out).
Proof.
  intros [_ _ _ _ (d & Cd & -> & _)]. rewrite Cd, <- app_assoc. apply ReleaseAll_ok.
Qed.

Lemma append_refs ch data pooled pr h out :
  hist_wf h -> refs_ok (store h) (live h ++ out) -> 0 < len data <= maxUint64 - latest h ->
  forall h' e, appendOwned ch data pooled pr h = (h', Ok e) ->
  refs_ok (store h') (live h' ++ if pr then e :: out else out).
Proof.
  intros W Hok Hd h' e. unfold appendOwned.
  rewrite (proj2 (Z.eqb_neq _ _)) by lia. rewrite (proj2 (Z.ltb_ge _ _)) by lia.
  pose proof (loose_len _ (proj1 W)). pose proof (len_nonneg (content h)).
  pose proof (hw_low _ (proj1 W)). rewrite u64_id by (unfold maxUint64, two64 in *; lia).
  set (ev := mkEv _ _ _ _ _). intros [= <- <-].
  destruct (pushed_wf h (newOwner pooled pr (store h)) ev W) as [Wp _]; [done|done|simpl; lia|].
  destruct (compactLocked_spec _ Wp) as [C _].
  apply (compacts_refs _ _ _ C).
  pose proof (newOwner_ok pooled pr _ _ ev Hok eq_refl) as Hn.
  eapply refs_ok_perm; [|exact Hn].
  replace (live (pushed _ _ _)) with (live h ++ [ev]) by (symmetry; exact (live_app h ev (hw_head _ (proj1 W)))).
  destruct pr; simpl; solve_Permutation.
Qed.

Lemma histOp_inv op s s' :
  histOp op s = Some s' -> opWord op = true -> hist_inv s -> hist_inv s'.
Proof.
  destruct s as [h out]. unfold hist_inv. simpl. intros H Hop [W R]. destruct op; simpl in H.
  - destruct (Z.eq_dec (len data) 0) as [Hz|Hz].
    { unfold appendOwned in H. rewrite Hz in H. simpl in H. injection H as <-.
      by rewrite andb_false_r. }
    destruct (Z.le_gt_cases (len data) (maxUint64 - latest h)) as [Hd|Hd].
    2: { unfold appendOwned in H. rewrite (proj2 (Z.eqb_neq _ _)) in H by done.
         rewrite (proj2 (Z.ltb_lt _ _)) in H by lia. by injection H as <-. }
    pose proof (len_nonneg data).
    destruct (appendOwned_spec ch data pooled producerReference h W ltac:(lia)) as (h' & E & A).
    pose proof (append_refs ch data pooled producerReference h out W R ltac:(lia) _ _ E) as Hr.
    rewrite E in H. injection H as <-. split; [apply A|].
    rewrite (proj2 (Z.eqb_neq _ _)) by done. rewrite andb_true_r. done.
  - unfold ReplayOwned in H. destruct (from <? earliest h); [by injection H as <-|].
    destruct (latest h <? from); [by injection H as <-|].
    destruct (replayLoop _ _ _ _ _ _ _) as [[[es to] st]|] eqn:E; [|done]. injection H as <-. simpl.
    destruct (replayLoop_refs _ _ _ _ _ _ _ (live h ++ out) _ _ _ E) as (es' & -> & Hr); [|done|].
    { intros x Hx. apply elem_of_app. by left. }
    split; [destruct W as [[]]; by split|]. simpl. eapply refs_ok_perm; [|exact Hr]. simpl.
    change (live (h <| store := st |>)) with (live h). solve_Permutation.
  - destruct (out !! i) as [e|] eqn:E; injection H as <-; simpl; [|done].
    split; [destruct W as [[]]; by split|]. simpl. apply Release_ok.
    eapply refs_ok_perm; [|exact R].
    change (live (h <| store := Release e (store h) |>)) with (live h).
    rewrite (delete_Permutation out i e) at 1 by done. by rewrite Permutation_middle.
  - injection H as <-. destruct (Z.eq_dec limit 0) as [->|Hl]; [done|]. simpl in Hop. bool_hyps.
    destruct (SetLimit_spec limit h W ltac:(lia)) as (h' & E & W' & _). rewrite E. split; [done|].
    unfold SetLimit in E. rewrite (proj2 (Z.eqb_neq _ _)) in E by done. injection E as <-.
    assert (loose_wf (h <| maxBytes := limit |>)) as W1
      by (destruct W as [[? ? ? ? ? ?] _]; split; try done; simpl; lia).
    destruct (compactLocked_spec _ W1) as [C _]. by apply (compacts_refs _ _ _ C).
  - injection H as <-. split; [by apply Clear_spec|]. by apply ReleaseAll_ok.
  - injection H as <-. unfold Acknowledge. case_match; [done|]. split; [destruct W as [[]]; by split|done].
Qed.

Lemma histRun_inv ops : forall s s',
  histRun ops s = Some s' -> forallb opWord ops = true -> hist_inv s -> hist_inv s'.
Proof.
  induction ops as [|op ops IH]; simpl; intros s s' H Hw I; [by injection H as <-|].
  apply andb_true_iff in Hw as [Hw1 Hw2].
  destruct (histOp op s) as [s1|] eqn:E; [|done]. eapply IH; eauto using histOp_inv.
Qed.

Definition emptyStore : Store := mkStore ∅ 0 [].

Lemma New_inv limit h :
  New emptyStore limit = Ok h -> 0 <= limit <= maxUint64 -> hist_inv (h, []).
Proof.
  unfold New. case_match; [done|]. intros [= <-] Hl. bool_hyps. split.
  - split; [|simpl; lia]. split; simpl; try done; lia.
  - split; simpl; [done| |by intros o ?%elem_of_nil]. intros o. by intros [? ?].
Qed.

(** [Restore]'s loop on contiguous events keeps them all. *)
Lemma restoreLoop_chain es : forall h b,
  chain (latest h) es b -> 0 <= latest h -> b <= maxUint64 ->
  0 <= hbytes h /\ hbytes h + len (contentOf es) <= maxUint64 -> head h = 0 ->
  exists h', restoreLoop es h = Ok h' /\ latest h' = b /\ hbytes h' = hbytes h + len (contentOf es) /\
    earliest h' = earliest h /\ maxBytes h' = maxBytes h /\
    (head h' = 0 /\ events h' = events h ++ map cloneEvent es).
Proof.
  induction es as [|e es IH]; simpl; intros h b Hc Hlo Hhi Hb Hh.
  - exists h. change (len (contentOf [])) with 0. rewrite app_nil_r, Z.add_0_r.
    repeat (split; [done|]). done.
  - destruct Hc as (E1 & E2 & Hc). pose proof (chain_len _ _ _ Hc). pose proof (len_nonneg (Data e)).
    pose proof (len_nonneg (contentOf es)). change (contentOf (e :: es)) with (Data e ++ contentOf es) in *.
    rewrite len_app in *. rewrite E1, Z.eqb_refl. simpl.
    rewrite u64_sub by (unfold maxUint64, two64 in *; lia). rewrite (proj2 (Z.eqb_eq _ _)) by lia. simpl.
    rewrite u64_id by (unfold maxUint64, two64 in *; lia).
    destruct (IH (h <| events := events h ++ [cloneEvent e] |> <| hbytes := hbytes h + len (Data e) |>
                    <| latest := EndSequence e |>) b) as (h' & E & F1 & F2 & F3 & F4 & F5 & F6);
      simpl; try done; try lia.
    exists h'. split; [done|]. split; [done|]. simpl in F2. split; [lia|].
    repeat (split; [done|]). rewrite F6. simpl. by rewrite <- app_assoc.
Qed.

(** ** The theorems *)
Section runs.
Variables (limit : Z) (ops : list HistOp) (h0 h : History) (held : list Event).
Hypothesis (Hlimit : 0 <= limit <= maxUint64) (HNew : New emptyStore limit = Ok h0)
  (Hops : forallb opWord ops = true) (Hrun : histRun ops (h0, []) = Some (h, held)).

Lemma reached_inv : hist_inv (h, held).
Proof. eapply histRun_inv; [exact Hrun|done|by eapply New_inv]. Qed.

(** [AppendOwned] and [AppendBuffer] put the data at the end of the output,
    numbered from [latest], and compaction removes whole events from the front,
    never more than the limit needs: the retained bytes stay within the limit,
    and if anything was removed, keeping its last event would have exceeded it. *)
Theorem append_window (ch : byte) (data : list byte) (pooled pr : bool) :
  0 < len data <= maxUint64 - latest h ->
  exists h' e gone, appendOwned ch data pooled pr h = (h', Ok e) /\
    StartSequence e = latest h /\ EndSequence e = latest h' /\ Data e = data /\
    latest h' = latest h + len data /\ hbytes h' = len (content h') /\ hbytes h' <= maxBytes h /\
    earliest h' + len (content h') = latest h' /\
    content h ++ data = gone ++ content h' /\
    (gone = [] \/ exists g0 piece, gone = g0 ++ piece /\ maxBytes h < len (piece ++ content h')).
Proof.
  intros Hd. destruct reached_inv as [W _].
  destruct (appendOwned_spec ch data pooled pr h W Hd) as (h' & E & A).
  destruct A as [[W' B] A2 A3 (gone & A4 & A5)]. rewrite A3 in B.
  pose proof (loose_len _ W'). pose proof (hw_bytes _ W').
  exists h'. eexists _, gone. split; [exact E|]. simpl. repeat (split; [done || lia|]). done.
Qed.

(** [ReplayOwned] returns exactly the retained output from the cursor on, cut
    at the byte limit (none when it is 0), as contiguous events whose end is
    [ToSequence]; a cursor before the window is a [GapError] that names the
    window, one beyond it is [ErrInvalidCursor]; no slice is out of range. *)
Theorem replay_exact (from lim : Z) :
  0 <= lim <= maxUint64 ->
  match ReplayOwned from lim h with
  | None => False
  | Some (h', Err e) =>
      h' = h /\ ((from < earliest h /\ e = GapError from (earliest h) (latest h)) \/
                 (latest h < from /\ e = ErrInvalidCursor))
  | Some (h', Ok r) =>
      earliest h <= from <= latest h /\ content h' = content h /\
      contentOf (rEvents r) = (let rest := zdrop (from - earliest h) (content h) in
                               if (0 <? lim) then ztake lim rest else rest) /\
      FromSequence r = from /\ ToSequence r = from + len (contentOf (rEvents r)) /\
      chain from (rEvents r) (ToSequence r)
  end.
Proof.
  intros Hl. destruct reached_inv as [W _].
  destruct (Z.lt_ge_cases from (earliest h)) as [H1|H1].
  { unfold ReplayOwned. rewrite (proj2 (Z.ltb_lt _ _)) by done. auto. }
  destruct (Z.lt_ge_cases (latest h) from) as [H2|H2].
  { unfold ReplayOwned. rewrite (proj2 (Z.ltb_ge _ _)) by done. rewrite (proj2 (Z.ltb_lt _ _)) by done. auto. }
  destruct (ReplayOwned_spec from lim h W ltac:(lia) Hl) as (h' & es & E & E1 & E2). rewrite E. simpl.
  assert (content h' = content h) as ->.
  { unfold ReplayOwned in E. rewrite !(proj2 (Z.ltb_ge _ _)) in E by done.
    destruct (replayLoop _ _ _ _ _ _ _) as [[[? ?] ?]|]; [|done]. by injection E as <- _. }
  repeat (split; [done|]). done.
Qed.

(** A buffer is given back to the pool only when no reference is left: no
    event in the history or in a consumer's hands uses a returned buffer, and
    every buffer in use counts exactly its references. *)
Theorem history_refcounts (o : Owner) :
  (forall e, e ∈ live h ++ held -> owner e = Some o -> o ∉ returned (store h)) /\
  (forall b, owners (store h) !! o = Some b -> orefs b = refCount o (live h ++ held) /\ 0 < orefs b).
Proof.
  destruct reached_inv as [_ [R1 R2 R3]]. simpl in *. split.
  - intros e Hin Ho Hret. destruct (R3 o Hret) as [E _]. pose proof (R1 o) as Hc. rewrite E in Hc.
    apply list_elem_of_split in Hin as (a & b & Hs). rewrite Hs, refCount_app, refCount_cons in Hc.
    rewrite (proj2 (owns_true o e)) in Hc by done.
    pose proof (refCount_nonneg o a). pose proof (refCount_nonneg o b). lia.
  - intros b Hb. pose proof (R1 o) as Hc. by rewrite Hb in Hc.
Qed.

(** A history written out and restored is the same history: [Restore] accepts
    the retained events and keeps the bounds, the content and the limit. *)
Theorem restore_roundtrip :
  exists h', Restore emptyStore (maxBytes h) (earliest h) (latest h) (live h) = Ok h' /\
    Bounds h' = Bounds h /\ content h' = content h /\ maxBytes h' = maxBytes h.
Proof.
  destruct reached_inv as [[W B] _]. simpl in *. unfold Restore, New.
  pose proof (loose_len _ W). pose proof (len_nonneg (content h)). pose proof (hw_max _ W).
  rewrite (proj2 (Z.eqb_neq _ _)) by lia. rewrite (proj2 (Z.ltb_ge _ _)) by lia.
  destruct (restoreLoop_chain (live h) (mkHistory (maxBytes h) 0 (earliest h) (earliest h) [] 0 ∅ emptyStore)
              (latest h)) as (h' & E & E1 & E2 & E3 & E4 & E5).
  - apply W.
  - simpl. apply W.
  - apply W.
  - simpl. fold (content h). destruct W. unfold maxUint64 in *. lia.
  - done.
  - simpl in *. rewrite E. fold (content h) in E2. pose proof (hw_bytes _ W) as Hb.
    rewrite E1, Z.eqb_refl. rewrite (proj2 (Z.ltb_ge _ _)) by lia.
    exists h'. split; [done|]. unfold Bounds. split; [by rewrite E1, E3, E2, Hb|]. split; [|done].
    unfold content, live. rewrite (proj1 E5), zdrop_0, (proj2 E5). simpl.
    unfold contentOf. rewrite map_map. done.
Qed.
End runs.

(** ** Acknowledgements *)

(** An acknowledgement is refused without effect unless it names an attachment,
    lies within the output and does not go back; accepted, it is what
    [Acknowledged] reports and no other attachment's changes. *)
Theorem acknowledge_monotone (id id' : string) (next : Z) (h : History) :
  let h' := fst (Acknowledge id next h) in
  (is_ok (snd (Acknowledge id next h)) = true <->
     id <> EmptyString /\ ackOf id h <= next <= latest h) /\
  (is_ok (snd (Acknowledge id next h)) = false -> h' = h) /\
  (is_ok (snd (Acknowledge id next h)) = true -> Acknowledged id h' = (next, true)) /\
  ackOf id' h <= ackOf id' h' /\ (id' <> id -> Acknowledged id' h' = Acknowledged id' h).
Proof.
  unfold Acknowledge. destruct (_ || _) eqn:E; simpl.
  - bool_hyps. split; [|split; [done|split; [done|split; [lia|done]]]].
    split; [done|]. intros [Hid Hn]. rewrite !orb_true_iff in E. destruct E as [[E|E]|E]; bool_hyps; lia || done.
  - bool_hyps. split; [split; [split; [done|lia]|done]|].
    unfold ackOf, Acknowledged. simpl. split; [done|]. rewrite lookup_insert_eq. split; [done|].
    split; [|intros; by rewrite lookup_insert_ne].
    destruct (decide (id' = id)) as [->|Hne]; [rewrite lookup_insert_eq; unfold ackOf in *; simpl; lia|].
    by rewrite lookup_insert_ne.
Qed.

(** ** The dead prefix of [events] *)
Fixpoint appendMany (n : nat) (h : History) : History :=
  match n with O => h | S k => appendMany k (fst (AppendOwned Byte.x01 [Byte.x78] h)) end.

(** One byte retained in the last of [m] slots. *)
Record one_live (m : Z) (h : History) : Prop := {
  ol_len : len (events h) = m;
  ol_head : head h = m - 1;
  ol_bytes : hbytes h = 1;
  ol_max : maxBytes h = 1;
  ol_latest : latest h = m;
  ol_last : len (Data (nth (Z.to_nat (m - 1)) (events h) zeroEvent)) = 1
}.

Lemma one_live_append m h :
  one_live m h -> 1 <= m < maxUint64 -> one_live (m + 1) (fst (AppendOwned Byte.x01 [Byte.x78] h)).
Proof.
  intros [H1 H2 H3 H4 H5 H6] Hm. unfold AppendOwned, appendOwned.
  change (len [Byte.x78]) with 1. simpl (1 =? 0). cbv iota.
  rewrite (proj2 (Z.ltb_ge _ _)) by lia. cbn [fst EndSequence].
  set (e := mkEv _ _ _ _ _). set (h1 := set_field events _ _).
  assert (Hn : nth (Z.to_nat (m - 1)) (events h ++ [e]) zeroEvent = nth (Z.to_nat (m - 1)) (events h) zeroEvent)
    by (apply app_nth1; unfold len in H1; lia).
  assert (Hl : len (events h ++ [e]) = m + 1) by (rewrite len_app, H1; reflexivity).
  unfold compactLocked. assert (exists k, length (events h1) = S (S k)) as [k ->].
  { exists (Z.to_nat (m - 1)). change (events h1) with (events h ++ [e]). unfold len in Hl. lia. }
  assert (E1 : compactLoop (S (S k)) h1 = dropHead h1).
  { cbn [compactLoop]. change (maxBytes h1) with (maxBytes h). change (head h1) with (head h).
    change (hbytes h1) with (hbytes h +64 1). change (events h1) with (events h ++ [e]).
    rewrite H2, H3, H4, Hl. change (1 +64 1) with 2. rewrite (proj2 (Z.ltb_lt (m - 1) _)) by lia.
    simpl ((1 <? 2) && true). cbv iota. unfold dropHead at 1 2 3 4. simpl.
    rewrite H2, H3, H4, Hn, H6. change (1 +64 1) with 2. change (2 -64 1) with 1. done. }
  rewrite E1. unfold dropHead. simpl. rewrite H2, H3, Hn, H6.
  assert (Hi : len (<[Z.to_nat (m - 1) := zeroEvent]> (events h ++ [e])) = m + 1)
    by (unfold len in *; rewrite length_insert; lia).
  rewrite Hi. rewrite (proj2 (Z.eqb_neq _ _)) by lia. split; simpl; try done; try lia.
  - rewrite H5. apply u64_id. unfold maxUint64, two64 in *. lia.
  - replace (m + 1 - 1) with m by lia. rewrite (nth_lookup_Some _ _ _ e); [done|].
    rewrite list_lookup_insert_ne by lia. rewrite lookup_app_r by (unfold len in H1; lia).
    unfold len in H1. by replace (Z.to_nat m - length (events h))%nat with 0%nat by lia.
Qed.

Lemma appendMany_live n : forall m h,
  one_live m h -> 1 <= m -> m + Z.of_nat n <= maxUint64 -> one_live (m + Z.of_nat n) (appendMany n h).
Proof.
  induction n as [|n IH]; simpl; intros m h H Hm Hn; [by rewrite Z.add_0_r|].
  replace (m + Z.of_nat (S n)) with (m + 1 + Z.of_nat n) by lia.
  apply IH; [apply one_live_append; [done|lia]|lia|lia].
Qed.

(** The slots before [head] are cleared and never reclaimed while anything is
    retained: after [n] one-byte appends with a limit of one byte the history
    keeps one byte and a slice of [n] slots, so memory grows with the output. *)
Theorem dead_prefix_grows (n : nat) :
  Z.of_nat (S n) <= maxUint64 ->
  exists h0, New emptyStore 1 = Ok h0 /\
    len (events (appendMany (S n) h0)) = Z.of_nat (S n) /\
    len (live (appendMany (S n) h0)) = 1 /\ hbytes (appendMany (S n) h0) = 1.
Proof.
  intros Hn. eexists. split; [reflexivity|].
  change (appendMany (S n) _) with
    (appendMany n (fst (AppendOwned Byte.x01 [Byte.x78] (mkHistory 1 0 0 0 [] 0 ∅ emptyStore)))).
  destruct (appendMany_live n 1 (fst (AppendOwned Byte.x01 [Byte.x78] (mkHistory 1 0 0 0 [] 0 ∅ emptyStore))))
    as [H1 H2 H3 _ _ _]; [by split|lia|lia|].
  split; [lia|]. split; [|done]. unfold live. rewrite len_zdrop; lia.
Qed.

Lemma dead_prefix_grows_witness :
  exists h0, New emptyStore 1 = Ok h0 /\ len (events (appendMany 100 h0)) = 100 /\
    len (live (appendMany 100 h0)) = 1 /\ hbytes (appendMany 100 h0) = 1.
Proof. apply (dead_prefix_grows 99). vm_compute. discriminate. Defined.

(** ** The theorems on a concrete history *)
Definition demoOps : list HistOp :=
  [OpAppend Byte.x01 (bytes "hello") true true; OpAppend Byte.x01 (bytes "world") false false;
   OpReplay 5 6; OpRelease 1; OpAppend Byte.x01 (bytes "!!") true true].

Definition demoH0 : History := mkHistory 8 0 0 0 [] 0 ∅ emptyStore.
Definition demoState : History * list Event := default (demoH0, []) (histRun demoOps (demoH0, [])).

Lemma append_window_witness :
  exists h' e gone, appendOwned Byte.x01 (bytes "more") true true (fst demoState) = (h', Ok e) /\
    StartSequence e = latest (fst demoState) /\ EndSequence e = latest h' /\ Data e = bytes "more" /\
    latest h' = latest (fst demoState) + 4 /\ hbytes h' = len (content h') /\
    hbytes h' <= maxBytes (fst demoState) /\ earliest h' + len (content h') = latest h' /\
    content (fst demoState) ++ bytes "more" = gone ++ content h' /\
    (gone = [] \/ exists g0 piece, gone = g0 ++ piece /\
       maxBytes (fst demoState) < len (piece ++ content h')).
Proof.
  apply (append_window 8 demoOps demoH0 (fst demoState) (snd demoState)).
  - unfold maxUint64, two64. lia.
  - reflexivity.
  - reflexivity.
  - vm_compute. reflexivity.
  - vm_compute. split; [reflexivity|discriminate].
Defined.

Lemma replay_exact_witness :
  match ReplayOwned 6 3 (fst demoState) with
  | Some (_, Ok r) => contentOf (rEvents r) = bytes "orl"
  | _ => False
  end.
Proof.
  pose proof (replay_exact 8 demoOps demoH0 (fst demoState) (snd demoState)
    ltac:(unfold maxUint64, two64; lia) eq_refl eq_refl ltac:(vm_compute; reflexivity) 6 3
    ltac:(unfold maxUint64, two64; lia)) as H.
  destruct (ReplayOwned 6 3 (fst demoState)) as [[h' [r|e]]|] eqn:E; [|exfalso|done].
  - destruct H as (_ & _ & Hc & _). rewrite Hc. vm_compute. reflexivity.
  - vm_compute in E. discriminate E.
Defined.

Lemma history_refcounts_witness :
  owners (store (fst demoState)) !! 1%nat = Some (mkOwned 2 false) /\
  ((forall e, e ∈ live (fst demoState) ++ snd demoState -> owner e = Some 1%nat ->
      1%nat ∉ returned (store (fst demoState))) /\
   (forall b, owners (store (fst demoState)) !! 1%nat = Some b ->
      orefs b = refCount 1 (live (fst demoState) ++ snd demoState) /\ 0 < orefs b)).
Proof.
  split; [vm_compute; reflexivity|].
  apply (history_refcounts 8 demoOps demoH0 (fst demoState) (snd demoState)).
  - unfold maxUint64, two64. lia.
  - reflexivity.
  - reflexivity.
  - vm_compute. reflexivity.
Defined.

Lemma restore_roundtrip_witness :
  exists h', Restore emptyStore (maxBytes (fst demoState)) (earliest (fst demoState))
      (latest (fst demoState)) (live (fst demoState)) = Ok h' /\
    Bounds h' = Bounds (fst demoState) /\ content h' = content (fst demoState) /\
    maxBytes h' = maxBytes (fst demoState).
Proof.
  apply (restore_roundtrip 8 demoOps demoH0 (fst demoState) (snd demoState)).
  - unfold maxUint64, two64. lia.
  - reflexivity.
  - reflexivity.
  - vm_compute. reflexivity.
Defined.
