(* ===== verification/Fanout.v ===== *)
(** * Output fanout

    Models [internal/hostruntime/session/fanout.go]: one ordered ring of output
    events shared by the attachments of a session, each with a cursor and a
    bounded queue.  A slow attachment is evicted instead of blocking the others.

    The log of the session's output (what [History] has been appended) is the
    reference: an attachment gets the log from the point where it was attached,
    byte for byte and in order, and nothing is dropped from the ring while an
    attachment still has it to read ([FanoutProps]). *)
From S2P Require Import Prelude History.

Inductive AttachmentState := Attaching | Attached | Detached | Evicted.
#[export] Instance AttachmentState_eq_dec : EqDecision AttachmentState.
Proof. solve_decision. Defined.

Inductive FanError :=
| ErrAttachmentExists | ErrAttachmentUnknown | ErrAttachmentEvicted | ErrOutputOrder
| ErrInvalidQueueLimit | ErrInvalidTransition.

Record Eviction := mkEviction { evAttachment : string; evQueued : Z }.

(** [notify] is a channel of capacity one: whether it holds a signal. *)
Record attachmentCursor := mkCursor {
  state : AttachmentState; cmax : Z; queuedBytes : Z; evictedBytes : Z;
  cursor : Z; enqueuedEnd : Z; hasCursor : bool; cnotify : bool }.
#[export] Instance attachmentCursor_eta : Eta attachmentCursor := fun c =>
  mkCursor (state c) (cmax c) (queuedBytes c) (evictedBytes c) (cursor c) (enqueuedEnd c)
    (hasCursor c) (cnotify c).

Record Fanout := mkFanout {
  attachments : gmap string attachmentCursor;
  activeSet : gset string;
  ring : list Event;
  fstore : Store }.
#[export] Instance Fanout_eta : Eta Fanout :=
  fun f => mkFanout (attachments f) (activeSet f) (ring f) (fstore f).

Definition NewFanout (st : Store) : Fanout := mkFanout ∅ ∅ [] st.

Definition isAttached (c : attachmentCursor) : bool := bool_decide (state c = Attached).

(** ** The ring *)

(** The cursors [compactLocked] must keep the ring for. *)
Definition reading (c : attachmentCursor) : bool := isAttached c && hasCursor c.

(** The least cursor, [None] if no attachment reads. *)
Definition minimum (m : gmap string attachmentCursor) : option Z :=
  map_fold (fun _ c acc =>
    if reading c then
      match acc with
      | None => Some (cursor c)
      | Some x => if (cursor c <? x) then Some (cursor c) else Some x
      end
    else acc) None m.

(** The events [compactLocked] releases, and those it keeps. *)
Fixpoint splitRing (least : Z) (r : list Event) : list Event * list Event :=
  match r with
  | [] => ([], [])
  | e :: rest =>
      if (EndSequence e <=? least) then let '(a, b) := splitRing least rest in (e :: a, b)
      else ([], r)
  end.

Definition compactRing (f : Fanout) : Fanout :=
  match minimum (attachments f) with
  | None => f <| fstore := ReleaseAll (ring f) (fstore f) |> <| ring := [] |>
  | Some least =>
      let '(gone, kept) := splitRing least (ring f) in
      f <| fstore := ReleaseAll gone (fstore f) |> <| ring := kept |>
  end.

(** [sort.Search]: the least index of [0, n) where [p] holds, by bisection. *)
Fixpoint searchLoop (fuel : nat) (p : nat -> bool) (i j : nat) : nat :=
  match fuel with
  | O => i
  | S k =>
      if (i <? j)%nat then
        let h := ((i + j) / 2)%nat in
        if p h then searchLoop k p i h else searchLoop k p (S h) j
      else i
  end.

Definition sortSearch (n : nat) (p : nat -> bool) : nat := searchLoop n p 0 n.

Definition eventAtLocked (sequence : Z) (r : list Event) : option Event :=
  let index := sortSearch (length r)
    (fun i => (sequence <? EndSequence (nth i r zeroEvent))) in
  if (index =? length r)%nat || (sequence <? StartSequence (nth index r zeroEvent)) then None
  else Some (nth index r zeroEvent).

(** The order [sort.Slice] sorts by. *)
Definition before (a b : Event) : bool :=
  if (StartSequence a =? StartSequence b) then (EndSequence b <? EndSequence a)
  else (StartSequence a <? StartSequence b).

(** Sorting by insertion; [sort.Slice] may use any method. *)
Fixpoint insertSorted (e : Event) (l : list Event) : list Event :=
  match l with
  | [] => [e]
  | x :: rest => if before x e then x :: insertSorted e rest else e :: l
  end.

Definition sortSlice (l : list Event) : list Event := fold_right insertSorted [] l.

(** [bytes.Equal(outer.Data[inner.Start-outer.Start : inner.End-outer.Start], inner.Data)]
    when [inner] lies inside [outer]; [None] where the slice is out of range. *)
Definition covers (outer inner : Event) : option bool :=
  if (StartSequence outer <=? StartSequence inner) && (EndSequence inner <=? EndSequence outer) &&
     bool_decide (Channel outer = Channel inner)
  then
    match slice (StartSequence inner -64 StartSequence outer) (EndSequence inner -64 StartSequence outer)
            (Data outer) with
    | Some d => Some (bool_decide (d = Data inner))
    | None => None
    end
  else Some false.

Inductive ScanResult := ScanPresent | ScanReplace (index : nat) | ScanNew | ScanPanic.

(** The loop of [insertEventLocked] over the ring. *)
Fixpoint scanRing (e : Event) (r : list Event) (index : nat) : ScanResult :=
  match r with
  | [] => ScanNew
  | x :: rest =>
      match covers x e with
      | None => ScanPanic
      | Some true => ScanPresent
      | Some false =>
          match covers e x with
          | None => ScanPanic
          | Some true => ScanReplace index
          | Some false => scanRing e rest (S index)
          end
      end
  end.

(** [insertEventLocked] removes an event per round, so one more round than the
    ring has events is enough fuel. *)
Fixpoint insertLoop (fuel : nat) (e : Event) (r : list Event) (st : Store) : option (list Event * Store) :=
  match fuel with
  | O => None
  | S k =>
      match scanRing e r 0 with
      | ScanPanic => None
      | ScanPresent => Some (r, st)
      | ScanReplace i => insertLoop k e (delete i r) (Release (nth i r zeroEvent) st)
      | ScanNew => Some (sortSlice (r ++ [e]), Retain e st)
      end
  end.

Definition insertEventLocked (e : Event) (f : Fanout) : option Fanout :=
  match insertLoop (S (length (ring f))) e (ring f) (fstore f) with
  | Some (r, st) => Some (f <| ring := r |> <| fstore := st |>)
  | None => None
  end.

Definition validOutputEvent (e : Event) : bool :=
  (StartSequence e <=? EndSequence e) && (EndSequence e -64 StartSequence e =? len (Data e)) &&
  negb (len (Data e) =? 0).

(** ** The operations *)
Definition setCursor (id : string) (c : attachmentCursor) (f : Fanout) : Fanout :=
  f <| attachments := <[id := c]> (attachments f) |>.

Definition Attach (id : string) (maxPending : Z) (f : Fanout) : Fanout * result FanError unit :=
  if bool_decide (id = EmptyString) || (maxPending =? 0) then (f, Err ErrInvalidQueueLimit)
  else
    match attachments f !! id with
    | Some c =>
        if isAttached c then (f, Err ErrAttachmentExists)
        else (setCursor id (mkCursor Attached maxPending 0 0 0 0 false false) f
                <| activeSet := {[id]} ∪ activeSet f |>, Ok tt)
    | None => (setCursor id (mkCursor Attached maxPending 0 0 0 0 false false) f
                 <| activeSet := {[id]} ∪ activeSet f |>, Ok tt)
    end.

Definition Detach (id : string) (f : Fanout) : Fanout * result FanError unit :=
  match attachments f !! id with
  | None => (f, Err ErrAttachmentUnknown)
  | Some c =>
      if negb (isAttached c) && negb (bool_decide (state c = Evicted)) then (f, Err ErrInvalidTransition)
      else (compactRing (f <| attachments := delete id (attachments f) |>
                           <| activeSet := activeSet f ∖ {[id]} |>), Ok tt)
  end.

Definition Count (f : Fanout) : Z :=
  map_fold (fun _ c n => if isAttached c then n + 1 else n) 0 (attachments f).

Definition IsAttached (id : string) (f : Fanout) : bool := bool_decide (id ∈ activeSet f).

Definition evicted (c : attachmentCursor) : attachmentCursor :=
  c <| evictedBytes := queuedBytes c |> <| queuedBytes := 0 |> <| state := Evicted |> <| cnotify := true |>.

(** The queue of an attachment with one more event. *)
Definition enqueued (e : Event) (c : attachmentCursor) : attachmentCursor :=
  let c1 := if hasCursor c then c else c <| cursor := StartSequence e |> <| hasCursor := true |> in
  c1 <| enqueuedEnd := EndSequence e |> <| queuedBytes := queuedBytes c +64 len (Data e) |>
     <| cnotify := true |>.

(** [uint64(len(event.Data)) > cursor.maxBytes-cursor.queuedBytes] *)
Definition overflows (e : Event) (c : attachmentCursor) : bool := (cmax c -64 queuedBytes c <? len (Data e)).

Definition outOfOrder (e : Event) (c : attachmentCursor) : bool :=
  isAttached c && hasCursor c && negb (enqueuedEnd c =? StartSequence e).

(** One attachment in the second loop of [PublishOwned]. *)
Definition publishTo (e : Event) (c : attachmentCursor) : attachmentCursor :=
  if negb (isAttached c) then c else if overflows e c then evicted c else enqueued e c.

Definition evictedBy (e : Event) (c : attachmentCursor) : bool := isAttached c && overflows e c.

(** The attachments that overflow, in the order of the map. *)
Definition evictions (e : Event) (m : gmap string attachmentCursor) : list Eviction :=
  omap (fun kc : string * attachmentCursor =>
          if evictedBy e kc.2 then Some (mkEviction kc.1 (queuedBytes kc.2)) else None) (map_to_list m).

Definition PublishOwned (e : Event) (f : Fanout) : option (Fanout * result FanError (list Eviction)) :=
  if negb (validOutputEvent e) then Some (f, Err ErrOutputOrder)
  else if existsb (fun kc : string * attachmentCursor => outOfOrder e kc.2) (map_to_list (attachments f))
  then Some (f, Err ErrOutputOrder)
  else
    match insertEventLocked e f with
    | None => None
    | Some f1 =>
        let gone := evictions e (attachments f1) in
        Some (compactRing (f1 <| attachments := publishTo e <$> attachments f1 |>
                              <| activeSet := activeSet f1 ∖ list_to_set (evAttachment <$> gone) |>),
              Ok gone)
    end.

Definition EnqueueOwned (id : string) (e : Event) (f : Fanout)
  : option (Fanout * result FanError (option Eviction)) :=
  if negb (validOutputEvent e) then Some (f, Err ErrOutputOrder)
  else
    match attachments f !! id with
    | None => Some (f, Err ErrAttachmentUnknown)
    | Some c =>
        if bool_decide (state c = Evicted) then Some (f, Err ErrAttachmentEvicted)
        else if negb (isAttached c) then Some (f, Err ErrInvalidTransition)
        else if hasCursor c && negb (enqueuedEnd c =? StartSequence e) then Some (f, Err ErrOutputOrder)
        else if overflows e c then
          Some (compactRing (setCursor id (evicted c) f <| activeSet := activeSet f ∖ {[id]} |>),
                Ok (Some (mkEviction id (queuedBytes c))))
        else
          match insertEventLocked e f with
          | None => None
          | Some f1 => Some (setCursor id (enqueued e c) f1, Ok None)
          end
    end.

(** The rest of the event at the cursor, as [retained] in the source. *)
Definition takeNext (retain : bool) (id : string) (c : attachmentCursor) (f : Fanout)
  : option (Fanout * result FanError Event) :=
  match eventAtLocked (cursor c) (ring f) with
  | None => Some (f, Err ErrOutputOrder)
  | Some e =>
      match slice (cursor c -64 StartSequence e) (len (Data e)) (Data e) with
      | None => None
      | Some d =>
          let r := e <| StartSequence := cursor c |> <| Data := d |> in
          let f1 := setCursor id
            (c <| cursor := EndSequence e |>
               <| queuedBytes := queuedBytes c -64 (EndSequence e -64 cursor c) |>)
            (f <| fstore := if retain then Retain e (fstore f) else fstore f |>) in
          Some (compactRing f1, Ok r)
      end
  end.

Inductive NextResult := NextEvent (e : Event) | NextWait | NextErr (e : FanError).

(** One round of the loop of [WaitNextOwned]; [NextWait] waits for the signal.
    [Next] has the same checks, keeps no reference and does not wait. *)
Definition nextOf (retain : bool) (id : string) (f : Fanout) : option (Fanout * NextResult) :=
  match attachments f !! id with
  | None => Some (f, NextErr ErrAttachmentUnknown)
  | Some c =>
      if bool_decide (state c = Evicted) then Some (f, NextErr ErrAttachmentEvicted)
      else if negb (isAttached c) then Some (f, NextErr ErrInvalidTransition)
      else if hasCursor c && (cursor c <? enqueuedEnd c) then
        match takeNext retain id c f with
        | None => None
        | Some (f1, Ok e) => Some (f1, NextEvent e)
        | Some (f1, Err er) => Some (f1, NextErr er)
        end
      else Some (f, NextWait)
  end.

Definition WaitNextOwned (id : string) (f : Fanout) : option (Fanout * NextResult) := nextOf true id f.

Definition Next (id : string) (f : Fanout) : option (Fanout * NextResult) :=
  match nextOf false id f with
  | Some (f1, NextEvent e) => Some (f1, NextEvent (cloneEvent e))
  | o => o
  end.

Definition Status (id : string) (f : Fanout) : result FanError (AttachmentState * Z) :=
  match attachments f !! id with
  | None => Err ErrAttachmentUnknown
  | Some c => Ok (state c, if bool_decide (state c = Evicted) then evictedBytes c else queuedBytes c)
  end.
