(* ===== verification/FanoutRing.v ===== *)
(** * Output fanout: the ring against the log

    [log] is the session's output as the history numbered it.  Every event of
    the ring is the tail of a log event ([in_log]): the whole event when it was
    published, or the part from an attachment's replay cursor on.  On such a ring
    the containment test of [insertEventLocked] keeps one entry per log event,
    the sort keeps them in order, and the bisection of [eventAtLocked] finds the
    event at any position the ring holds. *)
From Stdlib Require Import Sorted.
From S2P Require Import Prelude History Fanout.

Section ring.
Context (base top : Z) (log : list Event).

Record log_ok : Prop := {
  lo_chain : chain base log top;
  lo_base : 0 <= base;
  lo_top : top <= maxUint64;
  lo_data : Forall (fun l => 0 < len (Data l)) log
}.

(** The tail of a log event. *)
Record tail_of (l r : Event) : Prop := {
  tl_channel : Channel r = Channel l;
  tl_end : EndSequence r = EndSequence l;
  tl_start : StartSequence l <= StartSequence r < EndSequence l;
  tl_data : Data r = zdrop (StartSequence r - StartSequence l) (Data l)
}.

Definition in_log (r : Event) : Prop := exists l, l ∈ log /\ tail_of l r.

Lemma chain_split a es b e :
  chain a es b -> e ∈ es ->
  exists es1 es2, es = es1 ++ e :: es2 /\ chain a es1 (StartSequence e) /\ chain (EndSequence e) es2 b /\
    EndSequence e = StartSequence e + len (Data e).
Proof.
  intros Hc (es1 & es2 & ->)%list_elem_of_split. apply chain_app in Hc as (m & H1 & H2 & H3 & H4).
  exists es1, es2. split; [done|]. rewrite H2. split; [done|]. split; [done|lia].
Qed.

Lemma chain_le a es b : chain a es b -> a <= b.
Proof. intros H. apply chain_len in H. pose proof (len_nonneg (contentOf es)). lia. Qed.

Hypothesis (L : log_ok).

Lemma log_event l : l ∈ log ->
  base <= StartSequence l < EndSequence l /\ EndSequence l <= top /\
  EndSequence l = StartSequence l + len (Data l).
Proof.
  intros Hl. destruct (chain_split _ _ _ _ (lo_chain L) Hl) as (es1 & es2 & _ & H1 & H2 & H3).
  apply chain_le in H1, H2. pose proof (lo_data L) as Hd. rewrite Forall_forall in Hd.
  specialize (Hd l Hl). simpl in Hd. lia.
Qed.

(** Two log events are equal or disjoint. *)
Lemma log_disjoint l1 l2 :
  l1 ∈ log -> l2 ∈ log ->
  l1 = l2 \/ EndSequence l1 <= StartSequence l2 \/ EndSequence l2 <= StartSequence l1.
Proof.
  intros H1 H2. destruct (chain_split _ _ _ _ (lo_chain L) H1) as (es1 & es2 & E & C1 & C2 & _).
  rewrite E in H2. apply elem_of_app in H2 as [H2|[->|H2]%elem_of_cons]; [|by left|].
  - destruct (chain_split _ _ _ _ C1 H2) as (? & ? & _ & _ & C3 & _). apply chain_le in C3. auto.
  - destruct (chain_split _ _ _ _ C2 H2) as (? & ? & _ & C3 & _). apply chain_le in C3. auto.
Qed.

Lemma tail_facts l r : l ∈ log -> tail_of l r ->
  base <= StartSequence r < EndSequence r /\ EndSequence r <= top /\
  len (Data r) = EndSequence r - StartSequence r.
Proof.
  intros Hl [T1 T2 T3 T4]. destruct (log_event l Hl) as (H1 & H2 & H3). rewrite T4, T2.
  rewrite len_zdrop by lia. lia.
Qed.

Lemma tail_refl l : l ∈ log -> tail_of l l.
Proof.
  intros Hl. destruct (log_event l Hl) as (H1 & _). split; [done|done|lia|].
  by rewrite Z.sub_diag, zdrop_0.
Qed.

(** Two tails overlap only when they belong to one log event. *)
Lemma tails_disjoint l1 l2 a b :
  l1 ∈ log -> l2 ∈ log -> tail_of l1 a -> tail_of l2 b ->
  l1 = l2 \/ EndSequence a <= StartSequence b \/ EndSequence b <= StartSequence a.
Proof.
  intros H1 H2 [_ T2 T3 _] [_ U2 U3 _].
  destruct (log_disjoint l1 l2 H1 H2) as [->|[H|H]]; [by left|right; left|right; right]; lia.
Qed.

Lemma end_determines l1 l2 a b :
  l1 ∈ log -> l2 ∈ log -> tail_of l1 a -> tail_of l2 b -> EndSequence a = EndSequence b -> l1 = l2.
Proof.
  intros H1 H2 T U E. destruct (tails_disjoint l1 l2 a b H1 H2 T U) as [->|[H|H]]; [done|..];
    destruct (tail_facts _ _ H1 T), (tail_facts _ _ H2 U); lia.
Qed.

(** ** The containment test *)
Definition same_end (a b : Event) : bool := (EndSequence a =? EndSequence b).

Lemma covers_spec x e :
  in_log x -> in_log e ->
  covers x e = Some (same_end x e && (StartSequence x <=? StartSequence e)).
Proof.
  intros (l1 & H1 & T) (l2 & H2 & U). unfold covers, same_end.
  destruct (tail_facts _ _ H1 T) as (X1 & X2 & X3). destruct (tail_facts _ _ H2 U) as (E1 & E2 & E3).
  pose proof (lo_base L). pose proof (lo_top L).
  destruct (Z.eq_dec (EndSequence x) (EndSequence e)) as [Ee|Ne].
  - assert (l1 = l2) as <- by (by eapply end_determines).
    rewrite Ee, Z.eqb_refl. simpl. rewrite Z.leb_refl, andb_true_r.
    rewrite bool_decide_true by (rewrite (tl_channel _ _ T), (tl_channel _ _ U); done).
    rewrite andb_true_r. destruct (StartSequence x <=? StartSequence e) eqn:Es; [|done]. bool_hyps.
    rewrite !u64_sub by (unfold maxUint64, two64 in *; lia).
    rewrite slice_Some by lia. rewrite bool_decide_true; [done|].
    rewrite ztake_all by (rewrite len_zdrop; lia).
    rewrite (tl_data _ _ T), (tl_data _ _ U), zdrop_zdrop by (destruct T, U; lia). f_equal. lia.
  - rewrite (proj2 (Z.eqb_neq _ _)) by done. simpl.
    destruct (StartSequence x <=? StartSequence e) eqn:Es; [|done].
    destruct (EndSequence e <=? EndSequence x) eqn:Es2; [|done]. bool_hyps. exfalso.
    destruct (tails_disjoint l1 l2 x e H1 H2 T U) as [<-|[Hd|Hd]]; [|lia|lia].
    destruct T, U. congruence.
Qed.

(** ** What the ring holds *)

(** Some entry of [r] ends at [en] and starts at [st] or before. *)
Definition holdsFrom (r : list Event) (en st : Z) : Prop :=
  exists x, x ∈ r /\ EndSequence x = en /\ StartSequence x <= st.

Definition byEnd (a b : Event) : Prop := EndSequence a < EndSequence b.

Record ring_ok (r : list Event) : Prop := {
  rg_log : Forall in_log r;
  rg_sorted : StronglySorted byEnd r
}.

Lemma ring_unique r a b : StronglySorted byEnd r -> a ∈ r -> b ∈ r -> EndSequence a = EndSequence b -> a = b.
Proof.
  induction 1 as [|x r Hs IH Hx]; intros Ha Hb E; [by apply elem_of_nil in Ha|].
  rewrite Forall_forall in Hx. apply elem_of_cons in Ha as [->|Ha]; apply elem_of_cons in Hb as [->|Hb]; auto.
  - specialize (Hx b Hb). unfold byEnd in Hx. lia.
  - specialize (Hx a Ha). unfold byEnd in Hx. lia.
Qed.

Lemma before_byEnd a b : in_log a -> in_log b -> EndSequence a <> EndSequence b ->
  before a b = (EndSequence a <? EndSequence b).
Proof.
  intros (l1 & H1 & T) (l2 & H2 & U) Ne. unfold before.
  destruct (tail_facts _ _ H1 T), (tail_facts _ _ H2 U).
  destruct (tails_disjoint l1 l2 a b H1 H2 T U) as [<-|[H'|H']]; [destruct T, U; congruence|..].
  - rewrite (proj2 (Z.eqb_neq _ _)) by lia. rewrite !(proj2 (Z.ltb_lt _ _)) by lia. done.
  - rewrite (proj2 (Z.eqb_neq _ _)) by lia. rewrite !(proj2 (Z.ltb_ge _ _)) by lia. done.
Qed.

Lemma insertSorted_perm e l : insertSorted e l ≡ₚ e :: l.
Proof.
  induction l as [|x l IH]; simpl; [done|]. case_match; [|done].
  rewrite IH. apply Permutation_swap.
Qed.

Lemma sortSlice_perm l : sortSlice l ≡ₚ l.
Proof.
  unfold sortSlice. induction l as [|x l IH]; simpl; [done|]. by rewrite insertSorted_perm, IH.
Qed.

Lemma insertSorted_sorted e l :
  in_log e -> Forall in_log l -> StronglySorted byEnd l ->
  Forall (fun x => EndSequence x <> EndSequence e) l -> StronglySorted byEnd (insertSorted e l).
Proof.
  intros He Hl Hs. revert Hl. induction Hs as [|x l Hs IH Hx]; simpl; intros Hl Hne.
  - repeat constructor.
  - inversion Hl as [|? ? Hx1 Hl1]; subst. inversion Hne as [|? ? Hn1 Hn2]; subst.
    rewrite before_byEnd by done. case_match; bool_hyps.
    + constructor; [by apply IH|]. rewrite insertSorted_perm. by constructor.
    + constructor; [by constructor|]. assert (EndSequence e < EndSequence x) by lia.
      constructor; [done|]. eapply Forall_impl; [exact Hx|]. unfold byEnd. intros; simpl in *; lia.
Qed.

Lemma sortSlice_sorted l :
  Forall in_log l -> NoDup (map EndSequence l) -> StronglySorted byEnd (sortSlice l).
Proof.
  intros Hl. induction Hl as [|x l Hx Hl IH]; simpl; intros Hn; [constructor|].
  inversion Hn as [|? ? Hn1 Hn2]; subst. apply insertSorted_sorted; [done| |by apply IH|].
  - by rewrite sortSlice_perm.
  - rewrite sortSlice_perm. apply Forall_forall. intros y Hy E. apply Hn1. rewrite <- E.
    apply list_elem_of_fmap. eauto.
Qed.

Lemma scanRing_spec e r : forall k, Forall in_log r -> in_log e ->
  match scanRing e r k with
  | ScanPanic => False
  | ScanPresent => holdsFrom r (EndSequence e) (StartSequence e)
  | ScanReplace i => exists j x, i = (k + j)%nat /\ r !! j = Some x /\
      EndSequence x = EndSequence e /\ StartSequence e <= StartSequence x
  | ScanNew => Forall (fun x => EndSequence x <> EndSequence e) r
  end.
Proof.
  induction r as [|x r IH]; simpl; intros k Hr He; [constructor|].
  inversion Hr as [|? ? Hx Hr1]; subst. rewrite !covers_spec by done. unfold same_end.
  rewrite (Z.eqb_sym (EndSequence e)).
  destruct (EndSequence x =? EndSequence e) eqn:Ee; simpl; bool_hyps.
  - destruct (StartSequence x <=? StartSequence e) eqn:Es; simpl; bool_hyps.
    + exists x. split; [left|]. auto.
    + rewrite (proj2 (Z.leb_le _ _)) by lia. exists 0%nat, x. rewrite Nat.add_0_r.
      repeat split; [done|lia].
  - specialize (IH (S k) Hr1 He). destruct (scanRing e r (S k)); try done.
    + destruct IH as (y & Hy & E1 & E2). exists y. split; [by right|auto].
    + destruct IH as (j & y & -> & Hj & E1 & E2). exists (S j), y. split; [lia|auto].
    + by constructor.
Qed.

Lemma holdsFrom_incl r r' en st : (forall x, x ∈ r -> x ∈ r') -> holdsFrom r en st -> holdsFrom r' en st.
Proof. intros H (x & Hx & E). exists x. auto. Qed.

Lemma NoDup_ends r : StronglySorted byEnd r -> NoDup (map EndSequence r).
Proof.
  induction 1 as [|x r Hs IH Hx]; simpl; constructor; [|done].
  intros (y & E & Hy)%list_elem_of_fmap. rewrite Forall_forall in Hx. specialize (Hx y Hy).
  unfold byEnd in Hx. lia.
Qed.

Lemma ring_add r e :
  ring_ok r -> in_log e -> Forall (fun x => EndSequence x <> EndSequence e) r ->
  ring_ok (sortSlice (r ++ [e])) /\ (forall x, x ∈ sortSlice (r ++ [e]) <-> x = e \/ x ∈ r).
Proof.
  intros [Hr Hs] He Hne. assert (Hf : Forall in_log (r ++ [e])) by (apply Forall_app; by repeat constructor).
  split.
  - split; [by rewrite sortSlice_perm|]. apply sortSlice_sorted; [done|].
    rewrite map_app. apply NoDup_app. split; [by apply NoDup_ends|]. split; [|apply NoDup_singleton].
    intros y (z & -> & Hz)%list_elem_of_fmap Hy%list_elem_of_singleton.
    rewrite Forall_forall in Hne. by apply (Hne z).
  - intros x. rewrite sortSlice_perm, elem_of_app, list_elem_of_singleton. tauto.
Qed.

Lemma StronglySorted_delete i r : StronglySorted byEnd r -> StronglySorted byEnd (delete i r).
Proof.
  intros H. revert i. induction H as [|x r Hs IH Hx]; intros i.
  - destruct i; constructor.
  - destruct i; simpl; [done|]. constructor; [apply IH|by apply Forall_delete].
Qed.

Lemma insert_new e r :
  ring_ok r -> in_log e -> Forall (fun x => EndSequence x <> EndSequence e) r ->
  scanRing e r 0 = ScanNew.
Proof.
  intros [Hr _] He Hne. pose proof (scanRing_spec e r 0 Hr He) as H. rewrite Forall_forall in Hne.
  destruct (scanRing e r 0); try done.
  - destruct H as (x & Hx & E & _). by destruct (Hne x Hx).
  - destruct H as (j & x & _ & Hj & E & _). destruct (Hne x); [|done]. by eapply list_elem_of_lookup_2.
Qed.

(** [insertEventLocked] neither runs out of fuel nor panics, and the ring then
    holds the event and everything it held. *)
Lemma insertLoop_spec e r st :
  ring_ok r -> in_log e ->
  exists r' st', insertLoop (S (length r)) e r st = Some (r', st') /\ ring_ok r' /\
    holdsFrom r' (EndSequence e) (StartSequence e) /\
    (forall en s, holdsFrom r en s -> holdsFrom r' en s).
Proof.
  intros R He. cbn [insertLoop]. pose proof (scanRing_spec e r 0 (rg_log _ R) He) as H.
  destruct (scanRing e r 0) as [|i| |] eqn:Es; [|..|done].
  - eexists _, _. split; [done|]. auto.
  - destruct H as (j & x & -> & Hj & Ee & Est). simpl in *.
    assert (Hd : r ≡ₚ x :: delete j r) by (by apply delete_Permutation).
    assert (Hne : Forall (fun y => EndSequence y <> EndSequence e) (delete j r)).
    { pose proof (NoDup_ends r (rg_sorted _ R)) as Hn. rewrite Hd in Hn. simpl in Hn.
      inversion Hn as [|? ? Hn1 _]; subst. apply Forall_forall. intros y Hy E. apply Hn1.
      rewrite Ee, <- E. apply list_elem_of_fmap. eauto. }
    assert (R' : ring_ok (delete j r)).
    { split; [apply Forall_delete, R|apply StronglySorted_delete, R]. }
    assert (Hlen : exists n, length r = S n) by (destruct r; [done|simpl; eauto]).
    destruct Hlen as [n ->]. cbn [insertLoop]. rewrite (insert_new e (delete j r)) by done.
    destruct (ring_add (delete j r) e R' He Hne) as [Rn Hin].
    eexists _, _. split; [done|]. split; [done|]. split.
    + exists e. split; [apply Hin; by left|]. auto with lia.
    + intros en s (y & Hy & E1 & E2). rewrite Hd in Hy. apply elem_of_cons in Hy as [->|Hy].
      * exists e. split; [apply Hin; by left|]. split; [lia|lia].
      * exists y. split; [apply Hin; by right|auto].
  - destruct (ring_add r e R He H) as [Rn Hin]. eexists _, _. split; [done|]. split; [done|]. split.
    + exists e. split; [apply Hin; by left|]. split; [done|lia].
    + intros en s. apply holdsFrom_incl. intros x Hx. apply Hin. by right.
Qed.

(** ** The bisection *)
Lemma searchLoop_spec p n : forall fuel i j k,
  (i <= k <= j)%nat -> (j <= n)%nat -> (j - i <= fuel)%nat ->
  (forall x, (x < k)%nat -> p x = false) -> (forall x, (k <= x < n)%nat -> p x = true) ->
  searchLoop fuel p i j = k.
Proof.
  induction fuel as [|fuel IH]; cbn [searchLoop]; cbv zeta; intros i j k Hk Hj Hf Hlo Hhi; [lia|].
  destruct (i <? j)%nat eqn:E; [|apply Nat.ltb_ge in E; lia]. apply Nat.ltb_lt in E.
  assert (i <= (i + j) / 2 < j)%nat as Hm.
  { split; [apply Nat.div_le_lower_bound; lia|apply Nat.Div0.div_lt_upper_bound; lia]. }
  destruct (p ((i + j) / 2)%nat) eqn:Ep.
  - apply IH; try done; try lia. destruct (Nat.le_gt_cases k ((i + j) / 2)) as [|Hgt]; [lia|].
    rewrite Hlo in Ep by done. done.
  - apply IH; try done; try lia. destruct (Nat.le_gt_cases k ((i + j) / 2)) as [Hle|]; [|lia].
    rewrite Hhi in Ep by lia. done.
Qed.

Lemma StronglySorted_lookup r i j a b :
  StronglySorted byEnd r -> r !! i = Some a -> r !! j = Some b -> (i < j)%nat -> EndSequence a < EndSequence b.
Proof.
  intros H. revert i j. induction H as [|x r Hs IH Hx]; intros [|i] [|j] Ha Hb Hij; simpl in *; try done; try lia.
  - injection Ha as ->. rewrite Forall_forall in Hx. apply Hx. by eapply list_elem_of_lookup_2.
  - eapply IH; eauto. lia.
Qed.

(** [eventAtLocked] finds the entry that covers a position. *)
Lemma eventAt_spec r sequence x :
  ring_ok r -> x ∈ r -> StartSequence x <= sequence < EndSequence x -> eventAtLocked sequence r = Some x.
Proof.
  intros [Hr Hs] Hx Hseq. apply list_elem_of_lookup_1 in Hx as [j Hj].
  pose proof (lookup_lt_Some _ _ _ Hj) as Hlt. unfold eventAtLocked, sortSearch.
  rewrite (searchLoop_spec _ (length r) (length r) 0 (length r) j); try lia.
  - rewrite (nth_lookup_Some r j zeroEvent x) by done.
    rewrite (proj2 (Nat.eqb_neq _ _)) by lia. rewrite (proj2 (Z.ltb_ge _ _)) by lia. done.
  - intros i Hi. destruct (lookup_lt_is_Some_2 r i) as [y Hy]; [lia|].
    rewrite (nth_lookup_Some r i zeroEvent y) by done. apply Z.ltb_ge.
    pose proof (StronglySorted_lookup _ _ _ _ _ Hs Hy Hj Hi) as He.
    rewrite Forall_forall in Hr.
    destruct (Hr x) as (l1 & H1 & T); [by eapply list_elem_of_lookup_2|].
    destruct (Hr y) as (l2 & H2 & U); [by eapply list_elem_of_lookup_2|].
    destruct (tails_disjoint l2 l1 y x H2 H1 U T) as [->|[Hd|Hd]]; [destruct T, U; lia|lia|].
    destruct (tail_facts _ _ H2 U), (tail_facts _ _ H1 T). lia.
  - intros i Hi. destruct (lookup_lt_is_Some_2 r i) as [y Hy]; [lia|].
    rewrite (nth_lookup_Some r i zeroEvent y) by done. apply Z.ltb_lt.
    destruct (decide (i = j)) as [->|Hne]; [simplify_eq; lia|].
    pose proof (StronglySorted_lookup _ _ _ _ _ Hs Hj Hy ltac:(lia)) as He. lia.
Qed.

(** ** Compaction *)
Lemma splitRing_spec least r gone kept :
  splitRing least r = (gone, kept) ->
  r = gone ++ kept /\ Forall (fun x => EndSequence x <= least) gone.
Proof.
  revert gone kept. induction r as [|x r IH]; simpl; intros gone kept H; [by injection H as <- <-|].
  case_match; bool_hyps.
  - destruct (splitRing least r) as [a b]. injection H as <- <-.
    destruct (IH a b eq_refl) as [-> Ha]. split; [done|]. by constructor.
  - by injection H as <- <-.
Qed.
End ring.
