(* ===== verification/FanoutProps.v ===== *)
(** * Output fanout: every attachment reads the log

    The invariant of the fanout against the output log, its preservation by
    every operation, and the theorems: an attachment gets the log byte for byte
    in order from its first cursor on, within its queue limit; one attachment
    never disturbs another; the ring is never short of what a cursor needs. *)
From Stdlib Require Import Sorted.
From S2P Require Import Prelude History Fanout FanoutRing.

(** The output between two positions. *)
Definition segment (base : Z) (log : list Event) (a b : Z) : list byte :=
  ztake (b - a) (zdrop (a - base) (contentOf log)).

Section log.
Context (base top : Z) (log : list Event).

(** What an attached cursor may rely on. *)
Record cursor_ok (r : list Event) (c : attachmentCursor) : Prop := {
  cu_max : 0 < cmax c <= maxUint64;
  cu_idle : hasCursor c = false -> queuedBytes c = 0;
  cu_range : hasCursor c = true -> base <= cursor c <= enqueuedEnd c /\ enqueuedEnd c <= top;
  cu_queued : hasCursor c = true -> queuedBytes c = enqueuedEnd c - cursor c /\ queuedBytes c <= cmax c;
  cu_end : hasCursor c = true -> exists l, l ∈ log /\ EndSequence l = enqueuedEnd c;
  cu_held : hasCursor c = true -> forall l, l ∈ log -> cursor c < EndSequence l <= enqueuedEnd c ->
            holdsFrom r (EndSequence l) (Z.max (cursor c) (StartSequence l))
}.

Record fan_ok (f : Fanout) : Prop := {
  fa_ring : ring_ok log (ring f);
  fa_cursors id c : attachments f !! id = Some c -> isAttached c = true -> cursor_ok (ring f) c;
  fa_active id : id ∈ activeSet f <-> exists c, attachments f !! id = Some c /\ isAttached c = true
}.

Hypothesis (L : log_ok base top log).

Lemma chain_at a es b s : chain a es b -> a <= s < b ->
  exists l, l ∈ es /\ StartSequence l <= s < EndSequence l.
Proof.
  revert a. induction es as [|e es IH]; simpl; intros a H Hs; [lia|]. destruct H as (E1 & E2 & H).
  destruct (Z.lt_ge_cases s (EndSequence e)).
  - exists e. split; [left|lia].
  - destruct (IH _ H) as (l & Hl & Hr); [lia|]. exists l. split; [by right|done].
Qed.

(** The data of a log event is its part of the output. *)
Lemma log_data l s : l ∈ log -> StartSequence l <= s <= EndSequence l ->
  zdrop (s - StartSequence l) (Data l) = segment base log s (EndSequence l).
Proof.
  intros Hl Hs. destruct (chain_split _ _ _ _ (lo_chain _ _ _ L) Hl) as (es1 & es2 & E & C1 & C2 & C3).
  unfold segment. rewrite E, contentOf_app. change (contentOf (l :: es2)) with (Data l ++ contentOf es2).
  apply chain_len in C1. pose proof (len_nonneg (contentOf es1)).
  rewrite zdrop_app_ge by lia. rewrite zdrop_app_le by lia.
  rewrite ztake_app_le by (rewrite len_zdrop; lia).
  rewrite ztake_all by (rewrite len_zdrop; lia). f_equal. lia.
Qed.

(** ** The least cursor *)
Lemma minimum_spec m :
  match minimum m with
  | None => forall id c, m !! id = Some c -> reading c = false
  | Some x => forall id c, m !! id = Some c -> reading c = true -> x <= cursor c
  end.
Proof.
  unfold minimum. apply (map_fold_weak_ind (fun o m => match o with
    | None => forall id c, m !! id = Some c -> reading c = false
    | Some x => forall id c, m !! id = Some c -> reading c = true -> x <= cursor c end)); [done|].
  intros i c m' o Hi IH. destruct (reading c) eqn:Er; destruct o as [x|].
  - destruct (cursor c <? x) eqn:Ex; bool_hyps; intros id c'; rewrite lookup_insert_Some;
      (intros [[<- <-]|[Hne Hc]] Hr; [lia|]); specialize (IH id c' Hc Hr); lia.
  - intros id c'. rewrite lookup_insert_Some. intros [[<- <-]|[Hne Hc]] Hr; [lia|].
    by rewrite (IH id c' Hc) in Hr.
  - intros id c'. rewrite lookup_insert_Some. intros [[<- <-]|[Hne Hc]] Hr; [congruence|eauto].
  - intros id c'. rewrite lookup_insert_Some. intros [[<- <-]|[Hne Hc]]; [done|eauto].
Qed.

(** What compaction keeps is what some attachment still reads. *)
Lemma cursor_ok_kept r kept gone least c :
  r = gone ++ kept -> Forall (fun x => EndSequence x <= least) gone ->
  (hasCursor c = true -> least <= cursor c) -> cursor_ok r c -> cursor_ok kept c.
Proof.
  intros -> Hg Hl [C1 C2 C3 C4 C5 C6]. split; try done. intros Hh l Hin Hr.
  destruct (C6 Hh l Hin Hr) as (x & Hx & E1 & E2). exists x. split; [|done].
  apply elem_of_app in Hx as [Hx|Hx]; [|done]. rewrite Forall_forall in Hg. specialize (Hg x Hx).
  specialize (Hl Hh). simpl in Hg. lia.
Qed.

Lemma StronglySorted_app_r a b : StronglySorted byEnd (a ++ b) -> StronglySorted byEnd b.
Proof. induction a; simpl; [done|]. intros H. inversion H. auto. Qed.

Lemma compactRing_ok f : fan_ok f -> fan_ok (compactRing f).
Proof.
  intros [[R1 R2] F2 F3]. unfold compactRing. pose proof (minimum_spec (attachments f)) as Hm.
  destruct (minimum (attachments f)) as [least|].
  - destruct (splitRing least (ring f)) as [gone kept] eqn:Es.
    apply splitRing_spec in Es as [Er Hg]. split; simpl.
    + rewrite Er in R1, R2. apply Forall_app in R1 as [_ R1]. split; [done|].
      by eapply StronglySorted_app_r.
    + intros id c Hc Ha. eapply (cursor_ok_kept (ring f)); eauto.
      intros Hh. apply (Hm id); [done|]. unfold reading. by rewrite Ha, Hh.
    + done.
  - split; simpl; [split; constructor| |done].
    intros id c Hc Ha. specialize (Hm id c Hc). unfold reading in Hm. rewrite Ha in Hm. simpl in Hm.
    destruct (F2 id c Hc Ha) as [C1 C2 C3 C4 C5 C6]. split; try done; congruence.
Qed.

(** ** Reading *)
Definition advanced (c : attachmentCursor) (en : Z) : attachmentCursor :=
  c <| cursor := en |> <| queuedBytes := enqueuedEnd c - en |>.

Lemma takeNext_ok retain id c f :
  fan_ok f -> attachments f !! id = Some c -> isAttached c = true -> hasCursor c = true ->
  cursor c < enqueuedEnd c ->
  exists f' e, takeNext retain id c f = Some (f', Ok e) /\ fan_ok f' /\
    attachments f' = <[id := advanced c (EndSequence e)]> (attachments f) /\
    StartSequence e = cursor c /\ cursor c < EndSequence e <= enqueuedEnd c /\
    Data e = segment base log (cursor c) (EndSequence e).
Proof.
  intros F Hc Ha Hh Hlt. destruct (fa_cursors _ F id c Hc Ha) as [C1 C2 C3 C4 C5 C6].
  destruct (C3 Hh) as [Hr Ht]. destruct (C4 Hh) as [Hq Hqm]. destruct (C5 Hh) as (l' & Hl' & El').
  destruct (chain_at _ _ _ (cursor c) (lo_chain _ _ _ L)) as (l & Hl & Hls); [lia|].
  assert (Hle : EndSequence l <= enqueuedEnd c).
  { destruct (log_disjoint base top log L l l' Hl Hl') as [->|[H|H]]; try lia.
    destruct (log_event base top log L l' Hl'). lia. }
  destruct (C6 Hh l Hl) as (x & Hx & Ex & Sx); [lia|]. rewrite Z.max_l in Sx by lia.
  pose proof (rg_log _ _ (fa_ring _ F)) as Hlog. rewrite Forall_forall in Hlog.
  destruct (Hlog x Hx) as (l2 & Hl2 & T).
  assert (l2 = l) as -> by (eapply (end_determines base top log L); [done|done|exact T|by apply (tail_refl base top log L)|done]).
  unfold takeNext. rewrite (eventAt_spec base top log L (ring f) (cursor c) x (fa_ring _ F) Hx) by lia.
  destruct (tail_facts base top log L l x Hl T) as (X1 & X2 & X3).
  pose proof (lo_base _ _ _ L). pose proof (lo_top _ _ _ L).
  rewrite (u64_sub (cursor c)) by (unfold maxUint64, two64 in *; lia).
  rewrite slice_to_end by lia. rewrite (u64_sub (EndSequence x)) by (unfold maxUint64, two64 in *; lia).
  rewrite (u64_sub (queuedBytes c)) by (unfold maxUint64, two64 in *; lia).
  assert (Hadv : c <| cursor := EndSequence x |> <| queuedBytes := queuedBytes c - (EndSequence x - cursor c) |>
                 = advanced c (EndSequence x)).
  { unfold advanced.
    by replace (queuedBytes c - (EndSequence x - cursor c)) with (enqueuedEnd c - EndSequence x) by lia. }
  cbv zeta. rewrite Hadv. eexists _, _. split; [reflexivity|].
  cbn [StartSequence EndSequence Data]. simpl StartSequence. simpl EndSequence. simpl Data.
  split; [|split; [|split; [done|split; [lia|]]]].
  - apply compactRing_ok. split; simpl; [apply F| |].
    + intros id' c'. rewrite lookup_insert_Some. intros [[<- <-]|[Hne Hc']] Ha'; [|by apply (fa_cursors _ F id' c')].
      split; simpl; try done.
      * congruence.
      * intros _. lia.
      * intros _. unfold advanced. simpl. lia.
      * intros _ l3 Hl3 Hr3. destruct (C6 Hh l3 Hl3) as (y & Hy & Ey & Sy); [lia|].
        exists y. split; [done|]. split; [done|lia].
    + intros id'. rewrite (fa_active _ F id'). destruct (decide (id' = id)) as [->|Hne].
      * rewrite lookup_insert_eq. split; [intros _; eexists; split; [done|exact Ha]|]. intros _. eauto.
      * by rewrite lookup_insert_ne.
  - unfold compactRing. destruct (minimum _); [destruct (splitRing _ _)|]; done.
  - pose proof (tl_start _ _ T). rewrite (tl_data _ _ T), zdrop_zdrop by lia.
    replace (cursor c - StartSequence x + (StartSequence x - StartSequence l)) with (cursor c - StartSequence l) by lia.
    rewrite Ex. apply log_data; [done|lia].
Qed.

(** ** Attaching and detaching *)
Lemma Attach_ok id maxPending f :
  fan_ok f -> 0 <= maxPending <= maxUint64 -> fan_ok (fst (Attach id maxPending f)).
Proof.
  intros F Hm. assert (Hnew : maxPending <> 0 ->
    fan_ok (setCursor id (mkCursor Attached maxPending 0 0 0 0 false false) f
              <| activeSet := {[id]} ∪ activeSet f |>)).
  { intros Hz. split; simpl; [apply F| |].
    - intros id' c. rewrite lookup_insert_Some. intros [[<- <-]|[Hne Hc]] Ha; [|by apply (fa_cursors _ F id')].
      split; simpl; try done. lia.
    - intros id'. rewrite elem_of_union, elem_of_singleton, (fa_active _ F id').
      destruct (decide (id' = id)) as [->|Hne].
      + rewrite lookup_insert_eq. split; [|by left]. intros _. eexists. split; [done|]. done.
      + rewrite lookup_insert_ne by done. tauto. }
  unfold Attach. case_match; [done|]. bool_hyps.
  destruct (attachments f !! id) as [c|]; [destruct (isAttached c)|]; simpl; auto.
Qed.

Lemma Detach_ok id f : fan_ok f -> fan_ok (fst (Detach id f)).
Proof.
  intros F. unfold Detach. destruct (attachments f !! id) as [c|] eqn:Hc; [|done].
  case_match; [done|]. simpl. apply compactRing_ok. split; simpl; [apply F| |].
  - intros id' c' [Hne Hc']%lookup_delete_Some Ha. by apply (fa_cursors _ F id').
  - intros id'. rewrite elem_of_difference, elem_of_singleton, (fa_active _ F id').
    destruct (decide (id' = id)) as [->|Hne].
    + rewrite lookup_delete_eq. split; [by intros [_ []]|]. by intros (? & ? & _).
    + rewrite lookup_delete_ne by done. tauto.
Qed.

(** ** Queueing *)

(** An event that continues an attachment's queue joins it. *)
Lemma enqueued_ok r r' e c :
  cursor_ok r c -> in_log log e -> (hasCursor c = true -> enqueuedEnd c = StartSequence e) ->
  overflows e c = false -> holdsFrom r' (EndSequence e) (StartSequence e) ->
  (forall en s, holdsFrom r en s -> holdsFrom r' en s) -> cursor_ok r' (enqueued e c).
Proof.
  intros [C1 C2 C3 C4 C5 C6] (le & Hle & T) Hend Ho Hin Hr.
  destruct (tail_facts base top log L le e Hle T) as (X1 & X2 & X3).
  pose proof (lo_base _ _ _ L). pose proof (lo_top _ _ _ L). unfold overflows in Ho.
  assert (Hq : 0 <= queuedBytes c <= cmax c).
  { destruct (hasCursor c) eqn:E; [destruct (C3 eq_refl), (C4 eq_refl); lia|]. rewrite C2 by done. lia. }
  bool_hyps. rewrite u64_sub in Ho by (unfold maxUint64, two64 in *; lia).
  assert (Hu : queuedBytes c +64 len (Data e) = queuedBytes c + len (Data e))
    by (apply u64_id; unfold maxUint64, two64 in *; lia).
  unfold enqueued. destruct (hasCursor c) eqn:Eh.
  - destruct (C3 eq_refl) as [G1 G2]. destruct (C4 eq_refl) as [G3 G4]. specialize (Hend eq_refl).
    split; simpl; rewrite ?Hu; try done.
    + congruence.
    + intros _. lia.
    + intros _. lia.
    + intros _. exists le. split; [done|]. by rewrite (tl_end _ _ T).
    + intros _ l Hl Hlr. destruct (Z.le_gt_cases (EndSequence l) (enqueuedEnd c)) as [Hc|Hc].
      { apply Hr, C6; [done|done|lia]. }
      assert (l = le) as ->.
      { destruct (log_disjoint base top log L l le Hl Hle) as [|[Hd|Hd]]; [done|..];
          destruct (log_event base top log L l Hl), T; lia. }
      destruct Hin as (x & Hx & E1 & E2). exists x. split; [done|]. split; [by rewrite E1, (tl_end _ _ T)|].
      destruct (C5 eq_refl) as (l' & Hl' & El'). pose proof (tl_start _ _ T) as Hts.
      destruct (log_disjoint base top log L l' le Hl' Hle) as [->|[Hd|Hd]].
      * rewrite (tl_end _ _ T) in *. lia.
      * lia.
      * destruct (log_event base top log L l' Hl'). lia.
  - split; simpl; rewrite ?Hu; try done.
    + intros _. lia.
    + intros _. rewrite C2 by done. lia.
    + intros _. exists le. split; [done|]. by rewrite (tl_end _ _ T).
    + intros _ l Hl Hlr. pose proof (tl_start _ _ T) as Hts. pose proof (tl_end _ _ T) as Hte.
      assert (l = le) as ->.
      { destruct (log_disjoint base top log L l le Hl Hle) as [|[Hd|Hd]]; [done|..];
          destruct (log_event base top log L l Hl); lia. }
      destruct Hin as (x & Hx & E1 & E2). exists x. split; [done|]. split; [by rewrite E1, Hte|lia].
Qed.

Lemma cursor_ok_holds r r' c :
  (forall en s, holdsFrom r en s -> holdsFrom r' en s) -> cursor_ok r c -> cursor_ok r' c.
Proof. intros Hr [C1 C2 C3 C4 C5 C6]. split; auto. Qed.

Lemma evicted_detached c : isAttached (evicted c) = false.
Proof. done. Qed.

Lemma EnqueueOwned_ok id e f :
  fan_ok f -> in_log log e ->
  exists f' r, EnqueueOwned id e f = Some (f', r) /\ fan_ok f' /\
    (forall id', id' <> id -> attachments f' !! id' = attachments f !! id').
Proof.
  intros F He. unfold EnqueueOwned.
  case_match; [eexists _, _; split; [done|]; done|].
  destruct (attachments f !! id) as [c|] eqn:Hc; [|eexists _, _; split; [done|]; done].
  case_match; [eexists _, _; split; [done|]; done|].
  case_match; [eexists _, _; split; [done|]; done|].
  destruct (hasCursor c && _) eqn:Eo; [eexists _, _; split; [done|]; done|]. bool_hyps.
  destruct (overflows e c) eqn:Ev.
  - eexists _, _. split; [reflexivity|]. split.
    + apply compactRing_ok. split; simpl; [apply F| |].
      * intros id' c'. rewrite lookup_insert_Some. intros [[<- <-]|[Hne Hc']] Ha; [done|].
        by apply (fa_cursors _ F id').
      * intros id'. rewrite elem_of_difference, elem_of_singleton, (fa_active _ F id').
        destruct (decide (id' = id)) as [->|Hne].
        -- rewrite lookup_insert_eq. split; [by intros [_ []]|]. by intros (? & [= <-] & ?).
        -- rewrite lookup_insert_ne by done. tauto.
    + intros id' Hne. unfold compactRing. destruct (minimum _); [destruct (splitRing _ _)|];
        simpl; by rewrite lookup_insert_ne.
  - unfold insertEventLocked.
    destruct (insertLoop_spec base top log L e (ring f) (fstore f) (fa_ring _ F) He)
      as (r' & st' & -> & R' & Hin & Hr).
    eexists _, _. split; [reflexivity|]. split; [|intros id' Hne; simpl; by rewrite lookup_insert_ne].
    assert (Hca : isAttached c = true) by done.
    split; simpl; [done| |].
    + intros id' c'. rewrite lookup_insert_Some. intros [[<- <-]|[Hne Hc']] Ha.
      * apply (enqueued_ok (ring f)); try done; [by apply (fa_cursors _ F id)|].
        intros Hh. rewrite Hh in Eo. simpl in Eo. by bool_hyps.
      * eapply cursor_ok_holds; [exact Hr|]. by apply (fa_cursors _ F id').
    + intros id'. rewrite (fa_active _ F id'). destruct (decide (id' = id)) as [->|Hne].
      * rewrite lookup_insert_eq. split; intros _; [|eauto]. eexists. split; [done|].
        unfold enqueued, isAttached in *. by destruct (hasCursor c).
      * by rewrite lookup_insert_ne.
Qed.
End log.

(** ** Publishing *)
Section publish.
Context (base top : Z) (log : list Event) (e : Event).
Hypothesis (L : log_ok base top log) (Es : StartSequence e = top)
  (Ee : EndSequence e = top + len (Data e)) (Ed : 0 < len (Data e)) (Em : EndSequence e <= maxUint64).

Lemma log_push : log_ok base (EndSequence e) (log ++ [e]).
Proof.
  destruct L as [L1 L2 L3 L4]. split; [|done|done|].
  - apply chain_app. exists top. simpl. rewrite Es, Ee. done.
  - apply Forall_app. split; [done|]. by repeat constructor.
Qed.

Lemma in_log_push x : in_log log x -> in_log (log ++ [e]) x.
Proof. intros (l & Hl & T). exists l. split; [apply elem_of_app; by left|done]. Qed.

Lemma cursor_ok_push r c : cursor_ok base top log r c -> cursor_ok base (EndSequence e) (log ++ [e]) r c.
Proof.
  intros [C1 C2 C3 C4 C5 C6]. split; try done.
  - intros Hh. destruct (C3 Hh). lia.
  - intros Hh. destruct (C5 Hh) as (l & Hl & E). exists l. split; [apply elem_of_app; by left|done].
  - intros Hh l Hl Hr. apply elem_of_app in Hl as [Hl|Hl%list_elem_of_singleton]; [by apply C6|].
    subst. destruct (C3 Hh). lia.
Qed.

Lemma fan_ok_push f : fan_ok base top log f -> fan_ok base (EndSequence e) (log ++ [e]) f.
Proof.
  intros [[R1 R2] F2 F3]. split; [split; [|done]| |done].
  - eapply Forall_impl; [exact R1|]. apply in_log_push.
  - intros id c Hc Ha. by apply cursor_ok_push, (F2 id).
Qed.

Lemma valid_event : validOutputEvent e = true.
Proof.
  unfold validOutputEvent. pose proof (lo_base _ _ _ L). pose proof (chain_le _ _ _ (lo_chain _ _ _ L)).
  rewrite u64_sub by (unfold maxUint64, two64 in *; lia).
  rewrite (proj2 (Z.leb_le _ _)), (proj2 (Z.eqb_eq _ _)), (proj2 (Z.eqb_neq _ _)) by lia. done.
Qed.

Lemma evictions_spec m id : id ∈ evAttachment <$> evictions e m <->
  exists c, m !! id = Some c /\ evictedBy e c = true.
Proof.
  unfold evictions. rewrite list_elem_of_fmap. split.
  - intros (v & -> & Hv). apply list_elem_of_omap in Hv as ([k c] & Hk & Hs). simpl in Hs.
    apply elem_of_map_to_list in Hk. destruct (evictedBy e c) eqn:E; [|done]. injection Hs as <-. eauto.
  - intros (c & Hc & He). exists (mkEviction id (queuedBytes c)). split; [done|].
    apply list_elem_of_omap. exists (id, c). split; [by apply elem_of_map_to_list|]. simpl. by rewrite He.
Qed.

(** [PublishOwned] of the next log event: it never panics, the invariant holds
    whatever it returns, and it succeeds when no cursor lags behind the log. *)
Lemma PublishOwned_ok f :
  fan_ok base top log f ->
  exists f' r, PublishOwned e f = Some (f', r) /\ fan_ok base (EndSequence e) (log ++ [e]) f' /\
    (forall id, attachments f' !! id =
       if is_ok r then publishTo e <$> attachments f !! id else attachments f !! id) /\
    ((forall id c, attachments f !! id = Some c -> reading c = true -> enqueuedEnd c = top) -> is_ok r = true).
Proof.
  intros F. pose proof (fan_ok_push f F) as F'. unfold PublishOwned. rewrite valid_event. simpl.
  destruct (existsb _ _) eqn:Ex.
  - eexists _, _. split; [done|]. split; [done|]. split; [done|]. intros Hall. exfalso.
    apply existsb_exists in Ex as ([id c] & Hin & Ho). apply list_elem_of_In, elem_of_map_to_list in Hin.
    unfold outOfOrder in Ho. simpl in Ho. bool_hyps. specialize (Hall id c Hin).
    unfold reading in Hall. rewrite H, H1 in Hall. specialize (Hall eq_refl). congruence.
  - assert (Hord : forall id c, attachments f !! id = Some c -> outOfOrder e c = false).
    { intros id c Hc. destruct (outOfOrder e c) eqn:E; [|done]. rewrite <- Ex. symmetry.
      apply existsb_exists. exists (id, c). split; [|done]. by apply list_elem_of_In, elem_of_map_to_list. }
    unfold insertEventLocked.
    assert (He : in_log (log ++ [e]) e).
    { exists e. split; [apply elem_of_app; right; by apply list_elem_of_singleton|].
      apply (tail_refl _ _ _ log_push). apply elem_of_app; right; by apply list_elem_of_singleton. }
    destruct (insertLoop_spec _ _ _ log_push e (ring f) (fstore f) (fa_ring _ _ _ _ F') He)
      as (r' & st' & -> & R' & Hin & Hr).
    eexists _, _. split; [reflexivity|]. split; [|split; [|done]].
    + apply compactRing_ok. split; simpl; [done| |].
      * intros id c. rewrite lookup_fmap, fmap_Some. intros (c0 & Hc0 & ->) Ha. unfold publishTo in *.
        destruct (isAttached c0) eqn:Ea; simpl in *; [|congruence].
        destruct (overflows e c0) eqn:Eo; [done|].
        apply (enqueued_ok _ _ _ log_push (ring f)); try done; [by apply (fa_cursors _ _ _ _ F' id)|].
        intros Hh. specialize (Hord id c0 Hc0). unfold outOfOrder in Hord. rewrite Ea, Hh in Hord.
        simpl in Hord. by bool_hyps.
      * intros id. rewrite elem_of_difference, elem_of_list_to_set, evictions_spec.
        rewrite (fa_active _ _ _ _ F id), lookup_fmap. simpl. unfold evictedBy, publishTo. split.
        -- intros ((c & Hc & Ha) & Hn). rewrite Hc. simpl. eexists. split; [done|]. rewrite Ha. simpl.
           destruct (overflows e c) eqn:Eo.
           ++ destruct Hn. exists c. rewrite Ha, Eo. done.
           ++ unfold enqueued, isAttached in *. by destruct (hasCursor c).
        -- intros (c & Hc & Ha). apply fmap_Some in Hc as (c0 & Hc0 & ->).
           destruct (isAttached c0) eqn:Ea; simpl in Ha; [|congruence].
           destruct (overflows e c0) eqn:Eo; [done|]. split; [eauto|].
           intros (c1 & Hc1 & Hb). simplify_eq. rewrite Ea, Eo in Hb. done.
    + intros id. unfold compactRing. destruct (minimum _); [destruct (splitRing _ _)|];
        simpl; by rewrite lookup_fmap.
Qed.
End publish.
