(* ===== verification/SessionOutput.v ===== *)
(** * A session's output: history and fanout together

    Models the output path of [internal/hostruntime/session/manager.go]:
    [capture] appends what the process wrote to the history and publishes it to
    the attachments, [attachLocked] replays the retained tail into a new
    attachment, [WaitNext] and [Detach] are the fanout's.  All but the last two
    run under the session's [opMu].

    The theorem is end to end: whatever attaches, detaches, lags or is evicted,
    what an attachment reads is the process's output from the start [attachLocked]
    returned to it, byte for byte ([attachment_reads_output]). *)
From S2P Require Import Prelude History Fanout FanoutRing FanoutProps.

(** The two share the reference counts of the buffers. *)
Record Session := mkSession { hist : History; fan : Fanout }.

Definition initialReplayBytes : Z := 65536.

Definition attachmentReplayLimit (attachmentBytes : Z) : Z :=
  let limit := attachmentBytes / 2 in
  let limit := if (limit =? 0) then 1 else limit in
  if (initialReplayBytes <? limit) then initialReplayBytes else limit.

Inductive SessError :=
| SEHistory (e : HistError) | SEFanout (e : FanError) | ErrResourceLimit | SEEvicted.

(** Both components see the store of the other. *)
Definition withStore (st : Store) (s : Session) : Session :=
  mkSession ((hist s) <| store := st |>) ((fan s) <| fstore := st |>).

(** [capture] for one read of [n > 0] bytes from the process. *)
Definition capture (data : list byte) (s : Session) : option (Session * result SessError Event) :=
  match AppendBuffer Byte.x01 data (hist s) with
  | (h1, Err e) => Some (mkSession h1 (fan s), Err (SEHistory e))
  | (h1, Ok e) =>
      match PublishOwned e ((fan s) <| fstore := store h1 |>) with
      | None => None
      | Some (f1, _) => Some (withStore (Release e (fstore f1)) (mkSession h1 f1), Ok e)
      end
  end.

(** The loop of [attachLocked]: the replayed events into the new attachment. *)
Fixpoint enqueueAll (id : string) (es : list Event) (f : Fanout) : option (Fanout * option SessError) :=
  match es with
  | [] => Some (f, None)
  | e :: rest =>
      match EnqueueOwned id e f with
      | None => None
      | Some (f1, Err er) => Some (f1, Some (SEFanout er))
      | Some (f1, Ok (Some _)) => Some (f1, Some SEEvicted)
      | Some (f1, Ok None) => enqueueAll id rest f1
      end
  end.

(** The replay [attachLocked] settles on, with the history after it. *)
Definition chooseReplay (from limit : Z) (h : History) : option (History * result HistError Replay) :=
  match ReplayOwned from limit h with
  | None => None
  | Some (h1, Err e) => Some (h1, Err e)
  | Some (h1, Ok r) =>
      if (ToSequence r <? rLatest r) then
        let boundary := rLatest r -64 limit in
        let boundary := if (boundary <? rEarliest r) then rEarliest r else boundary in
        ReplayOwned boundary limit (h1 <| store := ReleaseAll (rEvents r) (store h1) |>)
      else Some (h1, Ok r)
  end.

Definition attachLocked (maxAttachments attachmentBytes : Z) (id : string) (from : Z) (s : Session)
  : option (Session * result SessError Replay) :=
  if (maxAttachments <=? Count (fan s)) then Some (s, Err ErrResourceLimit)
  else
    match chooseReplay from (attachmentReplayLimit attachmentBytes) (hist s) with
    | None => None
    | Some (h1, Err e) => Some (mkSession h1 ((fan s) <| fstore := store h1 |>), Err (SEHistory e))
    | Some (h1, Ok r) =>
        match Attach id attachmentBytes ((fan s) <| fstore := store h1 |>) with
        | (f1, Err e) =>
            Some (withStore (ReleaseAll (rEvents r) (fstore f1)) (mkSession h1 f1), Err (SEFanout e))
        | (f1, Ok _) =>
            match enqueueAll id (rEvents r) f1 with
            | None => None
            | Some (f2, Some e) =>
                let f3 := fst (Detach id (f2 <| fstore := ReleaseAll (rEvents r) (fstore f2) |>)) in
                Some (withStore (fstore f3) (mkSession h1 f3), Err e)
            | Some (f2, None) =>
                Some (withStore (ReleaseAll (rEvents r) (fstore f2)) (mkSession h1 f2),
                      Ok (mkReplay (FromSequence r) (ToSequence r) (rEarliest r) (rLatest r)
                            (map cloneEvent (rEvents r))))
            end
        end
    end.

(** ** What a replay hands to an attachment *)

(** Every replayed event is the tail of a retained one, except a last one cut
    short by the byte limit. *)
Lemma replayLoop_tails from byteLimit es : forall remaining st to acc a b out to' st',
  chain a es b -> 0 <= a -> b <= maxUint64 -> (0 < byteLimit -> 0 < remaining <= maxUint64) ->
  replayLoop from byteLimit remaining es st to acc = Some (out, to', st') ->
  exists es', out = acc ++ es' /\
    Forall (fun r => exists l, l ∈ es /\ (tail_of l r \/ EndSequence r < EndSequence l /\ to' = EndSequence r)) es'.
Proof.
  induction es as [|e es IH]; intros remaining st to acc a b out to' st' Hc Ha Hb Hr H.
  { injection H as <- _ _. exists []. by rewrite app_nil_r. }
  destruct Hc as (E1 & E2 & Hc). pose proof (len_nonneg (Data e)).
  pose proof (chain_le _ _ _ Hc).
  assert (Hweak : forall l0 out0 to0, (exists es', out0 = l0 ++ es' /\ Forall (fun r => exists l, l ∈ es /\
      (tail_of l r \/ EndSequence r < EndSequence l /\ to0 = EndSequence r)) es') ->
    exists es', out0 = l0 ++ es' /\ Forall (fun r => exists l, l ∈ e :: es /\
      (tail_of l r \/ EndSequence r < EndSequence l /\ to0 = EndSequence r)) es').
  { intros l0 out0 to0 (es' & -> & HF). exists es'. split; [done|]. eapply Forall_impl; [exact HF|].
    intros r (l & Hl & Hd). exists l. split; [by right|done]. }
  destruct (replayLoop_step from byteLimit remaining e es st to acc) as [[_ E]|(r & Hlt & Hcut & R1 & R2 & R4 & E)];
    try lia; rewrite E in H; [apply Hweak; eapply IH; [exact Hc|lia|done|done|exact H]|].
  set (en := if (0 <? byteLimit) then _ else _) in *. rewrite E1 in *. set (start := Z.max from a) in *.
  assert (Hch : Channel r = Channel e) by (revert Hcut; unfold cut; destruct (slice _ _ _); [by intros [= <-]|done]).
  assert (Hle : en <= EndSequence e) by (subst en; destruct (0 <? byteLimit); lia).
  assert (Ht : en = EndSequence e -> tail_of e r).
  { intros Hen. split; [done|congruence|lia|]. rewrite R4, R1, E1, ztake_all; [done|]. rewrite len_zdrop; lia. }
  destruct ((0 <? byteLimit) && (remaining =? en - start)) eqn:Ee.
  { injection H as <- <- _. exists [r]. split; [done|]. repeat constructor. exists e. split; [left|].
    destruct (decide (en = EndSequence e)) as [Hen|Hen]; [left; auto|right; lia]. }
  assert (Hen : en = EndSequence e /\ (0 < byteLimit -> en - start < remaining)).
  { subst en. destruct (Z.ltb_spec 0 byteLimit); simpl in Ee; [apply Z.eqb_neq in Ee|]; lia. }
  destruct Hen as [Hen Hrem].
  assert (Hr' : 0 < byteLimit -> 0 < (if 0 <? byteLimit then remaining - (en - start) else remaining) <= maxUint64)
    by (destruct (Z.ltb_spec 0 byteLimit); lia).
  destruct (IH _ _ _ _ _ _ _ _ _ Hc ltac:(lia) Hb Hr' H) as (es' & -> & HF).
  exists (r :: es'). rewrite <- app_assoc. split; [done|]. constructor; [exists e; split; [left|by left; auto]|].
  eapply Forall_impl; [exact HF|]. intros r' (l & Hl & Hd). exists l. split; [by right|done].
Qed.

(** The replay chosen ends at the newest output and fits the limit. *)
Lemma ReplayOwned_tails from limit h h1 r :
  hist_wf h -> 0 < limit <= maxUint64 -> ReplayOwned from limit h = Some (h1, Ok r) ->
  (exists st, h1 = h <| store := st |>) /\ earliest h <= from <= latest h /\
  rEarliest r = earliest h /\ rLatest r = latest h /\ FromSequence r = from /\
  ToSequence r = from + len (contentOf (rEvents r)) /\
  len (contentOf (rEvents r)) = Z.min limit (latest h - from) /\
  contentOf (rEvents r) = ztake limit (zdrop (from - earliest h) (content h)) /\
  chain from (rEvents r) (ToSequence r) /\
  (ToSequence r = latest h -> Forall (fun r => exists l, l ∈ live h /\ tail_of l r) (rEvents r)).
Proof.
  intros W Hl H. destruct (Z.lt_ge_cases from (earliest h)) as [H1|H1].
  { unfold ReplayOwned in H. by rewrite (proj2 (Z.ltb_lt _ _)) in H by done. }
  destruct (Z.lt_ge_cases (latest h) from) as [H2|H2].
  { unfold ReplayOwned in H. rewrite (proj2 (Z.ltb_ge _ _)) in H by done.
    by rewrite (proj2 (Z.ltb_lt _ _)) in H by done. }
  destruct (ReplayOwned_spec from limit h W ltac:(lia) ltac:(lia)) as (h' & es & E & E1 & E2).
  rewrite E in H. injection H as <- <-. simpl.
  assert (Hlen : len (contentOf es) = Z.min limit (latest h - from)).
  { rewrite E1. rewrite (proj2 (Z.ltb_lt _ _)) by lia. pose proof (loose_len _ (proj1 W)) as Hc.
    assert (len (zdrop (from - earliest h) (content h)) = latest h - from) as Hz by (rewrite len_zdrop; lia).
    destruct (Z.le_gt_cases limit (latest h - from)); [rewrite len_ztake; lia|].
    rewrite ztake_all; lia. }
  unfold ReplayOwned in E. rewrite !(proj2 (Z.ltb_ge _ _)) in E by done.
  destruct (replayLoop _ _ _ _ _ _ _) as [[[es0 to] st]|] eqn:Er; [|done]. injection E as <- Eto <-.
  destruct W as [[W1 W2 W3 W4 W5 W6] _].
  destruct (replayLoop_tails _ _ _ _ _ _ _ _ _ _ _ _ W2 W4 W5 (fun _ => Hl) Er) as (es' & E3 & HF).
  simpl in E3. subst es'. split; [by exists st|]. rewrite (proj2 (Z.ltb_lt _ _)) in E1 by lia.
  repeat (split; [done || lia|]).
  intros Hto. eapply Forall_impl; [exact HF|]. intros x (l & Hin & [Ht|[Hlt Ht]]); [eauto|].
  destruct (chain_split _ _ _ _ W2 Hin) as (? & ? & _ & _ & C2 & _). apply chain_le in C2. lia.
Qed.

(** Where an attachment that asks for [from] starts: there, or at the newest
    [limit] bytes when more than that follows. *)
Definition replayStart (from limit newest : Z) : Z :=
  if (newest - from <=? limit) then from else newest - limit.

Lemma ReplayOwned_refused from limit h :
  ~ (earliest h <= from <= latest h) -> exists e, ReplayOwned from limit h = Some (h, Err e).
Proof.
  intros Hn. unfold ReplayOwned. destruct (from <? earliest h) eqn:E1; [by eexists|].
  destruct (latest h <? from) eqn:E2; [by eexists|]. bool_hyps. lia.
Qed.

Lemma chooseReplay_refused from limit h :
  ~ (earliest h <= from <= latest h) -> exists e, chooseReplay from limit h = Some (h, Err e).
Proof. intros Hn. unfold chooseReplay. destruct (ReplayOwned_refused from limit h Hn) as [e ->]. by exists e. Qed.

Lemma chooseReplay_spec from limit h :
  hist_wf h -> 0 < limit <= maxUint64 -> earliest h <= from <= latest h ->
  exists st r, chooseReplay from limit h = Some (h <| store := st |>, Ok r) /\
    FromSequence r = replayStart from limit (latest h) /\ ToSequence r = latest h /\
    contentOf (rEvents r) = zdrop (FromSequence r - earliest h) (content h) /\
    chain (FromSequence r) (rEvents r) (latest h) /\ len (contentOf (rEvents r)) <= limit /\
    Forall (fun r => exists l, l ∈ live h /\ tail_of l r) (rEvents r).
Proof.
  intros W Hl Hf. unfold chooseReplay, replayStart. pose proof (loose_len _ (proj1 W)) as Hcl.
  destruct (ReplayOwned_spec from limit h W Hf ltac:(lia)) as (h1 & es & E & _). rewrite E.
  destruct (ReplayOwned_tails _ _ _ _ _ W Hl E) as ((st & ->) & _ & _ & _ & _ & R5 & R6 & R7 & R8 & R9).
  simpl in *. destruct (_ <? latest h) eqn:Et; bool_hyps.
  - pose proof (hw_low _ (proj1 W)). pose proof (hw_high _ (proj1 W)).
    rewrite u64_sub by (unfold maxUint64, two64 in *; lia).
    rewrite (proj2 (Z.ltb_ge _ _)), (proj2 (Z.leb_gt _ _)) by lia.
    match goal with |- context [ReplayOwned _ _ ?x] => set (h2 := x) end.
    assert (W2 : hist_wf h2) by (destruct W as [[] ?]; split; [by split|done]).
    destruct (ReplayOwned_spec (latest h - limit) limit h2 W2) as (h3 & es2 & E2 & _); [simpl; lia|lia|].
    rewrite E2. destruct (ReplayOwned_tails _ _ _ _ _ W2 Hl E2) as ((st2 & ->) & _ & _ & _ & _ & Q5 & Q6 & Q7 & Q8 & Q9).
    change (latest h2) with (latest h) in *. change (live h2) with (live h) in *.
    change (content h2) with (content h) in *. change (earliest h2) with (earliest h) in *. simpl in *.
    eexists _, _. split; [done|]. split; [done|]. split; [simpl; lia|].
    split; [simpl; rewrite Q7; apply ztake_all; rewrite len_zdrop; lia|].
    replace (latest h - limit + len (contentOf es2)) with (latest h) in * by lia.
    split; [done|]. split; [simpl; lia|by apply Q9].
  - rewrite (proj2 (Z.leb_le _ _)) by lia. eexists _, _. split; [done|]. split; [done|]. split; [simpl; lia|].
    split; [simpl; rewrite R7; apply ztake_all; rewrite len_zdrop; lia|].
    replace (from + len (contentOf es)) with (latest h) in * by lia.
    split; [done|]. split; [simpl; lia|by apply R9].
Qed.

Lemma attachmentReplayLimit_bounds n : 1 <= n <= maxUint64 ->
  0 < attachmentReplayLimit n <= n.
Proof.
  intros Hn. unfold attachmentReplayLimit, initialReplayBytes.
  assert (0 <= n / 2 <= n) by (split; [apply Z.div_pos; lia|apply Z.div_le_upper_bound; lia]).
  repeat case_match; bool_hyps; lia.
Qed.

(** ** Queueing the replay *)
Lemma EnqueueOwned_accepts top log id e c f :
  log_ok 0 top log -> fan_ok 0 top log f -> in_log log e -> attachments f !! id = Some c ->
  isAttached c = true -> (hasCursor c = true -> enqueuedEnd c = StartSequence e) -> overflows e c = false ->
  exists f', EnqueueOwned id e f = Some (f', Ok None) /\ fan_ok 0 top log f' /\
    attachments f' = <[id := enqueued e c]> (attachments f).
Proof.
  intros L F He Hc Ha Hend Ho. destruct (EnqueueOwned_ok 0 top log L id e f F He) as (f' & r & E & F' & _).
  pose proof E as E0. unfold EnqueueOwned in E.
  destruct He as (l & Hl & T). destruct (tail_facts 0 top log L l e Hl T) as (X1 & X2 & X3).
  assert (Hv : validOutputEvent e = true).
  { unfold validOutputEvent. pose proof (lo_top _ _ _ L).
    rewrite u64_sub by (unfold maxUint64, two64 in *; lia).
    rewrite (proj2 (Z.leb_le _ _)), (proj2 (Z.eqb_eq _ _)), (proj2 (Z.eqb_neq _ _)) by lia. done. }
  rewrite Hv, Hc, Ha, Ho in E. simpl in E. unfold isAttached in Ha. bool_hyps.
  rewrite bool_decide_false in E by congruence.
  assert (hasCursor c && negb (enqueuedEnd c =? StartSequence e) = false) as Hno.
  { destruct (hasCursor c); [|done]. rewrite (Hend eq_refl), Z.eqb_refl. done. }
  rewrite Hno in E. unfold insertEventLocked in E.
  destruct (insertLoop _ _ _ _) as [[r' st']|]; [|done]. injection E as <- <-.
  eexists. split; [exact E0|]. split; [exact F'|]. done.
Qed.

Lemma enqueued_attached e c : isAttached (enqueued e c) = isAttached c.
Proof. unfold enqueued. by destruct (hasCursor c). Qed.

Lemma enqueueAll_spec top log id es : forall a c f,
  log_ok 0 top log -> fan_ok 0 top log f -> Forall (in_log log) es -> chain a es top ->
  attachments f !! id = Some c -> isAttached c = true -> (hasCursor c = true -> enqueuedEnd c = a) ->
  queuedBytes c + len (contentOf es) <= cmax c ->
  exists f' c', enqueueAll id es f = Some (f', None) /\ fan_ok 0 top log f' /\
    attachments f' = <[id := c']> (attachments f) /\ isAttached c' = true /\
    (hasCursor c' = true -> enqueuedEnd c' = top) /\
    (if hasCursor c then hasCursor c' = true /\ cursor c' = cursor c
     else if hasCursor c' then cursor c' = a else a = top).
Proof.
  induction es as [|e es IH]; simpl; intros a c f L F Hes Hch Hc Ha Hend Hq.
  - exists f, c. split; [done|]. split; [done|]. split; [by rewrite insert_id|].
    simpl in Hch. subst. split; [done|]. destruct (hasCursor c) eqn:Eh; auto.
  - inversion Hes as [|? ? He Hes']; subst. destruct Hch as (E1 & E2 & Hch). subst a.
    change (contentOf (e :: es)) with (Data e ++ contentOf es) in Hq. rewrite len_app in Hq.
    pose proof (len_nonneg (contentOf es)). pose proof (len_nonneg (Data e)).
    pose proof (fa_cursors _ _ _ _ F id c Hc Ha) as Hco.
    assert (Hqn : 0 <= queuedBytes c).
    { destruct (hasCursor c) eqn:Eh; [destruct (cu_range _ _ _ _ _ Hco Eh), (cu_queued _ _ _ _ _ Hco Eh); lia|].
      rewrite (cu_idle _ _ _ _ _ Hco Eh). lia. }
    pose proof (cu_max _ _ _ _ _ Hco).
    assert (Ho : overflows e c = false).
    { unfold overflows. rewrite u64_sub by (unfold maxUint64, two64 in *; lia). apply Z.ltb_ge. lia. }
    destruct (EnqueueOwned_accepts top log id e c f L F He Hc Ha Hend Ho) as (f1 & Eq & F1 & A1).
    rewrite Eq. destruct (IH (EndSequence e) (enqueued e c) f1) as (f2 & c2 & E3 & F2 & A2 & Ha2 & Hend2 & Hcur2);
      try done.
    + rewrite A1. apply lookup_insert_eq.
    + by rewrite enqueued_attached.
    + unfold enqueued. assert (queuedBytes c +64 len (Data e) = queuedBytes c + len (Data e)) as Hu
        by (apply u64_id; unfold maxUint64, two64 in *; lia).
      destruct (hasCursor c); simpl; rewrite Hu; lia.
    + exists f2, c2. split; [done|]. split; [done|]. split; [by rewrite A2, A1, insert_insert_eq|].
      split; [done|]. split; [done|]. unfold enqueued in Hcur2. destruct (hasCursor c) eqn:Hh; simpl in Hcur2.
      * by rewrite Hh in Hcur2.
      * destruct Hcur2 as [-> G2]. done.
Qed.

(** ** Runs of a session *)

(** Beside the session, a run records what the code has no fields for: the events
    of the history since the start ([rlog]), the bytes read from the process that
    [capture] did not refuse ([rout]), and for each attachment the sequence the
    last successful [attachLocked] returned to it as its start together with the
    bytes its reads have returned since ([reads]). *)
Record Run := mkRun {
  sess : Session; rlog : list Event; rout : list byte; reads : gmap string (Z * list byte) }.

Inductive SessOp :=
| SCapture (data : list byte)
| SAttach (id : string) (from : Z)
| SNext (id : string)
| SDetach (id : string).

Definition noteRead (id : string) (e : Event) (m : gmap string (Z * list byte)) : gmap string (Z * list byte) :=
  match m !! id with
  | None => m
  | Some (s, bs) => <[id := (s, bs ++ Data e)]> m
  end.

(** [None] is a panic. *)
Definition sessOp (maxAttachments attachmentBytes : Z) (op : SessOp) (r : Run) : option Run :=
  match op with
  | SCapture data =>
      if (len data =? 0) then Some r
      else
        match capture data (sess r) with
        | None => None
        | Some (s1, Ok e) => Some (mkRun s1 (rlog r ++ [e]) (rout r ++ data) (reads r))
        | Some (s1, Err _) => Some (mkRun s1 (rlog r) (rout r) (reads r))
        end
  | SAttach id from =>
      match attachLocked maxAttachments attachmentBytes id from (sess r) with
      | None => None
      | Some (s1, Ok rep) => Some (mkRun s1 (rlog r) (rout r) (<[id := (FromSequence rep, [])]> (reads r)))
      | Some (s1, Err _) => Some (mkRun s1 (rlog r) (rout r) (reads r))
      end
  | SNext id =>
      match WaitNextOwned id (fan (sess r)) with
      | None => None
      | Some (f1, NextEvent e) =>
          Some (mkRun (withStore (fstore f1) (mkSession (hist (sess r)) f1)) (rlog r) (rout r)
                  (noteRead id e (reads r)))
      | Some (f1, _) => Some (mkRun (mkSession (hist (sess r)) f1) (rlog r) (rout r) (reads r))
      end
  | SDetach id =>
      let f1 := fst (Detach id (fan (sess r))) in
      Some (mkRun (withStore (fstore f1) (mkSession (hist (sess r)) f1)) (rlog r) (rout r) (reads r))
  end.

Fixpoint sessRun (maxAttachments attachmentBytes : Z) (ops : list SessOp) (r : Run) : option Run :=
  match ops with
  | [] => Some r
  | op :: rest =>
      match sessOp maxAttachments attachmentBytes op r with
      | Some r1 => sessRun maxAttachments attachmentBytes rest r1
      | None => None
      end
  end.

Definition initRun (historyBytes : Z) : Run :=
  mkRun (mkSession (mkHistory historyBytes 0 0 0 [] 0 ∅ emptyStore) (NewFanout emptyStore)) [] [] ∅.

(** The process's output: the bytes of every read, in order. *)
Fixpoint output (ops : list SessOp) : list byte :=
  match ops with
  | [] => []
  | SCapture data :: rest => data ++ output rest
  | _ :: rest => output rest
  end.

Lemma segment_app log e s c :
  0 <= s <= c -> c <= len (contentOf log) -> segment 0 (log ++ [e]) s c = segment 0 log s c.
Proof.
  intros Hs Hc. unfold segment. rewrite contentOf_app. rewrite zdrop_app_le by lia.
  apply ztake_app_le. rewrite len_zdrop; lia.
Qed.

Lemma segment_join log s c d :
  0 <= s <= c -> c <= d -> segment 0 log s c ++ segment 0 log c d = segment 0 log s d.
Proof.
  intros Hs Hd. unfold segment. replace (c - 0) with (c - s + (s - 0)) by lia.
  rewrite <- zdrop_zdrop by lia. rewrite ztake_ztake_zdrop by lia. f_equal. lia.
Qed.

Lemma segment_len log a b : 0 <= a <= b -> b <= len (contentOf log) -> len (segment 0 log a b) = b - a.
Proof. intros Ha Hb. unfold segment. rewrite len_ztake; [lia|]. rewrite len_zdrop; lia. Qed.

(** What has been read is the log from the start on. *)
Definition reads_ok (top : Z) (log : list Event) (s : Z) (bs : list byte) : Prop :=
  0 <= s /\ s + len bs <= top /\ bs = segment 0 log s (s + len bs).

(** An attachment's cursor is where its reads have got to; without a cursor it
    has nothing to read yet. *)
Definition cursor_at (top : Z) (m : gmap string (Z * list byte)) (id : string) (c : attachmentCursor) : Prop :=
  exists s bs, m !! id = Some (s, bs) /\
    if hasCursor c then cursor c = s + len bs else s = top /\ bs = [].

Record run_ok (r : Run) : Prop := {
  ru_hist : hist_wf (hist (sess r));
  ru_log : log_ok 0 (latest (hist (sess r))) (rlog r);
  ru_out : contentOf (rlog r) = rout r;
  ru_live : exists old, rlog r = old ++ live (hist (sess r));
  ru_fan : fan_ok 0 (latest (hist (sess r))) (rlog r) (fan (sess r));
  ru_caught id c : attachments (fan (sess r)) !! id = Some c -> reading c = true ->
    enqueuedEnd c = latest (hist (sess r));
  ru_reads id s bs : reads r !! id = Some (s, bs) -> reads_ok (latest (hist (sess r))) (rlog r) s bs;
  ru_cursor id c : attachments (fan (sess r)) !! id = Some c -> isAttached c = true ->
    cursor_at (latest (hist (sess r))) (reads r) id c
}.

Lemma fan_ok_store base top log f st : fan_ok base top log f -> fan_ok base top log (f <| fstore := st |>).
Proof. intros [F1 F2 F3]. by split. Qed.

Lemma hist_wf_store h st : hist_wf h -> hist_wf (h <| store := st |>).
Proof. intros [[] ?]. split; [by split|done]. Qed.

(** A session whose stores are updated is as good. *)
Lemma run_ok_store s st log out m : run_ok (mkRun s log out m) -> run_ok (mkRun (withStore st s) log out m).
Proof.
  intros [R1 R2 R0 R3 R4 R5 R6 R7]. split; simpl in *; try done.
  - by apply hist_wf_store.
  - by apply fan_ok_store.
Qed.

Lemma run_ok_same s log out m : run_ok (mkRun s log out m) ->
  run_ok (mkRun (mkSession (hist s) ((fan s) <| fstore := store (hist s) |>)) log out m).
Proof.
  intros R%(run_ok_store _ (store (hist s))). unfold withStore in R.
  replace ((hist s) <| store := store (hist s) |>) with (hist s) in R by (by destruct (hist s)). done.
Qed.

Lemma append_live ch data pooled pr h h' e :
  hist_wf h -> 0 < len data <= maxUint64 - latest h -> appendOwned ch data pooled pr h = (h', Ok e) ->
  exists d, live h ++ [e] = d ++ live h'.
Proof.
  intros W Hd. unfold appendOwned. rewrite (proj2 (Z.eqb_neq _ _)) by lia.
  rewrite (proj2 (Z.ltb_ge _ _)) by lia. pose proof (loose_len _ (proj1 W)).
  pose proof (len_nonneg (content h)). pose proof (hw_low _ (proj1 W)).
  rewrite u64_id by (unfold maxUint64, two64 in *; lia). set (ev := mkEv _ _ _ _ _). intros [= <- <-].
  destruct (pushed_wf h (newOwner pooled pr (store h)) ev W) as [Wp _]; [done|done|simpl; lia|].
  destruct (compactLocked_spec _ Wp) as [[_ _ _ _ (d & Hdd & _ & _)] _]. exists d.
  rewrite <- (live_app h ev (hw_head _ (proj1 W))). exact Hdd.
Qed.

Lemma run_len r : run_ok r -> len (rout r) = latest (hist (sess r)).
Proof.
  intros R. rewrite <- (ru_out _ R). pose proof (chain_len _ _ _ (lo_chain _ _ _ (ru_log _ R))). lia.
Qed.

(** Publishing to one attachment keeps its cursor where its reads are. *)
Lemma publishTo_cursor top m id e c :
  StartSequence e = top -> (isAttached c = true -> cursor_at top m id c) ->
  isAttached (publishTo e c) = true -> cursor_at (EndSequence e) m id (publishTo e c).
Proof.
  intros He Hc Ha. unfold publishTo in *. destruct (isAttached c) eqn:Ea; simpl in *; [|by rewrite Ea in Ha].
  destruct (overflows e c); [done|]. destruct (Hc eq_refl) as (s & bs & Hm & Hs). exists s, bs.
  split; [done|]. unfold enqueued. destruct (hasCursor c) eqn:Eh; simpl; rewrite ?Eh; [done|].
  destruct Hs as [-> ->]. change (len []) with 0. lia.
Qed.

Lemma capture_ok data r :
  run_ok r -> 0 < len data ->
  exists s1 e, capture data (sess r) = Some (s1, e) /\
    match e with
    | Ok e => run_ok (mkRun s1 (rlog r ++ [e]) (rout r ++ data) (reads r))
    | Err _ => run_ok (mkRun s1 (rlog r) (rout r) (reads r)) /\ maxUint64 < len (rout r ++ data)
    end.
Proof.
  intros R Hd. pose proof (run_len r R) as Hlen. destruct R as [R1 R2 R0 R3 R4 R5 R6 R7].
  unfold capture, AppendBuffer.
  destruct (Z.le_gt_cases (len data) (maxUint64 - latest (hist (sess r)))) as [Hfit|Hfull].
  2: { unfold appendOwned. rewrite (proj2 (Z.eqb_neq _ _)) by lia. rewrite (proj2 (Z.ltb_lt _ _)) by lia.
       eexists _, _. split; [done|]. simpl. rewrite len_app. split; [by split|lia]. }
  destruct (appendOwned_spec Byte.x01 data true true _ R1 ltac:(lia)) as (h1 & E & A).
  destruct (append_live _ _ _ _ _ _ _ R1 (conj Hd Hfit) E) as (d & Hdl). rewrite E.
  set (e := mkEv _ _ _ _ _) in *.
  pose proof (fan_ok_store _ _ _ _ (store h1) R4) as F0.
  destruct (PublishOwned_ok 0 _ (rlog r) e R2 eq_refl eq_refl Hd ltac:(simpl; lia) _ F0)
    as (f1 & res & -> & F1 & Hatt & Hok).
  rewrite Hok in Hatt by exact R5. simpl in Hatt.
  eexists _, _. split; [reflexivity|]. apply run_ok_store.
  assert (El : latest h1 = EndSequence e) by apply (ap_latest _ _ _ A).
  split; simpl; rewrite ?El.
  - apply A.
  - apply (log_push 0 (latest (hist (sess r)))); try done. simpl. lia.
  - rewrite contentOf_app, R0. unfold contentOf. simpl. by rewrite app_nil_r.
  - destruct R3 as [old ->]. exists (old ++ d). by rewrite <- !app_assoc, Hdl.
  - done.
  - intros id c. rewrite Hatt, fmap_Some. intros (c0 & Hc0 & ->) Hr. unfold reading, publishTo in *.
    destruct (isAttached c0) eqn:Ea; simpl in *; [|by rewrite Ea in Hr].
    destruct (overflows e c0); [done|]. unfold enqueued. by destruct (hasCursor c0).
  - intros id s bs Hs. destruct (R6 id s bs Hs) as (H1 & H2 & H3). pose proof (len_nonneg bs).
    split; [done|]. split; [simpl; lia|]. rewrite segment_app; [done|lia|rewrite R0; lia].
  - intros id c. rewrite Hatt, fmap_Some. intros (c0 & Hc0 & ->).
    apply (publishTo_cursor (latest (hist (sess r)))); eauto.
Qed.

Lemma next_ok id r f1 res :
  run_ok r -> WaitNextOwned id (fan (sess r)) = Some (f1, res) ->
  match res with
  | NextEvent e => run_ok (mkRun (mkSession (hist (sess r)) f1) (rlog r) (rout r) (noteRead id e (reads r)))
  | NextWait => f1 = fan (sess r)
  | NextErr er => f1 = fan (sess r) /\ er <> ErrOutputOrder
  end.
Proof.
  intros R H. pose proof (run_len r R) as Hlen. destruct R as [R1 R2 R0 R3 R4 R5 R6 R7].
  unfold WaitNextOwned, nextOf in H.
  destruct (attachments (fan (sess r)) !! id) as [c|] eqn:Hc; [|by injection H as <- <-].
  destruct (bool_decide (state c = Evicted)); [by injection H as <- <-|].
  destruct (isAttached c) eqn:Ha; simpl in H; [|by injection H as <- <-].
  destruct (hasCursor c) eqn:Hh; simpl in H; [|by injection H as <- <-].
  destruct (cursor c <? enqueuedEnd c) eqn:Hlt; bool_hyps; [|by injection H as <- <-].
  destruct (takeNext_ok 0 _ _ R2 true id c _ R4 Hc Ha Hh Hlt) as (f' & e & E & F' & At & S1 & S2 & S3).
  rewrite E in H. injection H as <- <-.
  pose proof (cu_range _ _ _ _ _ (fa_cursors _ _ _ _ R4 id c Hc Ha) Hh) as Hcr.
  destruct (R7 id c Hc Ha) as (s & bs & Hm & Hs). rewrite Hh in Hs. unfold noteRead. rewrite Hm.
  destruct (R6 id s bs Hm) as (H1 & H2 & H3). pose proof (len_nonneg bs).
  assert (Hd : s + len (bs ++ Data e) = EndSequence e)
    by (rewrite len_app, S3, segment_len; [lia|lia|rewrite R0; lia]).
  split; simpl; try done.
  - intros id' c'. rewrite At, lookup_insert_Some. intros [[<- <-]|[Hne Hc']] Hr; [|by eapply R5].
    simpl. apply (R5 id c Hc). unfold reading. by rewrite Ha, Hh.
  - intros id' s' bs'. rewrite lookup_insert_Some. intros [[<- [= <- <-]]|[Hne Hs']]; [|by eapply R6].
    split; [done|]. rewrite Hd. split; [lia|]. rewrite H3, S3, <- Hs. apply segment_join; lia.
  - intros id' c'. rewrite At, lookup_insert_Some. intros [[<- <-]|[Hne Hc']] Ha'.
    + exists s, (bs ++ Data e). rewrite lookup_insert_eq. split; [done|]. simpl. by rewrite Hh.
    + destruct (R7 id' c' Hc' Ha') as (s' & bs' & Hm' & Hs'). exists s', bs'. by rewrite lookup_insert_ne.
Qed.

Lemma next_total id r : run_ok r -> WaitNextOwned id (fan (sess r)) <> None.
Proof.
  intros [R1 R2 R0 R3 R4 R5 R6 R7] H. unfold WaitNextOwned, nextOf in H.
  destruct (attachments (fan (sess r)) !! id) as [c|] eqn:Hc; [|done].
  destruct (bool_decide (state c = Evicted)); [done|].
  destruct (isAttached c) eqn:Ha; simpl in H; [|done].
  destruct (hasCursor c) eqn:Hh; simpl in H; [|done].
  destruct (cursor c <? enqueuedEnd c) eqn:Hlt; bool_hyps; [|done].
  destruct (takeNext_ok 0 _ _ R2 true id c _ R4 Hc Ha Hh Hlt) as (f' & e & E & _). by rewrite E in H.
Qed.

Lemma compactRing_attachments f : attachments (compactRing f) = attachments f.
Proof. unfold compactRing. destruct (minimum _); [destruct (splitRing _ _)|]; done. Qed.

Lemma detach_ok id r : run_ok r ->
  run_ok (mkRun (mkSession (hist (sess r)) (fst (Detach id (fan (sess r))))) (rlog r) (rout r) (reads r)).
Proof.
  intros [R1 R2 R0 R3 R4 R5 R6 R7].
  assert (Hsub : forall id' c, attachments (fst (Detach id (fan (sess r)))) !! id' = Some c ->
            attachments (fan (sess r)) !! id' = Some c).
  { intros id' c. unfold Detach. destruct (attachments (fan (sess r)) !! id); [|done].
    case_match; [done|]. simpl. rewrite compactRing_attachments. simpl.
    intros [_ Hx]%lookup_delete_Some. done. }
  split; simpl; try done.
  - by apply Detach_ok.
  - intros id' c Hc. by apply (R5 id'), Hsub.
  - intros id' c Hc. by apply (R7 id'), Hsub.
Qed.

Definition freshCursor (n : Z) : attachmentCursor := mkCursor Attached n 0 0 0 0 false false.

(** When [attachLocked] accepts: there is room, the identifier is not empty and
    not attached, and the cursor asked for is within the retained history. *)
Definition attachable (maxAttachments : Z) (id : string) (from : Z) (s : Session) : bool :=
  (Count (fan s) <? maxAttachments) && negb (bool_decide (id = EmptyString)) &&
  negb (IsAttached id (fan s)) && (earliest (hist s) <=? from) && (from <=? latest (hist s)).

Lemma Attach_result base top log id n f : fan_ok base top log f -> n <> 0 ->
  if negb (bool_decide (id = EmptyString)) && negb (IsAttached id f)
  then snd (Attach id n f) = Ok tt /\ attachments (fst (Attach id n f)) = <[id := freshCursor n]> (attachments f)
  else exists e, Attach id n f = (f, Err e).
Proof.
  intros F Hn. unfold Attach. rewrite (proj2 (Z.eqb_neq _ _)), orb_false_r by done.
  destruct (bool_decide (id = EmptyString)); simpl; [by eexists|].
  pose proof (fa_active _ _ _ _ F id) as Hact. unfold IsAttached. case_bool_decide as Hin; simpl.
  - apply Hact in Hin as (c & -> & ->). by eexists.
  - destruct (attachments f !! id) as [c|]; [|done]. destruct (isAttached c) eqn:Ha; [|done].
    destruct Hin. apply Hact. eauto.
Qed.

(** The retained history is the end of the output. *)
Lemma run_content r from : run_ok r -> earliest (hist (sess r)) <= from ->
  zdrop (from - earliest (hist (sess r))) (content (hist (sess r))) = zdrop from (rout r).
Proof.
  intros R Hf. pose proof (run_len r R). pose proof (loose_len _ (proj1 (ru_hist _ R))) as Hl.
  pose proof (hw_low _ (proj1 (ru_hist _ R))).
  rewrite <- (ru_out _ R) in *. destruct (ru_live _ R) as [old Ho]. rewrite Ho in *.
  rewrite contentOf_app, len_app in *. change (contentOf (live (hist (sess r)))) with (content (hist (sess r))) in *.
  rewrite zdrop_app_ge by lia. f_equal. lia.
Qed.

Lemma contentOf_clone es : contentOf (map cloneEvent es) = contentOf es.
Proof. induction es as [|e es IH]; [done|]. unfold contentOf in *. simpl. by rewrite IH. Qed.

(** A session with the new attachment queued up to the newest byte. *)
Lemma attached_ok id rep h st f2 c2 r :
  run_ok r -> h = (hist (sess r)) <| store := st |> -> fan_ok 0 (latest (hist (sess r))) (rlog r) f2 ->
  attachments f2 = <[id := c2]> (attachments (fan (sess r))) -> 0 <= FromSequence rep <= latest (hist (sess r)) ->
  (hasCursor c2 = true -> enqueuedEnd c2 = latest (hist (sess r))) ->
  (if hasCursor c2 then cursor c2 = FromSequence rep else FromSequence rep = latest (hist (sess r))) ->
  run_ok (mkRun (mkSession h f2) (rlog r) (rout r) (<[id := (FromSequence rep, [])]> (reads r))).
Proof.
  intros [R1 R2 R0 R3 R4 R5 R6 R7] -> F2 A2 Hf Hend Hcur. split; simpl; try done.
  - by apply hist_wf_store.
  - intros id' c'. rewrite A2, lookup_insert_Some. intros [[<- <-]|[Hne Hc']] Hr; [|by eapply R5].
    apply Hend. unfold reading in Hr. by bool_hyps.
  - intros id' s bs. rewrite lookup_insert_Some. intros [[<- [= <- <-]]|[Hne Hs]]; [|by eapply R6].
    unfold reads_ok, segment. change (len []) with 0. rewrite Z.add_0_r, Z.sub_diag. split; [lia|]. split; [lia|done].
  - intros id' c'. rewrite A2, lookup_insert_Some. intros [[<- <-]|[Hne Hc']] Ha.
    + exists (FromSequence rep), []. rewrite lookup_insert_eq. split; [done|]. change (len []) with 0.
      destruct (hasCursor c2); [lia|done].
    + destruct (R7 id' c' Hc' Ha) as (s & bs & Hm & Hs). exists s, bs. by rewrite lookup_insert_ne.
Qed.

Lemma attach_ok maxAttachments attachmentBytes id from r :
  run_ok r -> 1 <= attachmentBytes <= maxUint64 ->
  exists s1 res, attachLocked maxAttachments attachmentBytes id from (sess r) = Some (s1, res) /\
    match res with
    | Ok rep =>
        attachable maxAttachments id from (sess r) = true /\
        FromSequence rep = replayStart from (attachmentReplayLimit attachmentBytes) (len (rout r)) /\
        ToSequence rep = len (rout r) /\ contentOf (rEvents rep) = zdrop (FromSequence rep) (rout r) /\
        run_ok (mkRun s1 (rlog r) (rout r) (<[id := (FromSequence rep, [])]> (reads r)))
    | Err _ =>
        attachable maxAttachments id from (sess r) = false /\ run_ok (mkRun s1 (rlog r) (rout r) (reads r))
    end.
Proof.
  intros R Hb. unfold attachLocked, attachable. pose proof (run_len r R) as Hlen.
  assert (R' : run_ok (mkRun (sess r) (rlog r) (rout r) (reads r))) by (by destruct r).
  rewrite Z.ltb_antisym. destruct (maxAttachments <=? Count (fan (sess r))); cbn [negb andb];
    [by eexists _, _|].
  pose proof (attachmentReplayLimit_bounds attachmentBytes Hb) as Hlim.
  destruct (decide (earliest (hist (sess r)) <= from <= latest (hist (sess r)))) as [Hf|Hf].
  2: { destruct (chooseReplay_refused from (attachmentReplayLimit attachmentBytes) _ Hf) as [e ->].
       eexists _, _. split; [reflexivity|]. split; [|by apply run_ok_same].
       destruct (earliest _ <=? from) eqn:E1; [|by rewrite andb_false_r].
       destruct (from <=? latest _) eqn:E2; [bool_hyps; lia|by rewrite andb_false_r]. }
  destruct (chooseReplay_spec from (attachmentReplayLimit attachmentBytes) _ (ru_hist _ R) ltac:(lia) Hf)
    as (st & rep & -> & Hfrom & Hto & Hcont & Hch & Hlim' & Htails).
  rewrite !(proj2 (Z.leb_le _ _)), !andb_true_r by lia. simpl store.
  pose proof (fan_ok_store _ _ _ _ st (ru_fan _ R)) as F0.
  pose proof (Attach_ok 0 _ _ id attachmentBytes _ F0 ltac:(lia)) as F1.
  pose proof (Attach_result 0 _ _ id attachmentBytes _ F0 ltac:(lia)) as Hat.
  change (IsAttached id ((fan (sess r)) <| fstore := st |>)) with (IsAttached id (fan (sess r))) in Hat.
  destruct (negb _ && negb _).
  2: { destruct Hat as [e ->]. eexists _, _. split; [reflexivity|]. split; [done|]. apply run_ok_store.
       by apply (run_ok_store (sess r) st). }
  destruct (Attach id attachmentBytes _) as [f1 res]. simpl in Hat, F1. destruct Hat as [-> E2].
  assert (Hes : Forall (in_log (rlog r)) (rEvents rep)).
  { eapply Forall_impl; [exact Htails|]. intros x (l & Hl & Ht). exists l. split; [|done].
    destruct (ru_live _ R) as [old ->]. apply elem_of_app. by right. }
  destruct (enqueueAll_spec _ (rlog r) id (rEvents rep) _ (freshCursor attachmentBytes) f1 (ru_log _ R) F1 Hes Hch)
    as (f2 & c2 & -> & F2 & A2 & Ha2 & Hend2 & Hcur2); [by rewrite E2, lookup_insert_eq|done|done|simpl; lia|].
  simpl in Hcur2. pose proof (chain_le _ _ _ Hch). pose proof (hw_low _ (proj1 (ru_hist _ R))).
  assert (Hge : earliest (hist (sess r)) <= FromSequence rep)
    by (rewrite Hfrom; unfold replayStart; destruct (Z.leb_spec (latest (hist (sess r)) - from)
          (attachmentReplayLimit attachmentBytes)); lia).
  eexists _, _. split; [reflexivity|]. simpl. rewrite Hlen. repeat (split; [done|]).
  split. { rewrite contentOf_clone, Hcont. by apply run_content. }
  apply run_ok_store. eapply attached_ok; eauto; [by rewrite A2, E2, insert_insert_eq|lia].
Qed.

Lemma sessOp_ok maxAttachments attachmentBytes op r :
  run_ok r -> 1 <= attachmentBytes <= maxUint64 ->
  exists r', sessOp maxAttachments attachmentBytes op r = Some r' /\ run_ok r' /\
    (len (rout r ++ output [op]) <= maxUint64 -> rout r' = rout r ++ output [op]).
Proof.
  intros R Hb. destruct op as [data|id from|id|id]; simpl; rewrite ?app_nil_r.
  - destruct (len data =? 0) eqn:Ez; bool_hyps.
    { exists r. apply len_zero_nil in Ez as ->. by rewrite app_nil_r. }
    pose proof (len_nonneg data).
    destruct (capture_ok data r R ltac:(lia)) as (s1 & [e|er] & -> & H1); eexists; split; [done|done|done|].
    destruct H1. split; [done|]. simpl. lia.
  - destruct (attach_ok maxAttachments attachmentBytes id from r R Hb) as (s1 & [rep|er] & -> & H1);
      eexists; (split; [done|]); (split; [apply H1|done]).
  - pose proof (next_total id r R). pose proof (next_ok id r) as Hn.
    destruct (WaitNextOwned id (fan (sess r))) as [[f1 res]|]; [|done].
    specialize (Hn f1 res R eq_refl). destruct res as [e| |er].
    + eexists. split; [done|]. split; [by apply run_ok_store|done].
    + subst. eexists. split; [done|]. split; [by destruct r as [[]]|done].
    + destruct Hn as [-> _]. eexists. split; [done|]. split; [by destruct r as [[]]|done].
  - eexists. split; [done|]. split; [|done]. apply run_ok_store. by apply detach_ok.
Qed.

Lemma output_cons op ops : output (op :: ops) = output [op] ++ output ops.
Proof. destruct op; simpl; by rewrite ?app_nil_r. Qed.

Lemma sessRun_ok maxAttachments attachmentBytes ops : forall r,
  run_ok r -> 1 <= attachmentBytes <= maxUint64 ->
  exists r', sessRun maxAttachments attachmentBytes ops r = Some r' /\ run_ok r' /\
    (len (rout r ++ output ops) <= maxUint64 -> rout r' = rout r ++ output ops).
Proof.
  induction ops as [|op ops IH]; intros r R Hb; [exists r; by rewrite app_nil_r|].
  destruct (sessOp_ok maxAttachments attachmentBytes op r R Hb) as (r1 & E & R1 & O1).
  cbn [sessRun]. rewrite E.
  destruct (IH r1 R1 Hb) as (r2 & E2 & R2 & O2). exists r2. split; [done|]. split; [done|].
  rewrite output_cons, app_assoc. intros Hl. pose proof Hl as Hl'. rewrite len_app in Hl'.
  pose proof (len_nonneg (output ops)). rewrite <- O1 in Hl |- * by lia. by apply O2.
Qed.

Lemma init_run_ok historyBytes : 1 <= historyBytes <= maxUint64 -> run_ok (initRun historyBytes).
Proof.
  intros Hh. split; simpl; try done.
  - split; [|simpl; lia]. split; simpl; try done; lia.
  - by exists [].
  - split; simpl; [split; constructor|done|]. intros id. split; [by intros ?%elem_of_empty|].
    by intros (c & ? & _).
Qed.

(** C3: end to end, an attachment reads the process's output.  Every run of
    captures, attaches (with any cursor), reads and detaches completes without a
    panic, and what [capture] keeps is every byte read from the process, as long
    as there are fewer than 2^64 of them.  [attachLocked] succeeds exactly when
    the identifier is free, there is room and the cursor asked for is retained;
    the start it returns is that cursor, or the newest bytes within the replay
    limit when more follow, and the replay it returns is the output from there to
    its end.  What an attachment has read since is exactly the output from the
    start returned to it; while it is attached its cursor is where its reads have
    got to, the rest is queued up to the newest byte within its limit, and its
    next read is never refused for order. *)
Theorem attachment_reads_output (historyBytes maxAttachments attachmentBytes : Z) (ops : list SessOp) :
  1 <= historyBytes <= maxUint64 -> 1 <= attachmentBytes <= maxUint64 ->
  exists r, sessRun maxAttachments attachmentBytes ops (initRun historyBytes) = Some r /\
    (len (output ops) <= maxUint64 -> rout r = output ops) /\
    (forall id from, exists s1 res,
       attachLocked maxAttachments attachmentBytes id from (sess r) = Some (s1, res) /\
       match res with
       | Err _ => attachable maxAttachments id from (sess r) = false
       | Ok rep =>
           attachable maxAttachments id from (sess r) = true /\
           FromSequence rep = replayStart from (attachmentReplayLimit attachmentBytes) (len (rout r)) /\
           ToSequence rep = len (rout r) /\ contentOf (rEvents rep) = zdrop (FromSequence rep) (rout r)
       end) /\
    (forall id start got, reads r !! id = Some (start, got) ->
       0 <= start /\ start + len got <= len (rout r) /\ got = ztake (len got) (zdrop start (rout r))) /\
    (forall id c, attachments (fan (sess r)) !! id = Some c -> isAttached c = true ->
       (exists start got, reads r !! id = Some (start, got) /\
          if hasCursor c
          then cursor c = start + len got /\ enqueuedEnd c = len (rout r) /\
               queuedBytes c = enqueuedEnd c - cursor c /\ queuedBytes c <= cmax c
          else start = len (rout r) /\ got = []) /\
       (forall f', WaitNextOwned id (fan (sess r)) <> Some (f', NextErr ErrOutputOrder))).
Proof.
  intros Hh Ha.
  destruct (sessRun_ok maxAttachments attachmentBytes ops _ (init_run_ok _ Hh) Ha) as (r & E & R & O).
  exists r. split; [done|]. split; [exact O|]. pose proof (run_len r R) as Hlen. split; [|split].
  - intros id from. destruct (attach_ok maxAttachments attachmentBytes id from r R Ha) as (s1 & res & -> & Hr).
    exists s1, res. split; [done|]. destruct res; destruct_and?; done.
  - intros id start got Hg. destruct (ru_reads _ R id _ _ Hg) as (H1 & H2 & H3). rewrite Hlen.
    split; [done|]. split; [done|]. rewrite H3 at 1. unfold segment. rewrite (ru_out _ R), Z.sub_0_r. f_equal. lia.
  - intros id c Hc Hat. split; [|intros f' Hn; by destruct (next_ok id r f' _ R Hn) as [_ []]].
    destruct (ru_cursor _ R id c Hc Hat) as (s & bs & Hm & Hs). exists s, bs. split; [done|].
    rewrite Hlen. destruct (hasCursor c) eqn:Hh'; [|done]. split; [done|].
    split; [apply (ru_caught _ R id c Hc); unfold reading; by rewrite Hat, Hh'|].
    by apply (cu_queued _ _ _ _ _ (fa_cursors _ _ _ _ (ru_fan _ R) id c Hc Hat)).
Qed.

(** A slow attachment [b] is evicted; [a] attaches in the middle and reads on. *)
Definition demoSession : list SessOp :=
  [SAttach "b" 0; SCapture (bytes "hello "); SAttach "a" 2; SNext "a"; SCapture (bytes "world"); SNext "a"].

Lemma attachment_reads_output_witness :
  exists r, sessRun 4 10 demoSession (initRun 8) = Some r /\
    rout r = bytes "hello world" /\ reads r !! "a" = Some (2, bytes "llo world") /\
    Status "b" (fan (sess r)) = Ok (Evicted, 6) /\
    forall id start got, reads r !! id = Some (start, got) ->
      0 <= start /\ start + len got <= len (rout r) /\ got = ztake (len got) (zdrop start (rout r)).
Proof.
  destruct (attachment_reads_output 8 4 10 demoSession) as (r & E & O & _ & H & _).
  - unfold maxUint64, two64. lia.
  - unfold maxUint64, two64. lia.
  - exists r. split; [exact E|]. split; [apply O; vm_compute; discriminate|]. split; [|split; [|exact H]].
    + vm_compute in E. injection E as <-. vm_compute. reflexivity.
    + vm_compute in E. injection E as <-. vm_compute. reflexivity.
Defined.

(** Publishing is isolated per attachment.  When [PublishOwned] accepts the
    next event of the output, an attachment whose queue still has room gets
    exactly that event, one without room is evicted with its queue emptied, and
    one that is not attached is untouched; being attached and being in the set
    [IsAttached] reads agree before and after. *)
Theorem publish_isolated (top : Z) (log : list Event) (e : Event) (f f' : Fanout) (evs : list Eviction) :
  log_ok 0 top log -> fan_ok 0 top log f -> StartSequence e = top -> EndSequence e = top + len (Data e) ->
  0 < len (Data e) -> EndSequence e <= maxUint64 -> PublishOwned e f = Some (f', Ok evs) ->
  (forall id c, attachments f !! id = Some c ->
     attachments f' !! id = Some (
       if negb (isAttached c) then c
       else if (cmax c - queuedBytes c <? len (Data e)) then evicted c else enqueued e c)) /\
  (forall id, IsAttached id f' = true <-> exists c, attachments f' !! id = Some c /\ state c = Attached) /\
  (forall id, attachments f !! id = None -> attachments f' !! id = None).
Proof.
  intros L F E1 E2 E3 E4 H.
  destruct (PublishOwned_ok 0 top log e L E1 E2 E3 E4 f F) as (f1 & r & Eq & F1 & Hat & _).
  rewrite Eq in H. injection H as <- ->. simpl in Hat. split; [|split].
  - intros id c Hc. rewrite Hat, Hc. simpl. f_equal. unfold publishTo, overflows.
    destruct (isAttached c) eqn:Ea; [|done]. simpl.
    pose proof (fa_cursors _ _ _ _ F id c Hc Ea) as Hco. pose proof (cu_max _ _ _ _ _ Hco).
    rewrite u64_sub; [done| |unfold maxUint64, two64 in *; lia].
    destruct (hasCursor c) eqn:Eh; [destruct (cu_range _ _ _ _ _ Hco Eh), (cu_queued _ _ _ _ _ Hco Eh); lia|].
    rewrite (cu_idle _ _ _ _ _ Hco Eh). lia.
  - intros id. unfold IsAttached. rewrite bool_decide_eq_true, (fa_active _ _ _ _ F1 id).
    unfold isAttached. split; intros (c & Hc & Hs); exists c; split; try done; by bool_hyps || by apply bool_decide_eq_true.
  - intros id Hn. by rewrite Hat, Hn.
Qed.

Definition demoEvent : Event := mkEv Byte.x01 0 3 (bytes "abc") None.
Definition demoFan : Fanout := fst (Attach "a" 2 (NewFanout emptyStore)).

Lemma publish_isolated_witness :
  attachments demoFan !! "a" = Some (freshCursor 2) /\
  match PublishOwned demoEvent demoFan with
  | Some (f', Ok _) => attachments f' !! "a" = Some (evicted (freshCursor 2))
  | _ => False
  end.
Proof.
  split; [vm_compute; reflexivity|].
  destruct (PublishOwned demoEvent demoFan) as [[f' [evs|er]]|] eqn:E; [|vm_compute in E; discriminate E..].
  assert (F0 : fan_ok 0 0 [] (NewFanout emptyStore)).
  { split; simpl; [split; constructor|done|]. intros id. split; [by intros ?%elem_of_empty|]. by intros (c & ? & _). }
  destruct (publish_isolated 0 [] demoEvent demoFan f' evs) as (H & _).
  - by split.
  - apply Attach_ok; [done|]. unfold maxUint64, two64. lia.
  - reflexivity.
  - reflexivity.
  - reflexivity.
  - vm_compute. discriminate.
  - exact E.
  - apply (H "a" (freshCursor 2)). vm_compute. reflexivity.
Defined.
