(* ===== verification/InputJournal.v ===== *)
(** * Input journal

    Models [internal/hostruntime/session/input.go]: every input a client sends to
    a terminal has an identity, and the journal decides once what happened to it,
    so that a client that reconnects and retries never types twice.

    [Write] is not atomic: it reserves the identity under the lock, writes to the
    PTY without it, and records the outcome under it again.  [Write_reserve] and
    [Write_commit] are the two locked parts; [jstep] interleaves any number of
    calls.  The PTY is the environment: it takes between none and all of the
    bytes and may fail. *)
From S2P Require Import Prelude Sha256.

Inductive InputStatus := InputAccepted | InputDuplicate | InputRejected | InputUncertain.
#[export] Instance InputStatus_eq_dec : EqDecision InputStatus.
Proof. solve_decision. Defined.

Inductive InputError :=
| ErrInvalidInput | ErrInputConflict | ErrInputSequence | ErrInputUncertain
| ErrInputUnknown | ErrInputJournalFull | StaleGenerationError (CurrentGeneration : Z).

Record InputKey := mkKey {
  ClientID : string; AttachmentID : string; Generation : Z; InputSequence : Z; InputID : string }.
#[export] Instance InputKey_eq_dec : EqDecision InputKey.
Proof. solve_decision. Defined.
#[export] Program Instance InputKey_countable : Countable InputKey :=
  inj_countable' (fun k => (ClientID k, AttachmentID k, Generation k, InputSequence k, InputID k))
    (fun '(a, b, c, d, e) => mkKey a b c d e) _.
Next Obligation. by intros []. Qed.

(** [inputCursor] *)
Abbreviation Cursor := (string * string * Z)%type.
Definition cursorOf (k : InputKey) : Cursor := (ClientID k, AttachmentID k, Generation k).
Definition keyAt (k : InputKey) (sequence : Z) : InputKey :=
  mkKey (ClientID k) (AttachmentID k) (Generation k) sequence EmptyString.

Record InputDecision := mkDecision {
  Status : InputStatus; dSequence : Z; BytesWritten : Z; WriteError : string; hash : list byte }.
#[export] Instance InputDecision_eta : Eta InputDecision := fun d =>
  mkDecision (Status d) (dSequence d) (BytesWritten d) (WriteError d) (hash d).

Record InputJournal := mkJournal {
  current : Z; jmax : Z; decisions : gmap InputKey InputDecision; last : gmap Cursor Z }.
#[export] Instance InputJournal_eta : Eta InputJournal :=
  fun j => mkJournal (current j) (jmax j) (decisions j) (last j).

Definition NewBoundedInputJournal (generation max : Z) : InputJournal := mkJournal generation max ∅ ∅.

(** [helperconfig.DefaultResources.MaxInputDecisions] *)
Definition defaultMaxInputDecisions : Z := 10000.

Definition NewInputJournal (generation : Z) : InputJournal :=
  NewBoundedInputJournal generation defaultMaxInputDecisions.

Definition SetGeneration (generation : Z) (j : InputJournal) : InputJournal := j <| current := generation |>.

Definition normalizeInputKey (k : InputKey) : InputKey * bool :=
  if negb (InputSequence k =? 0)
  then (mkKey (ClientID k) (AttachmentID k) (Generation k) (InputSequence k) EmptyString, false)
  else (k, true).

Definition emptyString (s : string) : bool := bool_decide (s = EmptyString).

(** The identity is complete. *)
Definition validKey (k : InputKey) : bool :=
  negb (emptyString (ClientID k) || emptyString (AttachmentID k) || (Generation k =? 0) ||
        ((InputSequence k =? 0) && emptyString (InputID k))).

Definition publicDecision (d : InputDecision) : InputDecision := d <| hash := zero_bytes 32 |>.

Definition lastOf (c : Cursor) (j : InputJournal) : Z := default 0 (last j !! c).

(** The check of [Write] and [Admit] against the last sequence of the cursor. *)
Definition sequenceCheck (k : InputKey) (j : InputJournal) : option InputError :=
  if (InputSequence k =? 0) then None
  else
    let n := lastOf (cursorOf k) j in
    if (n =? 0) then None
    else
      let uncertain := match decisions j !! keyAt k n with
                       | Some d => bool_decide (Status d = InputUncertain)
                       | None => false
                       end in
      if uncertain then Some ErrInputUncertain
      else if negb (InputSequence k =? n +64 1) then Some ErrInputSequence
      else None.

(** What [Write] does under the first lock. *)
Inductive Reserve :=
| Returned (r : result InputError InputDecision)
| Proceed (k : InputKey) (d : InputDecision).

Definition Write_reserve (key0 : InputKey) (data : list byte) (j : InputJournal) : InputJournal * Reserve :=
  let '(key, legacy) := normalizeInputKey key0 in
  if negb (validKey key) then (j, Returned (Err ErrInvalidInput))
  else
    let h := Sum256 data in
    match decisions j !! key with
    | Some previous =>
        if negb (bool_decide (hash previous = h)) then (j, Returned (Err ErrInputConflict))
        else
          let previous := if legacy && bool_decide (Status previous = InputAccepted)
                          then previous <| Status := InputDuplicate |> else previous in
          (j, Returned (Ok (publicDecision previous)))
    | None =>
        if (jmax j <=? Z.of_nat (size (decisions j))) then (j, Returned (Err ErrInputJournalFull))
        else if negb (Generation key =? current j)
        then (j, Returned (Err (StaleGenerationError (current j))))
        else
          match sequenceCheck key j with
          | Some e => (j, Returned (Err e))
          | None =>
              let d := mkDecision InputUncertain (InputSequence key) 0 EmptyString h in
              let j1 := j <| decisions := <[key := d]> (decisions j) |> in
              let j2 := if negb (InputSequence key =? 0)
                        then j1 <| last := <[cursorOf key := InputSequence key]> (last j) |> else j1 in
              (j2, Proceed key d)
          end
    end.

(** The outcome of the PTY write as a decision. *)
Definition outcome (d : InputDecision) (key : InputKey) (data : list byte) (n : Z) (failed : bool)
  : InputDecision :=
  let status := if (n =? len data) then InputAccepted
                else if (n =? 0) then InputRejected else InputUncertain in
  let status := if failed && (0 <? n) && (n <? len data) then InputUncertain else status in
  mkDecision status (if negb (InputSequence key =? 0) then InputSequence key else dSequence d) n
    (if failed then "pty_write_failed" else EmptyString) (hash d).

(** What [Write] does under the second lock. *)
Definition Write_commit (key : InputKey) (d : InputDecision) (data : list byte) (n : Z) (failed : bool)
    (j : InputJournal) : InputJournal * InputDecision :=
  let d1 := outcome d key data n failed in
  let j1 := match decisions j !! key with
            | Some cur => if bool_decide (hash cur = hash d) then j <| decisions := <[key := d1]> (decisions j) |>
                          else j
            | None => j
            end in
  (j1, publicDecision d1).

Definition Query (key0 : InputKey) (j : InputJournal) : result InputError InputDecision :=
  match decisions j !! fst (normalizeInputKey key0) with
  | None => Err ErrInputUnknown
  | Some d => Ok (publicDecision d)
  end.

Definition Admit (key0 : InputKey) (j : InputJournal) : result InputError unit :=
  let key := fst (normalizeInputKey key0) in
  match decisions j !! key with
  | Some _ => Ok tt
  | None =>
      if (jmax j <=? Z.of_nat (size (decisions j))) then Err ErrInputJournalFull
      else match sequenceCheck key j with Some e => Err e | None => Ok tt end
  end.

Definition Restore (key0 : InputKey) (h : list byte) (status : InputStatus) (n : Z) (code : string)
    (j : InputJournal) : InputJournal * result InputError unit :=
  let key := fst (normalizeInputKey key0) in
  if negb (len h =? 32) || negb (validKey key) || bool_decide (status = InputDuplicate)
  then (j, Err ErrInvalidInput)
  else
    match decisions j !! key with
    | Some _ => (j, Err ErrInputConflict)
    | None =>
        if (jmax j <=? Z.of_nat (size (decisions j))) then (j, Err ErrInputJournalFull)
        else
          let j1 := j <| decisions := <[key := mkDecision status (InputSequence key) n code h]> (decisions j) |> in
          (if negb (InputSequence key =? 0) && (lastOf (cursorOf key) j <? InputSequence key)
           then j1 <| last := <[cursorOf key := InputSequence key]> (last j) |> else j1, Ok tt)
    end.

Definition LastSequence (client attachment : string) (generation : Z) (j : InputJournal) : Z :=
  lastOf (client, attachment, generation) j.

(** ** Any number of callers *)

(** A call between its two locked parts. *)
Record InFlight := mkFlight { fkey : InputKey; fdec : InputDecision; fdata : list byte }.

(** A write the PTY has been given, with what it returned. *)
Record PtyWrite := mkPtyWrite { wkey : InputKey; wdata : list byte; wcount : Z; wfailed : bool }.

(** The journal, the calls in flight and the writes the PTY has been given. *)
Record JState := mkJState { journal : InputJournal; flight : list InFlight; pty : list PtyWrite }.

Inductive JOp :=
| JCall (k : InputKey) (data : list byte)
| JWritten (i : nat) (n : Z) (failed : bool)   (** the PTY write of call [i] returns *)
| JGeneration (g : Z).

Definition jstep (op : JOp) (s : JState) : JState :=
  match op with
  | JCall k data =>
      match Write_reserve k data (journal s) with
      | (j, Returned _) => mkJState j (flight s) (pty s)
      | (j, Proceed key d) => mkJState j (flight s ++ [mkFlight key d data]) (pty s)
      end
  | JWritten i n failed =>
      match flight s !! i with
      | None => s
      | Some c =>
          mkJState (fst (Write_commit (fkey c) (fdec c) (fdata c) n failed (journal s)))
            (delete i (flight s)) (pty s ++ [mkPtyWrite (fkey c) (fdata c) n failed])
      end
  | JGeneration g => mkJState (SetGeneration g (journal s)) (flight s) (pty s)
  end.

Definition jrun (ops : list JOp) (s : JState) : JState := fold_left (fun s op => jstep op s) ops s.

(** ** The invariant *)
#[local] Opaque Sum256.

(** The identities given to the PTY, in order, then those on their way. *)
Definition used (s : JState) : list InputKey := map wkey (pty s) ++ map fkey (flight s).

(** The sequence numbers of a cursor among some identities. *)
Definition seqs (c : Cursor) (ks : list InputKey) : list Z :=
  map InputSequence (List.filter (fun k => bool_decide (cursorOf k = c) && negb (InputSequence k =? 0)) ks).

(** Each number follows the one before it (and does not wrap). *)
Fixpoint contiguous (l : list Z) : Prop :=
  match l with
  | a :: (b :: _) as rest => b = a +64 1 /\ contiguous rest
  | _ => True
  end.

Definition reserved (k : InputKey) (h : list byte) : InputDecision :=
  mkDecision InputUncertain (InputSequence k) 0 EmptyString h.

Record jinv (s : JState) : Prop := {
  ji_nodup : NoDup (used s);
  ji_known k : k ∈ used s -> is_Some (decisions (journal s) !! k);
  ji_normal k : k ∈ used s -> normalizeInputKey k = (k, (InputSequence k =? 0));
  ji_flight c : c ∈ flight s -> fdec c = reserved (fkey c) (Sum256 (fdata c)) /\
    decisions (journal s) !! fkey c = Some (fdec c);
  ji_pty w : w ∈ pty s -> decisions (journal s) !! wkey w =
    Some (outcome (reserved (wkey w) (Sum256 (wdata w))) (wkey w) (wdata w) (wcount w) (wfailed w));
  ji_contiguous c : contiguous (seqs c (used s));
  ji_last c : seqs c (used s) <> [] -> List.last (seqs c (used s)) 0 = lastOf c (journal s);
  ji_single c : (length (seqs c (map fkey (flight s))) <= 1)%nat
}.

Lemma seqs_app c a b : seqs c (a ++ b) = seqs c a ++ seqs c b.
Proof. unfold seqs. by rewrite List.filter_app, map_app. Qed.

Lemma seqs_perm c a b : a ≡ₚ b -> seqs c a ≡ₚ seqs c b.
Proof.
  intros H. unfold seqs. apply Permutation_map. induction H; simpl.
  - done.
  - case_match; [by constructor|done].
  - repeat case_match; try done. apply Permutation_swap.
  - by etransitivity.
Qed.

Lemma seqs_single c k : seqs c [k] = [InputSequence k] /\ cursorOf k = c /\ InputSequence k <> 0 \/
  seqs c [k] = [] /\ (cursorOf k <> c \/ InputSequence k = 0).
Proof.
  unfold seqs. simpl. destruct (bool_decide (cursorOf k = c)) eqn:E1; simpl;
    [destruct (InputSequence k =? 0) eqn:E2|]; bool_hyps; auto.
Qed.

Lemma perm_short {A} (a b : list A) : a ≡ₚ b -> (length b <= 1)%nat -> a = b.
Proof.
  intros H Hl. destruct b as [|x [|]]; simpl in Hl; try lia.
  - by apply Permutation_nil_r in H.
  - by apply Permutation_singleton_r in H.
Qed.

(** Finishing a call leaves every cursor's numbers in place. *)
Lemma seqs_finish c (p f : list InputKey) i k :
  f !! i = Some k -> (length (seqs c f) <= 1)%nat ->
  seqs c ((p ++ [k]) ++ delete i f) = seqs c (p ++ f) /\ (length (seqs c (delete i f)) <= 1)%nat.
Proof.
  intros Hi Hl. pose proof (seqs_perm c _ _ (delete_Permutation f i k Hi)) as Hp.
  change (k :: delete i f) with ([k] ++ delete i f) in Hp. rewrite seqs_app in Hp.
  rewrite !seqs_app, <- app_assoc. rewrite (perm_short (seqs c [k] ++ seqs c (delete i f)) (seqs c f)); [|by symmetry|done].
  split; [done|]. apply Permutation_length in Hp. rewrite length_app in Hp. lia.
Qed.

Lemma contiguous_snoc l q : contiguous l -> (l <> [] -> q = List.last l 0 +64 1) -> contiguous (l ++ [q]).
Proof.
  induction l as [|a [|b l] IH]; intros Hc Hq; [done| |].
  - simpl. split; [|done]. by apply Hq.
  - destruct Hc as [E Hc]. simpl. split; [done|]. apply IH; [done|]. intros _. by apply Hq.
Qed.

Lemma last_snoc (l : list Z) q : List.last (l ++ [q]) 0 = q.
Proof. apply List.last_last. Qed.

(** What an accepted reservation knows and changes. *)
Record reserves (key : InputKey) (data : list byte) (j j' : InputJournal) : Prop := {
  rs_valid : validKey key = true;
  rs_new : decisions j !! key = None;
  rs_room : Z.of_nat (size (decisions j)) < jmax j;
  rs_generation : Generation key = current j;
  rs_sequence : sequenceCheck key j = None;
  rs_decisions : decisions j' = <[key := reserved key (Sum256 data)]> (decisions j);
  rs_last c : lastOf c j' = if bool_decide (cursorOf key = c) && negb (InputSequence key =? 0)
                            then InputSequence key else lastOf c j;
  rs_max : jmax j' = jmax j
}.

Lemma Write_reserve_spec key0 data j :
  match Write_reserve key0 data j with
  | (j', Returned _) => j' = j
  | (j', Proceed key d) =>
      key = fst (normalizeInputKey key0) /\ d = reserved key (Sum256 data) /\ reserves key data j j'
  end.
Proof.
  unfold Write_reserve. destruct (normalizeInputKey key0) as [key legacy]. simpl.
  destruct (validKey key) eqn:Ev; simpl; [|done].
  destruct (decisions j !! key) as [previous|] eqn:Ed; [by destruct (negb _)|].
  destruct (jmax j <=? Z.of_nat (size (decisions j))) eqn:Em; [done|].
  destruct (Generation key =? current j) eqn:Eg; simpl; [|done].
  destruct (sequenceCheck key j) eqn:Es; [done|]. bool_hyps.
  split; [done|]. split; [done|]. split; try done.
  - destruct (InputSequence key =? 0); done.
  - intros c. unfold lastOf. destruct (InputSequence key =? 0) eqn:Ez; simpl.
    + by rewrite andb_false_r.
    + rewrite andb_true_r. destruct (decide (cursorOf key = c)) as [<-|Hne].
      * rewrite bool_decide_true, lookup_insert_eq by done. done.
      * rewrite bool_decide_false, lookup_insert_ne by done. done.
  - by destruct (InputSequence key =? 0).
Qed.

Lemma normalize_idem k : normalizeInputKey (fst (normalizeInputKey k)) =
  (fst (normalizeInputKey k), (InputSequence (fst (normalizeInputKey k)) =? 0)).
Proof.
  unfold normalizeInputKey. destruct (InputSequence k =? 0) eqn:E; simpl; by rewrite E.
Qed.

Lemma keyAt_normal k k' : normalizeInputKey k = (k, (InputSequence k =? 0)) -> InputSequence k <> 0 ->
  cursorOf k = cursorOf k' -> keyAt k' (InputSequence k) = k.
Proof.
  unfold normalizeInputKey. intros H Hz [= E1 E2 E3]. rewrite (proj2 (Z.eqb_neq _ _)) in H by done.
  simpl in H. injection H as H. unfold keyAt. rewrite <- E1, <- E2, <- E3. done.
Qed.

Lemma seqs_last_in c ks : seqs c ks <> [] ->
  exists k, k ∈ ks /\ cursorOf k = c /\ InputSequence k <> 0 /\ InputSequence k = List.last (seqs c ks) 0.
Proof.
  intros H. assert (In (List.last (seqs c ks) 0) (seqs c ks)) as Hin.
  { destruct (exists_last H) as (l & x & ->). rewrite last_snoc. apply in_or_app. right. by left. }
  unfold seqs in Hin at 2. apply in_map_iff in Hin as (k & E & Hk). apply filter_In in Hk as [Hk Hb].
  bool_hyps. exists k. split; [by apply list_elem_of_In|]. done.
Qed.

(** An accepted input follows the cursor's last one, which is settled. *)
Lemma reserve_follows s key data j' :
  jinv s -> reserves key data (journal s) j' -> normalizeInputKey key = (key, (InputSequence key =? 0)) ->
  InputSequence key <> 0 ->
  seqs (cursorOf key) (map fkey (flight s)) = [] /\
  (seqs (cursorOf key) (used s) <> [] ->
   InputSequence key = List.last (seqs (cursorOf key) (used s)) 0 +64 1).
Proof.
  intros J [R1 R2 R3 R4 R5 R6 R7 R8] Hn Hz. unfold sequenceCheck in R5.
  rewrite (proj2 (Z.eqb_neq _ _)) in R5 by done.
  assert (Hne : seqs (cursorOf key) (used s) <> [] ->
    exists d, decisions (journal s) !! keyAt key (lastOf (cursorOf key) (journal s)) = Some d /\
      Status d <> InputUncertain /\ InputSequence key = lastOf (cursorOf key) (journal s) +64 1).
  { intros H. pose proof (ji_last _ J _ H) as Hl.
    destruct (seqs_last_in _ _ H) as (k & Hk & Hc & Hkz & Hkl). rewrite Hl in Hkl.
    rewrite (proj2 (Z.eqb_neq _ _)) in R5 by congruence.
    assert (keyAt key (lastOf (cursorOf key) (journal s)) = k) as Ek
      by (rewrite <- Hkl; apply keyAt_normal; [by apply (ji_normal _ J)|done|done]).
    destruct (ji_known _ J k Hk) as [d Hd]. rewrite Ek, Hd in *. exists d. split; [done|].
    destruct (bool_decide (Status d = InputUncertain)) eqn:Eu; [done|]. bool_hyps. split; [done|].
    destruct (InputSequence key =? _) eqn:Es; [by bool_hyps|done]. }
  split.
  - destruct (seqs (cursorOf key) (map fkey (flight s))) as [|q l] eqn:Ef; [done|exfalso].
    assert (l = []) as -> by (pose proof (ji_single _ J (cursorOf key)) as H; rewrite Ef in H; simpl in H; destruct l; [done|simpl in H; lia]).
    assert (Hu : seqs (cursorOf key) (used s) <> []) by (unfold used; rewrite seqs_app, Ef; by intros [_ ?]%app_eq_nil).
    destruct (Hne Hu) as (d & Hd & Hs & _).
    pose proof (ji_last _ J _ Hu) as Hl. unfold used in Hl. rewrite seqs_app, Ef, last_snoc in Hl.
    destruct (seqs_last_in (cursorOf key) (map fkey (flight s))) as (k & Hk & Hc & Hkz & Hkl); [by rewrite Ef|].
    rewrite Ef in Hkl. simpl in Hkl.
    apply list_elem_of_fmap in Hk as (c & -> & Hcin). destruct (ji_flight _ J c Hcin) as [E1 E2].
    rewrite <- Hl, <- Hkl in Hd. rewrite keyAt_normal in Hd; [|apply (ji_normal _ J)|done|done].
    + rewrite E2, E1 in Hd. by injection Hd as <-.
    + unfold used. apply elem_of_app. right. apply list_elem_of_fmap. eauto.
  - intros H. destruct (Hne H) as (d & _ & _ & ->). by rewrite (ji_last _ J _ H).
Qed.

Lemma call_inv k data s : jinv s -> jinv (jstep (JCall k data) s).
Proof.
  intros J. simpl. pose proof (Write_reserve_spec k data (journal s)) as H.
  destruct (Write_reserve k data (journal s)) as [j' [r|key d]]; [subst; by destruct s|].
  destruct H as (Ek & -> & R).
  assert (Hn : normalizeInputKey key = (key, (InputSequence key =? 0))) by (subst; apply normalize_idem).
  set (fl := mkFlight key _ data). set (s' := mkJState _ _ _).
  assert (Hused : used s' = used s ++ [key]).
  { unfold used. simpl. by rewrite map_app, app_assoc. }
  assert (Hfresh : key ∉ used s) by (intros Hin; destruct (ji_known _ J key Hin); destruct R; congruence).
  assert (Hother : forall k', k' ∈ used s -> decisions j' !! k' = decisions (journal s) !! k').
  { intros k' Hk'. rewrite (rs_decisions _ _ _ _ R), lookup_insert_ne; [done|]. intros ->. done. }
  split; rewrite ?Hused; simpl.
  - apply NoDup_app. split; [apply J|]. split; [|apply NoDup_singleton].
    intros x Hx ->%list_elem_of_singleton. done.
  - intros k' [Hk'| ->%list_elem_of_singleton]%elem_of_app.
    + rewrite Hother by done. by apply J.
    + rewrite (rs_decisions _ _ _ _ R), lookup_insert_eq. by eexists.
  - intros k' [Hk'| ->%list_elem_of_singleton]%elem_of_app; [by apply J|done].
  - intros c [Hc| ->%list_elem_of_singleton]%elem_of_app.
    + rewrite Hother; [by apply (ji_flight _ J)|]. apply elem_of_app. right. apply list_elem_of_fmap. eauto.
    + split; [done|]. by rewrite (rs_decisions _ _ _ _ R), lookup_insert_eq.
  - intros w Hw. rewrite Hother; [by apply (ji_pty _ J)|]. apply elem_of_app. left. apply list_elem_of_fmap. eauto.
  - intros c. rewrite seqs_app. destruct (seqs_single c key) as [(-> & Hc & Hz)|[-> _]].
    + apply contiguous_snoc; [apply J|]. subst c. by eapply reserve_follows.
    + rewrite app_nil_r. apply J.
  - intros c. rewrite seqs_app, (rs_last _ _ _ _ R c).
    destruct (seqs_single c key) as [(-> & Hc & Hz)|[-> Hno]].
    + intros _. rewrite last_snoc, bool_decide_true, (proj2 (Z.eqb_neq _ _)) by done. done.
    + rewrite app_nil_r. destruct Hno as [Hno|Hno].
      * rewrite bool_decide_false by done. apply J.
      * rewrite Hno, andb_false_r. apply J.
  - intros c. rewrite map_app, seqs_app, length_app. simpl.
    destruct (seqs_single c key) as [(-> & Hc & Hz)|[-> _]].
    + subst c. destruct (reserve_follows s key data j' J R Hn Hz) as [-> _]. simpl. lia.
    + simpl. pose proof (ji_single _ J c). lia.
Qed.

Lemma written_inv i n failed s : jinv s -> jinv (jstep (JWritten i n failed) s).
Proof.
  intros J. simpl. destruct (flight s !! i) as [c|] eqn:Ei; [|done].
  assert (Hin : c ∈ flight s) by (by eapply list_elem_of_lookup_2).
  destruct (ji_flight _ J c Hin) as [Ed El]. unfold Write_commit. simpl. rewrite El.
  rewrite bool_decide_true by done. simpl.
  set (s' := mkJState _ _ _).
  assert (Hif : map fkey (flight s) !! i = Some (fkey c)) by (by apply list_lookup_fmap_Some_2).
  assert (Hdel : map fkey (delete i (flight s)) = delete i (map fkey (flight s))) by (apply list_fmap_delete).
  assert (Hperm : used s' ≡ₚ used s).
  { unfold used, s'. simpl. rewrite map_app. simpl. rewrite Hdel.
    rewrite (delete_Permutation (map fkey (flight s)) i (fkey c) Hif) at 2. by rewrite <- app_assoc. }
  assert (Hseq : forall cu, seqs cu (used s') = seqs cu (used s) /\ (length (seqs cu (map fkey (flight s'))) <= 1)%nat).
  { intros cu. unfold used, s'. simpl. rewrite map_app. simpl. rewrite Hdel.
    apply seqs_finish; [done|apply J]. }
  assert (Hnd : NoDup (map wkey (pty s) ++ fkey c :: delete i (map fkey (flight s)))).
  { pose proof (ji_nodup _ J) as H. unfold used in H.
    by rewrite (delete_Permutation (map fkey (flight s)) i (fkey c) Hif) in H. }
  apply NoDup_app in Hnd as (N1 & N2 & N3). inversion N3 as [|? ? N4 N5]; subst.
  split.
  - rewrite Hperm. apply J.
  - intros k. rewrite Hperm. intros Hk. simpl. destruct (decide (k = fkey c)) as [->|Hne].
    + rewrite lookup_insert_eq. by eexists.
    + rewrite lookup_insert_ne by done. by apply J.
  - intros k. rewrite Hperm. apply J.
  - simpl. intros c' Hc'.
    assert (fkey c' ∈ delete i (map fkey (flight s))) as Hk by (rewrite <- Hdel; apply list_elem_of_fmap; eauto).
    rewrite lookup_insert_ne by (intros E; apply N4; by rewrite E).
    apply (ji_flight _ J). apply list_elem_of_lookup_1 in Hc' as [m Hm]. rewrite list_lookup_delete in Hm.
    case_match; by eapply list_elem_of_lookup_2.
  - simpl. intros w [Hw| ->%list_elem_of_singleton]%elem_of_app; simpl.
    + rewrite lookup_insert_ne; [by apply (ji_pty _ J)|]. intros E. apply (N2 (wkey w)); [apply list_elem_of_fmap; eauto|].
      rewrite <- E. left.
    + by rewrite lookup_insert_eq, Ed.
  - intros cu. destruct (Hseq cu) as [-> _]. apply J.
  - intros cu. destruct (Hseq cu) as [-> _]. simpl. unfold lastOf. simpl. apply J.
  - intros cu. apply Hseq.
Qed.

Lemma jstep_inv op s : jinv s -> jinv (jstep op s).
Proof.
  intros J. destruct op as [k data|i n failed|g]; [by apply call_inv|by apply written_inv|].
  destruct J. by split.
Qed.

Lemma jrun_inv ops : forall s, jinv s -> jinv (jrun ops s).
Proof. induction ops as [|op ops IH]; intros s J; [done|]. apply IH. by apply jstep_inv. Qed.

Definition jstart (j : InputJournal) : JState := mkJState j [] [].

Lemma jstart_inv j : jinv (jstart j).
Proof.
  split; simpl; try (by intros ? ?%elem_of_nil); try done; [constructor|]. intros c. simpl. lia.
Qed.

Lemma jstep_size op st : jinv st ->
  Z.of_nat (size (decisions (journal (jstep op st)))) <=
    Z.max (Z.of_nat (size (decisions (journal st)))) (jmax (journal st)) /\
  jmax (journal (jstep op st)) = jmax (journal st).
Proof.
  intros J. destruct op as [k data|i n failed|g]; simpl; [| |split; [lia|done]].
  - pose proof (Write_reserve_spec k data (journal st)) as H.
    destruct (Write_reserve k data (journal st)) as [j' [r|key d]]; simpl; [subst; split; [lia|done]|].
    destruct H as (_ & _ & [R1 R2 R3 R4 R5 R6 R7 R8]). rewrite R6, map_size_insert_None by done.
    split; [lia|done].
  - destruct (flight st !! i) as [c|] eqn:Ei; [|split; [lia|done]].
    destruct (ji_flight _ J c) as [_ E]; [by eapply list_elem_of_lookup_2|].
    unfold Write_commit. simpl. rewrite E, bool_decide_true by done. simpl.
    rewrite map_size_insert_Some by done. split; [lia|done].
Qed.

(** ** The theorems *)
Section runs.
Variables (j0 : InputJournal) (ops : list JOp).
Local Abbreviation s := (jrun ops (jstart j0)).

Lemma run_jinv : jinv s.
Proof. apply jrun_inv, jstart_inv. Qed.

(** C4: an input reaches the PTY at most once.  Whatever the clients send and
    resend, concurrently or after a reconnect, and whatever the PTY returns, no
    identity is ever written to the PTY twice, nor once more while its first
    write is under way. *)
Theorem input_at_most_once :
  let st := jrun ops (jstart j0) in NoDup (map wkey (pty st) ++ map fkey (flight st)).
Proof. exact (ji_nodup _ run_jinv). Qed.

(** The inputs of one client, attachment and generation reach the PTY in
    order and without a hole: their sequence numbers are consecutive in the order
    of the writes, and at most one of them is under way. *)
Theorem input_in_order (c : Cursor) :
  let st := jrun ops (jstart j0) in
  contiguous (seqs c (map wkey (pty st)) ++ seqs c (map fkey (flight st))) /\
  (length (seqs c (map fkey (flight st))) <= 1)%nat.
Proof.
  pose proof run_jinv as J. split; [|apply (ji_single _ J)].
  rewrite <- seqs_app. apply (ji_contiguous _ J).
Qed.

(** A retry of a finished input is answered from the journal.  The same bytes
    get the decision of the one PTY write (a legacy identity sees an accepted one
    as a duplicate), other bytes get a conflict, and neither touches the journal;
    the decision says accepted exactly when the PTY took every byte. *)
Theorem retry_answered (w : PtyWrite) (data : list byte) :
  w ∈ pty s -> validKey (wkey w) = true ->
  let d := outcome (reserved (wkey w) (Sum256 (wdata w))) (wkey w) (wdata w) (wcount w) (wfailed w) in
  Write_reserve (wkey w) data (journal s) =
    (journal s, Returned (
       if bool_decide (Sum256 (wdata w) = Sum256 data) then
         Ok (publicDecision (if (InputSequence (wkey w) =? 0) && bool_decide (Status d = InputAccepted)
                             then d <| Status := InputDuplicate |> else d))
       else Err ErrInputConflict)) /\
  (Status d = InputAccepted <-> wcount w = len (wdata w)).
Proof.
  intros Hw Hv d. pose proof run_jinv as J. split.
  - unfold Write_reserve. rewrite (ji_normal _ J)
      by (apply elem_of_app; left; apply list_elem_of_fmap; eauto).
    rewrite Hv, (ji_pty _ J w Hw). fold d. change (hash d) with (Sum256 (wdata w)).
    by destruct (bool_decide (Sum256 (wdata w) = Sum256 data)).
  - unfold d, outcome. simpl. destruct (wcount w =? len (wdata w)) eqn:E1; bool_hyps.
    + rewrite E1, Z.ltb_irrefl, andb_false_r. done.
    + split; [|done]. repeat case_match; done.
Qed.

(** The journal never holds more decisions than its bound, and once it is
    full every new input is refused while finished ones are still answered. *)
Theorem journal_bounded :
  Z.of_nat (size (decisions j0)) <= jmax j0 ->
  Z.of_nat (size (decisions (journal s))) <= jmax j0 /\
  (Z.of_nat (size (decisions (journal s))) = jmax j0 -> forall k data,
     decisions (journal s) !! fst (normalizeInputKey k) = None -> validKey (fst (normalizeInputKey k)) = true ->
     Write_reserve k data (journal s) = (journal s, Returned (Err ErrInputJournalFull))).
Proof.
  intros H0. assert (Hb : Z.of_nat (size (decisions (journal s))) <= jmax j0 /\ jmax (journal s) = jmax j0).
  { assert (Hgen : forall st, Z.of_nat (size (decisions (journal st))) <= jmax j0 ->
      jmax (journal st) = jmax j0 -> forall os, jinv st ->
      Z.of_nat (size (decisions (journal (jrun os st)))) <= jmax j0 /\ jmax (journal (jrun os st)) = jmax j0).
    { intros st Hs Hm os. revert st Hs Hm. induction os as [|op os IH]; intros st Hs Hm J; [done|].
      apply (IH (jstep op st)); [| |by apply jstep_inv].
      - by destruct (jstep_size op st J) as [? _]; lia.
      - by destruct (jstep_size op st J) as [_ ->]. }
    apply Hgen; [done|done|apply jstart_inv]. }
  destruct Hb as [Hb Hm]. split; [done|]. intros Hfull k data Hn Hv. unfold Write_reserve.
  destruct (normalizeInputKey k) as [key legacy]. simpl in *. rewrite Hv, Hn. simpl.
  rewrite (proj2 (Z.leb_le _ _)) by lia. done.
Qed.
End runs.

(** ** The theorems on a concrete journal *)
Definition demoKey (n : Z) : InputKey := mkKey "client" "tab" 1 n EmptyString.
Definition demoJournal : InputJournal := NewBoundedInputJournal 1 2.
Definition demoCalls : list JOp :=
  [JCall (demoKey 1) (bytes "ls"); JCall (demoKey 1) (bytes "ls"); JCall (demoKey 2) (bytes "x");
   JWritten 0 2 false; JCall (demoKey 2) (bytes "pwd"); JWritten 0 1 true; JCall (demoKey 3) (bytes "y")].

Lemma retry_answered_witness :
  snd (Write_reserve (demoKey 1) (bytes "ls") (journal (jrun demoCalls (jstart demoJournal)))) =
    Returned (Ok (mkDecision InputAccepted 1 2 EmptyString (zero_bytes 32))).
Proof.
  destruct (retry_answered demoJournal demoCalls (mkPtyWrite (demoKey 1) (bytes "ls") 2 false) (bytes "ls")) as [H _].
  - assert (pty (jrun demoCalls (jstart demoJournal)) =
      [mkPtyWrite (demoKey 1) (bytes "ls") 2 false; mkPtyWrite (demoKey 2) (bytes "pwd") 1 true]) as ->
      by (vm_compute; reflexivity). left.
  - vm_compute. reflexivity.
  - simpl wkey in H. rewrite H. simpl snd. rewrite bool_decide_true by reflexivity. reflexivity.
Defined.

Lemma journal_bounded_witness :
  Write_reserve (demoKey 3) (bytes "y") (journal (jrun demoCalls (jstart demoJournal))) =
    (journal (jrun demoCalls (jstart demoJournal)), Returned (Err ErrInputJournalFull)).
Proof.
  apply (journal_bounded demoJournal demoCalls).
  - vm_compute. discriminate.
  - vm_compute. reflexivity.
  - vm_compute. reflexivity.
  - vm_compute. reflexivity.
Defined.
