(* ===== verification/RelayRecord.v ===== *)
(** * Relay end-to-end records

    Models [internal/peertransport/relaynoise/record.go]: the record layer that
    protects a stream carried by an untrusted relay.  A [Session] holds one cipher
    per direction with a sequence number, the amount of data protected so far and
    the time the keys were installed.

    [noise.CipherState] is third-party code: the class [CipherState] is its
    interface (an operation consumes the receiver's nonce, so it returns the next
    state) and [CipherLaws] states what the record layer relies on.  Every
    operation takes the current time as [now], in nanoseconds; one reading of the
    clock stands for the readings a single call makes. *)
From S2P Require Import Prelude Codec.

Inductive RelayError :=
| ErrAuthentication | ErrProtocol | ErrReplay | ErrLimit | ErrRekeyRequired | ErrEncrypt
| ErrRekeyPolicy | ErrRekeyMarker | ErrInvalid
| ErrContext | ErrDeadline | ErrShortWrite | ErrWrite
| ErrRead (e : ReadError) | ErrControlClosed | ErrHandshake.

(** ** The cipher interface *)
Class CipherState := {
  cipher : Type;
  Encrypt : cipher -> list byte -> list byte -> option (cipher * list byte);
  Decrypt : cipher -> list byte -> list byte -> option (cipher * list byte)
}.

(** The states of a sending and a receiving cipher that hold the same key and
    nonce are [paired].  Encryption adds a 16-byte tag, and decryption at the
    paired state inverts it and keeps the states paired.  Encryption counts the
    nonce up and fails only when it is exhausted. *)
Class CipherLaws (C : CipherState) := {
  paired : cipher -> cipher -> Prop;
  Encrypt_length k k' ad p c : Encrypt k ad p = Some (k', c) -> len c = len p + 16;
  Decrypt_Encrypt k r k' ad p c :
    paired k r -> Encrypt k ad p = Some (k', c) ->
    exists r', Decrypt r ad c = Some (r', p) /\ paired k' r';
  nonce : cipher -> Z;
  Encrypt_nonce k k' ad p c : Encrypt k ad p = Some (k', c) -> nonce k' = nonce k + 1;
  Encrypt_succeeds k ad p : nonce k < maxUint64 -> exists k' c, Encrypt k ad p = Some (k', c)
}.

(** ** Constants *)
Definition headerLength : Z := 28.
Definition maximumCiphertext : Z := 65535.
Definition authenticationBytes : Z := 16.
Definition maximumPlaintext : Z := maximumCiphertext - authenticationBytes.
Definition softRekeyBytes : Z := 900 * 2 ^ 20.
Definition hardRekeyBytes : Z := 2 ^ 30.
Definition Minute : Z := 60 * 1000000000.
Definition softRekeyAge : Z := 55 * Minute.
Definition hardRekeyAge : Z := 60 * Minute.
Definition sequenceRekeyReserve : Z := 16.
Definition softRekeySequence : Z := maxUint64 - 2 * sequenceRekeyReserve.
Definition hardRekeySequence : Z := maxUint64 - sequenceRekeyReserve.
Definition flagResponder : Z := 1.
Definition flagClose : Z := 2.
Definition knownFlags : Z := Z.lor flagResponder flagClose.
Definition recordVersion : byte := x01.

Record RekeyPolicy := mkPolicy {
  pBytes : Z; HardBytes : Z; SoftAge : Z; HardAge : Z }.

Definition DevelopmentRekeyPolicy : RekeyPolicy :=
  mkPolicy softRekeyBytes hardRekeyBytes softRekeyAge hardRekeyAge.

(** [RekeyPolicy.valid] *)
Definition policy_valid (p : RekeyPolicy) : bool :=
  (0 <? pBytes p) && (pBytes p <=? HardBytes p) && (0 <? SoftAge p) && (SoftAge p <=? HardAge p).

(** [makeHeader] *)
Definition makeHeader (flags : Z) (handle : list byte) (sequence length : Z) : list byte :=
  [recordVersion; byte_of_Z flags] ++ handle ++ PutUint64 sequence ++ PutUint16 length.

#[global] Arguments makeHeader : simpl never.

(** [time.Time.IsZero]; the zero time is 0. *)
Definition IsZero (t : Z) : bool := t =? 0.

Section record.
Context `{C : CipherState}.

Record direction := mkDirection {
  dcipher : option cipher; sequence : Z; closed : bool; dbytes : Z; started : Z }.
#[global] Instance direction_eta : Eta direction :=
  fun d => mkDirection (dcipher d) (sequence d) (closed d) (dbytes d) (started d).

Record Session := mkSession {
  initiator : bool; handle : list byte; channelBinding : list byte;
  send : direction; receive : direction;
  poisoned : bool; rekeyPolicy : RekeyPolicy; rekeyEvents : bool }.
#[global] Instance Session_eta : Eta Session :=
  fun s => mkSession (initiator s) (handle s) (channelBinding s) (send s) (receive s)
    (poisoned s) (rekeyPolicy s) (rekeyEvents s).

Definition newDirection (k : cipher) (now : Z) : direction := mkDirection (Some k) 0 false 0 now.

Definition newSession (init : bool) (hdl : list byte) (snd rcv : cipher) (binding : list byte)
    (now : Z) : Session :=
  mkSession init hdl (take 32 (binding ++ zero_bytes 32))
    (newDirection snd now) (newDirection rcv now) false DevelopmentRekeyPolicy false.

Definition setChannelBinding (binding : list byte) (s : Session) : Session :=
  s <| channelBinding := binding |>.

Definition poison (s : Session) : Session := s <| poisoned := true |>.

Definition ConfigureRekeyPolicy (policy : RekeyPolicy) (s : Session) : result RelayError Session :=
  let defaults := DevelopmentRekeyPolicy in
  if negb (policy_valid policy) || (pBytes defaults <? pBytes policy)
     || (HardBytes defaults <? HardBytes policy) || (SoftAge defaults <? SoftAge policy)
     || (HardAge defaults <? HardAge policy)
  then Err ErrRekeyPolicy
  else if negb (sequence (send s) =? 0) || negb (sequence (receive s) =? 0)
     || negb (dbytes (send s) =? 0) || negb (dbytes (receive s) =? 0)
  then Err ErrRekeyPolicy
  else Ok (s <| rekeyPolicy := policy |>).

(** [signalRekeyLocked]: [rekeyEvents] is a channel of capacity one, written
    without blocking. *)
Definition signalRekeyLocked (d : direction) (now : Z) (s : Session) : Session :=
  if (sequence d <? softRekeySequence) && (dbytes d <? pBytes (rekeyPolicy s))
     && (now - started d <? SoftAge (rekeyPolicy s))
  then s else s <| rekeyEvents := true |>.

Definition rekeyRequiredLocked (s : Session) (d : direction) (now plaintextLength : Z)
    (rekeyControl : bool) : bool :=
  (sequence d =? maxUint64)
  || (negb rekeyControl && (hardRekeySequence <=? sequence d))
  || negb (policy_valid (rekeyPolicy s)) || IsZero (started d)
  || (HardBytes (rekeyPolicy s) <=? dbytes d)
  || (HardBytes (rekeyPolicy s) -64 dbytes d <? plaintextLength)
  || (HardAge (rekeyPolicy s) <=? now - started d).

Definition recordFlags (init closeAfter : bool) : Z :=
  Z.lor (if init then 0 else flagResponder) (if closeAfter then flagClose else 0).

(** [sealLocked] *)
Definition sealLocked (plaintext : list byte) (closeAfter rekeyControl : bool) (now : Z)
    (s : Session) : Session * result RelayError (list byte) :=
  let d := send s in
  match dcipher d with
  | None => (s, Err ErrProtocol)
  | Some k =>
      if closed d then (s, Err ErrProtocol)
      else if rekeyRequiredLocked s d now (len plaintext) rekeyControl
      then (signalRekeyLocked d now s, Err ErrRekeyRequired)
      else
        let header := makeHeader (recordFlags (initiator s) closeAfter) (handle s) (sequence d)
                        (len plaintext + authenticationBytes) in
        match Encrypt k header plaintext with
        | None => (poison s, Err ErrEncrypt)
        | Some (k', ciphertext) =>
            if negb (len ciphertext =? len plaintext + authenticationBytes)
            then (poison (s <| send := d <| dcipher := Some k' |> |>), Err ErrEncrypt)
            else
              let d' := mkDirection (Some k') (sequence d +64 1) (closed d)
                          (dbytes d +64 len plaintext) (started d) in
              let s' := signalRekeyLocked d' now s in
              (s' <| send := d' <| closed := closeAfter |> |>, Ok (header ++ ciphertext))
        end
  end.

Definition Seal (plaintext : list byte) (closeAfter : bool) (now : Z) (s : Session)
  : Session * result RelayError (list byte) :=
  if poisoned s then (s, Err ErrProtocol)
  else if maximumPlaintext <? len plaintext then (s, Err ErrLimit)
  else sealLocked plaintext closeAfter false now s.

(** [sealAndSend]: [ctxErr] is [ctx.Err() != nil] on entry, [snd] the carrier's
    send function, whose result is the carrier's new state and its error.  The
    record is sealed and handed to the carrier under one lock. *)
Definition sealAndSend {W} (ctxErr : bool) (plaintext : list byte) (closeAfter rekeyControl : bool)
    (snd : list byte -> W -> W * option RelayError) (now : Z) (s : Session) (w : W)
  : Session * W * option RelayError :=
  if poisoned s then (s, w, Some ErrProtocol)
  else if maximumPlaintext <? len plaintext then (s, w, Some ErrLimit)
  else if ctxErr then (s, w, Some ErrContext)
  else
    match sealLocked plaintext closeAfter rekeyControl now s with
    | (s', Err e) => (s', w, Some e)
    | (s', Ok record) =>
        match snd record w with
        | (w', Some e) => (poison s', w', Some e)
        | (w', None) => (s', w', None)
        end
    end.

(** Fields of a received header. *)
Definition hVersion (h : list byte) : byte := nth 0 h x00.
Definition hFlags (h : list byte) : Z := Z_of_byte (nth 1 h x00).
Definition hHandle (h : list byte) : list byte := sub 2 18 h.
Definition hSequence (h : list byte) : Z := be_get (sub 18 26 h).
Definition hLength (h : list byte) : Z := be_get (sub 26 28 h).
Definition hasFlag (flag flags : Z) : bool := negb (Z.land flags flag =? 0).

(** [Open]: the checks on the header that do not look at the direction's state. *)
Definition openChecks (record : list byte) (s : Session) : option RelayError :=
  if (len record <? headerLength) || (headerLength + maximumCiphertext <? len record)
  then Some ErrLimit
  else
    let header := take 28 record in
    if negb (bool_decide (hVersion header = recordVersion))
       || negb (Z.ldiff (hFlags header) knownFlags =? 0)
       || negb (bool_decide (hHandle header = handle s))
    then Some ErrProtocol
    else if negb (eqb (hasFlag flagResponder (hFlags header)) (initiator s)) then Some ErrProtocol
    else if (hLength header <? authenticationBytes)
         || negb (hLength header =? len record - headerLength)
    then Some ErrProtocol
    else None.

(** [Open]: the part under the receive direction's lock. *)
Definition openLocked (record : list byte) (now : Z) (s : Session)
  : Session * result RelayError (list byte * bool) :=
  let header := take 28 record in
  let d := receive s in
  match dcipher d with
  | None => (s, Err ErrProtocol)
  | Some r =>
      if closed d then (s, Err ErrProtocol)
      else if sequence d =? maxUint64 then (poison s, Err ErrRekeyRequired)
      else if negb (hSequence header =? sequence d) then (poison s, Err ErrReplay)
      else
        match Decrypt r header (drop 28 record) with
        | None => (poison s, Err ErrAuthentication)
        | Some (r', plaintext) =>
            if rekeyRequiredLocked s d now (len plaintext) true
            then (poison (s <| receive := d <| dcipher := Some r' |> |>), Err ErrRekeyRequired)
            else
              let closeAfter := hasFlag flagClose (hFlags header) in
              let d' := mkDirection (Some r') (sequence d +64 1) (closed d)
                          (dbytes d +64 len plaintext) (started d) in
              let s' := signalRekeyLocked d' now s in
              (s' <| receive := d' <| closed := closeAfter |> |>, Ok (plaintext, closeAfter))
        end
  end.

Definition Open (record : list byte) (now : Z) (s : Session)
  : Session * result RelayError (list byte * bool) :=
  if poisoned s then (s, Err ErrProtocol)
  else match openChecks record s with
       | Some e => (poison s, Err e)
       | None => openLocked record now s
       end.

Definition RekeyNeeded (now : Z) (s : Session) : bool :=
  let p := rekeyPolicy s in
  negb (policy_valid p) || (softRekeySequence <=? sequence (send s))
  || (softRekeySequence <=? sequence (receive s))
  || (pBytes p <=? dbytes (send s)) || (pBytes p <=? dbytes (receive s))
  || (SoftAge p <=? now - started (send s)) || (SoftAge p <=? now - started (receive s)).

Definition NextRekeyDelay (now : Z) (s : Session) : Z :=
  let p := rekeyPolicy s in
  if negb (policy_valid p) then 0
  else if (softRekeySequence <=? sequence (send s)) || (softRekeySequence <=? sequence (receive s))
  then 0
  else
    let sendDeadline := started (send s) + SoftAge p in
    let receiveDeadline := started (receive s) + SoftAge p in
    let deadline := if receiveDeadline <? sendDeadline then receiveDeadline else sendDeadline in
    if 0 <? deadline - now then deadline - now else 0.


(** ** Headers *)
Definition isHandle (h : list byte) : Prop := length h = 16%nat.

Lemma makeHeader_length f h q l : isHandle h -> length (makeHeader f h q l) = 28%nat.
Proof.
  unfold makeHeader, isHandle. intros E.
  rewrite !length_app, E. unfold PutUint64, PutUint16. by rewrite !be_put_length.
Qed.

Lemma makeHeader_take f h q l c : isHandle h -> take 28 (makeHeader f h q l ++ c) = makeHeader f h q l.
Proof. intros E. by rewrite take_app_le, take_ge by (rewrite makeHeader_length; [lia|done]). Qed.

Lemma makeHeader_drop f h q l c : isHandle h -> drop 28 (makeHeader f h q l ++ c) = c.
Proof. intros E. rewrite <- (makeHeader_length f h q l E). apply drop_app_length. Qed.

Lemma hFlags_makeHeader f h q l : 0 <= f < 256 -> hFlags (makeHeader f h q l) = f.
Proof. intros. unfold hFlags, makeHeader. simpl. rewrite Z_of_byte_of_Z. by apply Z.mod_small. Qed.

Lemma hHandle_makeHeader f h q l : isHandle h -> hHandle (makeHeader f h q l) = h.
Proof.
  unfold isHandle, hHandle, makeHeader. intros E. take_field.
Qed.

Lemma hSequence_makeHeader f h q l : isHandle h -> 0 <= q < two64 -> hSequence (makeHeader f h q l) = q.
Proof.
  unfold isHandle, hSequence, makeHeader. intros E Hq.
  pose proof (be_put_length 8 q) as E8.
  replace (sub 18 26 _) with (PutUint64 q); [by apply be_get_put_id|symmetry].
  unfold PutUint64 in *. take_field.
Qed.

Lemma hLength_makeHeader f h q l : isHandle h -> 0 <= l < 65536 -> hLength (makeHeader f h q l) = l.
Proof.
  unfold isHandle, hLength, makeHeader. intros E Hq.
  pose proof (be_put_length 8 q) as E8. pose proof (be_put_length 2 l) as E2.
  replace (sub 26 28 _) with (PutUint16 l); [by apply be_get_put_id|symmetry].
  unfold PutUint64, PutUint16 in *. take_field.
Qed.

Lemma recordFlags_range i c : 0 <= recordFlags i c < 256.
Proof. destruct i, c; cbv; split; congruence. Qed.

Lemma recordFlags_known i c : Z.ldiff (recordFlags i c) knownFlags = 0.
Proof. by destruct i, c. Qed.

Lemma recordFlags_responder i c : hasFlag flagResponder (recordFlags i c) = negb i.
Proof. by destruct i, c. Qed.

Lemma recordFlags_close i c : hasFlag flagClose (recordFlags i c) = c.
Proof. by destruct i, c. Qed.

(** ** What the operations change *)

(** Everything but the directions, the poison flag and the rekey event. *)
Definition same_identity (s s' : Session) : Prop :=
  initiator s' = initiator s /\ handle s' = handle s /\ rekeyPolicy s' = rekeyPolicy s /\
  channelBinding s' = channelBinding s.

Lemma same_identity_refl s : same_identity s s.
Proof. done. Qed.

Lemma same_identity_trans s1 s2 s3 :
  same_identity s1 s2 -> same_identity s2 s3 -> same_identity s1 s3.
Proof. unfold same_identity. intuition congruence. Qed.

Lemma poison_identity s : same_identity s (poison s).
Proof. done. Qed.

Lemma signal_frame d now s :
  let s' := signalRekeyLocked d now s in
  same_identity s s' /\ send s' = send s /\ receive s' = receive s /\ poisoned s' = poisoned s.
Proof. unfold signalRekeyLocked. by case_match. Qed.

(** A direction after one more record of [n] plaintext bytes. *)
Definition advanced (d : direction) (k : cipher) (n : Z) (closeAfter : bool) : direction :=
  mkDirection (Some k) (sequence d +64 1) closeAfter (dbytes d +64 n) (started d).

Inductive seal_outcome (p : list byte) (c rk : bool) (now : Z) (s s' : Session)
  : result RelayError (list byte) -> Prop :=
| seal_refused e : send s' = send s -> poisoned s' = poisoned s -> seal_outcome p c rk now s s' (Err e)
| seal_poisoned e : poisoned s' = true -> closed (send s') = closed (send s) -> seal_outcome p c rk now s s' (Err e)
| seal_sealed k k' ct :
    dcipher (send s) = Some k -> closed (send s) = false ->
    rekeyRequiredLocked s (send s) now (len p) rk = false ->
    Encrypt k (makeHeader (recordFlags (initiator s) c) (handle s) (sequence (send s))
                 (len p + authenticationBytes)) p = Some (k', ct) ->
    len ct = len p + authenticationBytes ->
    send s' = advanced (send s) k' (len p) c -> poisoned s' = poisoned s ->
    seal_outcome p c rk now s s'
      (Ok (makeHeader (recordFlags (initiator s) c) (handle s) (sequence (send s))
             (len p + authenticationBytes) ++ ct)).

Lemma sealLocked_outcome p c rk now s s' res :
  sealLocked p c rk now s = (s', res) ->
  same_identity s s' /\ receive s' = receive s /\ seal_outcome p c rk now s s' res.
Proof.
  unfold sealLocked. destruct (dcipher (send s)) as [k|] eqn:Ek.
  2: { intros [= <- <-]. split_and!; [done..|]. by constructor. }
  destruct (closed (send s)) eqn:Ec.
  { intros [= <- <-]. split_and!; [done..|]. by constructor. }
  destruct (rekeyRequiredLocked _ _ _ _ _) eqn:Er.
  { intros [= <- <-]. destruct (signal_frame (send s) now s) as (?&?&?&?).
    split_and!; [done..|]. by constructor. }
  destruct (Encrypt _ _ _) as [[k' ct]|] eqn:EE.
  2: { intros [= <- <-]. split_and!; [done..|]. by apply seal_poisoned. }
  destruct (len ct =? _) eqn:El; simpl.
  2: { intros [= <- <-]. split_and!; [done..|]. by apply seal_poisoned. }
  set (d' := mkDirection _ _ _ _ _). intros [= <- <-].
  destruct (signal_frame d' now s) as ((?&?&?&?)&?&?&?). apply Z.eqb_eq in El.
  split_and!; [done..|]. eapply seal_sealed; try eassumption; reflexivity.
Qed.

Inductive open_outcome (record : list byte) (now : Z) (s s' : Session)
  : result RelayError (list byte * bool) -> Prop :=
| open_closed e : s' = s -> poisoned s = true \/ closed (receive s) = true \/ dcipher (receive s) = None ->
    open_outcome record now s s' (Err e)
| open_poisoned e : poisoned s' = true -> open_outcome record now s s' (Err e)
| open_opened r r' p :
    poisoned s = false -> openChecks record s = None ->
    dcipher (receive s) = Some r -> closed (receive s) = false ->
    hSequence (take 28 record) = sequence (receive s) ->
    Decrypt r (take 28 record) (drop 28 record) = Some (r', p) ->
    rekeyRequiredLocked s (receive s) now (len p) true = false ->
    receive s' = advanced (receive s) r' (len p) (hasFlag flagClose (hFlags (take 28 record))) ->
    poisoned s' = poisoned s ->
    open_outcome record now s s' (Ok (p, hasFlag flagClose (hFlags (take 28 record)))).

Lemma Open_outcome record now s s' res :
  Open record now s = (s', res) ->
  same_identity s s' /\ send s' = send s /\ open_outcome record now s s' res.
Proof.
  unfold Open, openLocked. destruct (poisoned s) eqn:Ep.
  { intros [= <- <-]. split_and!; [done..|]. apply open_closed; auto. }
  destruct (openChecks record s) eqn:Eo.
  { intros [= <- <-]. split_and!; [done..|]. by apply open_poisoned. }
  destruct (dcipher (receive s)) as [r|] eqn:Ek.
  2: { intros [= <- <-]. split_and!; [done..|]. apply open_closed; auto. }
  destruct (closed (receive s)) eqn:Ec.
  { intros [= <- <-]. split_and!; [done..|]. apply open_closed; auto. }
  destruct (sequence (receive s) =? maxUint64) eqn:Em.
  { intros [= <- <-]. split_and!; [done..|]. by apply open_poisoned. }
  destruct (hSequence _ =? _) eqn:Eq; simpl.
  2: { intros [= <- <-]. split_and!; [done..|]. by apply open_poisoned. }
  destruct (Decrypt _ _ _) as [[r' p]|] eqn:ED.
  2: { intros [= <- <-]. split_and!; [done..|]. by apply open_poisoned. }
  destruct (rekeyRequiredLocked _ _ _ _ _) eqn:Er.
  { intros [= <- <-]. split_and!; [done..|]. by apply open_poisoned. }
  set (d' := mkDirection _ _ _ _ _). intros [= <- <-].
  destruct (signal_frame d' now s) as ((?&?&?&?)&?&?&?). apply Z.eqb_eq in Eq.
  split_and!; [done..|]. eapply open_opened; try eassumption; solve [congruence | reflexivity].
Qed.

Lemma rekeyRequired_limits s d now n rk :
  rekeyRequiredLocked s d now n rk = false -> 0 <= sequence d < two64 -> 0 <= dbytes d < two64 ->
  HardBytes (rekeyPolicy s) < two64 ->
  sequence d < maxUint64 /\ (rk = false -> sequence d < hardRekeySequence) /\
  dbytes d < HardBytes (rekeyPolicy s) /\ n <= HardBytes (rekeyPolicy s) - dbytes d /\
  now - started d < HardAge (rekeyPolicy s).
Proof.
  unfold rekeyRequiredLocked. intros H Hs Hb Hh. bool_hyps.
  rewrite u64_sub in * by lia. unfold two64, maxUint64 in *.
  split_and!; try lia. intros ->. simpl in *. bool_hyps. lia.
Qed.

End record.
