(* ===== verification/RelayChannel.v ===== *)
(** * The channel invariant of a pair of relay sessions

    One direction of a protected stream: the records the sender has sealed, the
    plaintexts the receiver has accepted, and the relation between the two
    sessions that makes the second a prefix of the first whatever the relay does.
    The relay may drop, repeat, reorder, cut and invent records; what it cannot do
    is make the receiver's cipher accept a record the sender did not produce
    ([unforgeable], the integrity an AEAD gives). *)
From S2P Require Import Prelude Codec RelayRecord.

Section channel.
Context `{C : CipherState} `{L : !CipherLaws C}.

Record entry := mkEntry { ePlain : list byte; eClose : bool; eRecord : list byte }.

Definition entry_header (init : bool) (hdl : list byte) (q : Z) (e : entry) : list byte :=
  makeHeader (recordFlags init (eClose e)) hdl q (len (ePlain e) + authenticationBytes).

(** The records [l] take the sending cipher from [k] to [k'], starting at
    sequence number [q]. *)
Inductive chain (init : bool) (hdl : list byte) : cipher -> Z -> list entry -> cipher -> Prop :=
| chain_nil k q : chain init hdl k q [] k
| chain_cons k q e l k1 c k' :
    Encrypt k (entry_header init hdl q e) (ePlain e) = Some (k1, c) ->
    eRecord e = entry_header init hdl q e ++ c ->
    chain init hdl k1 (q + 1) l k' ->
    chain init hdl k q (e :: l) k'.

Lemma chain_snoc init hdl k q l k' e c k2 :
  chain init hdl k q l k' ->
  Encrypt k' (entry_header init hdl (q + len l) e) (ePlain e) = Some (k2, c) ->
  eRecord e = entry_header init hdl (q + len l) e ++ c ->
  chain init hdl k q (l ++ [e]) k2.
Proof.
  induction 1 as [k q|k q e0 l k1 c0 k' HE Hr Hc IH]; intros H1 H2; simpl.
  - rewrite len_nil, Z.add_0_r in *. econstructor; eauto. constructor.
  - econstructor; [done..|]. rewrite len_cons in *.
    replace (q + (1 + len l)) with (q + 1 + len l) in * by lia. auto.
Qed.

Definition shown (e : entry) : list byte * bool := (ePlain e, eClose e).

(** The integrity of the cipher, for one record offered to the receiver [R]: if
    its cipher accepts it, it is one of the records the sender produced. *)
Definition unforgeable (R : Session) (produced : list (list byte)) (record : list byte) : Prop :=
  forall r r' p, dcipher (receive R) = Some r ->
    Decrypt r (take 28 record) (drop 28 record) = Some (r', p) -> record ∈ produced.

(** A sealed record at its place in the log. *)
Definition entry_at (S : Session) (j : nat) (e : entry) : Prop :=
  len (ePlain e) <= maximumPlaintext /\ Z.of_nat j < maxUint64 /\
  exists c, len c = len (ePlain e) + authenticationBytes /\
    eRecord e = entry_header (initiator S) (handle S) (Z.of_nat j) e ++ c.

Record dir_inv (S R : Session) (sealed : list entry) (opened : list (list byte * bool)) : Prop := {
  di_handle : isHandle (handle S);
  di_same : handle R = handle S;
  di_roles : initiator R = negb (initiator S);
  di_prefix : opened `prefix_of` map shown sealed;
  di_log : forall j e, sealed !! j = Some e -> entry_at S j e;
  di_send : poisoned S = false -> sequence (send S) = len sealed;
  di_closed : forall j e, sealed !! j = Some e -> eClose e = true ->
    closed (send S) = true /\ length sealed = (j + 1)%nat;
  di_live : poisoned R = false ->
    sequence (receive R) = len opened /\
    exists kr ks r, dcipher (receive R) = Some r /\ paired kr r /\
      chain (initiator S) (handle S) kr (len opened) (drop (length opened) sealed) ks /\
      (poisoned S = false -> dcipher (send S) = Some ks)
}.

(** ** Preservation *)
Implicit Types S R : Session.

(** The invariant looks at the identities, the sender's send direction and the
    receiver's receive direction; poison may come from anywhere. *)
Lemma dir_inv_frame S R S' R' sealed opened :
  dir_inv S R sealed opened ->
  same_identity S S' -> same_identity R R' ->
  send S' = send S -> receive R' = receive R ->
  (poisoned S' = false -> poisoned S = false) -> (poisoned R' = false -> poisoned R = false) ->
  dir_inv S' R' sealed opened.
Proof.
  intros [] (Hi&Hh&_) (Hi'&Hh'&_) Hs Hr HpS HpR.
  split; rewrite ?Hs, ?Hr, ?Hi, ?Hh, ?Hi', ?Hh'; auto.
  - intros j e Hj. destruct (di_log0 j e Hj) as (?&?&c&?&?).
    split_and!; [done..|]. exists c. by rewrite Hi, Hh.
  - intros HR. destruct (di_live0 ltac:(auto)) as (?&kr&ks&r&?&?&?&?).
    split; [done|]. exists kr, ks, r. split_and!; auto.
Qed.

(** Poisoning a session that sends, whatever its directions become. *)
Lemma dir_inv_sender_poisoned S R S' sealed opened :
  dir_inv S R sealed opened -> same_identity S S' -> poisoned S' = true ->
  closed (send S') = closed (send S) -> dir_inv S' R sealed opened.
Proof.
  intros [] (Hi&Hh&_) Hp Hc. split; rewrite ?Hi, ?Hh, ?Hp, ?Hc; auto.
  - intros j e Hj. destruct (di_log0 j e Hj) as (?&?&c&?&?).
    split_and!; [done..|]. exists c. by rewrite Hi, Hh.
  - done.
  - intros HR. destruct (di_live0 HR) as (?&kr&ks&r&?&?&?&?).
    split; [done|]. exists kr, ks, r. split_and!; auto. done.
Qed.

Lemma len_sealed S R sealed opened :
  dir_inv S R sealed opened -> len sealed <= maxUint64.
Proof.
  intros []. destruct (decide (length sealed = 0%nat)) as [E|E]; [unfold len, maxUint64; lia|].
  destruct (lookup_lt_is_Some_2 sealed (length sealed - 1)) as [e He]; [lia|].
  destruct (di_log0 _ _ He) as (_&?&_). unfold len. lia.
Qed.

Lemma dir_inv_seal S R sealed opened p c rk now S' res :
  dir_inv S R sealed opened -> poisoned S = false -> len p <= maximumPlaintext ->
  sealLocked p c rk now S = (S', res) ->
  dir_inv S' R (sealed ++ match res with Ok record => [mkEntry p c record] | Err _ => [] end) opened.
Proof.
  intros I Hp Hlen HS. pose proof (len_sealed _ _ _ _ I) as Hmax.
  destruct (sealLocked_outcome _ _ _ _ _ _ _ HS) as (Hid&Hrc&Ho).
  destruct Ho as [e Hs HpS|e HpS|k k' ct Hk Hc Hr HE Hct Hs HpS].
  - rewrite app_nil_r. apply dir_inv_frame with S R; auto using same_identity_refl; congruence.
  - rewrite app_nil_r. by apply dir_inv_sender_poisoned with S.
  - destruct I, Hid as (Hi&Hh&_). set (e := mkEntry p c _).
    assert (Hq : len sealed < maxUint64).
    { unfold rekeyRequiredLocked in Hr. rewrite di_send0 in Hr by done. bool_hyps. lia. }
    assert (Hnew : forall j x, (sealed ++ [e]) !! j = Some x ->
              sealed !! j = Some x \/ j = length sealed /\ x = e).
    { intros j x [?|[? Hx]]%lookup_app_Some; [auto|right].
      apply list_lookup_singleton_Some in Hx as [? ->]. split; [lia|done]. }
    split; rewrite ?Hi, ?Hh, ?Hs, ?HpS; auto.
    + rewrite map_app. by apply prefix_app_r.
    + intros j x [Hj|[-> ->]]%Hnew; unfold entry_at; rewrite Hi, Hh; [by apply di_log0|].
      split_and!; [done|unfold len in Hq; lia|]. exists ct.
      unfold entry_header. simpl. by rewrite di_send0.
    + intros _. simpl. rewrite di_send0, len_app, len_cons, len_nil, u64_id; [lia| |done].
      pose proof (len_nonneg sealed). unfold two64, maxUint64 in *. lia.
    + intros j x [Hj|[-> ->]]%Hnew Hcl.
      * destruct (di_closed0 _ _ Hj Hcl) as [? _]. congruence.
      * split; [done|]. rewrite length_app. done.
    + intros HR. destruct (di_live0 HR) as (?&kr&ks&r&?&?&Hch&Hks). split; [done|].
      exists kr, k', r. split_and!; [done..| |done].
      specialize (Hks Hp). rewrite Hk in Hks. injection Hks as <-.
      apply prefix_length in di_prefix0 as Hlo. rewrite length_map in Hlo.
      assert (Hpos : len opened + len (drop (length opened) sealed) = len sealed)
        by (unfold len; rewrite length_drop; lia).
      rewrite drop_app_le by done. eapply chain_snoc; [exact Hch| |].
      * rewrite di_send0 in HE by done. unfold entry_header. simpl.
        by rewrite Hpos.
      * unfold entry_header. simpl. by rewrite Hpos, di_send0.
Qed.

(** A record the receiver accepts is the next one the sender sealed. *)
Lemma opened_is_next S R sealed opened record now R' p cl :
  dir_inv S R sealed opened -> unforgeable R (map eRecord sealed) record ->
  Open record now R = (R', Ok (p, cl)) ->
  exists e, sealed !! length opened = Some e /\ eRecord e = record /\ shown e = (p, cl) /\
    poisoned R = false /\ poisoned R' = false.
Proof.
  intros I HU HO. destruct (Open_outcome _ _ _ _ _ HO) as (_&_&Ho).
  inversion Ho as [| |r r' p' Hp Hck Hrc Hcl Hsq HD Hrk Hrcv Hpo Hres]; subst p'.
  destruct I. destruct (di_live0 Hp) as (Hq&kr&ks&r0&Hr0&Hpair&Hch&_).
  rewrite Hrc in Hr0. injection Hr0 as <-.
  specialize (HU _ _ _ Hrc HD).
  apply list_elem_of_fmap in HU as (e&He&Hin). symmetry in He. apply list_elem_of_lookup_1 in Hin as [j Hj].
  destruct (di_log0 _ _ Hj) as (Hlen&Hj64&c&Hc&Hrec).
  assert (Hbound : 0 <= Z.of_nat j < two64) by (unfold two64, maxUint64 in *; lia).
  rewrite He in Hrec. unfold entry_header in Hrec.
  assert (j = length opened) as ->.
  { rewrite Hrec, makeHeader_take, hSequence_makeHeader in Hsq by done. unfold len in Hq. lia. }
  change (Z.of_nat (length opened)) with (len opened) in Hrec.
  exists e. split_and!; [done..| |done|congruence].
  rewrite (drop_S sealed e (length opened)) in Hch by done. invc Hch.
  match goal with HE : Encrypt kr _ _ = _, HR : eRecord e = _ ++ ?c0 |- _ =>
    destruct (Decrypt_Encrypt _ _ _ _ _ _ Hpair HE) as (r2&HD2&_);
    unfold entry_header in HR, HD2; rewrite Hrec in HR; apply app_inv_head in HR; subst c0 end.
  rewrite Hrec, makeHeader_take, makeHeader_drop in HD by done.
  rewrite HD in HD2. injection HD2 as <- ->.
  rewrite Hrec, makeHeader_take, hFlags_makeHeader, recordFlags_close by
    (done || apply recordFlags_range). done.
Qed.

Lemma dir_inv_opened S R sealed opened record now R' p cl :
  dir_inv S R sealed opened -> unforgeable R (map eRecord sealed) record ->
  Open record now R = (R', Ok (p, cl)) -> dir_inv S R' sealed (opened ++ [(p, cl)]).
Proof.
  intros I HU HO.
  destruct (opened_is_next _ _ _ _ _ _ _ _ _ I HU HO) as (e&He&Hrec&Hsh&HpR&HpR').
  pose proof (len_sealed _ _ _ _ I) as Hmax. pose proof (lookup_lt_Some _ _ _ He) as Hlt.
  destruct (Open_outcome _ _ _ _ _ HO) as ((Hi&Hh&_)&_&Ho).
  inversion Ho as [| |r r' p' Hp Hck Hrc Hcl Hsq HD Hrk Hrcv Hpo Hres]; subst p'.
  destruct I. split; rewrite ?Hi, ?Hh; auto.
  - destruct di_prefix0 as [suf Hs].
    assert (Hn : map shown sealed !! length opened = Some (p, cl)).
    { rewrite list_lookup_fmap, He. simpl. by rewrite Hsh. }
    rewrite Hs, lookup_app_r, Nat.sub_diag in Hn by lia.
    destruct suf as [|x suf]; [done|]. injection Hn as ->. exists suf. rewrite Hs, <- app_assoc. by subst cl.
  - intros _. destruct (di_live0 Hp) as (Hq&kr&ks&r0&Hr0&Hpair&Hch&Hks).
    rewrite Hrc in Hr0. injection Hr0 as <-. rewrite len_app, len_cons, len_nil, length_app.
    rewrite Hrcv. simpl. rewrite Hq. split.
    { rewrite u64_id; [lia|]. unfold len, two64, maxUint64 in *. lia. }
    rewrite (drop_S sealed e (length opened)) in Hch by done. invc Hch.
    match goal with HE : Encrypt kr _ _ = Some (?k, _), HR : eRecord e = _ ++ _, HC : chain _ _ _ _ _ _ |- _ =>
      destruct (Decrypt_Encrypt _ _ _ _ _ _ Hpair HE) as (r2&HD2&Hpair2);
      rewrite HR in HD; unfold entry_header in HD, HD2;
      rewrite makeHeader_take, makeHeader_drop in HD by done;
      rewrite HD in HD2; injection HD2 as <- _;
      exists k, ks, r'; rewrite Nat.add_1_r; auto end.
Qed.

Lemma dir_inv_open S R sealed opened record now R' res :
  dir_inv S R sealed opened -> unforgeable R (map eRecord sealed) record ->
  Open record now R = (R', res) ->
  dir_inv S R' sealed (opened ++ match res with Ok x => [x] | Err _ => [] end).
Proof.
  intros I HU HO. destruct res as [[p cl]|e]; [by eapply dir_inv_opened|].
  rewrite app_nil_r. destruct (Open_outcome _ _ _ _ _ HO) as (Hid&_&Ho).
  inversion Ho as [? ->|? HpR|]; [done|].
  destruct I, Hid as (Hi&Hh&_). split; rewrite ?Hi, ?Hh; auto. congruence.
Qed.

(** ** Within the limits of one key generation *)

(** The time of the operation is within the hard age of keys installed at [t]. *)
Definition in_age (t now : Z) : Prop := now - t < hardRekeyAge.

Definition ready (d : direction) (k : cipher) (q t st : Z) : Prop :=
  d = mkDirection (Some k) q false t st /\ 0 <= q < maxUint64 /\ 0 <= t < hardRekeyBytes /\ st <> 0.

Lemma ready_not_required s k q t st now n d rk :
  ready d k q t st -> rekeyPolicy s = DevelopmentRekeyPolicy ->
  (rk = false -> q < hardRekeySequence) ->
  0 <= n -> t + n <= hardRekeyBytes -> in_age st now -> rekeyRequiredLocked s d now n rk = false.
Proof.
  intros (->&Hq&Ht&Hst) Hp Hrk Hn Hsum Hage. unfold rekeyRequiredLocked, in_age, IsZero in *. rewrite Hp. simpl.
  unfold hardRekeySequence, hardRekeyBytes, hardRekeyAge, maxUint64, sequenceRekeyReserve in *.
  rewrite u64_sub by (unfold two64; lia).
  repeat (apply orb_false_iff; split); try lia; try done.
  destruct rk; [done|]. simpl. specialize (Hrk eq_refl). lia.
Qed.

(** The record [e] at sequence [q], sealed by [k]. *)
Definition sealed_by (init : bool) (hdl : list byte) (k k' : cipher) (q : Z) (e : entry) : Prop :=
  len (ePlain e) <= maximumPlaintext /\
  exists ct, Encrypt k (entry_header init hdl q e) (ePlain e) = Some (k', ct) /\
    eRecord e = entry_header init hdl q e ++ ct.

(** Sealing within the limits. *)
Lemma seal_ready p cl rk now s k q t st :
  rekeyPolicy s = DevelopmentRekeyPolicy -> isHandle (handle s) ->
  ready (send s) k q t st -> nonce k = q -> (rk = false -> q < hardRekeySequence) ->
  len p <= maximumPlaintext -> t + len p <= hardRekeyBytes -> in_age st now ->
  exists k' record s', sealLocked p cl rk now s = (s', Ok record) /\
    sealed_by (initiator s) (handle s) k k' q (mkEntry p cl record) /\
    same_identity s s' /\ poisoned s' = poisoned s /\ receive s' = receive s /\
    nonce k' = q + 1 /\ send s' = mkDirection (Some k') (q + 1) cl (t + len p) st.
Proof.
  intros Hpol Hh Hr Hn Hrk Hlen Hsum Hage. pose proof (len_nonneg p) as Hp0.
  pose proof (ready_not_required s k q t st now (len p) (send s) rk Hr Hpol Hrk Hp0 Hsum Hage) as Hreq.
  destruct Hr as (Hd&Hq&Ht&Hst). set (h := entry_header (initiator s) (handle s) q (mkEntry p cl [])).
  destruct (Encrypt_succeeds k h p) as (k'&c&HE); [lia|].
  pose proof (Encrypt_length _ _ _ _ _ HE) as Hc.
  unfold sealLocked. rewrite Hreq, Hd. cbn [dcipher closed sequence dbytes started].
  change (makeHeader (recordFlags (initiator s) cl) (handle s) q (len p + authenticationBytes)) with h.
  rewrite HE, Hc, Z.eqb_refl. cbn [negb].
  match goal with |- context [signalRekeyLocked ?d now s] =>
    destruct (signal_frame d now s) as ((?&?&?&?)&?&?&?) end.
  eexists k', (h ++ c), _. split; [reflexivity|]. split_and!; simpl; try done; try congruence.
  - split; [done|]. by exists c.
  - rewrite (Encrypt_nonce _ _ _ _ _ HE). lia.
  - rewrite !u64_id; [done|..]; unfold two64, maxUint64, hardRekeyBytes in *; lia.
Qed.

Lemma Open_forwarded s init hdl k k' r q t st e now :
  sealed_by init hdl k k' q e -> isHandle hdl -> paired k r ->
  poisoned s = false -> rekeyPolicy s = DevelopmentRekeyPolicy -> handle s = hdl ->
  initiator s = negb init -> ready (receive s) r q t st -> t + len (ePlain e) <= hardRekeyBytes ->
  in_age st now ->
  exists s' r', Open (eRecord e) now s = (s', Ok (ePlain e, eClose e)) /\ paired k' r' /\
    same_identity s s' /\ poisoned s' = false /\
    receive s' = mkDirection (Some r') (q + 1) (eClose e) (t + len (ePlain e)) st.
Proof.
  intros (Hlen&ct&HE&Hrec) Hh Hpair Hpo Hpol Hhd Hrole Hr Hsum Hage.
  pose proof (len_nonneg (ePlain e)) as Hp0.
  pose proof (ready_not_required s r q t st now (len (ePlain e)) (receive s) true Hr Hpol ltac:(done) Hp0 Hsum Hage) as Hreq.
  destruct Hr as (Hd&Hq&Ht&Hst).
  destruct (Decrypt_Encrypt _ _ _ _ _ _ Hpair HE) as (r'&HD&Hpair').
  pose proof (Encrypt_length _ _ _ _ _ HE) as Hct.
  assert (Hq64 : 0 <= q < two64).
  { unfold maxUint64, two64 in *. lia. }
  assert (HC : openChecks (eRecord e) s = None).
  { unfold openChecks. rewrite Hrec. unfold entry_header. rewrite makeHeader_take by done.
    rewrite len_app. replace (len (makeHeader _ _ _ _)) with 28 by (unfold len; rewrite makeHeader_length; done).
    rewrite Hct. unfold maximumPlaintext, maximumCiphertext, headerLength, authenticationBytes in *.
    rewrite (proj2 (Z.ltb_ge _ _)), (proj2 (Z.ltb_ge _ _)) by lia. simpl orb. cbv iota.
    rewrite hFlags_makeHeader, hHandle_makeHeader, hLength_makeHeader by (done || apply recordFlags_range || lia).
    rewrite recordFlags_known, recordFlags_responder, Hhd, Hrole, eqb_reflx.
    rewrite !bool_decide_eq_true_2 by done. simpl negb. simpl orb. cbv iota.
    rewrite (proj2 (Z.ltb_ge _ _)) by lia. rewrite (proj2 (Z.eqb_eq _ _)) by lia. done. }
  unfold Open. rewrite Hpo, HC. unfold openLocked. rewrite Hd in *. cbn [dcipher closed sequence].
  rewrite (proj2 (Z.eqb_neq _ _)) by lia.
  rewrite Hrec. unfold entry_header in *. rewrite makeHeader_take, makeHeader_drop by done.
  rewrite hSequence_makeHeader, Z.eqb_refl, HD, Hreq by done. simpl negb. cbv iota.
  rewrite hFlags_makeHeader, recordFlags_close by apply recordFlags_range. cbn [dcipher closed sequence dbytes started].
  match goal with |- context [signalRekeyLocked ?d now s] =>
    destruct (signal_frame d now s) as ((?&?&?&?)&?&?&?) end.
  eexists _, r'. split; [done|]. simpl. split_and!; try done; try congruence.
  rewrite !u64_id; [done|..];
    unfold two64, maxUint64, hardRekeyBytes in *; lia.
Qed.

End channel.
