(* ===== verification/RelayStream.v ===== *)
(** * Secure streams over a relay

    Models [relaynoise/stream_carrier.go] (record boundaries on an ordered byte
    stream), [relaycarrier/noise.go] ([SecureStream]) and
    [relaycarrier/secure_conn.go] ([SecureConn], the [net.Conn] the rest of the
    program reads and writes).

    The carrier is the environment.  What one call to [stream.Write] does is a
    pair of the number of bytes taken and whether it failed; a read takes bytes
    from what the relay has delivered, may stop at the deadline, and sees the end
    of the stream when nothing is left. *)
From S2P Require Import Prelude Codec RelayRecord.

Section stream.
Context `{C : CipherState}.

(** The sending half of a carrier: the bytes on the stream.  [handed] lists the
    records given to it, in order; no code reads it. *)
Record carrier := mkCarrier { wire : list byte; handed : list (list byte) }.
#[global] Instance carrier_eta : Eta carrier := fun c => mkCarrier (wire c) (handed c).

(** What the environment does during one send: the clock when the record is
    sealed, when the carrier takes over and when the call returns, whether setting
    the deadline fails, and the results of [stream.Write]. *)
Record sendEnv := mkSendEnv {
  sealTime : Z; sendTime : Z; returnTime : Z; setDeadlineErr : bool; writes : list (nat * bool) }.

(** During one receive: the clock on entry, when the record is complete or reading
    has failed, and on return; [readLimit] is the number of bytes the stream yields
    before it times out, if it does. *)
Record recvEnv := mkRecvEnv {
  recvTime : Z; openTime : Z; recvReturnTime : Z; setReadDeadlineErr : bool; readLimit : option nat }.

(** [ctx.Err() != nil] for the context of a deadline; 0 is no deadline. *)
Definition expired (deadline now : Z) : bool := negb (deadline =? 0) && (deadline <=? now).

(** [validWireRecord] *)
Definition validWireRecord (record : list byte) : bool :=
  if (len record <? headerLength + authenticationBytes)
     || (headerLength + maximumCiphertext <? len record)
     || negb (bool_decide (nth 0 record x00 = recordVersion))
  then false
  else be_get (sub 26 28 record) =? len record - headerLength.

(** The write loop of [SendRecord]. *)
Fixpoint sendLoop (ws : list (nat * bool)) (rest : list byte) (w : carrier)
  : carrier * option RelayError :=
  match rest with
  | [] => (w, None)
  | _ =>
      match ws with
      | [] => (w, Some ErrWrite)
      | (n, fails) :: ws' =>
          let w' := w <| wire := wire w ++ take n rest |> in
          if fails : bool then (w', Some ErrWrite)
          else if Nat.eqb n 0 then (w', Some ErrShortWrite)
          else sendLoop ws' (drop n rest) w'
      end
  end.

(** [StreamCarrier.SendRecord] under the context of [deadline]. *)
Definition SendRecord (deadline : Z) (env : sendEnv) (record : list byte) (w0 : carrier)
  : carrier * option RelayError :=
  let w := w0 <| handed := handed w0 ++ [record] |> in
  if negb (validWireRecord record) then (w, Some ErrProtocol)
  else if expired deadline (sendTime env) then (w, Some ErrContext)
  else if negb (deadline =? 0) && setDeadlineErr env then (w, Some ErrDeadline)
  else
    match sendLoop (writes env) record w with
    | (w', Some ErrWrite) =>
        (w', Some (if expired deadline (returnTime env) then ErrContext else ErrWrite))
    | r => r
    end.

(** [StreamCarrier.Send] and [SecureStream.Send] *)
Definition Send (deadline : Z) (env : sendEnv) (plaintext : list byte) (closeAfter : bool)
    (s : Session) (w : carrier) : Session * carrier * option RelayError :=
  sealAndSend (expired deadline (sealTime env)) plaintext closeAfter false
    (SendRecord deadline env) (sealTime env) s w.

(** [io.ReadFull] on a stream that may time out after [limit] bytes: the bytes or
    the error, what is left of the stream and of the limit. *)
Definition readFull (limit : option nat) (n : nat) (incoming : list byte)
  : result RelayError (list byte) * list byte * option nat :=
  match limit with
  | Some m =>
      if (Nat.ltb m n && (Nat.leb m (length incoming)))%bool
      then (Err ErrContext, drop m incoming, Some 0%nat)
      else match ReadFull n incoming with
           | Ok (b, rest) => (Ok b, rest, Some (m - n)%nat)
           | Err e => (Err (ErrRead e), [], Some m)
           end
  | None =>
      match ReadFull n incoming with
      | Ok (b, rest) => (Ok b, rest, None)
      | Err e => (Err (ErrRead e), [], None)
      end
  end.

(** [StreamCarrier.ReceiveRecord] *)
Definition ReceiveRecord (deadline : Z) (env : recvEnv) (incoming : list byte)
  : result RelayError (list byte) * list byte :=
  if expired deadline (recvTime env) then (Err ErrContext, incoming)
  else if negb (deadline =? 0) && setReadDeadlineErr env then (Err ErrDeadline, incoming)
  else
    let failed e := if expired deadline (openTime env) then ErrContext else e in
    match readFull (readLimit env) 28 incoming with
    | (Err e, rest, _) => (Err (failed e), rest)
    | (Ok header, rest, limit) =>
        let length := be_get (sub 26 28 header) in
        if negb (bool_decide (nth 0 header x00 = recordVersion))
           || (length <? authenticationBytes) || (maximumCiphertext <? length)
        then (Err ErrProtocol, rest)
        else
          match readFull limit (Z.to_nat length) rest with
          | (Err e, rest', _) => (Err (failed e), rest')
          | (Ok body, rest', _) => (Ok (header ++ body), rest')
          end
    end.

(** [SecureStream.Receive] *)
Definition Receive (deadline : Z) (env : recvEnv) (s : Session) (incoming : list byte)
  : Session * list byte * result RelayError (list byte * bool) :=
  match ReceiveRecord deadline env incoming with
  | (Err e, rest) => (s, rest, Err e)
  | (Ok record, rest) => let '(s', res) := Open record (openTime env) s in (s', rest, res)
  end.

(** ** [SecureConn] *)
Inductive ConnError :=
| ConnEOF                              (* [io.EOF] *)
| ConnErr (e : RelayError)
| ConnDeadline (e : option RelayError) (* joined with [os.ErrDeadlineExceeded] *).

(** An error of the carrier as the caller of [Read] sees it: [io.ReadFull] at the
    end of the stream returns [io.EOF] itself. *)
Definition connError (e : RelayError) : ConnError :=
  match e with ErrRead EOF => ConnEOF | _ => ConnErr e end.

Definition secureConnChunk : Z := 32768.

Record SecureConn := mkSecureConn {
  session : Session; readBuffer : list byte; readDeadline : Z; writeDeadline : Z }.
#[global] Instance SecureConn_eta : Eta SecureConn :=
  fun c => mkSecureConn (session c) (readBuffer c) (readDeadline c) (writeDeadline c).

Definition NewSecureConn (s : Session) : SecureConn := mkSecureConn s [] 0 0.

Definition SetDeadline (value : Z) (c : SecureConn) : SecureConn :=
  (c <| readDeadline := value |>) <| writeDeadline := value |>.
Definition SetReadDeadline (value : Z) (c : SecureConn) : SecureConn := c <| readDeadline := value |>.
Definition SetWriteDeadline (value : Z) (c : SecureConn) : SecureConn := c <| writeDeadline := value |>.

(** [deadlineError]; [late] is the time the context is cancelled. *)
Definition deadlineError (deadline late : Z) (err : option RelayError) : option ConnError :=
  if expired deadline late then Some (ConnDeadline err)
  else match err with Some e => Some (connError e) | None => None end.

(** [SecureConn.Read] with a buffer of [n] bytes. *)
Definition Read (n : nat) (env : recvEnv) (c : SecureConn) (incoming : list byte)
  : SecureConn * list byte * result ConnError (list byte) :=
  if Nat.eqb n 0 then (c, incoming, Ok [])
  else
    match readBuffer c with
    | [] =>
        match Receive (readDeadline c) env (session c) incoming with
        | (s', rest, Err e) =>
            (c <| session := s' |>, rest,
             Err (if expired (readDeadline c) (recvReturnTime env) then ConnDeadline (Some e)
                  else connError e))
        | (s', rest, Ok (payload, _)) =>
            match payload with
            | [] => (c <| session := s' |>, rest, Err ConnEOF)
            | _ => ((c <| session := s' |>) <| readBuffer := drop n payload |>, rest, Ok (take n payload))
            end
        end
    | buf => (c <| readBuffer := drop n buf |>, incoming, Ok (take n buf))
    end.

(** The loop of [SecureConn.Write]; [env i] is the environment of the [i]-th
    send.  [fuel] bounds the number of chunks. *)
Fixpoint writeLoop (fuel i : nat) (env : nat -> sendEnv) (payload : list byte) (written : Z)
    (c : SecureConn) (w : carrier) : SecureConn * carrier * (Z * option ConnError) :=
  match fuel, payload with
  | O, _ | _, [] => (c, w, (written, None))
  | S fuel', _ =>
      let chunk := if secureConnChunk <? len payload then ztake secureConnChunk payload else payload in
      match Send (writeDeadline c) (env i) chunk false (session c) w with
      | (s', w', Some e) =>
          (c <| session := s' |>, w',
           (written, deadlineError (writeDeadline c) (returnTime (env i)) (Some e)))
      | (s', w', None) =>
          writeLoop fuel' (S i) env (zdrop (len chunk) payload) (written + len chunk)
            (c <| session := s' |>) w'
      end
  end.

(** [SecureConn.Write]; every chunk but the last is not empty, so one unit of fuel
    for each byte is enough. *)
Definition Write (env : nat -> sendEnv) (payload : list byte) (c : SecureConn) (w : carrier)
  : SecureConn * carrier * (Z * option ConnError) :=
  writeLoop (length payload) 0 env payload 0 c w.

Definition CloseWrite (env : sendEnv) (c : SecureConn) (w : carrier)
  : SecureConn * carrier * option ConnError :=
  match Send (writeDeadline c) env [] true (session c) w with
  | (s', w', err) => (c <| session := s' |>, w', deadlineError (writeDeadline c) (returnTime env) err)
  end.

End stream.
