(* ===== verification/RelayStreamProps.v ===== *)
(** * Secure streams: what the relay cannot do

    Two endpoints, each a [SecureConn] over an untrusted carrier.  [estep] is one
    action at an endpoint: a call of the connection, or the relay putting bytes of
    its choice on the stream the endpoint reads. *)
From S2P Require Import Prelude Codec RelayRecord RelayChannel RelayStream.

Section props.
Context `{C : CipherState} `{L : !CipherLaws C}.

(** ** Endpoints *)

(** [accepted]: the bytes the calls of [Write] have reported as written;
    [lost]: the rest of the payload of the call that broke the session, some of
    which may have been sent; [got]: the bytes the calls of [Read] returned. *)
Record endpoint := mkEndpoint {
  conn : SecureConn; out : carrier; incoming : list byte;
  accepted : list byte; lost : list byte; got : list byte }.
#[global] Instance endpoint_eta : Eta endpoint :=
  fun e => mkEndpoint (conn e) (out e) (incoming e) (accepted e) (lost e) (got e).

Definition newEndpoint (s : Session) : endpoint :=
  mkEndpoint (NewSecureConn s) (mkCarrier [] []) [] [] [] [].

Definition broken (e : endpoint) : bool := poisoned (session (conn e)).

(** One action at [e]; [produced] are the records the peer's session has produced. *)
Inductive estep (produced : list (list byte)) (e : endpoint) : endpoint -> Prop :=
| e_write env payload c w n err :
    Write env payload (conn e) (out e) = (c, w, (n, err)) ->
    estep produced e
      (mkEndpoint c w (incoming e) (accepted e ++ ztake n payload)
         (if broken e then lost e else if poisoned (session c) then zdrop n payload else []) (got e))
| e_close_write env c w err :
    CloseWrite env (conn e) (out e) = (c, w, err) ->
    estep produced e ((e <| conn := c |>) <| out := w |>)
| e_read n env c rest res :
    (forall record rest', ReceiveRecord (readDeadline (conn e)) env (incoming e) = (Ok record, rest') ->
       unforgeable (session (conn e)) produced record) ->
    Read n env (conn e) (incoming e) = (c, rest, res) ->
    estep produced e
      (((e <| conn := c |>) <| incoming := rest |>)
         <| got := got e ++ match res with Ok b => b | Err _ => [] end |>)
| e_deliver b : estep produced e (e <| incoming := incoming e ++ b |>)
| e_deadlines r w :
    estep produced e (e <| conn := SetReadDeadline r (SetWriteDeadline w (conn e)) |>).

Inductive sstep : endpoint * endpoint -> endpoint * endpoint -> Prop :=
| s_left a b a' : estep (handed (out b)) a a' -> sstep (a, b) (a', b)
| s_right a b b' : estep (handed (out a)) b b' -> sstep (a, b) (a, b').

Inductive reachable (s0 : endpoint * endpoint) : endpoint * endpoint -> Prop :=
| reach_init : reachable s0 s0
| reach_step s s' : reachable s0 s -> sstep s s' -> reachable s0 s'.

(** ** The invariant *)
Definition plain (l : list entry) : list byte := concat (map ePlain l).

(** What an endpoint has put into its records. *)
Definition sent_inv (a : endpoint) (sealed : list entry) : Prop :=
  map eRecord sealed = handed (out a) /\
  (exists t, t `prefix_of` lost a /\ plain sealed = accepted a ++ t) /\
  (broken a = false -> lost a = []).

Definition got_inv (b : endpoint) (opened : list (list byte * bool)) : Prop :=
  got b ++ readBuffer (conn b) = concat (map fst opened).

Definition sess (e : endpoint) : Session := session (conn e).

Definition pair_inv (s : endpoint * endpoint) : Prop :=
  exists la lb oa ob,
    dir_inv (sess (fst s)) (sess (snd s)) la ob /\ dir_inv (sess (snd s)) (sess (fst s)) lb oa /\
    sent_inv (fst s) la /\ sent_inv (snd s) lb /\ got_inv (fst s) oa /\ got_inv (snd s) ob.

(** The effect of sends on a session: its other direction is untouched and the
    records it produced extend the log. *)
Definition sends (s s' : Session) (w w' : carrier) (l : list entry) : Prop :=
  same_identity s s' /\ receive s' = receive s /\ handed w' = handed w ++ map eRecord l /\
  (poisoned s' = false -> poisoned s = false) /\
  forall R sealed opened, dir_inv s R sealed opened -> dir_inv s' R (sealed ++ l) opened.

(** ** Sending *)
Lemma sends_refl s w : sends s s w w [].
Proof.
  split_and!; try done; [by rewrite app_nil_r|].
  intros R sealed opened HI. by rewrite app_nil_r.
Qed.

Lemma sends_trans s1 s2 s3 w1 w2 w3 l1 l2 :
  sends s1 s2 w1 w2 l1 -> sends s2 s3 w2 w3 l2 -> sends s1 s3 w1 w3 (l1 ++ l2).
Proof.
  intros (I1&R1&H1&P1&D1) (I2&R2&H2&P2&D2). split_and!; auto.
  - by eapply same_identity_trans.
  - congruence.
  - by rewrite H2, H1, map_app, app_assoc.
  - intros R sealed opened HI. rewrite app_assoc. auto.
Qed.

Lemma sendLoop_handed ws rest w : handed (fst (sendLoop ws rest w)) = handed w.
Proof.
  revert rest w. induction ws as [|[n f] ws IH]; intros [|x rest] w; simpl; try done.
  destruct f; [done|]. destruct (Nat.eqb n 0); [done|]. by rewrite IH.
Qed.

Lemma SendRecord_handed deadline env record w w' err :
  SendRecord deadline env record w = (w', err) -> handed w' = handed w ++ [record].
Proof.
  unfold SendRecord. destruct (negb (validWireRecord record)); [by intros [= <- <-]|].
  destruct (expired deadline (sendTime env)); [by intros [= <- <-]|].
  destruct (negb (deadline =? 0) && _); [by intros [= <- <-]|].
  set (w1 := w <| handed := _ |>). pose proof (sendLoop_handed (writes env) record w1) as H.
  destruct (sendLoop _ _ w1) as [w2 e]. simpl in H. change (handed w1) with (handed w ++ [record]) in H.
  destruct e as [[]|]; intros [= <- <-]; exact H.
Qed.

Inductive send_outcome (p : list byte) (cl : bool) (s' : Session)
  : list entry -> option RelayError -> Prop :=
| send_none e : send_outcome p cl s' [] (Some e)
| send_failed r e : poisoned s' = true -> send_outcome p cl s' [mkEntry p cl r] (Some e)
| send_done r : send_outcome p cl s' [mkEntry p cl r] None.

Lemma poison_sends s w : sends s (poison s) w w [].
Proof.
  split_and!; try done; [by rewrite app_nil_r|].
  intros R sealed opened HI. rewrite app_nil_r.
  eapply dir_inv_sender_poisoned; [exact HI|apply poison_identity|done..].
Qed.

Lemma Send_sends deadline env p cl s w s' w' err :
  Send deadline env p cl s w = (s', w', err) ->
  exists l, sends s s' w w' l /\ send_outcome p cl s' l err /\ (poisoned s = true -> l = []).
Proof.
  unfold Send, sealAndSend. destruct (poisoned s) eqn:Ep.
  { intros [= <- <- <-]. exists []. split_and!; [apply sends_refl|constructor|done]. }
  destruct (maximumPlaintext <? len p) eqn:El.
  { intros [= <- <- <-]. exists []. split_and!; [apply sends_refl|constructor|done]. }
  destruct (expired deadline (sealTime env)).
  { intros [= <- <- <-]. exists []. split_and!; [apply sends_refl|constructor|done]. }
  apply Z.ltb_ge in El. destruct (sealLocked _ _ _ _ _) as [s1 res] eqn:Es.
  assert (HD : forall R sealed opened, dir_inv s R sealed opened -> dir_inv s1 R
     (sealed ++ match res with Ok record => [mkEntry p cl record] | Err _ => [] end) opened).
  { intros. by eapply dir_inv_seal. }
  destruct (sealLocked_outcome _ _ _ _ _ _ _ Es) as (Hid&Hr&Ho).
  destruct res as [record|e].
  2: { intros [= <- <- <-]. exists []. split_and!; [|constructor|done].
       split_and!; auto. by rewrite app_nil_r. }
  assert (sends s s1 w (w <| handed := handed w ++ [record] |>) [mkEntry p cl record]) as Hs.
  { split_and!; auto. }
  destruct (SendRecord _ _ _ _) as [w1 [e|]] eqn:EW; intros [= <- <- <-];
    apply SendRecord_handed in EW; eexists [mkEntry p cl record].
  - split_and!; [|by apply send_failed|done].
    rewrite <- (app_nil_r [_]). eapply sends_trans; [|apply (poison_sends s1 w1)].
    destruct Hs as (?&?&?&?&?). by split_and!.
  - split_and!; [|constructor|done]. destruct Hs as (?&?&?&?&?). by split_and!.
Qed.

Lemma plain_app l k : plain (l ++ k) = plain l ++ plain k.
Proof. unfold plain. by rewrite map_app, concat_app. Qed.

(** The chunk of one turn of [Write]. *)
Definition chunkOf (payload : list byte) : list byte :=
  if secureConnChunk <? len payload then ztake secureConnChunk payload else payload.

Lemma chunkOf_take payload :
  payload <> [] -> chunkOf payload = ztake (len (chunkOf payload)) payload /\
  0 < len (chunkOf payload) <= len payload /\ len (chunkOf payload) <= secureConnChunk.
Proof.
  intros Hn. pose proof (len_nonneg payload) as H0.
  assert (len payload <> 0) by (by rewrite len_zero_nil).
  unfold chunkOf, secureConnChunk. destruct (_ <? _) eqn:E; bool_hyps.
  - rewrite len_ztake by lia. split; [done|lia].
  - rewrite ztake_all by lia. split; [done|lia].
Qed.

Lemma writeLoop_sends fuel i env payload wr c w c' w' n err :
  writeLoop fuel i env payload wr c w = (c', w', (n, err)) ->
  exists l m t, n = wr + m /\ 0 <= m <= len payload /\
    sends (session c) (session c') w w' l /\ plain l = ztake m payload ++ t /\
    t `prefix_of` zdrop m payload /\ (poisoned (session c') = false -> t = []) /\
    readBuffer c' = readBuffer c /\ (poisoned (session c) = true -> m = 0 /\ l = []).
Proof.
  revert i payload wr c w. induction fuel as [|fuel IH]; intros i payload wr c w H.
  - assert (H' : (c, w, (wr, @None ConnError)) = (c', w', (n, err))) by (by destruct payload).
    injection H' as <- <- <- <-. exists [], 0, [].
    pose proof (len_nonneg payload). split_and!; try done; try lia; [apply sends_refl|apply prefix_nil].
  - destruct payload as [|x payload'].
    { injection H as <- <- <- <-. exists [], 0, [].
      pose proof (len_nonneg (@nil byte)). split_and!; try done; try lia. apply sends_refl. }
    remember (x :: payload') as payload eqn:Epl.
    assert (Hne : payload <> []) by (by subst). destruct (chunkOf_take payload Hne) as (Hck&Hcl&_).
    simpl in H. rewrite Epl in H. rewrite <- Epl in H.
    fold (chunkOf payload) in H.
    destruct (Send _ _ _ _ _ _) as [[s1 w1] [e|]] eqn:ES;
      destruct (Send_sends _ _ _ _ _ _ _ _ _ ES) as (l&Hs&Ho&Hpo).
    + injection H as <- <- <- <-.
      assert (exists t, plain l = t /\ t `prefix_of` payload /\ (poisoned s1 = false -> t = [])) as (t&Ht&Hp&Hz).
      { exists (plain l). split; [done|]. inversion Ho as [|? ? Hbad|]; subst; simpl.
        - split; [apply prefix_nil|done].
        - unfold plain. simpl. rewrite app_nil_r. split; [|congruence].
          rewrite Hck. eexists. symmetry. apply ztake_zdrop. }
      exists l, 0, t. pose proof (len_nonneg payload).
      split_and!; try done; try lia; auto.
    + inversion Ho as [| |r]; subst l. specialize (IH _ _ _ _ _ H).
      destruct IH as (l2&m&t&->&Hm&Hs2&Hpl&Hpre&Hz&Hrb&Hp2). simpl in *.
      rewrite len_zdrop in Hm by lia.
      exists (mkEntry (chunkOf payload) false r :: l2), (len (chunkOf payload) + m), t.
      split_and!; try lia; auto.
      * change (?a :: l2) with ([a] ++ l2). by eapply sends_trans.
      * change (?a :: l2) with ([a] ++ l2). rewrite plain_app, Hpl. unfold plain at 1. simpl.
        rewrite app_nil_r, app_assoc. f_equal.
        rewrite <- ztake_ztake_zdrop by lia. by rewrite <- Hck.
      * by rewrite zdrop_zdrop, Z.add_comm in Hpre by lia.
      * intros Hp. by specialize (Hpo Hp).
Qed.

(** ** Every action preserves the invariant *)
Lemma sends_pair a b a' la lb oa ob l :
  dir_inv (sess a) (sess b) la ob -> dir_inv (sess b) (sess a) lb oa ->
  sends (sess a) (sess a') (out a) (out a') l ->
  dir_inv (sess a') (sess b) (la ++ l) ob /\ dir_inv (sess b) (sess a') lb oa.
Proof.
  intros D1 D2 (Hid&Hr&_&Hp&HD). split; [by apply HD|].
  eapply dir_inv_frame; eauto using same_identity_refl.
Qed.

Lemma write_sent a c w n err env payload la :
  Write env payload (conn a) (out a) = (c, w, (n, err)) -> sent_inv a la ->
  let a' := mkEndpoint c w (incoming a) (accepted a ++ ztake n payload)
         (if broken a then lost a else if poisoned (session c) then zdrop n payload else []) (got a) in
  exists l, sends (sess a) (sess a') (out a) w l /\ sent_inv a' (la ++ l) /\
    readBuffer c = readBuffer (conn a).
Proof.
  unfold Write. intros HW (Hh&(t&Ht&Hpl)&Hlost).
  destruct (writeLoop_sends _ _ _ _ _ _ _ _ _ _ _ HW) as (l&m&t2&->&Hm&Hs&Hpl2&Hpre&Hz&Hrb&Hp).
  exists l. split_and!; [done| |done]. destruct Hs as (_&_&Hh2&Hpo&_).
  unfold sent_inv, broken, sess in *. simpl. split_and!.
  - by rewrite map_app, Hh.
  - rewrite plain_app, Hpl. destruct (poisoned (session (conn a))) eqn:Ep.
    + destruct (Hp eq_refl) as [-> ->]. exists t. split; [done|]. by rewrite !app_nil_r.
    + rewrite Hlost in Ht by done. apply prefix_nil_inv in Ht as ->.
      exists t2. rewrite app_nil_r, Hpl2, app_assoc. split; [|done].
      destruct (poisoned (session c)); [done|]. by rewrite Hz.
  - intros Hc. rewrite Hc in *. by rewrite (Hpo eq_refl).
Qed.

Lemma read_inv a b n env c rest res la lb oa ob :
  dir_inv (sess a) (sess b) la ob -> dir_inv (sess b) (sess a) lb oa -> got_inv a oa ->
  (forall record rest', ReceiveRecord (readDeadline (conn a)) env (incoming a) = (Ok record, rest') ->
     unforgeable (sess a) (map eRecord lb) record) ->
  Read n env (conn a) (incoming a) = (c, rest, res) ->
  exists oa', dir_inv (session c) (sess b) la ob /\ dir_inv (sess b) (session c) lb oa' /\
    (got a ++ match res with Ok x => x | Err _ => [] end) ++ readBuffer c = concat (map fst oa') /\
    (poisoned (session c) = false -> broken a = false).
Proof.
  unfold Read, Receive, got_inv, sess, broken. intros D1 D2 Hg HU.
  destruct (Nat.eqb n 0); [intros [= <- <- <-]; exists oa; by rewrite app_nil_r|].
  destruct (readBuffer (conn a)) as [|x buf] eqn:Eb.
  2: { intros [= <- <- <-]. exists oa. split_and!; try done.
       simpl readBuffer. rewrite <- app_assoc, take_drop. done. }
  rewrite app_nil_r in Hg.
  destruct (ReceiveRecord _ _ _) as [[record|e] rest'] eqn:ER.
  2: { intros [= <- <- <-]. exists oa. split_and!; try done. simpl. by rewrite Eb, !app_nil_r. }
  specialize (HU record rest' eq_refl).
  destruct (Open record _ _) as [s' r] eqn:EO.
  pose proof (dir_inv_open _ _ _ _ _ _ _ _ D2 HU EO) as D2'.
  destruct (Open_outcome _ _ _ _ _ EO) as (Hid&Hsnd&Ho).
  assert (Hp : poisoned s' = false -> poisoned (session (conn a)) = false).
  { inversion Ho; subst; congruence. }
  assert (D1' : dir_inv s' (session (conn b)) la ob).
  { eapply dir_inv_frame; eauto using same_identity_refl. }
  destruct r as [[[|y payload] cl]|e]; intros [= <- <- <-]; simpl; eexists; split_and!; eauto.
  - rewrite map_app, concat_app. simpl. by rewrite Eb, !app_nil_r.
  - simpl. rewrite map_app, concat_app, Hg, <- app_assoc. simpl. rewrite app_nil_r, take_drop. done.
  - simpl. by rewrite Eb, !app_nil_r, Hg.
Qed.

Lemma estep_inv a b a' : pair_inv (a, b) -> estep (handed (out b)) a a' -> pair_inv (a', b).
Proof.
  intros (la&lb&oa&ob&D1&D2&S1&S2&G1&G2) H. unfold pair_inv. simpl in *. destruct H.
  - destruct (write_sent _ _ _ _ _ _ _ _ H S1) as (l&Hs&HS&Hrb).
    destruct (sends_pair a b _ la lb oa ob l D1 D2 Hs) as [D1' D2'].
    exists (la ++ l), lb, oa, ob. split_and!; auto. unfold got_inv in *. simpl. by rewrite Hrb.
  - revert H. unfold CloseWrite. destruct (Send _ _ _ _ _ _) as [[s' w'] e'] eqn:ES. intros [= <- <- <-].
    destruct (Send_sends _ _ _ _ _ _ _ _ _ ES) as (l&Hs&Ho&_).
    set (a' := _ : endpoint).
    destruct (sends_pair a b a' la lb oa ob l D1 D2 Hs) as [D1' D2'].
    exists (la ++ l), lb, oa, ob. split_and!; auto.
    destruct S1 as (Hh&(t&Ht&Hpl)&Hlost), Hs as (_&_&Hh2&Hpo&_).
    unfold sent_inv. simpl. split_and!; [by rewrite map_app, Hh| |].
    + exists t. split; [done|]. rewrite plain_app, Hpl.
      assert (plain l = []) as -> by (by inversion Ho). by rewrite app_nil_r.
    + intros Hb. apply Hlost. by apply Hpo.
  - destruct S2 as (Hh2&S2). rewrite <- Hh2 in H.
    destruct (read_inv _ _ _ _ _ _ _ _ _ _ _ D1 D2 G1 H H0) as (oa'&D1'&D2'&Hg&Hp).
    exists la, lb, oa', ob. destruct S1 as (Hh&Ht&Hlost).
    split_and!; auto; unfold sent_inv; split_and!; auto; tauto.
  - exists la, lb, oa, ob. auto 10.
  - exists la, lb, oa, ob. auto 10.
Qed.

Lemma pair_inv_swap a b : pair_inv (a, b) -> pair_inv (b, a).
Proof. intros (la&lb&oa&ob&H). exists lb, la, ob, oa. simpl in *. tauto. Qed.

Lemma reachable_inv s0 s : pair_inv s0 -> reachable s0 s -> pair_inv s.
Proof.
  intros H0. induction 1 as [|s s' _ IH Hs]; [done|]. destruct Hs.
  - by eapply estep_inv.
  - apply pair_inv_swap. eapply estep_inv; [|done]. by apply pair_inv_swap.
Qed.

(** The roles and the handles never change. *)
Lemma estep_identity produced a a' : estep produced a a' -> same_identity (sess a) (sess a').
Proof.
  unfold sess. destruct 1; simpl; try apply same_identity_refl.
  - unfold Write in *. by destruct (writeLoop_sends _ _ _ _ _ _ _ _ _ _ _ H) as (l&m&t&_&_&(?&_)&_).
  - unfold CloseWrite in H. destruct (Send _ _ _ _ _ _) as [[s' w'] e'] eqn:ES. injection H as <- <- <-.
    by destruct (Send_sends _ _ _ _ _ _ _ _ _ ES) as (l&(?&_)&_).
  - clear H. unfold Read, Receive in *. destruct (Nat.eqb n 0); [by injection H0 as <- <- <-|].
    destruct (readBuffer (conn a)); [|by injection H0 as <- <- <-].
    destruct (ReceiveRecord _ _ _) as [[record|er] rest']; [|by injection H0 as <- <- <-].
    destruct (Open _ _ _) as [s' r] eqn:EO. destruct (Open_outcome _ _ _ _ _ EO) as (Hid&_).
    destruct r as [[[|y p] cl]|er]; by injection H0 as <- <- <-.
Qed.

Lemma reachable_identity s0 s :
  reachable s0 s -> initiator (sess (fst s)) = initiator (sess (fst s0)) /\
    handle (sess (fst s)) = handle (sess (fst s0)).
Proof.
  induction 1 as [|s s' _ [IH1 IH2] Hs]; [done|]. destruct Hs as [a b a' H|a b b' H]; [|done].
  destruct (estep_identity _ _ _ H) as (?&?&_). simpl in *. split; congruence.
Qed.

(** ** Sessions from one handshake *)

(** The two sessions of a completed handshake: the same handle and binding, and in
    each direction the sender's cipher paired with the receiver's. *)
Record handshaken (A B : Session) : Prop := {
  hs_initiator : initiator A = true;
  hs_responder : initiator B = false;
  hs_handle : handle B = handle A;
  hs_handle_size : isHandle (handle A);
  hs_policy : rekeyPolicy A = DevelopmentRekeyPolicy /\ rekeyPolicy B = DevelopmentRekeyPolicy;
  hs_poison : poisoned A = false /\ poisoned B = false;
  hs_ciphers : exists ka ra kb rb ta tb,
    send A = newDirection ka ta /\ receive A = newDirection ra ta /\
    send B = newDirection kb tb /\ receive B = newDirection rb tb /\
    paired ka rb /\ paired kb ra /\ nonce ka = 0 /\ nonce kb = 0 /\ ta <> 0 /\ tb <> 0
}.

Lemma newSession_handshaken hdl ka ra kb rb bind ta tb :
  isHandle hdl -> paired ka rb -> paired kb ra -> nonce ka = 0 -> nonce kb = 0 -> ta <> 0 -> tb <> 0 ->
  handshaken (newSession true hdl ka ra bind ta) (newSession false hdl kb rb bind tb).
Proof. intros. split; try done. exists ka, ra, kb, rb, ta, tb. by split_and!. Qed.

Lemma fresh_dir_inv S R k r ts tr :
  isHandle (handle S) -> handle R = handle S -> initiator R = negb (initiator S) ->
  send S = newDirection k ts -> receive R = newDirection r tr -> paired k r ->
  dir_inv S R [] [].
Proof.
  intros H1 H2 H3 HS HR Hp. split; rewrite ?HS, ?HR; try done.
  intros _. split; [done|]. exists k, k, r. split_and!; try done. constructor.
Qed.

Lemma handshaken_inv A B : handshaken A B -> pair_inv (newEndpoint A, newEndpoint B).
Proof.
  intros []. destruct hs_ciphers0 as (ka&ra&kb&rb&ta&tb&SA&RA&SB&RB&P1&P2&_).
  exists [], [], [], []. unfold sess. simpl. split_and!.
  - eapply fresh_dir_inv; eauto. by rewrite hs_initiator0, hs_responder0.
  - eapply fresh_dir_inv; eauto; [by rewrite hs_handle0|by rewrite hs_initiator0, hs_responder0].
  - split_and!; try done. by exists [].
  - split_and!; try done. by exists [].
  - done.
  - done.
Qed.

Lemma pair_inv_prefix a b : pair_inv (a, b) -> got b `prefix_of` accepted a ++ lost a.
Proof.
  intros (la&lb&oa&ob&D1&D2&(_&(t&Ht&Hp)&_)&_&_&G2). simpl in *. unfold got_inv in G2.
  transitivity (concat (map fst ob)); [rewrite <- G2; by eexists|].
  transitivity (plain la); [|rewrite Hp; by apply prefix_app].
  destruct (di_prefix _ _ _ _ D1) as [suf Hs]. unfold plain.
  replace (map ePlain la) with (map fst (map shown la)) by (rewrite map_map; done).
  rewrite Hs, map_app, concat_app. by eexists.
Qed.

Lemma pair_inv_lost a b : pair_inv (a, b) -> broken a = false -> lost a = [].
Proof. intros (la&lb&oa&ob&D1&D2&(_&_&Hl)&_). exact Hl. Qed.

(** C7: over a relay that may drop, repeat, reorder, cut, inject and reflect
    bytes as it likes, but cannot forge a record the peer's session did not
    produce, the bytes the connection's [Read] calls return at one end are a
    prefix of the bytes [Write] accepted at the other end, in order and without
    gaps; only a call that broke its session can have had more of its payload
    delivered than it reported. *)
Theorem relay_stream_prefix A B a b :
  handshaken A B -> reachable (newEndpoint A, newEndpoint B) (a, b) ->
  got b `prefix_of` accepted a ++ lost a /\ got a `prefix_of` accepted b ++ lost b /\
  (broken a = false -> got b `prefix_of` accepted a) /\
  (broken b = false -> got a `prefix_of` accepted b).
Proof.
  intros HS HR. pose proof (reachable_inv _ _ (handshaken_inv _ _ HS) HR) as I.
  pose proof (pair_inv_swap _ _ I) as I'.
  pose proof (pair_inv_prefix _ _ I) as P. pose proof (pair_inv_prefix _ _ I') as P'.
  split_and!; [done..| |]; intros Hb; [rewrite (pair_inv_lost _ _ I Hb) in P|rewrite (pair_inv_lost _ _ I' Hb) in P'];
    by rewrite app_nil_r in *.
Qed.

(** Whatever happens on the carrier and in whatever order the calls come, the
    [j]-th record an endpoint hands to its carrier carries the sequence number
    [j], its role's direction flag and its handle: no sequence number, and so no
    nonce of the cipher, is ever used twice. *)
Theorem relay_sequence_unique A B a b j record :
  handshaken A B -> reachable (newEndpoint A, newEndpoint B) (a, b) ->
  handed (out a) !! j = Some record ->
  hSequence (take 28 record) = Z.of_nat j /\ Z.of_nat j < maxUint64 /\
  hHandle (take 28 record) = handle A /\ hasFlag flagResponder (hFlags (take 28 record)) = false.
Proof.
  intros HS HR Hj. pose proof (reachable_identity _ _ HR) as (HiA&HhA).
  destruct (reachable_inv _ _ (handshaken_inv _ _ HS) HR) as (la&lb&oa&ob&D1&_&(Hh&_)&_).
  simpl in *. rewrite <- Hh in Hj. apply list_lookup_fmap_Some_1 in Hj as (e&->&He).
  destruct (di_log _ _ _ _ D1 _ _ He) as (_&Hmax&c&_&->). pose proof (di_handle _ _ _ _ D1) as Hhd.
  unfold entry_header. rewrite makeHeader_take by done.
  rewrite hSequence_makeHeader by (done || unfold two64, maxUint64 in *; lia).
  rewrite hHandle_makeHeader, hFlags_makeHeader, recordFlags_responder by (done || apply recordFlags_range).
  unfold sess in *. simpl in HiA, HhA. by rewrite HiA, HhA, (hs_initiator _ _ HS).
Qed.

End props.
