(* ===== verification/RelayDelivery.v ===== *)
(** * Secure streams over a relay that forwards

    The other half of the contract of [SecureConn]: over a carrier that delivers
    the bytes, within the limits of one key generation, every [Write] succeeds and
    the reader gets exactly the written bytes, then the end of the stream.  The
    same lemmas show what the reader sees when the relay stops early. *)
From S2P Require Import Prelude Codec RelayRecord RelayChannel RelayStream RelayStreamProps.

Section delivery.
Context `{C : CipherState} `{L : !CipherLaws C}.

(** ** Runs of calls *)

(** Consecutive calls of [Write]; [env i] is the environment of the [i]-th call. *)
Fixpoint WriteSeq (i : nat) (env : nat -> nat -> sendEnv) (payloads : list (list byte))
    (c : SecureConn) (w : carrier) : SecureConn * carrier * list (Z * option ConnError) :=
  match payloads with
  | [] => (c, w, [])
  | p :: ps =>
      match Write (env i) p c w with
      | (c', w', r) => let '(c2, w2, rs) := WriteSeq (S i) env ps c' w' in (c2, w2, r :: rs)
      end
  end.

(** [io.ReadAll]: read with a buffer of [n] bytes until an error. *)
Fixpoint ReadAll (fuel i n : nat) (env : nat -> recvEnv) (c : SecureConn) (incoming : list byte)
  : list byte * option ConnError :=
  match fuel with
  | O => ([], None)
  | S fuel' =>
      match Read n (env i) c incoming with
      | (c', rest, Ok b) => let '(bs, e) := ReadAll fuel' (S i) n env c' rest in (b ++ bs, e)
      | (_, _, Err e) => ([], Some e)
      end
  end.

(** A carrier that takes a whole record, in as many writes as it likes. *)
Definition takes_all (ws : list (nat * bool)) : Prop :=
  Forall (fun x => (0 < fst x)%nat /\ snd x = false) ws /\
  headerLength + maximumCiphertext <= Z.of_nat (sum_list (map fst ws)).

Definition good_send (t : Z) (env : sendEnv) : Prop := in_age t (sealTime env) /\ takes_all (writes env).
Definition good_recv (t : Z) (env : recvEnv) : Prop := in_age t (openTime env) /\ readLimit env = None.

(** ** Sending *)
Lemma sendLoop_takes_all ws rest w :
  Forall (fun x => (0 < fst x)%nat /\ snd x = false) ws ->
  (length rest <= sum_list (map fst ws))%nat ->
  sendLoop ws rest w = (w <| wire := wire w ++ rest |>, None).
Proof.
  intros HF. revert rest w. induction HF as [|[n f] ws [Hn Hf] HF IH]; intros rest w Hl; simpl in *.
  - destruct rest; simpl in *; [|lia]. rewrite app_nil_r. by destruct w.
  - subst f. destruct rest as [|x rest]; [rewrite app_nil_r; by destruct w|].
    destruct n as [|n]; [lia|]. cbn [Nat.eqb]. rewrite IH.
    + simpl. by rewrite <- app_assoc, <- (take_drop (S n) (x :: rest)) at 1.
    + simpl in *. rewrite length_drop. lia.
Qed.

Lemma validWireRecord_sealed f h q (p c : list byte) :
  isHandle h -> len p <= maximumPlaintext -> len c = len p + authenticationBytes ->
  validWireRecord (makeHeader f h q (len p + authenticationBytes) ++ c) = true.
Proof.
  intros Hh Hp Hc. pose proof (len_nonneg p). unfold validWireRecord.
  assert (Hl : len (makeHeader f h q (len p + authenticationBytes)) = 28)
    by (unfold len; rewrite makeHeader_length; done).
  rewrite len_app, Hl, Hc. unfold maximumPlaintext, maximumCiphertext, headerLength, authenticationBytes in *.
  rewrite bool_decide_eq_true_2 by done.
  rewrite (proj2 (Z.ltb_ge _ _)), (proj2 (Z.ltb_ge _ _)) by lia. simpl negb. cbv iota. simpl orb.
  cbv iota. apply Z.eqb_eq.
  pose proof (hLength_makeHeader f h q (len p + 16) Hh ltac:(lia)) as HL. unfold hLength in HL.
  replace (sub 26 28 (_ ++ c)) with (sub 26 28 (makeHeader f h q (len p + 16))); [lia|].
  unfold sub. rewrite drop_app_le, take_app_le; [done| |];
    rewrite ?length_drop, makeHeader_length by done; simpl; lia.
Qed.

Lemma validWireRecord_entry init hdl k k' q e :
  isHandle hdl -> sealed_by init hdl k k' q e -> validWireRecord (eRecord e) = true.
Proof.
  intros Hh (Hl&c&HE&->). apply validWireRecord_sealed; auto. by apply Encrypt_length in HE.
Qed.

Lemma entry_length init hdl k k' q e :
  isHandle hdl -> sealed_by init hdl k k' q e -> len (eRecord e) <= headerLength + maximumCiphertext.
Proof.
  intros Hh (Hl&c&HE&->). apply Encrypt_length in HE. rewrite len_app, HE.
  replace (len (entry_header init hdl q e)) with 28.
  - unfold maximumPlaintext, maximumCiphertext, headerLength, authenticationBytes in *. lia.
  - unfold len, entry_header. by rewrite (makeHeader_length _ _ _ _ Hh).
Qed.

Lemma Send_ready env p cl s w k q t st :
  poisoned s = false -> rekeyPolicy s = DevelopmentRekeyPolicy -> isHandle (handle s) ->
  ready (send s) k q t st -> nonce k = q -> q < hardRekeySequence ->
  len p <= maximumPlaintext -> t + len p <= hardRekeyBytes -> good_send st env ->
  exists k' r s' w', Send 0 env p cl s w = (s', w', None) /\
    sealed_by (initiator s) (handle s) k k' q (mkEntry p cl r) /\ wire w' = wire w ++ r /\
    same_identity s s' /\ poisoned s' = false /\ nonce k' = q + 1 /\
    send s' = mkDirection (Some k') (q + 1) cl (t + len p) st.
Proof.
  intros Hpo Hpol Hh Hr Hn Hq Hlen Hsum [Hage [Hws Htot]].
  destruct (seal_ready p cl false (sealTime env) s k q t st)
    as (k'&r&s'&HS&Hsb&Hid&Hp&_&Hn'&Hsd); auto.
  unfold Send, sealAndSend. rewrite Hpo, (proj2 (Z.ltb_ge _ _)) by lia. simpl expired. cbv iota. rewrite HS.
  unfold SendRecord. rewrite (validWireRecord_entry _ _ _ _ _ _ Hh Hsb : validWireRecord r = true).
  simpl negb. cbv iota. simpl expired. cbv iota. simpl andb. cbv iota.
  pose proof (entry_length _ _ _ _ _ _ Hh Hsb) as HL. simpl in HL.
  rewrite sendLoop_takes_all; [|done|unfold len in HL; lia].
  eexists k', r, s', _. split; [done|]. split_and!; try done. congruence.
Qed.

(** A connection that has written [t] bytes in [q] records under the keys
    installed at [st]. *)
Record can_write (c : SecureConn) (k : cipher) (q t st : Z) : Prop := {
  cw_poison : poisoned (session c) = false;
  cw_policy : rekeyPolicy (session c) = DevelopmentRekeyPolicy;
  cw_handle : isHandle (handle (session c));
  cw_ready : ready (send (session c)) k q t st;
  cw_nonce : nonce k = q;
  cw_count : q <= t;
  cw_deadline : writeDeadline c = 0
}.

Definition data_entry (e : entry) : Prop :=
  ePlain e <> [] /\ eClose e = false /\ len (ePlain e) <= maximumPlaintext.

(** What a run of writes puts on the wire. *)
Record wrote (c c' : SecureConn) (w w' : carrier) (k k' : cipher) (q : Z) (l : list entry) : Prop := {
  wr_wire : wire w' = wire w ++ concat (map eRecord l);
  wr_chain : chain (initiator (session c)) (handle (session c)) k q l k';
  wr_data : Forall data_entry l;
  wr_identity : same_identity (session c) (session c')
}.

Lemma seal_chain_app init hdl k q l k' l2 k2 :
  chain init hdl k q l k' -> chain init hdl k' (q + len l) l2 k2 -> chain init hdl k q (l ++ l2) k2.
Proof.
  induction 1 as [k q|k q e l k1 c0 k' HE Hr Hc IH]; intros H2.
  - by rewrite len_nil, Z.add_0_r in H2.
  - rewrite len_cons in H2. simpl. econstructor; [done..|]. apply IH.
    by replace (q + 1 + len l) with (q + (1 + len l)) by lia.
Qed.

Lemma wrote_refl c w k q : wrote c c w w k k q [].
Proof. split; [by rewrite app_nil_r|constructor|constructor|apply same_identity_refl]. Qed.

Lemma wrote_trans c c1 c2 w w1 w2 k k1 k2 q l l2 :
  wrote c c1 w w1 k k1 q l -> wrote c1 c2 w1 w2 k1 k2 (q + len l) l2 ->
  wrote c c2 w w2 k k2 q (l ++ l2).
Proof.
  intros [W1 C1 D1 I1] [W2 C2 D2 I2]. split.
  - by rewrite W2, W1, map_app, concat_app, app_assoc.
  - destruct I1 as (Hi&Hh&_). rewrite Hi, Hh in C2. by eapply seal_chain_app.
  - by apply Forall_app.
  - by eapply same_identity_trans.
Qed.

Lemma write_chunk env p c w k q t st :
  can_write c k q t st -> p <> [] -> len p <= maximumPlaintext -> t + len p < hardRekeyBytes ->
  good_send st env ->
  exists k' s' w' r, Send 0 env p false (session c) w = (s', w', None) /\
    wrote c (c <| session := s' |>) w w' k k' q [mkEntry p false r] /\
    can_write (c <| session := s' |>) k' (q + 1) (t + len p) st.
Proof.
  intros [] Hne Hlen Hsum Hg.
  assert (0 < len p).
  { pose proof (len_nonneg p). destruct (decide (len p = 0)) as [E|E]; [by apply len_zero_nil in E|lia]. }
  pose proof (cw_ready0) as (Hd&Hq&Ht&Hst).
  assert (Hq2 : q + 1 < hardRekeySequence).
  { unfold hardRekeyBytes, hardRekeySequence, maxUint64, sequenceRekeyReserve in *. lia. }
  destruct (Send_ready env p false (session c) w k q t st) as (k'&r&s'&w'&HS&(_&ct&HE&Hrec)&Hw&Hid&Hp&Hn'&Hsd);
    auto; [lia..|].
  eexists k', s', w', r. split; [done|]. split.
  - split; [rewrite Hw; simpl; rewrite app_nil_r; done| | |done].
    + econstructor; [exact HE|done|]. constructor.
    + repeat constructor; done.
  - destruct Hid as (Hi&Hh&Hpol&_). split; [done|simpl; congruence|simpl; by rewrite Hh| |done|lia|done].
    split; [done|]. unfold hardRekeySequence, sequenceRekeyReserve in *. lia.
Qed.

Lemma writeLoop_ready fuel i env payload wr c w k q t st :
  can_write c k q t st -> t + len payload < hardRekeyBytes -> (forall j, good_send st (env j)) ->
  (length payload <= fuel)%nat ->
  exists l k' c' w', writeLoop fuel i env payload wr c w = (c', w', (wr + len payload, None)) /\
    wrote c c' w w' k k' q l /\ plain l = payload /\
    can_write c' k' (q + len l) (t + len payload) st.
Proof.
  intros Hc Hsum Hg. revert i payload wr c w k q t Hc Hsum.
  induction fuel as [|fuel IH]; intros i payload wr c w k q t Hc Hsum Hf.
  - destruct payload; simpl in Hf; [|lia]. exists [], k, c, w.
    change (len (@nil byte)) with 0. change (len (@nil entry)) with 0. rewrite !Z.add_0_r.
    split_and!; [done|apply wrote_refl|done..].
  - destruct payload as [|x payload'].
    { exists [], k, c, w. change (len (@nil byte)) with 0. change (len (@nil entry)) with 0. rewrite !Z.add_0_r.
      split_and!; [done|apply wrote_refl|done..]. }
    remember (x :: payload') as payload eqn:Epl.
    assert (Hne : payload <> []) by (by subst). destruct (chunkOf_take payload Hne) as (Hck&Hcl&Hcc).
    assert (Hcn : chunkOf payload <> []).
    { intros E. rewrite E in Hcl. change (len (@nil byte)) with 0 in Hcl. lia. }
    destruct (write_chunk (env i) (chunkOf payload) c w k q t st) as (k1&s1&w1&r&HS&HW&Hc1);
      auto; [unfold secureConnChunk in Hcc; unfold maximumPlaintext, maximumCiphertext, authenticationBytes; lia|lia|].
    destruct (IH (S i) (zdrop (len (chunkOf payload)) payload) (wr + len (chunkOf payload))
      (c <| session := s1 |>) w1 k1 (q + 1) (t + len (chunkOf payload))) as (l&k'&c'&w'&HL&HW2&Hpl&Hc2).
    { done. }
    { rewrite len_zdrop by lia. lia. }
    { unfold zdrop. rewrite length_drop. unfold len in Hcl |- *. lia. }
    rewrite len_zdrop in * by lia.
    exists ([mkEntry (chunkOf payload) false r] ++ l), k', c', w'. split_and!.
    + simpl writeLoop. rewrite Epl. rewrite <- Epl. fold (chunkOf payload).
      rewrite <- (cw_deadline _ _ _ _ _ Hc) in HS. rewrite HS. etransitivity; [exact HL|]. do 2 f_equal. lia.
    + eapply wrote_trans; [exact HW|]. exact HW2.
    + rewrite plain_app, Hpl. unfold plain. simpl. rewrite app_nil_r, Hck at 1. apply ztake_zdrop.
    + rewrite len_app. change (len [_]) with 1.
      replace (q + (1 + len l)) with (q + 1 + len l) by lia.
      by replace (t + len payload) with (t + len (chunkOf payload) + (len payload - len (chunkOf payload))) by lia.
Qed.

Lemma WriteSeq_ready i env ps c w k q t st :
  can_write c k q t st -> t + len (concat ps) < hardRekeyBytes -> (forall i j, good_send st (env i j)) ->
  exists l k' c' w', WriteSeq i env ps c w = (c', w', map (fun p => (len p, None)) ps) /\
    wrote c c' w w' k k' q l /\ plain l = concat ps /\
    can_write c' k' (q + len l) (t + len (concat ps)) st.
Proof.
  intros Hc Hsum Hg. revert i c w k q t Hc Hsum.
  induction ps as [|p ps IH]; intros i c w k q t Hc Hsum.
  - exists [], k, c, w. change (len (concat [])) with 0. change (len (@nil entry)) with 0.
    rewrite !Z.add_0_r. split_and!; [done|apply wrote_refl|done..].
  - simpl concat in *. rewrite len_app in *. pose proof (len_nonneg (concat ps)).
    destruct (writeLoop_ready (length p) 0 (env i) p 0 c w k q t st) as (l&k1&c1&w1&HL&HW&Hpl&Hc1);
      auto; [lia|].
    destruct (IH (S i) c1 w1 k1 (q + len l) (t + len p) Hc1 ltac:(lia)) as (l2&k2&c2&w2&HL2&HW2&Hpl2&Hc2).
    exists (l ++ l2), k2, c2, w2. split_and!.
    + simpl WriteSeq. unfold Write. by rewrite HL, HL2.
    + by eapply wrote_trans.
    + by rewrite plain_app, Hpl, Hpl2.
    + rewrite len_app, !Z.add_assoc. done.
Qed.

(** ** Receiving *)
Record can_read (c : SecureConn) (init : bool) (hdl : list byte) (r : cipher) (q t st : Z) : Prop := {
  cr_poison : poisoned (session c) = false;
  cr_policy : rekeyPolicy (session c) = DevelopmentRekeyPolicy;
  cr_handle : handle (session c) = hdl;
  cr_role : initiator (session c) = negb init;
  cr_ready : ready (receive (session c)) r q t st;
  cr_count : q <= t;
  cr_deadline : readDeadline c = 0
}.

Lemma ReceiveRecord_forwarded env init hdl k k' q e rest :
  sealed_by init hdl k k' q e -> isHandle hdl -> readLimit env = None ->
  ReceiveRecord 0 env (eRecord e ++ rest) = (Ok (eRecord e), rest).
Proof.
  intros (Hlen&ct&HE&Hrec) Hh Hlim. rewrite Hrec.
  pose proof (Encrypt_length _ _ _ _ _ HE) as Hct. pose proof (len_nonneg (ePlain e)).
  set (h := entry_header init hdl q e) in *.
  assert (Hhl : length h = 28%nat) by (by apply makeHeader_length).
  assert (HL : be_get (sub 26 28 h) = len (ePlain e) + 16).
  { apply (hLength_makeHeader _ _ _ (len (ePlain e) + 16) Hh).
    unfold maximumPlaintext, maximumCiphertext, authenticationBytes in *. lia. }
  assert (HV : nth 0 h x00 = recordVersion) by done. clearbody h.
  unfold ReceiveRecord. simpl expired. cbv iota. simpl andb. cbv iota. rewrite Hlim. unfold readFull.
  rewrite <- app_assoc, ReadFull_app by done.
  rewrite HV, HL, bool_decide_eq_true_2 by done. simpl negb.
  unfold maximumPlaintext, maximumCiphertext, authenticationBytes in *.
  rewrite (proj2 (Z.ltb_ge _ _)), (proj2 (Z.ltb_ge _ _)) by lia. simpl orb. cbv iota.
  rewrite ReadFull_app; [done|]. unfold len in *. lia.
Qed.

Lemma Receive_forwarded c init hdl k k' r q t st e env rest :
  sealed_by init hdl k k' q e -> isHandle hdl -> paired k r -> can_read c init hdl r q t st ->
  t + len (ePlain e) < hardRekeyBytes -> (eClose e = false -> ePlain e <> []) -> good_recv st env ->
  exists s' r', Receive (readDeadline c) env (session c) (eRecord e ++ rest) = (s', rest, Ok (ePlain e, eClose e)) /\
    paired k' r' /\ (eClose e = false -> can_read (c <| session := s' |>) init hdl r' (q + 1) (t + len (ePlain e)) st).
Proof.
  intros Hs Hh Hpair [] Hsum Hne [Hage Hlim]. pose proof cr_ready0 as (_&Hq&Ht&Hst).
  destruct (Open_forwarded (session c) init hdl k k' r q t st e (openTime env)) as (s'&r'&HO&HP&Hid&Hp&Hrc);
    auto; [lia|].
  exists s', r'. unfold Receive. rewrite cr_deadline0.
  rewrite (ReceiveRecord_forwarded env init hdl k k' q e rest) by done. rewrite HO.
  split_and!; [done..|]. intros Hcl. destruct Hid as (Hi&Hhh&Hpol&_). rewrite Hcl in Hrc.
  assert (0 < len (ePlain e)).
  { pose proof (len_nonneg (ePlain e)). destruct (decide (len (ePlain e) = 0)) as [E|E]; [|lia].
    apply len_zero_nil in E. by apply Hne in Hcl. }
  split; simpl; try congruence; try lia.
  split_and!; try done; try lia.
  unfold maxUint64, hardRekeyBytes in *. lia.
Qed.

(** Reading the data records [l] from a forwarding relay, from a connection with
    [readBuffer c] left over: the buffered and the sealed bytes, then whatever the
    rest of the stream [tl] gives. *)
Lemma ReadAll_data m init hdl n env st tl F :
  isHandle hdl -> (0 < n)%nat -> (forall j, good_recv st (env j)) ->
  forall fuel i c k k' r q t l,
  (length (readBuffer c) + length (plain l) <= m)%nat -> (m + F <= fuel)%nat ->
  can_read c init hdl r q t st -> paired k r -> chain init hdl k q l k' -> Forall data_entry l ->
  t + len (plain l) < hardRekeyBytes ->
  exists c' r' fuel' i', (F <= fuel')%nat /\ paired k' r' /\ readBuffer c' = [] /\
    can_read c' init hdl r' (q + len l) (t + len (plain l)) st /\
    ReadAll fuel i n env c (concat (map eRecord l) ++ tl) =
    let '(bs, e) := ReadAll fuel' i' n env c' tl in (readBuffer c ++ plain l ++ bs, e).
Proof.
  intros Hh Hn Henv. induction m as [|m IH]; intros fuel i c k k' r q t l Hm Hf Hc Hpair Hch Hdata Hsum.
  - assert (l = []) as ->.
    { destruct Hdata as [|e l [He _]]; [done|]. unfold plain in Hm. simpl in Hm.
      rewrite length_app in Hm. destruct (ePlain e); [done|simpl in Hm; lia]. }
    destruct (readBuffer c) eqn:Eb; simpl in Hm; [|lia].
    exists c, r, fuel, i. change (len (plain [])) with 0. change (len (@nil entry)) with 0.
    rewrite !Z.add_0_r. invc Hch. split_and!; try done. simpl. by destruct (ReadAll _ _ _ _ _ _).
  - destruct (readBuffer c) as [|x buf] eqn:Eb.
    + destruct Hch as [k q|k q e l k1 ct k' HE Hrec Hch].
      { exists c, r, fuel, i. change (len (plain [])) with 0. change (len (@nil entry)) with 0.
        rewrite !Z.add_0_r. split_and!; try done; [lia|]. simpl. by destruct (ReadAll _ _ _ _ _ _). }
      destruct fuel as [|fuel]; [lia|].
      apply Forall_cons_1 in Hdata as [(Hne&Hcl&Hlen) Hdata].
      change (e :: l) with ([e] ++ l) in *. rewrite plain_app, len_app, len_app in *.
      replace (plain [e]) with (ePlain e) in * by (unfold plain; simpl; by rewrite app_nil_r).
      change (len [e]) with 1. pose proof (len_nonneg (plain l)).
      destruct (Receive_forwarded c init hdl k k1 r q t st e (env i) (concat (map eRecord l) ++ tl))
        as (s'&r'&HR&Hpair'&Hc'); auto; [split; [done|by exists ct]|lia|].
      specialize (Hc' Hcl). rewrite length_app in Hm.
      destruct (ePlain e) as [|y p] eqn:Ep; [done|]. rewrite <- Ep in *.
      destruct (IH fuel (S i) ((c <| session := s' |>) <| readBuffer := drop n (ePlain e) |>)
        k1 k' r' (q + 1) (t + len (ePlain e)) l) as (c2&r2&f2&i2&HF&HP2&HB2&HC2&HRA); auto; try lia.
      { simpl readBuffer. rewrite length_drop. rewrite Ep in Hm |- *. simpl in Hm |- *. lia. }
      { destruct Hc'. by split. }
      exists c2, r2, f2, i2. split_and!; try done.
      { by rewrite !Z.add_assoc. }
      cbn [ReadAll]. unfold Read. destruct (Nat.eqb_spec n 0) as [?|_]; [lia|].
      rewrite Eb. simpl map. simpl concat. rewrite <- app_assoc, HR. rewrite Ep. cbv iota. rewrite <- Ep.
      change (c<|session := s'|><|readBuffer := drop n (ePlain e)|>) with
        ((c<|session := s'|>)<|readBuffer := drop n (ePlain e)|>).
      rewrite HRA. destruct (ReadAll f2 i2 n env c2 tl) as [bs er]. simpl readBuffer.
      simpl app. f_equal. rewrite !app_assoc. by rewrite take_drop.
    + destruct fuel as [|fuel]; [lia|].
      destruct (IH fuel (S i) (c <| readBuffer := drop n (x :: buf) |>) k k' r q t l)
        as (c2&r2&f2&i2&HF&HP2&HB2&HC2&HRA); auto; try lia.
      { simpl readBuffer. rewrite length_drop. simpl in *. lia. }
      { destruct Hc. by split. }
      exists c2, r2, f2, i2. split_and!; try done.
      cbn [ReadAll]. unfold Read. destruct (Nat.eqb_spec n 0) as [?|_]; [lia|]. rewrite Eb.
      rewrite HRA. destruct (ReadAll f2 i2 n env c2 tl) as [bs er]. f_equal.
      simpl readBuffer. by rewrite app_assoc, take_drop.
Qed.

(** ** From the handshake *)

(** [S] sends to [R]: the two sessions of one handshake, in either order. *)
Definition linked (S R : Session) : Prop := handshaken S R \/ handshaken R S.

Lemma linked_start S R :
  linked S R -> exists k r ts tr,
    started (send S) = ts /\ started (receive R) = tr /\ paired k r /\ isHandle (handle S) /\
    can_write (NewSecureConn S) k 0 0 ts /\
    can_read (NewSecureConn R) (initiator S) (handle S) r 0 0 tr.
Proof.
  assert (Hz : maxUint64 > 0 /\ hardRekeyBytes > 0) by done.
  intros [[HI HR HH HZ HPo HPn HC]|[HI HR HH HZ HPo HPn HC]]; destruct HC as (ka&ra&kb&rb&ta&tb&SA&RA&SB&RB&P1&P2&N1&N2&T1&T2);
    destruct HPo, HPn; pose proof (f_equal negb HI) as HI'; pose proof (f_equal negb HR) as HR'; simpl in HI', HR'.
  - exists ka, rb, ta, tb. rewrite SA, RB. split_and!; try done; split; try done; simpl; congruence.
  - exists kb, ra, tb, ta. rewrite SB, RA. split_and!; try done; [congruence|..];
      split; try done; simpl; congruence.
Qed.

(** At the end of the carrier's bytes the reader sees [io.EOF]. *)
Lemma Read_end n env c init hdl r q t st :
  can_read c init hdl r q t st -> readBuffer c = [] -> (0 < n)%nat -> good_recv st env ->
  Read n env c [] = (c, [], Err ConnEOF).
Proof.
  intros [] Hb Hn [_ Hlim]. unfold Read. destruct (Nat.eqb_spec n 0) as [?|_]; [lia|].
  rewrite Hb, cr_deadline0. unfold Receive, ReceiveRecord. simpl. rewrite Hlim. simpl. by destruct c.
Qed.

(** C36: the carrier delivering, within the limits of one key generation (under
    1 GiB and before the keys are an hour old), every [Write] accepts its whole
    payload, [CloseWrite] succeeds, and a reader with any buffer size gets exactly
    the written bytes and then [io.EOF]; the stream's writes may be split in any
    way.  One read per byte is enough. *)
Theorem relay_stream_delivers S R ps env cenv renv n fuel :
  linked S R -> len (concat ps) < hardRekeyBytes ->
  (forall i j, good_send (started (send S)) (env i j)) -> good_send (started (send S)) cenv ->
  (forall j, good_recv (started (receive R)) (renv j)) ->
  (0 < n)%nat -> (length (concat ps) < fuel)%nat ->
  exists c1 w1 c2 w2,
    WriteSeq 0 env ps (NewSecureConn S) (mkCarrier [] []) = (c1, w1, map (fun p => (len p, None)) ps) /\
    CloseWrite cenv c1 w1 = (c2, w2, None) /\
    ReadAll fuel 0 n renv (NewSecureConn R) (wire w2) = (concat ps, Some ConnEOF).
Proof.
  intros HL Hsum Henv Hcenv Hrenv Hn Hf.
  destruct (linked_start _ _ HL) as (k&r&ts&tr&Ets&Etr&Hpair&Hh&Hcw&Hcr). rewrite Ets, Etr in *.
  destruct (WriteSeq_ready 0 env ps (NewSecureConn S) (mkCarrier [] []) k 0 0 ts Hcw) as (l&k1&c1&w1&HW&[HWw HWc HWd HWi]&Hpl&Hc1); auto.
  destruct HWi as (Hi&Hhd&_). destruct Hc1 as [Hc1p Hc1o Hc1h Hc1r Hc1n Hc1c Hc1d]. simpl in *.
  destruct (Send_ready cenv [] true (session c1) w1 k1 (len l) (len (concat ps)) ts)
    as (k2&rc&s2&w2&HS&HE&Hw&_); auto;
    [unfold hardRekeySequence, maxUint64, sequenceRekeyReserve, hardRekeyBytes in *; lia|done
    |change (len (@nil byte)) with 0; lia|].
  set (e := mkEntry [] true rc). rewrite Hi, Hhd in HE.
  exists c1, w1, (c1 <| session := s2 |>), w2. split_and!; [done| |].
  { unfold CloseWrite. rewrite Hc1d, HS. done. }
  rewrite Hw, HWw. simpl.
  destruct (ReadAll_data (length (concat ps)) (initiator S) (handle S) n renv tr (eRecord e) 1 Hh Hn Hrenv
    fuel 0 (NewSecureConn R) k k1 r 0 0 l) as (c3&r3&f3&i3&HF&HP3&HB3&HC3&HRA); auto; simpl; try lia.
  { by rewrite Hpl. } { by rewrite Hpl. }
  etransitivity; [exact HRA|]. destruct f3 as [|f3]; [lia|]. cbn [ReadAll]. rewrite Hpl.
  destruct (Receive_forwarded c3 (initiator S) (handle S) k1 k2 r3 (len l) (len (concat ps)) tr e (renv i3) [])
    as (s4&r4&HR&_&_); auto.
  { by rewrite Hpl in HC3. } { change (len (ePlain e)) with 0. lia. }
  unfold Read. destruct (Nat.eqb_spec n 0) as [?|_]; [lia|]. rewrite HB3.
  rewrite app_nil_r in HR. rewrite HR. simpl. by rewrite app_nil_r.
Qed.

Lemma chain_take init hdl k q l k' j :
  chain init hdl k q l k' -> exists k2, chain init hdl k q (take j l) k2.
Proof.
  intros H. revert j. induction H as [k q|k q e l k1 ct k' HE Hr Hc IH]; intros [|j]; simpl;
    try (eexists; constructor; done).
  destruct (IH j) as [k2 H2]. exists k2. by econstructor.
Qed.

(** A relay that forwards any number of whole records and then closes the
    stream is not noticed: the reader gets the bytes of those records and
    [io.EOF], which is also what it gets after the authenticated end-of-stream
    record of [CloseWrite], although the sender has written more. *)
Theorem relay_truncation_unnoticed S R ps env renv n fuel :
  linked S R -> len (concat ps) < hardRekeyBytes ->
  (forall i j, good_send (started (send S)) (env i j)) ->
  (forall j, good_recv (started (receive R)) (renv j)) ->
  (0 < n)%nat -> (length (concat ps) < fuel)%nat ->
  exists c1 w1 chunks records,
    WriteSeq 0 env ps (NewSecureConn S) (mkCarrier [] []) = (c1, w1, map (fun p => (len p, None)) ps) /\
    concat chunks = concat ps /\ Forall (fun p => p <> []) chunks /\
    wire w1 = concat records /\ length records = length chunks /\
    forall j, ReadAll fuel 0 n renv (NewSecureConn R) (concat (take j records))
      = (concat (take j chunks), Some ConnEOF).
Proof.
  intros HL Hsum Henv Hrenv Hn Hf.
  destruct (linked_start _ _ HL) as (k&r&ts&tr&Ets&Etr&Hpair&Hh&Hcw&Hcr). rewrite Ets, Etr in *.
  destruct (WriteSeq_ready 0 env ps (NewSecureConn S) (mkCarrier [] []) k 0 0 ts Hcw) as (l&k1&c1&w1&HW&[HWw HWc HWd HWi]&Hpl&Hc1); auto.
  exists c1, w1, (map ePlain l), (map eRecord l). split_and!; try done.
  { apply Forall_map. eapply Forall_impl; [exact HWd|]. by intros e (?&_). }
  { by rewrite !length_map. }
  intros j. destruct (chain_take _ _ _ _ _ _ j HWc) as [k2 Hch].
  assert (Hlen : (length (plain (take j l)) <= length (concat ps))%nat).
  { pose proof (plain_app (take j l) (drop j l)) as E. rewrite take_drop in E.
    rewrite <- Hpl, E, length_app. lia. }
  destruct (ReadAll_data (length (concat ps)) (initiator S) (handle S) n renv tr [] 1 Hh Hn Hrenv
    fuel 0 (NewSecureConn R) k k2 r 0 0 (take j l)) as (c3&r3&f3&i3&HF&HP3&HB3&HC3&HRA); auto; simpl; try lia.
  { by apply Forall_take. } { unfold len in *. lia. }
  rewrite app_nil_r in HRA. rewrite <- !firstn_map in *. etransitivity; [exact HRA|].
  destruct f3 as [|f3]; [lia|]. cbn [ReadAll]. erewrite Read_end by (eauto). 
  unfold plain. simpl. by rewrite app_nil_r, firstn_map.
Qed.

End delivery.
