(* ===== verification/RelayHandshake.v ===== *)
(** * Relay handshake and rekey markers

    Models [relaynoise/handshake.go] (the Noise IK exchange that gives a pair of
    sessions) and the messages and state machines of [relaynoise/rekey.go].

    [noise.HandshakeState] is third-party code: [NoiseHandshake] is its interface.
    The encoding of a prologue ([prologue.MarshalBinary()]) is an argument of the
    constructors, [None] where it fails. *)
From S2P Require Import Prelude Codec RelayRecord.

Definition allZero (l : list byte) : bool := forallb (fun b => bool_decide (b = x00)) l.

Record DHKey := mkDHKey { Private : list byte; Public : list byte }.

(** The handshake interface: a message written or read gives the next state, the
    message or payload, and after the last one the two directions' ciphers,
    initiator to responder first. *)
Class NoiseHandshake `{C : CipherState} := {
  hstate : Type;
  NewHandshakeState : bool -> list byte -> DHKey -> option (list byte) -> option hstate;
  WriteMessage : hstate -> list byte -> option (hstate * list byte * option (cipher * cipher));
  ReadMessage : hstate -> list byte -> option (hstate * list byte * option (cipher * cipher));
  PeerStatic : hstate -> list byte;
  HandshakeBinding : hstate -> list byte;
  GenerateKeypair : list byte -> option DHKey
}.

Section handshake.
Context `{N : NoiseHandshake}.

(** [validateKeypair] *)
Definition validateKeypair (key : DHKey) : bool :=
  if negb (Nat.eqb (length (Private key)) 32) || negb (Nat.eqb (length (Public key)) 32)
     || allZero (Private key) || allZero (Public key)
  then false
  else match GenerateKeypair (Private key) with
       | Some derived => bool_decide (Public derived = Public key)
       | None => false
       end.

Record Initiator := mkInitiator { ihandshake : option hstate; ihandle : list byte; wrote_ : bool }.
Record Responder := mkResponder {
  rhandshake : option hstate; rhandle : list byte; expectedInitiator : list byte; read_ : bool }.

Definition newInitiator (local : DHKey) (responderPublic encoded hdl : list byte)
  : result RelayError Initiator :=
  match NewHandshakeState true encoded local (Some responderPublic) with
  | None => Err ErrHandshake
  | Some h => Ok (mkInitiator (Some h) hdl false)
  end.

Definition newResponder (local : DHKey) (initiatorPublic encoded hdl : list byte)
  : result RelayError Responder :=
  match NewHandshakeState false encoded local None with
  | None => Err ErrHandshake
  | Some h => Ok (mkResponder (Some h) hdl initiatorPublic false)
  end.

Definition NewInitiator (local : DHKey) (responderPublic : list byte) (prologue : option (list byte))
    (hdl : list byte) : result RelayError Initiator :=
  if negb (validateKeypair local) || allZero responderPublic || allZero hdl then Err ErrHandshake
  else match prologue with
       | None => Err ErrHandshake
       | Some encoded => newInitiator local responderPublic encoded hdl
       end.

Definition NewResponder (local : DHKey) (initiatorPublic : list byte) (prologue : option (list byte))
    (hdl : list byte) : result RelayError Responder :=
  if negb (validateKeypair local) || allZero initiatorPublic || allZero hdl then Err ErrHandshake
  else match prologue with
       | None => Err ErrHandshake
       | Some encoded => newResponder local initiatorPublic encoded hdl
       end.

Definition maximumMessage : Z := 65535.

(** [Initiator.WriteRequest] *)
Definition WriteRequest (payload : list byte) (i : Initiator) : Initiator * result RelayError (list byte) :=
  match ihandshake i with
  | None => (i, Err ErrProtocol)
  | Some h =>
      if wrote_ i then (i, Err ErrProtocol)
      else
        let broken := mkInitiator None (ihandle i) (wrote_ i) in
        if maximumMessage - 96 <? len payload then (broken, Err ErrLimit)
        else match WriteMessage h payload with
             | Some (h', message, None) =>
                 if maximumMessage <? len message then (broken, Err ErrLimit)
                 else (mkInitiator (Some h') (ihandle i) true, Ok message)
             | _ => (broken, Err ErrProtocol)
             end
  end.

(** [Responder.ReadRequest] *)
Definition ReadRequest (message : list byte) (r : Responder) : Responder * result RelayError (list byte) :=
  let broken := mkResponder None (rhandle r) (expectedInitiator r) (read_ r) in
  match rhandshake r with
  | None => (broken, Err ErrProtocol)
  | Some h =>
      if read_ r || (len message =? 0) || (maximumMessage <? len message) then (broken, Err ErrProtocol)
      else match ReadMessage h message with
           | Some (h', payload, None) =>
               if negb (bool_decide (PeerStatic h' = expectedInitiator r)) then (broken, Err ErrAuthentication)
               else (mkResponder (Some h') (rhandle r) (expectedInitiator r) true, Ok payload)
           | _ => (broken, Err ErrAuthentication)
           end
  end.

(** [Responder.WriteResponse]; the responder sends with the second cipher. *)
Definition WriteResponse (payload : list byte) (now : Z) (r : Responder)
  : Responder * result RelayError (list byte * Session) :=
  match rhandshake r with
  | None => (r, Err ErrProtocol)
  | Some h =>
      if negb (read_ r) then (r, Err ErrProtocol)
      else
        let done := mkResponder None (rhandle r) (expectedInitiator r) (read_ r) in
        if maximumMessage - 48 <? len payload then (done, Err ErrLimit)
        else match WriteMessage h payload with
             | Some (h', message, Some (i2r, r2i)) =>
                 if maximumMessage <? len message then (done, Err ErrLimit)
                 else (done, Ok (message, newSession false (rhandle r) r2i i2r (HandshakeBinding h') now))
             | _ => (done, Err ErrProtocol)
             end
  end.

(** [Initiator.ReadResponse] *)
Definition ReadResponse (message : list byte) (now : Z) (i : Initiator)
  : Initiator * result RelayError (list byte * Session) :=
  match ihandshake i with
  | None => (i, Err ErrProtocol)
  | Some h =>
      if negb (wrote_ i) || (len message =? 0) || (maximumMessage <? len message) then (i, Err ErrProtocol)
      else
        let done := mkInitiator None (ihandle i) (wrote_ i) in
        match ReadMessage h message with
        | Some (h', payload, Some (i2r, r2i)) =>
            (done, Ok (payload, newSession true (ihandle i) i2r r2i (HandshakeBinding h') now))
        | _ => (done, Err ErrAuthentication)
        end
  end.

(** ** Rekey messages *)
Definition rekeyMarkerSize : Z := 4 + 1 + 1 + 1 + 8 + 32.
Definition rekeyHandshakeHeaderSize : Z := 4 + 1 + 1 + 8 + 32 + 2.

(** The kinds and directions are [uint8] values in the source. *)
Definition RekeyHandshakeRequest : Z := 1.
Definition RekeyHandshakeResponse : Z := 2.
Definition RekeyInitiatorToResponder : Z := 1.
Definition RekeyResponderToInitiator : Z := 2.
Definition RekeyCommit : Z := 1.
Definition RekeyAcknowledgement : Z := 2.

Record RekeyHandshakeControl := mkControl {
  cKind : Z; cGeneration : Z; cBinding : list byte; cMessage : list byte }.

(** [RekeyHandshakeControl.MarshalBinary] *)
Definition Control_MarshalBinary (c : RekeyHandshakeControl) : result RelayError (list byte) :=
  if (negb (cKind c =? RekeyHandshakeRequest) && negb (cKind c =? RekeyHandshakeResponse))
     || (cGeneration c =? 0) || allZero (cBinding c) || (len (cMessage c) =? 0)
     || (maximumPlaintext - rekeyHandshakeHeaderSize <? len (cMessage c))
  then Err ErrRekeyMarker
  else Ok (bytes "PBRH" ++ [recordVersion; byte_of_Z (cKind c)] ++ PutUint64 (cGeneration c)
           ++ cBinding c ++ PutUint16 (len (cMessage c)) ++ cMessage c).

Definition ParseRekeyHandshakeControl (value : list byte) (expectedKind expectedGeneration : Z)
    (expectedBinding : list byte) : result RelayError RekeyHandshakeControl :=
  if (len value <? rekeyHandshakeHeaderSize) || (maximumPlaintext <? len value)
     || negb (bool_decide (sub 0 4 value = bytes "PBRH"))
     || negb (bool_decide (nth 4 value x00 = recordVersion))
     || negb (Z_of_byte (nth 5 value x00) =? expectedKind)
     || (expectedGeneration =? 0) || allZero expectedBinding
  then Err ErrRekeyMarker
  else
    let kind := Z_of_byte (nth 5 value x00) in
    let generation := be_get (sub 6 14 value) in
    let binding := sub 14 46 value in
    let length := be_get (sub 46 48 value) in
    if negb (generation =? expectedGeneration) || negb (bool_decide (binding = expectedBinding))
       || (length =? 0) || negb (length =? len value - rekeyHandshakeHeaderSize)
    then Err ErrRekeyMarker
    else Ok (mkControl kind generation binding (drop 48 value)).

(** [marshalRekeyPrologue] *)
Definition marshalRekeyPrologue (prologue : option (list byte)) (priorBinding : list byte)
    (generation : Z) : result RelayError (list byte) :=
  if allZero priorBinding || (generation =? 0) then Err ErrRekeyMarker
  else match prologue with
       | None => Err ErrHandshake
       | Some encoded => Ok (encoded ++ bytes "PBRP" ++ PutUint64 generation ++ priorBinding)
       end.

Definition NewRekeyInitiator (local : DHKey) (responderPublic : list byte) (prologue : option (list byte))
    (hdl priorBinding : list byte) (generation : Z) : result RelayError Initiator :=
  if negb (validateKeypair local) || allZero responderPublic || allZero hdl then Err ErrHandshake
  else match marshalRekeyPrologue prologue priorBinding generation with
       | Err e => Err e
       | Ok encoded => newInitiator local responderPublic encoded hdl
       end.

Definition NewRekeyResponder (local : DHKey) (initiatorPublic : list byte) (prologue : option (list byte))
    (hdl priorBinding : list byte) (generation : Z) : result RelayError Responder :=
  if negb (validateKeypair local) || allZero initiatorPublic || allZero hdl then Err ErrHandshake
  else match marshalRekeyPrologue prologue priorBinding generation with
       | Err e => Err e
       | Ok encoded => newResponder local initiatorPublic encoded hdl
       end.

Record RekeyMarker := mkMarker { mGeneration : Z; mDirection : Z; mKind : Z; mBinding : list byte }.

(** [RekeyMarker.MarshalBinary] *)
Definition Marker_MarshalBinary (m : RekeyMarker) : result RelayError (list byte) :=
  if (mGeneration m =? 0)
     || (negb (mDirection m =? RekeyInitiatorToResponder) && negb (mDirection m =? RekeyResponderToInitiator))
     || (negb (mKind m =? RekeyCommit) && negb (mKind m =? RekeyAcknowledgement))
     || allZero (mBinding m)
  then Err ErrRekeyMarker
  else Ok (bytes "PBRK" ++ [recordVersion; byte_of_Z (mDirection m); byte_of_Z (mKind m)]
           ++ PutUint64 (mGeneration m) ++ mBinding m).

Definition ParseRekeyMarker (value expectedBinding : list byte)
    (expectedDirection expectedKind minimumGeneration : Z) : result RelayError RekeyMarker :=
  if negb (len value =? rekeyMarkerSize) || negb (bool_decide (sub 0 4 value = bytes "PBRK"))
     || negb (bool_decide (nth 4 value x00 = recordVersion))
     || negb (Z_of_byte (nth 5 value x00) =? expectedDirection)
     || negb (Z_of_byte (nth 6 value x00) =? expectedKind) || allZero expectedBinding
  then Err ErrRekeyMarker
  else
    let m := mkMarker (be_get (sub 7 15 value)) (Z_of_byte (nth 5 value x00))
               (Z_of_byte (nth 6 value x00)) (drop 15 value) in
    if (mGeneration m <? minimumGeneration) || negb (bool_decide (mBinding m = expectedBinding))
    then Err ErrRekeyMarker else Ok m.

(** ** The marker exchange *)
Record rekeyDirectionState := mkRDS { commit : bool; ack : bool }.
Record RekeyExchange := mkExchange {
  xBinding : list byte; xGeneration : Z; dir0 : rekeyDirectionState; dir1 : rekeyDirectionState }.

Definition NewRekeyExchange (binding : list byte) (generation : Z) : result RelayError RekeyExchange :=
  if allZero binding || (generation =? 0) then Err ErrRekeyMarker
  else Ok (mkExchange binding generation (mkRDS false false) (mkRDS false false)).

(** The entry of [directions] at [int(marker.Direction) - 1], after the marker has
    been validated, and its update. *)
Definition dirState (e : RekeyExchange) (direction : Z) : rekeyDirectionState :=
  if direction =? RekeyInitiatorToResponder then dir0 e else dir1 e.
Definition setDirState (e : RekeyExchange) (direction : Z) (st : rekeyDirectionState) : RekeyExchange :=
  if direction =? RekeyInitiatorToResponder
  then mkExchange (xBinding e) (xGeneration e) st (dir1 e)
  else mkExchange (xBinding e) (xGeneration e) (dir0 e) st.

(** [RekeyExchange.Accept] *)
Definition Exchange_Accept (marker : RekeyMarker) (e : RekeyExchange) : RekeyExchange * result RelayError bool :=
  match Marker_MarshalBinary marker with
  | Err err => (e, Err err)
  | Ok encoded =>
      match ParseRekeyMarker encoded (xBinding e) (mDirection marker) (mKind marker) (xGeneration e) with
      | Err _ => (e, Err ErrRekeyMarker)
      | Ok parsed =>
          if negb (mGeneration parsed =? xGeneration e) then (e, Err ErrRekeyMarker)
          else
            let st := dirState e (mDirection marker) in
            let finish st' :=
              let e' := setDirState e (mDirection marker) st' in (e', Ok (ack (dir0 e') && ack (dir1 e'))) in
            if mKind marker =? RekeyCommit then
              if commit st || ack st then (e, Err ErrRekeyMarker) else finish (mkRDS true (ack st))
            else if mKind marker =? RekeyAcknowledgement then
              if negb (commit st) || ack st then (e, Err ErrRekeyMarker) else finish (mkRDS (commit st) true)
            else (e, Err ErrRekeyMarker)
      end
  end.

(** ** The transition *)

(** [t.current] is the session the caller holds; it is passed along. *)
Record RekeyTransition := mkTransition {
  tNext : option Session; exchange : RekeyExchange; switched0 : bool; switched1 : bool }.

(** [NewRekeyTransition]; [current] and [next] are two objects. *)
Definition NewRekeyTransition (current next : Session) (generation : Z) : result RelayError RekeyTransition :=
  if (generation =? 0) || negb (eqb (initiator current) (initiator next))
     || negb (bool_decide (handle current = handle next))
     || bool_decide (channelBinding current = channelBinding next)
     || allZero (channelBinding current) || allZero (channelBinding next)
  then Err ErrRekeyMarker
  else match NewRekeyExchange (channelBinding current) generation with
       | Err e => Err e
       | Ok x => Ok (mkTransition (Some next) x false false)
       end.

(** The direction of [current] that takes over the direction of [next]. *)
Definition takeOver (cur nxt : direction) (now : Z) : option (direction * direction) :=
  if closed cur || closed nxt || negb (sequence nxt =? 0) || negb (dbytes nxt =? 0) then None
  else match dcipher cur, dcipher nxt with
       | Some _, Some k =>
           Some (mkDirection (Some k) 0 (closed cur) 0 now, nxt <| dcipher := None |>)
       | _, _ => None
       end.

Definition installRekeyDirection (s next : Session) (rekeyDirection : Z) (now : Z)
  : result RelayError (Session * Session) :=
  let useSend := initiator s && (rekeyDirection =? RekeyInitiatorToResponder)
                 || negb (initiator s) && (rekeyDirection =? RekeyResponderToInitiator) in
  if useSend : bool
  then match takeOver (send s) (send next) now with
       | None => Err ErrRekeyMarker
       | Some (d, n) => Ok (s <| send := d |>, next <| send := n |>)
       end
  else match takeOver (receive s) (receive next) now with
       | None => Err ErrRekeyMarker
       | Some (d, n) => Ok (s <| receive := d |>, next <| receive := n |>)
       end.

Definition switchedAt (t : RekeyTransition) (direction : Z) : bool :=
  if direction =? RekeyInitiatorToResponder then switched0 t else switched1 t.
Definition markSwitched (direction : Z) (t : RekeyTransition) : RekeyTransition :=
  if direction =? RekeyInitiatorToResponder
  then mkTransition (tNext t) (exchange t) true (switched1 t)
  else mkTransition (tNext t) (exchange t) (switched0 t) true.

(** The acknowledgement's part of [RekeyTransition.Accept]. *)
Definition switchDirection (marker : RekeyMarker) (now : Z) (current next : Session) (t : RekeyTransition)
  : result RelayError (Session * Session * RekeyTransition) :=
  if mKind marker =? RekeyAcknowledgement then
    if switchedAt t (mDirection marker) then Err ErrRekeyMarker
    else match installRekeyDirection current next (mDirection marker) now with
         | Err e => Err e
         | Ok (current', next') =>
             Ok (current', next', markSwitched (mDirection marker)
                   (mkTransition (Some next') (exchange t) (switched0 t) (switched1 t)))
         end
  else Ok (current, next, t).

(** [RekeyTransition.Accept] *)
Definition Transition_Accept (marker : RekeyMarker) (now : Z) (current : Session) (t : RekeyTransition)
  : Session * RekeyTransition * result RelayError bool :=
  match tNext t with
  | None => (current, t, Err ErrRekeyMarker)
  | Some next =>
      let '(x, r) := Exchange_Accept marker (exchange t) in
      let t1 := mkTransition (tNext t) x (switched0 t) (switched1 t) in
      match r with
      | Err e => (current, t1, Err e)
      | Ok complete =>
          match switchDirection marker now current next t1 with
          | Err e => (current, t1, Err e)
          | Ok (current', next', t2) =>
              if complete : bool then
                if negb (switched0 t2) || negb (switched1 t2) then (current', t2, Err ErrRekeyMarker)
                else (setChannelBinding (channelBinding next') current',
                      mkTransition None (exchange t2) (switched0 t2) (switched1 t2), Ok complete)
              else (current', t2, Ok complete)
          end
      end
  end.

End handshake.
