(* ===== verification/RelayRekey.v ===== *)
(** * Rekeying a relay session in band

    Models [relaynoise/rekey_driver.go]: the two drivers that replace the keys of
    a running session by those of a fresh handshake carried inside it, and the
    commit and acknowledgement markers that tell each side when to switch each
    direction.

    A driver is straight-line code over the session it was given, the transition
    it creates and its carrier: a computation of the monad [D], whose [bind] stops
    at the first error. *)
From S2P Require Import Prelude Codec RelayRecord RelayHandshake.

(** [RekeyCarrier] with the context and the clock of the call. *)
Class RekeyCarrier (W : Type) := {
  CtxErr : W -> bool;
  Now : W -> Z;
  SendRekeyRecord : list byte -> W -> W * option RelayError;
  ReceiveRekeyRecord : W -> W * result RelayError (list byte)
}.

Section driver.
Context `{N : NoiseHandshake} `{K : RekeyCarrier W}.

Record dstate := mkD { current : Session; carrier : W }.
#[global] Instance dstate_eta : Eta dstate := fun d => mkD (current d) (carrier d).

Definition D (A : Type) : Type := dstate -> dstate * result RelayError A.
Definition ret {A} (a : A) : D A := fun d => (d, Ok a).
Definition fail {A} (e : RelayError) : D A := fun d => (d, Err e).
Definition lift {A} (r : result RelayError A) : D A := fun d => (d, r).
Definition bind {A B} (m : D A) (k : A -> D B) : D B := fun d =>
  match m d with (d', Ok a) => k a d' | (d', Err e) => (d', Err e) end.
Notation "'run!' x := m 'in' k" := (bind m (fun x => k)) (at level 10, x pattern, m at level 100, k at level 200).
Notation "m ;! k" := (bind m (fun _ => k)) (at level 100, k at level 200, right associativity).

Definition readNow : D Z := fun d => (d, Ok (Now (carrier d))).
Definition session_ : D Session := fun d => (d, Ok (current d)).

(** [sendControlRecord] *)
Definition sendControlRecord (payload : list byte) : D unit := fun d =>
  if CtxErr (carrier d) then (d, Err ErrContext)
  else match sealAndSend (CtxErr (carrier d)) payload false true SendRekeyRecord
               (Now (carrier d)) (current d) (carrier d) with
       | (s', w', None) => (mkD s' w', Ok tt)
       | (s', w', Some e) => (mkD s' w', Err e)
       end.

(** [receiveControlRecord] *)
Definition receiveControlRecord : D (list byte) := fun d =>
  match ReceiveRekeyRecord (carrier d) with
  | (w', Err e) => (mkD (current d) w', Err e)
  | (w', Ok record) =>
      match Open record (Now w') (current d) with
      | (s', Err e) => (mkD s' w', Err e)
      | (s', Ok (payload, closeAfter)) =>
          (mkD s' w', if closeAfter : bool then Err ErrControlClosed else Ok payload)
      end
  end.

Definition sendHandshakeControl (kind generation : Z) (binding message : list byte) : D unit :=
  run! payload := lift (Control_MarshalBinary (mkControl kind generation binding message)) in
  sendControlRecord payload.

Definition receiveHandshakeControl (kind generation : Z) (binding : list byte) : D (list byte) :=
  run! payload := receiveControlRecord in
  run! control := lift (ParseRekeyHandshakeControl payload kind generation binding) in
  ret (cMessage control).

Definition acceptMarker (marker : RekeyMarker) (t : RekeyTransition) : D (bool * RekeyTransition) := fun d =>
  match Transition_Accept marker (Now (carrier d)) (current d) t with
  | (s', t', Ok complete) => (d <| current := s' |>, Ok (complete, t'))
  | (s', _, Err e) => (d <| current := s' |>, Err e)
  end.

(** [sendMarkerComplete]; [sendMarker] ignores the flag. *)
Definition sendMarkerComplete (t : RekeyTransition) (marker : RekeyMarker) : D (bool * RekeyTransition) :=
  run! payload := lift (Marker_MarshalBinary marker) in
  sendControlRecord payload ;!
  acceptMarker marker t.

Definition receiveMarker (t : RekeyTransition) (binding : list byte) (generation dir kind : Z)
  : D (bool * RekeyTransition) :=
  run! payload := receiveControlRecord in
  run! marker := lift (ParseRekeyMarker payload binding dir kind generation) in
  acceptMarker marker t.

(** The deferred handler of the drivers: an error poisons the session. *)
Definition poisonOnError {A} (m : D A) : D A := fun d =>
  match m d with
  | (d', Err e) => (d' <| current := poison (current d') |>, Err e)
  | r => r
  end.

Definition initiatorBody (local : DHKey) (responderPublic : list byte) (prologue : option (list byte))
    (generation : Z) : D unit :=
  run! s := session_ in
  let prior := channelBinding s in
  run! hs := lift (NewRekeyInitiator local responderPublic prologue (handle s) prior generation) in
  let '(hs1, r1) := WriteRequest [] hs in
  run! request := lift r1 in
  sendHandshakeControl RekeyHandshakeRequest generation prior request ;!
  run! response := receiveHandshakeControl RekeyHandshakeResponse generation prior in
  run! now := readNow in
  let '(_, r2) := ReadResponse response now hs1 in
  run! (_, next) := lift r2 in
  run! s2 := session_ in
  run! t0 := lift (NewRekeyTransition s2 next generation) in
  run! (_, t1) := sendMarkerComplete t0 (mkMarker generation RekeyInitiatorToResponder RekeyCommit prior) in
  run! (_, t2) := receiveMarker t1 prior generation RekeyInitiatorToResponder RekeyAcknowledgement in
  run! (_, t3) := receiveMarker t2 prior generation RekeyResponderToInitiator RekeyCommit in
  run! (complete, _) :=
    sendMarkerComplete t3 (mkMarker generation RekeyResponderToInitiator RekeyAcknowledgement prior) in
  if negb complete then fail ErrRekeyMarker else ret tt.

Definition RunInitiatorRekey (local : DHKey) (responderPublic : list byte) (prologue : option (list byte))
    (generation : Z) : D unit := fun d =>
  if negb (initiator (current d)) || (generation =? 0) then (d, Err ErrRekeyMarker)
  else poisonOnError (initiatorBody local responderPublic prologue generation) d.

Definition responderBody (local : DHKey) (initiatorPublic : list byte) (prologue : option (list byte))
    (generation : Z) : D unit :=
  run! s := session_ in
  let prior := channelBinding s in
  run! hs := lift (NewRekeyResponder local initiatorPublic prologue (handle s) prior generation) in
  run! request := receiveHandshakeControl RekeyHandshakeRequest generation prior in
  let '(hs1, r1) := ReadRequest request hs in
  run! _ := lift r1 in
  run! now := readNow in
  let '(_, r2) := WriteResponse [] now hs1 in
  run! (response, next) := lift r2 in
  sendHandshakeControl RekeyHandshakeResponse generation prior response ;!
  run! s2 := session_ in
  run! t0 := lift (NewRekeyTransition s2 next generation) in
  run! (_, t1) := receiveMarker t0 prior generation RekeyInitiatorToResponder RekeyCommit in
  run! (_, t2) :=
    sendMarkerComplete t1 (mkMarker generation RekeyInitiatorToResponder RekeyAcknowledgement prior) in
  run! (_, t3) := sendMarkerComplete t2 (mkMarker generation RekeyResponderToInitiator RekeyCommit prior) in
  run! (complete, _) := receiveMarker t3 prior generation RekeyResponderToInitiator RekeyAcknowledgement in
  if negb complete then fail ErrRekeyMarker else ret tt.

Definition RunResponderRekey (local : DHKey) (initiatorPublic : list byte) (prologue : option (list byte))
    (generation : Z) : D unit := fun d =>
  if initiator (current d) || (generation =? 0) then (d, Err ErrRekeyMarker)
  else poisonOnError (responderBody local initiatorPublic prologue generation) d.

End driver.
