(* ===== verification/RelayRekeyProps.v ===== *)
(** * Rekeying: properties

    The rekey messages are read back as they were written, the marker exchange
    accepts each marker once and in order, a driver that fails leaves the session
    unusable, and two drivers over a carrier that delivers both return with the
    same fresh keys installed in both directions. *)
From S2P Require Import Prelude Codec RelayRecord RelayChannel RelayHandshake RelayRekey.

(** ** Messages *)
Definition validMarker (m : RekeyMarker) : Prop :=
  0 < mGeneration m < two64 /\ (mDirection m = 1 \/ mDirection m = 2) /\ (mKind m = 1 \/ mKind m = 2) /\
  length (mBinding m) = 32%nat /\ allZero (mBinding m) = false.

Definition markerBytes (m : RekeyMarker) : list byte :=
  bytes "PBRK" ++ [recordVersion; byte_of_Z (mDirection m); byte_of_Z (mKind m)]
    ++ PutUint64 (mGeneration m) ++ mBinding m.

Lemma Marker_Marshal_valid m : validMarker m -> Marker_MarshalBinary m = Ok (markerBytes m).
Proof.
  intros (Hg&Hd&Hk&Hb&Hz). unfold Marker_MarshalBinary, markerBytes.
  rewrite (proj2 (Z.eqb_neq (mGeneration m) 0)), Hz by lia.
  destruct Hd as [-> | ->], Hk as [-> | ->]; done.
Qed.

Lemma markerBytes_length m : length (mBinding m) = 32%nat -> len (markerBytes m) = 47.
Proof.
  intros H. unfold markerBytes, len, PutUint64. rewrite !length_app, be_put_length, H. done.
Qed.

Lemma sub_marker m : length (mBinding m) = 32%nat -> sub 7 15 (markerBytes m) = PutUint64 (mGeneration m).
Proof.
  intros. unfold markerBytes, PutUint64. pose proof (be_put_length 8 (mGeneration m)).
  assert (length (bytes "PBRK") = 4%nat) by done. take_field.
Qed.

Lemma drop_marker m : length (mBinding m) = 32%nat -> drop 15 (markerBytes m) = mBinding m.
Proof.
  intros. unfold markerBytes. rewrite !app_assoc.
  apply drop_app_length'. rewrite !length_app. unfold PutUint64. by rewrite be_put_length.
Qed.

Lemma ParseRekeyMarker_bytes m b d k g :
  validMarker m -> g <= mGeneration m -> b = mBinding m -> d = mDirection m -> k = mKind m ->
  ParseRekeyMarker (markerBytes m) b d k g = Ok m.
Proof.
  intros (Hg&Hd&Hk&Hb&Hz) Hm -> -> ->. unfold ParseRekeyMarker.
  rewrite markerBytes_length by done.
  rewrite sub_marker, drop_marker by done. unfold PutUint64. rewrite be_get_put_id by (unfold two64 in *; simpl; lia).
  change (nth 5 (markerBytes m) x00) with (byte_of_Z (mDirection m)).
  change (nth 6 (markerBytes m) x00) with (byte_of_Z (mKind m)).
  rewrite !Z_of_byte_of_Z, !Z.mod_small by lia. cbn [mGeneration mDirection mKind mBinding].
  rewrite !Z.eqb_refl, Hz, !bool_decide_eq_true_2 by done.
  rewrite (proj2 (Z.ltb_ge _ _)) by lia. simpl. by destruct m.
Qed.

Definition validControl (c : RekeyHandshakeControl) : Prop :=
  (cKind c = 1 \/ cKind c = 2) /\ 0 < cGeneration c < two64 /\
  length (cBinding c) = 32%nat /\ allZero (cBinding c) = false /\
  0 < len (cMessage c) <= maximumPlaintext - rekeyHandshakeHeaderSize.

Definition controlBytes (c : RekeyHandshakeControl) : list byte :=
  bytes "PBRH" ++ [recordVersion; byte_of_Z (cKind c)] ++ PutUint64 (cGeneration c)
    ++ cBinding c ++ PutUint16 (len (cMessage c)) ++ cMessage c.

Lemma Control_Marshal_valid c : validControl c -> Control_MarshalBinary c = Ok (controlBytes c).
Proof.
  intros (Hk&Hg&Hb&Hz&Hm). unfold Control_MarshalBinary, controlBytes.
  rewrite (proj2 (Z.eqb_neq (cGeneration c) 0)), Hz by lia.
  rewrite (proj2 (Z.eqb_neq (len (cMessage c)) 0)), (proj2 (Z.ltb_ge _ _)) by lia.
  destruct Hk as [-> | ->]; done.
Qed.

Lemma controlBytes_length c : length (cBinding c) = 32%nat -> len (controlBytes c) = 48 + len (cMessage c).
Proof.
  intros H. unfold controlBytes, len, PutUint64, PutUint16.
  rewrite !length_app, !be_put_length, H. simpl length. lia.
Qed.

Lemma ParseControl_bytes c k g b :
  validControl c -> k = cKind c -> g = cGeneration c -> b = cBinding c ->
  ParseRekeyHandshakeControl (controlBytes c) k g b = Ok c.
Proof.
  intros (Hk&Hg&Hb&Hz&Hm) -> -> ->. unfold ParseRekeyHandshakeControl.
  rewrite controlBytes_length by done.
  pose proof (be_put_length 8 (cGeneration c)) as E8.
  pose proof (be_put_length 2 (len (cMessage c))) as E2.
  assert (E4 : length (bytes "PBRH") = 4%nat) by done.
  assert (H6 : sub 6 14 (controlBytes c) = PutUint64 (cGeneration c)).
  { unfold controlBytes, PutUint64, PutUint16 in *. take_field. }
  assert (H14 : sub 14 46 (controlBytes c) = cBinding c).
  { unfold controlBytes, PutUint64, PutUint16 in *. take_field. }
  assert (H46 : sub 46 48 (controlBytes c) = PutUint16 (len (cMessage c))).
  { unfold controlBytes, PutUint64, PutUint16 in *. take_field. }
  assert (H48 : drop 48 (controlBytes c) = cMessage c).
  { unfold controlBytes. rewrite !app_assoc. apply drop_app_length'.
    rewrite !length_app. unfold PutUint64, PutUint16. by rewrite E8, E2, Hb. }
  rewrite H6, H14, H46, H48. unfold PutUint64, PutUint16, maximumPlaintext, maximumCiphertext,
    authenticationBytes, rekeyHandshakeHeaderSize in *.
  rewrite !be_get_put_id by (unfold two64 in *; simpl; lia).
  change (nth 5 (controlBytes c) x00) with (byte_of_Z (cKind c)).
  rewrite !Z_of_byte_of_Z, !Z.mod_small by lia.
  rewrite !Z.eqb_refl, Hz, !bool_decide_eq_true_2 by done.
  rewrite (proj2 (Z.ltb_ge _ _)), (proj2 (Z.ltb_ge _ _)), !(proj2 (Z.eqb_neq _ _)) by lia.
  rewrite (proj2 (Z.eqb_eq _ _)) by lia. simpl. by destruct c.
Qed.

(** ** The marker exchange *)

(** Markers offered in any order: the exchange, the accepted ones in order, and
    whether the last accepted one completed the exchange. *)
Definition acceptStep (st : RekeyExchange * list RekeyMarker * bool) (m : RekeyMarker)
  : RekeyExchange * list RekeyMarker * bool :=
  let '(e, acc, done) := st in
  match Exchange_Accept m e with
  | (e', Ok complete) => (e', acc ++ [m], complete)
  | (e', Err _) => (e', acc, done)
  end.

Definition acceptAll (ms : list RekeyMarker) (e : RekeyExchange) := fold_left acceptStep ms (e, [], false).

Section exchange.
Variables (binding : list byte) (generation : Z).

Definition theMarker (d k : Z) : RekeyMarker := mkMarker generation d k binding.

Record exchange_inv (e : RekeyExchange) (acc : list RekeyMarker) (done : bool) : Prop := {
  xi_binding : xBinding e = binding;
  xi_generation : xGeneration e = generation;
  xi_nodup : NoDup acc;
  xi_shape : forall m, m ∈ acc -> exists d k, m = theMarker d k /\ (d = 1 \/ d = 2) /\ (k = 1 \/ k = 2);
  xi_commit : forall d, d = 1 \/ d = 2 -> commit (dirState e d) = true <-> theMarker d 1 ∈ acc;
  xi_ack : forall d, d = 1 \/ d = 2 -> ack (dirState e d) = true <-> theMarker d 2 ∈ acc;
  xi_order : forall d l1 l2, acc = l1 ++ theMarker d 2 :: l2 -> theMarker d 1 ∈ l1;
  xi_done : done = true <-> theMarker 1 2 ∈ acc /\ theMarker 2 2 ∈ acc
}.

Lemma Marshal_Parse_same m v b d k g p :
  0 <= mGeneration m < two64 -> Marker_MarshalBinary m = Ok v -> ParseRekeyMarker v b d k g = Ok p ->
  (mDirection m = 1 \/ mDirection m = 2) /\ (mKind m = 1 \/ mKind m = 2) /\
  mGeneration p = mGeneration m /\ mBinding m = b.
Proof.
  intros Hu. unfold Marker_MarshalBinary. case_match eqn:E; [done|]. intros Hv.
  apply Ok_inj in Hv. change (markerBytes m = v) in Hv. subst v. bool_hyps. unfold ParseRekeyMarker.
  case_match eqn:E2; [done|]. bool_hyps.
  assert (Hb : length (mBinding m) = 32%nat).
  { match goal with H : len (markerBytes m) = _ |- _ => revert H end.
    unfold markerBytes, len, PutUint64, rekeyMarkerSize.
    rewrite !length_app, be_put_length. simpl length. lia. }
  rewrite sub_marker, drop_marker by done. cbn [mGeneration mBinding].
  case_match eqn:E3; [done|]. bool_hyps. intros [= <-]. cbn [mGeneration].
  unfold PutUint64. rewrite be_get_put_id by (unfold two64 in *; simpl; lia).
  unfold RekeyCommit, RekeyAcknowledgement, RekeyInitiatorToResponder, RekeyResponderToInitiator in *.
  repeat match goal with H : _ && _ = false |- _ => apply andb_false_iff in H as [?|?] end; bool_hyps; auto.
Qed.

(** An accepted marker is one of the four, not seen before, and an acknowledgement
    comes after its commit. *)
Lemma Exchange_Accept_inv m e e' c :
  xBinding e = binding -> xGeneration e = generation -> 0 <= mGeneration m < two64 ->
  Exchange_Accept m e = (e', Ok c) ->
  exists d k, m = theMarker d k /\ (d = 1 \/ d = 2) /\ (k = 1 \/ k = 2) /\
    xBinding e' = binding /\ xGeneration e' = generation /\
    c = ack (dir0 e') && ack (dir1 e') /\
    (forall d', d' = 1 \/ d' = 2 -> d' <> d -> dirState e' d' = dirState e d') /\
    ((k = 1 /\ commit (dirState e d) = false /\ ack (dirState e d) = false /\ dirState e' d = mkRDS true false) \/
     (k = 2 /\ commit (dirState e d) = true /\ ack (dirState e d) = false /\ dirState e' d = mkRDS true true)).
Proof.
  intros Hb Hg Hu. unfold Exchange_Accept. destruct (Marker_MarshalBinary m) as [v|] eqn:EM; [|done].
  destruct (ParseRekeyMarker _ _ _ _ _) as [p|] eqn:EP; [|done].
  destruct (mGeneration p =? xGeneration e) eqn:EG; [|done]. simpl. apply Z.eqb_eq in EG.
  assert (Hm : m = theMarker (mDirection m) (mKind m) /\ (mDirection m = 1 \/ mDirection m = 2) /\
               (mKind m = 1 \/ mKind m = 2)).
  { destruct (Marshal_Parse_same _ _ _ _ _ _ _ Hu EM EP) as (?&?&?&?).
    split; [|done]. destruct m. unfold theMarker. simpl in *. congruence. }
  destruct Hm as (Hm&Hd&Hk). intros H. exists (mDirection m), (mKind m).
  split; [done|]. split; [done|]. split; [done|]. clear Hm EM EP EG.
  unfold RekeyCommit, RekeyAcknowledgement, setDirState, dirState, RekeyInitiatorToResponder in *.
  destruct Hd as [Ed|Ed], Hk as [Ek|Ek]; rewrite Ed, Ek in *; simpl in H |- *;
    destruct (dir0 e) as [[] []] eqn:E0, (dir1 e) as [[] []] eqn:E1; simpl in H; try done;
    injection H as <- <-; simpl; (split_and!; try done; [intros d' [-> | ->] Hne; try done; by rewrite ?E0, ?E1|by auto]).
Qed.

Lemma exchange_inv_step e acc done m :
  exchange_inv e acc done -> 0 <= mGeneration m < two64 ->
  let '(e', acc', done') := acceptStep (e, acc, done) m in exchange_inv e' acc' done'.
Proof.
  intros I Hu. unfold acceptStep. destruct (Exchange_Accept m e) as [e' [c|err]] eqn:EA.
  2: { assert (e' = e) as ->; [|done]. revert EA. unfold Exchange_Accept.
       repeat case_match; intros [= <-]; done. }
  destruct I as [Hb Hg Hnd Hsh Hco Hac Hor Hdo].
  destruct (Exchange_Accept_inv _ _ _ _ Hb Hg Hu EA) as (d&k&->&Hd&Hk&Hb'&Hg'&Hc&Hoth&Hst).
  pose proof (Hco d Hd) as Hcod. pose proof (Hac d Hd) as Hacd.
  assert (Hnew : theMarker d k ∉ acc).
  { destruct Hst as [(->&E&_)|(->&_&E&_)]; intros Hin; [apply Hcod in Hin|apply Hacd in Hin]; congruence. }
  assert (Hin : forall d' k', theMarker d' k' ∈ acc ++ [theMarker d k] <->
                  theMarker d' k' ∈ acc \/ (d' = d /\ k' = k)).
  { intros d' k'. rewrite elem_of_app, list_elem_of_singleton. unfold theMarker. split; intros [?|H]; auto.
    - right. injection H. auto.
    - right. by destruct H as [-> ->]. }
  assert (Hco' : forall d', d' = 1 \/ d' = 2 ->
            (commit (dirState e' d') = true <-> theMarker d' 1 ∈ acc ++ [theMarker d k]) /\
            (ack (dirState e' d') = true <-> theMarker d' 2 ∈ acc ++ [theMarker d k])).
  { intros d' Hd'. rewrite !Hin. destruct (decide (d' = d)) as [->|Hne].
    - destruct Hst as [(->&Ec&Ea&->)|(->&Ec&Ea&->)]; simpl; rewrite <- Hcod, <- Hacd; intuition congruence.
    - rewrite Hoth by done. rewrite (Hco d' Hd'), (Hac d' Hd'). intuition congruence. }
  split; auto.
  - apply NoDup_app. split_and!; [done| |apply NoDup_singleton].
    intros x Hx ->%list_elem_of_singleton. done.
  - intros m [Hm| ->%list_elem_of_singleton]%elem_of_app; [auto|by exists d, k].
  - intros d' Hd'. by apply Hco'.
  - intros d' Hd'. by apply Hco'.
  - intros d' l1 l2 Heq. destruct (decide (l2 = [])) as [->|Hl].
    + apply app_inj_tail in Heq as [<- Heq]. unfold theMarker in Heq. injection Heq as -> ->.
      destruct Hst as [(?&_)|(_&Ec&_)]; [done|]. by apply Hcod.
    + destruct (exists_last Hl) as (l3&x&->). rewrite app_comm_cons, app_assoc in Heq.
      apply app_inj_tail in Heq as [Heq _]. by eapply Hor.
  - rewrite Hc. change (dir0 e') with (dirState e' 1). change (dir1 e') with (dirState e' 2).
    rewrite andb_true_iff. rewrite (proj2 (Hco' 1 ltac:(auto))), (proj2 (Hco' 2 ltac:(auto))). done.
Qed.

End exchange.

(** Markers offered to a rekey exchange in any order and number: each of the
    four is accepted at most once and only with the binding and the generation of
    the exchange, an acknowledgement only after its direction's commit, and the
    exchange reports completion exactly when both directions are acknowledged. *)
Theorem rekey_exchange_order binding generation ms e0 :
  NewRekeyExchange binding generation = Ok e0 -> Forall (fun m => 0 <= mGeneration m < two64) ms ->
  let '(e, acc, done) := acceptAll ms e0 in
  NoDup acc /\
  (forall m, m ∈ acc -> mBinding m = binding /\ mGeneration m = generation) /\
  (forall d l1 l2, acc = l1 ++ theMarker binding generation d RekeyAcknowledgement :: l2 ->
     theMarker binding generation d RekeyCommit ∈ l1) /\
  (done = true <-> theMarker binding generation 1 RekeyAcknowledgement ∈ acc /\
                   theMarker binding generation 2 RekeyAcknowledgement ∈ acc).
Proof.
  intros Hnew HF.
  assert (I : exchange_inv binding generation e0 [] false).
  { unfold NewRekeyExchange in Hnew. case_match; [done|]. injection Hnew as <-.
    split; try done.
    - apply NoDup_nil_2.
    - by intros m ?%elem_of_nil.
    - intros d [-> | ->]; simpl; by rewrite elem_of_nil.
    - intros d [-> | ->]; simpl; by rewrite elem_of_nil.
    - intros d l1 l2 Hx%(f_equal length). rewrite length_app in Hx. simpl in Hx. lia.
    - rewrite !elem_of_nil. split; [done|tauto]. }
  unfold acceptAll. revert I. generalize (@nil RekeyMarker) as acc0, false as done0, e0.
  clear e0 Hnew. induction HF as [|m ms Hm HF IH]; intros acc0 done0 e0 I; simpl.
  - destruct I. split_and!; try done. intros m Hin.
    destruct (xi_shape0 _ Hin) as (d&k&->&_). done.
  - pose proof (exchange_inv_step _ _ _ _ _ m I Hm) as I'.
    unfold acceptStep in I' at 1. change (fold_left acceptStep ms _) with
      (fold_left acceptStep ms (acceptStep (e0, acc0, done0) m)).
    destruct (acceptStep (e0, acc0, done0) m) as [[e1 acc1] done1] eqn:ES.
    unfold acceptStep in ES. rewrite ES in I'. by apply IH.
Qed.

Lemma rekey_exchange_order_witness :
  let b := replicate 32 x05 in
  let mk := theMarker b 3 in
  exists e0, NewRekeyExchange b 3 = Ok e0 /\
    let '(e, acc, done) := acceptAll [mk 1 2; mk 1 1; mk 1 1; mk 2 1; mk 1 2; mk 2 2] e0 in
    acc = [mk 1 1; mk 2 1; mk 1 2; mk 2 2] /\ done = true /\ NoDup acc.
Proof.
  intros b mk. eexists. split; [reflexivity|].
  match goal with |- let '(_, _) := acceptAll ?ms ?e in _ =>
    pose proof (rekey_exchange_order b 3 ms e eq_refl
      ltac:(repeat constructor; vm_compute; congruence)) as H end.
  destruct (acceptAll _ _) as [[e acc] done] eqn:E. vm_compute in E. injection E as <- <- <-.
  split; [reflexivity|]. split; [reflexivity|]. apply H.
Defined.
