(* ===== verification/RelayRekeyRun.v ===== *)
(** * Rekeying: the two drivers together

    Each driver against a queue of received records; a pair of record sequences
    that the two drivers produce from each other is a run of the protocol over a
    carrier that delivers. *)
From S2P Require Import Prelude Codec RelayRecord RelayChannel RelayHandshake RelayRekey RelayRekeyProps.

(** A carrier as a queue of records received and a list of records sent. *)
Record queue := mkQueue { inbox : list (list byte); outbox : list (list byte); clock : Z }.

#[export] Instance queueCarrier : RekeyCarrier queue := {
  CtxErr _ := false;
  Now := clock;
  SendRekeyRecord r w := (mkQueue (inbox w) (outbox w ++ [r]) (clock w), None);
  ReceiveRekeyRecord w :=
    match inbox w with
    | [] => (w, Err (ErrRead EOF))
    | r :: rest => (mkQueue rest (outbox w) (clock w), Ok r)
    end
}.

Section failure.
Context `{N : NoiseHandshake} `{K : RekeyCarrier W}.

(** A session no operation can use. *)
Definition unusable (s : Session) : Prop :=
  forall now, (forall p cl, snd (Seal p cl now s) = Err ErrProtocol) /\
              (forall r, snd (Open r now s) = Err ErrProtocol).

Lemma poisoned_unusable s : poisoned s = true -> unusable s.
Proof. intros Hp now. unfold Seal, Open. rewrite Hp. done. Qed.

Lemma poisonOnError_Err {A} (m : D (W := W) A) (d d' : dstate (W := W)) e :
  poisonOnError m d = (d', Err e) -> poisoned (current d') = true.
Proof. unfold poisonOnError. destruct (m d) as [d1 [a|e1]]; [done|]. by intros [= <- <-]. Qed.

(** A rekey that fails at any point, for any reason and over any carrier,
    leaves the session unusable: no record is sealed or opened with a half
    replaced set of keys. *)
Theorem rekey_failure_poisons local public prologue generation d d' e :
  generation <> 0 ->
  (initiator (current d) = true /\ RunInitiatorRekey local public prologue generation d = (d', Err e)) \/
  (initiator (current d) = false /\ RunResponderRekey local public prologue generation d = (d', Err e)) ->
  unusable (current d').
Proof.
  intros Hg H. apply poisoned_unusable.
  apply Z.eqb_neq in Hg.
  destruct H as [[Hi H]|[Hi H]]; revert H; [unfold RunInitiatorRekey|unfold RunResponderRekey];
    rewrite Hi, Hg; apply poisonOnError_Err.
Qed.

End failure.

Section run.
Context `{C : CipherState} `{L : !CipherLaws C} `{N : !NoiseHandshake}.

(** The fields of a session in a run; the rekey event is free. *)
Definition sst (s : Session) (init : bool) (hdl bind : list byte) (ds dr : direction) : Prop :=
  initiator s = init /\ handle s = hdl /\ channelBinding s = bind /\ send s = ds /\ receive s = dr /\
  poisoned s = false /\ rekeyPolicy s = DevelopmentRekeyPolicy.

Lemma sst_update s s' init hdl bind ds dr ds' dr' :
  sst s init hdl bind ds dr -> same_identity s s' -> send s' = ds' -> receive s' = dr' ->
  poisoned s' = false -> sst s' init hdl bind ds' dr'.
Proof. intros (?&?&?&?&?&?&?) (?&?&?&?) ? ? ?. repeat split; congruence. Qed.

(** A direction within its limits with room for [n] more bytes. *)
Definition room (st q t now n : Z) : Prop :=
  0 <= q < maxUint64 /\ 0 <= t < hardRekeyBytes /\ t + n <= hardRekeyBytes /\ st <> 0 /\ in_age st now.

Abbreviation dirOf k q t st := (mkDirection (Some k) q false t st).

(** One control record from [S] to [R]: [S] seals [p], [R] opens it, and the
    direction's states stay in step. *)
Lemma control_message p S R init hdl bS bR k r q t stS stR drS dsR clkS clkR :
  sst S init hdl bS (dirOf k q t stS) drS -> sst R (negb init) hdl bR dsR (dirOf r q t stR) ->
  paired k r -> nonce k = q -> isHandle hdl ->
  room stS q t clkS (len p) -> room stR q t clkR (len p) -> len p <= maximumPlaintext ->
  exists k' r' rec S' R',
    (forall ib ob, sendControlRecord p (mkD S (mkQueue ib ob clkS)) =
       (mkD S' (mkQueue ib (ob ++ [rec]) clkS), Ok tt)) /\
    (forall ib ob, receiveControlRecord (mkD R (mkQueue (rec :: ib) ob clkR)) =
       (mkD R' (mkQueue ib ob clkR), Ok p)) /\
    paired k' r' /\ nonce k' = q + 1 /\
    sst S' init hdl bS (dirOf k' (q + 1) (t + len p) stS) drS /\
    sst R' (negb init) hdl bR dsR (dirOf r' (q + 1) (t + len p) stR).
Proof.
  intros HS HR Hpair Hn Hhd (Hq&Ht&Hsum&Hst&Hage) (_&_&_&HstR&HageR) Hlen.
  pose proof HS as (Hi&Hh&_&Hs&_&Hp&Hpol). pose proof HR as (Hi'&Hh'&_&_&Hr'&Hp'&Hpol').
  destruct (seal_ready p false true clkS S k q t stS) as (k'&rec&S'&HSe&Hsb&Hid&Hpo&Hrc&Hn'&Hsd);
    auto; [by rewrite Hh|done|done|].
  rewrite Hi, Hh in Hsb.
  destruct (Open_forwarded R init hdl k k' r q t stR (mkEntry p false rec) clkR)
    as (R'&r'&HO&HP&HidR&HpoR&HrcR); auto; [done|].
  destruct (Open_outcome _ _ _ _ _ HO) as (_&HsR&_). simpl in *.
  exists k', r', rec, S', R'. split_and!; try done.
  - intros ib ob. unfold sendControlRecord. simpl CtxErr. cbv iota. unfold sealAndSend. simpl current.
    rewrite Hp, (proj2 (Z.ltb_ge _ _)) by lia.
    change (Now (carrier (mkD S (mkQueue ib ob clkS)))) with clkS. by rewrite HSe.
  - intros ib ob. unfold receiveControlRecord. simpl. by rewrite HO.
  - destruct HS as (?&?&?&?&Hdr&?). eapply sst_update; [by split_and!|done|done|congruence|congruence].
  - eapply sst_update; eauto. rewrite HsR. by destruct HR as (_&_&_&?&_).
Qed.

(** A handshake control and a marker as one message. *)
Lemma handshake_message kind gen msg S R init hdl b bR k r q t stS stR drS dsR clkS clkR :
  let c := mkControl kind gen b msg in
  validControl c ->
  sst S init hdl b (dirOf k q t stS) drS -> sst R (negb init) hdl bR dsR (dirOf r q t stR) ->
  paired k r -> nonce k = q -> isHandle hdl ->
  room stS q t clkS (48 + len msg) -> room stR q t clkR (48 + len msg) ->
  exists k' r' rec S' R',
    (forall ib ob, sendHandshakeControl kind gen b msg (mkD S (mkQueue ib ob clkS)) =
       (mkD S' (mkQueue ib (ob ++ [rec]) clkS), Ok tt)) /\
    (forall ib ob, receiveHandshakeControl kind gen b (mkD R (mkQueue (rec :: ib) ob clkR)) =
       (mkD R' (mkQueue ib ob clkR), Ok msg)) /\
    paired k' r' /\ nonce k' = q + 1 /\
    sst S' init hdl b (dirOf k' (q + 1) (t + (48 + len msg)) stS) drS /\
    sst R' (negb init) hdl bR dsR (dirOf r' (q + 1) (t + (48 + len msg)) stR).
Proof.
  intros c Hc HS HR Hpair Hn Hhd HroomS HroomR.
  pose proof (controlBytes_length c ltac:(apply Hc)) as Hlen. simpl in Hlen.
  destruct (control_message (controlBytes c) S R init hdl b bR k r q t stS stR drS dsR clkS clkR)
    as (k'&r'&rec&S'&R'&E1&E2&P1&P2&S1&S2); auto; rewrite ?Hlen; auto.
  { destruct Hc as (_&_&_&_&Hm). simpl in Hm.
    unfold rekeyHandshakeHeaderSize, maximumPlaintext, maximumCiphertext, authenticationBytes in *. lia. }
  rewrite Hlen in *. exists k', r', rec, S', R'. split_and!; try done.
  - intros ib ob. unfold sendHandshakeControl, bind, lift. fold c. by rewrite (Control_Marshal_valid c Hc).
  - intros ib ob. unfold receiveHandshakeControl, bind, lift. rewrite E2.
    by rewrite (ParseControl_bytes c) by done.
Qed.

(** ** Markers *)
Variables (prior hdl : list byte) (gen : Z).
Hypothesis Hprior : length prior = 32%nat /\ allZero prior = false.
Hypothesis Hgen : 0 < gen < two64.
Hypothesis Hhdl : isHandle hdl.

Lemma theMarker_valid d k : (d = 1 \/ d = 2) -> (k = 1 \/ k = 2) -> validMarker (theMarker prior gen d k).
Proof. intros Hd Hk. destruct Hprior. unfold validMarker, theMarker. simpl. tauto. Qed.

(** The exchange on a marker of its own binding and generation. *)
Lemma Exchange_Accept_own d k d0 d1 :
  (d = 1 \/ d = 2) -> (k = 1 \/ k = 2) ->
  Exchange_Accept (theMarker prior gen d k) (mkExchange prior gen d0 d1) =
  let e := mkExchange prior gen d0 d1 in
  let st := dirState e d in
  let finish st' := let e' := setDirState e d st' in (e', Ok (ack (dir0 e') && ack (dir1 e'))) in
  if k =? 1 then if commit st || ack st then (e, Err ErrRekeyMarker) else finish (mkRDS true (ack st))
  else if negb (commit st) || ack st then (e, Err ErrRekeyMarker) else finish (mkRDS (commit st) true).
Proof.
  intros Hd Hk. pose proof (theMarker_valid d k Hd Hk) as Hv. unfold Exchange_Accept.
  rewrite (Marker_Marshal_valid _ Hv), (ParseRekeyMarker_bytes (theMarker prior gen d k)) by (done || simpl; lia).
  simpl. rewrite Z.eqb_refl. simpl. unfold RekeyCommit, RekeyAcknowledgement.
  destruct Hk as [-> | ->]; reflexivity.
Qed.

Definition fresh_rds := mkRDS false false.
Definition committed := mkRDS true false.
Definition acked := mkRDS true true.
Definition transition (nxt : option Session) d0 d1 s0 s1 : RekeyTransition :=
  mkTransition nxt (mkExchange prior gen d0 d1) s0 s1.

Lemma accept_commit_i2r s w nxt :
  acceptMarker (theMarker prior gen 1 1) (transition (Some nxt) fresh_rds fresh_rds false false) (mkD s w) =
  (mkD s w, Ok (false, transition (Some nxt) committed fresh_rds false false)).
Proof. unfold acceptMarker, Transition_Accept. simpl. rewrite Exchange_Accept_own by auto. reflexivity. Qed.

Lemma accept_ack_i2r s s' w nxt nxt' :
  installRekeyDirection s nxt 1 (clock w) = Ok (s', nxt') ->
  acceptMarker (theMarker prior gen 1 2) (transition (Some nxt) committed fresh_rds false false) (mkD s w) =
  (mkD s' w, Ok (false, transition (Some nxt') acked fresh_rds true false)).
Proof.
  intros H. unfold acceptMarker, Transition_Accept. simpl. rewrite Exchange_Accept_own by auto.
  cbn -[installRekeyDirection]. unfold switchDirection. cbn -[installRekeyDirection].
  by rewrite H.
Qed.

Lemma accept_commit_r2i s w nxt :
  acceptMarker (theMarker prior gen 2 1) (transition (Some nxt) acked fresh_rds true false) (mkD s w) =
  (mkD s w, Ok (false, transition (Some nxt) acked committed true false)).
Proof. unfold acceptMarker, Transition_Accept. simpl. rewrite Exchange_Accept_own by auto. reflexivity. Qed.

Lemma accept_ack_r2i s s' w nxt nxt' :
  installRekeyDirection s nxt 2 (clock w) = Ok (s', nxt') ->
  acceptMarker (theMarker prior gen 2 2) (transition (Some nxt) acked committed true false) (mkD s w) =
  (mkD (setChannelBinding (channelBinding nxt') s') w, Ok (true, transition None acked acked true true)).
Proof.
  intros H. unfold acceptMarker, Transition_Accept. simpl. rewrite Exchange_Accept_own by auto.
  cbn -[installRekeyDirection]. unfold switchDirection. cbn -[installRekeyDirection].
  by rewrite H.
Qed.

(** A marker as one message: both ends then hand it to their transition. *)
Lemma marker_message d kd S R init b bR k r q t stS stR drS dsR clkS clkR :
  (d = 1 \/ d = 2) -> (kd = 1 \/ kd = 2) ->
  sst S init hdl b (dirOf k q t stS) drS -> sst R (negb init) hdl bR dsR (dirOf r q t stR) ->
  paired k r -> nonce k = q -> room stS q t clkS 47 -> room stR q t clkR 47 ->
  exists k' r' rec S' R',
    (forall tr ib ob, sendMarkerComplete tr (theMarker prior gen d kd) (mkD S (mkQueue ib ob clkS)) =
       acceptMarker (theMarker prior gen d kd) tr (mkD S' (mkQueue ib (ob ++ [rec]) clkS))) /\
    (forall tr ib ob, receiveMarker tr prior gen d kd (mkD R (mkQueue (rec :: ib) ob clkR)) =
       acceptMarker (theMarker prior gen d kd) tr (mkD R' (mkQueue ib ob clkR))) /\
    paired k' r' /\ nonce k' = q + 1 /\
    sst S' init hdl b (dirOf k' (q + 1) (t + 47) stS) drS /\
    sst R' (negb init) hdl bR dsR (dirOf r' (q + 1) (t + 47) stR).
Proof.
  intros Hd Hk HS HR Hpair Hn HroomS HroomR. pose proof (theMarker_valid d kd Hd Hk) as Hv.
  pose proof (markerBytes_length _ (proj1 (proj2 (proj2 (proj2 Hv))))) as Hlen.
  destruct (control_message (markerBytes (theMarker prior gen d kd)) S R init hdl b bR k r q t stS stR drS dsR clkS clkR)
    as (k'&r'&rec&S'&R'&E1&E2&P1&P2&S1&S2); auto; rewrite ?Hlen; auto; [done|].
  rewrite Hlen in *. exists k', r', rec, S', R'. split_and!; try done.
  - intros tr ib ob. unfold sendMarkerComplete, bind, lift. rewrite (Marker_Marshal_valid _ Hv). by rewrite E1.
  - intros tr ib ob. unfold receiveMarker, bind, lift. rewrite E2.
    by rewrite (ParseRekeyMarker_bytes (theMarker prior gen d kd)) by (done || simpl; lia).
Qed.

(** ** Installing a direction *)
Lemma takeOver_live k q t st c tn now :
  takeOver (dirOf k q t st) (newDirection c tn) now =
  Some (newDirection c now, (newDirection c tn) <| dcipher := None |>).
Proof. reflexivity. Qed.

Lemma install_send s init b k q t st dr nxt c tn d now :
  sst s init hdl b (dirOf k q t st) dr -> send nxt = newDirection c tn ->
  d = (if init then 1 else 2) ->
  exists s' nxt', installRekeyDirection s nxt d now = Ok (s', nxt') /\
    sst s' init hdl b (newDirection c now) dr /\
    receive nxt' = receive nxt /\ channelBinding nxt' = channelBinding nxt.
Proof.
  intros (Hi&Hh&Hb&Hs&Hr&Hp&Hpol) Hn ->. eexists _, _. split.
  - unfold installRekeyDirection. rewrite Hi, Hs, Hn, takeOver_live. destruct init; reflexivity.
  - by split_and!.
Qed.

Lemma install_receive s init b k q t st ds nxt c tn d now :
  sst s init hdl b ds (dirOf k q t st) -> receive nxt = newDirection c tn ->
  d = (if init then 2 else 1) ->
  exists s' nxt', installRekeyDirection s nxt d now = Ok (s', nxt') /\
    sst s' init hdl b ds (newDirection c now) /\
    send nxt' = send nxt /\ channelBinding nxt' = channelBinding nxt.
Proof.
  intros (Hi&Hh&Hb&Hs&Hr&Hp&Hpol) Hn ->. eexists _, _. split.
  - unfold installRekeyDirection. rewrite Hi, Hr, Hn, takeOver_live. destruct init; reflexivity.
  - by split_and!.
Qed.

Lemma sst_binding s init b b' ds dr :
  sst s init hdl b ds dr -> sst (setChannelBinding b' s) init hdl b' ds dr.
Proof. by intros (?&?&?&?&?&?&?). Qed.

(** ** A handshake that completes *)
Variables (li lr : DHKey) (prologue : list byte).
Definition rekeyPrologue : list byte := prologue ++ bytes "PBRP" ++ PutUint64 gen ++ prior.

(** The IK exchange between the two static keys under the rekey prologue: the
    messages [m1] and [m2], the ciphers of both ends and their common binding. *)
Record completes (m1 m2 : list byte) (i1 i2 r1 r2 : cipher) (nb : list byte) : Prop := {
  cp_keys : validateKeypair li = true /\ validateKeypair lr = true;
  cp_states : exists hi hr hi1 hr1 hi2 hr2 p1 p2,
    NewHandshakeState true rekeyPrologue li (Some (Public lr)) = Some hi /\
    NewHandshakeState false rekeyPrologue lr None = Some hr /\
    WriteMessage hi [] = Some (hi1, m1, None) /\
    ReadMessage hr m1 = Some (hr1, p1, None) /\ PeerStatic hr1 = Public li /\
    WriteMessage hr1 [] = Some (hr2, m2, Some (r1, r2)) /\
    ReadMessage hi1 m2 = Some (hi2, p2, Some (i1, i2)) /\
    HandshakeBinding hi2 = nb /\ HandshakeBinding hr2 = nb;
  cp_paired : paired i1 r1 /\ paired r2 i2 /\ nonce i1 = 0 /\ nonce r2 = 0;
  cp_binding : length nb = 32%nat /\ allZero nb = false /\ prior <> nb;
  cp_sizes : 0 < len m1 <= maximumPlaintext - rekeyHandshakeHeaderSize /\
             0 < len m2 <= maximumPlaintext - rekeyHandshakeHeaderSize
}.

Lemma validateKeypair_public key : validateKeypair key = true -> allZero (Public key) = false.
Proof. unfold validateKeypair. case_match eqn:E; [done|]. by bool_hyps. Qed.

Lemma newSession_binding init h a b nb now :
  length nb = 32%nat -> channelBinding (newSession init h a b nb now) = nb.
Proof. intros H. simpl. by rewrite take_app_le, take_ge by lia. Qed.

Lemma NewRekeyTransition_ok s init ds dr nxt :
  sst s init hdl prior ds dr -> initiator nxt = init -> handle nxt = hdl ->
  allZero (channelBinding nxt) = false -> prior <> channelBinding nxt ->
  NewRekeyTransition s nxt gen = Ok (transition (Some nxt) fresh_rds fresh_rds false false).
Proof.
  intros (Hi&Hh&Hb&_) Hn Hn2 Hz Hne. destruct Hprior as [_ Hzp].
  unfold NewRekeyTransition, NewRekeyExchange.
  rewrite Hi, Hh, Hb, Hn, Hn2, Hz, Hzp, eqb_reflx, bool_decide_eq_true_2, bool_decide_eq_false_2 by done.
  rewrite (proj2 (Z.eqb_neq gen 0)) by lia. reflexivity.
Qed.

(** ** The run *)
Lemma bind_Ok {A B} (m : D (W := queue) A) (f : A -> D (W := queue) B) d d' a :
  m d = (d', Ok a) -> bind m f d = f a d'.
Proof. intros E. unfold bind. by rewrite E. Qed.

Lemma NewRekeyInitiator_ok h :
  validateKeypair li = true -> validateKeypair lr = true -> allZero hdl = false ->
  NewHandshakeState true rekeyPrologue li (Some (Public lr)) = Some h ->
  NewRekeyInitiator li (Public lr) (Some prologue) hdl prior gen = Ok (mkInitiator (Some h) hdl false).
Proof.
  intros H1 H2 H3 H4. destruct Hprior as [_ Hz]. unfold NewRekeyInitiator, marshalRekeyPrologue, newInitiator.
  rewrite H1, (validateKeypair_public _ H2), H3, Hz, (proj2 (Z.eqb_neq gen 0)) by lia. cbn [negb orb].
  change (prologue ++ _) with rekeyPrologue. by rewrite H4.
Qed.

Lemma NewRekeyResponder_ok h :
  validateKeypair li = true -> validateKeypair lr = true -> allZero hdl = false ->
  NewHandshakeState false rekeyPrologue lr None = Some h ->
  NewRekeyResponder lr (Public li) (Some prologue) hdl prior gen = Ok (mkResponder (Some h) hdl (Public li) false).
Proof.
  intros H1 H2 H3 H4. destruct Hprior as [_ Hz]. unfold NewRekeyResponder, marshalRekeyPrologue, newResponder.
  rewrite H2, (validateKeypair_public _ H1), H3, Hz, (proj2 (Z.eqb_neq gen 0)) by lia. cbn [negb orb].
  change (prologue ++ _) with rekeyPrologue. by rewrite H4.
Qed.

(** A direction before the rekey: [n] control bytes in a few records still fit. *)
Definition before (q t n stS stR clkS clkR : Z) : Prop :=
  0 <= q <= hardRekeySequence /\ 0 <= t /\ t + n < hardRekeyBytes /\
  stS <> 0 /\ stR <> 0 /\ in_age stS clkS /\ in_age stR clkR.

Lemma before_room q t n stS stR clkS clkR i m l :
  before q t n stS stR clkS clkR -> 0 <= i < 4 -> 0 <= m -> 0 <= l -> m + l <= n ->
  room stS (q + i) (t + m) clkS l /\ room stR (q + i) (t + m) clkR l.
Proof.
  unfold before, room, hardRekeySequence, sequenceRekeyReserve, maxUint64.
  intros (?&?&?&?&?&?&?) ? ? ? ?. split_and!; try done; lia.
Qed.

Lemma fresh_room c : c <> 0 -> room c 0 0 c 47.
Proof. intros. unfold room, in_age. rewrite Z.sub_diag. by split_and!. Qed.

(** The two drivers' code, given what each of their messages does. *)
Definition sends_in_step (S S' : Session) (clk d kd : Z) (rec : list byte) : Prop :=
  forall tr ib ob, sendMarkerComplete tr (theMarker prior gen d kd) (mkD S (mkQueue ib ob clk)) =
    acceptMarker (theMarker prior gen d kd) tr (mkD S' (mkQueue ib (ob ++ [rec]) clk)).

Definition receives_in_step (R R' : Session) (clk d kd : Z) (rec : list byte) : Prop :=
  forall tr ib ob, receiveMarker tr prior gen d kd (mkD R (mkQueue (rec :: ib) ob clk)) =
    acceptMarker (theMarker prior gen d kd) tr (mkD R' (mkQueue ib ob clk)).

Lemma small_message (m : list byte) :
  0 < len m <= maximumPlaintext - rekeyHandshakeHeaderSize ->
  (len m =? 0) = false /\ (maximumMessage <? len m) = false.
Proof.
  unfold maximumPlaintext, maximumCiphertext, authenticationBytes, rekeyHandshakeHeaderSize, maximumMessage.
  intros. split; [apply Z.eqb_neq; lia|apply Z.ltb_ge; lia].
Qed.

Lemma initiator_run m1 m2 i1 i2 nb hi hi1 hi2 p2 A A1 A2 A3 A4 A5 A6 A7 A8 nA' nA2 rec1 rec2 rec3 rec4 rec5 rec6 clkA ds dr :
  validateKeypair li = true -> validateKeypair lr = true -> allZero hdl = false ->
  NewHandshakeState true rekeyPrologue li (Some (Public lr)) = Some hi ->
  WriteMessage hi [] = Some (hi1, m1, None) -> ReadMessage hi1 m2 = Some (hi2, p2, Some (i1, i2)) ->
  HandshakeBinding hi2 = nb -> length nb = 32%nat -> allZero nb = false -> prior <> nb ->
  0 < len m1 <= maximumPlaintext - rekeyHandshakeHeaderSize ->
  0 < len m2 <= maximumPlaintext - rekeyHandshakeHeaderSize ->
  initiator A = true -> handle A = hdl -> channelBinding A = prior ->
  (forall ib ob, sendHandshakeControl 1 gen prior m1 (mkD A (mkQueue ib ob clkA)) =
     (mkD A1 (mkQueue ib (ob ++ [rec1]) clkA), Ok tt)) ->
  (forall ib ob, receiveHandshakeControl 2 gen prior (mkD A1 (mkQueue (rec2 :: ib) ob clkA)) =
     (mkD A2 (mkQueue ib ob clkA), Ok m2)) ->
  sst A2 true hdl prior ds dr ->
  sends_in_step A2 A3 clkA 1 1 rec3 -> receives_in_step A3 A4 clkA 1 2 rec4 ->
  installRekeyDirection A4 (newSession true hdl i1 i2 nb clkA) 1 clkA = Ok (A5, nA') ->
  receives_in_step A5 A6 clkA 2 1 rec5 -> sends_in_step A6 A7 clkA 2 2 rec6 ->
  installRekeyDirection A7 nA' 2 clkA = Ok (A8, nA2) -> channelBinding nA2 = nb ->
  RunInitiatorRekey li (Public lr) (Some prologue) gen (mkD A (mkQueue [rec2; rec4; rec5] [] clkA))
    = (mkD (setChannelBinding nb A8) (mkQueue [] [rec1; rec3; rec6] clkA), Ok tt).
Proof.
  intros Hki Hkr Hhz N1 W1 R2 B1 Hnbl Hnbz Hnbp Hm1 Hm2 HAi HAh HAb S1 V2 HA2 S3 V4 IA5 V5 S6 IA8 EA.
  destruct (small_message m1 Hm1) as [_ L1]. destruct (small_message m2 Hm2) as [L2 L2'].
  set (nA := newSession true hdl i1 i2 nb clkA) in *.
  assert (Enb : channelBinding nA = nb) by (by apply newSession_binding).
  assert (HR : initiatorBody li (Public lr) (Some prologue) gen (mkD A (mkQueue [rec2; rec4; rec5] [] clkA))
      = (mkD (setChannelBinding nb A8) (mkQueue [] [rec1; rec3; rec6] clkA), Ok tt)).
  { unfold initiatorBody. erewrite bind_Ok by reflexivity. cbv zeta. simpl current. rewrite HAh, HAb.
    erewrite bind_Ok by (unfold lift; by rewrite (NewRekeyInitiator_ok hi)).
    unfold WriteRequest. cbn [ihandshake wrote_ ihandle]. rewrite W1, L1.
    change (maximumMessage - 96 <? len []) with false. cbv iota.
    erewrite bind_Ok by reflexivity. erewrite bind_Ok by apply S1.
    erewrite bind_Ok by apply V2. erewrite bind_Ok by reflexivity.
    unfold ReadResponse. cbn [ihandshake wrote_ ihandle]. rewrite R2, L2, L2'. cbn [negb orb].
    erewrite bind_Ok by reflexivity. cbv beta. cbn [fst snd].
    erewrite bind_Ok by reflexivity. cbn [current carrier Now clock queueCarrier]. rewrite B1. fold nA.
    erewrite bind_Ok.
    2: { unfold lift. rewrite (NewRekeyTransition_ok A2 true ds dr nA HA2); try done; congruence. }
    erewrite bind_Ok by (rewrite S3; apply accept_commit_i2r). cbv beta iota.
    erewrite bind_Ok by (rewrite V4; by apply accept_ack_i2r). cbv beta iota.
    erewrite bind_Ok by (rewrite V5; apply accept_commit_r2i). cbv beta iota.
    erewrite bind_Ok by (rewrite S6; by apply accept_ack_r2i). cbv beta iota. rewrite EA. reflexivity. }
  unfold RunInitiatorRekey, poisonOnError. simpl current. rewrite HAi, HR, (proj2 (Z.eqb_neq gen 0)) by lia. done.
Qed.

Lemma responder_run m1 m2 r1 r2 nb hr hr1 hr2 p1 B B1 B2 B3 B4 B5 B6 B7 B8 nB' nB2 rec1 rec2 rec3 rec4 rec5 rec6 clkB ds dr :
  validateKeypair li = true -> validateKeypair lr = true -> allZero hdl = false ->
  NewHandshakeState false rekeyPrologue lr None = Some hr ->
  ReadMessage hr m1 = Some (hr1, p1, None) -> PeerStatic hr1 = Public li ->
  WriteMessage hr1 [] = Some (hr2, m2, Some (r1, r2)) ->
  HandshakeBinding hr2 = nb -> length nb = 32%nat -> allZero nb = false -> prior <> nb ->
  0 < len m1 <= maximumPlaintext - rekeyHandshakeHeaderSize ->
  0 < len m2 <= maximumPlaintext - rekeyHandshakeHeaderSize ->
  initiator B = false -> handle B = hdl -> channelBinding B = prior ->
  (forall ib ob, receiveHandshakeControl 1 gen prior (mkD B (mkQueue (rec1 :: ib) ob clkB)) =
     (mkD B1 (mkQueue ib ob clkB), Ok m1)) ->
  (forall ib ob, sendHandshakeControl 2 gen prior m2 (mkD B1 (mkQueue ib ob clkB)) =
     (mkD B2 (mkQueue ib (ob ++ [rec2]) clkB), Ok tt)) ->
  sst B2 false hdl prior ds dr ->
  receives_in_step B2 B3 clkB 1 1 rec3 -> sends_in_step B3 B4 clkB 1 2 rec4 ->
  installRekeyDirection B4 (newSession false hdl r2 r1 nb clkB) 1 clkB = Ok (B5, nB') ->
  sends_in_step B5 B6 clkB 2 1 rec5 -> receives_in_step B6 B7 clkB 2 2 rec6 ->
  installRekeyDirection B7 nB' 2 clkB = Ok (B8, nB2) -> channelBinding nB2 = nb ->
  RunResponderRekey lr (Public li) (Some prologue) gen (mkD B (mkQueue [rec1; rec3; rec6] [] clkB))
    = (mkD (setChannelBinding nb B8) (mkQueue [] [rec2; rec4; rec5] clkB), Ok tt).
Proof.
  intros Hki Hkr Hhz N2 R1 PS W2 B2b Hnbl Hnbz Hnbp Hm1 Hm2 HBi HBh HBb V1 S2 HB2 V3 S4 IB5 S5 V6 IB8 EB.
  destruct (small_message m1 Hm1) as [L1 L1']. destruct (small_message m2 Hm2) as [_ L2].
  set (nB := newSession false hdl r2 r1 nb clkB) in *.
  assert (Enb : channelBinding nB = nb) by (by apply newSession_binding).
  assert (HR : responderBody lr (Public li) (Some prologue) gen (mkD B (mkQueue [rec1; rec3; rec6] [] clkB))
      = (mkD (setChannelBinding nb B8) (mkQueue [] [rec2; rec4; rec5] clkB), Ok tt)).
  { unfold responderBody. erewrite bind_Ok by reflexivity. cbv zeta. simpl current. rewrite HBh, HBb.
    erewrite bind_Ok by (unfold lift; by rewrite (NewRekeyResponder_ok hr)).
    erewrite bind_Ok by apply V1.
    unfold ReadRequest. cbn [rhandshake read_ rhandle expectedInitiator]. rewrite R1, L1, L1'. cbn [negb orb].
    rewrite bool_decide_eq_true_2 by done. cbn [negb].
    erewrite bind_Ok by reflexivity. erewrite bind_Ok by reflexivity.
    unfold WriteResponse. cbn [rhandshake read_ rhandle expectedInitiator negb].
    change (maximumMessage - 48 <? len []) with false. cbv iota. rewrite W2, L2.
    erewrite bind_Ok by reflexivity. cbv beta iota. cbn [current carrier Now clock queueCarrier]. rewrite B2b. fold nB.
    erewrite bind_Ok by apply S2. erewrite bind_Ok by reflexivity. cbn [current].
    erewrite bind_Ok.
    2: { unfold lift. rewrite (NewRekeyTransition_ok B2 false ds dr nB HB2); try done; congruence. }
    erewrite bind_Ok by (rewrite V3; apply accept_commit_i2r). cbv beta iota.
    erewrite bind_Ok by (rewrite S4; by apply accept_ack_i2r). cbv beta iota.
    erewrite bind_Ok by (rewrite S5; apply accept_commit_r2i). cbv beta iota.
    erewrite bind_Ok by (rewrite V6; by apply accept_ack_r2i). cbv beta iota. rewrite EB. reflexivity. }
  unfold RunResponderRekey, poisonOnError. simpl current. rewrite HBi, HR, (proj2 (Z.eqb_neq gen 0)) by lia. done.
Qed.

(** C37: two drivers over a carrier that delivers both succeed, whatever sequence
    numbers the data left unreserved, and end with the keys of the fresh handshake
    paired in both directions, the sequence numbers restarted and one common new
    channel binding; [i2r] and [r2i] are the records each sends and the other
    receives. *)
Theorem rekey_drivers_converge m1 m2 i1 i2 r1 r2 nb A B ka ra kb rb qa ta qb tb sa sa' sb sb' clkA clkB :
  completes m1 m2 i1 i2 r1 r2 nb -> allZero hdl = false ->
  sst A true hdl prior (dirOf ka qa ta sa) (dirOf rb qb tb sb') ->
  sst B false hdl prior (dirOf kb qb tb sb) (dirOf ra qa ta sa') ->
  paired ka ra -> paired kb rb -> nonce ka = qa -> nonce kb = qb ->
  before qa ta (len m1 + 95) sa sa' clkA clkB -> before qb tb (len m2 + 142) sb sb' clkB clkA ->
  clkA <> 0 -> clkB <> 0 ->
  exists i2r r2i A' B' i1' r1',
    RunInitiatorRekey li (Public lr) (Some prologue) gen (mkD A (mkQueue r2i [] clkA))
      = (mkD A' (mkQueue [] i2r clkA), Ok tt) /\
    RunResponderRekey lr (Public li) (Some prologue) gen (mkD B (mkQueue i2r [] clkB))
      = (mkD B' (mkQueue [] r2i clkB), Ok tt) /\
    sst A' true hdl nb (dirOf i1' 1 47 clkA) (dirOf i2 0 0 clkA) /\
    sst B' false hdl nb (dirOf r2 0 0 clkB) (dirOf r1' 1 47 clkB) /\
    paired i1' r1' /\ paired r2 i2 /\ nonce i1' = 1 /\ nonce r2 = 0.
Proof.
  intros Hcp Hhz HA HB Hpa Hpb Hna Hnb Hba Hbb HcA HcB.
  destruct Hcp as [[Hki Hkr] (hi&hr&hi1&hr1&hi2&hr2&p1&p2&N1&N2&W1&R1&PS&W2&R2&B1&B2) (Pi&Pr&Ni&Nr) (Hnbl&Hnbz&Hnbp) [Hm1 Hm2]].
  destruct Hprior as [Hpl Hpz].
  assert (Hm1' : 0 <= len m1) by lia. assert (Hm2' : 0 <= len m2) by lia.
  assert (V1' : validControl (mkControl 1 gen prior m1)) by (unfold validControl; simpl; tauto).
  assert (V2' : validControl (mkControl 2 gen prior m2)) by (unfold validControl; simpl; tauto).
  destruct (before_room _ _ _ _ _ _ _ 0 0 (48 + len m1) Hba) as [Rd Rd']; [lia..|].
  destruct (before_room _ _ _ _ _ _ _ 0 0 (48 + len m2) Hbb) as [Re Re']; [lia..|].
  destruct (before_room _ _ _ _ _ _ _ 1 (48 + len m1) 47 Hba) as [Ra Ra']; [lia..|].
  destruct (before_room _ _ _ _ _ _ _ 1 (48 + len m2) 47 Hbb) as [Rb Rb']; [lia..|].
  destruct (before_room _ _ _ _ _ _ _ 2 (48 + len m2 + 47) 47 Hbb) as [Rc Rc']; [lia..|].
  rewrite !Z.add_0_r in Rd, Rd', Re, Re'. rewrite !Z.add_assoc in Ra, Ra', Rb, Rb', Rc, Rc'.
  assert (O11 : 1 = 1 \/ 1 = 2) by auto. assert (O22 : 2 = 1 \/ 2 = 2) by auto.
  (* request *)
  destruct (handshake_message 1 gen m1 A B true hdl prior prior ka ra qa ta sa sa' _ _ clkA clkB
    V1' HA HB Hpa Hna Hhdl Rd Rd') as (k1&c1&rec1&A1&B1'&S1&V1&P1&K1&HA1&HB1).
  (* response *)
  destruct (handshake_message 2 gen m2 B1' A1 false hdl prior prior kb rb qb tb sb sb' _ _ clkB clkA
    V2' HB1 HA1 Hpb Hnb Hhdl Re Re') as (k2&c2&rec2&B2'&A2&S2&V2&P2&K2&HB2&HA2).
  rewrite !Z.add_assoc in HA2, HB2.
  (* commit of the initiator's direction *)
  destruct (marker_message 1 1 A2 B2' true prior prior k1 c1 _ _ sa sa' _ _ clkA clkB
    O11 O11 HA2 HB2 P1 K1 Ra Ra') as (k3&c3&rec3&A3&B3&S3&V3&P3&K3&HA3&HB3).
  (* its acknowledgement; both ends switch it *)
  destruct (marker_message 1 2 B3 A3 false prior prior k2 c2 _ _ sb sb' _ _ clkB clkA
    O11 O22 HB3 HA3 P2 K2 Rb Rb') as (k4&c4&rec4&B4&A4&S4&V4&P4&K4&HB4&HA4).
  set (nB := newSession false hdl r2 r1 nb clkB). set (nA := newSession true hdl i1 i2 nb clkA).
  destruct (install_receive B4 false prior c3 _ _ sa' _ nB r1 clkB 1 clkB HB4 eq_refl eq_refl)
    as (B5&nB'&IB5&HB5&EnBs&EnB).
  destruct (install_send A4 true prior k3 _ _ sa _ nA i1 clkA 1 clkA HA4 eq_refl eq_refl)
    as (A5&nA'&IA5&HA5&EnAr&EnA).
  (* commit of the responder's direction *)
  rewrite !Z.add_assoc in Rc, Rc'.
  replace (qb + 1 + 1) with (qb + 2) in * by lia.
  destruct (marker_message 2 1 B5 A5 false prior prior k4 c4 _ _ sb sb' _ _ clkB clkA
    O22 O11 HB5 HA5 P4 K4 Rc Rc') as (k5&c5&rec5&B6&A6&S5&V5&P5&K5&HB6&HA6).
  (* its acknowledgement, under the new key *)
  destruct (marker_message 2 2 A6 B6 true prior prior i1 r1 _ _ clkA clkB _ _ clkA clkB
    O22 O22 HA6 HB6 Pi Ni (fresh_room clkA HcA) (fresh_room clkB HcB))
    as (k6&c6&rec6&A7&B7&S6&V6&P6&K6&HA7&HB7).
  destruct (install_receive A7 true prior c5 _ _ sb' _ nA' i2 clkA 2 clkA HA7 EnAr eq_refl)
    as (A8&nA2&IA8&HA8&_&EnA2).
  destruct (install_send B7 false prior k5 _ _ sb _ nB' r2 clkB 2 clkB HB7 EnBs eq_refl)
    as (B8&nB2&IB8&HB8&_&EnB2).
  assert (EA : channelBinding nA2 = nb) by (rewrite EnA2, EnA; by apply newSession_binding).
  assert (EB : channelBinding nB2 = nb) by (rewrite EnB2, EnB; by apply newSession_binding).
  exists [rec1; rec3; rec6], [rec2; rec4; rec5], (setChannelBinding nb A8), (setChannelBinding nb B8), k6, c6.
  split_and!; [| |by eapply sst_binding|by eapply sst_binding|done..].
  - destruct HA as (?&?&?&_). eapply (initiator_run m1 m2 i1 i2 nb hi hi1 hi2 p2); eauto.
  - destruct HB as (?&?&?&_). eapply (responder_run m1 m2 r1 r2 nb hr hr1 hr2 p1); eauto.
Qed.

End run.
