(* ===== verification/RelayToy.v ===== *)
(** * A concrete cipher and a concrete handshake

    An instance of the cipher interface: it hides nothing, but it authenticates
    the associated data and the nonce with a 16-byte tag, which is what the laws
    ask.  The examples of the relay components run on it, and the rekey drivers on a
    handshake that goes with it. *)
From S2P Require Import Prelude.
From S2P Require Import Codec.
From S2P Require Import RelayRecord.
From S2P Require Import RelayChannel.
From S2P Require Import RelayStream.
From S2P Require Import RelayStreamProps.
From S2P Require Import RelayDelivery.
From S2P Require Import RelayHandshake.
From S2P Require Import RelayRekey.
From S2P Require Import RelayRekeyProps.
From S2P Require Import RelayRekeyRun.

(** A state is a key and a nonce. *)
Definition toyTag (key n : Z) (ad : list byte) : list byte := PutUint64 n ++ PutUint64 (key + be_get ad).

Definition toyEncrypt (k : Z * Z) (ad p : list byte) : option ((Z * Z) * list byte) :=
  if snd k <? maxUint64 then Some ((fst k, snd k + 1), p ++ toyTag (fst k) (snd k) ad) else None.

Definition toyDecrypt (r : Z * Z) (ad c : list byte) : option ((Z * Z) * list byte) :=
  if (snd r <? maxUint64) && (16 <=? len c)
     && bool_decide (zdrop (len c - 16) c = toyTag (fst r) (snd r) ad)
  then Some ((fst r, snd r + 1), ztake (len c - 16) c) else None.

#[export] Instance toyCipher : CipherState :=
  { cipher := (Z * Z)%type; Encrypt := toyEncrypt; Decrypt := toyDecrypt }.

Lemma toyTag_len key n ad : len (toyTag key n ad) = 16.
Proof. unfold toyTag, len, PutUint64. by rewrite length_app, !be_put_length. Qed.

#[export] Instance toyLaws : CipherLaws toyCipher.
Proof.
  refine {| paired := (fun k r : @cipher toyCipher => k = r); nonce := (fun k : @cipher toyCipher => snd k) |};
    simpl; unfold toyEncrypt, toyDecrypt.
  - intros k k' ad p c. case_match; [|done]. intros [= <- <-]. rewrite len_app, toyTag_len. lia.
  - intros k r k' ad p c -> H. destruct (snd r <? maxUint64) eqn:E; [|done]. injection H as <- <-.
    rewrite len_app, toyTag_len. pose proof (len_nonneg p).
    replace (len p + 16 - 16) with (len p) by lia.
    rewrite zdrop_len_app, ztake_len_app, bool_decide_eq_true_2 by done.
    rewrite (proj2 (Z.leb_le _ _)) by lia. simpl. by eexists.
  - intros k k' ad p c. case_match; [|done]. by intros [= <- <-].
  - intros k ad p H. rewrite (proj2 (Z.ltb_lt _ _)) by done. by eexists _, _.
Defined.

Definition toyHandle : list byte := replicate 16 x07.
Definition toyBinding : list byte := replicate 32 x09.

(** The two ends of a handshake that gave the keys [key] and [key + 1]. *)
Definition toyA (key : Z) : Session := newSession true toyHandle (key, 0) (key + 1, 0) toyBinding 1.
Definition toyB (key : Z) : Session := newSession false toyHandle (key + 1, 0) (key, 0) toyBinding 1.

Lemma toy_handshaken key : handshaken (toyA key) (toyB key).
Proof. by apply newSession_handshaken. Qed.

Definition toySend : sendEnv := mkSendEnv 2 2 2 false [(Z.to_nat 70000, false)].
Definition toyRecv : recvEnv := mkRecvEnv 2 2 2 false None.

Lemma toySend_good : good_send 1 toySend.
Proof.
  split; [done|]. split; [constructor; [|constructor]; cbn [fst snd]; lia|].
  change (headerLength + maximumCiphertext <= Z.of_nat (Z.to_nat 70000 + 0)).
  unfold headerLength, maximumCiphertext. lia.
Qed.

Lemma toyRecv_good : good_recv 1 toyRecv.
Proof. done. Qed.

(** Decides [unforgeable] for a concrete record the sender has produced. *)
Lemma unforgeable_produced (R : Session) produced record :
  bool_decide (record ∈ produced) = true -> unforgeable R produced record.
Proof. intros H%bool_decide_eq_true_1. by intros r r' p _ _. Qed.

(** A run: A writes, the relay forwards, B reads. *)
Definition toyHi := Write (fun _ => toySend) (bytes "hi") (NewSecureConn (toyA 5)) (mkCarrier [] []).
Definition toyWire : list byte := Eval vm_compute in wire (snd (fst toyHi)).
Definition toyRead := Read 10 toyRecv (NewSecureConn (toyB 5)) toyWire.
Definition toyLeft : endpoint :=
  mkEndpoint (fst (fst toyHi)) (snd (fst toyHi)) [] (bytes "hi") [] [].
Definition toyRight : endpoint :=
  mkEndpoint (fst (fst toyRead)) (mkCarrier [] []) [] [] [] (bytes "hi").

Lemma toy_run : reachable (newEndpoint (toyA 5), newEndpoint (toyB 5)) (toyLeft, toyRight).
Proof.
  eapply reach_step; [eapply reach_step; [eapply reach_step; [apply reach_init|]|]|].
  - apply s_left with (a' := toyLeft).
    assert (H : toyHi = (conn toyLeft, out toyLeft, (2, None))) by (vm_cast_no_check (eq_refl toyHi)).
    exact (e_write _ (newEndpoint (toyA 5)) _ _ _ _ _ _ H).
  - apply s_right. apply (e_deliver _ _ toyWire).
  - apply s_right with (b' := toyRight).
    assert (H : toyRead = (conn toyRight, [], Ok (bytes "hi"))) by (vm_cast_no_check (eq_refl toyRead)).
    refine (e_read _ ((newEndpoint (toyB 5)) <| incoming := toyWire |>) _ _ _ _ _ _ H).
    intros record rest' HR.
    assert (E : ReceiveRecord 0 toyRecv toyWire = (Ok toyWire, [])) by (vm_compute; reflexivity).
    assert (record = toyWire) as ->.
    { change (ReceiveRecord 0 toyRecv toyWire = (Ok record, rest')) in HR.
      rewrite E in HR. by injection HR. }
    apply unforgeable_produced. vm_cast_no_check (eq_refl true).
Qed.

Lemma relay_stream_prefix_witness :
  got toyRight = bytes "hi" /\ got toyRight `prefix_of` accepted toyLeft.
Proof.
  split; [reflexivity|].
  apply (relay_stream_prefix (toyA 5) (toyB 5) _ _ (toy_handshaken 5) toy_run). vm_cast_no_check (eq_refl false).
Defined.

Lemma relay_stream_delivers_witness :
  linked (toyB 5) (toyA 5) /\
  exists c1 w1 c2 w2,
    WriteSeq 0 (fun _ _ => toySend) [bytes "ab"; []; bytes "cde"] (NewSecureConn (toyB 5)) (mkCarrier [] [])
      = (c1, w1, [(2, None); (0, None); (3, None)]) /\
    CloseWrite toySend c1 w1 = (c2, w2, None) /\
    ReadAll 6 0 2 (fun _ => toyRecv) (NewSecureConn (toyA 5)) (wire w2) = (bytes "abcde", Some ConnEOF).
Proof.
  split; [right; apply toy_handshaken|].
  apply (relay_stream_delivers (toyB 5) (toyA 5) [bytes "ab"; []; bytes "cde"] (fun _ _ => toySend) toySend
    (fun _ => toyRecv) 2 6).
  - right. apply toy_handshaken.
  - reflexivity.
  - intros _ _. apply toySend_good.
  - apply toySend_good.
  - intros _. apply toyRecv_good.
  - lia.
  - vm_compute. lia.
Defined.

Lemma relay_truncation_unnoticed_witness :
  linked (toyA 5) (toyB 5) /\
  exists c1 w1 chunks records,
    WriteSeq 0 (fun _ _ => toySend) [bytes "ab"; bytes "cde"] (NewSecureConn (toyA 5)) (mkCarrier [] [])
      = (c1, w1, [(2, None); (3, None)]) /\
    concat chunks = bytes "abcde" /\ Forall (fun p => p <> []) chunks /\
    wire w1 = concat records /\ length records = length chunks /\
    forall j, ReadAll 6 0 2 (fun _ => toyRecv) (NewSecureConn (toyB 5)) (concat (take j records))
      = (concat (take j chunks), Some ConnEOF).
Proof.
  split; [left; apply toy_handshaken|].
  apply (relay_truncation_unnoticed (toyA 5) (toyB 5) [bytes "ab"; bytes "cde"] (fun _ _ => toySend)
    (fun _ => toyRecv) 2 6).
  - left. apply toy_handshaken.
  - reflexivity.
  - intros _ _. apply toySend_good.
  - intros _. apply toyRecv_good.
  - lia.
  - vm_compute. lia.
Defined.

Lemma relay_sequence_unique_witness :
  handed (out toyLeft) !! 0%nat = Some toyWire /\ hSequence (take 28 toyWire) = Z.of_nat 0.
Proof.
  assert (H : handed (out toyLeft) !! 0%nat = Some toyWire) by (vm_cast_no_check (eq_refl (Some toyWire))).
  split; [exact H|].
  apply (relay_sequence_unique (toyA 5) (toyB 5) toyLeft toyRight 0 toyWire (toy_handshaken 5) toy_run H).
Defined.

(** A handshake state: the role, the own public key and the peer's. *)
Definition toyRead2 (h : bool * list byte * list byte) (m : list byte) :=
  let '(init, own, peer) := h in
  if init : bool then Some (h, drop 1 m, Some ((100, 0), (200, 0)))
  else Some ((init, own, take 32 m), drop 32 m, None).

Definition toyWrite2 (h : bool * list byte * list byte) (p : list byte) :=
  let '(init, own, peer) := h in
  if init : bool then Some (h, own ++ p, None) else Some (h, x01 :: p, Some ((100, 0), (200, 0))).

#[export] Instance toyNoise : NoiseHandshake := {
  hstate := (bool * list byte * list byte)%type;
  NewHandshakeState init _ key peer := Some (init, Public key, default [] peer);
  WriteMessage := toyWrite2;
  ReadMessage := toyRead2;
  PeerStatic h := snd h;
  HandshakeBinding _ := replicate 32 x0b;
  GenerateKeypair private := Some (mkDHKey private private)
}.

Definition toyKey (b : byte) : DHKey := mkDHKey (replicate 32 b) (replicate 32 b).

Lemma toy_completes :
  completes toyBinding 2 (toyKey x03) (toyKey x04) [] (replicate 32 x03) [x01]
    (100, 0) (200, 0) (100, 0) (200, 0) (replicate 32 x0b).
Proof.
  split.
  - split; vm_compute; reflexivity.
  - eexists _, _, _, _, _, _, _, _. split_and!; reflexivity.
  - done.
  - done.
  - done.
Qed.

Lemma rekey_failure_poisons_witness :
  exists d' e, RunInitiatorRekey (toyKey x03) (Public (toyKey x04)) (Some []) 2
      (mkD (toyA 5) (mkQueue [] [] 2)) = (d', Err e) /\ unusable (current d').
Proof.
  destruct (RunInitiatorRekey (toyKey x03) (Public (toyKey x04)) (Some []) 2
    (mkD (toyA 5) (mkQueue [] [] 2))) as [d' r] eqn:E.
  destruct r as [a|e].
  - exfalso. apply (f_equal (fun x => is_ok (snd x))) in E.
    assert (H : is_ok (snd (RunInitiatorRekey (toyKey x03) (Public (toyKey x04)) (Some []) 2
      (mkD (toyA 5) (mkQueue [] [] 2)))) = false) by (vm_cast_no_check (eq_refl false)).
    rewrite H in E. discriminate.
  - exists d', e. split; [reflexivity|].
    apply (rekey_failure_poisons (toyKey x03) (Public (toyKey x04)) (Some []) 2 (mkD (toyA 5) (mkQueue [] [] 2)) d' e).
    + lia.
    + left. split; [reflexivity|exact E].
Defined.

Lemma rekey_drivers_converge_witness :
  exists i2r r2i A' B' i1' r1',
    RunInitiatorRekey (toyKey x03) (Public (toyKey x04)) (Some []) 2 (mkD (toyA 5) (mkQueue r2i [] 2))
      = (mkD A' (mkQueue [] i2r 2), Ok tt) /\
    RunResponderRekey (toyKey x04) (Public (toyKey x03)) (Some []) 2 (mkD (toyB 5) (mkQueue i2r [] 2))
      = (mkD B' (mkQueue [] r2i 2), Ok tt) /\
    sst A' true toyHandle (replicate 32 x0b) (mkDirection (Some i1') 1 false 47 2)
      (mkDirection (Some (200, 0)) 0 false 0 2) /\
    sst B' false toyHandle (replicate 32 x0b) (mkDirection (Some (200, 0)) 0 false 0 2)
      (mkDirection (Some r1') 1 false 47 2) /\
    paired i1' r1' /\ paired (200, 0) (200, 0) /\ nonce i1' = 1 /\ nonce (200, 0) = 0.
Proof.
  apply (rekey_drivers_converge toyBinding toyHandle 2 ltac:(split; reflexivity) ltac:(split; reflexivity)
    ltac:(reflexivity) (toyKey x03) (toyKey x04) [] (replicate 32 x03) [x01]
    (100, 0) (200, 0) (100, 0) (200, 0) (replicate 32 x0b) (toyA 5) (toyB 5)
    (5, 0) (5, 0) (6, 0) (6, 0) 0 0 0 0 1 1 1 1 2 2).
  - apply toy_completes.
  - reflexivity.
  - repeat split.
  - repeat split.
  - reflexivity.
  - reflexivity.
  - reflexivity.
  - reflexivity.
  - unfold before, in_age. repeat split; vm_compute; congruence.
  - unfold before, in_age. repeat split; vm_compute; congruence.
  - lia.
  - lia.
Defined.
