(* ===== verification/Pmtu.v ===== *)
(** * Path MTU discovery

    Models [internal/peertransport/networkadaptation/pmtu.go] (the measurement by
    binary search, the bounded cache of observations) and [pmtu_wire.go] (the
    authenticated probe datagrams, with the executable HMAC-SHA-256 of [Sha256]).

    Times are nanoseconds, 0 the zero time.  The prober is the environment: the
    [i]-th attempt of a measurement has a reply that may depend on the size. *)
From S2P Require Import Prelude Codec Sha256.

Module Pmtu.

Inductive PmtuError := ErrInvalid | ErrStale | ErrProbe | ErrContext | ErrClosed
| ErrFrameSize | ErrFrameAuthentication | ErrFrameHeader | ErrNonce | ErrRandom | ErrExchange.

(** ** Policy *)
Record PMTUPolicy := mkPolicy {
  MinimumPayload : Z; MaximumPayload : Z; SuccessesPerSize : Z;
  ProbeTimeout : Z; TotalTimeout : Z; CacheTTL : Z; MaximumPaths : Z }.

Definition DevelopmentPMTUPolicy : PMTUPolicy :=
  mkPolicy 1200 1452 3 1000000000 30000000000 300000000000 256.

(** The loop [for width := ...; width > 0; width /= 2 { rounds++ }]; a [uint16]
    width is halved at most 16 times. *)
Fixpoint halvings (fuel : nat) (width : Z) : Z :=
  match fuel with
  | O => 0
  | S f => if 0 <? width then 1 + halvings f (width / 2) else 0
  end.

Definition rounds (p : PMTUPolicy) : Z := 1 + halvings 17 (MaximumPayload p - MinimumPayload p).

Definition maximumAttempts (p : PMTUPolicy) : Z := rounds p * SuccessesPerSize p.

Definition maxDuration : Z := 2 ^ 63 - 1.

(** [PMTUPolicy.validate] *)
Definition validate (p : PMTUPolicy) : bool :=
  if (MinimumPayload p <? 1200) || (MaximumPayload p <? MinimumPayload p)
     || (SuccessesPerSize p <? 3) || (16 <? SuccessesPerSize p) || (ProbeTimeout p <=? 0)
     || (TotalTimeout p <=? 0) || (CacheTTL p <=? 0) || (MaximumPaths p <? 1) || (4096 <? MaximumPaths p)
  then false
  else if (maxDuration / ProbeTimeout p <? maximumAttempts p)
          || (TotalTimeout p <? maximumAttempts p * ProbeTimeout p)
  then false
  else true.

(** ** Measurement *)

(** What one call of [ProbePayload] gives: its error, whether the measurement's
    context is done afterwards, and the result. *)
Record reply := mkReply { probeErr : bool; ctxDone : bool; Supported : bool; At : Z }.

Record PMTUMeasurement := mkMeasurement {
  Complete : bool; Eligible : bool; PacketSize : Z; Attempts : Z; ObservedAt : Z }.
#[export] Instance PMTUMeasurement_eta : Eta PMTUMeasurement := fun m =>
  mkMeasurement (Complete m) (Eligible m) (PacketSize m) (Attempts m) (ObservedAt m).

Section measure.
Variable prober : Z -> Z -> reply.
Variable policy : PMTUPolicy.

(** The closure [probe]: up to [n] more attempts at [size]; [measurement.Attempts]
    numbers them and [previous] is the time of the last result. *)
Fixpoint probe (n : nat) (size : Z) (m : PMTUMeasurement) (previous : Z)
  : PMTUMeasurement * Z * result PmtuError bool :=
  match n with
  | O => (m, previous, Ok true)
  | S n' =>
      let r := prober size (Attempts m) in
      let m1 := m <| Attempts := Attempts m + 1 |> in
      if probeErr r then (m1, previous, Err ErrProbe)
      else if ctxDone r then (m1, previous, Err ErrContext)
      else if (At r =? 0) || (negb (previous =? 0) && negb (previous <? At r))
      then (m1, previous, Err ErrInvalid)
      else
        let m2 := m1 <| ObservedAt := At r |> in
        if negb (Supported r) then (m2, At r, Ok false)
        else probe n' size m2 (At r)
  end.

Definition probeSize (size : Z) (m : PMTUMeasurement) (previous : Z) :=
  probe (Z.to_nat (SuccessesPerSize policy)) size m previous.

(** The loop [for low <= high]; the interval halves, so 17 turns are enough for
    [uint16] sizes. *)
Fixpoint search (fuel : nat) (low high : Z) (m : PMTUMeasurement) (previous : Z)
  : PMTUMeasurement * result PmtuError unit :=
  match fuel with
  | O => (m, Err ErrInvalid)
  | S fuel' =>
      if low <=? high then
        let candidate := (low + (high - low) / 2) mod 65536 in
        match probeSize candidate m previous with
        | (m', _, Err e) => (m', Err e)
        | (m', previous', Ok true) => search fuel' (candidate + 1) high (m' <| PacketSize := candidate |>) previous'
        | (m', previous', Ok false) => search fuel' low (candidate - 1) m' previous'
        end
      else (m <| Complete := true |>, Ok tt)
  end.

(** [PMTUMeasurer.Measure] *)
Definition Measure : PMTUMeasurement * result PmtuError unit :=
  let m0 := mkMeasurement false false 0 0 0 in
  match probeSize (MinimumPayload policy) m0 0 with
  | (m, _, Err e) => (m, Err e)
  | (m, _, Ok false) => (m <| Complete := true |>, Ok tt)
  | (m, previous, Ok true) =>
      search 18 (MinimumPayload policy + 1) (MaximumPayload policy)
        ((m <| Eligible := true |>) <| PacketSize := MinimumPayload policy |>) previous
  end.

End measure.

(** ** The cache *)
Record PMTUKey := mkKey { Fingerprint : list byte; PathID : string; NetworkGeneration : Z }.
#[export] Instance PMTUKey_eq_dec : EqDecision PMTUKey.
Proof. solve_decision. Defined.
#[export] Program Instance PMTUKey_countable : Countable PMTUKey :=
  inj_countable' (fun k => (Fingerprint k, PathID k, NetworkGeneration k)) (fun '(a, b, c) => mkKey a b c) _.
Next Obligation. by intros []. Qed.

(** [Fingerprint.valid] and [PMTUKey.valid] *)
Definition validFingerprint (f : list byte) : bool := negb (forallb (fun b => bool_decide (b = x00)) f).
Definition validKey (k : PMTUKey) : bool :=
  validFingerprint (Fingerprint k) && negb (bool_decide (PathID k = EmptyString))
  && (Z.of_nat (String.length (PathID k)) <=? 256) && (0 <? NetworkGeneration k).

Record PMTUObservation := mkObservation {
  oEligible : bool; oPacketSize : Z; oObservedAt : Z; oExpiresAt : Z }.
Record pmtuEntry := mkEntry { observation : PMTUObservation; lastUsed : Z }.
Record PMTUCache := mkCache { cpolicy : PMTUPolicy; items : gmap PMTUKey pmtuEntry }.

Definition NewPMTUCache (p : PMTUPolicy) : result PmtuError PMTUCache :=
  if validate p then Ok (mkCache p ∅) else Err ErrInvalid.

(** The eviction loop over the map in the iteration order [iter]. *)
Fixpoint oldest (iter : list (PMTUKey * pmtuEntry)) (found : option (PMTUKey * Z)) : option PMTUKey :=
  match iter with
  | [] => fst <$> found
  | (k, e) :: rest =>
      match found with
      | None => oldest rest (Some (k, lastUsed e))
      | Some (_, at_) => if lastUsed e <? at_ then oldest rest (Some (k, lastUsed e)) else oldest rest found
      end
  end.

(** [PMTUCache.RecordTTL]; [iter] is the order in which Go ranges over the map. *)
Definition RecordTTL (iter : list (PMTUKey * pmtuEntry)) (key : PMTUKey) (m : PMTUMeasurement) (ttl : Z)
    (c : PMTUCache) : PMTUCache * result PmtuError unit :=
  let p := cpolicy c in
  if negb (validKey key) || (ttl <=? 0) || (2 * CacheTTL p <? ttl) || negb (Complete m)
     || (ObservedAt m =? 0) || (Attempts m <? 1)
     || (Eligible m && ((PacketSize m <? MinimumPayload p) || (MaximumPayload p <? PacketSize m)))
     || (negb (Eligible m) && negb (PacketSize m =? 0))
  then (c, Err ErrInvalid)
  else
    match items c !! key with
    | Some existing =>
        if negb (oObservedAt (observation existing) <? ObservedAt m) then (c, Err ErrStale)
        else
          let o := mkObservation (Eligible m) (PacketSize m) (ObservedAt m) (ObservedAt m + ttl) in
          (mkCache p (<[key := mkEntry o (ObservedAt m)]> (items c)), Ok tt)
    | None =>
        let kept :=
          if MaximumPaths p <=? Z.of_nat (size (items c))
          then match oldest iter None with Some k => delete k (items c) | None => items c end
          else items c in
        let o := mkObservation (Eligible m) (PacketSize m) (ObservedAt m) (ObservedAt m + ttl) in
        (mkCache p (<[key := mkEntry o (ObservedAt m)]> kept), Ok tt)
    end.

Definition Record_ (iter : list (PMTUKey * pmtuEntry)) (key : PMTUKey) (m : PMTUMeasurement) (c : PMTUCache) :=
  RecordTTL iter key m (CacheTTL (cpolicy c)) c.

Definition Lookup (key : PMTUKey) (now : Z) (c : PMTUCache) : PMTUCache * option PMTUObservation :=
  if negb (validKey key) || (now =? 0) then (c, None)
  else match items c !! key with
       | None => (c, None)
       | Some e =>
           if negb (now <? oExpiresAt (observation e)) then (mkCache (cpolicy c) (delete key (items c)), None)
           else (mkCache (cpolicy c) (<[key := mkEntry (observation e) now]> (items c)), Some (observation e))
       end.

Definition Invalidate (c : PMTUCache) : PMTUCache * Z := (mkCache (cpolicy c) ∅, Z.of_nat (size (items c))).

(** [ApplyPMTU]: the packet size the session configuration is given. *)
Definition ApplyPMTU (o : PMTUObservation) (now : Z) : result PmtuError Z :=
  if negb (oEligible o) || (oPacketSize o <? 1200) || (oObservedAt o =? 0) || (now =? 0)
     || negb (now <? oExpiresAt o) || negb (oObservedAt o <? oExpiresAt o)
  then Err ErrInvalid else Ok (oPacketSize o).

(** ** Probe datagrams *)
Definition pmtuFrameMagic : list byte := bytes "PBMT".
Definition pmtuFrameVersion : byte := x01.
Definition pmtuFrameRequest : byte := x01.
Definition pmtuFrameResponse : byte := x02.
Definition pmtuHeaderSize : Z := 24.
Definition pmtuTagSize : Z := 32.

Definition buildPMTUFrame (key : list byte) (kind : byte) (size : Z) (nonce : list byte)
  : result PmtuError (list byte) :=
  if (len key <? 32) || (size <? pmtuHeaderSize + pmtuTagSize)
     || (negb (bool_decide (kind = pmtuFrameRequest)) && negb (bool_decide (kind = pmtuFrameResponse)))
  then Err ErrInvalid
  else
    let body := pmtuFrameMagic ++ [pmtuFrameVersion; kind] ++ PutUint16 size ++ nonce
                  ++ zero_bytes (Z.to_nat (size - pmtuTagSize - pmtuHeaderSize)) in
    Ok (body ++ hmac256 key body).

Definition parsePMTUFrame (key frame : list byte) (kind : byte) (size : Z) : result PmtuError (list byte) :=
  if (len key <? 32) || negb (len frame =? size) || (len frame <? pmtuHeaderSize + pmtuTagSize)
  then Err ErrFrameSize
  else
    let tagOffset := len frame - pmtuTagSize in
    if negb (bool_decide (zdrop tagOffset frame = hmac256 key (ztake tagOffset frame)))
    then Err ErrFrameAuthentication
    else if negb (bool_decide (sub 0 4 frame = pmtuFrameMagic))
         || negb (bool_decide (nth 4 frame x00 = pmtuFrameVersion))
         || negb (bool_decide (nth 5 frame x00 = kind))
         || negb (be_get (sub 6 8 frame) =? size)
    then Err ErrFrameHeader
    else Ok (sub 8 24 frame).

(** Both ends keep a copy of the key until they are closed. *)
Record Prober := mkProber { maximum : Z; pkey : list byte; pclosed : bool }.

Definition NewAuthenticatedPMTUProber (key : list byte) (max : Z) : result PmtuError Prober :=
  if (len key <? 32) || (max <? 1200) then Err ErrInvalid else Ok (mkProber max key false).

Definition Close (p : Prober) : Prober := if pclosed p then p else mkProber (maximum p) [] true.

Definition keyCopy (p : Prober) : result PmtuError (list byte) :=
  if pclosed p || (len (pkey p) <? 32) then Err ErrClosed else Ok (pkey p).

(** The answer of [ExchangePMTU]: a datagram, [ErrPMTUProbeUnreachable] or another
    error. *)
Inductive Exchange := Answer (response : list byte) | Unreachable | ExchangeFailed.

(** [AuthenticatedPMTUProber.ProbePayload]; [nonce] is what the random source
    gives, [ctxErr] whether the context is done after a failed exchange, [now] the
    clock on return. *)
Definition ProbePayload (exchange : list byte -> Exchange) (nonce : option (list byte)) (ctxErr : bool)
    (now size : Z) (p : Prober) : result PmtuError (bool * Z) :=
  if (size <? 1200) || (maximum p <? size) then Err ErrInvalid
  else match keyCopy p with
       | Err e => Err e
       | Ok key =>
           match nonce with
           | None => Err ErrRandom
           | Some n =>
               match buildPMTUFrame key pmtuFrameRequest size n with
               | Err e => Err e
               | Ok request =>
                   match exchange request with
                   | Unreachable => if ctxErr then Err ErrContext else Ok (false, now)
                   | ExchangeFailed => Err (if ctxErr then ErrContext else ErrExchange)
                   | Answer response =>
                       match parsePMTUFrame key response pmtuFrameResponse size with
                       | Err e => Err e
                       | Ok responseNonce =>
                           if negb (bool_decide (responseNonce = n)) then Err ErrNonce else Ok (true, now)
                       end
                   end
               end
           end
       end.

(** [PMTUResponder.Handle]; a responder has the fields of a prober. *)
Definition Handle (datagram : list byte) (r : Prober) : result PmtuError (list byte) :=
  if (len datagram <? 1200) || (maximum r <? len datagram) then Err ErrInvalid
  else match keyCopy r with
       | Err e => Err e
       | Ok key =>
           match parsePMTUFrame key datagram pmtuFrameRequest (len datagram) with
           | Err e => Err e
           | Ok nonce => buildPMTUFrame key pmtuFrameResponse (len datagram) nonce
           end
       end.

End Pmtu.
