(* ===== verification/PmtuProps.v ===== *)
(** * Path MTU discovery: properties

    The measurement terminates within the number of attempts its policy was
    validated for and finds the path's packet size; the cache stays bounded and
    gives up only its least recently used entry; a probe and its answer pass both
    ends' checks. *)
From S2P Require Import Prelude Codec Sha256 Pmtu.
Import Pmtu.

(** ** The number of attempts *)
Lemma halvings_nonneg f w : 0 <= halvings f w.
Proof. revert w. induction f as [|f IH]; intros w; simpl; [lia|]. case_match; [|lia]. specialize (IH (w / 2)). lia. Qed.

Lemma halvings_mono f a b : a <= b -> halvings f a <= halvings f b.
Proof.
  revert a b. induction f as [|f IH]; intros a b H; simpl; [lia|].
  pose proof (halvings_nonneg f (b / 2)).
  destruct (0 <? a) eqn:Ea, (0 <? b) eqn:Eb; bool_hyps; try lia.
  specialize (IH (a / 2) (b / 2) ltac:(apply Z.div_le_mono; lia)). lia.
Qed.

(** Enough fuel: the count does not depend on it. *)
Lemma halvings_fuel f g w : w < 2 ^ Z.of_nat f -> (f <= g)%nat -> halvings g w = halvings f w.
Proof.
  revert g w. induction f as [|f IH]; intros g w Hw Hg.
  - destruct g as [|g]; simpl; [done|]. destruct (0 <? w) eqn:E; bool_hyps; [|done]. simpl in Hw. lia.
  - destruct g as [|g]; [lia|]. simpl. destruct (0 <? w) eqn:E; [|done]. f_equal. apply IH; [|lia].
    rewrite Nat2Z.inj_succ, Z.pow_succ_r in Hw by lia. apply Z.div_lt_upper_bound; lia.
Qed.

Section attempts.
Variables (prober : Z -> Z -> reply) (policy : PMTUPolicy).

Lemma probe_attempts n size m previous m' previous' r :
  probe prober n size m previous = (m', previous', r) ->
  Attempts m <= Attempts m' <= Attempts m + Z.of_nat n.
Proof.
  revert m previous. induction n as [|n IH]; intros m previous; simpl.
  - intros [= <- _ _]. lia.
  - repeat case_match; try (intros [= <- _ _]; simpl; lia).
    intros HH%IH. simpl in HH. lia.
Qed.

(** The two halves an unsuccessful and a successful probe leave. *)
Lemma candidate_bounds low high :
  0 <= low -> low <= high -> high < 65536 ->
  let c := (low + (high - low) / 2) mod 65536 in
  low <= c <= high /\ c = low + (high - low) / 2 /\ high - c <= (high - low + 1) / 2 /\ c - low <= (high - low + 1) / 2.
Proof.
  intros H0 H1 H2 c. pose proof (Z.div_mod (high - low) 2 ltac:(lia)).
  pose proof (Z.mod_pos_bound (high - low) 2 ltac:(lia)).
  pose proof (Z.div_mod (high - low + 1) 2 ltac:(lia)). pose proof (Z.mod_pos_bound (high - low + 1) 2 ltac:(lia)).
  assert (c = low + (high - low) / 2) as -> by (unfold c; apply Z.mod_small; lia). lia.
Qed.

Lemma search_attempts fuel low high m previous m' r :
  0 <= SuccessesPerSize policy -> 0 < low -> high < 65536 -> high - low + 1 < 2 ^ Z.of_nat fuel ->
  search prober policy (S fuel) low high m previous = (m', r) ->
  Attempts m <= Attempts m' <= Attempts m + halvings fuel (high - low + 1) * SuccessesPerSize policy /\
  (r = Ok tt -> Complete m' = true).
Proof.
  intros HS. revert low high m previous. induction fuel as [|fuel IH]; intros low high m previous Hl Hh Hn.
  - simpl in Hn. simpl. rewrite (proj2 (Z.leb_gt low high)) by lia. intros [= <- <-]. simpl. lia.
  - remember (S fuel) as f eqn:Ef. simpl. destruct (low <=? high) eqn:El; bool_hyps.
    2: { intros [= <- <-]. simpl. pose proof (halvings_nonneg f (high - low + 1)). split; [nia|done]. }
    destruct (candidate_bounds low high) as (Hc&_&Hc1&Hc2); [lia..|].
    set (c := (low + (high - low) / 2) mod 65536) in *.
    destruct (probeSize prober policy c m previous) as [[m1 p1] [ok|e]] eqn:EP;
      apply probe_attempts in EP; rewrite Z2Nat.id in EP by lia.
    + subst f. assert (HN : halvings (S fuel) (high - low + 1) = 1 + halvings fuel ((high - low + 1) / 2)).
      { simpl. by rewrite (proj2 (Z.ltb_lt _ _)) by lia. }
      rewrite Nat2Z.inj_succ, Z.pow_succ_r in Hn by lia.
      pose proof (Z.div_lt_upper_bound (high - low + 1) 2 (2 ^ Z.of_nat fuel) ltac:(lia) ltac:(lia)).
      destruct ok; intros HR.
      * apply IH in HR as [HR Hok]; [|lia..]. simpl in HR. rewrite HN. split; [|done].
        pose proof (halvings_mono fuel (high - (c + 1) + 1) ((high - low + 1) / 2) ltac:(lia)). nia.
      * apply IH in HR as [HR Hok]; [|lia..]. rewrite HN. split; [|done].
        pose proof (halvings_mono fuel (c - 1 - low + 1) ((high - low + 1) / 2) ltac:(lia)). nia.
    + intros [= <- <-]. split; [|done].
      assert (1 <= halvings f (high - low + 1)).
      { subst f. simpl. rewrite (proj2 (Z.ltb_lt _ _)) by lia. pose proof (halvings_nonneg fuel ((high - low + 1) / 2)). lia. }
      nia.
Qed.

Lemma validate_spec :
  validate policy = true ->
  1200 <= MinimumPayload policy <= MaximumPayload policy /\ 3 <= SuccessesPerSize policy <= 16 /\
  0 < ProbeTimeout policy /\ 1 <= MaximumPaths policy <= 4096 /\ 0 < CacheTTL policy /\
  maximumAttempts policy * ProbeTimeout policy <= TotalTimeout policy.
Proof.
  unfold validate. case_match eqn:E1; [done|]. case_match eqn:E2; [done|]. bool_hyps. lia.
Qed.

(** C40: whatever the prober answers, a measurement under a validated policy makes
    at most the number of attempts the policy's time budget was checked for, so
    that their timeouts add up to no more than the total timeout; it always
    returns, and with a complete measurement when it does not fail. *)
Theorem pmtu_attempts_bounded m r :
  validate policy = true -> MaximumPayload policy < 65536 ->
  Measure prober policy = (m, r) ->
  Attempts m <= maximumAttempts policy /\ Attempts m * ProbeTimeout policy <= TotalTimeout policy /\
  (r = Ok tt -> Complete m = true).
Proof.
  intros HV Hmax. destruct (validate_spec HV) as (Hmin&HS&Hp&_&_&Htot). unfold Measure.
  pose proof (halvings_nonneg 17 (MaximumPayload policy - MinimumPayload policy)) as H0.
  assert (Hall : Attempts m <= maximumAttempts policy -> Attempts m * ProbeTimeout policy <= TotalTimeout policy).
  { intros Ha. etransitivity; [|exact Htot]. apply Z.mul_le_mono_nonneg_r; lia. }
  destruct (probeSize prober policy (MinimumPayload policy) _ 0) as [[m1 p1] [ok|e]] eqn:EP;
    apply probe_attempts in EP; rewrite Z2Nat.id in EP by lia; simpl in EP.
  - destruct ok; intros H.
    + apply search_attempts in H as [H Hok]; [|lia..|change (2 ^ Z.of_nat 17) with 131072; lia].
      cbn -[halvings] in H.
      replace (MaximumPayload policy - (MinimumPayload policy + 1) + 1)
        with (MaximumPayload policy - MinimumPayload policy) in H by lia.
      assert (Attempts m <= maximumAttempts policy) by (unfold maximumAttempts, rounds; lia).
      auto.
    + injection H as <- <-. cbn -[halvings] in *.
      assert (Attempts m1 <= maximumAttempts policy) by (unfold maximumAttempts, rounds; clear Hall Htot; nia). auto.
  - intros [= <- <-].
    assert (Attempts m1 <= maximumAttempts policy) by (unfold maximumAttempts, rounds; nia).
    split_and!; auto. done.
Qed.

End attempts.

Lemma pmtu_attempts_bounded_witness :
  exists m r, Measure (fun size i => mkReply false false (size <=? 1300) (i + 1)) DevelopmentPMTUPolicy = (m, r) /\
    Attempts m <= maximumAttempts DevelopmentPMTUPolicy.
Proof.
  eexists _, _. split; [vm_compute; reflexivity|].
  apply (pmtu_attempts_bounded (fun size i => mkReply false false (size <=? 1300) (i + 1)) DevelopmentPMTUPolicy _ (Ok tt));
    vm_compute; reflexivity.
Defined.

(** ** The measured size *)
Section honest.
Variables (policy : PMTUPolicy) (limit : Z) (clock : Z -> Z).
Hypothesis Hclock : forall i, 0 <= i -> 0 < clock i < clock (i + 1).

(** A path that carries exactly the payloads up to [limit]. *)
Definition path (size i : Z) : reply := mkReply false false (size <=? limit) (clock i).

Definition same_size (m m' : PMTUMeasurement) : Prop :=
  PacketSize m' = PacketSize m /\ Eligible m' = Eligible m /\ Complete m' = Complete m.

Lemma probe_path n size m previous :
  0 <= Attempts m -> previous < clock (Attempts m) -> (0 < n)%nat ->
  exists m' previous', probe path n size m previous = (m', previous', Ok (size <=? limit)) /\
    0 <= Attempts m' /\ previous' < clock (Attempts m') /\ same_size m m' /\ 0 < ObservedAt m'.
Proof.
  revert m previous. induction n as [|n IH]; intros m previous Ha Hp Hn; [lia|].
  pose proof (Hclock _ Ha) as [Hc1 Hc2]. cbn -[path]. simpl path.
  unfold path at 1 2. simpl. rewrite (proj2 (Z.eqb_neq _ 0)), (proj2 (Z.ltb_lt previous _)) by lia.
  rewrite andb_false_r. simpl. unfold path at 1. simpl.
  destruct (size <=? limit) eqn:Es; simpl.
  - destruct n as [|n].
    + eexists _, _. split; [reflexivity|]. simpl. split_and!; try done; lia.
    + destruct (IH ((m <| Attempts := Attempts m + 1 |>) <| ObservedAt := clock (Attempts m) |>) (clock (Attempts m)))
        as (m'&p'&HP&?&?&?&?); [simpl; lia..|].
      exists m', p'. split; [exact HP|]. done.
  - eexists _, _. split; [reflexivity|]. simpl. split_and!; try done; lia.
Qed.

Lemma search_path fuel low high m previous :
  0 < SuccessesPerSize policy -> 0 < low -> high < 65536 -> high - low + 1 < 2 ^ Z.of_nat fuel ->
  0 <= Attempts m -> previous < clock (Attempts m) ->
  PacketSize m = low - 1 -> low - 1 <= Z.min limit (MaximumPayload policy) <= Z.max (low - 1) high ->
  Eligible m = true -> high <= MaximumPayload policy -> (low <= high + 1) ->
  exists m', search path policy (S fuel) low high m previous = (m', Ok tt) /\ Complete m' = true /\
    Eligible m' = true /\ PacketSize m' = Z.min limit (MaximumPayload policy).
Proof.
  intros HS. revert low high m previous.
  induction fuel as [|fuel IH]; intros low high m previous Hl Hh Hn Ha Hp Hps Hr He Hm Hlh.
  - simpl in Hn. simpl. rewrite (proj2 (Z.leb_gt low high)) by lia. eexists. split; [reflexivity|]. simpl.
    split_and!; try done. lia.
  - remember (S fuel) as f. simpl. destruct (low <=? high) eqn:El; bool_hyps.
    2: { eexists. split; [reflexivity|]. simpl. split_and!; try done. lia. }
    destruct (candidate_bounds low high) as (Hc&_&Hc1&Hc2); [lia..|].
    set (c := (low + (high - low) / 2) mod 65536) in *.
    destruct (probe_path (Z.to_nat (SuccessesPerSize policy)) c m previous Ha Hp ltac:(lia))
      as (m1&p1&HP&Ha1&Hp1&(Hs1&He1&_)&_).
    unfold probeSize. rewrite HP. subst f. rewrite Nat2Z.inj_succ, Z.pow_succ_r in Hn by lia.
    pose proof (Z.div_lt_upper_bound (high - low + 1) 2 (2 ^ Z.of_nat fuel) ltac:(lia) ltac:(lia)).
    destruct (c <=? limit) eqn:Ec; bool_hyps; apply IH; simpl; try lia; try congruence.
Qed.

(** On a path that carries exactly the datagrams up to [limit], with a clock
    that advances, a measurement completes, declares the path eligible exactly
    when it carries the minimum, and reports the largest allowed payload the path
    carries. *)
Theorem pmtu_measure_exact :
  validate policy = true -> MaximumPayload policy < 65536 ->
  exists m, Measure path policy = (m, Ok tt) /\ Complete m = true /\
    Eligible m = (MinimumPayload policy <=? limit) /\
    PacketSize m = (if MinimumPayload policy <=? limit then Z.min limit (MaximumPayload policy) else 0).
Proof.
  intros HV Hmax. destruct (validate_spec _ HV) as (Hmin&HS&_). unfold Measure, probeSize.
  destruct (probe_path (Z.to_nat (SuccessesPerSize policy)) (MinimumPayload policy) (mkMeasurement false false 0 0 0) 0)
    as (m1&p1&HP&Ha1&Hp1&(Hs1&He1&Hc1)&_); [simpl; lia| |lia|].
  { simpl. pose proof (Hclock 0 ltac:(lia)). lia. }
  rewrite HP. destruct (MinimumPayload policy <=? limit) eqn:El; bool_hyps.
  - apply search_path; simpl; try lia; try done.
  - eexists. split; [reflexivity|]. simpl. by rewrite Hs1, He1.
Qed.

End honest.

Lemma pmtu_measure_exact_witness :
  exists m, Measure (path 1337 (fun i => i + 1)) DevelopmentPMTUPolicy = (m, Ok tt) /\
    Complete m = true /\ Eligible m = true /\ PacketSize m = 1337.
Proof.
  apply (pmtu_measure_exact DevelopmentPMTUPolicy 1337 (fun i => i + 1)); [lia|reflexivity|reflexivity].
Defined.

(** ** The cache *)
Definition cache_ok (c : PMTUCache) : Prop :=
  validate (cpolicy c) = true /\ Z.of_nat (size (items c)) <= MaximumPaths (cpolicy c).

Lemma oldest_found iter k0 t0 :
  exists k t, oldest iter (Some (k0, t0)) = Some k /\ t <= t0 /\
    (k = k0 /\ t = t0 \/ exists e, (k, e) ∈ iter /\ t = lastUsed e) /\
    forall k' e', (k', e') ∈ iter -> t <= lastUsed e'.
Proof.
  revert k0 t0. induction iter as [|[k e] iter IH]; intros k0 t0; simpl.
  - exists k0, t0. split_and!; auto; [lia|]. intros k' e' Hin. by apply elem_of_nil in Hin.
  - destruct (lastUsed e <? t0) eqn:E; bool_hyps.
    + destruct (IH k (lastUsed e)) as (k1&t1&HO&Hle&Hwho&Hmin). exists k1, t1. split_and!; [done|lia| |].
      * right. destruct Hwho as [[-> ->]|(e1&Hin&->)]; [exists e; split; [left|done]|exists e1; split; [by right|done]].
      * intros k' e' [[= -> ->]|Hin]%elem_of_cons; [lia|eauto].
    + destruct (IH k0 t0) as (k1&t1&HO&Hle&Hwho&Hmin). exists k1, t1. split_and!; [done|lia| |].
      * destruct Hwho as [[-> ->]|(e1&Hin&->)]; [by left|right; exists e1; split; [by right|done]].
      * intros k' e' [[= -> ->]|Hin]%elem_of_cons; [lia|eauto].
Qed.

(** The eviction loop picks an entry that was used no later than any other. *)
Lemma oldest_least iter :
  iter <> [] -> exists k e, oldest iter None = Some k /\ (k, e) ∈ iter /\
    forall k' e', (k', e') ∈ iter -> lastUsed e <= lastUsed e'.
Proof.
  destruct iter as [|[k e] iter]; [done|]. intros _. simpl.
  destruct (oldest_found iter k (lastUsed e)) as (k1&t1&HO&Hle&Hwho&Hmin).
  destruct Hwho as [[-> ->]|(e1&Hin&->)].
  - exists k, e. split_and!; [done|by left|]. intros k' e' [[= -> ->]|Hin]%elem_of_cons; [lia|eauto].
  - exists k1, e1. split_and!; [done|by right|]. intros k' e' [[= -> ->]|Hin']%elem_of_cons; [lia|eauto].
Qed.

Definition observationOf (m : PMTUMeasurement) (ttl : Z) : PMTUObservation :=
  mkObservation (Eligible m) (PacketSize m) (ObservedAt m) (ObservedAt m + ttl).

Lemma RecordTTL_cases iter key m ttl c c' :
  RecordTTL iter key m ttl c = (c', Ok tt) ->
  validKey key = true /\ 0 < ttl /\
  let e := mkEntry (observationOf m ttl) (ObservedAt m) in
  (is_Some (items c !! key) /\ c' = mkCache (cpolicy c) (<[key := e]> (items c))) \/
  (items c !! key = None /\
   c' = mkCache (cpolicy c) (<[key := e]>
     (if MaximumPaths (cpolicy c) <=? Z.of_nat (size (items c))
      then match oldest iter None with Some k => delete k (items c) | None => items c end else items c))).
Proof.
  unfold RecordTTL. destruct (_ || _) eqn:E; [done|]. bool_hyps.
  destruct (items c !! key) as [ex|] eqn:Ek.
  - destruct (oObservedAt _ <? _); simpl; [|intros [=]]. intros [= <-]. split; [done|]. split; [lia|]. left. by split.
  - intros [= <-]. split; [done|]. split; [lia|]. by right.
Qed.

(** A recorded observation is found by a lookup until it expires; the cache
    never holds more paths than its policy allows; and of the other paths it drops
    at most one, only when it is full, and one that was used no later than any
    that it keeps, whatever order the map is ranged in. *)
Theorem pmtu_cache_record iter key m ttl c c' now :
  cache_ok c -> iter ≡ₚ map_to_list (items c) -> RecordTTL iter key m ttl c = (c', Ok tt) ->
  now <> 0 -> now < ObservedAt m + ttl ->
  cache_ok c' /\ snd (Lookup key now c') = Some (observationOf m ttl) /\
  (forall k, k <> key -> items c' !! k <> items c !! k ->
     Z.of_nat (size (items c)) = MaximumPaths (cpolicy c) /\ items c' !! k = None /\
     exists e, items c !! k = Some e /\
       forall k' e', items c !! k' = Some e' -> lastUsed e <= lastUsed e' /\ (k' <> k -> k' <> key -> items c' !! k' = Some e')).
Proof.
  intros [HV Hsz] Hiter HR Hn0 Hnow.
  destruct (RecordTTL_cases _ _ _ _ _ _ HR) as (Hk&Httl&[[Hin ->]|[Hnone ->]]).
  - split_and!.
    + split; [done|]. simpl. by rewrite map_size_insert_Some.
    + unfold Lookup. rewrite Hk, (proj2 (Z.eqb_neq _ _)) by done. simpl. rewrite lookup_insert_eq. simpl.
      by rewrite (proj2 (Z.ltb_lt _ _)) by lia.
    + intros k Hne. simpl. by rewrite lookup_insert_ne.
  - set (kept := if _ <=? _ then _ else _).
    destruct (validate_spec _ HV) as (_&_&_&Hmp&_).
    assert (Hkept : kept !! key = None /\ Z.of_nat (size kept) < MaximumPaths (cpolicy c) /\
      forall k, kept !! k <> items c !! k -> Z.of_nat (size (items c)) = MaximumPaths (cpolicy c) /\ kept !! k = None /\
       exists e, items c !! k = Some e /\
       forall k' e', items c !! k' = Some e' -> lastUsed e <= lastUsed e' /\ (k' <> k -> kept !! k' = Some e')).
    { unfold kept. destruct (MaximumPaths (cpolicy c) <=? _) eqn:Efull; bool_hyps; [|by split_and!].
      assert (iter <> []).
      { intros ->. apply Permutation_nil_l in Hiter. apply (f_equal length) in Hiter.
        rewrite length_map_to_list in Hiter. simpl in Hiter. lia. }
      destruct (oldest_least iter) as (k0&e0&HO&Hk0&Hmin); [done|]. rewrite HO.
      assert (Hall : forall k' e', items c !! k' = Some e' <-> (k', e') ∈ iter).
      { intros k' e'. by rewrite Hiter, elem_of_map_to_list. }
      pose proof (proj2 (Hall k0 e0) Hk0) as Hk0'.
      split_and!; [by rewrite lookup_delete_None; right| |].
      - rewrite map_size_delete_Some by eauto. lia.
      - intros k Hne. destruct (decide (k = k0)) as [->|Hkk]; [|by rewrite lookup_delete_ne in Hne].
        split_and!; [lia|by rewrite lookup_delete_eq|]. exists e0. split; [done|].
        intros k' e' Hin%Hall. split; [eauto|]. intros Hkk. rewrite lookup_delete_ne by done. by apply Hall. }
    clearbody kept. destruct Hkept as (Hk0&Hks&Hkr). split_and!.
    + split; [done|]. simpl. rewrite map_size_insert_None by done. lia.
    + unfold Lookup. rewrite Hk, (proj2 (Z.eqb_neq _ _)) by done. simpl. rewrite lookup_insert_eq. simpl.
      by rewrite (proj2 (Z.ltb_lt _ _)) by lia.
    + intros k Hne. simpl. rewrite lookup_insert_ne by done. intros Hd. destruct (Hkr k Hd) as (?&?&e&?&He).
      split_and!; [done..|]. exists e. split; [done|]. intros k' e' Hin. destruct (He k' e' Hin) as [? Hkeep].
      split; [done|]. intros Hk1 Hk2. rewrite lookup_insert_ne by done. auto.
Qed.

Definition demoPath (n : Z) : PMTUKey := mkKey (replicate 32 x01) "path" n.
Definition demoMeasured (t : Z) : PMTUMeasurement := mkMeasurement true true 1400 12 t.
Definition demoPolicy : PMTUPolicy := mkPolicy 1200 1452 3 1000000000 30000000000 300000000000 2.
Definition demoCache : PMTUCache :=
  fst (RecordTTL [] (demoPath 2) (demoMeasured 60) 100
    (fst (RecordTTL [] (demoPath 1) (demoMeasured 50) 100 (mkCache demoPolicy ∅)))).

Definition demoRecorded := RecordTTL (map_to_list (items demoCache)) (demoPath 3) (demoMeasured 70) 100 demoCache.

Lemma demoRecorded_ok : demoRecorded = (fst demoRecorded, Ok tt).
Proof.
  assert (H : snd demoRecorded = Ok tt) by (vm_cast_no_check (eq_refl (@Ok PmtuError unit tt))).
  rewrite <- H. apply surjective_pairing.
Qed.

Lemma pmtu_cache_record_witness :
  Z.of_nat (size (items demoCache)) = 2 /\ items (fst demoRecorded) !! demoPath 1 = None /\
  snd (Lookup (demoPath 3) 80 (fst demoRecorded)) = Some (observationOf (demoMeasured 70) 100).
Proof.
  assert (Hs : Z.of_nat (size (items demoCache)) = 2) by (vm_cast_no_check (eq_refl 2)).
  split; [exact Hs|]. split; [vm_cast_no_check (eq_refl (@None pmtuEntry))|].
  apply (pmtu_cache_record (map_to_list (items demoCache)) (demoPath 3) (demoMeasured 70) 100 demoCache _ 80).
  - split; [vm_cast_no_check (eq_refl true)|rewrite Hs].
    assert (Hm : MaximumPaths (cpolicy demoCache) = 2) by (vm_cast_no_check (eq_refl 2)). lia.
  - reflexivity.
  - exact demoRecorded_ok.
  - lia.
  - simpl. lia.
Defined.

(** ** Probe datagrams *)
Lemma parse_build key kind size nonce frame :
  length nonce = 16%nat -> 0 <= size < 65536 -> buildPMTUFrame key kind size nonce = Ok frame ->
  len frame = size /\ parsePMTUFrame key frame kind size = Ok nonce.
Proof.
  intros Hn Hs. unfold buildPMTUFrame. destruct (_ || _) eqn:E; [done|]. bool_hyps.
  set (body := pmtuFrameMagic ++ _). intros Hf. apply Ok_inj in Hf. subst frame.
  assert (H4 : length pmtuFrameMagic = 4%nat) by done.
  pose proof (be_put_length 2 size) as H2.
  assert (Hb : len body = size - 32).
  { unfold body, len, PutUint16, zero_bytes, pmtuTagSize, pmtuHeaderSize in *.
    rewrite !length_app, H2, Hn, H4, length_replicate. simpl length. lia. }
  pose proof (hmac256_length key body) as Hh.
  assert (Hl : len (body ++ hmac256 key body) = size) by (rewrite len_app, Hb; unfold len; rewrite Hh; lia).
  split; [done|]. unfold parsePMTUFrame. rewrite Hl, Z.eqb_refl.
  unfold pmtuTagSize, pmtuHeaderSize in *. rewrite (proj2 (Z.ltb_ge (len key) 32)), (proj2 (Z.ltb_ge size _)) by lia.
  cbn [negb orb]. rewrite <- Hb, zdrop_len_app, ztake_len_app, bool_decide_eq_true_2 by done. cbn [negb].
  assert (Hsub : forall lo hi, (lo <= hi <= 24)%nat -> sub lo hi (body ++ hmac256 key body) = sub lo hi body).
  { intros lo hi Hlh. unfold sub. assert (24 <= length body)%nat by (unfold len in Hb; lia).
    rewrite drop_app_le, take_app_le; [done|rewrite length_drop; lia|lia]. }
  rewrite !Hsub by lia.
  assert (HS6 : sub 6 8 body = PutUint16 size) by (unfold body, PutUint16 in *; take_field).
  assert (HS8 : sub 8 24 body = nonce) by (unfold body, PutUint16 in *; take_field).
  assert (HM : sub 0 4 body = pmtuFrameMagic) by (unfold body; take_field).
  rewrite HS6, HS8, HM. unfold PutUint16. rewrite be_get_put_id by (simpl; lia).
  change (nth 4 (body ++ hmac256 key body) x00) with pmtuFrameVersion.
  change (nth 5 (body ++ hmac256 key body) x00) with kind.
  rewrite !bool_decide_eq_true_2 by done. cbn [negb orb].
  by rewrite (proj2 (Z.eqb_eq _ _)) by lia.
Qed.

(** With a prober and a responder that hold the same key, a request of any
    allowed size reaches the responder's checks, its answer has the size of the
    request and passes the prober's, and the probe reports the size as supported;
    an answer to another probe's nonce is refused. *)
Theorem pmtu_probe_roundtrip key pmax rmax p r size nonce now :
  NewAuthenticatedPMTUProber key pmax = Ok p -> NewAuthenticatedPMTUProber key rmax = Ok r ->
  1200 <= size -> size <= pmax -> size <= rmax -> size < 65536 -> length nonce = 16%nat ->
  exists request response,
    buildPMTUFrame key pmtuFrameRequest size nonce = Ok request /\ len request = size /\
    Handle request r = Ok response /\ len response = size /\
    ProbePayload (fun d => match Handle d r with Ok a => Answer a | Err _ => ExchangeFailed end)
      (Some nonce) false now size p = Ok (true, now) /\
    (forall nonce', length nonce' = 16%nat -> nonce' <> nonce ->
       ProbePayload (fun _ => Answer response) (Some nonce') false now size p = Err ErrNonce).
Proof.
  unfold NewAuthenticatedPMTUProber. intros HP HR Hs Hpm Hrm H16 Hn.
  destruct (_ || _) eqn:EP in HP; [done|]. destruct (_ || _) eqn:ER in HR; [done|].
  injection HP as <-. injection HR as <-. bool_hyps.
  assert (Hok : forall kind n, kind = pmtuFrameRequest \/ kind = pmtuFrameResponse ->
            exists frame, buildPMTUFrame key kind size n = Ok frame).
  { intros kind n Hk. unfold buildPMTUFrame, pmtuHeaderSize, pmtuTagSize.
    rewrite (proj2 (Z.ltb_ge (len key) 32)), (proj2 (Z.ltb_ge size _)) by lia.
    destruct Hk as [-> | ->]; eexists; reflexivity. }
  assert (Hsz : 0 <= size < 65536) by lia.
  destruct (Hok pmtuFrameRequest nonce) as [req Hreq]; [auto|].
  destruct (Hok pmtuFrameResponse nonce) as [resp Hresp]; [auto|].
  destruct (parse_build _ _ _ _ _ Hn Hsz Hreq) as [Lreq Preq].
  destruct (parse_build _ _ _ _ _ Hn Hsz Hresp) as [Lresp Presp].
  assert (HH : Handle req (mkProber rmax key false) = Ok resp).
  { unfold Handle, keyCopy. simpl. rewrite Lreq, (proj2 (Z.ltb_ge _ 1200)), (proj2 (Z.ltb_ge rmax _)) by lia.
    rewrite (proj2 (Z.ltb_ge (len key) 32)) by lia. simpl. by rewrite Preq. }
  exists req, resp. split_and!; try done.
  - unfold ProbePayload, keyCopy. simpl. rewrite (proj2 (Z.ltb_ge size 1200)), (proj2 (Z.ltb_ge pmax _)) by lia.
    rewrite (proj2 (Z.ltb_ge (len key) 32)) by lia. simpl. rewrite Hreq, HH, Presp, bool_decide_eq_true_2 by done. done.
  - intros n' Hn' Hne. destruct (Hok pmtuFrameRequest n') as [req' Hreq']; [auto|].
    unfold ProbePayload, keyCopy. simpl. rewrite (proj2 (Z.ltb_ge size 1200)), (proj2 (Z.ltb_ge pmax _)) by lia.
    rewrite (proj2 (Z.ltb_ge (len key) 32)) by lia. simpl. rewrite Hreq', Presp, bool_decide_eq_false_2 by congruence. done.
Qed.

Lemma pmtu_probe_roundtrip_witness :
  exists request response,
    buildPMTUFrame (replicate 32 x05) pmtuFrameRequest 1200 (replicate 16 x09) = Ok request /\
    len request = 1200 /\
    Handle request (mkProber 1452 (replicate 32 x05) false) = Ok response /\ len response = 1200.
Proof.
  destruct (pmtu_probe_roundtrip (replicate 32 x05) 1452 1452 (mkProber 1452 (replicate 32 x05) false)
    (mkProber 1452 (replicate 32 x05) false) 1200 (replicate 16 x09) 7)
    as (request&response&H1&H2&H3&H4&_); [reflexivity|reflexivity|lia|lia|lia|lia|reflexivity|].
  exists request, response. split; [exact H1|]. split; [exact H2|]. split; [exact H3|exact H4].
Defined.
