(* ===== verification/PasteWord.v ===== *)
(** * Pasted paths

    Models [parseCandidate], [decodePOSIXWord] and the string functions around
    them of [internal/paste/paste.go], on systems other than Windows: how one line
    of a paste is read as the shell spelling of one absolute path.

    [url.Parse] is a parameter: the parts of a parsed URI the code looks at.  A Go
    string is a list of bytes. *)
From S2P Require Import Prelude.
#[local] Set Warnings "-clear-no-such-hyp".

(** ** Bytes *)
Definition newline : byte := x0a.
Definition squote : byte := x27.
Definition dquote : byte := x22.
Definition backslash : byte := x5c.

Definition isByte (a b : byte) : bool := bool_decide (a = b).
Definition oneOf (b : byte) (set : list byte) : bool := existsb (isByte b) set.
#[global] Arguments oneOf : simpl never.
#[global] Arguments isByte : simpl never.

Definition hasPrefix (p l : list byte) : bool := bool_decide (take (length p) l = p).

(** [strings.TrimLeft] and [strings.TrimRight] with an ASCII cutset. *)
Fixpoint TrimLeft (cutset l : list byte) : list byte :=
  match l with
  | b :: rest => if oneOf b cutset then TrimLeft cutset rest else l
  | [] => []
  end.
Definition TrimRight (cutset l : list byte) : list byte := reverse (TrimLeft cutset (reverse l)).

(** [strings.TrimSpace(l) == EmptyString]: nothing but the UTF-8 encodings of the
    runes [unicode.IsSpace] accepts. *)
Definition spaceBytes : list byte := [x09; x0a; x0b; x0c; x0d; x20].
Fixpoint blank (l : list byte) : bool :=
  match l with
  | [] => true
  | a :: l1 =>
      if oneOf a spaceBytes then blank l1
      else
        match l1 with
        | b :: l2 =>
            if isByte a xc2 && oneOf b [x85; xa0] then blank l2
            else
              match l2 with
              | c :: l3 =>
                  if (isByte a xe1 && isByte b x9a && isByte c x80)
                     || (isByte a xe2 && isByte b x80 &&
                         oneOf c [x80; x81; x82; x83; x84; x85; x86; x87; x88; x89; x8a; xa8; xa9; xaf])
                     || (isByte a xe2 && isByte b x81 && isByte c x9f)
                     || (isByte a xe3 && isByte b x80 && isByte c x80)
                  then blank l3 else false
              | [] => false
              end
        | [] => false
        end
  end.

(** [l] after a prefix that reads [pat] when letters are folded; [alt] gives the
    two-byte spelling that the folding also takes for a letter. *)
Definition lower (b : byte) : byte :=
  let z := Z_of_byte b in if (65 <=? z) && (z <=? 90) then byte_of_Z (z + 32) else b.
Fixpoint foldPrefix (alt : byte -> option (byte * byte)) (pat l : list byte) : option (list byte) :=
  match pat, l with
  | [], _ => Some l
  | p :: pat', b :: l1 =>
      if isByte (lower b) p then foldPrefix alt pat' l1
      else match alt p, l1 with
           | Some (u, v), c :: l2 => if isByte b u && isByte c v then foldPrefix alt pat' l2 else None
           | _, _ => None
           end
  | _ :: _, [] => None
  end.

(** [unicode.ToLower] maps U+0130 to [i]; [strings.EqualFold] folds U+017F with [s]. *)
Definition lowerAlt (p : byte) : option (byte * byte) := if isByte p x69 then Some (xc4, xb0) else None.
Definition foldAlt (p : byte) : option (byte * byte) := if isByte p x73 then Some (xc5, xbf) else None.

Definition hasFileScheme (l : list byte) : bool :=
  bool_decide (is_Some (foldPrefix lowerAlt (bytes "file:") l)).
Definition EqualFold (pat l : list byte) : bool :=
  match foldPrefix foldAlt pat l with Some [] => true | _ => false end.

(** ** [decodePOSIXWord]

    The two nested loops over [pos], as one recursion over the rest of the word;
    [quote] is the quote the inner loop is in. *)
Definition dquoteEscapes : list byte := [x24; x60; x22; x5c].
Definition operators : list byte :=
  [x20; x09; x0d; x0a; x24; x60; x7c; x26; x3b; x3c; x3e; x28; x29; x7b; x7d; x7e].
Definition globs : list byte := [x2a; x3f; x5b].

Fixpoint decodeLoop (quote : option byte) (word out : list byte) (glob : bool)
  : option (list byte * bool) :=
  match word with
  | [] => match quote with None => Some (out, glob) | Some _ => None end
  | ch :: rest =>
      match quote with
      | Some q =>
          if isByte ch q then decodeLoop None rest out glob
          else if isByte q dquote && oneOf ch [x24; x60] then None
          else if isByte ch backslash then
            match rest with
            | [] => None
            | next :: rest' =>
                if isByte next newline then None
                else if isByte q dquote && negb (oneOf next dquoteEscapes)
                then decodeLoop quote rest (out ++ [ch]) glob
                else decodeLoop quote rest' (out ++ [next]) glob
            end
          else decodeLoop quote rest (out ++ [ch]) glob
      | None =>
          if oneOf ch [squote; dquote] then decodeLoop (Some ch) rest out glob
          else if isByte ch backslash then
            match rest with
            | [] => None
            | next :: rest' =>
                if isByte next newline then None else decodeLoop None rest' (out ++ [next]) glob
            end
          else if oneOf ch operators then None
          else if oneOf ch globs then decodeLoop None rest (out ++ [ch]) true
          else decodeLoop None rest (out ++ [ch]) glob
      end
  end.

Definition decodePOSIXWord (word : list byte) : option (list byte * bool) := decodeLoop None word [] false.

(** ** [parseCandidate] *)
Record URL := mkURL {
  Scheme : list byte; Host : list byte; RawQuery : list byte; Fragment : list byte; Path : list byte }.

(** [file] is attached by the caller that opens the path. *)
Record pathCandidate := mkCandidate { cpath : list byte; cstart : nat; cend : nat }.

Definition IsAbs (p : list byte) : bool := hasPrefix [x2f] p.
Definition wordCutset : list byte := [x20; x09; x0d].
Definition empty (l : list byte) : bool := bool_decide (l = []).

Section candidate.
Variable urlParse : list byte -> option URL.

(** The path a [file:] URI names. *)
Definition filePath (uri : list byte) : option (list byte) :=
  match urlParse uri with
  | None => None
  | Some u =>
      if negb (EqualFold (bytes "file") (Scheme u))
         || (negb (empty (Host u)) && negb (EqualFold (bytes "localhost") (Host u)))
         || negb (empty (RawQuery u)) || negb (empty (Fragment u)) || empty (Path u)
      then None else Some (Path u)
  end.

Definition parseCandidate (line : list byte) : option pathCandidate :=
  let trimmedLeft := TrimLeft wordCutset line in
  let start := (length line - length trimmedLeft)%nat in
  let trimmed := TrimRight wordCutset trimmedLeft in
  let end_ := (start + length trimmed)%nat in
  if (start =? end_)%nat then None
  else
    match decodePOSIXWord trimmed with
    | None => None
    | Some (localPath, hasUnquotedGlob) =>
        if empty localPath then None
        else
          let path := if hasFileScheme localPath then filePath localPath
                      else if hasUnquotedGlob then None else Some localPath in
          match path with
          | None => None
          | Some p => if IsAbs p then Some (mkCandidate p start end_) else None
          end
    end.
End candidate.

Example decode_mixed : decodePOSIXWord (bytes "/tmp/a\ 'b c'd*") = Some (bytes "/tmp/a b cd*", true).
Proof. vm_compute. reflexivity. Qed.
Example decode_expansion : decodePOSIXWord (bytes "/tmp/$HOME") = None.
Proof. vm_compute. reflexivity. Qed.
Example parse_spaces :
  parseCandidate (fun _ => None) (bytes "  /tmp/x.png ") = Some (mkCandidate (bytes "/tmp/x.png") 2 12).
Proof. vm_compute. reflexivity. Qed.

(** ** What the shell makes of a word

    The value of a word by the quoting rules of the POSIX shell (section 2.2), for
    words without expansions, operators or line continuations. *)
Inductive dquoted : list byte -> list byte -> Prop :=
| dq_nil : dquoted [] []
| dq_plain b q v : oneOf b dquoteEscapes = false -> dquoted q v -> dquoted (b :: q) (b :: v)
| dq_escape b q v : oneOf b dquoteEscapes = true -> dquoted q v -> dquoted (backslash :: b :: q) (b :: v)
| dq_backslash b q v : oneOf b (newline :: dquoteEscapes) = false ->
    dquoted (b :: q) v -> dquoted (backslash :: b :: q) (backslash :: v).

Definition special (b : byte) : bool := oneOf b ([squote; dquote; backslash] ++ operators).

Inductive word_value : list byte -> list byte -> Prop :=
| wv_nil : word_value [] []
| wv_plain b w v : special b = false -> word_value w v -> word_value (b :: w) (b :: v)
| wv_escape b w v : b <> newline -> word_value w v -> word_value (backslash :: b :: w) (b :: v)
| wv_single q w v : squote ∉ q -> word_value w v -> word_value (squote :: q ++ squote :: w) (q ++ v)
| wv_double q u w v : dquoted q u -> word_value w v ->
    word_value (dquote :: q ++ dquote :: w) (u ++ v).
#[local] Hint Constructors dquoted word_value : core.

Lemma oneOf_In b l : oneOf b l = true <-> b ∈ l.
Proof.
  unfold oneOf. rewrite existsb_exists. setoid_rewrite bool_decide_eq_true.
  rewrite list_elem_of_In. split; [intros (c & ? & ->); done|eauto].
Qed.

Lemma oneOf_not b l : oneOf b l = false <-> b ∉ l.
Proof. rewrite <- oneOf_In. by destruct (oneOf b l). Qed.

(** What a loop that has come to [w] with [quote] open still reads. *)
Definition rest_value (quote : option byte) (w v : list byte) : Prop :=
  match quote with
  | None => word_value w v
  | Some c =>
      exists q u w' v', w = q ++ c :: w' /\ v = u ++ v' /\ word_value w' v' /\
        (if isByte c dquote then dquoted q u else q = u /\ squote ∉ q)
  end.

Definition quote_ok (quote : option byte) : Prop :=
  match quote with None => True | Some c => c = squote \/ c = dquote end.

(** A word with both single quotes and backslashes is where the code and the shell
    can differ. *)
Definition quotesApart (quote : option byte) (w : list byte) : Prop :=
  (quote = Some squote \/ squote ∈ w) -> backslash ∉ w.

Lemma quotesApart_tail quote quote' b w :
  quotesApart quote (b :: w) -> (quote' = Some squote -> quote = Some squote \/ b = squote) ->
  quotesApart quote' w.
Proof.
  unfold quotesApart. intros H Hq Hw. rewrite not_elem_of_cons in H.
  apply H. rewrite elem_of_cons. destruct Hw as [Hw|Hw]; [|auto]. destruct (Hq Hw); auto.
Qed.

Ltac bytes_split :=
  repeat match goal with
  | H : isByte _ _ = true |- _ => apply bool_decide_eq_true_1 in H
  | H : isByte _ _ = false |- _ => apply bool_decide_eq_false_1 in H
  | H : oneOf _ _ = true |- _ => apply oneOf_In in H
  | H : oneOf _ _ = false |- _ => apply oneOf_not in H
  end.

(** Soundness of the loop on words up to [n] bytes, by induction on [n]. *)
Definition sound_upto (n : nat) : Prop := forall quote w out g r g',
  (length w <= n)%nat -> quote_ok quote -> quotesApart quote w ->
  decodeLoop quote w out g = Some (r, g') ->
  exists v, r = out ++ v /\ rest_value quote w v.

Lemma sound_quoted n c ch rest out g r g' :
  sound_upto n -> (length rest <= n)%nat -> quote_ok (Some c) -> quotesApart (Some c) (ch :: rest) ->
  decodeLoop (Some c) (ch :: rest) out g = Some (r, g') ->
  exists v, r = out ++ v /\ rest_value (Some c) (ch :: rest) v.
Proof.
  intros IH Hn Hq Ha E. simpl in E.
  assert (Ht : quotesApart (Some c) rest) by (eapply quotesApart_tail; [exact Ha|by left]).
  destruct (isByte ch c) eqn:Ec.
  { bytes_split. subst ch. apply IH in E as (v & -> & Hv);
      [|lia|done|eapply quotesApart_tail; [exact Ha|done]].
    exists v. split; [done|]. exists [], [], rest, v. split_and!; [done..|].
    destruct (isByte c dquote); [auto|]. split; [done|apply not_elem_of_nil]. }
  destruct (isByte c dquote && oneOf ch [x24; x60]) eqn:Ed; [done|].
  destruct (isByte ch backslash) eqn:Eb.
  - assert (Hc : isByte c dquote = true).
    { apply bool_decide_eq_true. destruct Hq as [->|]; [|done]. bytes_split. subst ch.
      exfalso. apply (Ha (or_introl eq_refl)). left. }
    rewrite Hc in E. cbn [andb] in E. destruct rest as [|next rest']; [done|].
    destruct (isByte next newline) eqn:En; [done|]. simpl in Hn.
    destruct (oneOf next dquoteEscapes) eqn:Ee; cbn [negb] in E;
      apply IH in E as (v & -> & q & u & w' & v' & Er & -> & Hw & Hd);
      try done; try (simpl; lia); try (eapply quotesApart_tail; [exact Ht|by left]);
      rewrite <- app_assoc; (eexists; split; [done|]); bytes_split; subst ch c.
    + subst rest'. exists (backslash :: next :: q), (next :: u), w', v'.
      split_and!; [done..|]. apply dq_escape; [by apply oneOf_In|done].
    + destruct q as [|b q]; simplify_eq/=; [by destruct Ee; apply oneOf_In|].
      exists (backslash :: b :: q), (backslash :: u), w', v'. split_and!; [done..|].
      apply dq_backslash; [|done]. apply oneOf_not. by apply not_elem_of_cons.
  - apply IH in E as (v & -> & q & u & w' & v' & -> & -> & Hw & Hd); [|lia|done..].
    rewrite <- app_assoc. eexists; split; [done|].
    exists (ch :: q), (ch :: u), w', v'. split_and!; [done..|].
    destruct (isByte c dquote) eqn:Hc; cbn [andb] in Ed; bytes_split.
    + subst c. apply dq_plain; [|done]. apply oneOf_not. set_solver.
    + destruct Hd as [-> Hd]. split; [done|]. destruct Hq as [->|]; [set_solver|done].
Qed.

Lemma sound_unquoted n ch rest out g r g' :
  sound_upto n -> (length rest <= n)%nat -> quotesApart None (ch :: rest) ->
  decodeLoop None (ch :: rest) out g = Some (r, g') ->
  exists v, r = out ++ v /\ word_value (ch :: rest) v.
Proof.
  intros IH Hn Ha E. simpl in E.
  assert (Ht : quotesApart None rest) by (eapply quotesApart_tail; [exact Ha|done]).
  destruct (oneOf ch [squote; dquote]) eqn:Eq.
  { apply IH in E as (v & -> & q & u & w' & v' & -> & -> & Hw & Hd); [|lia| |].
    2: { bytes_split. simpl. set_solver. }
    2: { eapply quotesApart_tail; [exact Ha|]. intros [= ->]. by right. }
    eexists; split; [done|]. destruct (isByte ch dquote) eqn:Hc; bytes_split.
    - subst ch. by apply wv_double.
    - destruct Hd as [-> Hd]. assert (ch = squote) as -> by set_solver. by apply wv_single. }
  destruct (isByte ch backslash) eqn:Eb.
  - destruct rest as [|next rest']; [done|]. destruct (isByte next newline) eqn:En; [done|].
    simpl in Hn. apply IH in E as (v & -> & Hv); [|lia|done|eapply quotesApart_tail; [exact Ht|done]].
    rewrite <- app_assoc. eexists; split; [done|]. bytes_split. subst ch. by apply wv_escape.
  - destruct (oneOf ch operators) eqn:Eo; [done|].
    assert (Hs : special ch = false) by (bytes_split; apply oneOf_not; set_solver).
    destruct (oneOf ch globs); apply IH in E as (v & -> & Hv); try done; try lia;
      rewrite <- app_assoc; eexists; (split; [done|]); by apply wv_plain.
Qed.

Lemma decodeLoop_sound n : sound_upto n.
Proof.
  induction n as [|n IH]; intros quote [|ch rest] out g r g' Hn Hq Ha E; simpl in Hn; try lia;
    try (destruct quote; simplify_eq/=; exists []; by rewrite app_nil_r).
  destruct quote as [c|].
  - eapply sound_quoted; eauto with lia.
  - eapply sound_unquoted; eauto with lia.
Qed.

(** ** Completeness *)

Lemma decode_dquoted q u : dquoted q u -> forall w out g,
  decodeLoop (Some dquote) (q ++ dquote :: w) out g = decodeLoop None w (out ++ u) g.
Proof.
  induction 1 as [|b q u Hb _ IH|b q u Hb _ IH|b q u Hb _ IH]; intros w out g; simpl.
  - by rewrite app_nil_r.
  - assert (isByte b dquote = false /\ oneOf b [x24; x60] = false /\ isByte b backslash = false)
      as (-> & -> & ->).
    { bytes_split. split_and!; [apply bool_decide_eq_false|apply oneOf_not|apply bool_decide_eq_false]; set_solver. }
    simpl. rewrite IH. by rewrite <- app_assoc.
  - assert (isByte b newline = false) as ->.
    { bytes_split. apply bool_decide_eq_false. intros ->. set_solver. }
    rewrite Hb. simpl. rewrite IH. by rewrite <- app_assoc.
  - assert (isByte b newline = false /\ oneOf b dquoteEscapes = false) as (-> & ->).
    { bytes_split. split; [apply bool_decide_eq_false|apply oneOf_not]; set_solver. }
    change (decodeLoop (Some dquote) ((b :: q) ++ dquote :: w) (out ++ [backslash]) g =
            decodeLoop None w (out ++ backslash :: u) g).
    rewrite IH. by rewrite <- app_assoc.
Qed.

Lemma decode_squoted q : squote ∉ q -> backslash ∉ q -> forall w out g,
  decodeLoop (Some squote) (q ++ squote :: w) out g = decodeLoop None w (out ++ q) g.
Proof.
  induction q as [|b q IH]; intros Hq Hb w out g; [by rewrite app_nil_r|]. simpl.
  apply not_elem_of_cons in Hq as [Hq1 Hq], Hb as [Hb1 Hb].
  unfold isByte. rewrite !bool_decide_false by done. simpl. rewrite IH by done. by rewrite <- app_assoc.
Qed.

Lemma decode_complete w v : word_value w v -> quotesApart None w -> forall out g,
  exists g', decodeLoop None w out g = Some (out ++ v, g').
Proof.
  induction 1 as [|b w v Hb _ IH|b w v Hb _ IH|q w v Hq _ IH|q u w v Hd _ IH]; intros Ha out g; simpl.
  - exists g. by rewrite app_nil_r.
  - assert (oneOf b [squote; dquote] = false /\ isByte b backslash = false /\ oneOf b operators = false)
      as (-> & -> & ->).
    { unfold special in Hb. bytes_split.
      split_and!; [apply oneOf_not|apply bool_decide_eq_false|apply oneOf_not]; set_solver. }
    assert (Ht : quotesApart None w) by (eapply quotesApart_tail; [exact Ha|done]).
    destruct (oneOf b globs); edestruct (IH Ht) as [g' ->]; rewrite <- app_assoc; eauto.
  - assert (isByte b newline = false) as -> by (by apply bool_decide_eq_false).
    edestruct IH as [g' ->]; [|rewrite <- app_assoc; eauto].
    apply (quotesApart_tail None None b); [|done]. by apply (quotesApart_tail None None backslash).
  - assert (Hb : backslash ∉ squote :: q ++ squote :: w) by (apply Ha; right; left).
    rewrite decode_squoted by set_solver. edestruct IH as [g' ->]; [|rewrite <- app_assoc; eauto].
    intros _. set_solver.
  - rewrite (decode_dquoted _ _ Hd). edestruct IH as [g' ->]; [|rewrite <- app_assoc; eauto].
    intros [|Hw]; [done|]. unfold quotesApart in Ha. set_solver.
Qed.

(** On words that do not mix single quotes and backslashes, the decoder
    accepts exactly the words whose value the shell's quoting rules give without
    expansion, and returns that value.  Where both occur it can differ: inside
    single quotes the shell keeps a backslash, the decoder drops it. *)
Theorem decode_is_posix (w v : list byte) :
  ((squote ∈ w -> backslash ∉ w) ->
   (exists g, decodePOSIXWord w = Some (v, g)) <-> word_value w v) /\
  (exists w' v', word_value w' v' /\ decodePOSIXWord w' = Some (bytes "/tmp/ab.png", false) /\
     v' = bytes "/tmp/a\b.png").
Proof.
  split.
  - intros Ha. assert (Ha' : quotesApart None w) by (intros [|]; [done|auto]).
    split.
    + intros [g E]. unfold decodePOSIXWord in E.
      by apply (decodeLoop_sound (length w)) in E as (v' & -> & Hv).
    + intros Hv. by apply (decode_complete _ _ Hv Ha' []).
  - exists (squote :: bytes "/tmp/a\b.png" ++ [squote]), (bytes "/tmp/a\b.png" ++ []).
    split_and!; [|vm_compute; reflexivity|by rewrite app_nil_r].
    apply wv_single; [|apply wv_nil]. by apply oneOf_not; vm_compute.
Qed.
