(* ===== verification/PasteStream.v ===== *)
(** * The bracketed-paste interceptor

    Models [Interceptor] of [internal/paste/paste.go]: the writer between the
    keyboard and the remote terminal that recognises bracketed pastes, holds back
    those that are local file paths while the files are uploaded, and forwards
    everything else.

    [Interceptor] holds the object's fields and the local variables of its worker
    [run]; [worker] is where the worker is between two points at which another
    goroutine can act (a channel operation, the acquisition of [stateMu], a write of
    a completed upload).  One goroutine writes: [writing] is what is left of its
    current [Write].  Which files exist, the policy at each paste, what [url.Parse]
    and the destination return and when timers fire are the environment's. *)
From S2P Require Import Prelude PasteWord.
#[local] Set Warnings "-clear-no-such-hyp".

Definition startMarker : list byte := x1b :: bytes "[200~".
Definition endMarker : list byte := x1b :: bytes "[201~".

(** [bytes.Index]. *)
Fixpoint Index (pat l : list byte) : option nat :=
  if hasPrefix pat l then Some 0%nat
  else match l with [] => None | _ :: l' => S <$> Index pat l' end.

Definition Contains (l pat : list byte) : bool := bool_decide (is_Some (Index pat l)).

(** The loop of [partialSuffix], from the longest candidate down. *)
Fixpoint partialLoop (n : nat) (l marker : list byte) : nat :=
  match n with
  | O => 0
  | S m => if bool_decide (drop (length l - n) l = take n marker) then n else partialLoop m l marker
  end.
Definition partialSuffix (l marker : list byte) : nat :=
  partialLoop (Nat.min (length marker - 1) (length l)) l marker.

(** [strings.Split] and [strings.Join] with a newline. *)
Fixpoint Split (l : list byte) : list (list byte) :=
  match l with
  | [] => [[]]
  | b :: l' =>
      if isByte b newline then [] :: Split l'
      else match Split l' with [] => [[b]] | h :: t => (b :: h) :: t end
  end.
Fixpoint Join (lines : list (list byte)) : list byte :=
  match lines with
  | [] => []
  | [l] => l
  | l :: rest => l ++ newline :: Join rest
  end.

Inductive LifecycleEvent := FileDetected | FileUploading | FileComplete | FileFailed.
Inductive Notice := QueueFull | TooManyFiles | TransferUnavailable | UploadFailed.

(** What a write to the destination reports; [WUncertain] is
    [tunnel.ErrWriteUncertain]. *)
Inductive WriteResult := WOk | WUncertain | WFatal.
Inductive PasteError := ErrClosedPipe | Canceled | ErrDest | ErrUncertain.

(** [transferLimits.MaxBatchFiles], and whether a [BatchUploader] is set. *)
Record Policy := mkPolicy { transfer : bool; MaxBatchFiles : Z }.

Record Config := mkConfig {
  directInput : bool; flushDelay : Z; queueChunkSize : nat; queueChunks : nat }.

Record uploadCompletion := mkCompletion { kseq : Z; framed : list byte; kerr : bool }.

(** A goroutine in [uploadAsync]. *)
Record Upload := mkUpload {
  useq : Z; ubody : list byte; ulines : list (list byte);
  ucandidates : list (option pathCandidate); unonEmpty : Z }.

Inductive Worker :=
| WSelect
| WTook (p : list byte)                             (* received, [stateMu] not yet held *)
| WDraining (k : uploadCompletion)                  (* in [drainAcceptedInput] *)
| WDrained (k : uploadCompletion) (p : list byte)   (* received there, [stateMu] not yet held *)
| WPublish                                          (* in the loop over [completionBuffer] *)
| WDone.

(** What reaches the destination, with the pastes that are held back in their
    place in the stream. *)
Inductive Out := OText (b : list byte) | OHold (n : Z) (body : list byte) | OPaste (n : Z) (f : list byte).

Record Interceptor := mkInterceptor {
  buf : list byte; inPaste : bool; queue : list (list byte); queued : Z;
  pendingUploads : Z; uploadSeq : Z; closed : bool; err : option PasteError; ctxDone : bool;
  inputClosed : bool; timerArmed : bool; completed : list uploadCompletion;
  completionBuffer : gmap Z uploadCompletion; nextCompletion : Z; worker : Worker;
  uploads : list Upload; writing : list byte; pressured : bool;
  pastes : nat; attempts : nat; log : list Out; accepted : list byte;
  events : list LifecycleEvent; notices : list Notice }.
#[export] Instance Interceptor_eta : Eta Interceptor := fun i =>
  mkInterceptor (buf i) (inPaste i) (queue i) (queued i) (pendingUploads i) (uploadSeq i) (closed i)
    (err i) (ctxDone i) (inputClosed i) (timerArmed i) (completed i) (completionBuffer i)
    (nextCompletion i) (worker i) (uploads i) (writing i) (pressured i) (pastes i) (attempts i)
    (log i) (accepted i) (events i) (notices i).

Definition NewWithPolicy : Interceptor :=
  mkInterceptor [] false [] 0 0 0 false None false false false [] ∅ 0 WSelect [] [] false 0 0 [] [] [] [].

Definition report (e : LifecycleEvent) (i : Interceptor) : Interceptor := i <| events := events i ++ [e] |>.
Definition warn (n : Notice) (i : Interceptor) : Interceptor := i <| notices := notices i ++ [n] |>.

Definition setError (e : option PasteError) (i : Interceptor) : Interceptor :=
  match e, err i with Some _, None => i <| err := e |> | _, _ => i end.

Definition Discard (i : Interceptor) : Interceptor := i <| buf := [] |> <| inPaste := false |>.
Definition Abort (i : Interceptor) : Interceptor := setError (Some Canceled) i <| ctxDone := true |>.

(** The paste as it goes out. *)
Definition frame (body : list byte) : list byte := startMarker ++ body ++ endMarker.

Section interceptor.
Variables (config : Config) (urlParse : list byte -> option URL)
  (openLocalFile : nat -> list byte -> bool)   (* at the [n]-th paste *)
  (policyAt : nat -> Policy)
  (answer : nat -> WriteResult).               (* to the [n]-th write *)

(** [writeDest]: what is written goes to the log when the destination took it. *)
Definition writeDest (o : Out) (i : Interceptor) : Interceptor * WriteResult :=
  let r := answer (attempts i) in
  let i1 := i <| attempts := S (attempts i) |> in
  (match r with WOk => i1 <| log := log i ++ [o] |> | _ => i1 end, r).

Definition flush (i : Interceptor) : Interceptor * WriteResult :=
  if bool_decide (buf i = []) && negb (inPaste i) then (i, WOk)
  else
    let out := (if inPaste i then startMarker else []) ++ buf i in
    writeDest (OText out) (i <| buf := [] |> <| inPaste := false |>).

(** The loop of [rewrite] over the lines: [None] when a line is not a local file. *)
Fixpoint scanLines (lines : list (list byte)) (i : Interceptor)
  : Interceptor * option (list (option pathCandidate)) :=
  match lines with
  | [] => (i, Some [])
  | ln :: rest =>
      if blank ln then
        let '(i1, r) := scanLines rest i in (i1, (fun cs => None :: cs) <$> r)
      else
        match parseCandidate urlParse ln with
        | None => (i, None)
        | Some c =>
            if openLocalFile (pastes i) (cpath c) then
              let '(i1, r) := scanLines rest (report FileDetected i) in
              (i1, (fun cs => Some c :: cs) <$> r)
            else (i, None)
        end
  end.

(** [None] for a paste that is being uploaded, else the body to emit.  [pastes]
    counts the calls. *)
Definition rewrite_ (body : list byte) (i0 : Interceptor) : Interceptor * option (list byte) :=
  let lines := Split body in
  let '(i1, r) := scanLines lines i0 in
  let policy := policyAt (pastes i0) in
  let i := i1 <| pastes := S (pastes i1) |> in
  match r with
  | None => (i, Some body)
  | Some candidates =>
      let nonEmpty := len (omap id candidates) in
      if (nonEmpty =? 0) then (i, Some body)
      else if (0 <? MaxBatchFiles policy) && (MaxBatchFiles policy <? nonEmpty)
      then (warn TooManyFiles i, Some body)
      else if transfer policy then
        let i2 := report FileUploading i in
        let seq := uploadSeq i2 in
        (i2 <| pendingUploads := pendingUploads i2 + 1 |> <| uploadSeq := seq +64 1 |>
            <| uploads := uploads i2 ++ [mkUpload seq body lines candidates nonEmpty] |>
            <| log := log i2 ++ [OHold seq body] |>, None)
      else (warn TransferUnavailable i, Some body)
  end.

(** One round of [drain]: [true] when a marker was consumed. *)
Definition drainNormal (i : Interceptor) : Interceptor * (bool * WriteResult) :=
  match Index startMarker (buf i) with
  | None =>
      let keep := partialSuffix (buf i) startMarker in
      let n := (length (buf i) - keep)%nat in
      let '(i1, r) := if (0 <? n)%nat then writeDest (OText (take n (buf i))) i else (i, WOk) in
      match r with
      | WOk => (i1 <| buf := drop n (buf i) |>, (false, WOk))
      | _ => (i1, (false, r))
      end
  | Some idx =>
      let '(i1, r) := if (0 <? idx)%nat then writeDest (OText (take idx (buf i))) i else (i, WOk) in
      match r with
      | WOk => (i1 <| buf := drop (idx + length startMarker) (buf i) |> <| inPaste := true |>, (true, WOk))
      | _ => (i1, (false, r))
      end
  end.

Definition drainPaste (i : Interceptor) : Interceptor * (bool * WriteResult) :=
  match Index endMarker (buf i) with
  | None => (i, (false, WOk))
  | Some idx =>
      let body := take idx (buf i) in
      let i0 := i <| buf := drop (idx + length endMarker) (buf i) |> <| inPaste := false |> in
      match rewrite_ body i0 with
      | (i1, None) => (i1, (true, WOk))
      | (i1, Some out) =>
          match writeDest (OText (frame out)) i1 with
          | (i2, WOk) => (i2, (true, WOk))
          | (i2, r) => (i2, (false, r))
          end
      end
  end.

Fixpoint drainLoop (fuel : nat) (i : Interceptor) : option (Interceptor * WriteResult) :=
  match fuel with
  | O => None
  | S m =>
      let '(i1, (done, r)) := if inPaste i then drainPaste i else drainNormal i in
      match r with WOk => if done then drainLoop m i1 else Some (i1, WOk) | _ => Some (i1, r) end
  end.

(** Every round that continues consumes a marker, so one round per byte is enough
    ([drain_total]). *)
Definition drain (i : Interceptor) : Interceptor * WriteResult :=
  default (i, WOk) (drainLoop (S (length (buf i))) i).

(** ** [Write] and [Close] *)

(** The direct path: the input is not, and does not continue, a paste. *)
Definition direct (p : list byte) (i : Interceptor) : bool :=
  directInput config && negb (empty p) && (queued i =? 0) && negb (inPaste i) && empty (buf i)
  && negb (Contains p startMarker) && (partialSuffix p startMarker =? 0)%nat.

(** A call begins. *)
Definition Write_start (p : list byte) (i : Interceptor) : Interceptor :=
  if closed i || negb (empty (writing i)) then i
  else if direct p i then
    match writeDest (OText p) i with
    | (i1, WOk) => i1 <| accepted := accepted i1 ++ p |>
    | (i1, WUncertain) => i1
    | (i1, WFatal) => setError (Some ErrDest) i1
    end
  else i <| writing := p |>.

(** One round of its loop over the chunks. *)
Definition Write_push (i : Interceptor) : Interceptor :=
  match worker i with
  | WDone => i <| writing := [] |>
  | _ =>
      if empty (writing i) then i
      else if (length (queue i) <? queueChunks config)%nat then
        let chunk := take (queueChunkSize config) (writing i) in
        i <| queued := queued i + 1 |> <| queue := queue i ++ [chunk] |>
          <| writing := drop (queueChunkSize config) (writing i) |> <| accepted := accepted i ++ chunk |>
      else if ctxDone i then i <| writing := [] |>
      else if pressured i then i else warn QueueFull i <| pressured := true |>
  end.

Definition Close (i : Interceptor) : Interceptor :=
  if empty (writing i) then i <| closed := true |> else i.

(** ** [uploadAsync] *)

(** The loop that puts the remote paths in the place of the local ones. *)
Fixpoint replaceLines (lines : list (list byte)) (candidates : list (option pathCandidate))
    (paths : list (list byte)) : list (list byte) :=
  match lines, candidates with
  | ln :: lines', c :: candidates' =>
      if blank ln then ln :: replaceLines lines' candidates' paths
      else
        match c, paths with
        | Some c, p :: paths' =>
            (take (cstart c) ln ++ p ++ drop (cend c) ln) :: replaceLines lines' candidates' paths'
        | _, _ => ln :: replaceLines lines' candidates' paths
        end
  | _, _ => []
  end.

(** [batch] is what preparing and sending the files came to: the remote paths, or
    an error. *)
Definition completionOf (u : Upload) (batch : option (list (list byte))) : uploadCompletion :=
  match batch with
  | Some paths =>
      if len paths =? unonEmpty u
      then mkCompletion (useq u) (frame (Join (replaceLines (ulines u) (ucandidates u) paths))) false
      else mkCompletion (useq u) (frame (ubody u)) true
  | None => mkCompletion (useq u) (frame (ubody u)) true
  end.

(** [picksDone]: where the context is done and the channel has room, its two selects take the
    case of the context. *)
Definition uploadAsync (j : nat) (batch : option (list (list byte))) (picksDone : bool) (i : Interceptor) : Interceptor :=
  match uploads i !! j with
  | None => i
  | Some u =>
      let k := completionOf u batch in
      let i1 := (if kerr k then warn UploadFailed i else i) <| uploads := delete j (uploads i) |> in
      let room := (length (completed i) <? 16)%nat in
      if ctxDone i && (picksDone || negb room) then i1
      else if room then i1 <| completed := completed i ++ [k] |>
      else i
  end.

(** ** [run] *)
Definition rearmFlush (i : Interceptor) : Interceptor :=
  i <| timerArmed := (0 <? flushDelay config) && negb (inPaste i) && negb (empty (buf i)) |>.

(** [true] when the worker must return. *)
Definition handleWriteErr (r : WriteResult) (i : Interceptor) : Interceptor * bool :=
  match r with
  | WOk => (i, false)
  | WUncertain => (Discard i, false)
  | WFatal => (setError (Some ErrDest) i, true)
  end.

Definition writeError (r : WriteResult) : option PasteError :=
  match r with WOk => None | WUncertain => Some ErrUncertain | WFatal => Some ErrDest end.

Definition finishIf (b : bool) (i : Interceptor) : Interceptor :=
  i <| worker := if b then WDone else WSelect |>.

Definition run_ctx (i : Interceptor) : Interceptor :=
  if ctxDone i then setError (Some Canceled) i <| worker := WDone |> else i.

Definition run_timer (i : Interceptor) : Interceptor :=
  if negb (timerArmed i) then i
  else
    let i0 := i <| timerArmed := false |> in
    let '(i1, r) := if negb (inPaste i) && negb (empty (buf i))
                    then writeDest (OText (buf i)) (i0 <| buf := [] |>) else (i0, WOk) in
    let '(i2, fatal) := handleWriteErr r i1 in
    finishIf fatal i2.

Definition run_completion (i : Interceptor) : Interceptor :=
  match completed i with
  | [] => i
  | k :: rest => i <| completed := rest |> <| worker := WDraining k |>
  end.

Definition run_input (i : Interceptor) : Interceptor :=
  if inputClosed i then i
  else
    match queue i with
    | p :: rest => i <| queue := rest |> <| worker := WTook p |>
    | [] =>
        if closed i then
          let '(i1, r) := flush (i <| inputClosed := true |>) in
          let i2 := setError (writeError r) i1 in
          finishIf (pendingUploads i2 =? 0) i2
        else i
    end.

(** The received chunk, with all that has queued up behind it. *)
Definition run_took (p : list byte) (i : Interceptor) : Interceptor :=
  let processed := 1 + len (queue i) in
  let i0 := i <| buf := buf i ++ p ++ concat (queue i) |> <| queue := [] |>
              <| queued := queued i - processed |> in
  let '(i1, r1) := drain i0 in
  let '(i2, r2) := match r1 with WOk => if closed i then flush i1 else (i1, WOk) | _ => (i1, r1) end in
  let '(i3, fatal) := handleWriteErr r2 i2 in
  if fatal then i3 <| worker := WDone |>
  else
    let i4 := if closed i then i3 <| inputClosed := true |> else i3 in
    if inputClosed i4 && (pendingUploads i4 =? 0) then i4 <| worker := WDone |>
    else rearmFlush i4 <| worker := WSelect |>.

(** After [drainAcceptedInput]: the completion is buffered and the loop begins. *)
Definition run_publishes (k : uploadCompletion) (i : Interceptor) : Interceptor :=
  i <| completionBuffer := <[kseq k := k]> (completionBuffer i) |> <| worker := WPublish |>.

Definition run_draining (k : uploadCompletion) (i : Interceptor) : Interceptor :=
  if inputClosed i then run_publishes k i
  else
    match queue i with
    | p :: rest => i <| queue := rest |> <| queued := queued i - 1 |> <| worker := WDrained k p |>
    | [] => run_publishes k (if closed i then i <| inputClosed := true |> else i)
    end.

Definition run_drained (k : uploadCompletion) (p : list byte) (i : Interceptor) : Interceptor :=
  let '(i1, r) := drain (i <| buf := buf i ++ p |>) in
  match r with
  | WOk => i1 <| worker := WDraining k |>
  | _ => let '(i2, fatal) := handleWriteErr r i1 in
         if fatal then i2 <| worker := WDone |> else run_publishes k i2
  end.

Definition run_publish (i : Interceptor) : Interceptor :=
  match completionBuffer i !! nextCompletion i with
  | None => finishIf (inputClosed i && (pendingUploads i =? 0)) i
  | Some ready =>
      let i0 := i <| completionBuffer := delete (nextCompletion i) (completionBuffer i) |>
                  <| nextCompletion := nextCompletion i +64 1 |> in
      let '(i1, r) := writeDest (OPaste (kseq ready) (framed ready)) i0 in
      let '(i2, fatal) := handleWriteErr r i1 in
      if fatal then i2 <| worker := WDone |>
      else report (if kerr ready then FileFailed else FileComplete) i2
             <| pendingUploads := pendingUploads i2 - 1 |>
  end.

(** ** Any interleaving *)
Inductive Op :=
| OpWrite (p : list byte) | OpPush | OpClose | OpAbort
| OpUpload (j : nat) (batch : option (list (list byte))) (picksDone : bool)
| OpCtx | OpTimer | OpCompletion | OpInput      (* the cases of the worker's [select] *)
| OpWork.                                       (* the worker goes on *)

Definition step (op : Op) (i : Interceptor) : Interceptor :=
  match op with
  | OpWrite p => Write_start p i
  | OpPush => Write_push i
  | OpClose => Close i
  | OpAbort => Abort i
  | OpUpload j batch picksDone => uploadAsync j batch picksDone i
  | OpWork =>
      match worker i with
      | WTook p => run_took p i
      | WDraining k => run_draining k i
      | WDrained k p => run_drained k p i
      | WPublish => run_publish i
      | WSelect | WDone => i
      end
  | OpCtx | OpTimer | OpCompletion | OpInput =>
      match worker i with
      | WSelect => match op with
                   | OpCtx => run_ctx i
                   | OpTimer => run_timer i
                   | OpCompletion => run_completion i
                   | _ => run_input i
                   end
      | _ => i
      end
  end.

Definition run (ops : list Op) (i : Interceptor) : Interceptor := fold_left (fun i op => step op i) ops i.
End interceptor.
