(* ===== verification/PasteProps.v ===== *)
(** * The bracketed-paste interceptor: properties

    What the worker of [PasteStream] does to the stream, over every interleaving of
    the writer, the worker, the timer and the uploads. *)
From S2P Require Import Prelude PasteWord PasteStream.
#[local] Set Warnings "-clear-no-such-hyp".

Lemma startMarker_length : length startMarker = 6%nat.
Proof. done. Qed.
Lemma endMarker_length : length endMarker = 6%nat.
Proof. done. Qed.
#[local] Opaque startMarker endMarker.

(** The input a log entry stands for, and what of it reached the destination. *)
Definition in_of (o : Out) : list byte :=
  match o with OText b => b | OHold _ body => frame body | OPaste _ _ => [] end.
Definition out_of (o : Out) : list byte :=
  match o with OText b => b | OHold _ _ => [] | OPaste _ f => f end.
Definition received (l : list Out) : list byte := concat (map in_of l).
Definition output (l : list Out) : list byte := concat (map out_of l).

Definition holds (l : list Out) : list Z := omap (fun o => match o with OHold n _ => Some n | _ => None end) l.
Definition published (l : list Out) : list Z := omap (fun o => match o with OPaste n _ => Some n | _ => None end) l.

(** What the worker has taken from the keyboard and not yet passed on. *)
Definition withheld (i : Interceptor) : list byte := (if inPaste i then startMarker else []) ++ buf i.
Definition hand (w : Worker) : list byte := match w with WTook p | WDrained _ p => p | _ => [] end.
Definition khand (w : Worker) : list uploadCompletion :=
  match w with WDraining k | WDrained k _ => [k] | _ => [] end.

Lemma received_app l l' : received (l ++ l') = received l ++ received l'.
Proof. unfold received. by rewrite map_app, concat_app. Qed.
Lemma holds_app l l' : holds (l ++ l') = holds l ++ holds l'.
Proof. apply omap_app. Qed.
Lemma published_app l l' : published (l ++ l') = published l ++ published l'.
Proof. apply omap_app. Qed.

Lemma hasPrefix_spec p l : hasPrefix p l = true -> l = p ++ drop (length p) l.
Proof.
  unfold hasPrefix. intros H. bool_hyps. rewrite <- (take_drop (length p) l) at 1. by rewrite H.
Qed.

Lemma Index_spec pat l idx : Index pat l = Some idx ->
  l = take idx l ++ pat ++ drop (idx + length pat) l /\ (idx + length pat <= length l)%nat.
Proof.
  revert idx. induction l as [|b l IH]; intros idx; simpl; destruct (hasPrefix pat _) eqn:E.
  - intros [= <-]. apply hasPrefix_spec in E as E'. split; [done|].
    apply (f_equal length) in E'. rewrite length_app in E'. simpl in *. lia.
  - done.
  - intros [= <-]. apply hasPrefix_spec in E as E'. split; [done|]. simpl.
    apply (f_equal length) in E'. rewrite length_app in E'. simpl in E'. lia.
  - intros (j & Hj & ->)%fmap_Some. apply IH in Hj as [Hl ?]. split; [|simpl; lia].
    simpl. by rewrite <- Hl.
Qed.

Lemma partialLoop_le n l marker : (partialLoop n l marker <= n)%nat.
Proof. induction n as [|n IH]; simpl; [lia|]. case_match; lia. Qed.
Lemma partialSuffix_le l marker : (partialSuffix l marker <= length l)%nat.
Proof. unfold partialSuffix. pose proof (partialLoop_le (Nat.min (length marker - 1) (length l)) l marker). lia. Qed.

Section props.
Variables (config : Config) (urlParse : list byte -> option URL)
  (openLocalFile : nat -> list byte -> bool) (policyAt : nat -> Policy).
Local Abbreviation ok := (fun _ : nat => WOk).
Local Abbreviation drain_ := (drain urlParse openLocalFile policyAt ok).
Local Abbreviation step_ := (step config urlParse openLocalFile policyAt ok).
Local Abbreviation run_ := (run config urlParse openLocalFile policyAt ok).

(** ** What an upload makes of a paste *)
Definition candOf (ln : list byte) : option pathCandidate :=
  if blank ln then None else parseCandidate urlParse ln.
Definition fileLines (lines : list (list byte)) : Z := len (List.filter (fun ln => negb (blank ln)) lines).

(** The original paste, or the paste with each path replaced by a remote one. *)
Definition result_ok (body f : list byte) : Prop :=
  f = frame body \/
  exists paths, len paths = fileLines (Split body) /\
    f = frame (Join (replaceLines (Split body) (map candOf (Split body)) paths)).

Definition upload_ok (u : Upload) : Prop :=
  ulines u = Split (ubody u) /\ ucandidates u = map candOf (Split (ubody u)) /\
  unonEmpty u = fileLines (Split (ubody u)).

Lemma completionOf_ok u batch : upload_ok u -> result_ok (ubody u) (framed (completionOf u batch)).
Proof.
  intros (Hl & Hc & Hn). unfold completionOf. rewrite Hl, Hc, Hn.
  destruct batch as [paths|]; [|by left].
  destruct (len paths =? fileLines (Split (ubody u))) eqn:E; [|by left]. bool_hyps. right. eauto.
Qed.

Lemma kseq_completionOf u batch : kseq (completionOf u batch) = useq u.
Proof. unfold completionOf. by repeat case_match. Qed.

Lemma scanLines_spec lines i : let '(i1, r) := scanLines urlParse openLocalFile lines i in
  i1 = i <| events := events i1 |> /\
  (forall cs, r = Some cs -> cs = map candOf lines /\ len (omap id cs) = fileLines lines).
Proof.
  revert i. induction lines as [|ln rest IH]; intros i; simpl.
  { split; [by destruct i|]. by intros cs [= <-]. }
  unfold fileLines. simpl. unfold candOf at 1. destruct (blank ln) eqn:Eb; simpl.
  - specialize (IH i). destruct (scanLines _ _ rest i) as [i1 r]. destruct IH as [Hi Hr].
    split; [done|]. intros cs (cs' & -> & ->)%fmap_Some. destruct (Hr _ eq_refl) as [-> ?]. done.
  - destruct (parseCandidate urlParse ln) as [c|] eqn:Ec; [|split; [by destruct i|done]].
    destruct (openLocalFile _ _); [|split; [by destruct i|done]].
    specialize (IH (report FileDetected i)). destruct (scanLines _ _ rest _) as [i1 r].
    destruct IH as [Hi Hr]. split; [by rewrite Hi; destruct i|].
    intros cs (cs' & -> & ->)%fmap_Some. destruct (Hr _ eq_refl) as [-> Hn].
    split; [done|].
    change (omap id (Some c :: map candOf rest)) with (c :: omap id (map candOf rest)).
    unfold fileLines in Hn. rewrite !len_cons, Hn. done.
Qed.

(** ** One round of [drain] *)

(** The fields [drain] leaves alone. *)
Definition rest_of (i : Interceptor) :=
  (queue i, queued i, closed i, err i, ctxDone i, inputClosed i, timerArmed i,
   (completed i, completionBuffer i, nextCompletion i, worker i, writing i, accepted i)).

Inductive log_round (i i' : Interceptor) : Prop :=
| round_text l : Forall (fun o => exists b, o = OText b) l -> log i' = log i ++ l ->
    uploads i' = uploads i -> uploadSeq i' = uploadSeq i -> pendingUploads i' = pendingUploads i ->
    log_round i i'
| round_hold u n : transfer (policyAt n) = true -> upload_ok u -> useq u = uploadSeq i -> log i' = log i ++ [OHold (useq u) (ubody u)] ->
    uploads i' = uploads i ++ [u] -> uploadSeq i' = uploadSeq i +64 1 ->
    pendingUploads i' = pendingUploads i + 1 -> log_round i i'.

Record dround (i i' : Interceptor) : Prop := {
  dr_bytes : received (log i') ++ withheld i' = received (log i) ++ withheld i;
  dr_rest : rest_of i' = rest_of i;
  dr_log : log_round i i' }.

Lemma rewrite_spec body i : let '(i1, r) := rewrite_ urlParse openLocalFile policyAt body i in
  rest_of i1 = rest_of i /\ buf i1 = buf i /\ inPaste i1 = inPaste i /\
  match r with
  | Some out => out = body /\ log i1 = log i /\ uploads i1 = uploads i /\ uploadSeq i1 = uploadSeq i /\
      pendingUploads i1 = pendingUploads i
  | None => transfer (policyAt (pastes i)) = true /\ exists u, upload_ok u /\ useq u = uploadSeq i /\ ubody u = body /\
      log i1 = log i ++ [OHold (useq u) (ubody u)] /\ uploads i1 = uploads i ++ [u] /\
      uploadSeq i1 = uploadSeq i +64 1 /\ pendingUploads i1 = pendingUploads i + 1
  end.
Proof.
  unfold rewrite_. pose proof (scanLines_spec (Split body) i) as H.
  destruct (scanLines _ _ (Split body) i) as [i1 r]. destruct H as [-> Hr].
  destruct r as [cs|]; [|by split_and!].
  destruct (Hr _ eq_refl) as [-> ->]. destruct (fileLines _ =? 0); [by split_and!|].
  destruct (_ && _); [by split_and!|]. destruct (transfer _) eqn:Et; [|by split_and!].
  split_and!; [done..|].
  by exists (mkUpload (uploadSeq i) body (Split body) (map candOf (Split body)) (fileLines (Split body))).
Qed.

Definition dwrites (o : Out) (i : Interceptor) : Interceptor :=
  i <| attempts := S (attempts i) |> <| log := log i ++ [o] |>.
Lemma writeDest_ok o i : writeDest ok o i = (dwrites o i, WOk).
Proof. done. Qed.

Lemma drainNormal_round i : inPaste i = false ->
  exists i' done, drainNormal ok i = (i', (done, WOk)) /\ dround i i' /\
    (done = true -> (length (buf i') < length (buf i))%nat).
Proof.
  intros Hp. unfold drainNormal. destruct (Index startMarker (buf i)) as [idx|] eqn:E.
  - apply Index_spec in E as [Hb Hl].
    rewrite startMarker_length in *.
    assert (Hlen : (length (drop (idx + 6) (buf i)) < length (buf i))%nat) by (rewrite length_drop; lia).
    destruct (0 <? idx)%nat eqn:E0; rewrite ?writeDest_ok; eexists _, _; split_and!; try done; split; try done.
    + unfold withheld. simpl. rewrite Hp, received_app. unfold received at 2. simpl. rewrite app_nil_r.
      by rewrite <- !app_assoc, <- Hb.
    + by apply (round_text _ _ [OText (take idx (buf i))]); [repeat econstructor|..].
    + unfold withheld. simpl. rewrite Hp. apply Nat.ltb_ge in E0. assert (idx = 0)%nat as -> by lia.
      f_equal. by rewrite Hb at 2.
    + by apply (round_text _ _ []); rewrite ?app_nil_r.
  - set (n := (length (buf i) - partialSuffix (buf i) startMarker)%nat).
    destruct (0 <? n)%nat eqn:E0; rewrite ?writeDest_ok; eexists _, _; split_and!; try done; split; try done.
    + unfold withheld. simpl. rewrite Hp, received_app. unfold received at 2. simpl. rewrite app_nil_r.
      by rewrite <- !app_assoc, take_drop.
    + by apply (round_text _ _ [OText (take n (buf i))]); [repeat econstructor|..].
    + unfold withheld. simpl. apply Nat.ltb_ge in E0. by assert (n = 0)%nat as -> by lia.
    + by apply (round_text _ _ []); rewrite ?app_nil_r.
Qed.

Lemma drainPaste_round i : inPaste i = true ->
  exists i' done, drainPaste urlParse openLocalFile policyAt ok i = (i', (done, WOk)) /\ dround i i' /\
    (done = true -> (length (buf i') < length (buf i))%nat).
Proof.
  intros Hp. unfold drainPaste. destruct (Index endMarker (buf i)) as [idx|] eqn:E.
  - apply Index_spec in E as [Hb Hl].
    rewrite endMarker_length in *.
    assert (Hlen : (length (drop (idx + 6) (buf i)) < length (buf i))%nat) by (rewrite length_drop; lia).
    assert (Hs : frame (take idx (buf i)) ++ drop (idx + 6) (buf i) = withheld i).
    { unfold withheld, frame. rewrite Hp, <- !app_assoc. by rewrite <- Hb. }
    match goal with |- context [rewrite_ _ _ _ ?b ?j] => pose proof (rewrite_spec b j) as H;
      destruct (rewrite_ _ _ _ b j) as [i1 [out|]] end; destruct H as (Hr & Hbuf & Hin & H).
    + destruct H as (-> & Hlog & Hu & Hq & Hn). rewrite writeDest_ok. eexists _, _; split_and!; [done| |].
      2: { intros _. simpl. by rewrite Hbuf. }
      split.
      * simpl. rewrite Hlog, received_app. unfold withheld at 1, received at 2. simpl.
        rewrite Hin, Hbuf, app_nil_r, <- app_assoc. simpl. by rewrite Hs.
      * etransitivity; [|exact Hr]. done.
      * apply (round_text _ _ [OText (frame (take idx (buf i)))]); simpl; rewrite ?Hlog; try done.
        repeat econstructor.
    + destruct H as (Ht & u & Hok & Hseq & Hbody & Hlog & Hu & Hq & Hn). eexists _, _; split_and!; [done| |].
      2: { intros _. by rewrite Hbuf. }
      split; [|by rewrite Hr|by eapply round_hold].
      rewrite Hlog, received_app, Hbody. unfold withheld at 1, received at 2. simpl.
      rewrite Hin, Hbuf, app_nil_r, <- app_assoc. simpl. by rewrite Hs.
  - eexists _, _; split_and!; [done| |done]. split; [done..|].
    by apply (round_text _ _ []); rewrite ?app_nil_r.
Qed.

(** The loop ends before its fuel does, and is a sequence of rounds. *)
Lemma drainLoop_rounds fuel : forall i, (length (buf i) < fuel)%nat ->
  exists i', drainLoop urlParse openLocalFile policyAt ok fuel i = Some (i', WOk) /\ rtc dround i i'.
Proof.
  induction fuel as [|fuel IH]; intros i Hf; [lia|]. simpl.
  assert (H : exists i' done, (if inPaste i then drainPaste urlParse openLocalFile policyAt ok i
      else drainNormal ok i) = (i', (done, WOk)) /\ dround i i' /\
      (done = true -> (length (buf i') < length (buf i))%nat)).
  { destruct (inPaste i) eqn:E; [by apply drainPaste_round|by apply drainNormal_round]. }
  destruct H as (i1 & done & -> & Hd & Hlen). destruct done.
  - destruct (IH i1) as (i' & -> & Hr); [specialize (Hlen eq_refl); lia|]. eauto using rtc_l.
  - eauto using rtc_once.
Qed.

Lemma drain_rounds i : exists i', drain_ i = (i', WOk) /\ rtc dround i i'.
Proof.
  destruct (drainLoop_rounds (S (length (buf i))) i) as (i' & E & Hr); [lia|].
  exists i'. split; [|done]. unfold drain. by rewrite E.
Qed.

(** ** The invariant *)
Definition completion_ok (l : list Out) (k : uploadCompletion) : Prop :=
  exists body, OHold (kseq k) body ∈ l /\ result_ok body (framed k).

(** The numbers of the uploads whose completion has not been buffered; [ks] are
    the completions in the worker's hand. *)
Definition outstanding (ks : list uploadCompletion) (i : Interceptor) : list Z :=
  map useq (uploads i) ++ map kseq (completed i ++ ks).

(** [h] are the bytes in the worker's hand. *)
Record core (h : list byte) (ks : list uploadCompletion) (i : Interceptor) : Prop := {
  co_bytes : accepted i = received (log i) ++ withheld i ++ h ++ concat (queue i);
  co_holds : holds (log i) = seqZ 0 (uploadSeq i);
  co_published : published (log i) = seqZ 0 (nextCompletion i);
  co_next : 0 <= nextCompletion i <= uploadSeq i;
  co_pending : pendingUploads i = uploadSeq i - nextCompletion i;
  co_nodup : NoDup (outstanding ks i);
  co_range n : n ∈ outstanding ks i ->
    nextCompletion i <= n < uploadSeq i /\ completionBuffer i !! n = None;
  co_cover n : ctxDone i = false -> nextCompletion i <= n < uploadSeq i ->
    n ∈ outstanding ks i \/ is_Some (completionBuffer i !! n);
  co_buffered n k : completionBuffer i !! n = Some k ->
    nextCompletion i <= n < uploadSeq i /\ kseq k = n /\ completion_ok (log i) k;
  co_uploads u : u ∈ uploads i -> upload_ok u /\ OHold (useq u) (ubody u) ∈ log i;
  co_completed k : k ∈ completed i ++ ks -> completion_ok (log i) k;
  co_paste l1 n f l2 : log i = l1 ++ OPaste n f :: l2 ->
    exists body, OHold n body ∈ l1 /\ result_ok body f }.

Definition upView (i : Interceptor) :=
  (uploadSeq i, nextCompletion i, pendingUploads i, uploads i, completed i, completionBuffer i, ctxDone i).

Definition isPaste (o : Out) : bool := match o with OPaste _ _ => true | _ => false end.

(** Appending what is not a paste keeps every earlier paste where it was. *)
Lemma paste_app l l' l1 n f l2 : Forall (fun o => isPaste o = false) l' ->
  l ++ l' = l1 ++ OPaste n f :: l2 -> exists l2', l = l1 ++ OPaste n f :: l2'.
Proof.
  intros Hl E. apply app_eq_inv in E as [(k & -> & E)|(k & -> & ->)].
  - destruct k as [|o k]; simplify_eq/=; [by inversion Hl|]. eauto.
  - apply Forall_app in Hl as [_ Hl]. by inversion Hl.
Qed.

Lemma completion_ok_app l l' k : completion_ok l k -> completion_ok (l ++ l') k.
Proof. intros (b & ? & ?). exists b. split; [apply elem_of_app; auto|done]. Qed.

Lemma holds_received l : len (holds l) <= len (received l).
Proof.
  induction l as [|o l IH]; [done|]. change (received (o :: l)) with (in_of o ++ received l).
  rewrite len_app. pose proof (len_nonneg (in_of o)). destruct o as [b|n body|n f]; simpl in *.
  - change (holds (OText b :: l)) with (holds l). lia.
  - change (holds (OHold n body :: l)) with (n :: holds l). rewrite len_cons.
    unfold frame. rewrite len_app. unfold len at 2. rewrite startMarker_length.
    pose proof (len_nonneg (body ++ endMarker)). lia.
  - change (holds (OPaste n f :: l)) with (holds l). lia.
Qed.

Lemma text_only l : Forall (fun o => exists b, o = OText b) l ->
  holds l = [] /\ published l = [] /\ Forall (fun o => isPaste o = false) l.
Proof.
  induction 1 as [|o l [b ->] _ IH]; [done|]. destruct IH as (? & ? & ?).
  split_and!; [done..|by constructor].
Qed.

Lemma core_text h h' ks i i' l :
  Forall (fun o => exists b, o = OText b) l -> log i' = log i ++ l -> upView i' = upView i ->
  accepted i' = received (log i') ++ withheld i' ++ h' ++ concat (queue i') ->
  core h ks i -> core h' ks i'.
Proof.
  intros Hl El Ev Hb H. unfold upView in Ev. simplify_eq.
  destruct (text_only l Hl) as (Hh & Hp & Hf). destruct H.
  split; unfold outstanding in *; repeat match goal with E : _ i' = _ i |- _ => rewrite E end; try done.
  - rewrite El, holds_app, Hh, app_nil_r. done.
  - rewrite El, published_app, Hp, app_nil_r. done.
  - intros n k Hk. rewrite El. destruct (co_buffered0 n k Hk) as (? & ? & ?).
    split_and!; auto using completion_ok_app; lia.
  - intros u Hu. rewrite El. destruct (co_uploads0 u Hu). split; [done|apply elem_of_app; auto].
  - intros k Hk. rewrite El. auto using completion_ok_app.
  - intros l1 n f l2. rewrite El. intros E. apply paste_app in E as [l2' E]; eauto.
Qed.
Lemma core_hold h ks i i' u :
  len (accepted i) < two64 -> dround i i' ->
  upload_ok u -> useq u = uploadSeq i -> log i' = log i ++ [OHold (useq u) (ubody u)] ->
  uploads i' = uploads i ++ [u] -> uploadSeq i' = uploadSeq i +64 1 ->
  pendingUploads i' = pendingUploads i + 1 -> core h ks i -> core h ks i'.
Proof.
  intros Hlen [Hb Hr _] Hu Eu El Eup Eseq Ep H. unfold rest_of in Hr. simplify_eq.
  destruct H. assert (Hbytes : accepted i' = received (log i') ++ withheld i' ++ h ++ concat (queue i')).
  { replace (accepted i') with (accepted i) by congruence. rewrite co_bytes0, app_assoc, <- Hb, <- app_assoc.
    by replace (queue i') with (queue i) by congruence. }
  assert (Hhold : holds (log i') = seqZ 0 (uploadSeq i) ++ [uploadSeq i]).
  { by rewrite El, holds_app, co_holds0, Eu. }
  assert (Hsmall : uploadSeq i + 1 < two64).
  { pose proof (holds_received (log i')) as Hle. rewrite Hhold in Hle. unfold len at 1 in Hle.
    rewrite length_app, length_seqZ in Hle. simpl in Hle.
    replace (accepted i) with (accepted i') in Hlen by congruence. rewrite Hbytes, len_app in Hlen.
    pose proof (len_nonneg (withheld i' ++ h ++ concat (queue i'))). lia. }
  rewrite u64_id in Eseq by lia.
  assert (Ho : outstanding ks i' ≡ₚ uploadSeq i :: outstanding ks i).
  { unfold outstanding. rewrite Eup, map_app. simpl. rewrite Eu.
    replace (completed i') with (completed i) by congruence. rewrite <- app_assoc. simpl.
    by rewrite Permutation_middle. }
  split; try done;
    repeat match goal with E : ?f i' = ?f i |- _ => rewrite E; clear E end; rewrite ?Eseq, ?El.
  - rewrite holds_app, co_holds0, Eu, (seqZ_app 0 (uploadSeq i) 1) by lia. done.
  - by rewrite published_app, co_published0, app_nil_r.
  - lia.
  - lia.
  - rewrite Ho. apply NoDup_cons. split; [|done]. intros [? _]%co_range0. lia.
  - intros n Hn. rewrite Ho in Hn. apply elem_of_cons in Hn as [->|Hn].
    + split; [lia|]. destruct (completionBuffer i !! uploadSeq i) eqn:E; [|done].
      apply co_buffered0 in E as [? _]. lia.
    + apply co_range0 in Hn as [? ?]. split; [lia|done].
  - intros n Hc Hn. rewrite Ho, elem_of_cons. destruct (decide (n = uploadSeq i)); [auto|].
    destruct (co_cover0 n Hc); [lia|auto..].
  - intros n k Hk. destruct (co_buffered0 n k Hk) as (? & ? & ?). split_and!; auto using completion_ok_app; lia.
  - intros v Hv. rewrite Eup in Hv. rewrite elem_of_app. apply elem_of_app in Hv as [Hv| ->%list_elem_of_singleton].
    + destruct (co_uploads0 v Hv); auto.
    + split; [done|right]. by apply list_elem_of_singleton.
  - intros k Hk. auto using completion_ok_app.
  - intros l1 n f l2 E. apply paste_app in E as [l2' E]; eauto.
Qed.

Lemma core_rounds h ks i i' :
  len (accepted i) < two64 -> rtc dround i i' -> core h ks i -> core h ks i' /\ rest_of i' = rest_of i.
Proof.
  intros Hlen Hr. induction Hr as [|i i1 i' Hd _ IH]; [done|]. intros H.
  pose proof (dr_rest _ _ Hd) as Er. destruct IH as [? Er'].
  - unfold rest_of in Er. simplify_eq. congruence.
  - destruct (dr_log _ _ Hd) as [l Hl El Eu Es Ep|u n Ht Hu Eu El Eup Es Ep]; [|by eapply core_hold].
    eapply core_text; [exact Hl|exact El| | |exact H].
    + unfold rest_of in Er. unfold upView. simplify_eq. congruence.
    + destruct H. pose proof (dr_bytes _ _ Hd) as Hb. unfold rest_of in Er. simplify_eq.
      replace (accepted i1) with (accepted i) by congruence.
      replace (queue i1) with (queue i) by congruence.
      by rewrite co_bytes0, app_assoc, <- Hb, <- app_assoc.
  - split; [done|]. congruence.
Qed.

Lemma core_seq_small h ks i : core h ks i -> uploadSeq i <= len (accepted i).
Proof.
  intros []. pose proof (holds_received (log i)) as Hle. rewrite co_holds0 in Hle.
  unfold len at 1 in Hle. rewrite length_seqZ in Hle. rewrite co_bytes0, len_app.
  pose proof (len_nonneg (withheld i ++ h ++ concat (queue i))). lia.
Qed.

(** The uploads move on: [outstanding] loses nothing while the context is live. *)
Lemma core_moves h ks ks' i i' :
  (log i', accepted i', withheld i', queue i') = (log i, accepted i, withheld i, queue i) ->
  (uploadSeq i', nextCompletion i', pendingUploads i', completionBuffer i', ctxDone i') =
    (uploadSeq i, nextCompletion i, pendingUploads i, completionBuffer i, ctxDone i) ->
  (exists gone, outstanding ks i ≡ₚ gone ++ outstanding ks' i' /\ (ctxDone i = false -> gone = [])) ->
  (forall u, u ∈ uploads i' -> u ∈ uploads i) ->
  (forall k, k ∈ completed i' ++ ks' -> k ∈ completed i ++ ks \/ completion_ok (log i) k) ->
  core h ks i -> core h ks' i'.
Proof.
  intros E1 E2 (gone & Ho & Hg) Hu Hk []. simplify_eq.
  split; repeat match goal with E : ?f i' = ?f i |- _ => rewrite E end; try done.
  - rewrite Ho in co_nodup0. by apply NoDup_app in co_nodup0 as (_ & _ & ?).
  - intros n Hn. apply co_range0. rewrite Ho. apply elem_of_app. auto.
  - intros n Hc Hn. destruct (co_cover0 n Hc Hn) as [Hin|]; [|auto]. left.
    rewrite Ho, (Hg Hc) in Hin. done.
  - intros u Hin. auto.
  - intros k [Hin|]%Hk; auto.
Qed.

Lemma delete_useq j l (u : Upload) : l !! j = Some u -> map useq l ≡ₚ useq u :: map useq (delete j l).
Proof. intros H. by rewrite (delete_Permutation l j u H) at 1. Qed.

Lemma core_upload h ks j batch b i : core h ks i -> core h ks (uploadAsync j batch b i).
Proof.
  intros H. unfold uploadAsync. destruct (uploads i !! j) as [u|] eqn:Ej; [|done].
  assert (Hdel : forall v, v ∈ delete j (uploads i) -> v ∈ uploads i).
  { intros v Hv. rewrite (delete_Permutation _ _ _ Ej). apply elem_of_cons. auto. }
  pose proof (delete_useq _ _ _ Ej) as Hp. set (k := completionOf u batch).
  cbv zeta. destruct (ctxDone i && _) eqn:Ec; [apply andb_true_iff in Ec as [Ec _]|].
  - eapply core_moves; [..|exact H]; try by destruct (kerr k).
    + exists [useq u]. split; [|congruence]. unfold outstanding. rewrite Hp.
      by destruct (kerr k).
    + destruct (kerr k); simpl; auto.
  - destruct (length (completed i) <? 16)%nat; [|done].
    eapply core_moves; [..|exact H]; try by destruct (kerr k).
    + exists []. split; [|done]. unfold outstanding. rewrite Hp.
      transitivity (map useq (delete j (uploads i)) ++ map kseq ((completed i ++ [k]) ++ ks)).
      2: { by destruct (kerr k). }
      rewrite <- app_assoc, !map_app. simpl. unfold k. rewrite kseq_completionOf.
      by rewrite !Permutation_middle.
    + intros k'. simpl. rewrite <- app_assoc, !elem_of_app, list_elem_of_singleton.
      intros [|[->|]]; [auto| |auto]. right. destruct (co_uploads _ _ _ H u) as [Hu ?].
      { by eapply list_elem_of_lookup_2. }
      exists (ubody u). unfold k. rewrite kseq_completionOf. split; [done|by apply completionOf_ok].
Qed.

Lemma core_takes h i k rest : completed i = k :: rest -> core h [] i ->
  core h [k] (i <| completed := rest |> <| worker := WDraining k |>).
Proof.
  intros E H. eapply core_moves; [..|exact H]; try done.
  - exists []. split; [|done]. unfold outstanding. simpl. rewrite E, app_nil_r, !map_app. simpl.
    apply Permutation_app_head, Permutation_cons_append.
  - intros k'. simpl. rewrite E, app_nil_r. set_solver.
Qed.

Lemma core_buffers h i k w : core h [k] i ->
  core h [] (i <| completionBuffer := <[kseq k := k]> (completionBuffer i) |> <| worker := w |>).
Proof.
  intros H. assert (Ho : outstanding [k] i ≡ₚ kseq k :: outstanding [] i).
  { unfold outstanding. rewrite app_nil_r, map_app. simpl.
    by rewrite (app_assoc _ _ [kseq k]), (Permutation_app_comm _ [kseq k]). }
  pose proof (co_range _ _ _ H (kseq k)) as Hk. rewrite Ho in Hk.
  destruct Hk as [Hr Hn]; [left|]. pose proof (co_nodup _ _ _ H) as Hd. rewrite Ho in Hd.
  apply NoDup_cons in Hd as [Hnew Hd]. destruct H. split; try done.
  - intros n Hin. simpl. destruct (co_range0 n) as [? Hnone]; [rewrite Ho; by right|].
    split; [done|]. rewrite lookup_insert_ne; [done|]. by intros <-.
  - intros n Hc Hin. simpl. destruct (decide (n = kseq k)) as [->|Hne].
    { right. rewrite lookup_insert_eq. eauto. }
    rewrite lookup_insert_ne by done. destruct (co_cover0 n Hc Hin) as [Ho'|]; [|auto].
    rewrite Ho in Ho'. apply elem_of_cons in Ho' as [|]; [done|auto].
  - intros n k'. simpl. intros [[<- <-]|[? ?]]%lookup_insert_Some; [|auto].
    split_and!; [lia..|done|]. apply co_completed0. set_solver.
  - intros k' Hk'. apply co_completed0. set_solver.
Qed.

Lemma core_publishes h i ready : len (accepted i) < two64 ->
  completionBuffer i !! nextCompletion i = Some ready -> core h [] i ->
  core h [] (i <| completionBuffer := delete (nextCompletion i) (completionBuffer i) |>
               <| nextCompletion := nextCompletion i +64 1 |>
               <| log := log i ++ [OPaste (kseq ready) (framed ready)] |>
               <| pendingUploads := pendingUploads i - 1 |>).
Proof.
  intros Hlen E H. pose proof (core_seq_small _ _ _ H) as Hs. destruct H.
  destruct (co_buffered0 _ _ E) as (Hr & Hk & body & Hh & Hok).
  assert (Hn : nextCompletion i +64 1 = nextCompletion i + 1) by (apply u64_id; lia).
  split; simpl; rewrite ?Hn; unfold outstanding in *; simpl in *; try done.
  - rewrite co_bytes0, received_app. unfold received at 3. simpl. by rewrite app_nil_r.
  - by rewrite holds_app, co_holds0, app_nil_r.
  - rewrite published_app, co_published0, Hk, (seqZ_app 0 (nextCompletion i) 1) by lia. done.
  - lia.
  - lia.
  - intros n Hin. destruct (co_range0 n Hin) as [? Hnone]. split; [|by rewrite lookup_delete_None; auto].
    assert (n <> nextCompletion i) by congruence. lia.
  - intros n Hc Hin. rewrite lookup_delete_ne by lia. apply co_cover0; [done|lia].
  - intros n k [Hne Hin]%lookup_delete_Some. destruct (co_buffered0 n k Hin) as (? & ? & ?).
    split_and!; [lia..|done|by apply completion_ok_app].
  - intros u Hu. destruct (co_uploads0 u Hu). split; [done|apply elem_of_app; auto].
  - intros k Hin. apply completion_ok_app. auto.
  - intros l1 n f l2 El. apply app_eq_inv in El as [(l & El & E')|(l & -> & E')].
    + destruct l as [|o l]; simplify_eq/=; [|by eauto]. rewrite app_nil_r in El. subst l1.
      by exists body.
    + destruct l as [|o l]; simplify_eq/=; [|by destruct l]. rewrite app_nil_r.
      by exists body.
Qed.

(** ** The invariant of the whole *)
Definition holding (w : Worker) : bool := match w with WTook _ | WDrained _ _ => true | _ => false end.

Record inv (i : Interceptor) : Prop := {
  in_core : core (hand (worker i)) (khand (worker i)) i;
  in_quiet : worker i <> WPublish -> completionBuffer i !! nextCompletion i = None;
  in_queued : queued i = len (queue i) + (match worker i with WTook _ => 1 | _ => 0 end);
  in_writing : closed i = true -> writing i = [];
  in_closed : inputClosed i = true ->
    closed i = true /\ queue i = [] /\ holding (worker i) = false /\ (withheld i = [] \/ 0 < uploadSeq i);
  in_done : worker i = WDone -> err i = None -> inputClosed i = true /\ pendingUploads i = 0 }.

(** The write that can overtake: directly to the destination, while the worker has
    taken a chunk that it no longer counts. *)
Definition races (op : Op) (i : Interceptor) : bool :=
  match op, worker i with OpWrite _, WDrained _ _ => directInput config | _, _ => false end.

Lemma flush_spec h ks i : core h ks i ->
  exists i', flush ok i = (i', WOk) /\ core h ks i' /\ rest_of i' = rest_of i /\
    upView i' = upView i /\ withheld i' = [].
Proof.
  intros H. unfold flush. destruct (bool_decide (buf i = [])) eqn:Eb; simpl.
  - destruct (inPaste i) eqn:Ep; simpl.
    + rewrite writeDest_ok. eexists. split_and!; [done| |done..].
      eapply (core_text _ _ _ i _ [OText (startMarker ++ buf i)]); [repeat econstructor|done..| |exact H].
      simpl. rewrite (co_bytes _ _ _ H), received_app. unfold withheld, received at 3. simpl.
      by rewrite Ep, app_nil_r, <- !app_assoc.
    + eexists. split_and!; [done..|]. bool_hyps. unfold withheld. by rewrite Ep, Eb.
  - rewrite writeDest_ok. eexists. split_and!; [done| |done..].
    eapply (core_text _ _ _ i _ [OText ((if inPaste i then startMarker else []) ++ buf i)]);
      [repeat econstructor|done..| |exact H].
    simpl. rewrite (co_bytes _ _ _ H), received_app. unfold withheld, received at 3. simpl.
    by rewrite app_nil_r, <- !app_assoc.
Qed.

(** A change of the fields the invariant does not read. *)
Lemma inv_same i i' :
  (log i', accepted i', withheld i', queue i', upView i') = (log i, accepted i, withheld i, queue i, upView i) ->
  (worker i', queued i', closed i', inputClosed i') = (worker i, queued i, closed i, inputClosed i) ->
  (closed i = true -> writing i = [] -> writing i' = []) -> (err i' = None -> err i = None) -> inv i -> inv i'.
Proof.
  intros E1 E2 Hw He []. unfold upView in E1. simplify_eq.
  split; repeat match goal with E : ?f i' = ?f i |- _ => rewrite E end; auto.
  - eapply (core_text _ _ _ i _ []); [constructor|..|exact in_core0].
    + rewrite app_nil_r. congruence.
    + unfold upView. congruence.
    + replace (accepted i') with (accepted i) by congruence. rewrite (co_bytes _ _ _ in_core0). congruence.
Qed.

Lemma Write_start_inv p i : races (OpWrite p) i = false -> inv i ->
  inv (Write_start config ok p i).
Proof.
  intros Hr H. unfold Write_start. destruct (closed i) eqn:Ec; [done|].
  destruct (empty (writing i)) eqn:Ew; cbn [negb orb]; [|done].
  destruct (direct config p i) eqn:Ed.
  - unfold direct in Ed. bool_hyps. destruct H as [Hc Hq Hn Hw Hcl Hd]. unfold races in Hr.
    assert (Hwk : holding (worker i) = false /\ queue i = []).
    { pose proof (len_nonneg (queue i)). destruct (worker i); split; try done; try congruence;
        try (apply len_zero_nil; lia); exfalso; lia. }
    destruct Hwk as [Hwk Hqe]. rewrite writeDest_ok.
    assert (Hwith : withheld i = []).
    { unfold withheld. unfold empty in *. bool_hyps. by rewrite H3, H4. }
    assert (Hh : hand (worker i) = []) by (by destruct (worker i)).
    split; try done. simpl. rewrite Hh in *.
    eapply (core_text _ _ _ i _ [OText p]); [repeat econstructor|done..| |exact Hc].
    simpl. rewrite (co_bytes _ _ _ Hc), received_app. unfold received at 3. simpl.
    change (withheld _) with (withheld i). by rewrite Hwith, Hqe, !app_nil_r.
  - eapply inv_same; [..|exact H]; try done. congruence.
Qed.

Lemma Write_push_inv i : inv i -> inv (Write_push config i).
Proof.
  intros H. unfold Write_push.
  assert (Hgen : worker i <> WDone ->
    inv (if empty (writing i) then i
      else if (length (queue i) <? queueChunks config)%nat then
        let chunk := take (queueChunkSize config) (writing i) in
        i <| queued := queued i + 1 |> <| queue := queue i ++ [chunk] |>
          <| writing := drop (queueChunkSize config) (writing i) |> <| accepted := accepted i ++ chunk |>
      else if ctxDone i then i <| writing := [] |>
      else if pressured i then i else warn QueueFull i <| pressured := true |>)).
  { intros Hw. destruct (empty (writing i)) eqn:Ee; [done|].
    destruct (_ <? _)%nat; [|repeat case_match; try done; by (eapply inv_same; [..|exact H])].
    assert (Hcl : closed i = false).
    { destruct (closed i) eqn:E; [|done]. apply (in_writing _ H) in E. unfold empty in Ee. bool_hyps. done. }
    destruct H. assert (inputClosed i = false).
    { destruct (inputClosed i); [|done]. destruct in_closed0; congruence. }
    split; simpl; try congruence.
    - eapply (core_text _ _ _ i _ []); [constructor|by rewrite app_nil_r|done| |exact in_core0].
      simpl. rewrite (co_bytes _ _ _ in_core0), concat_app. simpl. rewrite app_nil_r.
      change (withheld _) with (withheld i). by rewrite <- !app_assoc.
    - done.
    - rewrite in_queued0, len_app. unfold len at 3. simpl. lia. }
  destruct (worker i) eqn:Ew; try (apply Hgen; congruence). by (eapply inv_same; [..|exact H]).
Qed.
Lemma uploadAsync_inv j batch b i : inv i -> inv (uploadAsync j batch b i).
Proof.
  intros H. pose proof (core_upload _ _ j batch b _ (in_core _ H)) as Hc. revert Hc. unfold uploadAsync.
  destruct (uploads i !! j) as [u|]; [|done]. intros Hc. destruct H.
  destruct (kerr _); destruct (ctxDone i && _); try destruct (_ <? _)%nat; split; try done.
Qed.

Lemma run_timer_inv i : worker i = WSelect -> inv i -> inv (run_timer ok i).
Proof.
  intros Ew H. unfold run_timer. destruct (timerArmed i); [|done]. simpl.
  destruct (negb (inPaste i) && negb (empty (buf i))) eqn:E; simpl.
  - apply andb_true_iff in E as [Hp _]. apply negb_true_iff in Hp.
    destruct H. rewrite Ew in *. split; simpl; try done.
    + eapply (core_text _ _ _ i _ [OText (buf i)]); [repeat econstructor|done..| |exact in_core0].
      simpl. rewrite (co_bytes _ _ _ in_core0), received_app. unfold withheld, received at 3. simpl.
      by rewrite Hp, app_nil_r, <- !app_assoc.
    + intros Hc. destruct (in_closed0 Hc) as (? & ? & ? & _). split_and!; try done.
      left. unfold withheld. simpl. by rewrite Hp.
  - eapply inv_same; [..|exact H]; [done|simpl; by rewrite Ew|done..].
Qed.

Lemma run_completion_inv i : worker i = WSelect -> inv i -> inv (run_completion i).
Proof.
  intros Ew H. unfold run_completion. destruct (completed i) as [|k rest] eqn:E; [done|].
  destruct H. rewrite Ew in *. split; simpl; try done.
  - by apply core_takes.
  - intros _. by apply in_quiet0.
Qed.

Lemma run_input_inv i : worker i = WSelect -> inv i -> inv (run_input ok i).
Proof.
  intros Ew H. unfold run_input. destruct (inputClosed i) eqn:Ei; [done|].
  destruct (queue i) as [|p rest] eqn:Eq.
  - destruct (closed i) eqn:Ec; [|done]. destruct H. rewrite Ew in *. simpl in in_core0.
    edestruct (flush_spec [] [] (i <| inputClosed := true |>)) as (i1 & -> & Hc & Hr & Hu & Hw).
    { eapply (core_text _ _ _ i _ []); [constructor|by rewrite app_nil_r|done| |exact in_core0].
      exact (co_bytes _ _ _ in_core0). }
    unfold rest_of, upView in *. simpl in *. simplify_eq. split; simpl.
    + eapply (core_text _ _ _ i1 _ []); [constructor|by rewrite app_nil_r|done| |].
      2: { by destruct (_ =? 0). }
      destruct (_ =? 0); exact (co_bytes _ _ _ Hc).
    + intros _. replace (completionBuffer i1) with (completionBuffer i) by congruence.
      replace (nextCompletion i1) with (nextCompletion i) by congruence. by apply in_quiet0.
    + replace (queue i1) with (queue i) by congruence. replace (queued i1) with (queued i) by congruence.
      rewrite in_queued0. by destruct (_ =? 0).
    + intros _. replace (writing i1) with (writing i) by congruence. auto.
    + intros _. split_and!; [congruence|congruence|by destruct (_ =? 0)|by left].
    + destruct (_ =? 0) eqn:E0; [|done]. bool_hyps. intros _ _. split; [congruence|done].
  - destruct H. rewrite Ew in *. split; simpl; try done.
    + eapply (core_text _ _ _ i _ []); [constructor|by rewrite app_nil_r|done| |exact in_core0].
      simpl. rewrite (co_bytes _ _ _ in_core0), Eq. done.
    + intros _. by apply in_quiet0.
    + rewrite in_queued0, Eq, len_cons. lia.
    + congruence.
Qed.

Lemma run_publishes_inv k i : inv i -> khand (worker i) = [k] -> holding (worker i) = false ->
  inv (run_publishes k i).
Proof.
  intros [] Hk Hh. unfold run_publishes. rewrite Hk in *. split; simpl; try done.
  - assert (Hn : hand (worker i) = []) by (by destruct (worker i)). rewrite Hn in *. by apply core_buffers.
  - rewrite in_queued0. by destruct (worker i).
  - intros Hc. destruct (in_closed0 Hc) as (? & ? & ? & ?). done.
Qed.

Lemma run_draining_inv k i : worker i = WDraining k -> inv i -> inv (run_draining k i).
Proof.
  intros Ew H. unfold run_draining. destruct (inputClosed i) eqn:Ei.
  { apply run_publishes_inv; [done|by rewrite Ew..]. }
  destruct (queue i) as [|p rest] eqn:Eq.
  - apply run_publishes_inv; [|by destruct (closed i); simpl; rewrite Ew..].
    destruct (closed i) eqn:Ec; [|done]. pose proof (in_core _ H) as Hc. destruct H. split; simpl; try done.
    + eapply (core_text _ _ _ i _ []); [constructor|by rewrite app_nil_r|done| |exact in_core0].
      exact (co_bytes _ _ _ in_core0).
    + intros _. split_and!; [done..|by rewrite Ew|]. right. rewrite Ew in Hc. simpl in Hc.
      destruct (co_range _ _ _ Hc (kseq k)) as [? _]; [|pose proof (co_next _ _ _ Hc); lia].
      unfold outstanding. rewrite map_app. set_solver.
    + rewrite Ew. done.
  - destruct H. rewrite Ew in *. split; simpl; try done.
    + eapply (core_text _ _ _ i _ []); [constructor|by rewrite app_nil_r|done| |exact in_core0].
      simpl. rewrite (co_bytes _ _ _ in_core0), Eq. done.
    + intros _. by apply in_quiet0.
    + rewrite in_queued0, Eq, len_cons. lia.
    + congruence.
Qed.
(** Buffering bytes and draining them. *)
Lemma drain_core h h' ks i i0 : len (accepted i0) < two64 -> core h ks i ->
  log i0 = log i -> upView i0 = upView i ->
  accepted i0 = received (log i0) ++ withheld i0 ++ h' ++ concat (queue i0) ->
  exists i1, drain_ i0 = (i1, WOk) /\ core h' ks i1 /\ rest_of i1 = rest_of i0 /\ uploadSeq i <= uploadSeq i1.
Proof.
  intros Hlen H El Ev Hb.
  assert (H0 : core h' ks i0) by (eapply (core_text _ _ _ i _ []); [constructor|by rewrite app_nil_r|done..]).
  destruct (drain_rounds i0) as (i1 & E & Hr). exists i1. destruct (core_rounds _ _ _ _ Hlen Hr H0) as [H1 Er].
  split_and!; [done..|]. unfold upView in Ev. simplify_eq. replace (uploadSeq i) with (uploadSeq i0) by congruence.
  assert (Hsub : exists l, log i1 = log i0 ++ l).
  { clear -Hr. induction Hr as [|a b c Hd _ [l' IH]]; [exists []; by rewrite app_nil_r|].
    destruct (dr_log _ _ Hd) as [l _ El _ _ _|u n _ _ _ El _ _ _]; rewrite IH, El, <- app_assoc; eauto. }
  destruct Hsub as [l El']. pose proof (co_holds _ _ _ H1) as Hh. rewrite El', holds_app, (co_holds _ _ _ H0) in Hh.
  apply (f_equal length) in Hh. rewrite length_app, !length_seqZ in Hh.
  pose proof (co_next _ _ _ H1). lia.
Qed.

(** The worker returns to [select], or ends. *)
Lemma inv_idle i w : w = WSelect \/ w = WDone -> core [] [] i ->
  completionBuffer i !! nextCompletion i = None -> queued i = len (queue i) ->
  (closed i = true -> writing i = []) ->
  (inputClosed i = true -> closed i = true /\ queue i = [] /\ (withheld i = [] \/ 0 < uploadSeq i)) ->
  (w = WDone -> err i = None -> inputClosed i = true /\ pendingUploads i = 0) -> inv (i <| worker := w |>).
Proof.
  intros Hw Hc Hn Hq Hwr Hcl Hd.
  assert (Hc' : core [] [] (i <| worker := w |>)).
  { eapply (core_text _ _ _ i _ []); [constructor|by rewrite app_nil_r|done| |exact Hc].
    exact (co_bytes _ _ _ Hc). }
  destruct Hw as [-> | ->]; split; simpl; auto; try lia;
    intros Hx; destruct (Hcl Hx) as (? & ? & ?); done.
Qed.

Lemma run_took_inv p i : len (accepted i) < two64 -> worker i = WTook p -> inv i ->
  inv (run_took config urlParse openLocalFile policyAt ok p i).
Proof.
  intros Hlen Ew [Hc Hq Hn Hw Hcl Hd]. rewrite Ew in *. simpl in Hc. unfold run_took.
  set (i0 := i <| buf := _ |> <| queue := _ |> <| queued := _ |>).
  destruct (drain_core p [] [] i i0) as (i1 & E1 & Hc1 & Hr1 & _); [done..| |].
  { unfold i0, withheld. simpl. rewrite (co_bytes _ _ _ Hc), !app_nil_r. unfold withheld.
    by rewrite <- !app_assoc. }
  rewrite E1. cbv beta iota zeta.
  assert (Hf : exists i2, (if closed i then flush ok i1 else (i1, WOk)) = (i2, WOk) /\ core [] [] i2 /\
    rest_of i2 = rest_of i0 /\ (closed i = true -> withheld i2 = [])).
  { destruct (closed i); [|by exists i1]. destruct (flush_spec _ _ _ Hc1) as (i2 & -> & ? & ? & _ & ?).
    exists i2. split_and!; try done. congruence. }
  destruct Hf as (i2 & -> & Hc2 & Hr2 & Hwh). cbn [handleWriteErr]. cbv beta iota zeta.
  unfold rest_of, i0 in Hr2. simpl in Hr2. injection Hr2 as Eq En Ecl _ _ Eic _ _ Eb Ex _ Ewr _.
  assert (Hopen : closed i = false -> inputClosed i2 = false).
  { intros E. rewrite Eic. destruct (inputClosed i); [|done]. destruct Hcl; congruence. }
  assert (Hidle : forall i4 w, w = WSelect \/ w = WDone ->
    (i4 = i2 /\ closed i = false \/ i4 = i2 <| inputClosed := true |> /\ closed i = true) ->
    (w = WDone -> inputClosed i4 = true /\ pendingUploads i4 = 0) -> inv (i4 <| worker := w |>)).
  { intros i4 w Hw' Hi4 Hdone. apply inv_idle; auto.
    - destruct Hi4 as [[-> _]|[-> _]]; [done|].
      eapply (core_text _ _ _ i2 _ []); [constructor|by rewrite app_nil_r|done| |exact Hc2].
      exact (co_bytes _ _ _ Hc2).
    - destruct Hi4 as [[-> _]|[-> _]]; simpl; rewrite Eb, Ex; by apply Hq.
    - destruct Hi4 as [[-> _]|[-> _]]; simpl; rewrite En, Eq; unfold len at 2; simpl; lia.
    - destruct Hi4 as [[-> _]|[-> _]]; simpl; rewrite Ecl, Ewr; auto.
    - destruct Hi4 as [[-> E]|[-> E]]; simpl; [by rewrite Hopen|]. intros _.
      split_and!; [congruence|done|]. left. by apply Hwh. }
  destruct (closed i) eqn:Ec.
  - destruct (_ && _) eqn:E; [bool_hyps; apply Hidle; auto|].
    eapply (inv_same (i2 <| inputClosed := true |> <| worker := WSelect |>)); try done. apply Hidle; auto. done.
  - rewrite Hopen by done. cbn [andb].
    eapply (inv_same (i2 <| worker := WSelect |>)); try done. apply Hidle; auto. done.
Qed.

Lemma run_drained_inv k p i : len (accepted i) < two64 -> worker i = WDrained k p -> inv i ->
  inv (run_drained urlParse openLocalFile policyAt ok k p i).
Proof.
  intros Hlen Ew [Hc Hq Hn Hw Hcl Hd]. rewrite Ew in *. simpl in Hc. unfold run_drained.
  destruct (drain_core p [] [k] i (i <| buf := buf i ++ p |>)) as (i1 & -> & Hc1 & Hr1 & _); [done..| |].
  { unfold withheld. simpl. rewrite (co_bytes _ _ _ Hc). unfold withheld. by rewrite <- !app_assoc. }
  unfold rest_of in Hr1. simpl in Hr1. injection Hr1 as Eq En Ecl _ _ Eic _ _ Eb Ex _ Ewr _.
  assert (Hc2 : core [] [k] (i1 <| worker := WDraining k |>)).
  { eapply (core_text _ _ _ i1 _ []); [constructor|by rewrite app_nil_r|done| |exact Hc1].
    exact (co_bytes _ _ _ Hc1). }
  split; [exact Hc2|simpl; rewrite ?Eq, ?En, ?Ecl, ?Eb, ?Ex, ?Ewr, ?Eic; try done..].
  - intros _. by apply Hq.
  - intros Hx. by destruct (Hcl Hx) as (_ & _ & ? & _).
Qed.

Lemma run_publish_inv i : len (accepted i) < two64 -> worker i = WPublish -> inv i -> inv (run_publish ok i).
Proof.
  intros Hlen Ew [Hc Hq Hn Hw Hcl Hd]. rewrite Ew in *. simpl in *. unfold run_publish.
  assert (Hcl' : inputClosed i = true -> closed i = true /\ queue i = [] /\ (withheld i = [] \/ 0 < uploadSeq i)).
  { intros Hx. by destruct (Hcl Hx) as (? & ? & _ & ?). }
  destruct (completionBuffer i !! nextCompletion i) as [ready|] eqn:E.
  - pose proof (core_publishes _ _ _ Hlen E Hc) as Hc'. rewrite writeDest_ok.
    cbn [handleWriteErr]. cbv beta iota zeta. split; [|simpl; rewrite ?Ew; try done..].
    + match goal with |- core _ _ ?j => change (core (hand (worker i)) (khand (worker i)) j) end. rewrite Ew.
      eapply (core_text _ _ _ _ _ []); [constructor| | | |exact Hc']; [by rewrite app_nil_r|done|].
      exact (co_bytes _ _ _ Hc').
  - unfold finishIf. apply inv_idle; auto; [destruct (_ && _); auto|lia|].
    destruct (_ && _) eqn:Ef; [|done]. by bool_hyps.
Qed.

Lemma step_inv op i : len (accepted i) < two64 -> races op i = false -> inv i -> inv (step_ op i).
Proof.
  intros Hlen Hr H. destruct op as [p| | | |j batch| | | | |]; simpl.
  - by apply Write_start_inv.
  - by apply Write_push_inv.
  - unfold Close. destruct (empty (writing i)) eqn:E; [|done]. unfold empty in E. bool_hyps.
    destruct H. split; simpl; try done.
    + eapply (core_text _ _ _ i _ []); [constructor|by rewrite app_nil_r|done| |exact in_core0].
      exact (co_bytes _ _ _ in_core0).
    + intros Hx. by destruct (in_closed0 Hx) as (_ & ? & ? & ?).
  - unfold Abort, setError. change (err (i <| ctxDone := true |>)) with (err i). destruct H.
    assert (Hc : core (hand (worker i)) (khand (worker i)) (i <| ctxDone := true |>)).
    { destruct in_core0. by split. }
    destruct (err i) eqn:E; (split; [|simpl; done || (intros; congruence)..]); [exact Hc|].
    eapply (core_text _ _ _ (i <| ctxDone := true |>) _ []); [constructor|by rewrite app_nil_r|done| |exact Hc].
    exact (co_bytes _ _ _ Hc).
  - by apply uploadAsync_inv.
  - destruct (worker i) eqn:E; try done. unfold run_ctx. destruct (ctxDone i); [|done].
    destruct H. rewrite E in *. assert (Hquiet := in_quiet0 ltac:(done)).
    assert (Hcl : inputClosed i = true -> closed i = true /\ queue i = [] /\ (withheld i = [] \/ 0 < uploadSeq i)).
    { intros Hx. by destruct (in_closed0 Hx) as (? & ? & _ & ?). }
    unfold setError. change (err (i <| worker := WDone |>)) with (err i). destruct (err i) eqn:Ee.
    + apply inv_idle; auto; [lia|congruence].
    + change (inv (i <| err := Some Canceled |> <| worker := WDone |>)).
      apply inv_idle; auto; [|simpl; lia|done].
      eapply (core_text _ _ _ i _ []); [constructor|by rewrite app_nil_r|done| |exact in_core0].
      exact (co_bytes _ _ _ in_core0).
  - destruct (worker i) eqn:E; try done. by apply run_timer_inv.
  - destruct (worker i) eqn:E; try done. by apply run_completion_inv.
  - destruct (worker i) eqn:E; try done. by apply run_input_inv.
  - destruct (worker i) eqn:E; try done.
    + by apply run_took_inv.
    + by apply run_draining_inv.
    + by apply run_drained_inv.
    + by apply run_publish_inv.
Qed.

(** ** Runs *)
Lemma rounds_rest i i' : rtc dround i i' -> rest_of i' = rest_of i.
Proof. induction 1 as [|i i1 i' Hd _ IH]; [done|]. rewrite IH. apply (dr_rest _ _ Hd). Qed.

Lemma drain_accepted i : accepted (fst (drain_ i)) = accepted i.
Proof.
  destruct (drain_rounds i) as (i' & -> & Hr). apply rounds_rest in Hr. unfold rest_of in Hr. simpl. congruence.
Qed.

Lemma flush_accepted i : accepted (fst (flush ok i)) = accepted i.
Proof. unfold flush. destruct (_ && _); [done|]. by rewrite writeDest_ok. Qed.

(** Bytes are accepted in order and never given back. *)
Lemma step_accepted op i : exists l, accepted (step_ op i) = accepted i ++ l.
Proof.
  assert (Hsame : forall j, accepted j = accepted i -> exists l, accepted j = accepted i ++ l).
  { intros j ->. exists []. by rewrite app_nil_r. }
  destruct op as [p| | | |j batch| | | | |]; simpl.
  - unfold Write_start. destruct (_ || _); [by apply Hsame|]. destruct (direct _ _ _); [by eexists|by apply Hsame].
  - unfold Write_push. destruct (worker i); try (by apply Hsame); repeat case_match; try (by apply Hsame); by eexists.
  - apply Hsame. unfold Close. by case_match.
  - apply Hsame. unfold Abort, setError. by case_match.
  - apply Hsame. unfold uploadAsync. by repeat case_match.
  - apply Hsame. unfold run_ctx, setError. by repeat case_match.
  - apply Hsame. destruct (worker i); try done. unfold run_timer. destruct (negb (timerArmed i)); [done|].
    by destruct (_ && _).
  - apply Hsame. unfold run_completion. by repeat case_match.
  - apply Hsame. destruct (worker i); try done. unfold run_input. destruct (inputClosed i); [done|].
    destruct (queue i); [|done]. destruct (closed i); [|done].
    pose proof (flush_accepted (i <| inputClosed := true |>)) as Ha.
    destruct (flush ok _) as [i1 r]. unfold setError. by repeat case_match.
  - apply Hsame. destruct (worker i) as [|p|k|k p| |]; try done.
    + unfold run_took. set (i0 := i <| buf := _ |> <| queue := _ |> <| queued := _ |>).
      destruct (drain_rounds i0) as (i1 & E & Hr). pose proof (drain_accepted i0) as Ha. rewrite E in Ha |- *.
      pose proof (flush_accepted i1) as Hf. cbv beta iota zeta.
      destruct (closed i); [destruct (flush ok i1) as [i2 r]; destruct r|]; simpl in *;
        repeat case_match; simpl; congruence.
    + unfold run_draining, run_publishes. by repeat case_match.
    + unfold run_drained. pose proof (drain_accepted (i <| buf := buf i ++ p |>)) as Ha.
      destruct (drain_rounds (i <| buf := buf i ++ p |>)) as (i1 & E & _). rewrite E in Ha |- *. done.
    + unfold run_publish. by destruct (_ !! _).
Qed.

Fixpoint orderly (ops : list Op) (i : Interceptor) : Prop :=
  match ops with
  | [] => True
  | op :: rest => races op i = false /\ orderly rest (step_ op i)
  end.

Lemma run_accepted ops : forall i, len (accepted i) <= len (accepted (run_ ops i)).
Proof.
  induction ops as [|op ops IH]; intros i; [done|]. simpl. etransitivity; [|apply IH].
  destruct (step_accepted op i) as [l ->]. rewrite len_app. pose proof (len_nonneg l). lia.
Qed.

Lemma paste_run_inv ops : forall i, inv i -> orderly ops i -> len (accepted (run_ ops i)) < two64 -> inv (run_ ops i).
Proof.
  induction ops as [|op ops IH]; intros i H Ho Hlen; [done|]. destruct Ho as [Hr Ho].
  apply IH; [|done..]. apply step_inv; [|done..].
  pose proof (run_accepted (op :: ops) i). lia.
Qed.

Lemma NewWithPolicy_inv : inv NewWithPolicy.
Proof.
  split; try done. split; try done; try (intros; set_solver); try lia.
  - by constructor.
  - intros n _ Hn. simpl in Hn. lia.
  - intros l1 n f l2 E. by destruct l1.
Qed.

(** C31: over every interleaving of the writer, the worker, the flush timer and
    the uploads in which no direct write overtakes a chunk in the worker's hand, and
    with a destination that takes its writes: everything accepted from the keyboard
    is, in order, what was forwarded, the held pastes in their places, and what the
    worker still withholds; the held pastes are numbered in the order of the stream
    and released in that order, each once, after all that came before it, and as the
    original paste or with its paths replaced; and when no upload is under way every
    held paste has been released. *)
Theorem paste_stream_order ops :
  let s := run config urlParse openLocalFile policyAt (fun _ => WOk) ops NewWithPolicy in
  orderly ops NewWithPolicy -> len (accepted s) < two64 ->
  accepted s = received (log s) ++ withheld s ++ hand (worker s) ++ concat (queue s) /\
  holds (log s) = seqZ 0 (uploadSeq s) /\ published (log s) = seqZ 0 (nextCompletion s) /\
  nextCompletion s <= uploadSeq s /\
  (forall l1 n f l2, log s = l1 ++ OPaste n f :: l2 ->
     exists body, OHold n body ∈ l1 /\ result_ok body f) /\
  (uploads s = [] -> completed s = [] -> (worker s = WSelect \/ worker s = WDone) -> ctxDone s = false ->
     nextCompletion s = uploadSeq s).
Proof.
  intros s Ho Hlen. pose proof (paste_run_inv ops _ NewWithPolicy_inv Ho Hlen) as H. fold s in H.
  pose proof (in_core _ H) as Hc. split_and!.
  - apply (co_bytes _ _ _ Hc).
  - apply (co_holds _ _ _ Hc).
  - apply (co_published _ _ _ Hc).
  - apply (co_next _ _ _ Hc).
  - apply (co_paste _ _ _ Hc).
  - intros Hu Hk Hw Hx. pose proof (co_next _ _ _ Hc) as Hn.
    destruct (decide (nextCompletion s = uploadSeq s)) as [|Hne]; [done|].
    destruct (co_cover _ _ _ Hc (nextCompletion s) Hx) as [Hin|[k Hin]]; [lia| |].
    + unfold outstanding in Hin. rewrite Hu, Hk in Hin.
      assert (Hkh : khand (worker s) = []) by (by destruct Hw as [-> | ->]).
      rewrite Hkh in Hin. by apply elem_of_nil in Hin.
    + rewrite (in_quiet _ H) in Hin; [done|]. by destruct Hw as [-> | ->].
Qed.

(** ** Without uploads *)
Lemma idle_uploads h ks i : core h ks i -> uploadSeq i = 0 -> uploads i = [] /\ completed i = [] /\ ks = [].
Proof.
  intros H E. assert (Ho : outstanding ks i = []).
  { destruct (outstanding ks i) as [|n l] eqn:Eo; [done|].
    destruct (co_range _ _ _ H n) as [? _]; [rewrite Eo; left|]. pose proof (co_next _ _ _ H). lia. }
  unfold outstanding in Ho. apply app_nil in Ho as [Hu Hk]. apply map_eq_nil in Hu, Hk.
  by apply app_nil in Hk as [? ?].
Qed.

Lemma rounds_seq i i' : (forall n, transfer (policyAt n) = false) -> rtc dround i i' -> uploadSeq i' = uploadSeq i.
Proof.
  intros Ht. induction 1 as [|i i1 i' Hd _ IH]; [done|]. rewrite IH.
  destruct (dr_log _ _ Hd) as [l _ _ _ Es _|u n Htr]; [done|]. by rewrite Ht in Htr.
Qed.

Lemma drain_seq i : (forall n, transfer (policyAt n) = false) -> uploadSeq (fst (drain_ i)) = uploadSeq i.
Proof. intros Ht. destruct (drain_rounds i) as (i' & -> & Hr). by apply rounds_seq. Qed.

Lemma flush_seq i : uploadSeq (fst (flush ok i)) = uploadSeq i.
Proof. unfold flush. destruct (_ && _); [done|]. by rewrite writeDest_ok. Qed.

Lemma step_seq op i : (forall n, transfer (policyAt n) = false) -> inv i -> uploadSeq i = 0 ->
  uploadSeq (step_ op i) = 0 /\ races op i = false.
Proof.
  intros Ht H E. destruct (idle_uploads _ _ _ (in_core _ H) E) as (Hu & Hk & Hks).
  split; [|unfold races; destruct op, (worker i); done].
  destruct op as [p| | | |j batch| | | | |]; simpl.
  - unfold Write_start. destruct (_ || _); [done|]. by destruct (direct _ _ _).
  - unfold Write_push. by repeat case_match.
  - unfold Close. by case_match.
  - unfold Abort, setError. by case_match.
  - unfold uploadAsync. by rewrite Hu.
  - unfold run_ctx, setError. by repeat case_match.
  - destruct (worker i); try done. unfold run_timer. destruct (negb (timerArmed i)); [done|]. by destruct (_ && _).
  - destruct (worker i); try done. unfold run_completion. by rewrite Hk.
  - destruct (worker i); try done. unfold run_input. destruct (inputClosed i); [done|].
    destruct (queue i); [|done]. destruct (closed i); [|done].
    pose proof (flush_seq (i <| inputClosed := true |>)) as Hf.
    destruct (flush ok _) as [i1 r]. simpl in Hf. unfold setError. by repeat case_match; simpl; rewrite Hf.
  - destruct (worker i) as [|p|k|k p| |]; try done.
    + unfold run_took. set (i0 := i <| buf := _ |> <| queue := _ |> <| queued := _ |>).
      destruct (drain_rounds i0) as (i1 & E1 & _). pose proof (drain_seq i0 Ht) as Ha. rewrite E1 in Ha |- *.
      pose proof (flush_seq i1) as Hf. cbv beta iota zeta.
      destruct (closed i); [destruct (flush ok i1) as [i2 r]; destruct r|]; simpl in *;
        repeat case_match; simpl; congruence.
    + unfold run_publish. by destruct (_ !! _).
Qed.

Lemma quiet_run ops : (forall n, transfer (policyAt n) = false) -> forall i, inv i -> uploadSeq i = 0 ->
  len (accepted (run_ ops i)) < two64 -> orderly ops i /\ uploadSeq (run_ ops i) = 0.
Proof.
  intros Ht. induction ops as [|op ops IH]; intros i H E Hlen; [done|].
  destruct (step_seq op i Ht H E) as [Es Hr].
  assert (Hi : inv (step_ op i)).
  { apply step_inv; [|done..]. pose proof (run_accepted (op :: ops) i). lia. }
  destruct (IH _ Hi Es Hlen) as [? ?]. done.
Qed.

Lemma text_output l : holds l = [] -> published l = [] -> output l = received l.
Proof.
  induction l as [|o l IH]; intros Hh Hp; [done|]. destruct o as [b|n body|n f]; try done.
  change (output (OText b :: l)) with (b ++ output l). by rewrite IH.
Qed.


End props.

(** ** Concrete runs

    The configuration of [cmd/pb]: direct input, a flush delay, the default queue;
    every file exists and a transfer is configured. *)
Definition demoConfig : Config := mkConfig true 1000000 (Z.to_nat 32768) 32.
Definition demoRun (ops : list Op) : Interceptor :=
  run demoConfig (fun _ => None) (fun _ _ => true) (fun _ => mkPolicy true 20) (fun _ => WOk) ops NewWithPolicy.

(** A paste of one local path is typed and held, and its upload completes. *)
Definition pasteHeld : list Op :=
  [OpWrite (frame (bytes "/tmp/a.png")); OpPush; OpInput; OpWork;
   OpUpload 0 (Some [bytes "/remote/a.png"]) false].

(** A keystroke sent on while the upload is under way, then the paste. *)
Definition pasteReleased : list Op := pasteHeld ++ [OpWrite (bytes "x"); OpCompletion; OpWork; OpWork; OpWork].

Lemma paste_stream_order_witness :
  let s := demoRun pasteReleased in
  uploadSeq s = 1 /\ nextCompletion s = uploadSeq s /\
  output (log s) = bytes "x" ++ frame (bytes "/remote/a.png") /\
  accepted s = received (log s) ++ withheld s ++ hand (worker s) ++ concat (queue s).
Proof.
  destruct (paste_stream_order demoConfig (fun _ => None) (fun _ _ => true) (fun _ => mkPolicy true 20)
    pasteReleased) as (Hb & _ & _ & _ & _ & Hn).
  - vm_compute. repeat split.
  - vm_compute. reflexivity.
  - split; [vm_compute; reflexivity|]. split; [|split; [vm_compute; reflexivity|exact Hb]].
    apply Hn; try (vm_compute; reflexivity). left. vm_compute. reflexivity.
Defined.


(** A direct write can overtake a queued chunk.  [drainAcceptedInput] takes a
    chunk off the count of queued chunks before it holds [stateMu]; a [Write] in
    between finds nothing queued and nothing buffered and goes straight to the
    destination.  An arrow key that arrives as ESC and then [[A] while an upload
    completes reaches the remote as [[A], with the ESC behind it. *)
Theorem direct_write_overtakes :
  let s := demoRun (pasteHeld ++ [OpWrite [x1b]; OpPush; OpCompletion; OpWork; OpWrite (bytes "[A"); OpWork;
                                  OpWork; OpWork; OpWork; OpWrite [x1b]; OpPush; OpInput; OpWork]) in
  accepted s = frame (bytes "/tmp/a.png") ++ x1b :: bytes "[A" ++ [x1b] /\
  output (log s) = bytes "[A" ++ frame (bytes "/remote/a.png") ++ [x1b] /\ withheld s = [x1b].
Proof. vm_compute. split_and!; reflexivity. Qed.

(** The path that publishes a completed upload forgets the withheld bytes.
    When it is the one to see that the input is closed, the worker ends without
    [flush] and an unterminated paste is lost; when it takes a lone ESC off the
    queue, no timer is armed, and nothing the worker can do forwards the key. *)
Theorem completion_forgets_withheld :
  (let s := demoRun (pasteHeld ++ [OpWrite (startMarker ++ bytes "abc"); OpPush; OpInput; OpWork; OpClose;
                                   OpCompletion; OpWork; OpWork; OpWork]) in
   worker s = WDone /\ err s = None /\ withheld s = startMarker ++ bytes "abc" /\
   output (log s) = frame (bytes "/remote/a.png")) /\
  (let s := demoRun (pasteHeld ++ [OpWrite [x1b]; OpPush; OpCompletion; OpWork; OpWork; OpWork; OpWork; OpWork]) in
   worker s = WSelect /\ withheld s = [x1b] /\ queue s = [] /\ writing s = [] /\
   Forall (fun op => step demoConfig (fun _ => None) (fun _ _ => true) (fun _ => mkPolicy true 20) (fun _ => WOk) op s = s)
     [OpCtx; OpTimer; OpCompletion; OpInput; OpWork]).
Proof.
  split; [vm_compute; split_and!; reflexivity|]. split_and!; [vm_compute; reflexivity..|].
  do 5 (apply Forall_cons; split; [vm_compute; reflexivity|]). by apply Forall_nil_2.
Qed.
