(* ===== verification/RelaySelect.v ===== *)
(** * Relay region selection

    Models [internal/peertransport/relayselection/selector.go]: the choice of a relay
    region from the round trip times measured at both ends, with the hysteresis that
    keeps it from flapping.

    Durations and times are nanoseconds, 0 the zero time.  Go iterates a map in an
    unspecified order: [order] is that order for one call, a permutation. *)
From S2P Require Import Prelude.
From stdpp Require Import sorting.
#[local] Open Scope Z_scope.
#[local] Set Warnings "-clear-no-such-hyp".

Definition MaximumRegions : Z := 32.
Definition Second : Z := 1000000000.

Record Config := mkConfig {
  MinimumGain : Z; MinimumGainPercent : Z; RequiredSamples : Z;
  MinimumSpacing : Z; RequiredSpan : Z; MaximumVectorAge : Z }.

Definition DevelopmentConfig : Config :=
  mkConfig (10 * 1000000) 15 3 (3 * Second) (10 * Second) (300 * Second).

(** A 64-bit duration wraps around. *)
Definition wrap64 (z : Z) : Z := (z + 2 ^ 63) mod 2 ^ 64 - 2 ^ 63.

Definition validate (c : Config) : bool :=
  (0 <? MinimumGain c) && (MinimumGain c <=? Second) && (0 <? MinimumGainPercent c)
  && (MinimumGainPercent c <? 100) && (2 <=? RequiredSamples c) && (RequiredSamples c <=? 16)
  && (0 <? MinimumSpacing c) && (wrap64 ((RequiredSamples c - 1) * MinimumSpacing c) <=? RequiredSpan c)
  && (RequiredSpan c <=? MaximumVectorAge c) && (MaximumVectorAge c <=? 3600 * Second).

Record RegionSample := mkSample { Region : string; RTT : Z }.
Record VectorSet := mkSet {
  Generation : Z; ObservedAt : Z; Client : list RegionSample; Host : list RegionSample }.
Record RegionState := mkState { Healthy : bool; Capacity : bool }.
Record Decision_ := mkDecision { dRegion : string; dCombined : Z; Switched : bool }.

Record Selector := mkSelector {
  config : Config; current : string; generation : Z; candidate : string; first : Z; last : Z; count : Z }.
#[export] Instance Selector_eta : Eta Selector := fun s =>
  mkSelector (config s) (current s) (generation s) (candidate s) (first s) (last s) (count s).

Inductive SelectError := ErrInvalid.

Definition New (c : Config) : result SelectError Selector :=
  if validate c then Ok (mkSelector c EmptyString 0 EmptyString 0 0 0) else Err ErrInvalid.

(** [time.Time.Sub] saturates at the limits of a 64-bit duration. *)
Definition Sub (a b : Z) : Z := Z.max (- 2 ^ 63) (Z.min (2 ^ 63 - 1) (a - b)).

Definition noName (s : string) : bool := bool_decide (s = EmptyString).

Definition validRegion (s : string) : bool :=
  negb (noName s) && (Z.of_nat (String.length s) <=? 128) && allChars s.

(** The loop of [validateVector]. *)
Fixpoint vectorLoop (samples : list RegionSample) (acc : gmap string Z) : result SelectError (gmap string Z) :=
  match samples with
  | [] => Ok acc
  | s :: rest =>
      if negb (validRegion (Region s)) || (RTT s <=? 0) || (60 * Second <? RTT s) then Err ErrInvalid
      else match acc !! Region s with
           | Some _ => Err ErrInvalid
           | None => vectorLoop rest (<[Region s := RTT s]> acc)
           end
  end.
Definition validateVector (v : list RegionSample) : result SelectError (gmap string Z) :=
  if (len v =? 0) || (MaximumRegions <? len v) then Err ErrInvalid else vectorLoop v ∅.

(** [score]. *)
Record score := mkScore { sRegion : string; Combined : Z }.

Definition less (a b : score) : bool :=
  if Combined a =? Combined b then String.ltb (sRegion a) (sRegion b) else Combined a <? Combined b.

Fixpoint insertScore (e : score) (l : list score) : list score :=
  match l with
  | [] => [e]
  | x :: rest => if less x e then x :: insertScore e rest else e :: l
  end.
Definition sortScores (l : list score) : list score := fold_right insertScore [] l.

(** The condition of the loop of [combinedScores] over the client's map. *)
Definition eligible (host : gmap string Z) (states : gmap string RegionState) (e : string * Z) : option score :=
  match host !! fst e with
  | Some hostTime =>
      let state := default (mkState false false) (states !! fst e) in
      if negb (Healthy state) || negb (Capacity state) || (2 ^ 63 - 1 - hostTime <? snd e) then None
      else Some (mkScore (fst e) (snd e + hostTime))
  | None => None
  end.

Definition combinedScores (order : list (string * Z) -> list (string * Z)) (client host : list RegionSample)
    (states : gmap string RegionState) : result SelectError (list score) :=
  match validateVector client with
  | Err e => Err e
  | Ok clientRTT =>
      match validateVector host with
      | Err e => Err e
      | Ok hostRTT => Ok (sortScores (omap (eligible hostRTT states) (order (map_to_list clientRTT))))
      end
  end.

Fixpoint scoreFor (scores : list score) (region : string) : option score :=
  match scores with
  | [] => None
  | v :: rest => if bool_decide (sRegion v = region) then Some v else scoreFor rest region
  end.

Definition qualifies (cur cand : Z) (c : Config) : bool :=
  if (cur <=? cand) || (cur - cand <? MinimumGain c) then false
  else u64 (cur * MinimumGainPercent c) <=? u64 ((cur - cand) * 100).

Definition resetCandidate (s : Selector) : Selector :=
  s <| candidate := EmptyString |> <| first := 0 |> <| last := 0 |> <| count := 0 |>.

(** [Select] after its argument checks, with the scores of the call. *)
Definition decide_ (set : VectorSet) (scores : list score) (best : score) (s0 : Selector) : Selector * Decision_ :=
  let s := s0 <| generation := Generation set |> in
  match (if noName (current s) then None else scoreFor scores (current s)) with
  | None =>
      (resetCandidate (s <| current := sRegion best |>),
       mkDecision (sRegion best) (Combined best)
         (negb (noName (current s)) && negb (bool_decide (current s = sRegion best))))
  | Some currentScore =>
      let keep := mkDecision (current s) (Combined currentScore) false in
      if bool_decide (sRegion best = current s) || negb (qualifies (Combined currentScore) (Combined best) (config s))
      then (resetCandidate s, keep)
      else if negb (bool_decide (candidate s = sRegion best)) || (last s =? 0)
              || (Sub (ObservedAt set) (last s) <? MinimumSpacing (config s)) then
        if negb (bool_decide (candidate s = sRegion best)) then
          (s <| candidate := sRegion best |> <| first := ObservedAt set |> <| last := ObservedAt set |> <| count := 1 |>,
           keep)
        else (s, keep)
      else
        let s1 := s <| last := ObservedAt set |> <| count := if count s <? 255 then count s + 1 else count s |> in
        if (count s1 <? RequiredSamples (config s)) || (Sub (last s1) (first s1) <? RequiredSpan (config s))
        then (s1, keep)
        else (resetCandidate (s1 <| current := sRegion best |>), mkDecision (sRegion best) (Combined best) true)
  end.

Definition Select (order : list (string * Z) -> list (string * Z)) (now : Z) (set : VectorSet)
    (states : gmap string RegionState) (s : Selector) : Selector * result SelectError Decision_ :=
  if (now =? 0) || (Generation set =? 0) || (ObservedAt set =? 0) || (now <? ObservedAt set)
     || (MaximumVectorAge (config s) <? Sub now (ObservedAt set))
     || (Z.of_nat (size states) =? 0) || (MaximumRegions <? Z.of_nat (size states)) then (s, Err ErrInvalid)
  else
    match combinedScores order (Client set) (Host set) states with
    | Ok (best :: rest) =>
        if Generation set <=? generation s then (s, Err ErrInvalid)
        else let '(s', d) := decide_ set (best :: rest) best s in (s', Ok d)
    | _ => (s, Err ErrInvalid)
    end.

(** ** The order of the scores *)
Lemma compare_lt_trans a : forall b c, String.compare a b = Lt -> String.compare b c = Lt -> String.compare a c = Lt.
Proof.
  induction a as [|x a IH]; intros [|y b] [|z c]; simpl; try done.
  unfold Ascii.compare. intros H1 H2.
  destruct (N.compare_spec (Ascii.N_of_ascii x) (Ascii.N_of_ascii y)) as [E1|L1|L1]; try done;
    destruct (N.compare_spec (Ascii.N_of_ascii y) (Ascii.N_of_ascii z)) as [E2|L2|L2]; try done.
  - rewrite E1, E2, N.compare_refl. eauto.
  - rewrite E1. by apply N.compare_lt_iff in L2 as ->.
  - rewrite <- E2. by apply N.compare_lt_iff in L1 as ->.
  - assert (L3 := N.lt_trans _ _ _ L1 L2). by apply N.compare_lt_iff in L3 as ->.
Qed.

Lemma ltb_spec a b : String.ltb a b = true <-> String.compare a b = Lt.
Proof. unfold String.ltb. by destruct (String.compare a b). Qed.

Lemma compare_refl a : String.compare a a = Eq.
Proof. pose proof (String.compare_antisym a a) as H. by destruct (String.compare a a). Qed.

(** [noMore a b]: [b] is not less than [a]. *)
Definition noMore (a b : score) : Prop := less b a = false.

Lemma noMore_spec a b : noMore a b <-> Combined a < Combined b \/
  (Combined a = Combined b /\ (sRegion a = sRegion b \/ String.compare (sRegion a) (sRegion b) = Lt)).
Proof.
  unfold noMore, less. destruct (Z.eqb_spec (Combined b) (Combined a)) as [E|E].
  - unfold String.ltb. rewrite String.compare_antisym.
    destruct (String.compare (sRegion a) (sRegion b)) eqn:Ec; simpl.
    + apply String.compare_eq_iff in Ec. split; [auto|done].
    + split; [auto|done].
    + split; [done|]. intros [|[_ [Er|]]]; [lia| |done]. rewrite Er, compare_refl in Ec. done.
  - rewrite Z.ltb_ge. lia.
Qed.

#[local] Instance noMore_trans : Transitive noMore.
Proof.
  intros a b c. rewrite !noMore_spec. intros [?|[? H1]] [?|[? H2]]; [left; lia..|]. right.
  split; [congruence|]. destruct H1 as [->|H1]; [done|]. destruct H2 as [<-|H2]; [auto|].
  right. by eapply compare_lt_trans.
Qed.

#[local] Instance noMore_antisymm : AntiSymm (=) noMore.
Proof.
  intros [r c] [r' c']. rewrite !noMore_spec. simpl. intros [?|[? H1]] [?|[? H2]]; try lia. subst.
  destruct H1 as [->|H1]; [done|]. destruct H2 as [->|H2]; [done|].
  rewrite String.compare_antisym, H1 in H2. done.
Qed.

Lemma less_noMore a b : less a b = true -> noMore a b.
Proof.
  intros H. apply noMore_spec. unfold less in H. destruct (Z.eqb_spec (Combined a) (Combined b)).
  - right. split; [done|right]. by apply ltb_spec.
  - left. by apply Z.ltb_lt.
Qed.

Lemma insertScore_perm e l : insertScore e l ≡ₚ e :: l.
Proof. induction l as [|x l IH]; simpl; [done|]. case_match; [|done]. rewrite IH. apply Permutation_swap. Qed.
Lemma sortScores_perm l : sortScores l ≡ₚ l.
Proof. induction l as [|x l IH]; simpl; [done|]. by rewrite insertScore_perm, IH. Qed.

Lemma insertScore_sorted e l : StronglySorted noMore l -> StronglySorted noMore (insertScore e l).
Proof.
  induction 1 as [|x l Hl IH Hx]; simpl; [by repeat constructor|]. destruct (less x e) eqn:E.
  - constructor; [done|]. rewrite insertScore_perm. constructor; [by apply less_noMore|done].
  - constructor; [by constructor|]. constructor; [done|].
    eapply Forall_impl; [exact Hx|]. intros y Hy. by transitivity x.
Qed.
Lemma sortScores_sorted l : StronglySorted noMore (sortScores l).
Proof. induction l as [|x l IH]; simpl; [constructor|]. by apply insertScore_sorted. Qed.

(** Sorting forgets the order in which the runtime iterated the map. *)
Lemma sortScores_unique l l' : l ≡ₚ l' -> sortScores l = sortScores l'.
Proof.
  intros H. apply (StronglySorted_unique noMore); [apply sortScores_sorted..|]. by rewrite !sortScores_perm.
Qed.

Definition permutes (order : list (string * Z) -> list (string * Z)) : Prop := forall l, order l ≡ₚ l.

Lemma combinedScores_order o o' client host states : permutes o -> permutes o' ->
  combinedScores o client host states = combinedScores o' client host states.
Proof.
  unfold permutes. intros H H'. unfold combinedScores. destruct (validateVector client); [|done]. destruct (validateVector host); [|done].
  f_equal. apply sortScores_unique. by rewrite H, H'.
Qed.

(** ** What a vector says *)
Lemma vectorLoop_spec v : forall acc m, vectorLoop v acc = Ok m -> forall r x,
  m !! r = Some x <-> acc !! r = Some x \/ (mkSample r x ∈ v).
Proof.
  induction v as [|s v IH]; intros acc m E r x; simpl in E.
  - apply Ok_inj in E as <-. set_solver.
  - destruct (_ || _); [done|]. destruct (acc !! Region s) eqn:Ea; [done|].
    rewrite (IH _ _ E r x), elem_of_cons, lookup_insert_Some.
    destruct s as [r' x']; simpl in *. split.
    + intros [[[-> ->]|[? ?]]|?]; auto.
    + intros [H|[[= -> ->]|?]]; auto. left. right. split; [|done]. intros ->. congruence.
Qed.

Lemma vectorLoop_range v : forall acc m, vectorLoop v acc = Ok m ->
  Forall (fun s => 0 < RTT s <= 60 * Second) v.
Proof.
  induction v as [|s v IH]; intros acc m E; simpl in E; [constructor|].
  destruct (_ || _) eqn:Ev; [done|]. destruct (acc !! Region s); [done|]. bool_hyps.
  constructor; [lia|eauto].
Qed.

Lemma validateVector_spec v m : validateVector v = Ok m ->
  (forall r x, m !! r = Some x <-> mkSample r x ∈ v) /\ Forall (fun s => 0 < RTT s <= 60 * Second) v.
Proof.
  unfold validateVector. destruct (_ || _); [done|]. intros E. split; [|by eapply vectorLoop_range].
  intros r x. rewrite (vectorLoop_spec _ _ _ E), lookup_empty. naive_solver.
Qed.

(** A region both ends measured and that is healthy and has capacity, with the sum
    of the two round trip times. *)
Definition usable (set : VectorSet) (states : gmap string RegionState) (r : string) (total : Z) : Prop :=
  exists a b, mkSample r a ∈ Client set /\ mkSample r b ∈ Host set /\
    states !! r = Some (mkState true true) /\ total = a + b.

Lemma combinedScores_spec order set states scores : permutes order ->
  combinedScores order (Client set) (Host set) states = Ok scores ->
  StronglySorted noMore scores /\ forall r c, mkScore r c ∈ scores <-> usable set states r c.
Proof.
  unfold permutes. intros Ho. unfold combinedScores. destruct (validateVector (Client set)) as [cm|] eqn:Ec; [|done].
  destruct (validateVector (Host set)) as [hm|] eqn:Eh; [|done]. intros [= <-].
  split; [apply sortScores_sorted|]. intros r c.
  apply validateVector_spec in Ec as [Hc Rc], Eh as [Hh Rh]. rewrite sortScores_perm, list_elem_of_omap.
  unfold usable. split.
  - intros ([r' a] & Hin & He). rewrite (Ho (map_to_list cm)), elem_of_map_to_list in Hin. unfold eligible in He. simpl in He.
    destruct (hm !! r') as [b|] eqn:Eb; [|done]. destruct (_ || _) eqn:Ev; [done|]. simplify_eq.
    exists a, b. rewrite <- Hc, <- Hh. bool_hyps. split_and!; try done.
    destruct (states !! r) as [[[] []]|]; done.
  - intros (a & b & Ha & Hb & Hs & ->). exists (r, a).
    rewrite (Ho (map_to_list cm)), elem_of_map_to_list, Hc. split; [done|].
    unfold eligible. simpl. rewrite (proj2 (Hh r b) Hb), Hs. simpl.
    rewrite Forall_forall in Rc, Rh. specialize (Rc _ Ha). specialize (Rh _ Hb). simpl in *. unfold Second in *.
    destruct (_ <? a) eqn:El; [|done]. bool_hyps. lia.
Qed.

(** ** One call *)
Lemma scoreFor_Some scores r v : scoreFor scores r = Some v -> v ∈ scores /\ sRegion v = r.
Proof.
  induction scores as [|x l IH]; simpl; [done|]. case_bool_decide as E.
  - intros [= <-]. split; [left|done].
  - intros H. destruct (IH H). split; [by right|done].
Qed.
Lemma scoreFor_None scores r : scoreFor scores r = None -> forall v, v ∈ scores -> sRegion v <> r.
Proof.
  induction scores as [|x l IH]; simpl; [set_solver|]. case_bool_decide as E; [done|].
  intros H v [->|Hv]%elem_of_cons; [done|auto].
Qed.

(** What an accepted call rests on. *)
Record accepted (order : list (string * Z) -> list (string * Z)) (set : VectorSet)
    (states : gmap string RegionState) (s s' : Selector) (d : Decision_) (scores : list score) (best : score) : Prop := {
  ac_scores : combinedScores order (Client set) (Host set) states = Ok scores;
  ac_head : exists rest, scores = best :: rest;
  ac_decide : decide_ set scores best s = (s', d);
  ac_observed : ObservedAt set <> 0;
  ac_newer : generation s < Generation set }.

Lemma Select_accepted order now set states s s' d : Select order now set states s = (s', Ok d) ->
  exists scores best, accepted order set states s s' d scores best.
Proof.
  unfold Select. destruct (_ || _) eqn:Ev; [done|]. destruct (combinedScores _ _ _ _) as [[|best rest]|] eqn:E; try done.
  destruct (Generation set <=? generation s) eqn:Eg; [done|]. bool_hyps.
  destruct (decide_ set (best :: rest) best s) as [s1 d1] eqn:Ed. intros [= <- <-].
  exists (best :: rest), best. split; eauto.
Qed.

Lemma Select_error order now set states s s' e : Select order now set states s = (s', Err e) -> s' = s.
Proof.
  unfold Select. destruct (_ || _); [by intros [= <-]|].
  destruct (combinedScores _ _ _ _) as [[|best rest]|]; try (by intros [= <-]).
  destruct (Generation set <=? generation s); [by intros [= <-]|]. by destruct (decide_ _ _ _ _).
Qed.

Lemma best_least best rest : StronglySorted noMore (best :: rest) -> forall v, v ∈ best :: rest -> Combined best <= Combined v.
Proof.
  intros H v [->|Hv]%elem_of_cons; [done|]. apply StronglySorted_inv in H as [_ H].
  rewrite Forall_forall in H. apply H, noMore_spec in Hv. lia.
Qed.

Lemma Select_order order order' now set states s : permutes order -> permutes order' ->
  Select order now set states s = Select order' now set states s.
Proof. intros H H'. unfold Select. by rewrite (combinedScores_order order order'). Qed.

(** An accepted call decides for a region that both ends measured, that is
    healthy and has capacity, and reports the sum of the two round trip times; it
    takes the least sum when the current region is not usable any more; it reports
    a switch exactly when the region changes; and the decision does not depend on the
    order in which the runtime iterates the maps. *)
Theorem selector_decision order now set states s s' d :
  permutes order -> Select order now set states s = (s', Ok d) ->
  usable set states (dRegion d) (dCombined d) /\ current s' = dRegion d /\ generation s' = Generation set /\
  ((forall c, ~ usable set states (current s) c) -> forall r c, usable set states r c -> dCombined d <= c) /\
  (Switched d = true <-> current s <> EmptyString /\ dRegion d <> current s) /\
  (forall order', permutes order' -> Select order' now set states s = (s', Ok d)).
Proof.
  intros Ho E. assert (Ho' : forall order', permutes order' -> Select order' now set states s = (s', Ok d)).
  { intros order' H'. rewrite <- E. by apply Select_order. }
  destruct (Select_accepted _ _ _ _ _ _ _ E) as (scores & best & [Es [rest ->] Ed _ _]).
  destruct (combinedScores_spec _ _ _ _ Ho Es) as [Hsort Huse].
  assert (Hbest : usable set states (sRegion best) (Combined best)).
  { apply Huse. destruct best. left. }
  assert (Hleast : forall r c, usable set states r c -> Combined best <= c).
  { intros r c Hu. apply Huse in Hu. by apply (best_least _ _ Hsort) in Hu. }
  assert (Hcur : forall v, (if noName (current s) then None else scoreFor (best :: rest) (current s)) = Some v ->
    usable set states (current s) (Combined v)).
  { intros v. destruct (noName _); [done|]. intros [Hv <-]%scoreFor_Some. apply Huse. by destruct v. }
  unfold decide_ in Ed. change (current (s <| generation := Generation set |>)) with (current s) in Ed.
  destruct (if noName (current s) then None else _) as [v|] eqn:Ev.
  - specialize (Hcur v eq_refl).
    assert (Hn : current s <> EmptyString).
    { intros Hn. unfold noName in Ev. rewrite Hn, bool_decide_true in Ev by done. done. }
    assert (Hkeep : d = mkDecision (current s) (Combined v) false \/
      d = mkDecision (sRegion best) (Combined best) true /\ sRegion best <> current s).
    { destruct (_ || _) eqn:Eb in Ed; [simplify_eq; auto|]. bool_hyps.
      repeat case_match; simplify_eq; auto. }
    assert (Hs' : current s' = dRegion d /\ generation s' = Generation set).
    { repeat case_match; simplify_eq; done. }
    destruct Hs' as [-> ->]. destruct Hkeep as [->|[-> Hne]]; simpl; split_and!; try done; naive_solver.
  - simplify_eq. simpl. split_and!; try done.
    unfold noName. rewrite andb_true_iff, !negb_true_iff, !bool_decide_eq_false. naive_solver.
Qed.

(** ** Hysteresis *)
Record Call := mkCall {
  cOrder : list (string * Z) -> list (string * Z); cNow : Z; cSet : VectorSet; cStates : gmap string RegionState }.
Definition call_ (c : Call) (s : Selector) : Selector * result SelectError Decision_ :=
  Select (cOrder c) (cNow c) (cSet c) (cStates c) s.

(** In this call [b] has the least sum, and it improves on [a] by the margin. *)
Definition beats (cfg : Config) (c : Call) (b a : string) : Prop :=
  exists tb ta, usable (cSet c) (cStates c) b tb /\ usable (cSet c) (cStates c) a ta /\
    (forall r t, usable (cSet c) (cStates c) r t -> tb <= t) /\
    MinimumGain cfg <= ta - tb /\ ta * MinimumGainPercent cfg <= (ta - tb) * 100.

(** Times at least [gap] apart, from [a] to [b]. *)
Inductive spaced (gap : Z) : Z -> list Z -> Z -> Prop :=
| spaced_one t : spaced gap t [t] t
| spaced_snoc a ts b t : spaced gap a ts b -> gap <= t - b -> spaced gap a (ts ++ [t]) t.

Lemma spaced_le gap a ts b : 0 < gap -> spaced gap a ts b -> a <= b.
Proof. intros Hg. induction 1; lia. Qed.

Definition times (calls : list Call) : list Z := map (fun c => ObservedAt (cSet c)) calls.

(** The last accepted calls all favour [b] over [a], and among them are [n] spaced
    observations from [from] to [to]. *)
Definition evidence (cfg : Config) (calls : list Call) (b a : string) (n from to : Z) : Prop :=
  exists earlier recent ts, calls = earlier ++ recent /\ Forall (fun c => beats cfg c b a) recent /\
    sublist ts (times recent) /\ n <= len ts /\ spaced (MinimumSpacing cfg) from ts to.

Lemma evidence_one cfg calls c b a : beats cfg c b a ->
  evidence cfg (calls ++ [c]) b a 1 (ObservedAt (cSet c)) (ObservedAt (cSet c)).
Proof. intros H. exists calls, [c], [ObservedAt (cSet c)]. split_and!; auto using spaced_one. done. Qed.

Lemma evidence_more cfg calls c b a n from to : beats cfg c b a -> evidence cfg calls b a n from to ->
  evidence cfg (calls ++ [c]) b a n from to /\
  (MinimumSpacing cfg <= ObservedAt (cSet c) - to ->
   evidence cfg (calls ++ [c]) b a (n + 1) from (ObservedAt (cSet c))).
Proof.
  intros H (earlier & recent & ts & -> & Hr & Hs & Hn & Hsp).
  assert (Hr' : Forall (fun c => beats cfg c b a) (recent ++ [c])) by (apply Forall_app; auto).
  split.
  - exists earlier, (recent ++ [c]), ts. rewrite app_assoc. split_and!; auto.
    unfold times. rewrite map_app. by apply sublist_inserts_r.
  - intros Hg. exists earlier, (recent ++ [c]), (ts ++ [ObservedAt (cSet c)]).
    rewrite app_assoc. split_and!; auto.
    + unfold times. rewrite map_app. by apply sublist_app.
    + rewrite len_app. unfold len at 2. simpl. lia.
    + by eapply spaced_snoc.
Qed.

Section hysteresis.
Variable cfg : Config.
Hypothesis Hcfg : validate cfg = true.

Inductive reach : list Call -> Selector -> Prop :=
| reach_new s : New cfg = Ok s -> reach [] s
| reach_refused l s c s' e : reach l s -> call_ c s = (s', Err e) -> reach l s'
| reach_accepted l s c s' d : reach l s -> permutes (cOrder c) -> call_ c s = (s', Ok d) -> reach (l ++ [c]) s'.

Definition steady (l : list Call) (s : Selector) : Prop :=
  config s = cfg /\ (last s = 0 \/ evidence cfg l (candidate s) (current s) (count s) (first s) (last s)).

Lemma qualifies_beats c scores best rest v :
  permutes (cOrder c) -> scores = best :: rest ->
  combinedScores (cOrder c) (Client (cSet c)) (Host (cSet c)) (cStates c) = Ok scores ->
  v ∈ scores -> qualifies (Combined v) (Combined best) cfg = true ->
  beats cfg c (sRegion best) (sRegion v).
Proof.
  intros Ho -> Es Hv Hq. destruct (combinedScores_spec _ _ _ _ Ho Es) as [Hsort Huse].
  assert (Hb : usable (cSet c) (cStates c) (sRegion best) (Combined best)) by (apply Huse; destruct best; left).
  assert (Ha : usable (cSet c) (cStates c) (sRegion v) (Combined v)) by (apply Huse; by destruct v).
  exists (Combined best), (Combined v). split_and!; [done..| | |].
  - intros r t Ht. apply Huse in Ht. by apply (best_least _ _ Hsort) in Ht.
  - unfold qualifies in Hq. destruct (_ || _) eqn:E; [done|]. bool_hyps. lia.
  - assert (Hrange : 0 < Combined v <= 120 * Second /\ 0 < Combined best).
    { unfold combinedScores in Es. destruct (validateVector (Client _)) eqn:Ec; [|done].
      destruct (validateVector (Host _)) eqn:Eh; [|done]. apply validateVector_spec in Ec as [_ Rc], Eh as [_ Rh].
      rewrite Forall_forall in Rc, Rh.
      destruct Ha as (x & y & Hx%Rc & Hy%Rh & _ & ->), Hb as (x' & y' & Hx'%Rc & Hy'%Rh & _ & ->). simpl in *. lia. }
    unfold qualifies in Hq. destruct (_ || _) eqn:E; [done|]. unfold validate in Hcfg. unfold Second, two64 in *.
    bool_hyps. rewrite !u64_id in Hq by (unfold two64; nia). lia.
Qed.

Lemma Sub_le t a b : 0 < t -> (Sub a b <? t) = false -> t <= a - b.
Proof. unfold Sub. intros Ht H. bool_hyps. lia. Qed.

(** Every accepted call either starts over, extends the evidence, or acts on it. *)
Lemma steady_accepted l s c s' d : steady l s -> permutes (cOrder c) -> call_ c s = (s', Ok d) ->
  steady (l ++ [c]) s' /\
  (Switched d = true -> (exists t, usable (cSet c) (cStates c) (current s) t) ->
   exists n from to, evidence cfg (l ++ [c]) (dRegion d) (current s) n from to /\
     RequiredSamples cfg <= n /\ RequiredSpan cfg <= to - from).
Proof.
  intros [Ec He] Ho E. destruct (Select_accepted _ _ _ _ _ _ _ E) as (scores & best & [Es [rest Er] Ed Hat _]).
  assert (Hpos : 0 < MinimumSpacing cfg) by (unfold validate in Hcfg; bool_hyps; lia).
  unfold decide_ in Ed. change (current (s <| generation := _ |>)) with (current s) in Ed.
  change (config (s <| generation := _ |>)) with (config s) in Ed.
  change (candidate (s <| generation := _ |>)) with (candidate s) in Ed.
  change (last (s <| generation := _ |>)) with (last s) in Ed. rewrite Ec in Ed.
  destruct (if noName (current s) then None else scoreFor scores (current s)) as [v|] eqn:Ev.
  - assert (Hv : scoreFor scores (current s) = Some v) by (by destruct (noName (current s))).
    apply scoreFor_Some in Hv as [Hv Hcur].
    destruct (bool_decide (sRegion best = current s) || _) eqn:Eb; [simplify_eq; split; [split; [done|by left]|done]|].
    bool_hyps. pose proof (qualifies_beats _ _ _ _ _ Ho Er Es Hv H0) as Hbeats. rewrite Hcur in Hbeats.
    destruct (bool_decide (candidate s = sRegion best)) eqn:Ecand; bool_hyps; cbn [negb orb] in Ed.
    + destruct ((last s =? 0) || _) eqn:Egap.
      { simplify_eq. split; [|done]. split; [done|]. destruct He as [He|He]; [by left|right].
        simpl. rewrite Ecand in He |- *. by apply evidence_more. }
      bool_hyps. destruct He as [He|He]; [done|]. rewrite Ecand in He.
      destruct (evidence_more _ _ _ _ _ _ _ _ Hbeats He) as [_ Hmore].
      specialize (Hmore ltac:(apply Sub_le; [lia|by apply Z.ltb_ge])).
      assert (Hcount : evidence cfg (l ++ [c]) (sRegion best) (current s)
        (if count s <? 255 then count s + 1 else count s) (first s) (ObservedAt (cSet c))).
      { destruct Hmore as (x & y & z & ? & ? & ? & ? & ?). exists x, y, z. split_and!; try done.
        destruct (count s <? 255); lia. }
      destruct ((_ <? RequiredSamples cfg) || _) eqn:Ereq in Ed; simplify_eq.
      * split; [|done]. split; [done|]. right. simpl. by rewrite Ecand.
      * split; [split; [done|by left]|]. intros _ _. apply orb_false_iff in Ereq as [Er1 Er2].
        eexists _, _, _. split; [exact Hcount|]. split; [apply Z.ltb_ge in Er1; exact Er1|].
        destruct Hcount as (_ & _ & ts & _ & _ & _ & _ & Hsp). apply (spaced_le _ _ _ _ Hpos) in Hsp.
        destruct (Z.lt_ge_cases 0 (RequiredSpan cfg)) as [Hs|Hs]; [by apply (Sub_le _ _ _ Hs Er2)|lia].
    + simplify_eq. split; [|done]. split; [done|]. right. simpl. by apply evidence_one.
  - simplify_eq. split; [split; [done|by left]|]. intros Hsw [t Ht].
    destruct (noName (current s)) eqn:En; [done|].
    destruct (combinedScores_spec _ _ _ _ Ho Es) as [_ Huse]. apply Huse in Ht.
    by apply (scoreFor_None _ _ Ev) in Ht.
Qed.

Lemma reach_steady l s : reach l s -> steady l s.
Proof.
  induction 1 as [s E|l s c s' e _ IH E|l s c s' d _ IH Ho E].
  - unfold New in E. rewrite Hcfg in E. simplify_eq. split; [done|by left].
  - by apply Select_error in E as ->.
  - by eapply steady_accepted in E as [? _].
Qed.

(** C38: a region is left for a better one, while it is still usable, only on
    sustained evidence: the last accepted calls all measured the new region as the
    best by the configured margin over the current one, and among them are the
    required number of observations, pairwise spaced as configured and spanning the
    configured time. *)
Theorem selector_hysteresis l s c s' d :
  reach l s -> permutes (cOrder c) -> call_ c s = (s', Ok d) -> Switched d = true ->
  (exists t, usable (cSet c) (cStates c) (current s) t) ->
  exists earlier recent ts from to, l ++ [c] = earlier ++ recent /\
    Forall (fun c => beats cfg c (dRegion d) (current s)) recent /\
    sublist ts (times recent) /\ RequiredSamples cfg <= len ts /\
    spaced (MinimumSpacing cfg) from ts to /\ RequiredSpan cfg <= to - from.
Proof.
  intros Hr Ho E Hsw Hu. destruct (steady_accepted _ _ _ _ _ (reach_steady _ _ Hr) Ho E) as [_ H].
  destruct (H Hsw Hu) as (n & from & to & (x & y & ts & ? & ? & ? & ? & ?) & ? & ?).
  exists x, y, ts, from, to. split_and!; try done. lia.
Qed.
End hysteresis.

(** ** A concrete run

    Region [a] is chosen, then [b] is measured as better three times. *)
Definition demoCall (gen at_ rttA rttB : Z) : Call :=
  mkCall (fun l => l) at_
    (mkSet gen at_ [mkSample "a" rttA; mkSample "b" rttB] [mkSample "a" rttA; mkSample "b" rttB])
    {[ "a"%string := mkState true true; "b"%string := mkState true true ]}.
Definition ms : Z := 1000000.
Definition demoStart : Selector := mkSelector DevelopmentConfig EmptyString 0 EmptyString 0 0 0.
Definition demoFirst : Call := demoCall 1 (100 * Second) (20 * ms) (30 * ms).
Definition demoSecond : Call := demoCall 2 (110 * Second) (40 * ms) (20 * ms).
Definition demoThird : Call := demoCall 3 (115 * Second) (40 * ms) (20 * ms).
Definition demoLast : Call := demoCall 4 (121 * Second) (40 * ms) (20 * ms).
Definition demoCalls : list Call := [demoFirst; demoSecond; demoThird].
Definition demoState1 : Selector := Eval vm_compute in fst (call_ demoFirst demoStart).
Definition demoState2 : Selector := Eval vm_compute in fst (call_ demoSecond demoState1).
Definition demoState : Selector := Eval vm_compute in fst (call_ demoThird demoState2).

Lemma demoCalls_reach : reach DevelopmentConfig demoCalls demoState.
Proof.
  assert (Hid : permutes (fun l => l)) by (intros l; reflexivity).
  assert (E1 : call_ demoFirst demoStart = (demoState1, Ok (mkDecision "a" (40 * ms) false))) by (vm_compute; reflexivity).
  assert (E2 : call_ demoSecond demoState1 = (demoState2, Ok (mkDecision "a" (80 * ms) false))) by (vm_compute; reflexivity).
  assert (E3 : call_ demoThird demoState2 = (demoState, Ok (mkDecision "a" (80 * ms) false))) by (vm_compute; reflexivity).
  assert (H0 : reach DevelopmentConfig [] demoStart) by (by apply reach_new).
  pose proof (reach_accepted _ _ _ demoFirst _ _ H0 Hid E1) as H1.
  pose proof (reach_accepted _ _ _ demoSecond _ _ H1 Hid E2) as H2.
  exact (reach_accepted _ _ _ demoThird _ _ H2 Hid E3).
Qed.

Lemma selector_decision_witness :
  usable (cSet demoLast) (cStates demoLast) "b" (40 * ms).
Proof.
  apply (selector_decision (fun l => l) (cNow demoLast) (cSet demoLast) (cStates demoLast) demoState
    (fst (call_ demoLast demoState)) (mkDecision "b" (40 * ms) true)); [intros l; reflexivity|vm_compute; reflexivity].
Defined.

Lemma selector_hysteresis_witness :
  exists earlier recent ts from to, demoCalls ++ [demoLast] = earlier ++ recent /\
    Forall (fun c => beats DevelopmentConfig c "b" "a") recent /\ sublist ts (times recent) /\
    3 <= len ts /\ spaced (3 * Second) from ts to /\ 10 * Second <= to - from.
Proof.
  apply (selector_hysteresis DevelopmentConfig eq_refl demoCalls demoState demoLast
    (fst (call_ demoLast demoState)) (mkDecision "b" (40 * ms) true)).
  - exact demoCalls_reach.
  - intros l. reflexivity.
  - vm_compute. reflexivity.
  - reflexivity.
  - exists (80 * ms), (40 * ms), (40 * ms). split_and!; [left|left|vm_compute; reflexivity|reflexivity].
Defined.
