(* ===== verification/OpJournal.v ===== *)
(** * Operation journal

    Models [internal/hostruntime/operation/journal.go] and the operation table of
    [internal/hostruntime/store/store.go]: every mutating request of a client carries
    an operation id, and the journal runs it once and answers retries from memory or
    from the store, across restarts of the host.

    [Execute] is cut where it releases the mutex: at the call of [run] and where it
    waits for another call's entry.  Entries are shared by the calls that wait for
    them, so they live in a heap of pointers.  The hash of the canonical request is a
    parameter ([CanonicalHash] decodes the request with [encoding/json]).  Times are
    nanoseconds.  A statement of the database may fail, with or without having been
    applied. *)
From S2P Require Import Prelude.
From stdpp Require Import sorting.
#[local] Open Scope Z_scope.
#[local] Set Warnings "-clear-no-such-hyp".

Inductive OpError :=
| ErrInvalidOperationID | ErrInvalidRequest | ErrOperationConflict | ErrJournalFull
| ErrOperationUncertain | ErrStore | ErrStoreConflict | ErrResultTooLarge.

Record Outcome := mkOutcome { Result : list byte; ErrorCode : string }.
#[export] Instance Outcome_eq_dec : EqDecision Outcome.
Proof. solve_decision. Defined.
Definition noOutcome : Outcome := mkOutcome [] EmptyString.

(** ** The table of operations *)
Inductive OpState := Pending | Completed.
#[export] Instance OpState_eq_dec : EqDecision OpState.
Proof. solve_decision. Defined.

Record OperationResult := mkRow {
  RequestHash : list byte; State : OpState; rOutcome : Outcome; CompletedAt : Z; ExpiresAt : Z }.
Abbreviation Table := (gmap string OperationResult).

Definition MaxOperationResultBytes : Z := 64 * 1024.

(** What the database makes of one statement; [DbReadFails]: the statement is good and
    the query that follows it, where the code makes one, is not. *)
Inductive Db := DbOk | DbBusy | DbFail (applied : bool) | DbReadFails.
Definition applies (d : Db) : bool :=
  match d with DbOk | DbReadFails => true | DbFail b => b | DbBusy => false end.
Definition fails (d : Db) : bool := match d with DbOk | DbReadFails => false | _ => true end.
Definition readFails (d : Db) : bool := match d with DbReadFails => true | _ => false end.

Definition DeleteExpiredOperations (d : Db) (now : Z) (t : Table) : Table * bool :=
  (if applies d then filter (fun kv => now < ExpiresAt (snd kv)) t else t, fails d).

(** INSERT ... ON CONFLICT DO NOTHING, then the row of the id. *)
Definition ReserveOperation (d : Db) (id : string) (hash : list byte) (expiresAt : Z) (t : Table)
  : Table * result OpError (OperationResult * bool) :=
  let row := mkRow hash Pending noOutcome 0 expiresAt in
  let t1 := if applies d then match t !! id with None => <[id := row]> t | Some _ => t end else t in
  if fails d then (t1, Err ErrStore)
  else
    match t !! id with
    | None => (t1, Ok (row, true))
    | Some existing =>
        if readFails d then (t1, Err ErrStore)
        else if bool_decide (RequestHash existing = hash) then (t1, Ok (existing, false)) else (t1, Err ErrStoreConflict)
    end.

(** The loop of [CompleteOperation]: one element of [ds] per attempt, good ones after its end. *)
Fixpoint completeLoop (attempts : nat) (ds : list Db) (id : string) (hash : list byte) (o : Outcome) (now expiresAt : Z) (t : Table)
  : Table * option OpError :=
  match attempts with
  | O => (t, Some ErrStoreConflict)
  | S rest =>
      let d := hd DbOk ds in
      let done := mkRow hash Completed o now expiresAt in
      let hit := match t !! id with
                 | Some row => bool_decide (RequestHash row = hash) && bool_decide (State row = Pending)
                 | None => false
                 end in
      let t1 := if applies d && hit then <[id := done]> t else t in
      match d with
      | DbBusy =>
          match rest with O => (t1, Some ErrStore) | _ => completeLoop rest (tl ds) id hash o now expiresAt t1 end
      | DbFail _ => (t1, Some ErrStore)
      | DbOk | DbReadFails =>
          if hit then (t1, None)
          else if readFails d then (t1, Some ErrStore)
          else
            match t !! id with
            | None => (t1, Some ErrStore)
            | Some existing =>
                if negb (bool_decide (RequestHash existing = hash)) then (t1, Some ErrStoreConflict)
                else if bool_decide (State existing = Completed) then
                  if bool_decide (rOutcome existing = o) then (t1, None) else (t1, Some ErrStoreConflict)
                else completeLoop rest (tl ds) id hash o now expiresAt t1
            end
      end
  end.
Definition CompleteOperation (ds : list Db) (id : string) (hash : list byte) (o : Outcome) (now expiresAt : Z)
    (t : Table) : Table * option OpError :=
  if MaxOperationResultBytes <? len (Result o) then (t, Some ErrResultTooLarge)
  else completeLoop 20 ds id hash o now expiresAt t.

(** The ids that SQLite's LIKE, which folds ASCII letters, matches with [exec:]. *)
Definition lowerAscii (c : Ascii.ascii) : N :=
  let n := Ascii.N_of_ascii c in if ((65 <=? n) && (n <=? 90))%N then (n + 32)%N else n.
Fixpoint likePrefix (p s : string) : bool :=
  match p, s with
  | EmptyString, _ => true
  | String a p', String b s' => (lowerAscii a =? lowerAscii b)%N && likePrefix p' s'
  | _, _ => false
  end.

(** Pending rows first, then by completion; rows that tie come in no set order. *)
Definition listedBefore (a b : string * OperationResult) : Prop :=
  match State (snd a), State (snd b) with
  | Pending, _ => True
  | Completed, Pending => False
  | Completed, Completed => CompletedAt (snd a) <= CompletedAt (snd b)
  end.
#[export] Instance listedBefore_dec a b : Decision (listedBefore a b).
Proof. unfold listedBefore. destruct (State (snd a)), (State (snd b)); apply _. Defined.

Definition OperationsExcludingPrefix (prefix : string) (limit : nat) (t : Table) : list (string * OperationResult) :=
  take limit (merge_sort listedBefore
    (List.filter (fun kv => negb (likePrefix prefix (fst kv))) (map_to_list t))).

(** ** The journal *)
Record entry := mkEntry { ehash : list byte; outcome : Outcome; complete : bool; eerr : option OpError }.
Abbreviation ptr := nat.

Record Journal := mkJournal {
  max : Z; entries : gmap string ptr; order : list string; retention : Z; lastCleanup : Z }.
#[export] Instance Journal_eta : Eta Journal := fun j =>
  mkJournal (max j) (entries j) (order j) (retention j) (lastCleanup j).

Definition cleanupInterval : Z := 60 * 1000000000.
Abbreviation Heap := (gmap ptr entry).
Definition alloc (e : entry) (h : Heap) : ptr * Heap :=
  let p := fresh (dom h) in (p, <[p := e]> h).

(** The loop of [NewPersistentJournal] over the listed rows. *)
Fixpoint loadLoop (records : list (string * OperationResult)) (j : Journal) (h : Heap) : Journal * Heap :=
  match records with
  | [] => (j, h)
  | (id, row) :: rest =>
      let e := match State row with
               | Pending => mkEntry (RequestHash row) noOutcome true (Some ErrOperationUncertain)
               | Completed => mkEntry (RequestHash row) (rOutcome row) true None
               end in
      let '(p, h1) := alloc e h in
      let j1 := match State row with
                | Pending => j
                | Completed => j <| order := order j ++ [id] |>
                end in
      loadLoop rest (j1 <| entries := <[id := p]> (entries j) |>) h1
  end.

Definition NewJournal (maxEntries ret now : Z) : Journal := mkJournal maxEntries ∅ [] ret now.

(** The store's listing refuses a limit over 2^20 and deletes the expired rows first. *)
Definition NewPersistentJournal (d : Db) (maxEntries ret now : Z) (t : Table) (h : Heap)
  : Table * result OpError (Journal * Heap) :=
  if (ret <=? 0) || (maxEntries <? 1) then (t, Err ErrJournalFull)
  else if 2 ^ 20 <? maxEntries then (t, Err ErrStoreConflict)
  else
    let '(t1, failed) := DeleteExpiredOperations d now t in
    if failed || readFails d then (t1, Err ErrStore)
    else
      let records := OperationsExcludingPrefix "exec:" (Z.to_nat maxEntries) t1 in
      if forallb (fun kv => len (RequestHash (snd kv)) =? 32) records
      then (t1, Ok (loadLoop records (NewJournal maxEntries ret now) h)) else (t1, Err ErrInvalidRequest).

(** The eviction of [Execute]. *)
Fixpoint evict (ids : list string) (j : Journal) : Journal :=
  match ids with
  | [] => j <| order := [] |>
  | oldest :: rest =>
      if max j <=? Z.of_nat (size (entries j))
      then evict rest (j <| order := rest |> <| entries := delete oldest (entries j) |>)
      else j <| order := ids |>
  end.

Section journal.
Variable CanonicalHash : list byte -> option (list byte).

(** What the first locked part of [Execute] comes to. *)
Inductive Started :=
| Returned (o : Outcome) (replay : bool) (e : option OpError)
| Waits (p : ptr)                           (* for [existing.done] *)
| Runs (p : ptr) (hash : list byte).        (* calls [run] *)

(** [now1], [now2]: the two readings of the clock; [d1], [d2]: the two statements. *)
Definition Execute_start (d1 d2 : Db) (now1 now2 : Z) (id : string) (request : list byte)
    (t : Table) (h : Heap) (j0 : Journal) : Table * Heap * Journal * Started :=
  let n := Z.of_nat (String.length id) in
  if (n <? 8) || (128 <? n) then (t, h, j0, Returned noOutcome false (Some ErrInvalidOperationID))
  else
    match CanonicalHash request with
    | None => (t, h, j0, Returned noOutcome false (Some ErrInvalidRequest))
    | Some hash =>
        match entries j0 !! id with
        | Some p =>
            if bool_decide (ehash <$> h !! p = Some hash) then (t, h, j0, Waits p)
            else (t, h, j0, Returned noOutcome false (Some ErrOperationConflict))
        | None =>
            let j := evict (order j0) j0 in
            if max j <=? Z.of_nat (size (entries j)) then (t, h, j, Returned noOutcome false (Some ErrJournalFull))
            else
              let due := lastCleanup j + cleanupInterval <=? now1 in
              let '(t1, failed) := if due then DeleteExpiredOperations d1 now1 t else (t, false) in
              if failed then (t1, h, j, Returned noOutcome false (Some ErrStore))
              else
                let j1 := if due then j <| lastCleanup := now1 |> else j in
                match ReserveOperation d2 id hash (now2 + retention j1) t1 with
                | (t2, Err ErrStoreConflict) => (t2, h, j1, Returned noOutcome false (Some ErrOperationConflict))
                | (t2, Err e) => (t2, h, j1, Returned noOutcome false (Some e))
                | (t2, Ok (row, false)) =>
                    match State row with
                    | Pending => (t2, h, j1, Returned noOutcome true (Some ErrOperationUncertain))
                    | Completed => (t2, h, j1, Returned (rOutcome row) true None)
                    end
                | (t2, Ok (_, true)) =>
                    let '(p, h1) := alloc (mkEntry hash noOutcome false None) h in
                    (t2, h1, j1 <| entries := <[id := p]> (entries j1) |>, Runs p hash)
                end
        end
    end.

(** After [run] returned [o]: the result is stored and the entry completed. *)
Definition Execute_finish (ds : list Db) (now : Z) (id : string) (p : ptr) (hash : list byte) (o : Outcome)
    (t : Table) (h : Heap) (j : Journal) : Table * Heap * Journal * (Outcome * option OpError) :=
  let '(t1, perr) := CompleteOperation ds id hash o now (now + retention j) t in
  match perr with
  | Some _ =>
      (t1, <[p := mkEntry hash o true (Some ErrOperationUncertain)]> h, j, (o, Some ErrOperationUncertain))
  | None => (t1, <[p := mkEntry hash o true None]> h, j <| order := order j ++ [id] |>, (o, None))
  end.

(** A call that waits returns when the entry is complete. *)
Definition Execute_wait (p : ptr) (h : Heap) : option (Outcome * option OpError) :=
  match h !! p with
  | Some e => if complete e then Some (outcome e, eerr e) else None
  | None => None
  end.
End journal.

(** ** A host that runs, crashes and restarts *)

(** A call of [run]: the id, the hash of its request, and when the id was reserved. *)
Record Run := mkRun { rid : string; rhash : list byte; rat : Z }.
Record Running := mkRunning { nid : string; nptr : ptr; nhash : list byte }.

(** [journal] is absent when the host could not start.  [runs] are all the calls of
    [run] that were made, [finished] the outcomes of those that returned and
    [replayed] the outcomes given to other callers, with the id and hash they asked
    for. *)
Record Host := mkHost {
  table : Table; heap : Heap; journal : option Journal; clock : Z;
  running : list Running; waiting : list Running;
  runs : list Run; finished : list (string * list byte * Outcome); replayed : list (string * list byte * Outcome) }.
#[export] Instance Host_eta : Eta Host := fun s =>
  mkHost (table s) (heap s) (journal s) (clock s) (running s) (waiting s) (runs s) (finished s) (replayed s).

Section host.
Variables (CanonicalHash : list byte -> option (list byte)) (maxEntries ret : Z).

Inductive HOp :=
| HExecute (d1 d2 : Db) (wait1 wait2 : N) (id : string) (request : list byte)
| HFinish (i : nat) (ds : list Db) (wait_ : N) (o : Outcome)
| HWait (i : nat)
| HRestart (d : Db) (wait_ : N).

Definition hstep (op : HOp) (s : Host) : Host :=
  match op, journal s with
  | HExecute d1 d2 w1 w2 id request, Some j =>
      let now1 := clock s + Z.of_N w1 in
      let now2 := now1 + Z.of_N w2 in
      let '(t, h, j', r) := Execute_start CanonicalHash d1 d2 now1 now2 id request (table s) (heap s) j in
      let s1 := s <| table := t |> <| heap := h |> <| journal := Some j' |> <| clock := now2 |> in
      let hash := default [] (CanonicalHash request) in
      match r with
      | Returned o true None => s1 <| replayed := replayed s ++ [(id, hash, o)] |>
      | Returned _ _ _ => s1
      | Waits p => s1 <| waiting := waiting s ++ [mkRunning id p hash] |>
      | Runs p hash => s1 <| running := running s ++ [mkRunning id p hash] |>
                          <| runs := runs s ++ [mkRun id hash now2] |>
      end
  | HFinish i ds w o, Some j =>
      match running s !! i with
      | None => s
      | Some r =>
          let now := clock s + Z.of_N w in
          let '(t, h, j', _) := Execute_finish ds now (nid r) (nptr r) (nhash r) o (table s) (heap s) j in
          s <| table := t |> <| heap := h |> <| journal := Some j' |> <| clock := now |>
            <| running := delete i (running s) |> <| finished := finished s ++ [(nid r, nhash r, o)] |>
      end
  | HWait i, _ =>
      match waiting s !! i with
      | None => s
      | Some r =>
          match Execute_wait (nptr r) (heap s) with
          | None => s
          | Some (o, None) => s <| waiting := delete i (waiting s) |>
                                <| replayed := replayed s ++ [(nid r, nhash r, o)] |>
          | Some (_, Some _) => s <| waiting := delete i (waiting s) |>
          end
      end
  | HRestart d w, _ =>
      let now := clock s + Z.of_N w in
      let '(t, r) := NewPersistentJournal d maxEntries ret now (table s) ∅ in
      let s1 := s <| table := t |> <| clock := now |> <| running := [] |> <| waiting := [] |> in
      match r with
      | Ok (j, h) => s1 <| journal := Some j |> <| heap := h |>
      | Err _ => s1 <| journal := None |> <| heap := ∅ |>
      end
  | _, None => s
  end.

Definition hrun (ops : list HOp) (s : Host) : Host := fold_left (fun s op => hstep op s) ops s.

(** A host with an empty store that has not started. *)
Definition hstart (now : Z) : Host := mkHost ∅ ∅ None now [] [] [] [] [].

(** ** At most one run *)
Lemma DeleteExpired_lookup d now t id row : t !! id = Some row ->
  fst (DeleteExpiredOperations d now t) !! id = Some row \/ ExpiresAt row <= now.
Proof.
  intros H. unfold DeleteExpiredOperations. simpl. destruct (applies d); [|auto].
  destruct (decide (now < ExpiresAt row)); [left|right; lia]. by apply map_lookup_filter_Some.
Qed.

Lemma Reserve_lookup d id hash expires t id' row : t !! id' = Some row ->
  fst (ReserveOperation d id hash expires t) !! id' = Some row.
Proof.
  intros H. unfold ReserveOperation. set (t1 := if applies d then _ else _).
  assert (Ht : t1 !! id' = Some row).
  { unfold t1. destruct (applies d); [|done]. destruct (t !! id) eqn:E; [done|].
    rewrite lookup_insert_ne; [done|]. congruence. }
  clearbody t1. destruct (fails d); [done|]. destruct (t !! id); [|done].
  destruct (readFails d); [done|]. by case_bool_decide.
Qed.

Lemma Reserve_inserted d id hash expires t t' row : ReserveOperation d id hash expires t = (t', Ok (row, true)) ->
  t !! id = None /\ t' = <[id := mkRow hash Pending noOutcome 0 expires]> t.
Proof.
  unfold ReserveOperation. destruct d as [| |b|]; simpl; try done;
    (destruct (t !! id); [try done; by case_bool_decide|by intros [= <- _]]).
Qed.

(** What completing an operation can do to the table. *)
Lemma completeLoop_table n id hash o now expires : forall ds t,
  fst (completeLoop n ds id hash o now expires t) = t \/
  (fst (completeLoop n ds id hash o now expires t) = <[id := mkRow hash Completed o now expires]> t /\
   exists row, t !! id = Some row /\ RequestHash row = hash).
Proof.
  induction n as [|n IH]; intros ds t; simpl; [auto|].
  set (hit := match t !! id with Some _ => _ | None => _ end).
  assert (Hhit : hit = true -> exists row, t !! id = Some row /\ RequestHash row = hash).
  { unfold hit. destruct (t !! id) as [row|]; [|done]. intros H. bool_hyps. eauto. }
  specialize (IH (tl ds) t). clearbody hit. destruct (hd DbOk ds) as [| |b|]; simpl.
  - destruct hit; [auto|]. destruct (t !! id) as [row|]; [|auto]. repeat case_bool_decide; simpl; auto.
  - destruct n; auto.
  - destruct b, hit; simpl; auto.
  - destruct hit; auto.
Qed.

Definition kept (now : Z) (t : Table) (r : Run) : Prop :=
  rat r <= now /\ (rat r + ret <= now \/ exists row, t !! rid r = Some row /\ rat r + ret <= ExpiresAt row).

Lemma kept_delete d now now' t r : now <= now' -> kept now t r ->
  kept now' (fst (DeleteExpiredOperations d now' t)) r.
Proof.
  intros Hn [Hr [H|(row & Hrow & He)]]; (split; [lia|]); [left; lia|].
  destruct (DeleteExpired_lookup d now' t _ _ Hrow); [right; eauto|left; lia].
Qed.

Lemma kept_subset now now' t t' r : now <= now' ->
  (forall id row, t !! id = Some row -> t' !! id = Some row) -> kept now t r -> kept now' t' r.
Proof.
  intros Hn Ht [Hr [H|(row & Hrow & He)]]; (split; [lia|]); [left; lia|]. right. eauto.
Qed.

Lemma kept_insert now now' t id row r : now <= now' -> now' + ret <= ExpiresAt row ->
  kept now t r -> kept now' (<[id := row]> t) r.
Proof.
  intros Hn He [Hr [H|(row' & Hrow & He')]]; (split; [lia|]); [left; lia|]. right.
  destruct (decide (rid r = id)) as [->|Hne].
  - exists row. rewrite lookup_insert_eq. split; [done|lia].
  - exists row'. rewrite lookup_insert_ne; [done|congruence].
Qed.

Lemma kept_finish ds id hash o now now' t r : now <= now' -> kept now t r ->
  kept now' (fst (CompleteOperation ds id hash o now' (now' + ret) t)) r.
Proof.
  intros Hn Hr. assert (Ht : kept now' t r) by (by apply (kept_subset now now' t)).
  unfold CompleteOperation. destruct (_ <? _); [done|].
  destruct (completeLoop_table 20 id hash o now' (now' + ret) ds t) as [->|[-> _]]; [done|].
  apply (kept_insert now); simpl; auto; lia.
Qed.

Lemma evict_fields ids : forall j,
  max (evict ids j) = max j /\ retention (evict ids j) = retention j /\ lastCleanup (evict ids j) = lastCleanup j.
Proof.
  induction ids as [|id ids IH]; intros j; simpl; [done|].
  destruct (_ <=? _); [|done]. edestruct IH as (-> & -> & ->); done.
Qed.

(** The calls of [run] that a table still guards when the first part of [Execute] is
    over; a call that runs found no row of its id. *)
Lemma Execute_start_kept d1 d2 now now1 now2 id request t h j t' h' j' r :
  now <= now1 <= now2 -> retention j = ret ->
  Execute_start CanonicalHash d1 d2 now1 now2 id request t h j = (t', h', j', r) ->
  retention j' = ret /\ (forall x, kept now t x -> kept now2 t' x) /\
  (forall p hash, r = Runs p hash ->
     kept now2 t' (mkRun id hash now2) /\ forall x, kept now t x -> rid x = id -> rat x + ret <= now2).
Proof.
  intros Hn Hret. assert (Hsame : forall x, kept now t x -> kept now2 t x).
  { intros x. apply kept_subset; [lia|done]. }
  unfold Execute_start. destruct (_ || _); [by intros [= <- <- <- <-]|].
  destruct (CanonicalHash request) as [hash|]; [|by intros [= <- <- <- <-]].
  destruct (entries j !! id) as [p|]; [case_bool_decide; by intros [= <- <- <- <-]|].
  destruct (evict_fields (order j) j) as (Hmax & Hre & Hlast). cbv zeta.
  set (je := evict (order j) j) in *. clearbody je. rewrite Hret in Hre.
  destruct (max je <=? _); [by intros [= <- <- <- <-]|].
  set (due := lastCleanup je + cleanupInterval <=? now1). clearbody due.
  destruct (if due then _ else _) as [t1 failed] eqn:Edel.
  assert (Ht1 : forall x, kept now t x -> kept now2 t1 x).
  { intros x Hx. apply (kept_subset now1 now2 t1); [lia|done|]. destruct due; simplify_eq.
    - replace t1 with (fst (DeleteExpiredOperations d1 now1 t)) by (by rewrite Edel).
      apply (kept_delete d1 now); [lia|done].
    - apply (kept_subset now now1 t1); [lia|done|done]. }
  destruct failed; [by intros [= <- <- <- <-]|].
  set (j1 := if due then _ else _). assert (Hj1 : retention j1 = ret) by (by destruct due).
  clearbody j1. rewrite Hj1.
  destruct (ReserveOperation d2 id hash (now2 + ret) t1) as [t2 res] eqn:Eres.
  assert (Ht2 : forall x, kept now t x -> kept now2 t2 x).
  { intros x Hx. apply (kept_subset now2 now2 t1); [lia| |auto]. intros id' row Hrow.
    replace t2 with (fst (ReserveOperation d2 id hash (now2 + ret) t1)) by (by rewrite Eres).
    by apply Reserve_lookup. }
  destruct res as [[row []]|e].
  - destruct (alloc _ h) as [p h1]. intros [= <- <- <- <-]. split_and!; [done|done|].
    intros p' hash' [= <- <-]. apply Reserve_inserted in Eres as [Hno ->].
    split.
    + split; simpl; [lia|]. right. eexists. rewrite lookup_insert_eq. split; [done|simpl; lia].
    + intros x Hx <-. destruct (Ht1 x Hx) as [_ [?|(row' & Hrow & _)]]; [done|congruence].
  - destruct (State row); by intros [= <- <- <- <-].
  - destruct e; by intros [= <- <- <- <-].
Qed.

Lemma loadLoop_fields records : forall j h,
  max (fst (loadLoop records j h)) = max j /\ retention (fst (loadLoop records j h)) = retention j.
Proof.
  induction records as [|[id row] records IH]; intros j h; simpl; [done|].
  edestruct IH as [-> ->]. by destruct (State row).
Qed.

Lemma New_kept d now now' t h x : now <= now' -> kept now t x ->
  kept now' (fst (NewPersistentJournal d maxEntries ret now' t h)) x.
Proof.
  intros Hn Hx. assert (kept now' t x) by (by apply (kept_subset now now' t)).
  unfold NewPersistentJournal. destruct (_ || _); [done|]. destruct (_ <? _); [done|].
  pose proof (kept_delete d now now' t x Hn Hx) as Hd.
  destruct (DeleteExpiredOperations d now' t) as [t1 f]. simpl in Hd.
  destruct (f || readFails d); [done|]. by destruct (forallb _ _).
Qed.

Lemma New_retention d now t h t' j h' :
  NewPersistentJournal d maxEntries ret now t h = (t', Ok (j, h')) -> retention j = ret.
Proof.
  unfold NewPersistentJournal. destruct (_ || _); [done|]. destruct (_ <? _); [done|].
  destruct (DeleteExpiredOperations d now t) as [t1 f]. destruct (f || readFails d); [done|].
  destruct (forallb _ _); [|done]. intros [= _ E].
  pose proof (loadLoop_fields (OperationsExcludingPrefix "exec:" (Z.to_nat maxEntries) t1)
    (NewJournal maxEntries ret now) h) as [_ Hr]. by rewrite E in Hr.
Qed.

(** Calls of [run] for one id are a retention apart. *)
Definition apart (rs : list Run) : Prop :=
  forall i k r r', (i < k)%nat -> rs !! i = Some r -> rs !! k = Some r' -> rid r = rid r' -> rat r + ret <= rat r'.

Record Guarded (s : Host) : Prop := {
  g_kept : forall r, r ∈ runs s -> kept (clock s) (table s) r;
  g_ret : forall j, journal s = Some j -> retention j = ret;
  g_apart : apart (runs s) }.

Lemma apart_snoc rs r : apart rs -> (forall x, x ∈ rs -> rid x = rid r -> rat x + ret <= rat r) -> apart (rs ++ [r]).
Proof.
  intros Ha Hr i k x y Hik Hx Hy E. apply lookup_snoc_Some in Hy as [[Hk Hy]|[-> <-]].
  - rewrite lookup_app_l in Hx by lia. by apply (Ha i k).
  - rewrite lookup_app_l in Hx by lia. apply Hr; [by apply list_elem_of_lookup_2 in Hx|done].
Qed.

Lemma hstep_guarded op s : Guarded s -> Guarded (hstep op s).
Proof.
  intros HG. pose proof HG as [Hk Hr Ha]. destruct op as [d1 d2 w1 w2 id request|i ds w o|i|d w]; unfold hstep.
  - destruct (journal s) as [j|] eqn:Ej; [|done].
    destruct (Execute_start _ _ _ _ _ _ _ _ _ _) as [[[t h] j'] r] eqn:Ex.
    eapply (Execute_start_kept _ _ (clock s)) in Ex as (Hr' & Hk' & Hrun); [|lia|by apply Hr].
    assert (Hone : forall j0, Some j' = Some j0 -> retention j0 = ret) by (by intros ? [= <-]).
    destruct r as [o [] []|p|p hash]; try (split; simpl; auto; fail).
    destruct (Hrun p hash eq_refl) as [Hnew Hold]. split; simpl; auto.
    + intros x [Hx| ->%list_elem_of_singleton]%elem_of_app; auto.
    + apply apart_snoc; simpl; auto.
  - destruct (journal s) as [j|] eqn:Ej; [|done]. destruct (running s !! i) as [r|]; [|done].
    unfold Execute_finish. rewrite (Hr j eq_refl).
    pose proof (kept_finish ds (nid r) (nhash r) o (clock s) (clock s + Z.of_N w) (table s)) as Hf.
    destruct (CompleteOperation _ _ _ _ _ _ _) as [t []]; split; simpl in *;
      try done; try (intros; apply Hf; auto; lia); intros ? [= <-]; simpl; auto.
  - destruct (waiting s !! i) as [r|]; [|done]. by destruct (Execute_wait (nptr r) (heap s)) as [[o []]|].
  - pose proof (fun x => New_kept d (clock s) (clock s + Z.of_N w) (table s) ∅ x ltac:(lia)) as Hn.
    destruct (NewPersistentJournal _ _ _ _ _ _) as [t [[j h]|]] eqn:En; split; simpl in *; auto; [|done].
    intros ? [= <-]. by apply New_retention in En.
Qed.

Lemma hrun_guarded ops : forall s, Guarded s -> Guarded (hrun ops s).
Proof. induction ops; simpl; auto using hstep_guarded. Qed.

Lemma hstart_guarded now : Guarded (hstart now).
Proof. split; simpl; [by intros ? ?%elem_of_nil|done|by intros ? ? ? ? ? ?]. Qed.
End host.

(** C5: an operation runs at most once per retention.  Over any sequence of requests,
    retries, failures of the database, crashes and restarts, two calls of [run] for one
    operation id are at least the retention apart. *)
Theorem operation_at_most_once CanonicalHash maxEntries ret now ops i k r r' :
  let s := hrun CanonicalHash maxEntries ret ops (hstart now) in
  (i < k)%nat -> runs s !! i = Some r -> runs s !! k = Some r' -> rid r = rid r' -> rat r + ret <= rat r'.
Proof. apply (g_apart _ _ (hrun_guarded CanonicalHash maxEntries ret ops _ (hstart_guarded ret now))). Qed.

(** A host that crashes during an operation and runs it again once its row expired. *)
Definition exampleHash (request : list byte) : option (list byte) := Some (replicate 32 x00).
Definition exampleOps : list HOp :=
  [HRestart DbOk 0; HExecute DbOk DbOk 1 1 "operation-1" []; HExecute DbOk DbOk 0 0 "operation-1" [];
   HRestart DbOk 3; HExecute DbOk DbOk 0 0 "operation-1" []; HRestart DbOk 100;
   HExecute DbOk DbOk 1 0 "operation-1" []; HFinish 0 [DbBusy; DbOk] 1 (mkOutcome [x01] EmptyString);
   HExecute DbOk DbOk 0 0 "operation-1" []; HWait 0].

Lemma operation_at_most_once_witness : exists r r' : Run,
  rid r = rid r' /\ rat r = 2 /\ rat r' = 106 /\ rat r + 60 <= rat r'.
Proof.
  exists (mkRun "operation-1" (replicate 32 x00) 2), (mkRun "operation-1" (replicate 32 x00) 106).
  split_and!; [reflexivity|reflexivity|reflexivity|].
  apply (operation_at_most_once exampleHash 4 60 0 exampleOps 0 1); [lia|vm_compute; reflexivity..].
Defined.
