(* ===== verification/OpJournalReplay.v ===== *)
(** * Operation journal: what retries are answered

    The entries of a journal are shared: the call that runs an operation writes the
    entry that the calls which wait for it read.  The invariant of this file gives
    every pointer the id it was allocated for and follows the outcomes from the calls
    of [run] through entries and rows to the answers of later calls, restarts of the
    host included.  The last theorem is about entries that are never evicted. *)
From S2P Require Import Prelude.
From stdpp Require Import sorting.
From S2P Require Import OpJournal.
#[local] Open Scope Z_scope.

Abbreviation Answer := (string * list byte * Outcome)%type.

(** A completed row holds an outcome that a call of [run] returned. *)
Definition rowsFinished (fin : list Answer) (t : Table) : Prop :=
  forall id row, t !! id = Some row -> State row = Completed -> (id, RequestHash row, rOutcome row) ∈ fin.

(** So does an entry that was completed without an error. *)
Definition entriesFinished (owner : ptr -> string) (fin : list Answer) (h : Heap) : Prop :=
  forall p e, h !! p = Some e -> complete e = true -> eerr e = None -> (owner p, ehash e, outcome e) ∈ fin.

(** A pointer of the journal, allocated for its id. *)
Definition owned (owner : ptr -> string) (h : Heap) (j : Journal) : Prop :=
  forall id p, entries j !! id = Some p -> owner p = id /\ is_Some (h !! p).

(** A call under way: its pointer is for its id and its hash. *)
Definition holds (owner : ptr -> string) (h : Heap) (r : Running) : Prop :=
  owner (nptr r) = nid r /\ ehash <$> h !! nptr r = Some (nhash r).

Record Linked (owner : ptr -> string) (s : Host) : Prop := {
  l_rows : rowsFinished (finished s) (table s);
  l_entries : entriesFinished owner (finished s) (heap s);
  l_journal : forall j, journal s = Some j -> owned owner (heap s) j;
  l_running : forall r, r ∈ running s -> holds owner (heap s) r;
  l_waiting : forall r, r ∈ waiting s -> holds owner (heap s) r;
  l_replayed : forall a, a ∈ replayed s -> a ∈ finished s }.

Lemma sublist_elem {A} (l k : list A) x : l `sublist_of` k -> x ∈ l -> x ∈ k.
Proof. intros H Hx. by eapply elem_of_submseteq, sublist_submseteq. Qed.
Lemma elem_of_snoc {A} (l : list A) x y : x ∈ l ++ [y] <-> x ∈ l \/ x = y.
Proof. by rewrite elem_of_app, list_elem_of_singleton. Qed.

(** ** Rows *)
Lemma rows_weaken fin fin' t : (forall a, a ∈ fin -> a ∈ fin') -> rowsFinished fin t -> rowsFinished fin' t.
Proof. intros H Ht id row Hr Hs. auto. Qed.

Lemma rows_delete d now fin t : rowsFinished fin t -> rowsFinished fin (fst (DeleteExpiredOperations d now t)).
Proof.
  intros Ht. unfold DeleteExpiredOperations. simpl. destruct (applies d); [|done].
  intros id row [Hr _]%map_lookup_filter_Some. eauto.
Qed.

Lemma rows_insert_pending fin id hash now e t : rowsFinished fin t ->
  rowsFinished fin (<[id := mkRow hash Pending noOutcome now e]> t).
Proof. intros Ht id' row [[<- <-]|[_ Hr]]%lookup_insert_Some; [done|eauto]. Qed.

Lemma rows_reserve d id hash e fin t : rowsFinished fin t ->
  rowsFinished fin (fst (ReserveOperation d id hash e t)).
Proof.
  intros Ht. unfold ReserveOperation. set (t1 := if applies d then _ else _).
  assert (rowsFinished fin t1).
  { unfold t1. destruct (applies d); [|done]. destruct (t !! id); [done|]. by apply rows_insert_pending. }
  clearbody t1. destruct (fails d); [done|]. destruct (t !! id); [|done].
  destruct (readFails d); [done|]. by case_bool_decide.
Qed.

(** A row that is answered is the table's. *)
Lemma reserve_existing d id hash e t t' row : ReserveOperation d id hash e t = (t', Ok (row, false)) ->
  t !! id = Some row /\ RequestHash row = hash.
Proof.
  unfold ReserveOperation. destruct (fails d); [done|]. destruct (t !! id) as [row'|]; [|done].
  destruct (readFails d); [done|]. case_bool_decide; [|done]. by intros [= _ <-].
Qed.

Lemma rows_complete ds id hash o now e fin t : rowsFinished fin t ->
  rowsFinished (fin ++ [(id, hash, o)]) (fst (CompleteOperation ds id hash o now e t)).
Proof.
  intros Ht. assert (Hw : rowsFinished (fin ++ [(id, hash, o)]) t).
  { eapply rows_weaken, Ht. intros a Ha. apply elem_of_app. by left. }
  unfold CompleteOperation. destruct (_ <? _); [done|].
  destruct (completeLoop_table 20 id hash o now e ds t) as [->|[-> _]]; [done|].
  intros id' row [[<- <-]|[_ Hr]]%lookup_insert_Some; [|eauto]. intros _. apply elem_of_app. right. by apply list_elem_of_singleton.
Qed.

(** ** The heap *)
Lemma alloc_spec e h p h' : alloc e h = (p, h') -> h !! p = None /\ h' = <[p := e]> h.
Proof. unfold alloc. intros [= <- <-]. split; [|done]. apply not_elem_of_dom, is_fresh. Qed.

(** The owner map once [p] is allocated for [id]. *)
Definition own (p : ptr) (id : string) (owner : ptr -> string) : ptr -> string :=
  fun q => if decide (q = p) then id else owner q.
Lemma own_eq p id owner : own p id owner p = id.
Proof. unfold own. by rewrite decide_True. Qed.
Lemma own_ne p id owner q : q <> p -> own p id owner q = owner q.
Proof. intros. unfold own. by rewrite decide_False. Qed.

Lemma entries_alloc owner fin h p id e : h !! p = None -> entriesFinished owner fin h ->
  (complete e = true -> eerr e = None -> (id, ehash e, outcome e) ∈ fin) ->
  entriesFinished (own p id owner) fin (<[p := e]> h).
Proof.
  intros Hp Hh He q e' [[<- <-]|[Hne Hq]]%lookup_insert_Some Hc Hn.
  - rewrite own_eq. auto.
  - rewrite own_ne; [by apply Hh|done].
Qed.

Lemma holds_alloc owner h p id e r : h !! p = None -> holds owner h r -> holds (own p id owner) (<[p := e]> h) r.
Proof.
  intros Hp [Ho Hh]. assert (nptr r <> p) by (intros E; rewrite E, Hp in Hh; done).
  split; [by rewrite own_ne|by rewrite lookup_insert_ne].
Qed.

Lemma owned_alloc owner h p id e j : h !! p = None -> owned owner h j ->
  owned (own p id owner) (<[p := e]> h) (j <| entries := <[id := p]> (entries j) |>).
Proof.
  intros Hp Hj id' q. simpl. intros [[<- <-]|[Hne Hq]]%lookup_insert_Some.
  - rewrite own_eq, lookup_insert_eq. eauto.
  - destruct (Hj _ _ Hq) as [Ho Hs]. assert (q <> p) by (intros ->; rewrite Hp in Hs; by destruct Hs).
    rewrite own_ne; [|done]. by rewrite lookup_insert_ne.
Qed.

Lemma owned_evict owner h ids : forall j, owned owner h j -> owned owner h (evict ids j).
Proof.
  induction ids as [|id ids IH]; intros j Hj; simpl; [done|]. destruct (_ <=? _); [|done].
  apply IH. intros id' p. simpl. intros [_ Hp]%lookup_delete_Some. auto.
Qed.

(** Completing the entry of a running call. *)
Lemma entries_finish owner fin h r o er : holds owner h r -> entriesFinished owner fin h ->
  entriesFinished owner (fin ++ [(nid r, nhash r, o)]) (<[nptr r := mkEntry (nhash r) o true er]> h).
Proof.
  intros [Ho _] Hh p e [[<- <-]|[_ Hp]]%lookup_insert_Some Hc Hn; apply elem_of_app.
  - right. simpl. rewrite Ho. by apply list_elem_of_singleton.
  - left. by apply Hh.
Qed.

Lemma holds_finish owner h r o er r' : holds owner h r -> holds owner h r' ->
  holds owner (<[nptr r := mkEntry (nhash r) o true er]> h) r'.
Proof.
  intros [_ Hh] [Ho' Hh']. split; [done|]. destruct (decide (nptr r' = nptr r)) as [E|E].
  - rewrite E, lookup_insert_eq. simpl. rewrite E, Hh in Hh'. by injection Hh' as ->.
  - by rewrite lookup_insert_ne.
Qed.

Lemma owned_update owner h p e j : owned owner h j -> owned owner (<[p := e]> h) j.
Proof.
  intros Hj id q Hq. destruct (Hj _ _ Hq) as [Ho Hs]. split; [done|].
  apply lookup_insert_is_Some'. by right.
Qed.

(** ** The operations *)

(** What [Execute_start] leaves behind: the same facts about rows, entries and the calls
    under way, with [p] allocated when the call runs; and a row it answers with is one
    of the finished ones. *)
Lemma Execute_start_linked CanonicalHash d1 d2 now1 now2 id request fin owner t h j t' h' j' r :
  rowsFinished fin t -> entriesFinished owner fin h -> owned owner h j ->
  Execute_start CanonicalHash d1 d2 now1 now2 id request t h j = (t', h', j', r) ->
  rowsFinished fin t' /\
  match r with
  | Returned o replay er => h' = h /\ owned owner h j' /\
      (replay = true -> er = None -> (id, default [] (CanonicalHash request), o) ∈ fin)
  | Waits p => h' = h /\ owned owner h j' /\ holds owner h (mkRunning id p (default [] (CanonicalHash request)))
  | Runs p hash => h !! p = None /\ h' = <[p := mkEntry hash noOutcome false None]> h /\
      exists j1, owned owner h j1 /\ j' = j1 <| entries := <[id := p]> (entries j1) |>
  end.
Proof.
  intros Ht Hh Hj. unfold Execute_start. destruct (_ || _); [by intros [= <- <- <- <-]|].
  destruct (CanonicalHash request) as [hash|]; [|by intros [= <- <- <- <-]].
  destruct (entries j !! id) as [p|] eqn:Ep.
  { case_bool_decide; intros [= <- <- <- <-]; [|done]. split_and!; auto. split; [by apply Hj in Ep as [? _]|done]. }
  pose proof (owned_evict owner h (order j) j Hj) as He. cbv zeta.
  set (je := evict (order j) j) in *. clearbody je.
  destruct (max je <=? _); [by intros [= <- <- <- <-]|].
  set (due := lastCleanup je + cleanupInterval <=? now1). clearbody due.
  destruct (if due then _ else _) as [t1 failed] eqn:Edel.
  assert (Ht1 : rowsFinished fin t1).
  { destruct due; simplify_eq; [|done]. pose proof (rows_delete d1 now1 fin t Ht) as Hd. by rewrite Edel in Hd. }
  destruct failed; [by intros [= <- <- <- <-]|].
  set (j1 := if due then _ else _). assert (Hj1 : owned owner h j1) by (by destruct due). clearbody j1.
  pose proof (rows_reserve d2 id hash (now2 + retention j1) fin t1 Ht1) as Ht2.
  destruct (ReserveOperation d2 id hash (now2 + retention j1) t1) as [t2 res] eqn:Eres. simpl in Ht2.
  destruct res as [[row []]|e].
  - destruct (alloc _ h) as [p h1] eqn:Eal. apply alloc_spec in Eal as [Hp ->].
    intros [= <- <- <- <-]. eauto 10.
  - apply reserve_existing in Eres as [Hrow <-].
    destruct (State row) eqn:Es; intros [= <- <- <- <-]; split_and!; auto; [done|].
    intros _ _. simpl. auto.
  - destruct e; by intros [= <- <- <- <-].
Qed.

(** Loading the rows of the store. *)
Lemma listed_row prefix limit t id row : (id, row) ∈ OperationsExcludingPrefix prefix limit t -> t !! id = Some row.
Proof.
  unfold OperationsExcludingPrefix. intros H. apply elem_of_map_to_list. apply list_elem_of_In.
  apply (sublist_elem _ _ _ (sublist_take _ _)) in H. rewrite merge_sort_Permutation in H.
  apply list_elem_of_In, List.filter_In in H. by destruct H.
Qed.

Lemma loadLoop_linked fin records : forall owner j h,
  (forall id row, (id, row) ∈ records -> State row = Completed -> (id, RequestHash row, rOutcome row) ∈ fin) ->
  entriesFinished owner fin h -> owned owner h j ->
  exists owner', entriesFinished owner' fin (snd (loadLoop records j h)) /\
    owned owner' (snd (loadLoop records j h)) (fst (loadLoop records j h)).
Proof.
  induction records as [|[id row] records IH]; intros owner j h Hr Hh Hj; [by exists owner|].
  cbn [loadLoop]. set (e := match State row with Pending => _ | Completed => _ end).
  destruct (alloc e h) as [p h1] eqn:Eal. apply alloc_spec in Eal as [Hp ->].
  apply (IH (own p id owner)).
  - intros id' row' Hin. apply Hr. by apply list_elem_of_further.
  - apply entries_alloc; [done|done|]. unfold e. intros _.
    pose proof (Hr id row (list_elem_of_here _ _)) as Hc. destruct (State row); [done|auto].
  - intros id' q Hq. apply (owned_alloc owner h p id e j Hp Hj). by destruct (State row).
Qed.

Section steps.
Context (CanonicalHash : list byte -> option (list byte)) (maxEntries ret : Z).
#[local] Abbreviation step := (hstep CanonicalHash maxEntries ret).

Lemma execute_linked d1 d2 w1 w2 id request owner s : Linked owner s ->
  exists owner', Linked owner' (step (HExecute d1 d2 w1 w2 id request) s).
Proof.
  intros HL. pose proof HL as [Ht Hh Hj Hr Hw Ha]. unfold hstep.
  destruct (journal s) as [j|] eqn:Ej; [|by exists owner].
  destruct (Execute_start _ _ _ _ _ _ _ _ _ _) as [[[t h] j'] r] eqn:Ex.
  eapply Execute_start_linked in Ex as [Ht' Hres]; [|done|done|by apply Hj].
  destruct r as [o replay er|p|p hash].
  - destruct Hres as (-> & Hj' & Hans). exists owner.
    destruct replay, er; split; simpl; auto; try (by intros ? [= <-]).
    intros a [?| ->]%elem_of_snoc; auto.
  - destruct Hres as (-> & Hj' & Hold). exists owner. split; simpl; auto; [by intros ? [= <-]|].
    intros r [?| ->]%elem_of_snoc; auto.
  - destruct Hres as (Hp & -> & j1 & Hj1 & ->). exists (own p id owner). split; simpl; auto.
    + by apply entries_alloc.
    + intros ? [= <-]. by apply owned_alloc.
    + intros r [?| ->]%elem_of_snoc; [by apply holds_alloc, Hr|].
      split; simpl; [apply own_eq|by rewrite lookup_insert_eq].
    + intros r Hin. by apply holds_alloc, Hw.
Qed.

Lemma finish_linked i ds w o owner s : Linked owner s -> Linked owner (step (HFinish i ds w o) s).
Proof.
  intros HL. pose proof HL as [Ht Hh Hj Hr Hw Ha]. unfold hstep.
  destruct (journal s) as [j|] eqn:Ej; [|done]. destruct (running s !! i) as [r|] eqn:Er; [|done].
  assert (Hin : holds owner (heap s) r) by (by apply Hr; apply list_elem_of_lookup_2 in Er).
  assert (Hsub : forall x, x ∈ delete i (running s) -> x ∈ running s) by (intros x; apply sublist_elem, sublist_delete).
  unfold Execute_finish.
  pose proof (rows_complete ds (nid r) (nhash r) o (clock s + Z.of_N w) (clock s + Z.of_N w + retention j)
    (finished s) (table s) Ht) as Hc.
  destruct (CompleteOperation _ _ _ _ _ _ _) as [t [e|]]; split; simpl in *; auto using entries_finish, holds_finish;
    try (intros ? [= <-]; apply owned_update; intros id p; apply (Hj j eq_refl)); intros a Hx; apply elem_of_snoc; auto.
Qed.

Lemma wait_linked i owner s : Linked owner s -> Linked owner (step (HWait i) s).
Proof.
  intros HL. pose proof HL as [Ht Hh Hj Hr Hw Ha]. unfold hstep.
  destruct (waiting s !! i) as [r|] eqn:Er; [|done].
  assert (Hin : holds owner (heap s) r) by (by apply Hw; apply list_elem_of_lookup_2 in Er).
  assert (Hsub : forall x, x ∈ delete i (waiting s) -> x ∈ waiting s) by (intros x; apply sublist_elem, sublist_delete).
  destruct (Execute_wait (nptr r) (heap s)) as [[o [e|]]|] eqn:Ew; [split; simpl; auto| |done].
  split; simpl; auto. intros a [?| ->]%elem_of_snoc; [auto|].
  unfold Execute_wait in Ew. destruct (heap s !! nptr r) as [e|] eqn:Eh; [|done].
  destruct (complete e) eqn:Ec; [|done]. injection Ew as <- En.
  destruct Hin as [<- Hhash]. rewrite Eh in Hhash. injection Hhash as <-. by apply Hh.
Qed.

Lemma restart_linked d w owner s : Linked owner s -> exists owner', Linked owner' (step (HRestart d w) s).
Proof.
  intros HL. pose proof HL as [Ht Hh Hj Hr Hw Ha]. unfold hstep, NewPersistentJournal.
  assert (Hnil : forall r : Running, r ∈ [] -> False) by (by intros r ?%elem_of_nil).
  assert (Hemp : entriesFinished owner (finished s) ∅) by done.
  destruct (_ || _); [exists owner; split; simpl; try done; by intros r ?%Hnil|].
  destruct (_ <? _); [exists owner; split; simpl; try done; by intros r ?%Hnil|].
  pose proof (rows_delete d (clock s + Z.of_N w) (finished s) (table s) Ht) as Hd.
  destruct (DeleteExpiredOperations _ _ _) as [t f]. simpl in Hd.
  destruct (f || _); [exists owner; split; simpl; try done; by intros r ?%Hnil|].
  destruct (forallb _ _); [|exists owner; split; simpl; try done; by intros r ?%Hnil].
  set (records := OperationsExcludingPrefix _ _ _).
  destruct (loadLoop_linked (finished s) records owner (NewJournal maxEntries ret (clock s + Z.of_N w)) ∅)
    as (owner' & He & Ho); [|done|done|].
  - intros id row Hin. by apply Hd, (listed_row "exec:" (Z.to_nat maxEntries)).
  - destruct (loadLoop _ _ _) as [j h]. exists owner'. split; simpl; try done; try (by intros r ?%Hnil). by intros ? [= <-].
Qed.
End steps.

(** A host from an empty store stays linked. *)
Lemma hrun_linked CanonicalHash maxEntries ret ops : forall owner s, Linked owner s ->
  exists owner', Linked owner' (hrun CanonicalHash maxEntries ret ops s).
Proof.
  induction ops as [|op ops IH]; intros owner s HL; [by exists owner|]. cbn [hrun fold_left].
  assert (exists owner1, Linked owner1 (hstep CanonicalHash maxEntries ret op s)) as [owner1 H1].
  { destruct op; eauto using execute_linked, finish_linked, wait_linked, restart_linked. }
  by apply (IH owner1).
Qed.

Lemma hstart_linked now : Linked (fun _ => EmptyString) (hstart now).
Proof. split; simpl; try done; intros ? []%elem_of_nil. Qed.

(** C6: a retry is answered with the outcome of a call of [run] for the same operation
    id and the same canonical request, whether it came from an entry of this process,
    from an entry of another call still under way, from a row of the store or from a
    row that a restarted host loaded. *)
Theorem replay_consistent CanonicalHash maxEntries ret now ops id hash o :
  let s := hrun CanonicalHash maxEntries ret ops (hstart now) in
  (id, hash, o) ∈ replayed s -> (id, hash, o) ∈ finished s.
Proof.
  destruct (hrun_linked CanonicalHash maxEntries ret ops _ _ (hstart_linked now)) as [owner HL].
  apply (l_replayed _ _ HL).
Qed.

Lemma replay_consistent_witness :
  ("operation-1", replicate 32 x00, mkOutcome [x01] EmptyString)
    ∈ finished (hrun exampleHash 4 60 exampleOps (hstart 0)).
Proof.
  apply (replay_consistent exampleHash 4 60 0 exampleOps). vm_compute. left.
Defined.

(** ** Entries that stay *)

(** No call runs, no entry can be evicted, and there is no room. *)
Definition stuck (j : Journal) : Prop := order j = [] /\ max j <= Z.of_nat (size (entries j)).

Lemma stuck_start CanonicalHash d1 d2 now1 now2 id request t h j t' h' j' r : stuck j ->
  Execute_start CanonicalHash d1 d2 now1 now2 id request t h j = (t', h', j', r) ->
  stuck j' /\ forall p hash, r <> Runs p hash.
Proof.
  intros [Ho Hm]. unfold Execute_start. destruct (_ || _); [by intros [= <- <- <- <-]|].
  destruct (CanonicalHash request) as [hash|]; [|by intros [= <- <- <- <-]].
  destruct (entries j !! id) as [p|]; [case_bool_decide; by intros [= <- <- <- <-]|].
  rewrite Ho. cbn [evict]. cbv zeta. simpl. rewrite (proj2 (Z.leb_le _ _) Hm). by intros [= <- <- <- <-].
Qed.

Definition notRestart (op : HOp) : Prop := match op with HRestart _ _ => False | _ => True end.

Lemma stuck_step CanonicalHash maxEntries ret op s j :
  journal s = Some j -> stuck j -> running s = [] -> notRestart op ->
  let s' := hstep CanonicalHash maxEntries ret op s in
  (exists j', journal s' = Some j' /\ stuck j') /\ running s' = [] /\ runs s' = runs s.
Proof.
  intros Hj Hs Hr Hop. destruct op as [d1 d2 w1 w2 id request|i ds w o|i|d w]; unfold hstep; [| | |done].
  - rewrite Hj. destruct (Execute_start _ _ _ _ _ _ _ _ _ _) as [[[t h] j'] r] eqn:Ex.
    apply stuck_start in Ex as [Hs' Hno]; [|done].
    destruct r as [o [] []|p|p hash]; simpl; eauto 6. by destruct (Hno p hash).
  - rewrite Hj, Hr. simpl. eauto.
  - destruct (waiting s !! i) as [r|]; [|eauto].
    destruct (Execute_wait (nptr r) (heap s)) as [[o []]|]; simpl; eauto.
Qed.

(** Entries whose outcome could not be stored, and those loaded from pending rows, are
    never put in the order of eviction: a host whose journal is full of them runs no
    new operation until it restarts, however long their retention is over. *)
Theorem uncertain_entries_fill CanonicalHash maxEntries ret ops : forall s j,
  journal s = Some j -> stuck j -> running s = [] -> Forall notRestart ops ->
  runs (hrun CanonicalHash maxEntries ret ops s) = runs s.
Proof.
  induction ops as [|op ops IH]; intros s j Hj Hs Hr Hops; [done|].
  apply Forall_cons in Hops as [Hop Hops]. cbn [hrun fold_left].
  destruct (stuck_step CanonicalHash maxEntries ret op s j Hj Hs Hr Hop) as ((j' & Hj' & Hs') & Hr' & <-).
  by apply (IH _ j').
Qed.

(** A journal of two, filled by two operations whose results were not stored; the next
    operation is refused, an hour and a day later too. *)
Definition fillOps : list HOp :=
  [HRestart DbOk 0; HExecute DbOk DbOk 0 0 "operation-1" []; HFinish 0 [DbFail false] 0 noOutcome;
   HExecute DbOk DbOk 0 0 "operation-2" []; HFinish 0 [DbFail false] 0 noOutcome].
Lemma uncertain_entries_fill_witness :
  let s := hrun exampleHash 2 60 fillOps (hstart 0) in
  runs (hrun exampleHash 2 60 [HExecute DbOk DbOk 3600000000000 86400000000000 "operation-3" []] s) = runs s.
Proof.
  pose (s := hrun exampleHash 2 60 fillOps (hstart 0)).
  destruct (journal s) as [j|] eqn:Ej; [|vm_compute in Ej; discriminate].
  apply (uncertain_entries_fill exampleHash 2 60 _ s j); [exact Ej| |vm_compute; reflexivity|by repeat constructor].
  assert (E : journal s = Some j) by exact Ej. vm_compute in E. injection E as <-. split; [reflexivity|vm_compute; discriminate].
Defined.
