(* ===== verification/Race.v ===== *)
(** * Connection race

    Models [internal/peertransport/connectionmanager/race.go]: [Racer.connect] opens up
    to three paths to a peer, takes the first that is trusted, or the direct one when it
    is preferred, keeps or closes the others and stops on a failure that does not allow
    a fallback.

    One goroutine per candidate opens a path and puts one result in a channel with room
    for all of them; the loop of [connect] receives results and the tick of the
    preference timer; after it has returned, [drainCandidateResults] or
    [awaitWarmFallback] receives the remaining results.  The order in which they are
    received is a list of events.  A connection is a number; what its methods answer is
    part of the events.  An error is what [errors.As] and [errors.Is] say of it. *)
From S2P Require Import Prelude.
#[local] Open Scope Z_scope.

Inductive Path := PathDirectQUIC | PathRelayQUIC | PathWSS.
#[export] Instance Path_eq_dec : EqDecision Path.
Proof. solve_decision. Defined.

(** [ModeOther], [NetworkOther], [FailureOther]: a value that is none of the constants. *)
Inductive Mode := ModeAuto | ModeQUIC | ModeWSS | ModeDirectQUIC | ModeRelayQUIC | ModeRelayRace | ModeOther.
#[export] Instance Mode_eq_dec : EqDecision Mode.
Proof. solve_decision. Defined.
Inductive NetworkClass :=
| NetworkUnknown | NetworkUDPBlocked | NetworkDirectInfeasible | NetworkRelayPreferred | NetworkOther.

Inductive FailureClass :=
| FailureReachability | FailureTimeout | FailureUDPBlocked | FailureNAT | FailureTransient
| FailureAuthentication | FailureAuthorization | FailureCertificate | FailureProtocol | FailureRevoked
| FailureGeneration | FailureInternal | FailureOther.

(** The cause is what [errors.Is] says of it. *)
Record Failure := mkFailure { Class : FailureClass; fPath : option Path; ofDeadline : bool; ofCanceled : bool }.

Definition AllowsFallback (f : Failure) : bool :=
  match Class f with
  | FailureReachability | FailureTimeout | FailureUDPBlocked | FailureNAT | FailureTransient => true
  | _ => false
  end.

(** [asFailure]: the first [*Failure] in the chain. *)
Record Error := mkError { asFailure : option Failure; isDeadline : bool; isCanceled : bool }.
Definition failureError (f : Failure) : Error := mkError (Some f) (ofDeadline f) (ofCanceled f).

Definition untyped (p : Path) (e : Error) : Failure :=
  mkFailure (if isDeadline e then FailureTimeout else if isCanceled e then FailureTransient else FailureInternal)
    (Some p) (isDeadline e) (isCanceled e).
Definition typedFailure (p : Path) (e : Error) : Failure :=
  match asFailure e with
  | Some f =>
      match Class f with
      | FailureOther => untyped p e
      | c => mkFailure c (Some p) (ofDeadline f) (ofCanceled f)
      end
  | None => untyped p e
  end.

Abbreviation Conn := nat.
Inductive ConnState := StateProbing | StateReady | StateTrusted | StateSuspect | StateFailed.
#[export] Instance ConnState_eq_dec : EqDecision ConnState.
Proof. solve_decision. Defined.

Record Config := mkConfig {
  RelayDelay : Z; WSSDelay : Z; ConnectTimeout : Z; SequentialFallback : bool; RelayFirst : bool; OneShot : bool }.

Definition validate (c : Config) : bool :=
  negb ((RelayDelay c <? 0) || (WSSDelay c <? RelayDelay c) || (ConnectTimeout c <=? 0)
        || (ConnectTimeout c <=? RelayDelay c) || (ConnectTimeout c <=? WSSDelay c)).

(** [started]: [begin] closed the channel [start]. *)
Record candidate := mkCand { path : Path; delay : Z; fallbackOnly : bool; started : bool }.
Definition begin (i : nat) (cs : list candidate) : list candidate :=
  alter (fun c => mkCand (path c) (delay c) (fallbackOnly c) true) i cs.

Record result_ := mkResult { index : nat; connection : option Conn; relayRegion : string; err : option Error }.

(** ** What a candidate's goroutine sends *)
Definition failed (c : FailureClass) (p : Path) : Error := failureError (mkFailure c (Some p) false false).

(** What the connection answers: its state before and after the admission, whether it
    can be admitted, the result of the admission, and its relay region if it has one. *)
Record ConnFacts := mkFacts {
  state1 : ConnState; admissible : bool; nonceRead : bool; admission : option Error;
  ctxDeadline : bool; state2 : ConnState; provides : option string }.

Definition admitInitialHealth (p : Path) (f : ConnFacts) : option Error :=
  if negb (admissible f) then Some (failed FailureProtocol p)
  else if negb (nonceRead f) then Some (failed FailureInternal p)
  else
    match admission f with
    | None => None
    | Some e =>
        Some (failureError
          match asFailure e with
          | Some f => typedFailure p (failureError f)
          | None =>
              mkFailure (if isDeadline e || ctxDeadline f then FailureTimeout else FailureTransient)
                (Some p) (isDeadline e) (isCanceled e)
          end)
    end.

Definition connectionRelayRegion (p : Path) (f : ConnFacts) : string * option Error :=
  match provides f with
  | None | Some EmptyString => (EmptyString, None)
  | Some region =>
      if bool_decide (p = PathDirectQUIC) || (128 <? Z.of_nat (String.length region)) || negb (allChars region)
      then (EmptyString, Some (failed FailureProtocol p)) else (region, None)
  end.

(** The goroutine after [Connect] returned [conn] and [e]; [budgetSpent]: the
    candidate's context has passed its deadline.  The result and what was closed. *)
Definition candidateOutcome (i : nat) (p : Path) (conn : option Conn) (e : option Error) (budgetSpent : bool)
    (f : ConnFacts) : result_ * list Conn :=
  let e1 := if budgetSpent then
              Some (failureError (mkFailure FailureTimeout (Some p) true
                      (match e with Some x => isCanceled x | None => false end)))
            else e in
  match conn with
  | None => (mkResult i None EmptyString (Some (default (failed FailureInternal p) e1)), [])
  | Some c =>
      let e2 := match e1 with
                | None => if bool_decide (state1 f = StateReady) then admitInitialHealth p f else None
                | Some _ => e1
                end in
      let e3 := match e2 with
                | None =>
                    let st := if bool_decide (state1 f = StateReady) then state2 f else state1 f in
                    if bool_decide (st = StateTrusted) then None else Some (failed FailureProtocol p)
                | Some _ => e2
                end in
      let '(region, e4) := match e3 with None => connectionRelayRegion p f | Some _ => (EmptyString, e3) end in
      match e4 with
      | None => (mkResult i (Some c) region None, [])
      | Some x => (mkResult i None region (Some x), [c])
      end
  end.

(** The goroutine of a candidate that was not started when the attempt ended. *)
Definition candidateUnstarted (i : nat) (deadline : bool) : result_ :=
  mkResult i None EmptyString (Some (mkError None deadline (negb deadline))).

(** How the goroutine of candidate [i] ended: [Connect] returned, or the attempt did before it
    was started. *)
Inductive Finish :=
| Opened (i : nat) (conn : option Conn) (e : option Error) (budgetSpent : bool) (f : ConnFacts)
| Unstarted (i : nat) (deadline : bool).
(** What it put in the channel and what it closed. *)
Definition finish (l : list candidate) (g : Finish) : result_ * list Conn :=
  match g with
  | Opened i conn e budgetSpent f =>
      candidateOutcome i (default PathDirectQUIC (path <$> l !! i)) conn e budgetSpent f
  | Unstarted i deadline => (candidateUnstarted i deadline, [])
  end.

(** ** The candidates *)
Definition fresh_ (p : Path) : candidate := mkCand p 0 false false.

Definition candidates (mode : Mode) (network : NetworkClass) : option (list candidate) + Failure :=
  let direct := fresh_ PathDirectQUIC in
  let relay := fresh_ PathRelayQUIC in
  let wss := fresh_ PathWSS in
  match mode, network with
  | ModeDirectQUIC, _ => inl (Some [direct])
  | ModeRelayQUIC, _ => inl (Some [relay])
  | ModeRelayRace, _ => inl (Some [relay; wss])
  | ModeWSS, _ => inl (Some [wss])
  | ModeQUIC, NetworkUDPBlocked => inr (mkFailure FailureUDPBlocked None false false)
  | ModeQUIC, NetworkDirectInfeasible => inl (Some [relay])
  | ModeQUIC, (NetworkRelayPreferred | NetworkUnknown) => inl (Some [direct; relay])
  | ModeAuto, NetworkUDPBlocked => inl (Some [wss])
  | ModeAuto, NetworkDirectInfeasible => inl (Some [relay; wss])
  | ModeAuto, (NetworkRelayPreferred | NetworkUnknown) => inl (Some [direct; relay; wss])
  | _, _ => inl None
  end.

Definition relayFirstCandidates (cs : list candidate) : list candidate :=
  concat (map (fun p => map (fun c => mkCand (path c) (delay c) (fallbackOnly c) false)
                          (List.filter (fun c => bool_decide (path c = p)) cs))
              [PathRelayQUIC; PathWSS; PathDirectQUIC]).

(** ** The race *)

Definition isSome {A} (o : option A) : bool := match o with Some _ => true | None => false end.

(** [Connection]: nil in the zero [Selection]. *)
Record Side := mkSide { Generation : Z; sPath : Path; RelayRegion : string; Connection : option Conn }.
Record Selection := mkSelection { chosen : Side; Standby : option Side }.
Definition held (w : option Selection) : bool :=
  match w with Some w => isSome (Connection (chosen w)) | None => false end.

Inductive ConnectError := ErrAttempt | ErrMode | ErrPath | ErrContext | ErrFailure (f : Failure) | ErrJoin (fs : list Failure).

(** [winner]: [None] is the zero value.  [preference]: the timer's channel is not nil.
    [closed]: the connections on which the loop, the drain and the warm fallback called [Close];
    [revoked]: the selected one, on which [drainCandidateResults] calls [Close] once for each
    verdict that arrives after the return.  [published], [standbyErr]: what was sent to the
    channel of the selection. *)
Record Race := mkRace {
  cs : list candidate; winner : option Selection; terminal : option Failure; failures : list Failure;
  preference : bool; directEligible : bool; directFinished : bool;
  readyFallback : option result_; readyWSS : option result_; completed : nat; cancelled : bool;
  closed : list Conn; published : list Side; standbyErr : option Failure; revoked : list Conn }.
#[export] Instance Race_eta : Eta Race := fun s =>
  mkRace (cs s) (winner s) (terminal s) (failures s) (preference s) (directEligible s) (directFinished s)
    (readyFallback s) (readyWSS s) (completed s) (cancelled s) (closed s) (published s) (standbyErr s) (revoked s).

(** Who receives the results after the return: nobody has to, [drainCandidateResults],
    [awaitWarmFallback], or nobody although [awaitWarmFallback] should. *)
Inductive Background :=
| NoTask | Draining (remaining : nat) (selected : option Conn) | Warming (remaining : nat) | Abandoned (remaining : nat).

Inductive Outcome := Selected (w : Selection) (channel : bool) | Refused (e : ConnectError).
Inductive Phase := Racing (s : Race) | Done (out : Outcome) (bg : Background) (s : Race).

(** The caller's context, the attempt's by its deadline, or none. *)
Inductive ContextEnd := CallerEnded | DeadlinePassed | NotEnded.

Section race.
Variables (cfg : Config) (gen : Z) (mode : Mode).
(** Which context has ended when the loop is over. *)
Variable ctxEnded : ContextEnd.

Definition close (c : option Conn) (s : Race) : Race := s <| closed := closed s ++ option_list c |>.
Definition cancel (s : Race) : Race := s <| cancelled := true |>.
Definition total (s : Race) : nat := length (cs s).
Definition pathOf (s : Race) (r : result_) : Path := default PathDirectQUIC (path <$> cs s !! index r).
Definition sideOf (p : Path) (r : result_) : Side := mkSide gen p (relayRegion r) (connection r).

Definition relayRace : bool := bool_decide (mode = ModeRelayRace).
Definition preferDirect (s : Race) : bool :=
  negb (bool_decide (mode = ModeAuto)) &&
  match cs s with
  | c0 :: c1 :: _ => bool_decide (path c0 = PathDirectQUIC) && bool_decide (path c1 = PathRelayQUIC)
  | _ => false
  end.

(** What follows the loop.  [cancel] has ended the attempt's context by then. *)
Definition afterLoop (s : Race) : Phase :=
  let s1 := match readyFallback s with Some r => close (connection r) s | None => s end in
  let s2 := match readyWSS s1 with Some r => close (connection r) s1 | None => s1 end in
  let s3 := cancel s2 <| readyFallback := None |> <| readyWSS := None |> in
  match (if held (winner s3) then winner s3 else None) with
  | Some w => Done (Selected w false) NoTask s3
  | None =>
      match terminal s3 with
      | Some f => Done (Refused (ErrFailure f)) NoTask s3
      | None =>
          match ctxEnded with
          | CallerEnded => Done (Refused ErrContext) NoTask s3
          | DeadlinePassed => Done (Refused (ErrFailure (mkFailure FailureTimeout None true false))) NoTask s3
          | NotEnded =>
              if cancelled s3 then Done (Refused (ErrFailure (mkFailure FailureTimeout None false true))) NoTask s3
              else Done (Refused (ErrJoin (failures s3))) NoTask s3
          end
      end
  end.

Definition loop (s : Race) : Phase := if (completed s <? total s)%nat then Racing s else afterLoop s.

(** The block after a failure when there is a winner or a terminal failure: it takes the
    results that are there and leaves the others to [drainCandidateResults]. *)
Fixpoint takePending (pend : list result_) (s : Race) : Race :=
  match pend with
  | [] => s
  | r :: rest =>
      if (total s <=? completed s)%nat then s
      else
        let s1 := s <| completed := S (completed s) |> in
        let p := pathOf s r in
        takePending rest
          match err r, winner s1 with
          | None, Some w =>
              if bool_decide (sPath (chosen w) = PathDirectQUIC) && negb (bool_decide (p = PathDirectQUIC))
                 && negb (isSome (Standby w))
              then s1 <| winner := Some (mkSelection (chosen w) (Some (sideOf p r))) |>
              else close (connection r) s1
          | None, None => close (connection r) s1
          | Some e, _ =>
              let f := typedFailure p e in
              if AllowsFallback f then s1
              else
                match winner s1 with
                | Some w => close (Connection (chosen w)) s1 <| terminal := Some f |> <| winner := None |>
                | None => s1 <| terminal := Some f |>
                end
          end
  end.
Definition settle (pend : list result_) (s : Race) : Phase :=
  let s1 := takePending pend (cancel s) in
  let left := (total s1 - completed s1)%nat in
  let bg := if (left =? 0)%nat then NoTask else Draining left (w ← winner s1; Connection (chosen w)) in
  match winner s1, terminal s1 with
  | Some w, _ => Done (Selected w false) bg s1
  | None, Some f => Done (Refused (ErrFailure f)) bg s1
  | None, None => Done (Refused ErrAttempt) bg s1
  end.

(** The returns: with the rest drained, or kept warm for the selection's channel. *)
Definition returnDraining (w : Selection) (channel : bool) (s : Race) : Phase :=
  Done (Selected w channel) (Draining (total s - completed s) (Connection (chosen w))) (cancel (s <| winner := Some w |>)).
Definition returnWarming (w : Selection) (s : Race) : Phase :=
  Done (Selected w true) (Warming (total s - completed s)) (s <| winner := Some w |>).

Definition onSuccess (r : result_) (s : Race) : Phase :=
  let p := pathOf s r in
  let me := sideOf p r in
  if bool_decide (mode = ModeAuto) || relayRace then
    if OneShot cfg then returnDraining (mkSelection me None) false s else returnWarming (mkSelection me None) s
  else if preferDirect s && bool_decide (p = PathRelayQUIC) && directEligible s && negb (directFinished s)
  then loop (s <| readyFallback := Some r |>)
  else if preferDirect s && bool_decide (p = PathWSS) && directEligible s && negb (directFinished s)
  then loop (s <| readyWSS := Some r |>)
  else if preferDirect s && bool_decide (p = PathDirectQUIC) then
    let s1 := s <| directFinished := true |> in
    if negb (directEligible s1) then loop (close (connection r) s1)
    else
      match readyFallback s1, readyWSS s1 with
      | Some f, Some w =>
          returnDraining (mkSelection me (Some (sideOf PathRelayQUIC f))) true
            (s1 <| readyFallback := None |> <| readyWSS := None |> <| published := [sideOf PathWSS w] |>)
      | Some f, None =>
          returnDraining (mkSelection me (Some (sideOf PathRelayQUIC f))) false (s1 <| readyFallback := None |>)
      | None, Some w =>
          returnDraining (mkSelection me (Some (sideOf PathWSS w))) false (s1 <| readyWSS := None |>)
      | None, None => returnWarming (mkSelection me None) s1
      end
  else if negb (held (winner s)) && negb (isSome (terminal s)) then
    match readyFallback s with
    | Some f =>
        if bool_decide (p = PathDirectQUIC)
        then loop (cancel (s <| winner := Some (mkSelection me (Some (sideOf PathRelayQUIC f))) |> <| readyFallback := None |>))
        else loop (cancel (s <| winner := Some (mkSelection me None) |>))
    | None => loop (cancel (s <| winner := Some (mkSelection me None) |>))
    end
  else loop (close (connection r) s).

Definition onFailure (r : result_) (e : Error) (pend : list result_) (s0 : Race) : Phase :=
  let s := close (connection r) s0 in
  let p := pathOf s r in
  let f := typedFailure p e in
  if isSome (terminal s) then loop s
  else if held (winner s) then
    if relayRace || isCanceled e || isDeadline e || AllowsFallback f then loop s
    else loop (close (w ← winner s; Connection (chosen w)) s <| winner := None |> <| terminal := Some f |>)
  else
    let direct := bool_decide (p = PathDirectQUIC) in
    let s1 := if direct then s <| directFinished := true |> <| directEligible := false |> <| preference := false |> else s in
    match (if direct && AllowsFallback f then readyFallback s1 else None),
          (if direct && AllowsFallback f then readyWSS s1 else None) with
    | Some b, w =>
        loop (cancel (s1 <| readyFallback := None |> <| readyWSS := None |>
          <| winner := Some (mkSelection (sideOf PathRelayQUIC b) (sideOf PathWSS <$> w)) |>))
    | None, Some w =>
        loop (cancel (s1 <| readyWSS := None |> <| winner := Some (mkSelection (sideOf PathWSS w) None) |>))
    | None, None =>
        let s2 := s1 <| failures := failures s1 ++ [f] |> in
        if negb (AllowsFallback f) && negb relayRace then loop (cancel (s2 <| terminal := Some f |>))
        else
          let s3 := s2 <| cs := begin (S (index r)) (cs s2) |> in
          if held (winner s3) || isSome (terminal s3) then settle pend s3 else loop s3
    end.

Definition onResult (r : result_) (pend : list result_) (s0 : Race) : Phase :=
  let s := s0 <| completed := S (completed s0) |> in
  match err r with None => onSuccess r s | Some e => onFailure r e pend s end.

(** The tick of the preference timer. *)
Definition onPreference (s0 : Race) : Phase :=
  if negb (preference s0) then Racing s0
  else
    let s := s0 <| preference := false |> <| directEligible := false |> in
    match readyFallback s, readyWSS s with
    | Some f, Some w =>
        returnDraining (mkSelection (sideOf (pathOf s f) f) (Some (sideOf PathWSS w))) false
          (s <| readyFallback := None |> <| readyWSS := None |>)
    | Some f, None => returnWarming (mkSelection (sideOf (pathOf s f) f) None) (s <| readyFallback := None |>)
    | None, Some w => returnWarming (mkSelection (sideOf PathWSS w) None) (s <| readyWSS := None |>)
    | None, None => Racing s
    end.

(** One round of [drainCandidateResults]: the connection of the result is closed, and the
    selected one when the result is a failure that allows no fallback. *)
Definition drainOne (r : result_) (selected : option Conn) (s : Race) : Race :=
  let s1 := close (connection r) s in
  match err r with
  | Some e => if AllowsFallback (typedFailure (pathOf s r) e) then s1 else s1 <| revoked := revoked s1 ++ option_list selected |>
  | None => s1
  end.

(** One round of [awaitWarmFallback], and whether it goes on. *)
Definition warmOne (r : result_) (s : Race) : Race * bool :=
  match err r with
  | Some e =>
      let s1 := close (connection r) s in
      let f := typedFailure (pathOf s r) e in
      if AllowsFallback f then (s1 <| cs := begin (S (index r)) (cs s1) |>, true)
      else (s1 <| standbyErr := Some f |>, false)
  | None => (s <| published := published s ++ [sideOf (pathOf s r) r] |>, true)
  end.

(** [EvStart i]: the delay of candidate [i] is over.  [EvEnded]: the attempt's context
    has ended, which [awaitWarmFallback] sees. *)
Inductive Event := EvStart (i : nat) | EvResult (r : result_) (pend : list result_) | EvPreference | EvEnded.

Definition startDelayed (i : nat) (s : Race) : Race :=
  match cs s !! i with
  | Some c => if fallbackOnly c then s else s <| cs := begin i (cs s) |>
  | None => s
  end.

Definition step (ev : Event) (ph : Phase) : Phase :=
  match ev, ph with
  | EvStart i, Racing s => Racing (startDelayed i s)
  | EvStart i, Done out bg s => Done out bg (startDelayed i s)
  | EvResult r pend, Racing s => onResult r pend s
  | EvResult r _, Done out (Draining (S k) selected) s => Done out (Draining k selected) (drainOne r selected s)
  | EvResult r _, Done out (Warming (S k)) s =>
      let '(s', more) := warmOne r s in Done out (if more then Warming k else Abandoned k) s'
  | EvPreference, Racing s => onPreference s
  | EvEnded, Done out (Warming k) s => Done out (Abandoned k) s
  | _, _ => ph
  end.
Definition steps (evs : list Event) (ph : Phase) : Phase := fold_left (fun ph ev => step ev ph) evs ph.

(** [connect] up to its loop.  [excluded], [only]: [None] is the path 0. *)
Definition fallbacks (l : list candidate) : list candidate :=
  match l with
  | [] => []
  | c :: rest => c :: map (fun c => mkCand (path c) (delay c) true (started c)) rest
  end.
Definition beginAll (l : list candidate) : list candidate := fold_left (fun l i => begin i l) (seq 0 (length l)) l.

Definition newRace (l : list candidate) : Race :=
  let s := mkRace l None None [] false false false None None 0 false [] [] None [] in
  s <| preference := preferDirect s |> <| directEligible := preferDirect s |>.

Definition connect (network : NetworkClass) (excluded only : option Path) : Phase + ConnectError :=
  if gen =? 0 then inr ErrAttempt
  else
    match candidates mode network with
    | inr f => inr (ErrFailure f)
    | inl None => inr ErrMode
    | inl (Some l0) =>
        let l1 := if RelayFirst cfg && (bool_decide (mode = ModeAuto) || relayRace) then relayFirstCandidates l0 else l0 in
        let restricted := isSome excluded || isSome only in
        let l2 := if restricted then
                    map (fun c => mkCand (path c) (delay c) false false)
                      (List.filter (fun c => negb (bool_decide (Some (path c) = excluded))
                         && match only with None => true | Some p => bool_decide (path c = p) end) l1)
                  else l1 in
        match l2 with
        | [] => inr (ErrFailure (mkFailure FailureReachability (match only with Some p => Some p | None => excluded end) false false))
        | c0 :: rest =>
            let l3 := if restricted then mkCand (path c0) 0 (fallbackOnly c0) (started c0) :: rest else l2 in
            let l4 := if SequentialFallback cfg then fallbacks l3 else l3 in
            let l5 := if (bool_decide (mode = ModeAuto) || relayRace) && negb (SequentialFallback cfg)
                      then beginAll l4 else begin 0 l4 in
            inl (Racing (newRace l5))
        end
    end.

(** Every [Path] is a valid one here. *)
Definition connectExcluding (network : NetworkClass) (excluded : Path) := connect network (Some excluded) None.
Definition connectOnly (network : NetworkClass) (only : Path) := connect network None (Some only).
Definition Connect (network : NetworkClass) := connect network None None.
End race.
