(* ===== verification/RaceProps.v ===== *)
(** * Connection race: the theorems

    Who owns the connections that the candidates of a race open, when a race returns,
    what a failure that allows no fallback does to it, and the order in which a
    sequential race starts its candidates. *)
From S2P Require Import Prelude.
From S2P Require Import Race.
#[local] Open Scope Z_scope.
#[local] Set Warnings "-clear-no-such-hyp".

Definition connsOf (r : result_) : list Conn := option_list (connection r).
Definition conns (rs : list result_) : list Conn := concat (map connsOf rs).

(** What a selection, the race and the channel of a selection hold. *)
Definition sideConns (x : Side) : list Conn := option_list (Connection x).
Definition selectionConns (w : Selection) : list Conn :=
  sideConns (chosen w) ++ match Standby w with Some x => sideConns x | None => [] end.
Definition holding (s : Race) : list Conn :=
  match winner s with Some w => selectionConns w | None => [] end
  ++ match readyFallback s with Some r => connsOf r | None => [] end
  ++ concat (map sideConns (published s)).

Definition phaseRace (ph : Phase) : Race := match ph with Racing s | Done _ _ s => s end.

(** A result of a candidate's goroutine: a connection or an error. *)
Definition wellFormed (n : nat) (r : result_) : Prop :=
  (index r < n)%nat /\ (err r = None <-> is_Some (connection r)).

Lemma wellFormed_failure n r e : wellFormed n r -> err r = Some e -> connection r = None.
Proof.
  intros [_ Hwf] He. destruct (connection r) eqn:Hc; [|done].
  assert (err r = None) by (apply Hwf; eauto). congruence.
Qed.

Lemma candidateOutcome_wellFormed n i p conn e spent f : (i < n)%nat ->
  wellFormed n (fst (candidateOutcome i p conn e spent f)).
Proof.
  intros Hi. unfold candidateOutcome. destruct conn as [c|]; cbv zeta.
  - destruct (match (match (if spent then _ else e) with None => _ | Some _ => _ end) with None => _ | Some _ => _ end).
    + split; simpl; [done|]. split; [done|by intros []].
    + destruct (connectionRelayRegion p f) as [region [x|]]; (split; simpl; [done|]); split; naive_solver.
  - split; simpl; [done|]. split; [done|by intros []].
Qed.

(** What a goroutine opened is sent or closed. *)
Lemma candidateOutcome_owned i p conn e spent f : let '(r, cl) := candidateOutcome i p conn e spent f in
  option_list conn = connsOf r ++ cl.
Proof.
  unfold candidateOutcome. destruct conn as [c|]; [|done]. cbv zeta.
  destruct (match (match (if spent then _ else e) with None => _ | Some _ => _ end) with None => _ | Some _ => _ end); [done|].
  by destruct (connectionRelayRegion p f) as [region [x|]].
Qed.

(** ** The candidates of a race *)
Definition paths (l : list candidate) : list Path := map path l.

Lemma paths_begin i l : paths (begin i l) = paths l.
Proof. unfold paths, begin. revert i. induction l as [|c l IH]; intros [|i]; simpl; [done..|]. f_equal. apply IH. Qed.
Lemma length_begin i l : length (begin i l) = length l.
Proof. apply length_alter. Qed.
Lemma paths_beginAll l : paths (beginAll l) = paths l.
Proof.
  unfold beginAll. generalize (seq 0 (length l)) as ixs. intros ixs. revert l.
  induction ixs as [|i ixs IH]; intros l; simpl; [done|]. by rewrite IH, paths_begin.
Qed.
Lemma paths_fallbacks l : paths (fallbacks l) = paths l.
Proof. destruct l as [|c l]; [done|]. unfold paths. simpl. f_equal. rewrite map_map. done. Qed.

(** The direct path is preferred only among it and the relay. *)
Definition shape (mode : Mode) (ps : list Path) : Prop :=
  mode = ModeAuto \/ mode = ModeRelayRace \/ ps = [PathDirectQUIC; PathRelayQUIC] \/
  (forall p q rest, ps <> p :: q :: rest).

Lemma connect_shape cfg gen mode network excluded only ph :
  connect cfg gen mode network excluded only = inl ph ->
  exists s, ph = Racing s /\ s = newRace mode (cs s) /\ shape mode (paths (cs s)) /\ cs s <> [].
Proof.
  unfold connect. destruct (gen =? 0); [done|].
  destruct (candidates mode network) as [[l0|]|] eqn:E0; [|done|done]. cbv zeta.
  set (l1 := if RelayFirst cfg && _ then _ else _).
  set (l2 := if isSome excluded || _ then _ else _).
  assert (Hs : shape mode (paths l2)).
  { unfold shape. destruct mode; auto; right; right; simpl in E0; destruct network; simplify_eq; subst l1 l2;
      rewrite ?andb_false_r; destruct excluded as [[]|], only as [[]|]; cbn;
      first [by left | right; intros p q rest; discriminate]. }
  destruct l2 as [|c0 rest]; [done|]. intros [= <-]. eexists. split; [done|]. cbn [cs newRace].
  set (l3 := if isSome excluded || _ then _ else _).
  assert (H3 : paths l3 = paths (c0 :: rest)) by (subst l3; by destruct (isSome excluded || isSome only)).
  set (l4 := if SequentialFallback cfg then _ else _).
  assert (H4 : paths l4 = paths (c0 :: rest)) by (subst l4; destruct (SequentialFallback cfg); rewrite ?paths_fallbacks; exact H3).
  set (l5 := if _ && negb (SequentialFallback cfg) then _ else _).
  assert (H5 : paths l5 = paths (c0 :: rest)) by (subst l5; destruct (_ && negb _); rewrite ?paths_beginAll, ?paths_begin; exact H4).
  change (cs (newRace mode l5)) with l5. split; [done|]. rewrite H5. split; [done|].
  intros Hn. rewrite Hn in H5. done.
Qed.

(** ** Accounting

    Occurrences of a connection, so that arithmetic does the permutations. *)
Definition occ (l : list Conn) (c : Conn) : nat := count_occ Nat.eq_dec l c.
Lemma occ_app l k c : occ (l ++ k) c = (occ l c + occ k c)%nat.
Proof. apply count_occ_app. Qed.
Lemma occ_nil c : occ [] c = 0%nat.
Proof. done. Qed.
Lemma conns_snoc rs r : conns (rs ++ [r]) = conns rs ++ connsOf r.
Proof. unfold conns. rewrite map_app, concat_app. simpl. by rewrite app_nil_r. Qed.
Lemma published_snoc l x : concat (map sideConns (l ++ [x])) = concat (map sideConns l) ++ sideConns x.
Proof. rewrite map_app, concat_app. simpl. by rewrite app_nil_r. Qed.

Definition accounted (rs : list result_) (s : Race) : Prop :=
  forall c, occ (conns rs) c = (occ (closed s) c + occ (holding s) c)%nat.

Ltac count := unfold accounted, holding, selectionConns, sideConns, connsOf in *;
  let c := fresh "c" in intros c; repeat (match goal with H : forall c, occ _ c = _ |- _ => specialize (H c) end);
  simpl in *; rewrite ?conns_snoc, ?published_snoc, ?occ_app, ?occ_nil in *; simpl in *;
  rewrite ?occ_app, ?occ_nil, ?app_nil_r in *; try lia.

(** What moves when a result is received. *)
Lemma accounted_move rs r s s' : accounted rs s ->
  (forall c, occ (closed s') c + occ (holding s') c = occ (closed s) c + occ (holding s) c + occ (connsOf r) c)%nat ->
  accounted (rs ++ [r]) s'.
Proof. intros H E c. rewrite conns_snoc, occ_app, E. specialize (H c). lia. Qed.

Ltac moved := let c := fresh "c" in intros c; unfold holding; cbn -[occ].
Ltac occs := unfold selectionConns, sideConns, connsOf; cbn -[occ]; rewrite ?app_nil_r, ?occ_app, ?occ_nil; try lia.

Record Inv (mode : Mode) (n : nat) (rs : list result_) (s : Race) : Prop := {
  i_total : total s = n;
  i_shape : shape mode (paths (cs s));
  i_count : completed s = length rs;
  i_bound : (length rs <= n)%nat;
  i_wss : readyWSS s = None;
  i_winner : forall w, winner s = Some w -> Standby w = None /\ is_Some (Connection (chosen w));
  i_ready : forall r, readyFallback s = Some r ->
    index r ∈ map index rs /\ pathOf s r = PathRelayQUIC /\ preferDirect mode s = true /\ is_Some (connection r) /\
    winner s = None;
  i_race : (mode = ModeAuto \/ mode = ModeRelayRace) -> winner s = None /\ readyFallback s = None;
  i_eligible : directEligible s = true ->
    preferDirect mode s = true /\ directFinished s = false /\ winner s = None;
  i_preference : preference s = true -> directEligible s = true;
  i_quiet : published s = [] /\ revoked s = [] /\ standbyErr s = None;
  i_conns : accounted rs s }.

Definition remaining (bg : Background) : nat :=
  match bg with NoTask => 0 | Draining k _ | Warming k | Abandoned k => k end.

Record DoneInv (n : nat) (rs : list result_) (out : Outcome) (bg : Background) (s : Race) : Prop := {
  d_total : total s = n;
  d_count : (remaining bg + length rs)%nat = n;
  d_ready : readyFallback s = None;
  d_out : match out with
          | Selected w _ => winner s = Some w /\ is_Some (Connection (chosen w)) /\
                            match bg with Draining _ sel => sel = Connection (chosen w) | _ => True end
          | Refused _ => bg = NoTask /\ winner s = None /\ published s = []
          end;
  d_conns : accounted rs s }.

Definition PhaseInv (mode : Mode) (n : nat) (rs : list result_) (ph : Phase) : Prop :=
  match ph with
  | Racing s => Inv mode n rs s /\ (length rs < n)%nat
  | Done out bg s => DoneInv n rs out bg s
  end.

Section accounting.
Context (cfg : Config) (gen : Z) (mode : Mode) (ctxEnded : ContextEnd).

Lemma afterLoop_inv n rs s : Inv mode n rs s -> length rs = n -> PhaseInv mode n rs (afterLoop ctxEnded s).
Proof.
  intros [] Hn. unfold afterLoop. cbv zeta.
  assert (Hc : accounted rs (match readyFallback s with Some r => close (connection r) s | None => s end <| readyFallback := None |>)).
  { unfold accounted, holding in i_conns0. destruct (readyFallback s) eqn:Er; unfold close; count. }
  set (s1 := match readyFallback s with Some r => close (connection r) s | None => s end) in *.
  assert (E : winner s1 = winner s /\ terminal s1 = terminal s /\ total s1 = total s /\ readyWSS s1 = readyWSS s
    /\ published s1 = published s) by (subst s1; destruct (readyFallback s); done).
  clearbody s1. destruct E as (Ew & Et & Ec & Es & Ep). rewrite Es, i_wss0. destruct i_quiet0 as (Hp & Hr & He).
  set (s3 := cancel (s1 <| readyFallback := None |> <| readyWSS := None |>)).
  assert (E3 : winner s3 = winner s /\ terminal s3 = terminal s /\ total s3 = n /\ readyFallback s3 = None
    /\ published s3 = [] /\ accounted rs s3) by (split_and!; [exact Ew|exact Et|by rewrite <- i_total0|done|by rewrite <- Hp|exact Hc]).
  clearbody s3. destruct E3 as (Ew3 & Et3 & Ec3 & Er3 & Ep3 & Hc3). rewrite Ew3, Et3.
  destruct (winner s) as [w|] eqn:Ewin; simpl.
  - destruct (i_winner0 w eq_refl) as [Hst [c Hcn]]. rewrite Hcn. split; simpl; auto.
  - destruct (terminal s); [|destruct ctxEnded; [| |destruct (cancelled s3)]]; split; simpl; auto.
Qed.

Lemma loop_inv n rs s : Inv mode n rs s -> PhaseInv mode n rs (loop ctxEnded s).
Proof.
  intros HI. pose proof HI as []. unfold loop. destruct (Nat.ltb_spec (completed s) (total s)).
  - split; [done|lia].
  - apply afterLoop_inv; [done|lia].
Qed.

(** A result that is received counts, and keeps what does not depend on it. *)
Definition received (s : Race) : Race := s <| completed := S (completed s) |>.

Lemma preferDirect_paths s s' : paths (cs s') = paths (cs s) -> preferDirect mode s' = preferDirect mode s.
Proof.
  unfold preferDirect, paths. destruct (cs s) as [|a [|b ?]], (cs s') as [|a' [|b' ?]]; simpl; try done.
  by intros [= -> ->].
Qed.

Lemma pathOf_paths s s' r : paths (cs s') = paths (cs s) -> pathOf s' r = pathOf s r.
Proof. intros E. unfold pathOf. rewrite <- !list_lookup_fmap. change (path <$> cs s') with (paths (cs s')). by rewrite E. Qed.

(** With the direct path preferred there are two candidates. *)
Lemma preferDirect_two s r : shape mode (paths (cs s)) -> mode <> ModeAuto -> mode <> ModeRelayRace ->
  preferDirect mode s = true -> (index r < total s)%nat ->
  pathOf s r = PathDirectQUIC /\ index r = 0%nat \/ pathOf s r = PathRelayQUIC /\ index r = 1%nat.
Proof.
  intros [?|[?|[E|Hno]]] Ha Hb Hp Hi; try done.
  - unfold paths, total, pathOf in *. destruct (cs s) as [|a [|b [|]]]; simplify_eq/=.
    destruct (index r) as [|[|]]; simpl; [left|right|lia]; done.
  - unfold preferDirect in Hp. destruct (cs s) as [|a [|b l]]; simpl in Hp; rewrite ?andb_false_r in Hp; try done.
    by destruct (Hno (path a) (path b) (paths l)).
Qed.

Lemma preferDirect_index s r : shape mode (paths (cs s)) -> mode <> ModeAuto -> mode <> ModeRelayRace ->
  preferDirect mode s = true -> pathOf s r = PathRelayQUIC -> index r = 1%nat.
Proof.
  intros Hs Ha Hb Hp Hr. destruct (decide (index r < total s)%nat) as [Hi|Hi].
  - destruct (preferDirect_two s r Hs Ha Hb Hp Hi) as [[? ?]|[? ?]]; [congruence|done].
  - unfold pathOf, total in *. rewrite lookup_ge_None_2 in Hr by lia. done.
Qed.

Lemma returnWarming_inv n rs w s : total s = n -> length rs = completed s -> (length rs <= n)%nat ->
  readyFallback s = None -> is_Some (Connection (chosen w)) -> accounted rs (s <| winner := Some w |>) ->
  PhaseInv mode n rs (returnWarming w s) /\ forall channel, PhaseInv mode n rs (returnDraining w channel s).
Proof. intros. split; [|intros channel]; split; simpl; auto; lia. Qed.

Lemma Inv_update n rs s s' : Inv mode n rs s -> paths (cs s') = paths (cs s) -> total s' = total s ->
  completed s' = completed s -> readyWSS s' = readyWSS s -> winner s' = winner s ->
  readyFallback s' = readyFallback s -> (directEligible s' = true -> directEligible s = true /\ directFinished s' = directFinished s) ->
  (preference s' = true -> directEligible s' = true) -> published s' = published s -> revoked s' = revoked s ->
  standbyErr s' = standbyErr s -> closed s' = closed s -> Inv mode n rs s'.
Proof.
  intros [] Ep Et Ec Ew Ewin Er Hel Hpref Epub Erev Est Ecl.
  assert (Hh : holding s' = holding s) by (unfold holding; by rewrite Ewin, Er, Epub).
  split; rewrite ?Et, ?Ep, ?Ec, ?Ew, ?Ewin, ?Er, ?Epub, ?Erev, ?Est; auto.
  - intros r Hr. rewrite (preferDirect_paths s s' Ep), (pathOf_paths s s' r Ep). auto.
  - intros He. destruct (Hel He) as [He0 ->]. rewrite (preferDirect_paths s s' Ep). auto.
  - intros c. rewrite Ecl, Hh. auto.
Qed.

Lemma index_old rs r i : i ∈ map index rs -> i ∈ map index (rs ++ [r]).
Proof. rewrite map_app, elem_of_app. auto. Qed.
Lemma index_new rs r : index r ∈ map index (rs ++ [r]).
Proof. rewrite map_app, elem_of_app. right. by apply list_elem_of_singleton. Qed.

(** The two ways a received connection is kept by the loop: in [readyFallback] or in
    [winner]; and the way it is not. *)
Lemma Inv_keep n rs s r s' : Inv mode n rs s -> (length rs < n)%nat -> paths (cs s') = paths (cs s) ->
  completed s' = S (completed s) -> readyWSS s' = None ->
  (forall w, winner s' = Some w -> Standby w = None /\ is_Some (Connection (chosen w))) ->
  (forall x, readyFallback s' = Some x -> winner s' = None) ->
  (forall x, readyFallback s' = Some x -> readyFallback s = Some x \/
     x = r /\ pathOf s r = PathRelayQUIC /\ preferDirect mode s = true /\ is_Some (connection r)) ->
  ((mode = ModeAuto \/ mode = ModeRelayRace) -> winner s' = None /\ readyFallback s' = None) ->
  (directEligible s' = true -> directEligible s = true /\ directFinished s' = false /\ winner s' = None) ->
  (preference s' = true -> directEligible s' = true) ->
  published s' = [] -> revoked s' = revoked s -> standbyErr s' = standbyErr s ->
  accounted (rs ++ [r]) s' -> Inv mode n (rs ++ [r]) s'.
Proof.
  intros [] Hlt Ep Ec Ew Hw Hrw Hr Hrace Hel Hpref Epub Erev Est Hc. destruct i_quiet0 as (Hp & Hv & He).
  assert (Et : total s' = total s).
  { unfold total. rewrite <- (length_map path (cs s')), <- (length_map path (cs s)). unfold paths in Ep. by rewrite Ep. }
  split; rewrite ?Ep, ?length_app; simpl; auto; try congruence; try lia.
  - intros x Hx. rewrite (preferDirect_paths s s' Ep), (pathOf_paths s s' x Ep).
    destruct (Hr x Hx) as [Hold|(-> & ? & ? & ?)].
    + destruct (i_ready0 x Hold) as (? & ? & ? & ? & ?). split_and!; eauto using index_old.
    + split_and!; eauto using index_new.
  - intros He'. rewrite (preferDirect_paths s s' Ep). destruct (Hel He') as (He0 & ? & ?).
    destruct (i_eligible0 He0) as (? & _ & _). auto.
  - split_and!; congruence.
Qed.

(** The invariant's clauses about fields that the step keeps. *)
Ltac eligible :=
  try (match goal with H : forall r, readyFallback ?s = Some r -> _ |- forall x, readyFallback ?s = Some x -> _ =>
    let x := fresh in let E := fresh in intros x E; destruct (H x E) as (? & ? & ? & ? & ?); by auto end);
  try (match goal with H : directEligible ?s = true -> _ |- directEligible ?s = true -> _ =>
  let E := fresh in intros E; destruct (H E) as (? & ? & ?); split_and!; by auto end).

Definition isNew (n : nat) (rs : list result_) (r : result_) : Prop := wellFormed n r /\ index r ∉ map index rs.

(** While a result of another path than the direct one is new, none is kept ready. *)
Lemma ready_unset n rs s r : Inv mode n rs s -> mode <> ModeAuto -> mode <> ModeRelayRace -> isNew n rs r ->
  pathOf s r <> PathDirectQUIC -> readyFallback s = None.
Proof.
  intros [] Ha Hb [[Hix _] Hnew] Hd. destruct (readyFallback s) as [x|] eqn:Hx; [|done]. exfalso.
  destruct (i_ready0 x eq_refl) as (Hin & Hpx & Hpd & _).
  destruct (preferDirect_two s r) as [[Hpr _]|[_ Hpr]]; auto; [by rewrite i_total0|].
  destruct Hnew. by rewrite Hpr, <- (preferDirect_index s x).
Qed.

Lemma winner_unheld n rs s : Inv mode n rs s -> held (winner s) = false -> winner s = None.
Proof.
  intros [] Hh. destruct (winner s) as [w|]; [|done]. destruct (i_winner0 w eq_refl) as [_ [x Hx]].
  simpl in Hh. by rewrite Hx in Hh.
Qed.

(** The first connection wins a race for latency. *)
Lemma onSuccess_latency n rs s r w : Inv mode n rs s -> (length rs < n)%nat -> (mode = ModeAuto \/ mode = ModeRelayRace) ->
  w = mkSelection (sideOf gen (pathOf s r) r) None -> is_Some (connection r) ->
  PhaseInv mode n (rs ++ [r]) (if OneShot cfg then returnDraining w false (received s) else returnWarming w (received s)).
Proof.
  intros [] Hlt Hm -> Hc. destruct i_quiet0 as (Hp & _). destruct (i_race0 Hm) as [Hw Hf].
  assert (Hlen : length (rs ++ [r]) = S (completed s)) by (rewrite length_app; simpl; lia).
  edestruct (returnWarming_inv n (rs ++ [r]) (mkSelection (sideOf gen (pathOf s r) r) None) (received s)) as [Hwa Hdr];
    [done|by rewrite Hlen|lia|done|done| |destruct (OneShot cfg); [apply Hdr|apply Hwa]].
  apply (accounted_move rs r s); [done|]. moved; rewrite ?Hw, ?Hf, ?Hp. occs.
Qed.

Lemma onSuccess_inv n rs s r : Inv mode n rs s -> (length rs < n)%nat -> isNew n rs r -> err r = None ->
  PhaseInv mode n (rs ++ [r]) (onSuccess cfg gen mode ctxEnded r (received s)).
Proof.
  intros HI Hlt Hn He. pose proof HI as []. destruct i_quiet0 as (Hp & Hv & Hst). pose proof Hn as [[Hix [Hwf _]] Hnew].
  destruct (Hwf He) as [c Hc].
  assert (Hlen : length (rs ++ [r]) = S (completed s)) by (rewrite length_app; simpl; lia).
  unfold onSuccess. destruct (bool_decide (mode = ModeAuto) || relayRace mode) eqn:Em.
  { apply onSuccess_latency; auto.
    unfold relayRace in Em. apply orb_true_iff in Em as [Em|Em]; apply bool_decide_eq_true in Em; auto. }
  apply orb_false_iff in Em as [Ha Hb]. unfold relayRace in Hb. apply bool_decide_eq_false in Ha, Hb.
  assert (Hno : ~ (mode = ModeAuto \/ mode = ModeRelayRace)) by tauto.
  change (pathOf (received s) r) with (pathOf s r). change (preferDirect mode (received s)) with (preferDirect mode s).
  change (readyFallback (received s)) with (readyFallback s). change (winner (received s)) with (winner s).
  change (terminal (received s)) with (terminal s). cbv zeta.
  destruct (preferDirect mode s && bool_decide (pathOf s r = PathRelayQUIC) && _ && _) eqn:E1.
  { bool_hyps. apply loop_inv, (Inv_keep n rs s); auto; simpl; try done; eligible.
    { by destruct (i_eligible0 ltac:(done)) as (_ & _ & ?). }
    { intros x [= <-]. right. rewrite Hc. eauto. }
    assert (Hf : readyFallback s = None) by (apply (ready_unset n rs s r); auto; congruence).
    apply (accounted_move rs r s); [done|]. moved. rewrite Hf, Hp. occs. }
  destruct (preferDirect mode s && bool_decide (pathOf s r = PathWSS) && _ && _) eqn:E2.
  { bool_hyps. destruct (preferDirect_two s r) as [[? _]|[? _]]; try done; [by rewrite i_total0|congruence..]. }
  destruct (preferDirect mode s && bool_decide (pathOf s r = PathDirectQUIC)) eqn:E3.
  { destruct (negb (directEligible _)) eqn:Eel.
    { apply negb_true_iff in Eel. simpl in Eel. apply loop_inv, (Inv_keep n rs s); auto; simpl; try done; eligible; [by rewrite Eel|].
      apply (accounted_move rs r s); [done|]. moved. rewrite Hp. occs. }
    apply negb_false_iff in Eel. destruct (i_eligible0 Eel) as (_ & _ & Hw).
    assert (Hw1 : readyWSS ((received s) <| directFinished := true |>) = None) by done. rewrite Hw1.
    destruct (readyFallback ((received s) <| directFinished := true |>)) as [f|] eqn:Hf; simpl in Hf;
      (eapply returnWarming_inv; simpl; [done|lia|lia|done|rewrite Hc; eauto|]);
      apply (accounted_move rs r s); try done; moved; rewrite ?Hf, ?Hp, ?Hw; occs. }
  destruct (negb (held (winner s)) && _) eqn:E4.
  { bool_hyps. assert (Hw : winner s = None) by (by apply (winner_unheld n rs s)).
    assert (Hf : readyFallback s = None).
    { destruct (readyFallback s) as [x|] eqn:Hx; [|done]. destruct (i_ready0 x eq_refl) as (_ & _ & Hpd & _).
      rewrite Hpd in E3. apply bool_decide_eq_false in E3. by rewrite (ready_unset n rs s r) in Hx. }
    rewrite Hf. apply loop_inv, (Inv_keep n rs s); auto; simpl; try done; try congruence.
    - intros w [= <-]. simpl. rewrite Hc. eauto.
    - intros He0. exfalso. destruct (i_eligible0 He0) as (Hpd & Hfin & _). simpl in E1, E2. rewrite Hpd in *.
      destruct (preferDirect_two s r) as [[Hpr _]|[Hpr _]]; auto; [by rewrite i_total0| |];
        rewrite Hpr, ?He0, ?Hfin in *; done.
    - apply (accounted_move rs r s); [done|]. moved. rewrite Hw, Hf, Hp. occs. }
  apply loop_inv, (Inv_keep n rs s); auto; simpl; try done; eligible.
  apply (accounted_move rs r s); [done|]. moved. rewrite Hp. occs.
Qed.

(** A failure adds nothing to account for. *)
Lemma accounted_failure rs r s s' : accounted rs s -> connection r = None -> closed s' = closed s ->
  holding s' = holding s -> accounted (rs ++ [r]) s'.
Proof.
  intros H Hc Ec Eh. apply (accounted_move rs r s); [done|]. intros c. rewrite Ec, Eh. unfold connsOf. rewrite Hc.
  cbn -[occ]. rewrite occ_nil. lia.
Qed.

(** The ways a failure leaves the loop without a winner. *)
Lemma failure_rest n rs s r s' : Inv mode n rs s -> (length rs < n)%nat -> connection r = None -> winner s = None ->
  cs s' = cs s \/ cs s' = begin (S (index r)) (cs s) -> completed s' = S (completed s) ->
  winner s' = None -> readyFallback s' = readyFallback s -> readyWSS s' = None -> published s' = [] ->
  revoked s' = revoked s -> standbyErr s' = standbyErr s -> closed s' = closed s ->
  (directEligible s' = true -> directEligible s = true /\ directFinished s' = false) ->
  (preference s' = true -> directEligible s' = true) ->
  PhaseInv mode n (rs ++ [r]) (loop ctxEnded s').
Proof.
  intros HI Hlt Hc Hw Hcs H1 H2 H3 H4 H5 H6 H7 H8 H9 H10. pose proof HI as []. destruct i_quiet0 as (Hp & Hv & Hst).
  apply loop_inv, (Inv_keep n rs s); auto; try (by rewrite ?H2, ?H3; auto); try congruence.
  - destruct Hcs as [->| ->]; [done|apply paths_begin].
  - intros Hm. rewrite H3. by destruct (i_race0 Hm).
  - intros E. destruct (H9 E). auto.
  - apply (accounted_failure rs r s); auto. unfold holding. by rewrite H2, H3, H5, Hw, Hp.
Qed.

Lemma onFailure_inv n rs s r e pend : Inv mode n rs s -> (length rs < n)%nat -> isNew n rs r -> err r = Some e ->
  PhaseInv mode n (rs ++ [r]) (onFailure gen mode ctxEnded r e pend (received s)).
Proof.
  intros HI Hlt [[Hix Hwf] Hnew] He. pose proof HI as []. destruct i_quiet0 as (Hp & Hv & Hst).
  pose proof (wellFormed_failure n r e (conj Hix Hwf) He) as Hc.
  unfold onFailure. cbv zeta. set (sc := close (connection r) (received s)).
  assert (Hsc : closed sc = closed s) by (subst sc; simpl; by rewrite Hc, app_nil_r).
  change (terminal sc) with (terminal s). change (winner sc) with (winner s).
  change (pathOf sc r) with (pathOf s r). set (f := typedFailure (pathOf s r) e).
  assert (Hkeep : PhaseInv mode n (rs ++ [r]) (loop ctxEnded sc)).
  { apply loop_inv, (Inv_keep n rs s); auto; simpl; try done; eligible. by apply (accounted_failure rs r s). }
  destruct (isSome (terminal s)) eqn:Ht; [done|]. destruct (winner s) as [w|] eqn:Hw.
  { destruct (i_winner0 w eq_refl) as [Hsb [c Hcw]]. simpl. rewrite Hcw. simpl. destruct (_ || _); [done|].
    assert (He0 : directEligible s = false).
    { destruct (directEligible s); [|done]. destruct (i_eligible0 eq_refl) as (_ & _ & [=]). }
    apply loop_inv, (Inv_keep n rs s); auto; simpl; try done; [intros Hm; by destruct (i_race0 Hm)|by rewrite He0|].
    apply (accounted_move rs r s); [done|]. moved. rewrite Hw, Hc, Hp. unfold selectionConns. rewrite Hsb. occs.
    rewrite Hcw, Hc. occs. }
  cbn [held]. set (direct := bool_decide (pathOf s r = PathDirectQUIC)).
  set (s1 := if direct then _ else sc).
  assert (E1 : cs s1 = cs s /\ completed s1 = S (completed s) /\ winner s1 = None /\ readyFallback s1 = readyFallback s /\
    readyWSS s1 = None /\ published s1 = [] /\ revoked s1 = revoked s /\ standbyErr s1 = standbyErr s /\
    closed s1 = closed s /\ terminal s1 = terminal s /\
    (directEligible s1 = true -> directEligible s = true /\ directFinished s1 = false) /\
    (direct = true -> directEligible s1 = false) /\ (preference s1 = true -> directEligible s1 = true)).
  { subst s1. destruct direct; split_and!; try done. intros E. destruct (i_eligible0 E) as (? & ? & _). done. }
  clearbody s1. destruct E1 as (E1c & E1n & E1w & E1f & E1s & E1p & E1r & E1e & E1l & E1t & E1d & E1x & E1q). rewrite E1f, E1s.
  replace (if direct && AllowsFallback f then None else None) with (@None result_) by (by destruct (_ && _)).
  destruct (if direct && AllowsFallback f then readyFallback s else None) as [b|] eqn:Eb.
  { destruct (direct && AllowsFallback f) eqn:Ed; [|done]. destruct (i_ready0 b Eb) as (_ & _ & Hpd & [c Hcb] & _).
    apply andb_true_iff in Ed as [Ed _]. specialize (E1x Ed).
    apply loop_inv, (Inv_keep n rs s); auto; simpl; try done; try congruence.
    - intros w [= <-]. simpl. rewrite Hcb. eauto.
    - intros Hm. destruct (i_race0 Hm). congruence.
    - apply (accounted_move rs r s); [done|]. moved. rewrite Hw, Eb, Hp, E1l, E1p. occs. rewrite Hc. occs. }
  destruct (negb _ && _); [by apply (failure_rest n rs s); simpl; auto|].
  cbn [winner terminal]. simpl. rewrite E1w, E1t, Ht. simpl. apply (failure_rest n rs s); simpl; auto. right. by rewrite E1c.
Qed.

Lemma onPreference_inv n rs s : Inv mode n rs s -> (length rs < n)%nat -> PhaseInv mode n rs (onPreference gen s).
Proof.
  intros HI Hlt. pose proof HI as []. destruct i_quiet0 as (Hp & Hv & Hst).
  unfold onPreference. destruct (negb (preference s)); [done|]. cbv zeta.
  set (s1 := s <| preference := false |> <| directEligible := false |>).
  assert (HI1 : Inv mode n rs s1) by (by apply (Inv_update n rs s)).
  change (readyWSS s1) with (readyWSS s). rewrite i_wss0.
  destruct (readyFallback s1) as [f|] eqn:Hf; [|done]. simpl in Hf. destruct (i_ready0 f Hf) as (_ & _ & _ & [c Hc] & Hw).
  eapply returnWarming_inv; simpl; [done|lia|lia|done|rewrite Hc; eauto|].
  intros c'. rewrite i_conns0. unfold holding. cbn -[occ]. rewrite Hw, Hf, Hp. occs.
Qed.

Lemma onResult_inv n rs s r pend : Inv mode n rs s -> (length rs < n)%nat -> isNew n rs r ->
  PhaseInv mode n (rs ++ [r]) (onResult cfg gen mode ctxEnded r pend s).
Proof.
  intros HI Hlt Hn. unfold onResult. change (s <| completed := S (completed s) |>) with (received s).
  destruct (err r) eqn:He; [by apply onFailure_inv|by apply onSuccess_inv].
Qed.

Lemma startDelayed_inv n rs s i : Inv mode n rs s -> Inv mode n rs (startDelayed i s).
Proof.
  intros HI. unfold startDelayed. destruct (cs s !! i) as [c|]; [|done]. destruct (fallbackOnly c); [done|].
  apply (Inv_update n rs s); auto; [apply paths_begin|apply length_begin|apply (i_preference _ _ _ _ HI)].
Qed.

Lemma startDelayed_done n rs out bg s i : DoneInv n rs out bg s -> DoneInv n rs out bg (startDelayed i s).
Proof.
  intros []. unfold startDelayed. destruct (cs s !! i) as [c|]; [|done]. destruct (fallbackOnly c); [done|].
  split; auto. by rewrite <- d_total0; apply length_begin.
Qed.

(** After the return: results are closed, or published for the channel. *)
Lemma drainOne_inv n rs out k selected s r : DoneInv n rs out (Draining (S k) selected) s ->
  DoneInv n (rs ++ [r]) out (Draining k selected) (drainOne r selected s).
Proof.
  intros []. assert (Hc : forall s', closed s' = closed s ++ option_list (connection r) -> holding s' = holding s ->
    accounted (rs ++ [r]) s').
  { intros s' E1 E2. apply (accounted_move rs r s); [done|]. intros c. rewrite E1, E2, occ_app. unfold connsOf. lia. }
  assert (Hn : (remaining (Draining k selected) + length (rs ++ [r]))%nat = n) by (rewrite length_app; simpl in *; lia).
  unfold drainOne. destruct (err r) as [e|]; [destruct (AllowsFallback _)|]; (split; [done|done|done| |by apply Hc]);
    (destruct out; [exact d_out0|by destruct d_out0]).
Qed.

Lemma warmOne_inv n rs out k s r : DoneInv n rs out (Warming (S k)) s -> wellFormed n r ->
  let '(s', more) := warmOne gen r s in DoneInv n (rs ++ [r]) out (if more then Warming k else Abandoned k) s'.
Proof.
  intros [] Hwf. assert (Hn : (k + length (rs ++ [r]))%nat = n) by (rewrite length_app; simpl in *; lia).
  assert (Hsel : exists w ch, out = Selected w ch) by (destruct out; [eauto|by destruct d_out0]).
  destruct Hsel as (w & ch & ->). unfold warmOne. destruct (err r) as [e|] eqn:He.
  - pose proof (wellFormed_failure n r e Hwf He) as Hc.
    assert (Hacc : forall s', closed s' = closed s ++ option_list (connection r) -> holding s' = holding s -> accounted (rs ++ [r]) s').
    { intros s' E1 E2. apply (accounted_move rs r s); [done|]. intros c. rewrite E1, E2, occ_app. unfold connsOf. lia. }
    destruct (AllowsFallback _); split; simpl; auto.
    by rewrite <- d_total0; apply length_begin.
  - split; simpl; auto. apply (accounted_move rs r s); [done|]. moved.
    destruct d_out0 as (Hw & _ & _). rewrite Hw, d_ready0, published_snoc. occs.
Qed.

(** ** Runs *)
Definition results (evs : list Event) : list result_ :=
  concat (map (fun ev => match ev with EvResult r _ => [r] | _ => [] end) evs).

Definition abandoned (ph : Phase) : Prop := match ph with Done _ (Abandoned _) _ => True | _ => False end.

Lemma step_abandoned ev ph : abandoned ph -> abandoned (step cfg gen mode ctxEnded ev ph).
Proof. destruct ph as [|out [] s]; try done. by destruct ev. Qed.
Lemma steps_abandoned evs : forall ph, abandoned ph -> abandoned (steps cfg gen mode ctxEnded evs ph).
Proof. induction evs; simpl; auto using step_abandoned. Qed.

(** The channel has room for one result per candidate. *)
Lemma fresh_index_room n rs r : isNew n rs r -> NoDup (map index rs) -> Forall (fun i => i < n)%nat (map index rs) ->
  (length rs < n)%nat.
Proof.
  intros [[Hi _] Hnew] Hnd Hall.
  assert (Hlen : (length (index r :: map index rs) <= length (seq 0 n))%nat).
  { apply submseteq_length, NoDup_submseteq; [by constructor|]. intros i [->|Hin]%elem_of_cons; apply elem_of_seq.
    - lia.
    - rewrite Forall_forall in Hall. apply Hall in Hin. lia. }
  rewrite length_seq in Hlen. simpl in Hlen. rewrite length_map in Hlen. lia.
Qed.

Lemma step_result n rs ph r pend : PhaseInv mode n rs ph -> isNew n rs r -> (length rs < n)%nat -> ~ abandoned ph ->
  PhaseInv mode n (rs ++ [r]) (step cfg gen mode ctxEnded (EvResult r pend) ph).
Proof.
  intros HI Hn Hlt Hab. destruct ph as [s|out bg s].
  - destruct HI as [HI _]. by apply onResult_inv.
  - pose proof (d_count _ _ _ _ _ HI) as Hc. destruct bg as [|[|k] sel|[|k]|k]; simpl in Hc; try lia; [| |done].
    + by apply drainOne_inv.
    + simpl. pose proof (warmOne_inv n rs out k s r HI (proj1 Hn)) as Hw. by destruct (warmOne gen r s).
Qed.

Lemma step_other n rs ph ev : PhaseInv mode n rs ph -> (forall r pend, ev <> EvResult r pend) ->
  PhaseInv mode n rs (step cfg gen mode ctxEnded ev ph).
Proof.
  intros HI Hev. destruct ev as [i|r pend| |]; [| by destruct (Hev r pend)| |].
  - destruct ph as [s|out bg s]; [destruct HI; split; auto using startDelayed_inv|by apply startDelayed_done].
  - destruct ph as [s|out bg s]; [destruct HI; by apply onPreference_inv|done].
  - destruct ph as [s|out [] s]; try done. destruct HI. split; auto. destruct out; [done|by destruct d_out0].
Qed.

(** Every result is received, and what is not was left in the channel of a race whose
    [awaitWarmFallback] gave up.  [Q] is any property of the results received and the
    phase that the steps keep. *)
Lemma steps_preserve n (Q : list result_ -> Phase -> Prop) :
  (forall rs ph r pend, PhaseInv mode n rs ph -> isNew n rs r -> (length rs < n)%nat -> ~ abandoned ph -> Q rs ph ->
     Q (rs ++ [r]) (step cfg gen mode ctxEnded (EvResult r pend) ph)) ->
  (forall rs ph ev, PhaseInv mode n rs ph -> (forall r pend, ev <> EvResult r pend) -> Q rs ph ->
     Q rs (step cfg gen mode ctxEnded ev ph)) ->
  forall evs rs ph, PhaseInv mode n rs ph -> Q rs ph -> Forall (wellFormed n) (results evs) ->
  NoDup (map index (rs ++ results evs)) -> Forall (fun i => i < n)%nat (map index rs) ->
  exists rs' lost, PhaseInv mode n (rs ++ rs') (steps cfg gen mode ctxEnded evs ph) /\
    Q (rs ++ rs') (steps cfg gen mode ctxEnded evs ph) /\
    results evs ≡ₚ rs' ++ lost /\ (~ abandoned (steps cfg gen mode ctxEnded evs ph) -> lost = []).
Proof.
  intros Qres Qother. induction evs as [|ev evs IH]; intros rs ph HI HQ Hwf Hnd Hlt; [exists [], []; rewrite app_nil_r; done|].
  cbn [steps fold_left]. fold (steps cfg gen mode ctxEnded evs (step cfg gen mode ctxEnded ev ph)).
  destruct (match ev with EvResult _ _ => true | _ => false end) eqn:Eev.
  2: { assert (Er : results (ev :: evs) = results evs) by (by destruct ev). rewrite Er in *.
       assert (Hev : forall r pend, ev <> EvResult r pend) by (by intros r pend ->).
       apply IH; auto. by apply step_other. }
  destruct ev as [|r pend| |]; try done. change (results (EvResult r pend :: evs)) with (r :: results evs) in *.
  apply Forall_cons in Hwf as [Hr Hwf].
  assert (Hnd' := Hnd). rewrite map_app in Hnd'. apply NoDup_app in Hnd' as (Hn1 & Hn2 & Hn3).
  assert (Hnew : isNew n rs r) by (split; [done|]; intros Hin; apply (Hn2 _ Hin); left).
  assert (Hd : abandoned ph \/ ~ abandoned ph) by (destruct ph as [|? [] ?]; simpl; tauto).
  destruct Hd as [Hab|Hab].
  - assert (Hid : step cfg gen mode ctxEnded (EvResult r pend) ph = ph) by (by destruct ph as [|out [] s]). rewrite Hid.
    edestruct (IH rs ph) as (rs' & lost & H1 & H2 & H3 & _); auto.
    + rewrite map_app. simpl in Hn3. apply NoDup_cons in Hn3 as [_ Hn3]. apply NoDup_app. split_and!; auto.
      intros x Hx Hin. apply (Hn2 x Hx). by right.
    + exists rs', (r :: lost). split_and!; [done|done|by rewrite H3, Permutation_middle|]. intros Hno.
      destruct Hno. by apply steps_abandoned.
  - assert (Hroom := fresh_index_room n rs r Hnew Hn1 Hlt).
    edestruct (IH (rs ++ [r]) (step cfg gen mode ctxEnded (EvResult r pend) ph)) as (rs' & lost & H1 & H2 & H3 & H4); auto.
    + by apply step_result.
    + by rewrite <- app_assoc.
    + rewrite map_app. apply Forall_app. split; [done|]. constructor; [apply Hr|constructor].
    + exists (r :: rs'), lost. rewrite <- app_assoc in H1, H2. split_and!; [done|done| |done]. simpl. by rewrite H3.
Qed.
End accounting.

(** ** The theorems *)
Lemma newRace_inv mode l : shape mode (paths l) -> Inv mode (length l) [] (newRace mode l).
Proof.
  intros Hs. split; simpl; auto; try done; try lia.
Qed.

Lemma conns_perm rs rs' : rs ≡ₚ rs' -> conns rs ≡ₚ conns rs'.
Proof.
  unfold conns. induction 1 as [|x l l' _ IH|x y l|l1 l2 l3 _ IH1 _ IH2]; simpl; [done|by rewrite IH| |by rewrite IH1].
  rewrite !app_assoc. by rewrite (Permutation_app_comm (connsOf y)).
Qed.
Lemma conns_app rs rs' : conns (rs ++ rs') = conns rs ++ conns rs'.
Proof. unfold conns. by rewrite map_app, concat_app. Qed.

Lemma accounted_perm rs s : accounted rs s -> conns rs ≡ₚ closed s ++ holding s.
Proof. intros H. apply (Permutation_count_occ Nat.eq_dec). intros c. fold (occ (conns rs) c). rewrite H. symmetry. apply occ_app. Qed.

(** The results that the goroutines of [n] candidates send: one each. *)
Definition oneEach (n : nat) (evs : list Event) : Prop :=
  Forall (wellFormed n) (results evs) /\ NoDup (map index (results evs)).

(** A run of [connect]; [Q] as above. *)
Lemma connect_run cfg gen mode ctxEnded network excluded only ph0 evs (Q : list result_ -> Phase -> Prop) :
  connect cfg gen mode network excluded only = inl ph0 -> oneEach (total (phaseRace ph0)) evs ->
  let n := total (phaseRace ph0) in
  (forall rs ph r pend, PhaseInv mode n rs ph -> isNew n rs r -> (length rs < n)%nat -> ~ abandoned ph -> Q rs ph ->
     Q (rs ++ [r]) (step cfg gen mode ctxEnded (EvResult r pend) ph)) ->
  (forall rs ph ev, PhaseInv mode n rs ph -> (forall r pend, ev <> EvResult r pend) -> Q rs ph ->
     Q rs (step cfg gen mode ctxEnded ev ph)) ->
  Q [] ph0 ->
  exists rs lost, PhaseInv mode n rs (steps cfg gen mode ctxEnded evs ph0) /\
    Q rs (steps cfg gen mode ctxEnded evs ph0) /\
    results evs ≡ₚ rs ++ lost /\ (~ abandoned (steps cfg gen mode ctxEnded evs ph0) -> lost = []).
Proof.
  intros Hc [Hwf Hnd] n H1 H2 HQ. destruct (connect_shape _ _ _ _ _ _ _ Hc) as (s & -> & Hs & Hsh & Hne). simpl in *.
  apply (steps_preserve cfg gen mode ctxEnded n Q H1 H2 evs [] (Racing s)); auto.
  split; [|simpl; subst n; unfold total; destruct (cs s); [done|simpl; lia]].
  rewrite Hs. by apply newRace_inv.
Qed.

(** ** The selected connection

    [drainCandidateResults] closes it for each verdict it receives. *)
Definition isVerdict (r : result_) : bool :=
  match err r with Some e => negb (AllowsFallback (typedFailure PathDirectQUIC e)) | None => false end.
Definition verdicts (rs : list result_) : nat := length (List.filter isVerdict rs).

Lemma AllowsFallback_path p q e : AllowsFallback (typedFailure p e) = AllowsFallback (typedFailure q e).
Proof. unfold typedFailure, untyped, AllowsFallback. destruct (asFailure e) as [[[] ? ? ?]|]; done. Qed.

Lemma verdicts_app rs rs' : verdicts (rs ++ rs') = (verdicts rs + verdicts rs')%nat.
Proof. unfold verdicts. by rewrite List.filter_app, length_app. Qed.
Lemma verdicts_perm rs rs' : rs ≡ₚ rs' -> verdicts rs = verdicts rs'.
Proof.
  unfold verdicts. induction 1 as [|x l l' _ IH|x y l|]; simpl; [done|destruct (isVerdict x); simpl; by rewrite IH| |congruence].
  by destruct (isVerdict x), (isVerdict y).
Qed.

Section revoked.
Context (cfg : Config) (gen : Z) (mode : Mode) (ctxEnded : ContextEnd).

Lemma loop_revoked s : revoked (phaseRace (loop ctxEnded s)) = revoked s.
Proof. unfold loop, afterLoop, close. repeat case_match; done. Qed.
Lemma takePending_revoked pend : forall s, revoked (takePending gen pend s) = revoked s.
Proof.
  induction pend as [|r pend IH]; intros s; simpl; [done|]. case_match; [done|]. rewrite IH. unfold close.
  repeat case_match; done.
Qed.
Lemma settle_revoked pend s : revoked (phaseRace (settle gen pend s)) = revoked s.
Proof.
  unfold settle. cbv zeta. pose proof (takePending_revoked pend (cancel s)) as H. simpl in H.
  set (s1 := takePending _ _ _) in *. clearbody s1. by destruct (winner s1), (terminal s1).
Qed.
Lemma onSuccess_revoked r s : revoked (phaseRace (onSuccess cfg gen mode ctxEnded r s)) = revoked s.
Proof.
  unfold onSuccess. cbv zeta. repeat (case_match; rewrite ?loop_revoked; try done).
Qed.
Lemma onFailure_revoked r e pend s : revoked (phaseRace (onFailure gen mode ctxEnded r e pend s)) = revoked s.
Proof.
  unfold onFailure. cbv zeta. set (s1 := close (connection r) s). change (revoked s) with (revoked s1). clearbody s1.
  destruct (isSome (terminal s1)); [apply loop_revoked|].
  destruct (held (winner s1)); [case_match; by rewrite loop_revoked|].
  set (s2 := if bool_decide _ then _ else s1).
  assert (E : revoked s2 = revoked s1) by (subst s2; by case_match). clearbody s2.
  repeat (case_match; rewrite ?loop_revoked, ?settle_revoked; try exact E).
Qed.
Lemma onResult_revoked r pend s : revoked (phaseRace (onResult cfg gen mode ctxEnded r pend s)) = revoked s.
Proof. unfold onResult. destruct (err r); [by rewrite onFailure_revoked|by rewrite onSuccess_revoked]. Qed.
Lemma onPreference_revoked s : revoked (phaseRace (onPreference gen s)) = revoked s.
Proof. unfold onPreference, returnDraining, returnWarming. repeat case_match; done. Qed.

(** The selected connection is closed at most once for each verdict, and only after it was
    returned. *)
Definition revokedOnly (rs : list result_) (ph : Phase) : Prop :=
  match ph with
  | Done (Selected w _) _ s =>
      exists k, revoked s = concat (replicate k (sideConns (chosen w))) /\ (k <= verdicts rs)%nat
  | Racing s | Done (Refused _) _ s => revoked s = []
  end.

Lemma quiet_revokedOnly rs ph : revoked (phaseRace ph) = [] -> revokedOnly rs ph.
Proof. destruct ph as [s|[w ch|e] bg s]; simpl; intros H; [done| |done]. exists 0%nat. split; [done|lia]. Qed.

Lemma revokedOnly_same rs r out bg bg' s s' : revoked s' = revoked s -> revokedOnly rs (Done out bg s) ->
  revokedOnly (rs ++ [r]) (Done out bg' s').
Proof.
  intros E. simpl. destruct out; rewrite E; [|done]. intros (k & H1 & H2). exists k. split; [done|].
  rewrite verdicts_app. lia.
Qed.

Lemma step_revoked n rs ph r pend : PhaseInv mode n rs ph -> (length rs < n)%nat -> ~ abandoned ph -> revokedOnly rs ph ->
  revokedOnly (rs ++ [r]) (step cfg gen mode ctxEnded (EvResult r pend) ph).
Proof.
  intros HI Hlt Hab HQ. destruct ph as [s|out bg s].
  - apply quiet_revokedOnly. simpl. by rewrite onResult_revoked.
  - pose proof (d_count _ _ _ _ _ HI) as Hc. pose proof (d_out _ _ _ _ _ HI) as Ho.
    destruct bg as [|[|k] sel|[|k]|k]; simpl in Hc; try lia; [| |done].
    + destruct out as [w ch|e]; [|by destruct Ho]. destruct Ho as (_ & _ & ->). cbn [step]. unfold drainOne.
      destruct (err r) as [e|] eqn:He; [|by apply (revokedOnly_same rs r _ NoTask _ s)].
      destruct (AllowsFallback _) eqn:Ha; [by apply (revokedOnly_same rs r _ NoTask _ s)|].
      destruct HQ as (j & H1 & H2). exists (S j). rewrite verdicts_app. split.
      * simpl. rewrite H1. fold (sideConns (chosen w)).
        change (concat (replicate j (sideConns (chosen w))) ++ sideConns (chosen w)
                = concat (replicate (S j) (sideConns (chosen w)))).
        by rewrite replicate_S_end, concat_app; simpl; rewrite app_nil_r.
      * unfold verdicts at 2. simpl. unfold isVerdict.
        rewrite He, (AllowsFallback_path _ (pathOf s r)), Ha. simpl. lia.
    + cbn [step]. unfold warmOne. destruct (err r); [destruct (AllowsFallback _)|]; by apply (revokedOnly_same rs r _ NoTask _ s).
Qed.

Lemma step_revoked_other n rs ph ev : PhaseInv mode n rs ph -> (forall r pend, ev <> EvResult r pend) -> revokedOnly rs ph ->
  revokedOnly rs (step cfg gen mode ctxEnded ev ph).
Proof.
  intros HI Hev HQ. destruct ev as [i|r pend| |]; [|by destruct (Hev r pend)| |].
  - assert (E : forall s, revoked (startDelayed i s) = revoked s) by (intros s; unfold startDelayed; by repeat case_match).
    destruct ph as [s|[] bg s]; simpl in *; by rewrite ?E.
  - destruct ph as [s|out bg s]; [|done]. apply quiet_revokedOnly. simpl. by rewrite onPreference_revoked.
  - destruct ph as [s|out bg s]; [done|]. by destruct bg, out.
Qed.
End revoked.

(** ** The goroutines *)
Definition finishIndex (g : Finish) : nat := match g with Opened i _ _ _ _ | Unstarted i _ => i end.
Definition opened_ (g : Finish) : list Conn := match g with Opened _ conn _ _ _ => option_list conn | Unstarted _ _ => [] end.
Definition sent (l : list candidate) (gs : list Finish) : list result_ := map (fun g => (finish l g).1) gs.
Definition closedThere (l : list candidate) (gs : list Finish) : list Conn := concat (map (fun g => (finish l g).2) gs).

Lemma finish_index l g : index (finish l g).1 = finishIndex g.
Proof.
  destruct g as [i conn e b f|i d]; [|done]. simpl. unfold candidateOutcome. destruct conn as [c|]; [|done]. cbv zeta.
  by repeat case_match.
Qed.

Lemma finish_wellFormed l n g : (finishIndex g < n)%nat -> wellFormed n (finish l g).1.
Proof.
  destruct g as [i conn e b f|i d]; simpl; intros Hi; [by apply candidateOutcome_wellFormed|].
  split; simpl; [done|]. split; [done|by intros []].
Qed.

Lemma opened_owned l gs : concat (map opened_ gs) ≡ₚ closedThere l gs ++ conns (sent l gs).
Proof.
  induction gs as [|g gs IH]; [done|]. unfold closedThere, sent, conns in *. cbn [map concat]. rewrite IH.
  assert (E : opened_ g = connsOf (finish l g).1 ++ (finish l g).2).
  { destruct g as [i conn e b f|i d]; [|done]. simpl.
    pose proof (candidateOutcome_owned i (default PathDirectQUIC (path <$> l !! i)) conn e b f) as H.
    by destruct (candidateOutcome _ _ _ _ _ _). }
  rewrite E. generalize (connsOf (finish l g).1) as a, (finish l g).2 as b. intros a b. solve_Permutation.
Qed.

(** Goroutines of different candidates whose results were received or wait in the channel. *)
Definition goroutines (l : list candidate) (gs : list Finish) (evs : list Event) (waiting : list result_) : Prop :=
  Forall (fun g => finishIndex g < length l)%nat gs /\ NoDup (map finishIndex gs) /\
  sent l gs ≡ₚ results evs ++ waiting.

Lemma goroutines_oneEach l gs evs waiting : goroutines l gs evs waiting -> oneEach (length l) evs.
Proof.
  intros (H1 & H2 & H3).
  assert (Hw : Forall (wellFormed (length l)) (results evs ++ waiting)).
  { rewrite <- H3. unfold sent. rewrite Forall_forall. intros r (g & -> & Hg)%list_elem_of_fmap.
    rewrite Forall_forall in H1. by apply finish_wellFormed, H1. }
  assert (Hn : NoDup (map index (results evs ++ waiting))).
  { change (NoDup (index <$> (results evs ++ waiting))). rewrite <- H3. unfold sent.
    replace (index <$> map _ gs) with (map finishIndex gs); [done|].
    clear. induction gs as [|g gs IH]; [done|]. simpl. rewrite finish_index. f_equal. exact IH. }
  split; [by apply Forall_app in Hw as [? _]|]. rewrite map_app in Hn. by apply NoDup_app in Hn as [? _].
Qed.

(** C30: nobody loses a connection.  In every run of a race, from any request, with goroutines
    that end in any way and results received in any order: the connections that the
    candidates' goroutines opened are, each once, those their own goroutine closed (the
    admission failed, the path was not trusted, its time was spent), those the race, the drain
    or the warm fallback closed, those the race still holds or that are in the selection that
    was returned or in its channel, and those that wait in the channel of results; a race
    that is refused holds none.  The exception is a race whose [awaitWarmFallback] has given
    up: what is sent to it later is left in the channel of results ([lost]).  The connection
    that was selected and returned may be closed in addition, by [drainCandidateResults], once
    for each failure without a fallback that is received afterwards, so possibly twice;
    nothing else is closed twice. *)
Theorem race_ownership cfg gen mode ctxEnded network excluded only ph0 evs gs waiting :
  connect cfg gen mode network excluded only = inl ph0 ->
  let l := cs (phaseRace ph0) in
  goroutines l gs evs waiting ->
  let ph := steps cfg gen mode ctxEnded evs ph0 in
  exists lost, (~ abandoned ph -> lost = []) /\
  match ph with
  | Racing s =>
      concat (map opened_ gs) ≡ₚ closedThere l gs ++ closed s ++ holding s ++ conns waiting /\ revoked s = []
  | Done (Selected w _) _ s =>
      concat (map opened_ gs) ≡ₚ
        closedThere l gs ++ closed s ++ selectionConns w ++ concat (map sideConns (published s)) ++ lost ++ conns waiting /\
      exists k, revoked s = concat (replicate k (sideConns (chosen w))) /\ (k <= verdicts (results evs))%nat
  | Done (Refused _) _ s =>
      concat (map opened_ gs) ≡ₚ closedThere l gs ++ closed s ++ conns waiting /\ revoked s = []
  end.
Proof.
  intros Hc l Hg. pose proof (goroutines_oneEach _ _ _ _ Hg) as Hev. change (length l) with (total (phaseRace ph0)) in Hev.
  destruct (connect_run cfg gen mode ctxEnded network excluded only ph0 evs revokedOnly Hc Hev)
    as (rs & lost & HI & HQ & Hp & Hl).
  { intros. by eapply step_revoked. }
  { intros. by eapply step_revoked_other. }
  { by destruct (connect_shape _ _ _ _ _ _ _ Hc) as (s & -> & -> & _). }
  exists (conns lost). split; [by intros Hab; rewrite (Hl Hab)|].
  pose proof (opened_owned l gs) as Ho. destruct Hg as (_ & _ & Hs). apply conns_perm in Hs. rewrite Hs, conns_app in Ho.
  pose proof (verdicts_perm _ _ Hp) as Hv. rewrite verdicts_app in Hv.
  apply conns_perm in Hp. rewrite conns_app in Hp. rewrite Hp in Ho.
  destruct (steps _ _ _ _ _ _) as [s|out bg s].
  - split; [|done]. destruct HI as [HI _]. rewrite Ho, (Hl (fun x => x)). simpl. rewrite app_nil_r.
    by rewrite (accounted_perm _ _ (i_conns _ _ _ _ HI)), <- !app_assoc.
  - destruct HI as [_ _ Hr Hout Ha]. apply accounted_perm in Ha. rewrite Ha in Ho. unfold holding in Ho. rewrite Hr in Ho.
    destruct out as [w ch|e]; (split; [rewrite Ho|]).
    + destruct Hout as (-> & _ & _). simpl. by rewrite <- !app_assoc.
    + destruct HQ as (k & H1 & H2). exists k. split; [done|lia].
    + destruct Hout as (-> & -> & ->). rewrite (Hl (fun x => x)). simpl. by rewrite !app_nil_r.
    + done.
Qed.

(** C39: a race returns.  When each candidate has sent its result, in any order and with
    any timers in between, [connect] has returned. *)
Theorem race_returns cfg gen mode ctxEnded network excluded only ph0 evs :
  connect cfg gen mode network excluded only = inl ph0 -> oneEach (total (phaseRace ph0)) evs ->
  length (results evs) = total (phaseRace ph0) ->
  exists out bg s, steps cfg gen mode ctxEnded evs ph0 = Done out bg s.
Proof.
  intros Hc Hev Hn. destruct (connect_run cfg gen mode ctxEnded network excluded only ph0 evs (fun _ _ => True) Hc Hev) as (rs & lost & HI & _ & Hp & Hl); auto.
  destruct (steps _ _ _ _ _ _) as [s|out bg s]; [|eauto].
  destruct HI as [_ Hlt]. rewrite (Hl (fun x => x)), app_nil_r in Hp. apply Permutation_length in Hp. lia.
Qed.
