(* ===== verification/RaceFailures.v ===== *)
(** * Connection race: failures and order

    What a failure that allows no fallback does to a race, in which order a sequential
    race starts its candidates, and three runs that show where the code does less than
    its documentation says. *)
From S2P Require Import Prelude.
From S2P Require Import Race.
From S2P Require Import RaceProps.
#[local] Open Scope Z_scope.

(** An authority's verdict on the path of [r]: a failure that allows no fallback and is
    not the end of a context. *)
Definition verdict (s : Race) (r : result_) : Prop :=
  exists e, err r = Some e /\ isCanceled e = false /\ isDeadline e = false /\
    AllowsFallback (typedFailure (pathOf s r) e) = false.

(** The selection stands in spite of the verdict on [r] only when it is the direct path
    and the verdict was on another. *)
Definition answered (s0 : Race) (r : result_) (ph : Phase) : Prop :=
  match ph with
  | Racing s => winner s = None /\ is_Some (terminal s)
  | Done (Refused _) _ _ => True
  | Done (Selected w _) _ s =>
      (sPath (chosen w) = PathDirectQUIC /\ pathOf s0 r <> PathDirectQUIC) \/ is_Some (standbyErr s) \/
      exists c, Connection (chosen w) = Some c /\ c ∈ revoked s
  end.

(** ** The steps change no path *)
Section paths.
Context (cfg : Config) (gen : Z) (mode : Mode) (ctxEnded : ContextEnd).

Lemma loop_cs s : cs (phaseRace (loop ctxEnded s)) = cs s.
Proof.
  unfold loop. destruct (_ <? _)%nat; [done|]. unfold afterLoop. cbv zeta.
  destruct (readyFallback s); simpl; destruct (readyWSS s); simpl; repeat case_match; done.
Qed.

Lemma takePending_cs pend : forall s, cs (takePending gen pend s) = cs s.
Proof.
  induction pend as [|x pend IH]; intros s; simpl; [done|]. destruct (_ <=? _)%nat; [done|].
  rewrite IH. repeat case_match; done.
Qed.

Lemma settle_cs pend s : cs (phaseRace (settle gen pend s)) = cs s.
Proof.
  change (cs s) with (cs (cancel s)). rewrite <- (takePending_cs pend (cancel s)).
  unfold settle. cbv zeta. repeat case_match; done.
Qed.

Lemma onSuccess_cs r s : cs (phaseRace (onSuccess cfg gen mode ctxEnded r s)) = cs s.
Proof. unfold onSuccess. cbv zeta. repeat case_match; rewrite ?loop_cs; done. Qed.

Lemma onFailure_cs r e pend s : let s' := phaseRace (onFailure gen mode ctxEnded r e pend s) in
  cs s' = cs s \/ cs s' = begin (S (index r)) (cs s).
Proof.
  unfold onFailure. cbv zeta.
  repeat (match goal with |- context [if bool_decide (pathOf ?a r = PathDirectQUIC) then _ else _] =>
    destruct (bool_decide (pathOf a r = PathDirectQUIC)) end); simpl;
  repeat case_match; rewrite ?loop_cs, ?settle_cs; simpl; auto.
Qed.
End paths.

Lemma step_paths cfg gen mode ctxEnded ev ph :
  paths (cs (phaseRace (step cfg gen mode ctxEnded ev ph))) = paths (cs (phaseRace ph)).
Proof.
  assert (Hd : forall i s, paths (cs (startDelayed i s)) = paths (cs s)).
  { intros i s. unfold startDelayed. destruct (cs s !! i) as [c|]; [|done]. destruct (fallbackOnly c); [done|apply paths_begin]. }
  destruct ev as [i|r pend| |], ph as [s|out bg s]; simpl; auto.
  - unfold onResult. destruct (err r) as [e|]; [|by rewrite onSuccess_cs].
    destruct (onFailure_cs gen mode ctxEnded r e pend (s <| completed := S (completed s) |>)) as [->| ->]; [done|apply paths_begin].
  - destruct bg as [|[|k] sel|[|k]|k]; try done.
    + simpl. unfold drainOne. by destruct (err r); [destruct (AllowsFallback _)|].
    + unfold warmOne. destruct (err r); [destruct (AllowsFallback _)|]; try done. apply paths_begin.
  - unfold onPreference. repeat case_match; done.
  - by destruct bg.
Qed.

Section verdicts.
Context (cfg : Config) (gen : Z) (mode : Mode) (ctxEnded : ContextEnd) (s0 : Race) (r : result_).
Hypothesis not_auto : mode <> ModeAuto.
Hypothesis not_relay_race : mode <> ModeRelayRace.
Hypothesis is_verdict : verdict s0 r.
Context (n : nat).
Hypothesis in_range : (index r < n)%nat.

(** What the loop keeps once it has received [r]. *)
Definition settled (s : Race) : Prop :=
  paths (cs s) = paths (cs s0) /\ winner s = None /\ is_Some (terminal s) /\
  (pathOf s0 r = PathDirectQUIC -> directEligible s = false) /\
  (pathOf s0 r <> PathDirectQUIC -> readyFallback s = None).

Lemma afterLoop_refused s : winner s = None -> is_Some (terminal s) ->
  exists e s', afterLoop ctxEnded s = Done (Refused e) NoTask s'.
Proof.
  intros Hw [f Ht]. unfold afterLoop. cbv zeta.
  destruct (readyFallback s); simpl; destruct (readyWSS s); simpl; rewrite Hw, Ht; eauto.
Qed.

Lemma settled_loop s : settled s -> match loop ctxEnded s with Racing s' => settled s' | ph => answered s0 r ph end.
Proof.
  intros H. pose proof H as (Hp & Hw & Ht & _). unfold loop. destruct (_ <? _)%nat; [done|].
  by destruct (afterLoop_refused s Hw Ht) as (e & s' & ->).
Qed.

Lemma settled_success rs s x : Inv mode n rs s -> r ∈ rs -> settled s -> isNew n rs x -> err x = None ->
  match onSuccess cfg gen mode ctxEnded x (received s) with
  | Racing s' => settled s' | ph => answered s0 r ph end.
Proof.
  intros HI Hin Hs [[Hix _] Hnew] He. pose proof HI as []. pose proof Hs as (Hp & Hw & [f Ht] & Hd & Hr).
  unfold onSuccess. cbv zeta. change (pathOf (received s) x) with (pathOf s x).
  change (preferDirect mode (received s)) with (preferDirect mode s).
  rewrite bool_decide_false by done. unfold relayRace. rewrite bool_decide_false by done. simpl.
  assert (Hpath : pathOf s0 r = pathOf s r) by (symmetry; by apply pathOf_paths).
  assert (Hlt : forall y, settled y -> match loop ctxEnded y with Racing s' => settled s' | ph => answered s0 r ph end)
    by apply settled_loop.
  destruct (preferDirect mode s) eqn:Hpd; simpl.
  2: { rewrite Hw, Ht. simpl. by apply Hlt. }
  destruct (preferDirect_two mode s x) as [[Hpx Hx]|[Hpx Hx]]; auto; [by rewrite i_total| |]; rewrite Hpx; simpl.
  - destruct (directEligible s) eqn:Hel; simpl; [|by apply Hlt].
    assert (Hnd : pathOf s0 r <> PathDirectQUIC) by (intros E; specialize (Hd E); congruence).
    rewrite (Hr Hnd), i_wss. simpl. auto.
  - destruct (directEligible s) eqn:Hel; simpl; [|rewrite Hw, Ht; simpl; by apply Hlt].
    destruct (i_eligible eq_refl) as (_ & -> & _). simpl.
    assert (Hnd : pathOf s0 r <> PathDirectQUIC) by (intros E; specialize (Hd E); congruence).
    destruct Hnew. rewrite Hpath in Hnd. destruct (preferDirect_two mode s r) as [[? _]|[_ Hr1]]; auto; [by rewrite i_total|done|].
    rewrite Hx, <- Hr1. apply list_elem_of_fmap. eauto.
Qed.

Lemma settled_failure s x e pend : settled s ->
  match onFailure gen mode ctxEnded x e pend (received s) with
  | Racing s' => settled s' | ph => answered s0 r ph end.
Proof.
  intros Hs. pose proof Hs as (Hp & Hw & [f Ht] & Hd & Hr). unfold onFailure. cbv zeta.
  change (terminal (close (connection x) (received s))) with (terminal s). rewrite Ht. simpl. by apply settled_loop.
Qed.

(** Receiving the verdict itself. *)
Lemma verdict_received rs s e pend : Inv mode n rs s -> paths (cs s) = paths (cs s0) -> isNew n rs r -> err r = Some e ->
  (is_Some (terminal s) -> winner s = None /\ rs <> []) ->
  match onFailure gen mode ctxEnded r e pend (received s) with
  | Racing s' => settled s' | ph => answered s0 r ph end.
Proof.
  intros HI Hp Hn He Hterm. pose proof HI as []. destruct is_verdict as (e' & He' & Hca & Hde & Hno).
  assert (e' = e) as -> by congruence.
  assert (Hpath : pathOf s r = pathOf s0 r) by (by apply pathOf_paths). rewrite <- Hpath in Hno.
  unfold onFailure. cbv zeta. change (pathOf (close (connection r) (received s)) r) with (pathOf s r).
  change (terminal (close (connection r) (received s))) with (terminal s).
  change (winner (close (connection r) (received s))) with (winner s). rewrite Hno, Hca, Hde.
  assert (Hrf : pathOf s0 r <> PathDirectQUIC -> readyFallback s = None).
  { intros Hnd. rewrite <- Hpath in Hnd. by apply (ready_unset mode n rs s r). }
  destruct (terminal s) as [f|] eqn:Ht; simpl.
  { destruct (Hterm ltac:(eauto)) as [Hw Hne]. unfold loop.
    assert (Hend : (completed (close (connection r) (received s)) <? total (close (connection r) (received s)))%nat = false).
    { apply Nat.ltb_ge. change (total s <= S (completed s))%nat. assert (total s <= 2)%nat.
      { unfold total. rewrite <- (length_map path). fold (paths (cs s)).
        destruct i_shape as [?|[?|[->|Hs]]]; [done..|simpl; lia|].
        destruct (paths (cs s)) as [|a [|b l]]; simpl; try lia. by destruct (Hs a b l). }
      destruct rs; [done|]. simpl in *. lia. }
    rewrite Hend. destruct (afterLoop_refused (close (connection r) (received s)) Hw) as (x & s' & ->); [|done].
    change (is_Some (terminal s)). rewrite Ht. eauto. }
  destruct (winner s) as [w|] eqn:Hw.
  { destruct (i_winner w eq_refl) as [_ [c Hc]]. simpl. rewrite Hc. simpl. unfold relayRace. rewrite bool_decide_false by done.
    apply settled_loop. split_and!; simpl; eauto. intros _. destruct (directEligible s); [|done].
    by destruct (i_eligible eq_refl) as (_ & _ & ?). }
  simpl. rewrite andb_false_r. unfold relayRace. rewrite (bool_decide_false (mode = ModeRelayRace)) by done. simpl.
  apply settled_loop. rewrite <- Hpath in *.
  destruct (bool_decide (pathOf s r = PathDirectQUIC)) eqn:Ed;
    [apply bool_decide_eq_true in Ed|apply bool_decide_eq_false in Ed]; split_and!; simpl; eauto; by rewrite <- Hpath.
Qed.

(** A terminal failure and a winner exclude each other. *)
Definition exclusive (s : Race) : Prop := is_Some (terminal s) -> winner s = None.

Lemma loop_racing s s' : loop ctxEnded s = Racing s' -> s' = s.
Proof. unfold loop. destruct (_ <? _)%nat; [congruence|]. unfold afterLoop. cbv zeta. repeat case_match; done. Qed.

Lemma onResult_exclusive x pend rs s s' : Inv mode n rs s -> exclusive s ->
  onResult cfg gen mode ctxEnded x pend s = Racing s' -> exclusive s'.
Proof.
  intros HI He. unfold exclusive in *.
  assert (Hnone : isSome (terminal s) = false -> ~ is_Some (terminal s)) by (destruct (terminal s); [done|by intros _ [? [=]]]).
  unfold onResult. destruct (err x) as [e|].
  - unfold onFailure. cbv zeta.
    repeat (match goal with |- context [if bool_decide (pathOf ?a x = PathDirectQUIC) then _ else _] =>
      destruct (bool_decide (pathOf a x = PathDirectQUIC)) end); simpl;
    (destruct (isSome (terminal s)) eqn:Et; [by intros ->%loop_racing|]);
    (destruct (held (winner s)) eqn:Eh; [destruct (_ || _); by intros ->%loop_racing|]);
    (assert (Hw : winner s = None) by (by apply (winner_unheld mode n rs s)));
    repeat case_match; try done; intros ->%loop_racing; simpl; try done; intros Hs; by destruct (Hnone eq_refl).
  - unfold onSuccess. cbv zeta. simpl. repeat case_match; try done; intros ->%loop_racing; simpl; try done; intros Hs; bool_hyps; by destruct Hnone.
Qed.

Lemma onPreference_settled rs s : Inv mode n rs s -> settled s ->
  match onPreference gen s with Racing s' => settled s' | ph => answered s0 r ph end.
Proof.
  intros [] (Hp & Hw & Ht & Hd & Hr). unfold onPreference. destruct (preference s) eqn:Epr; simpl; [|by split_and!].
  assert (Hnd : pathOf s0 r <> PathDirectQUIC) by (intros E; specialize (Hd E); rewrite i_preference in Hd; done).
  rewrite (Hr Hnd), i_wss. simpl. split_and!; auto.
Qed.

(** What the steps of a run keep. *)
Definition tracked (rs : list result_) (ph : Phase) : Prop :=
  paths (cs (phaseRace ph)) = paths (cs s0) /\
  match ph with Racing s => exclusive s /\ (is_Some (terminal s) -> rs <> []) | _ => True end /\
  (r ∈ rs -> match ph with Racing s => settled s | Done out bg s => answered s0 r (Done out bg s) end).

Lemma answered_later ev out bg s : answered s0 r (Done out bg s) ->
  answered s0 r (step cfg gen mode ctxEnded ev (Done out bg s)).
Proof.
  assert (Hgrow : forall bg' s', (forall f, standbyErr s = Some f -> is_Some (standbyErr s')) ->
    (forall c, c ∈ revoked s -> c ∈ revoked s') -> answered s0 r (Done out bg s) -> answered s0 r (Done out bg' s')).
  { intros bg' s' H1 H2. destruct out as [w ch|]; [|done]. simpl. intros [?|[[f Hf]|(c & ? & ?)]]; eauto 6. }
  assert (Hst : forall i, standbyErr (startDelayed i s) = standbyErr s /\ revoked (startDelayed i s) = revoked s).
  { intros i. unfold startDelayed. by repeat case_match. }
  destruct ev as [i|x pend| |]; [|destruct bg as [|[|k] sel|[|k]|k]; simpl; try done|done|by destruct bg].
  - destruct (Hst i) as [H1 H2]. apply (Hgrow bg); rewrite ?H1, ?H2; eauto.
  - apply (Hgrow NoTask); unfold drainOne; intros; repeat case_match; simpl; eauto. by apply elem_of_app; auto.
  - unfold warmOne. destruct (err x) as [e|]; [destruct (AllowsFallback _)|]; apply (Hgrow NoTask); simpl; eauto.
Qed.

(** The verdict, received after the return. *)
Lemma verdict_late rs pend out bg s : DoneInv n rs out bg s -> paths (cs s) = paths (cs s0) -> isNew n rs r ->
  (length rs < n)%nat -> ~ abandoned (Done out bg s) ->
  answered s0 r (step cfg gen mode ctxEnded (EvResult r pend) (Done out bg s)).
Proof.
  intros [_ Hc _ Ho _] Hp Hn Hlt Hab. destruct out as [w ch|]; [|by destruct Ho as (-> & _)].
  destruct is_verdict as (e & He & _ & _ & Hno). rewrite <- (pathOf_paths s0 s r Hp) in Hno.
  destruct Ho as (Hw & [c Hcc] & Hbg).
  destruct bg as [|[|k] sel|[|k]|k]; simpl in Hc; try lia; [| |by destruct Hab].
  - simpl. unfold drainOne. rewrite He, Hno. simpl. right. right. exists c. split; [done|].
    apply elem_of_app. right. rewrite Hbg, Hcc. by apply list_elem_of_singleton.
  - simpl. unfold warmOne. rewrite He, Hno. simpl. eauto.
Qed.

Lemma tracked_result rs ph x pend : PhaseInv mode n rs ph -> isNew n rs x -> (length rs < n)%nat -> ~ abandoned ph ->
  tracked rs ph -> tracked (rs ++ [x]) (step cfg gen mode ctxEnded (EvResult x pend) ph).
Proof.
  intros HI Hn Hlt Hab (Hp & Hex & Hr). split; [by rewrite step_paths|]. split.
  { destruct ph as [s|out bg s]; [|destruct bg as [|[|k] sel|[|k]|k]; try done; simpl; by destruct (warmOne gen x s)].
    destruct (step _ _ _ _ _ _) as [s'|] eqn:Es; [|done]. destruct HI as [HI _], Hex as [Hex _].
    split; [by eapply onResult_exclusive in Es|by destruct rs]. }
  intros [Hin|Hx%list_elem_of_singleton]%elem_of_app; [|subst x].
  - specialize (Hr Hin). destruct ph as [s|out bg s].
    + destruct HI as [HI _]. simpl. unfold onResult. change (s <| completed := S (completed s) |>) with (received s).
      destruct (err x) eqn:He; [by apply settled_failure|by eapply settled_success].
    + pose proof (answered_later (EvResult x pend) out bg s Hr) as H. destruct (step _ _ _ _ _ _) as [s'|] eqn:Es; [|done].
      by destruct bg as [|[|k] sel|[|k]|k]; simpl in Es; try destruct (warmOne gen x s).
  - destruct ph as [s|out bg s].
    + destruct HI as [HI _], Hex as [Hex Hne]. destruct is_verdict as (e & He & _). simpl. unfold onResult. rewrite He.
      apply (verdict_received rs s e pend HI Hp Hn He). auto.
    + pose proof (verdict_late rs pend out bg s HI Hp Hn Hlt Hab) as H. destruct (step _ _ _ _ _ _) as [s'|] eqn:Es; [|done].
      by destruct bg as [|[|k] sel|[|k]|k]; simpl in Es; try destruct (warmOne gen r s).
Qed.

Lemma tracked_other rs ph ev : PhaseInv mode n rs ph -> (forall x pend, ev <> EvResult x pend) -> tracked rs ph ->
  tracked rs (step cfg gen mode ctxEnded ev ph).
Proof.
  intros HI Hev (Hp & Hex & Hr). split; [by rewrite step_paths|].
  destruct ev as [i|x pend| |]; [|by destruct (Hev x pend)| |].
  - assert (Hd : forall s, settled s -> paths (cs (startDelayed i s)) = paths (cs s0) -> settled (startDelayed i s)).
    { intros s (_ & ? & ? & ? & ?) ?. unfold startDelayed in *. repeat case_match; split_and!; auto. }
    pose proof (step_paths cfg gen mode ctxEnded (EvStart i) ph) as Hpp. rewrite Hp in Hpp.
    destruct ph as [s|out bg s]; simpl in *.
    + split; [|auto]. unfold startDelayed. by repeat case_match.
    + split; [done|]. intros Hin. apply (answered_later (EvStart i) out bg s), Hr, Hin.
  - destruct ph as [s|out bg s]; [|done]. simpl. destruct HI as [HI _]. split.
    + unfold onPreference. repeat case_match; simplify_eq; exact Hex || done.
    + intros Hin. by apply (onPreference_settled rs s HI), Hr.
  - destruct ph as [s|out bg s]; [done|]. destruct bg; done.
Qed.
End verdicts.

(** A verdict ends a race.  In the modes that do not race for latency, once a
    result with a failure that allows no fallback was received, no path is selected, or
    the selection that was already returned is closed or told through its channel; only
    a direct path still wins over a verdict on the relay.  ([abandoned]: nobody receives
    results any more.) *)
Theorem verdict_final cfg gen mode ctxEnded network excluded only ph0 evs r :
  mode <> ModeAuto -> mode <> ModeRelayRace ->
  connect cfg gen mode network excluded only = inl ph0 -> oneEach (total (phaseRace ph0)) evs ->
  r ∈ results evs -> verdict (phaseRace ph0) r ->
  let ph := steps cfg gen mode ctxEnded evs ph0 in answered (phaseRace ph0) r ph \/ abandoned ph.
Proof.
  intros Ha Hb Hc Hev Hin Hv. destruct Hev as [Hwf Hnd].
  assert (Hix : (index r < total (phaseRace ph0))%nat) by (rewrite Forall_forall in Hwf; by apply Hwf).
  destruct (connect_run cfg gen mode ctxEnded network excluded only ph0 evs (tracked (phaseRace ph0) r) Hc (conj Hwf Hnd))
    as (rs & lost & _ & (_ & _ & HQ) & Hp & Hl).
  - by apply tracked_result.
  - by apply tracked_other.
  - destruct (connect_shape _ _ _ _ _ _ _ Hc) as (s & -> & Hs & _). assert (Ht : terminal s = None) by (by rewrite Hs).
    split_and!; [done|by intros _; rewrite Hs|rewrite Ht; by intros [? [=]]|by intros ?%elem_of_nil].
  - assert (Hd : abandoned (steps cfg gen mode ctxEnded evs ph0) \/ ~ abandoned (steps cfg gen mode ctxEnded evs ph0)).
    { destruct (steps _ _ _ _ _ _) as [|? [] ?]; simpl; tauto. }
    destruct Hd as [?|Hno]; [by right|left]. rewrite (Hl Hno), app_nil_r in Hp. rewrite Hp in Hin. specialize (HQ Hin).
    destruct (steps _ _ _ _ _ _) as [s|out bg s]; [|done]. by destruct HQ as (_ & ? & ? & _).
Qed.

(** ** The order of a sequential race *)
Definition orderly (rs : list result_) (s : Race) : Prop := forall i c, cs s !! S i = Some c ->
  fallbackOnly c = true /\ (started c = true -> exists x, x ∈ rs /\ index x = i /\ is_Some (err x)).

Lemma orderly_weaken rs rs' s s' : (forall x, x ∈ rs -> x ∈ rs') -> cs s' = cs s -> orderly rs s -> orderly rs' s'.
Proof. intros H E Ho i c. rewrite E. intros Hc. destruct (Ho i c Hc) as [? Hs]. split; [done|]. intros (x & ? & ? & ?)%Hs. eauto. Qed.

Lemma orderly_begin rs s s' x : orderly rs s -> x ∈ rs -> is_Some (err x) -> cs s' = begin (S (index x)) (cs s) -> orderly rs s'.
Proof.
  intros Ho Hx He E i c. rewrite E. unfold begin. destruct (decide (index x = i)) as [<-|Hne].
  - rewrite list_lookup_alter_eq. intros (c0 & Hc0 & ->)%fmap_Some. destruct (Ho _ _ Hc0) as [Hf _]. split; [done|]. eauto.
  - rewrite list_lookup_alter_ne by congruence. apply Ho.
Qed.

Lemma orderly_step cfg gen mode ctxEnded ev rs ph : orderly rs (phaseRace ph) ->
  orderly (rs ++ results [ev]) (phaseRace (step cfg gen mode ctxEnded ev ph)).
Proof.
  intros Ho. assert (Hold : forall x, x ∈ rs -> x ∈ rs ++ results [ev]) by (intros; apply elem_of_app; auto).
  assert (Hsame : forall s', cs s' = cs (phaseRace ph) -> orderly (rs ++ results [ev]) s') by (intros s' E; by eapply orderly_weaken).
  assert (Hdel : forall i, orderly (rs ++ results [ev]) (startDelayed i (phaseRace ph))).
  { intros i. unfold startDelayed. destruct (cs (phaseRace ph) !! i) as [c|] eqn:Ei; [|by apply Hsame].
    destruct (fallbackOnly c) eqn:Ef; [by apply Hsame|]. intros k c'. simpl. unfold begin.
    destruct (decide (i = S k)) as [->|Hne].
    - destruct (Ho _ _ Ei). congruence.
    - rewrite list_lookup_alter_ne by done. by apply Hsame. }
  destruct ev as [i|x pend| |], ph as [s|out bg s]; simpl; auto.
  - unfold onResult. destruct (err x) as [e|] eqn:He; [|apply Hsame; by rewrite onSuccess_cs].
    destruct (onFailure_cs gen mode ctxEnded x e pend (s <| completed := S (completed s) |>)) as [E|E]; [by apply Hsame|].
    apply (orderly_begin _ s _ x); [by apply Hsame|apply elem_of_app; right; left|rewrite He; eauto|done].
  - destruct bg as [|[|k] sel|[|k]|k]; try by apply Hsame.
    + apply Hsame. unfold drainOne. simpl. by destruct (err x); [destruct (AllowsFallback _)|].
    + unfold warmOne. destruct (err x) as [e|] eqn:He; [|by apply Hsame]. destruct (AllowsFallback _); [|by apply Hsame].
      apply (orderly_begin _ s _ x); [by apply Hsame|apply elem_of_app; right; left|rewrite He; eauto|done].
  - apply Hsame. unfold onPreference. repeat case_match; done.
  - apply Hsame. by destruct bg.
Qed.

Lemma orderly_steps cfg gen mode ctxEnded evs : forall rs ph, orderly rs (phaseRace ph) ->
  orderly (rs ++ results evs) (phaseRace (steps cfg gen mode ctxEnded evs ph)).
Proof.
  induction evs as [|ev evs IH]; intros rs ph Ho; [by rewrite app_nil_r|].
  replace (rs ++ results (ev :: evs)) with ((rs ++ results [ev]) ++ results evs)
    by (unfold results; simpl; by rewrite app_nil_r, app_assoc).
  by apply IH, orderly_step.
Qed.

Lemma connect_orderly cfg gen mode network excluded only ph :
  SequentialFallback cfg = true -> connect cfg gen mode network excluded only = inl ph -> orderly [] (phaseRace ph).
Proof.
  intros Hseq. unfold connect. destruct (gen =? 0); [done|].
  destruct (candidates mode network) as [[l0|]|] eqn:E0; [|done|done]. cbv zeta. rewrite Hseq, andb_false_r.
  set (l1 := if RelayFirst cfg && _ then _ else _). set (l2 := if isSome excluded || _ then _ else _).
  assert (H0 : Forall (fun c => started c = false) l0).
  { destruct mode, network; simplify_eq/=; repeat constructor. }
  assert (H1 : Forall (fun c => started c = false) l1).
  { subst l1. destruct (_ && _); [|done]. unfold relayFirstCandidates. cbn [map concat]. rewrite app_nil_r.
    repeat (apply Forall_app; split); apply Forall_fmap, Forall_true; intros x; reflexivity. }
  assert (H2 : Forall (fun c => started c = false) l2).
  { clearbody l1. subst l2. destruct (_ || _); [|exact H1]. apply Forall_fmap, Forall_true. intros x. reflexivity. }
  clearbody l2. destruct l2 as [|c0 rest]; [done|]. intros [= <-].
  apply Forall_cons in H2 as [_ H2].
  assert (Hgo : forall a, orderly [] (phaseRace (Racing (newRace mode (begin 0 (fallbacks (a :: rest))))))).
  { intros a i c. unfold begin. cbn [phaseRace newRace cs]. simpl. rewrite list_lookup_fmap.
    intros (c1 & Hc1 & ->)%fmap_Some. simpl. split; [done|]. rewrite Forall_lookup in H2. rewrite (H2 _ _ Hc1). done. }
  destruct (isSome excluded || isSome only); apply Hgo.
Qed.

(** A sequential race opens one path at a time.  A candidate other than the first
    is started only after the result of the one before it was received, and that result
    was an error. *)
Theorem sequential_order cfg gen mode ctxEnded network excluded only ph0 evs i c :
  SequentialFallback cfg = true -> connect cfg gen mode network excluded only = inl ph0 ->
  cs (phaseRace (steps cfg gen mode ctxEnded evs ph0)) !! S i = Some c -> started c = true ->
  exists x, x ∈ results evs /\ index x = i /\ is_Some (err x).
Proof.
  intros Hseq Hc Hl Hs.
  by apply (orderly_steps cfg gen mode ctxEnded evs [] ph0 (connect_orderly _ _ _ _ _ _ _ Hseq Hc) i c Hl).
Qed.

(** ** Concrete runs *)
Definition demoConfig (sequential : bool) : Config := mkConfig 1000 1000 20000 sequential false false.
Definition opened (i : nat) (c : Conn) : Event := EvResult (mkResult i (Some c) EmptyString None) [].
Definition failing (i : nat) (p : Path) (c : FailureClass) : result_ := mkResult i None EmptyString (Some (failed c p)).

(** The start of a race that [connect] accepts. *)
Definition demoRace (sequential : bool) (mode : Mode) : Phase :=
  match connect (demoConfig sequential) 1 mode NetworkUnknown None None with
  | inl ph => ph | inr _ => Racing (newRace mode []) end.

(** Direct and relay are open before the preference ends: the direct path wins, with the
    relay as its standby. *)
Definition demoEvents : list Event := [opened 1 11; opened 0 10].

Ltac well_formed := split; [vm_compute; lia|split; [intros E; try discriminate E; eexists; reflexivity
  |intros [c E]; try discriminate E; reflexivity]].
Ltac one_each := split;
  [match goal with |- Forall _ ?l => let l' := eval vm_compute in l in change l with l' end; repeat (apply Forall_cons_2; [well_formed|]); apply Forall_nil_2|];
  repeat constructor; simpl; try (intros H; apply list_elem_of_In in H; simpl in H; intuition discriminate).

(** The relay is open; the direct path opens, turns out not to be trusted and is closed by its
    goroutine, whose failure ends the race and closes the relay's connection. *)
Definition demoFacts (st : ConnState) : ConnFacts := mkFacts st true true None false st None.
Definition demoGoroutines : list Finish :=
  [Opened 1 (Some 11%nat) None false (demoFacts StateTrusted); Opened 0 (Some 10%nat) None false (demoFacts StateSuspect)].
Definition refusedEvents : list Event :=
  map (fun g => EvResult (finish (cs (phaseRace (demoRace false ModeQUIC))) g).1 []) demoGoroutines.

Lemma refused_run : exists e bg s,
  steps (demoConfig false) 1 ModeQUIC NotEnded refusedEvents (demoRace false ModeQUIC) = Done (Refused e) bg s.
Proof. do 3 eexists. vm_compute. reflexivity. Qed.
Lemma refused_there : closedThere (cs (phaseRace (demoRace false ModeQUIC))) demoGoroutines = [10%nat].
Proof. reflexivity. Qed.
Lemma refused_goroutines : goroutines (cs (phaseRace (demoRace false ModeQUIC))) demoGoroutines refusedEvents [].
Proof.
  split; [repeat constructor|]. split; [|reflexivity].
  change (map finishIndex demoGoroutines) with [1; 0]%nat.
  apply NoDup_cons_2; [|apply NoDup_singleton]. by intros H%list_elem_of_singleton.
Qed.

Lemma race_ownership_witness : exists e bg s,
  steps (demoConfig false) 1 ModeQUIC NotEnded refusedEvents (demoRace false ModeQUIC) = Done (Refused e) bg s /\
  [11; 10]%nat ≡ₚ [10]%nat ++ closed s ++ [] /\ revoked s = [].
Proof.
  destruct (race_ownership (demoConfig false) 1 ModeQUIC NotEnded NetworkUnknown None None (demoRace false ModeQUIC)
    refusedEvents demoGoroutines [] eq_refl refused_goroutines) as (lost & _ & Hp).
  destruct refused_run as (e & bg & s & E). cbv zeta in Hp. rewrite E, refused_there in Hp.
  exists e, bg, s. exact (conj E Hp).
Defined.

Lemma race_returns_witness : exists out bg s,
  steps (demoConfig false) 1 ModeQUIC NotEnded demoEvents (demoRace false ModeQUIC) = Done out bg s.
Proof.
  apply (race_returns (demoConfig false) 1 ModeQUIC NotEnded NetworkUnknown None None); [reflexivity|one_each|reflexivity].
Defined.

(** The relay is open and the machine turns out to be revoked on the direct path. *)
Definition revokedEvents : list Event := [opened 1 11; EvResult (failing 0 PathDirectQUIC FailureRevoked) []].

Lemma verdict_final_witness :
  let ph := steps (demoConfig false) 1 ModeQUIC NotEnded revokedEvents (demoRace false ModeQUIC) in
  answered (phaseRace (demoRace false ModeQUIC)) (failing 0 PathDirectQUIC FailureRevoked) ph \/ abandoned ph.
Proof.
  apply (verdict_final (demoConfig false) 1 ModeQUIC NotEnded NetworkUnknown None None);
    [discriminate|discriminate|reflexivity|one_each|right; left|].
  exists (failed FailureRevoked PathDirectQUIC). repeat split.
Defined.

Lemma sequential_order_witness : exists x,
  x ∈ results [EvStart 1; EvResult (failing 0 PathDirectQUIC FailureNAT) []] /\ index x = 0%nat /\ is_Some (err x).
Proof.
  apply (sequential_order (demoConfig true) 1 ModeAuto NotEnded NetworkUnknown None None (demoRace true ModeAuto) _ 0
    (mkCand PathRelayQUIC 0 true true)); reflexivity.
Defined.

(** ** Where the code does less

    A race for latency ignores the verdict: after a revocation on the direct path it
    selects a connection over the relay that was already open. *)
Example auto_selects_after_verdict :
  match steps (demoConfig false) 1 ModeAuto NotEnded [EvResult (failing 0 PathDirectQUIC FailureRevoked) []; opened 2 12]
    (demoRace false ModeAuto) with
  | Done (Selected w _) _ s => sPath (chosen w) = PathWSS /\ Connection (chosen w) = Some 12%nat /\ is_Some (terminal s)
  | _ => False
  end.
Proof. vm_compute. eauto. Qed.

(** A direct path that opens after the preference has ended is closed, even though no
    other path is open; when the relay fails then, the race fails. *)
Example late_direct_discarded :
  match steps (demoConfig false) 1 ModeQUIC NotEnded
    [EvPreference; opened 0 10; EvResult (failing 1 PathRelayQUIC FailureReachability) []] (demoRace false ModeQUIC) with
  | Done (Refused _) _ s => closed s = [10%nat]
  | _ => False
  end.
Proof. reflexivity. Qed.

(** A verdict ends [awaitWarmFallback]; a connection that opens later is neither closed
    nor given to anyone. *)
Example warm_connection_leaks :
  match steps (demoConfig false) 1 ModeAuto NotEnded
    [opened 0 10; EvResult (failing 1 PathRelayQUIC FailureAuthorization) []; opened 2 12] (demoRace false ModeAuto) with
  | Done (Selected w true) (Abandoned 1) s => selectionConns w = [10%nat] /\ published s = [] /\ closed s = []
  | _ => False
  end.
Proof. repeat split. Qed.

(** The failures of the paths are never reported: [cancel] comes before the test of the
    attempt's context, so a race in which every path failed returns a timeout. *)
Theorem failures_not_joined ctxEnded s out bg s' fs :
  afterLoop ctxEnded s = Done out bg s' -> out <> Refused (ErrJoin fs).
Proof.
  unfold afterLoop. cbv zeta. destruct (readyFallback s); simpl; destruct (readyWSS s); simpl;
    repeat case_match; intros [= <- <- <-]; congruence.
Qed.
