(* ===== verification/TransferCodec.v ===== *)
(** * Encodings of encrypted file transfers

    Models the byte-level helpers of [internal/peertransport/transfercrypto]
    (chunk.go, manifest.go): the sticky-error [binaryDecoder] as a state monad, the
    writers it reads back, identifiers, file names and relative paths.  Go strings
    are lists of bytes.  [Decodes m enc a] says that the decoder [m] consumes exactly
    [enc] and returns [a]; the formats are proved field by field with its rules. *)
From S2P Require Import Prelude.

Abbreviation gostring := (list byte) (only parsing).

(** Errors of the package; those that wrap another are the wrapping sentinel. *)
Inductive TransferError :=
| ErrInvalid | ErrAuthentication | ErrKeyUnavailable
| ErrControlContext | ErrControlRejected | ErrControlRead | ErrControlStore | ErrControlAck
| ErrControlSend | ErrRandom.

#[export] Instance TransferError_eq_dec : EqDecision TransferError.
Proof. solve_decision. Defined.

Definition ProtocolVersion : Z := 1.
Definition ChunkSize : Z := 1048576.
Definition maxFilenameBytes : Z := 255.
Definition maxPathBytes : Z := 4096.
Definition maxManifestFiles : Z := 65535.
Definition recordFileOrdinal : Z := maxUint64.

(** ** Bytes *)

(** [allZero]: the OR of the bytes, without an early exit. *)
Definition allZero (value : list byte) : bool :=
  fold_left (fun combined item => Z.lor combined (Z_of_byte item)) value 0 =? 0.

(** [equalBytes]: the OR of the differences, without an early exit. *)
Definition equalBytes (left right : list byte) : bool :=
  if negb (len left =? len right) then false
  else fold_left (fun different ab => Z.lor different (Z.lxor (Z_of_byte ab.1) (Z_of_byte ab.2)))
         (zip left right) 0 =? 0.

(** [appendString]: what is appended to the target. *)
Definition appendString (value : gostring) : list byte := PutUint16 (len value) ++ value.

(** [append(encoded, byte(v))] *)
Definition PutByte (v : Z) : list byte := [byte_of_Z v].
Definition PutBool (b : bool) : list byte := if b then [x01] else [x00].

(** ** Identifiers and paths *)
Definition isAlnum (b : byte) : bool :=
  let z := Z_of_byte b in
  ((65 <=? z) && (z <=? 90)) || ((97 <=? z) && (z <=? 122)) || ((48 <=? z) && (z <=? 57)).
Definition isIdChar (b : byte) : bool :=
  let z := Z_of_byte b in
  isAlnum b || (z =? 95) || (z =? 46) || (z =? 58) || (z =? 45).

(** [identifierPattern.MatchString]: one character of the first class, then at most
    127 of the second, and the end of the text. *)
Definition identifier (v : gostring) : bool :=
  match v with
  | [] => false
  | b :: r => isAlnum b && forallb isIdChar r && (len r <=? 127)
  end.

(** [utf8.ValidString]: no overlong form, no surrogate, nothing past U+10FFFF. *)
Definition inRange (lo hi : Z) (b : byte) : bool := (lo <=? Z_of_byte b) && (Z_of_byte b <=? hi).
Definition cont (b : byte) : bool := inRange 128 191 b.
Fixpoint ValidString (s : gostring) : bool :=
  match s with
  | [] => true
  | b0 :: s1 =>
      if Z_of_byte b0 <? 128 then ValidString s1
      else
        match s1 with
        | [] => false
        | b1 :: s2 =>
            if inRange 194 223 b0 then cont b1 && ValidString s2
            else
              match s2 with
              | [] => false
              | b2 :: s3 =>
                  if inRange 224 239 b0 then
                    inRange (if Z_of_byte b0 =? 224 then 160 else 128)
                            (if Z_of_byte b0 =? 237 then 159 else 191) b1
                    && cont b2 && ValidString s3
                  else
                    match s3 with
                    | [] => false
                    | b3 :: s4 =>
                        inRange 240 244 b0
                        && inRange (if Z_of_byte b0 =? 240 then 144 else 128)
                                   (if Z_of_byte b0 =? 244 then 143 else 191) b1
                        && cont b2 && cont b3 && ValidString s4
                    end
              end
        end
  end.

(** [strings.ContainsAny] for ASCII sets, [strings.HasPrefix] for one byte,
    [strings.Split(value, "/")]. *)
Definition ContainsAny (value chars : list byte) : bool :=
  existsb (fun b => bool_decide (b ∈ chars)) value.
Definition slash : byte := x2f.
Definition hasSlashPrefix (value : gostring) : bool :=
  match value with b :: _ => bool_decide (b = slash) | [] => false end.
Fixpoint splitSlash (value : gostring) : list gostring :=
  match value with
  | [] => [[]]
  | b :: r =>
      if bool_decide (b = slash) then [] :: splitSlash r
      else match splitSlash r with
           | part :: parts => (b :: part) :: parts
           | [] => [[b]]
           end
  end.

Definition dot : gostring := [x2e].
Definition dotdot : gostring := [x2e; x2e].

Definition validFilename (value : gostring) : bool :=
  (0 <? len value) && (len value <=? maxFilenameBytes) && ValidString value
  && negb (bool_decide (value = dot)) && negb (bool_decide (value = dotdot))
  && negb (ContainsAny value [slash; x5c; x00]).

Definition validRelativePath (value : gostring) : bool :=
  if (len value =? 0) || (maxPathBytes <? len value) || negb (ValidString value)
     || hasSlashPrefix value || ContainsAny value [x5c; x00]
  then false
  else forallb (fun part => negb (bool_decide (part = []) || bool_decide (part = dot)
                                  || bool_decide (part = dotdot))) (splitSlash value).

(** ** The decoder *)
Record binaryDecoder := mkDecoder { dvalue : list byte; offset : Z; derr : bool }.
#[export] Instance binaryDecoder_eta : Eta binaryDecoder :=
  fun d => mkDecoder (dvalue d) (offset d) (derr d).

Definition Decoder (A : Type) : Type := binaryDecoder -> A * binaryDecoder.
#[export] Instance decoder_ret : MRet Decoder := fun A a d => (a, d).
#[export] Instance decoder_bind : MBind Decoder :=
  fun A B k m d => let '(a, d') := m d in k a d'.

Definition d_take (size : Z) : Decoder (list byte) := fun d =>
  if derr d || (size <? 0) || (len (dvalue d) - size <? offset d)
  then ([], d <| derr := true |>)
  else (ztake size (zdrop (offset d) (dvalue d)), d <| offset := offset d + size |>).

Definition d_magic (value : list byte) : Decoder bool :=
  v ← d_take (len value); mret (bool_decide (v = value)).

Definition d_byte : Decoder Z :=
  v ← d_take 1; mret (match v with [b] => Z_of_byte b | _ => 0 end).

(** [pad] *)
Definition padTo (value : list byte) (size : nat) : list byte :=
  if len value =? Z.of_nat size then value else zero_bytes size.

Definition d_uint (size : nat) : Decoder Z :=
  v ← d_take (Z.of_nat size); mret (be_get (padTo v size)).
Definition d_uint16 := d_uint 2.
Definition d_uint32 := d_uint 4.
Definition d_uint64 := d_uint 8.

Definition d_fail : Decoder gostring := fun d => ([], d <| derr := true |>).
Definition d_string (maximum : Z) : Decoder gostring :=
  length ← d_uint16; if maximum <? length then d_fail else d_take length.

(** [copy] into a fresh array of [size] bytes. *)
Definition d_copy (size : nat) : Decoder (list byte) :=
  v ← d_take (Z.of_nat size); mret (v ++ drop (length v) (zero_bytes size)).

Definition d_done (d : binaryDecoder) : bool := negb (derr d) && (offset d =? len (dvalue d)).

(** The body of a [for index := range items] loop that decodes each item. *)
Fixpoint d_repeat {A} (n : nat) (m : Decoder A) : Decoder (list A) :=
  match n with
  | O => mret []
  | S k => a ← m; l ← d_repeat k m; mret (a :: l)
  end.

#[global] Arguments allZero : simpl never.
#[global] Arguments equalBytes : simpl never.
#[global] Arguments appendString : simpl never.
#[global] Arguments d_take : simpl never.

(** ** Lemmas on bytes *)
Lemma lor_zero a b : Z.lor a b = 0 <-> a = 0 /\ b = 0.
Proof. split; [apply Z.lor_eq_0_iff|intros [-> ->]; reflexivity]. Qed.

Lemma fold_lor_zero {A} (f : A -> Z) l acc :
  fold_left (fun c x => Z.lor c (f x)) l acc = 0 <-> acc = 0 /\ Forall (fun x => f x = 0) l.
Proof.
  revert acc. induction l as [|x l IH]; intros acc; simpl.
  - split; [by intros ->|by intros [-> _]].
  - rewrite IH, lor_zero, Forall_cons. tauto.
Qed.

Lemma Z_of_byte_zero b : Z_of_byte b = 0 <-> b = x00.
Proof.
  split; [|by intros ->]. intros H. by rewrite <- (byte_of_Z_of_byte b), H.
Qed.

Lemma Z_of_byte_inj a b : Z_of_byte a = Z_of_byte b -> a = b.
Proof. intros H. by rewrite <- (byte_of_Z_of_byte a), H, byte_of_Z_of_byte. Qed.

Lemma allZero_true l : allZero l = true <-> l = zero_bytes (length l).
Proof.
  unfold allZero. rewrite Z.eqb_eq, (fold_lor_zero Z_of_byte). split.
  - intros [_ HF]. induction HF as [|b l Hb HF IH]; [done|].
    apply Z_of_byte_zero in Hb as ->. unfold zero_bytes in *. simpl. by f_equal.
  - intros ->. split; [done|]. unfold zero_bytes. by apply Forall_replicate.
Qed.

Lemma equalBytes_true l r : equalBytes l r = true <-> l = r.
Proof.
  unfold equalBytes. destruct (len l =? len r) eqn:E; simpl.
  2: { split; [done|intros ->]. by rewrite Z.eqb_refl in E. }
  apply Z.eqb_eq in E. unfold len in E. apply Nat2Z.inj in E.
  rewrite Z.eqb_eq.
  rewrite (fold_lor_zero (fun ab : byte * byte => Z.lxor (Z_of_byte ab.1) (Z_of_byte ab.2))).
  split.
  - intros [_ HF]. revert r E HF. induction l as [|a l IH]; intros [|b r] E HF; simpl in *; try lia; [done|].
    apply Forall_cons in HF as [Hab HF]. simpl in Hab. apply Z.lxor_eq, Z_of_byte_inj in Hab as ->.
    f_equal. apply IH; [lia|done].
  - intros ->. split; [done|]. clear E. induction r as [|b r IH]; simpl; constructor; [|done].
    apply Z.lxor_nilpotent.
Qed.

Lemma identifier_length v : identifier v = true -> 0 < len v <= 128.
Proof.
  destruct v as [|b r]; [done|]. simpl. intros H. bool_hyps. autorewrite with len.
  pose proof (len_nonneg r). lia.
Qed.

Lemma PutUint16_length z : length (PutUint16 z) = 2%nat.
Proof. apply be_put_length. Qed.
Lemma PutUint32_length z : length (PutUint32 z) = 4%nat.
Proof. apply be_put_length. Qed.
Lemma PutUint64_length z : length (PutUint64 z) = 8%nat.
Proof. apply be_put_length. Qed.

(** ** What a decoder consumes *)
Definition at_rest (d : binaryDecoder) (rest : list byte) : Prop :=
  derr d = false /\ 0 <= offset d <= len (dvalue d) /\ zdrop (offset d) (dvalue d) = rest.

Definition Decodes {A} (m : Decoder A) (enc : list byte) (a : A) : Prop :=
  forall d rest, at_rest d (enc ++ rest) -> exists d', m d = (a, d') /\ at_rest d' rest.

Lemma Decodes_ret {A} (a : A) : Decodes (mret a) [] a.
Proof. intros d rest H. by exists d. Qed.

Lemma Decodes_bind {A B} (m : Decoder A) (k : A -> Decoder B) e e' a b :
  Decodes m e a -> Decodes (k a) e' b -> Decodes (m ≫= k) (e ++ e') b.
Proof.
  intros Hm Hk d rest H. rewrite <- app_assoc in H.
  destruct (Hm _ _ H) as (d1&E1&H1). destruct (Hk _ _ H1) as (d2&E2&H2).
  exists d2. split; [|done]. unfold mbind, decoder_bind. by rewrite E1.
Qed.

Lemma Decodes_bind_ret {A B} (m : Decoder A) (f : A -> B) e a :
  Decodes m e a -> Decodes (m ≫= fun x => mret (f x)) e (f a).
Proof. intros Hm. rewrite <- (app_nil_r e). eapply Decodes_bind; [done|apply Decodes_ret]. Qed.

Lemma Decodes_bind_last {A B} (m : Decoder A) (k : A -> Decoder B) e a b :
  Decodes m e a -> Decodes (k a) [] b -> Decodes (m ≫= k) e b.
Proof. intros Hm Hk. rewrite <- (app_nil_r e). by eapply Decodes_bind. Qed.

Lemma Decodes_take n e : len e = n -> Decodes (d_take n) e e.
Proof.
  intros <- [v o r] rest (Hr&Ho&Hd); simpl in *. subst r.
  assert (Hl : len v = o + len e + len rest).
  { pose proof (len_zdrop o v Ho) as H. rewrite Hd, len_app in H. lia. }
  pose proof (len_nonneg e). pose proof (len_nonneg rest).
  unfold d_take. simpl.
  rewrite (proj2 (Z.ltb_ge (len e) 0)), (proj2 (Z.ltb_ge (len v - len e) o)) by lia.
  eexists. split; [by rewrite Hd, ztake_len_app|].
  split; [done|]. split; [simpl; lia|]. simpl.
  rewrite Z.add_comm, <- zdrop_zdrop, Hd by lia. apply zdrop_len_app.
Qed.

Lemma Decodes_magic v : Decodes (d_magic v) v true.
Proof.
  replace true with (bool_decide (v = v)) by (by apply bool_decide_true).
  apply (Decodes_bind_ret _ (fun x => bool_decide (x = v))). by apply Decodes_take.
Qed.

Lemma Decodes_byte z : 0 <= z < 256 -> Decodes d_byte (PutByte z) z.
Proof.
  intros Hz.
  pose proof (Decodes_bind_ret (d_take 1) (fun v => match v with [b] => Z_of_byte b | _ => 0 end)
    _ _ (Decodes_take 1 (PutByte z) eq_refl)) as H.
  simpl in H. by rewrite Z_of_byte_of_Z, Z.mod_small in H.
Qed.

Lemma Decodes_uint n z : 0 <= z < 256 ^ Z.of_nat n -> Decodes (d_uint n) (be_put n z) z.
Proof.
  intros Hz. unfold d_uint.
  assert (Hl : len (be_put n z) = Z.of_nat n) by (unfold len; by rewrite be_put_length).
  replace z with (be_get (padTo (be_put n z) n)) at 2.
  - apply (Decodes_bind_ret _ (fun v => be_get (padTo v n))). by apply Decodes_take.
  - unfold padTo. rewrite Hl, Z.eqb_refl. by apply be_get_put_id.
Qed.

Lemma Decodes_string maximum v :
  len v <= maximum -> len v < 65536 -> Decodes (d_string maximum) (appendString v) v.
Proof.
  intros Hm Hv. pose proof (len_nonneg v). unfold d_string, appendString, PutUint16.
  eapply Decodes_bind; [apply (Decodes_uint 2); simpl; lia|].
  rewrite (proj2 (Z.ltb_ge maximum (len v))) by lia. by apply Decodes_take.
Qed.

Lemma Decodes_copy n v : length v = n -> Decodes (d_copy n) v v.
Proof.
  intros <-. unfold d_copy.
  replace v with (v ++ drop (length v) (zero_bytes (length v))) at 3.
  - apply (Decodes_bind_ret _ (fun w => w ++ drop (length w) (zero_bytes (length v)))).
    by apply Decodes_take.
  - unfold zero_bytes. by rewrite drop_ge, app_nil_r by (rewrite length_replicate; lia).
Qed.

Lemma Decodes_repeat {A} (m : Decoder A) (enc : A -> list byte) l :
  Forall (fun a => Decodes m (enc a) a) l -> Decodes (d_repeat (length l) m) (flat_map enc l) l.
Proof.
  induction 1 as [|a l Ha HF IH]; simpl; [apply Decodes_ret|].
  eapply Decodes_bind; [done|].
  by apply (Decodes_bind_ret _ (fun l => a :: l)).
Qed.

(** What a decoder reads back determines the field and where it ends. *)
Lemma Decodes_inj {A} (m : Decoder A) e e' a a' x y :
  Decodes m e a -> Decodes m e' a' -> e ++ x = e' ++ y -> a = a' /\ x = y.
Proof.
  intros D D' E.
  destruct (D (mkDecoder (e ++ x) 0 false) x) as (d&Hd&_&_&Hx).
  { split; [done|]. simpl. pose proof (len_nonneg (e ++ x)). split; [lia|apply zdrop_0]. }
  destruct (D' (mkDecoder (e ++ x) 0 false) y) as (d'&Hd'&_&_&Hy).
  { split; [done|]. simpl. pose proof (len_nonneg (e ++ x)). split; [lia|by rewrite zdrop_0]. }
  rewrite Hd in Hd'. injection Hd' as -> <-. split; congruence.
Qed.

Lemma at_rest_start v : at_rest (mkDecoder v 0 false) v.
Proof. split; [done|]. simpl. pose proof (len_nonneg v). split; [lia|apply zdrop_0]. Qed.

Lemma at_rest_done d : at_rest d [] -> d_done d = true.
Proof.
  intros (He&Ho&Hd). unfold d_done. rewrite He. simpl. apply Z.eqb_eq.
  pose proof (len_zdrop _ _ Ho) as H. rewrite Hd, len_nil in H. lia.
Qed.

Lemma at_rest_noerr d rest : at_rest d rest -> derr d = false.
Proof. by intros (?&_). Qed.

(** ** What a decoder yields, whatever it reads *)
Definition Yields {A} (m : Decoder A) (P : A -> Prop) : Prop :=
  forall d, P (m d).1.

Lemma Yields_ret {A} (a : A) (P : A -> Prop) : P a -> Yields (mret a) P.
Proof. intros H d. exact H. Qed.

Lemma Yields_bind {A B} (m : Decoder A) (k : A -> Decoder B) P Q :
  Yields m P -> (forall a, P a -> Yields (k a) Q) -> Yields (m ≫= k) Q.
Proof.
  intros Hm Hk d. unfold mbind, decoder_bind. specialize (Hm d). destruct (m d) as [a d'].
  by apply Hk.
Qed.

Lemma Yields_any {A} (m : Decoder A) : Yields m (fun _ => True).
Proof. done. Qed.

Lemma Yields_byte : Yields d_byte (fun z => 0 <= z < 256).
Proof.
  eapply Yields_bind; [apply Yields_any|]. intros v _. apply Yields_ret.
  destruct v as [|b [|]]; try lia. apply Z_of_byte_range.
Qed.

Lemma Yields_uint n : Yields (d_uint n) (fun z => 0 <= z < 256 ^ Z.of_nat n).
Proof.
  eapply Yields_bind; [apply Yields_any|]. intros v _. apply Yields_ret.
  pose proof (be_get_range (padTo v n)) as H.
  replace (len (padTo v n)) with (Z.of_nat n) in H; [done|].
  unfold padTo. case_match eqn:E; [by apply Z.eqb_eq in E|].
  unfold len, zero_bytes. by rewrite length_replicate.
Qed.

Lemma Yields_copy n : Yields (d_copy n) (fun v => length v = n).
Proof.
  eapply (Yields_bind _ _ (fun v => (length v <= n)%nat)).
  - intros d. unfold d_take. case_match; simpl; [lia|].
    unfold ztake. rewrite length_take. lia.
  - intros v Hv. apply Yields_ret. unfold zero_bytes.
    rewrite length_app, length_drop, length_replicate. lia.
Qed.

Lemma Yields_repeat {A} n (m : Decoder A) P : Yields m P -> Yields (d_repeat n m) (Forall P).
Proof.
  intros Hm. induction n as [|n IH]; simpl; [by apply Yields_ret|].
  eapply Yields_bind; [done|]. intros a Ha. eapply Yields_bind; [done|]. intros l Hl.
  apply Yields_ret. by constructor.
Qed.

(** One field of a format, whose bounds are in the context; all of them; and the same
    for what a decoder yields. *)
Ltac in_bounds := first [assumption | simpl in *; lia].
Ltac decode_field :=
  first [ apply Decodes_string; in_bounds | apply Decodes_uint; in_bounds
        | apply Decodes_byte; in_bounds | apply Decodes_copy; assumption
        | apply Decodes_magic | apply Decodes_take; in_bounds | eassumption ].
Ltac decode_fields :=
  repeat first [ eapply Decodes_bind; [solve [decode_field]|]
               | eapply Decodes_bind_last; [solve [decode_field]|apply Decodes_ret] ].

(** The decoder call in the goal, on input whose next field is known. *)
Ltac decode_call :=
  lazymatch goal with
  | R : at_rest ?d (?e ++ _) |- context [?m ?d] =>
      let D := fresh "D" in let d' := fresh "d" in let E := fresh "E" in let R' := fresh "R" in
      eassert (D : Decodes m e _) by decode_field;
      destruct (D _ _ R) as (d'&E&R'); rewrite E; clear D E R; rename R' into R; cbv beta iota
  end.

Ltac yield_field :=
  first [ apply Yields_byte | apply Yields_uint | apply Yields_copy | apply Yields_any ].
Ltac yield_fields :=
  repeat (eapply Yields_bind; [yield_field|intros ? ?]); apply Yields_ret.
