(* ===== verification/TransferManifest.v ===== *)
(** * Manifests and receipts of encrypted transfers

    Models [internal/peertransport/transfercrypto/manifest.go]: the manifest a sender
    seals before the chunks and the receipt the receiver seals after publishing, with
    their canonical encodings.  The parsers accept exactly the canonical encodings of
    valid values; a validated path is a sequence of ordinary components. *)
From S2P Require Import Prelude.
From S2P Require Import Sha256.
From S2P Require Import TransferCodec.
Set Warnings "-clear-no-such-hyp".

(** ** The manifest *)
Record ManifestFile := mkFile {
  TransferID : gostring; FileOrdinal : Z; Name : gostring; RelativeDestination : gostring;
  Mode : Z; Size : Z; PlaintextSHA256 : list byte; ChunkCount : Z }.

Record Manifest := mkManifest { BatchID : gostring; Files : list ManifestFile }.

Definition wantChunks (size : Z) : Z :=
  let chunks := size / ChunkSize in
  let chunks := if negb (size mod ChunkSize =? 0) then chunks + 1 else chunks in
  if chunks =? 0 then 1 else chunks.

(** [validateManifestFile]: whether it returns nil. *)
Definition validateManifestFile (file : ManifestFile) : bool :=
  if negb (identifier (TransferID file)) || (FileOrdinal file =? recordFileOrdinal)
     || negb (validFilename (Name file)) || negb (validRelativePath (RelativeDestination file))
     || negb (Z.ldiff (Mode file) 511 =? 0) || allZero (PlaintextSHA256 file)
  then false
  else ChunkCount file =? wantChunks (Size file).

Definition putManifestFile (file : ManifestFile) : list byte :=
  appendString (TransferID file) ++ PutUint64 (FileOrdinal file) ++ appendString (Name file)
  ++ appendString (RelativeDestination file) ++ PutUint32 (Mode file) ++ PutUint64 (Size file)
  ++ PlaintextSHA256 file ++ PutUint64 (ChunkCount file).

(** The loop of [Manifest.MarshalBinary], with the two maps of what it has seen. *)
Fixpoint marshalFiles (files : list ManifestFile) (seenTransfers : gset gostring)
    (seenOrdinals : gset Z) : result TransferError (list byte) :=
  match files with
  | [] => Ok []
  | file :: rest =>
      if negb (validateManifestFile file) then Err ErrInvalid
      else if bool_decide (TransferID file ∈ seenTransfers) then Err ErrInvalid
      else if bool_decide (FileOrdinal file ∈ seenOrdinals) then Err ErrInvalid
      else match marshalFiles rest ({[TransferID file]} ∪ seenTransfers)
                   ({[FileOrdinal file]} ∪ seenOrdinals) with
           | Ok e => Ok (putManifestFile file ++ e)
           | Err e => Err e
           end
  end.

Definition manifestHeader (m : Manifest) : list byte :=
  bytes "PBMF" ++ PutByte ProtocolVersion ++ appendString (BatchID m) ++ PutUint16 (len (Files m)).

Definition Manifest_MarshalBinary (m : Manifest) : result TransferError (list byte) :=
  if negb (identifier (BatchID m)) || (len (Files m) =? 0) || (maxManifestFiles <? len (Files m))
  then Err ErrInvalid
  else match marshalFiles (Files m) ∅ ∅ with
       | Err e => Err e
       | Ok body =>
           let encoded := manifestHeader m ++ body in
           if ChunkSize <? len encoded then Err ErrInvalid else Ok encoded
       end.

(** The body of the loop of [ParseManifest]. *)
Definition d_manifestFile : Decoder ManifestFile :=
  transferID ← d_string 128;
  fileOrdinal ← d_uint64;
  name ← d_string maxFilenameBytes;
  destination ← d_string maxPathBytes;
  mode ← d_uint32;
  size ← d_uint64;
  sha ← d_copy 32;
  chunkCount ← d_uint64;
  mret (mkFile transferID fileOrdinal name destination mode size sha chunkCount).

Definition ParseManifest (encoded : list byte) : result TransferError Manifest :=
  if (len encoded =? 0) || (ChunkSize <? len encoded) then Err ErrInvalid
  else
    let '(isMagic, d) := d_magic (bytes "PBMF") (mkDecoder encoded 0 false) in
    if negb isMagic then Err ErrInvalid
    else
      let '(version, d) := d_byte d in
      if negb (version =? ProtocolVersion) then Err ErrInvalid
      else
        let '(batchID, d) := d_string maxPathBytes d in
        let '(count, d) := d_uint16 d in
        if derr d || negb (identifier batchID) || (count =? 0) then Err ErrInvalid
        else
          let '(files, d) := d_repeat (Z.to_nat count) d_manifestFile d in
          if derr d || negb (d_done d) then Err ErrInvalid
          else
            let manifest := mkManifest batchID files in
            match Manifest_MarshalBinary manifest with
            | Ok canonical => if equalBytes canonical encoded then Ok manifest else Err ErrInvalid
            | Err _ => Err ErrInvalid
            end.

(** [Manifest.Hash] *)
Definition Manifest_Hash (m : Manifest) : result TransferError (list byte) :=
  match Manifest_MarshalBinary m with Ok e => Ok (Sum256 e) | Err e => Err e end.

(** ** The receipt *)
Definition CollisionOriginal : Z := 1.
Definition CollisionRenamed : Z := 2.
Definition CollisionRejected : Z := 3.

Record ReceiptFile := mkReceiptFile { rFileOrdinal : Z; Result : Z; RelativePath : gostring }.
Record FinalReceipt := mkReceipt { ManifestHash : list byte; rFiles : list ReceiptFile }.

Definition validCollision (value : Z) : bool :=
  (CollisionOriginal <=? value) && (value <=? CollisionRejected).

Definition validReceiptFile (file : ReceiptFile) : bool :=
  if negb (validCollision (Result file)) then false
  else if Result file =? CollisionRejected then bool_decide (RelativePath file = [])
  else validRelativePath (RelativePath file).

Definition putReceiptFile (file : ReceiptFile) : list byte :=
  PutUint64 (rFileOrdinal file) ++ PutByte (Result file) ++ appendString (RelativePath file).

Fixpoint marshalReceiptFiles (files : list ReceiptFile) (seen : gset Z)
    : result TransferError (list byte) :=
  match files with
  | [] => Ok []
  | file :: rest =>
      if (rFileOrdinal file =? recordFileOrdinal) || negb (validReceiptFile file)
      then Err ErrInvalid
      else if bool_decide (rFileOrdinal file ∈ seen) then Err ErrInvalid
      else match marshalReceiptFiles rest ({[rFileOrdinal file]} ∪ seen) with
           | Ok e => Ok (putReceiptFile file ++ e)
           | Err e => Err e
           end
  end.

Definition receiptHeader (r : FinalReceipt) : list byte :=
  bytes "PBRC" ++ PutByte ProtocolVersion ++ ManifestHash r ++ PutUint16 (len (rFiles r)).

Definition FinalReceipt_MarshalBinary (r : FinalReceipt) : result TransferError (list byte) :=
  if allZero (ManifestHash r) || (len (rFiles r) =? 0) || (maxManifestFiles <? len (rFiles r))
  then Err ErrInvalid
  else match marshalReceiptFiles (rFiles r) ∅ with
       | Err e => Err e
       | Ok body =>
           let encoded := receiptHeader r ++ body in
           if ChunkSize <? len encoded then Err ErrInvalid else Ok encoded
       end.

Definition d_receiptFile : Decoder ReceiptFile :=
  fileOrdinal ← d_uint64;
  result ← d_byte;
  path ← d_string maxPathBytes;
  mret (mkReceiptFile fileOrdinal result path).

Definition ParseFinalReceipt (encoded : list byte) : result TransferError FinalReceipt :=
  if (len encoded =? 0) || (ChunkSize <? len encoded) then Err ErrInvalid
  else
    let '(isMagic, d) := d_magic (bytes "PBRC") (mkDecoder encoded 0 false) in
    if negb isMagic then Err ErrInvalid
    else
      let '(version, d) := d_byte d in
      if negb (version =? ProtocolVersion) then Err ErrInvalid
      else
        let '(manifestHash, d) := d_copy 32 d in
        let '(count, d) := d_uint16 d in
        if derr d || (count =? 0) then Err ErrInvalid
        else
          let '(files, d) := d_repeat (Z.to_nat count) d_receiptFile d in
          if derr d || negb (d_done d) then Err ErrInvalid
          else
            let receipt := mkReceipt manifestHash files in
            match FinalReceipt_MarshalBinary receipt with
            | Ok canonical => if equalBytes canonical encoded then Ok receipt else Err ErrInvalid
            | Err _ => Err ErrInvalid
            end.

(** ** The ranges of the fields' types *)
Record file_typed (f : ManifestFile) : Prop := {
  ft_ordinal : 0 <= FileOrdinal f < 256 ^ 8;
  ft_mode : 0 <= Mode f < 256 ^ 4;
  ft_size : 0 <= Size f < 256 ^ 8;
  ft_sha : length (PlaintextSHA256 f) = 32%nat;
  ft_chunks : 0 <= ChunkCount f < 256 ^ 8 }.
Definition manifest_typed (m : Manifest) : Prop := Forall file_typed (Files m).

Record receipt_file_typed (f : ReceiptFile) : Prop := {
  rt_ordinal : 0 <= rFileOrdinal f < 256 ^ 8;
  rt_result : 0 <= Result f < 256 }.
Definition receipt_typed (r : FinalReceipt) : Prop :=
  length (ManifestHash r) = 32%nat /\ Forall receipt_file_typed (rFiles r).

(** ** Round trips *)
Lemma validRelativePath_length p : validRelativePath p = true -> 0 < len p <= maxPathBytes.
Proof.
  unfold validRelativePath. case_match eqn:E; [done|]. intros _. bool_hyps.
  pose proof (len_nonneg p). lia.
Qed.

Lemma validFilename_length p : validFilename p = true -> 0 < len p <= maxFilenameBytes.
Proof. unfold validFilename. intros H. bool_hyps. lia. Qed.

Lemma validateManifestFile_fields f :
  validateManifestFile f = true ->
  identifier (TransferID f) = true /\ FileOrdinal f <> recordFileOrdinal /\
  validFilename (Name f) = true /\ validRelativePath (RelativeDestination f) = true /\
  Z.ldiff (Mode f) 511 = 0 /\ allZero (PlaintextSHA256 f) = false /\
  ChunkCount f = wantChunks (Size f).
Proof.
  unfold validateManifestFile. case_match eqn:E; [done|]. intros H. bool_hyps. naive_solver.
Qed.

Lemma Decodes_manifestFile f :
  validateManifestFile f = true -> file_typed f -> Decodes d_manifestFile (putManifestFile f) f.
Proof.
  intros HV HT. destruct (validateManifestFile_fields f HV) as (Hid&_&Hn&Hp&_&_&_).
  apply identifier_length in Hid. apply validFilename_length in Hn.
  apply validRelativePath_length in Hp. unfold maxFilenameBytes, maxPathBytes in *.
  destruct HT, f as [tid o n rd md sz sha cc]; simpl in *.
  unfold d_manifestFile, putManifestFile. cbn [TransferID FileOrdinal Name
    RelativeDestination Mode Size PlaintextSHA256 ChunkCount]. unfold maxFilenameBytes, maxPathBytes.
  decode_fields.
Qed.

Lemma Yields_manifestFile : Yields d_manifestFile file_typed.
Proof. unfold d_manifestFile. yield_fields. by split. Qed.

Lemma Decodes_receiptFile f :
  validReceiptFile f = true -> receipt_file_typed f -> Decodes d_receiptFile (putReceiptFile f) f.
Proof.
  intros HV HT. assert (Hp : len (RelativePath f) <= maxPathBytes).
  { unfold validReceiptFile in HV. repeat case_match; bool_hyps; try done.
    - by rewrite HV.
    - apply validRelativePath_length in HV. lia. }
  destruct HT, f as [o r p]; simpl in *. unfold maxPathBytes in *.
  unfold d_receiptFile, putReceiptFile, maxPathBytes. cbn [rFileOrdinal Result RelativePath].
  decode_fields.
Qed.

Lemma Yields_receiptFile : Yields d_receiptFile receipt_file_typed.
Proof. unfold d_receiptFile. yield_fields. by split. Qed.

(** The loops write the files in order, each of them valid, without duplicates. *)
Lemma marshalFiles_Ok files sT sO e :
  marshalFiles files sT sO = Ok e ->
  e = flat_map putManifestFile files /\ Forall (fun f => validateManifestFile f = true) files /\
  NoDup (map TransferID files) /\ NoDup (map FileOrdinal files) /\
  Forall (fun f => (TransferID f ∉ sT) /\ (FileOrdinal f ∉ sO)) files.
Proof.
  revert sT sO e. induction files as [|f files IH]; intros sT sO e; simpl.
  - intros [= <-]. by repeat constructor.
  - repeat case_match; try done. intros [= <-]. bool_hyps.
    destruct (IH _ _ _ ltac:(eassumption)) as (->&HF&HT&HO&HS).
    assert (HN : Forall (fun g => TransferID g <> TransferID f /\ FileOrdinal g <> FileOrdinal f) files).
    { eapply Forall_impl; [exact HS|]. simpl. set_solver. }
    assert (Hother : forall {A} (g : ManifestFile -> A),
      (forall x, x ∈ files -> g x <> g f) -> g f ∉ map g files).
    { intros A g Hg Hin. apply list_elem_of_fmap in Hin as (x&Hx&Hin). by apply (Hg x Hin). }
    rewrite Forall_forall in HN.
    repeat split; try (constructor; try done).
    + apply Hother. intros x Hx. by apply HN.
    + apply Hother. intros x Hx. by apply HN.
    + eapply Forall_impl; [exact HS|]. simpl. set_solver.
Qed.

Lemma marshalReceiptFiles_Ok files seen e :
  marshalReceiptFiles files seen = Ok e ->
  e = flat_map putReceiptFile files /\ Forall (fun f => validReceiptFile f = true) files.
Proof.
  revert seen e. induction files as [|f files IH]; intros seen e; simpl; [by intros [= <-]|].
  repeat case_match; try done. intros [= <-]. bool_hyps.
  destruct (IH _ _ ltac:(eassumption)) as (->&HF). by repeat constructor.
Qed.

Lemma Manifest_MarshalBinary_Ok m b :
  Manifest_MarshalBinary m = Ok b ->
  b = manifestHeader m ++ flat_map putManifestFile (Files m) /\ len b <= ChunkSize /\
  identifier (BatchID m) = true /\ 0 < len (Files m) <= maxManifestFiles /\
  Forall (fun f => validateManifestFile f = true) (Files m) /\
  NoDup (map TransferID (Files m)) /\ NoDup (map FileOrdinal (Files m)).
Proof.
  unfold Manifest_MarshalBinary. repeat case_match; try done. intros [= <-]. bool_hyps.
  destruct (marshalFiles_Ok _ _ _ _ ltac:(eassumption)) as (->&HF&HT&HO&_).
  pose proof (len_nonneg (Files m)). repeat split; try done; lia.
Qed.

Lemma FinalReceipt_MarshalBinary_Ok r b :
  FinalReceipt_MarshalBinary r = Ok b ->
  b = receiptHeader r ++ flat_map putReceiptFile (rFiles r) /\ len b <= ChunkSize /\
  allZero (ManifestHash r) = false /\ 0 < len (rFiles r) <= maxManifestFiles /\
  Forall (fun f => validReceiptFile f = true) (rFiles r).
Proof.
  unfold FinalReceipt_MarshalBinary. repeat case_match; try done. intros [= <-]. bool_hyps.
  destruct (marshalReceiptFiles_Ok _ _ _ ltac:(eassumption)) as (->&HF).
  pose proof (len_nonneg (rFiles r)). repeat split; try done; lia.
Qed.

Lemma len_app_pos {A} (l k : list A) : 0 < len l -> 0 < len (l ++ k).
Proof. rewrite len_app. pose proof (len_nonneg k). lia. Qed.

Lemma ParseManifest_marshalled m b :
  manifest_typed m -> Manifest_MarshalBinary m = Ok b -> ParseManifest b = Ok m.
Proof.
  intros HT HM. destruct (Manifest_MarshalBinary_Ok _ _ HM) as (Hb&Hlen&Hid&Hn&HV&_).
  unfold maxManifestFiles in Hn.
  assert (Hpos : 0 < len b).
  { rewrite Hb. unfold manifestHeader. rewrite <- !app_assoc. by apply len_app_pos. }
  pose proof (identifier_length _ Hid) as Hil.
  pose proof (at_rest_start b) as R. rewrite Hb in R at 2. unfold manifestHeader in R.
  rewrite <- !app_assoc in R.
  unfold ParseManifest. rewrite (proj2 (Z.eqb_neq _ _)), (proj2 (Z.ltb_ge ChunkSize _)) by lia.
  unfold ProtocolVersion, maxPathBytes in *. do 4 decode_call.
  rewrite (at_rest_noerr _ _ R), Hid, (proj2 (Z.eqb_neq (len (Files m)) 0)) by lia. simpl.
  assert (D : Decodes (d_repeat (length (Files m)) d_manifestFile)
            (flat_map putManifestFile (Files m)) (Files m)).
  { apply Decodes_repeat. apply Forall_forall. intros f Hf. unfold manifest_typed in HT.
    rewrite Forall_forall in HT, HV. apply Decodes_manifestFile; auto. }
  unfold len at 1. rewrite Nat2Z.id. rewrite <- (app_nil_r (flat_map _ _)) in R.
  destruct (D _ _ R) as (d'&->&R'). rewrite (at_rest_noerr _ _ R'), (at_rest_done _ R'). simpl.
  destruct m as [bid files]. cbn [BatchID Files] in *. rewrite HM.
  by rewrite (proj2 (equalBytes_true b b)).
Qed.

Lemma Yields_result {A} (m : Decoder A) P d a d' : Yields m P -> m d = (a, d') -> P a.
Proof. intros H E. specialize (H d). by rewrite E in H. Qed.

Lemma ParseManifest_canonical m b :
  ParseManifest b = Ok m -> manifest_typed m /\ Manifest_MarshalBinary m = Ok b.
Proof.
  unfold ParseManifest. repeat case_match; try done. intros [= <-].
  split; [|by match goal with H : equalBytes _ _ = true |- _ => apply equalBytes_true in H as <- end].
  eapply (Yields_result (d_repeat _ d_manifestFile) (Forall file_typed));
    [apply Yields_repeat, Yields_manifestFile|eassumption].
Qed.

Lemma ParseFinalReceipt_marshalled r b :
  receipt_typed r -> FinalReceipt_MarshalBinary r = Ok b -> ParseFinalReceipt b = Ok r.
Proof.
  intros [HH HT] HM. destruct (FinalReceipt_MarshalBinary_Ok _ _ HM) as (Hb&Hlen&Hz&Hn&HV).
  unfold maxManifestFiles in Hn.
  assert (Hpos : 0 < len b).
  { rewrite Hb. unfold receiptHeader. rewrite <- !app_assoc. by apply len_app_pos. }
  pose proof (at_rest_start b) as R. rewrite Hb in R at 2. unfold receiptHeader in R.
  rewrite <- !app_assoc in R.
  unfold ParseFinalReceipt. rewrite (proj2 (Z.eqb_neq _ _)), (proj2 (Z.ltb_ge ChunkSize _)) by lia.
  unfold ProtocolVersion, maxPathBytes in *. do 4 decode_call.
  rewrite (at_rest_noerr _ _ R), (proj2 (Z.eqb_neq (len (rFiles r)) 0)) by lia. simpl.
  assert (D : Decodes (d_repeat (length (rFiles r)) d_receiptFile)
            (flat_map putReceiptFile (rFiles r)) (rFiles r)).
  { apply Decodes_repeat. apply Forall_forall. intros f Hf.
    rewrite Forall_forall in HT, HV. apply Decodes_receiptFile; auto. }
  unfold len at 1. rewrite Nat2Z.id. rewrite <- (app_nil_r (flat_map _ _)) in R.
  destruct (D _ _ R) as (d'&->&R'). rewrite (at_rest_noerr _ _ R'), (at_rest_done _ R'). simpl.
  destruct r as [h files]. cbn [ManifestHash rFiles] in *. rewrite HM.
  by rewrite (proj2 (equalBytes_true b b)).
Qed.

Lemma ParseFinalReceipt_canonical r b :
  ParseFinalReceipt b = Ok r -> receipt_typed r /\ FinalReceipt_MarshalBinary r = Ok b.
Proof.
  unfold ParseFinalReceipt. repeat case_match; try done. intros [= <-].
  split; [|by match goal with H : equalBytes _ _ = true |- _ => apply equalBytes_true in H as <- end].
  split; [eapply (Yields_result (d_copy 32) (fun v => length v = 32%nat)); [apply Yields_copy|eassumption]|].
  eapply (Yields_result (d_repeat _ d_receiptFile) (Forall receipt_file_typed));
    [apply Yields_repeat, Yields_receiptFile|eassumption].
Qed.

(** ** Paths *)

(** Joining the parts with slashes again. *)
Fixpoint joinSlash (parts : list gostring) : gostring :=
  match parts with
  | [] => []
  | [p] => p
  | p :: r => p ++ slash :: joinSlash r
  end.

Lemma splitSlash_nonempty p : splitSlash p <> [].
Proof.
  destruct p as [|b r]; simpl; [done|]. case_bool_decide; [done|]. by destruct (splitSlash r).
Qed.

Lemma joinSlash_splitSlash p : joinSlash (splitSlash p) = p.
Proof.
  induction p as [|b r IH]; simpl; [done|].
  pose proof (splitSlash_nonempty r) as Hn.
  case_bool_decide as Hb; destruct (splitSlash r) as [|part parts] eqn:E; simpl in *; try done.
  - subst b. by destruct parts; rewrite <- IH.
  - destruct parts; simpl in *; by rewrite <- IH.
Qed.

(** How an operating system follows the parts of a path from a directory: an empty
    part or a dot stays, two dots leave the directory, anything else enters it.  [None]
    when the walk leaves the directory it started in. *)
Fixpoint follow (parts : list gostring) (inside : list gostring) : option (list gostring) :=
  match parts with
  | [] => Some inside
  | part :: rest =>
      if bool_decide (part = []) || bool_decide (part = dot) then follow rest inside
      else if bool_decide (part = dotdot) then
        match inside with [] => None | _ :: up => follow rest up end
      else follow rest (part :: inside)
  end.

Lemma follow_ordinary parts inside :
  Forall (fun part => part <> [] /\ part <> dot /\ part <> dotdot) parts ->
  follow parts inside = Some (rev parts ++ inside).
Proof.
  intros HF. revert inside. induction HF as [|p l (H1&H2&H3) HF IH]; intros inside; [done|].
  cbn [follow rev]. rewrite !bool_decide_false by done. cbn [orb]. by rewrite IH, <- app_assoc.
Qed.

Lemma validRelativePath_parts p :
  validRelativePath p = true ->
  Forall (fun part => part <> [] /\ part <> dot /\ part <> dotdot) (splitSlash p).
Proof.
  unfold validRelativePath. case_match; [done|]. rewrite forallb_True || rewrite forallb_forall.
  intros H0. apply Forall_forall. intros x Hx. apply list_elem_of_In in Hx. specialize (H0 x Hx).
  bool_hyps. naive_solver.
Qed.

(** A byte that is in no part. *)
Lemma ContainsAny_false v chars : ContainsAny v chars = false -> forall b, b ∈ v -> b ∉ chars.
Proof.
  unfold ContainsAny. intros H b Hb Hin. apply list_elem_of_In in Hb.
  assert (existsb (fun b => bool_decide (b ∈ chars)) v = true) as E; [|congruence].
  apply existsb_exists. exists b. split; [done|]. by apply bool_decide_true.
Qed.

Lemma splitSlash_single p : slash ∉ p -> splitSlash p = [p].
Proof.
  induction p as [|b r IH]; simpl; [done|]. rewrite not_elem_of_cons. intros [Hb Hr].
  rewrite bool_decide_false by done. by rewrite IH.
Qed.

Lemma splitSlash_app a p : slash ∉ a -> splitSlash (a ++ slash :: p) = a :: splitSlash p.
Proof.
  induction a as [|b a IH]; intros Ha; simpl; [done|].
  rewrite not_elem_of_cons in Ha. destruct Ha as [Hb Ha].
  rewrite bool_decide_false by done. by rewrite IH.
Qed.
