(* ===== verification/TransferCrypto.v ===== *)
(** * Chunk and record encryption of file transfers

    Models [internal/peertransport/transfercrypto] chunk.go and record.go, and the
    sealing of manifests and receipts of manifest.go: key material, the contexts that
    are authenticated with every ciphertext, the nonce of each of them and the four
    operations over an AEAD.

    XChaCha20-Poly1305 ([golang.org/x/crypto]) is third-party code: the class [AEAD] is
    the interface of [cipher.AEAD] for a given key, and [AEADLaws] what the package
    documents: a tag of 16 bytes, and opening inverts sealing. *)
From S2P Require Import Prelude.
From S2P Require Import Codec.
From S2P Require Import Sha256.
From S2P Require Import TransferCodec.
From S2P Require Import TransferManifest.
Set Warnings "-clear-no-such-hyp".

(** ** Key material *)
Record KeyMaterial := mkMaterial { Key : list byte; NoncePrefix : list byte }.

Definition keyRecordSize : Z := 45.

(** [KeyMaterial.Valid] *)
Definition material_Valid (k : KeyMaterial) : bool :=
  negb (allZero (Key k)) && negb (allZero (NoncePrefix k)).

(** [generateKeyMaterial]: [source] is what the random source returns before it fails. *)
Definition generateKeyMaterial (source : list byte) : result TransferError KeyMaterial :=
  match ReadFull 32 source with
  | Err _ => Err ErrRandom
  | Ok (key, source) =>
      match ReadFull 8 source with
      | Err _ => Err ErrRandom
      | Ok (prefix, _) =>
          if allZero key || allZero prefix then Err ErrInvalid else Ok (mkMaterial key prefix)
      end
  end.

(** [KeyMaterial.MarshalBinary] *)
Definition material_MarshalBinary (k : KeyMaterial) : result TransferError (list byte) :=
  if allZero (Key k) || allZero (NoncePrefix k) then Err ErrInvalid
  else Ok (bytes "PBTK" ++ PutByte ProtocolVersion ++ Key k ++ NoncePrefix k).

Definition ParseKeyMaterial (value : list byte) : result TransferError KeyMaterial :=
  if negb (len value =? keyRecordSize) || negb (bool_decide (sub 0 4 value = bytes "PBTK"))
     || negb (Z_of_byte (nth 4 value x00) =? ProtocolVersion)
  then Err ErrInvalid
  else
    let key := sub 5 37 value in
    let prefix := sub 37 45 value in
    if allZero key || allZero prefix then Err ErrInvalid else Ok (mkMaterial key prefix).

(** ** Contexts *)
Definition DirectionToMachine : Z := 1.
Definition DirectionFromMachine : Z := 2.

Record ChunkContext := mkChunkContext {
  cAccountID : gostring; cDeviceID : gostring; cMachineID : gostring;
  cInitiatorCertificateHash : list byte; cResponderCertificateHash : list byte;
  cOperationID : gostring; cTransferID : gostring; cDirection : Z; cTransferGeneration : Z;
  cFileOrdinal : Z; cChunkOrdinal : Z; cFinal : bool }.
#[export] Instance ChunkContext_eta : Eta ChunkContext :=
  fun c => mkChunkContext (cAccountID c) (cDeviceID c) (cMachineID c) (cInitiatorCertificateHash c)
    (cResponderCertificateHash c) (cOperationID c) (cTransferID c) (cDirection c)
    (cTransferGeneration c) (cFileOrdinal c) (cChunkOrdinal c) (cFinal c).

Definition validDirection (d : Z) : bool := (d =? DirectionToMachine) || (d =? DirectionFromMachine).

Definition lengthInRange (plaintextLength : Z) : bool :=
  (0 <=? plaintextLength) && (plaintextLength <=? ChunkSize).

(** [ChunkContext.additionalData] *)
Definition chunkAdditionalData (c : ChunkContext) (plaintextLength : Z)
    : result TransferError (list byte) :=
  if negb (forallb identifier
             [cAccountID c; cDeviceID c; cMachineID c; cOperationID c; cTransferID c])
  then Err ErrInvalid
  else if negb (validDirection (cDirection c)) || (cTransferGeneration c =? 0)
     || (cFileOrdinal c =? recordFileOrdinal) || allZero (cInitiatorCertificateHash c)
     || allZero (cResponderCertificateHash c) || negb (lengthInRange plaintextLength)
  then Err ErrInvalid
  else Ok (bytes "PBTC" ++ PutByte ProtocolVersion
       ++ appendString (cAccountID c) ++ appendString (cDeviceID c) ++ appendString (cMachineID c)
       ++ cInitiatorCertificateHash c ++ cResponderCertificateHash c
       ++ appendString (cOperationID c) ++ appendString (cTransferID c)
       ++ PutByte (cDirection c) ++ PutUint64 (cTransferGeneration c)
       ++ PutUint64 (cFileOrdinal c) ++ PutUint64 (cChunkOrdinal c)
       ++ PutUint32 plaintextLength ++ PutBool (cFinal c)).

Definition maxRecordOrdinal : Z := 72057594037927935.

Definition RecordBatchManifest : Z := 1.
Definition RecordFileManifest : Z := 2.
Definition RecordFinalManifest : Z := 3.
Definition RecordFinalReceipt : Z := 4.

Definition validRecordType (value : Z) : bool :=
  (RecordBatchManifest <=? value) && (value <=? RecordFinalReceipt).

Record RecordContext := mkRecordContext {
  rAccountID : gostring; rDeviceID : gostring; rMachineID : gostring;
  rInitiatorCertificateHash : list byte; rResponderCertificateHash : list byte;
  rOperationID : gostring; rTransferID : gostring; rDirection : Z; rTransferGeneration : Z;
  rType : Z; rOrdinal : Z }.
#[export] Instance RecordContext_eta : Eta RecordContext :=
  fun c => mkRecordContext (rAccountID c) (rDeviceID c) (rMachineID c) (rInitiatorCertificateHash c)
    (rResponderCertificateHash c) (rOperationID c) (rTransferID c) (rDirection c)
    (rTransferGeneration c) (rType c) (rOrdinal c).

(** [RecordContext.additionalData] *)
Definition recordAdditionalData (c : RecordContext) (plaintextLength : Z)
    : result TransferError (list byte) :=
  if negb (forallb identifier
             [rAccountID c; rDeviceID c; rMachineID c; rOperationID c; rTransferID c])
  then Err ErrInvalid
  else if negb (validDirection (rDirection c)) || (rTransferGeneration c =? 0)
     || negb (validRecordType (rType c)) || (maxRecordOrdinal <? rOrdinal c)
     || allZero (rInitiatorCertificateHash c) || allZero (rResponderCertificateHash c)
     || negb (lengthInRange plaintextLength)
  then Err ErrInvalid
  else Ok (bytes "PBTR" ++ PutByte ProtocolVersion
       ++ appendString (rAccountID c) ++ appendString (rDeviceID c) ++ appendString (rMachineID c)
       ++ rInitiatorCertificateHash c ++ rResponderCertificateHash c
       ++ appendString (rOperationID c) ++ appendString (rTransferID c)
       ++ PutByte (rDirection c) ++ PutByte (rType c) ++ PutUint64 (rTransferGeneration c)
       ++ PutUint64 (rOrdinal c) ++ PutUint32 plaintextLength).

(** ** Nonces: the last results of [prepare] and [prepareRecord] *)
Definition chunkNonce (material : KeyMaterial) (c : ChunkContext) : list byte :=
  NoncePrefix material ++ PutUint64 (cFileOrdinal c) ++ PutUint64 (cChunkOrdinal c).

Definition recordNonce (material : KeyMaterial) (c : RecordContext) : list byte :=
  NoncePrefix material ++ PutUint64 recordFileOrdinal
  ++ PutUint64 (Z.lor (u64 (Z.shiftl (rType c) 56)) (rOrdinal c)).

(** [prepare]: the nonce and the additional data; the cipher is the AEAD at the key. *)
Definition prepare (material : KeyMaterial) (c : ChunkContext) (plaintextLength : Z)
    : result TransferError (list byte * list byte) :=
  if allZero (Key material) || allZero (NoncePrefix material) then Err ErrInvalid
  else match chunkAdditionalData c plaintextLength with
       | Err e => Err e
       | Ok ad => Ok (chunkNonce material c, ad)
       end.

Definition prepareRecord (material : KeyMaterial) (c : RecordContext) (plaintextLength : Z)
    : result TransferError (list byte * list byte) :=
  match recordAdditionalData c plaintextLength with
  | Err _ => Err ErrInvalid
  | Ok ad =>
      if allZero (Key material) || allZero (NoncePrefix material) then Err ErrInvalid
      else Ok (recordNonce material c, ad)
  end.

(** [ValidateChunkContext]: whether it returns nil. *)
Definition ValidateChunkContext (material : KeyMaterial) (c : ChunkContext) : bool :=
  material_Valid material && is_ok (chunkAdditionalData c 0).

(** ** The AEAD and the operations *)
Class AEAD := {
  Seal : list byte -> list byte -> list byte -> list byte -> list byte;
  Open : list byte -> list byte -> list byte -> list byte -> option (list byte)
}.

Class AEADLaws (A : AEAD) := {
  Seal_length key nonce p ad : len (Seal key nonce p ad) = len p + 16;
  Open_Seal key nonce p ad : Open key nonce (Seal key nonce p ad) ad = Some p
}.

Definition Overhead : Z := 16.

Section operations.
Context `{A : AEAD}.

Definition EncryptChunk (material : KeyMaterial) (c : ChunkContext) (plaintext : list byte)
    : result TransferError (list byte) :=
  if ChunkSize <? len plaintext then Err ErrInvalid
  else match prepare material c (len plaintext) with
       | Err e => Err e
       | Ok (nonce, ad) => Ok (Seal (Key material) nonce plaintext ad)
       end.

Definition DecryptChunk (material : KeyMaterial) (c : ChunkContext) (ciphertext : list byte)
    : result TransferError (list byte) :=
  let plaintextLength := len ciphertext - Overhead in
  if (plaintextLength <? 0) || (ChunkSize <? plaintextLength) then Err ErrInvalid
  else match prepare material c plaintextLength with
       | Err e => Err e
       | Ok (nonce, ad) =>
           match Open (Key material) nonce ciphertext ad with
           | None => Err ErrAuthentication
           | Some plaintext => Ok plaintext
           end
       end.

Definition EncryptRecord (material : KeyMaterial) (c : RecordContext) (plaintext : list byte)
    : result TransferError (list byte) :=
  if ChunkSize <? len plaintext then Err ErrInvalid
  else match prepareRecord material c (len plaintext) with
       | Err e => Err e
       | Ok (nonce, ad) => Ok (Seal (Key material) nonce plaintext ad)
       end.

Definition DecryptRecord (material : KeyMaterial) (c : RecordContext) (ciphertext : list byte)
    : result TransferError (list byte) :=
  let plaintextLength := len ciphertext - Overhead in
  if (plaintextLength <? 0) || (ChunkSize <? plaintextLength) then Err ErrInvalid
  else match prepareRecord material c plaintextLength with
       | Err e => Err e
       | Ok (nonce, ad) =>
           match Open (Key material) nonce ciphertext ad with
           | None => Err ErrAuthentication
           | Some plaintext => Ok plaintext
           end
       end.

Definition manifestContext (c : RecordContext) : RecordContext :=
  (c <| rType := RecordFinalManifest |>) <| rOrdinal := 0 |>.
Definition receiptContext (c : RecordContext) : RecordContext :=
  (c <| rType := RecordFinalReceipt |>) <| rOrdinal := 0 |>.

Definition EncryptManifest (material : KeyMaterial) (c : RecordContext) (manifest : Manifest)
    : result TransferError (list byte) :=
  match Manifest_MarshalBinary manifest with
  | Err e => Err e
  | Ok plaintext => EncryptRecord material (manifestContext c) plaintext
  end.

Definition DecryptManifest (material : KeyMaterial) (c : RecordContext) (ciphertext : list byte)
    : result TransferError Manifest :=
  match DecryptRecord material (manifestContext c) ciphertext with
  | Err e => Err e
  | Ok plaintext => ParseManifest plaintext
  end.

Definition EncryptFinalReceipt (material : KeyMaterial) (c : RecordContext) (receipt : FinalReceipt)
    : result TransferError (list byte) :=
  match FinalReceipt_MarshalBinary receipt with
  | Err e => Err e
  | Ok plaintext => EncryptRecord material (receiptContext c) plaintext
  end.

Definition DecryptFinalReceipt (material : KeyMaterial) (c : RecordContext) (ciphertext : list byte)
    : result TransferError FinalReceipt :=
  match DecryptRecord material (receiptContext c) ciphertext with
  | Err e => Err e
  | Ok plaintext => ParseFinalReceipt plaintext
  end.

End operations.
