(* ===== verification/TransferCryptoProps.v ===== *)
(** * What the transfer encryption binds

    The additional data of a ciphertext determines its whole context, and the nonce
    determines which chunk or record of a transfer it is; key material and the sealed
    records round trip. *)
From S2P Require Import Prelude.
From S2P Require Import Codec.
From S2P Require Import TransferCodec.
From S2P Require Import TransferManifest.
From S2P Require Import TransferCrypto.
Set Warnings "-clear-no-such-hyp".

(** ** Ranges of the fields' types *)
Record chunk_typed (c : ChunkContext) : Prop := {
  ct_ihash : length (cInitiatorCertificateHash c) = 32%nat;
  ct_rhash : length (cResponderCertificateHash c) = 32%nat;
  ct_direction : 0 <= cDirection c < 256;
  ct_generation : 0 <= cTransferGeneration c < 256 ^ 8;
  ct_file : 0 <= cFileOrdinal c < 256 ^ 8;
  ct_chunk : 0 <= cChunkOrdinal c < 256 ^ 8 }.

Record record_typed (c : RecordContext) : Prop := {
  rc_ihash : length (rInitiatorCertificateHash c) = 32%nat;
  rc_rhash : length (rResponderCertificateHash c) = 32%nat;
  rc_direction : 0 <= rDirection c < 256;
  rc_type : 0 <= rType c < 256;
  rc_generation : 0 <= rTransferGeneration c < 256 ^ 8;
  rc_ordinal : 0 <= rOrdinal c < 256 ^ 8 }.

Definition material_typed (k : KeyMaterial) : Prop :=
  length (Key k) = 32%nat /\ length (NoncePrefix k) = 8%nat.

(** ** Reading additional data back

    No code parses additional data; these decoders state that it could be. *)
Definition d_bool : Decoder bool := v ← d_byte; mret (v =? 1).

Definition d_chunkData : Decoder (ChunkContext * Z) :=
  _ ← d_magic (bytes "PBTC"); _ ← d_byte;
  account ← d_string 128; device ← d_string 128; machine ← d_string 128;
  ihash ← d_copy 32; rhash ← d_copy 32; operation ← d_string 128; transfer ← d_string 128;
  direction ← d_byte; generation ← d_uint64; file ← d_uint64; chunk ← d_uint64;
  n ← d_uint32; final ← d_bool;
  mret (mkChunkContext account device machine ihash rhash operation transfer direction generation
          file chunk final, n).

Definition d_recordData : Decoder (RecordContext * Z) :=
  _ ← d_magic (bytes "PBTR"); _ ← d_byte;
  account ← d_string 128; device ← d_string 128; machine ← d_string 128;
  ihash ← d_copy 32; rhash ← d_copy 32; operation ← d_string 128; transfer ← d_string 128;
  direction ← d_byte; type ← d_byte; generation ← d_uint64; ordinal ← d_uint64; n ← d_uint32;
  mret (mkRecordContext account device machine ihash rhash operation transfer direction generation
          type ordinal, n).

Lemma Decodes_bool b : Decodes d_bool (PutBool b) b.
Proof.
  replace b with ((if b then 1 else 0) =? 1) at 2 by (by destruct b).
  apply (Decodes_bind_ret _ (fun v => v =? 1)).
  destruct b; [apply (Decodes_byte 1)|apply (Decodes_byte 0)]; lia.
Qed.

Lemma forallb_identifier l :
  forallb identifier l = true -> Forall (fun v => identifier v = true /\ 0 < len v <= 128) l.
Proof.
  intros H. rewrite forallb_forall in H. apply Forall_forall. intros v Hv.
  apply list_elem_of_In in Hv. specialize (H v Hv). split; [done|by apply identifier_length].
Qed.

Ltac identifier_bounds :=
  match goal with
  | H : negb (forallb identifier _) = false |- _ =>
      apply negb_false_iff, forallb_identifier in H; rewrite !Forall_cons in H;
      destruct H as ((?&?)&(?&?)&(?&?)&(?&?)&(?&?)&_)
  end.

Lemma chunkAdditionalData_reads c n ad :
  chunk_typed c -> chunkAdditionalData c n = Ok ad -> Decodes d_chunkData ad (c, n).
Proof.
  intros [] H. unfold chunkAdditionalData in H. repeat case_match; try done. apply Ok_inj in H as <-.
  identifier_bounds. bool_hyps. unfold lengthInRange, ChunkSize, ProtocolVersion in *. bool_hyps.
  destruct c as [ac dv mc ih rh op tr dr gn fl ck fin]; cbn [cAccountID cDeviceID cMachineID cInitiatorCertificateHash cFinal
    cResponderCertificateHash cOperationID cTransferID cDirection cTransferGeneration cFileOrdinal
    cChunkOrdinal] in *.
  pose proof (Decodes_bool fin). unfold d_chunkData. decode_fields.
Qed.

Lemma recordAdditionalData_reads c n ad :
  record_typed c -> recordAdditionalData c n = Ok ad -> Decodes d_recordData ad (c, n).
Proof.
  intros [] H. unfold recordAdditionalData in H. repeat case_match; try done. apply Ok_inj in H as <-.
  identifier_bounds. bool_hyps. unfold lengthInRange, ChunkSize, ProtocolVersion in *. bool_hyps.
  destruct c as [ac dv mc ih rh op tr dr gn ty od]; cbn [rAccountID rDeviceID rMachineID rInitiatorCertificateHash
    rResponderCertificateHash rOperationID rTransferID rDirection rTransferGeneration rType
    rOrdinal] in *.
  unfold d_recordData. decode_fields.
Qed.

(** ** Binding of the context *)
Lemma chunkAdditionalData_inj c n c' n' ad :
  chunk_typed c -> chunk_typed c' ->
  chunkAdditionalData c n = Ok ad -> chunkAdditionalData c' n' = Ok ad -> c = c' /\ n = n'.
Proof.
  intros T T' H H'. apply chunkAdditionalData_reads in H, H'; try done.
  destruct (Decodes_inj _ _ _ _ _ [] [] H H') as [[= -> ->] _]; done.
Qed.

Lemma recordAdditionalData_inj c n c' n' ad :
  record_typed c -> record_typed c' ->
  recordAdditionalData c n = Ok ad -> recordAdditionalData c' n' = Ok ad -> c = c' /\ n = n'.
Proof.
  intros T T' H H'. apply recordAdditionalData_reads in H, H'; try done.
  destruct (Decodes_inj _ _ _ _ _ [] [] H H') as [[= -> ->] _]; done.
Qed.

Lemma chunk_not_record c n c' n' ad :
  chunkAdditionalData c n = Ok ad -> recordAdditionalData c' n' <> Ok ad.
Proof.
  unfold chunkAdditionalData, recordAdditionalData. repeat case_match; try done.
  intros E E'. apply Ok_inj in E, E'. rewrite <- E in E'.
  apply (f_equal (fun l => nth 3 l x00)) in E'. discriminate E'.
Qed.

(** What is sealed under the key of a transfer: a chunk or a record, at its context. *)
Inductive Sealed := SChunk (c : ChunkContext) | SRecord (c : RecordContext).

Definition sealed_typed (s : Sealed) : Prop :=
  match s with SChunk c => chunk_typed c | SRecord c => record_typed c end.
Definition sealed_data (s : Sealed) (n : Z) : result TransferError (list byte) :=
  match s with SChunk c => chunkAdditionalData c n | SRecord c => recordAdditionalData c n end.
Definition sealed_nonce (material : KeyMaterial) (s : Sealed) : list byte :=
  match s with SChunk c => chunkNonce material c | SRecord c => recordNonce material c end.

(** The place of a ciphertext in its transfer. *)
Definition slot (s : Sealed) : Z * Z + Z * Z :=
  match s with
  | SChunk c => inl (cFileOrdinal c, cChunkOrdinal c)
  | SRecord c => inr (rType c, rOrdinal c)
  end.

Lemma PutUint64_inj a b x y :
  0 <= a < 256 ^ 8 -> 0 <= b < 256 ^ 8 -> PutUint64 a ++ x = PutUint64 b ++ y -> a = b /\ x = y.
Proof. intros Ha Hb. apply (Decodes_inj d_uint64); by apply Decodes_uint. Qed.

Lemma PutUint64_inj_last a b :
  0 <= a < 256 ^ 8 -> 0 <= b < 256 ^ 8 -> PutUint64 a = PutUint64 b -> a = b.
Proof. intros Ha Hb E. by apply (PutUint64_inj a b [] []); rewrite ?E. Qed.

(** The type in the top byte and the ordinal below it. *)
Lemma record_word t o :
  0 <= t < 256 -> 0 <= o <= maxRecordOrdinal ->
  Z.lor (u64 (Z.shiftl t 56)) o = t * 2 ^ 56 + o.
Proof.
  intros Ht Ho. unfold maxRecordOrdinal in Ho. rewrite Z.shiftl_mul_pow2 by lia.
  rewrite u64_id by (unfold two64; lia).
  assert (HD : Z.land (t * 2 ^ 56) o = 0).
  { apply Z.bits_inj'. intros k Hk. rewrite Z.land_spec, Z.bits_0.
    destruct (Z_lt_le_dec k 56) as [Hlt|Hge].
    - by rewrite Z.mul_pow2_bits_low.
    - rewrite <- (Z.mod_small o (2 ^ 56)), (Z.mod_pow2_bits_high o) by lia. apply andb_false_r. }
  by rewrite <- Z.lxor_lor, Z.add_nocarry_lxor.
Qed.

Lemma chunk_ordinal_not_record c n ad :
  chunkAdditionalData c n = Ok ad -> cFileOrdinal c <> recordFileOrdinal.
Proof. unfold chunkAdditionalData. repeat case_match; try done. bool_hyps. done. Qed.

Lemma record_ordinal_bounded c n ad :
  recordAdditionalData c n = Ok ad -> rOrdinal c <= maxRecordOrdinal.
Proof. unfold recordAdditionalData. repeat case_match; try done. bool_hyps. lia. Qed.

(** The words of a nonce after its prefix. *)
Definition nonce_words (s : Sealed) : Z * Z :=
  match s with
  | SChunk c => (cFileOrdinal c, cChunkOrdinal c)
  | SRecord c => (recordFileOrdinal, rType c * 2 ^ 56 + rOrdinal c)
  end.

Lemma sealed_nonce_words material s n ad :
  sealed_typed s -> sealed_data s n = Ok ad ->
  sealed_nonce material s
  = NoncePrefix material ++ PutUint64 (nonce_words s).1 ++ PutUint64 (nonce_words s).2 /\
  0 <= (nonce_words s).1 < 256 ^ 8 /\ 0 <= (nonce_words s).2 < 256 ^ 8.
Proof.
  destruct s as [c|c]; simpl; intros [] H; [done|].
  apply record_ordinal_bounded in H. unfold recordNonce. rewrite record_word by lia.
  unfold maxRecordOrdinal, recordFileOrdinal, maxUint64 in *. repeat split; lia.
Qed.

(** The nonce of a ciphertext determines its slot, and a slot its nonce. *)
Lemma nonce_slot material s s' n n' ad ad' :
  sealed_typed s -> sealed_typed s' -> sealed_data s n = Ok ad -> sealed_data s' n' = Ok ad' ->
  sealed_nonce material s = sealed_nonce material s' <-> slot s = slot s'.
Proof.
  intros T T' H H'.
  destruct (sealed_nonce_words material s n ad T H) as (->&B1&B2).
  destruct (sealed_nonce_words material s' n' ad' T' H') as (->&B1'&B2').
  transitivity (nonce_words s = nonce_words s').
  - split; [|by intros ->]. intros E. apply app_inv_head in E.
    apply PutUint64_inj in E as [E1 E2]; [|done..]. apply PutUint64_inj_last in E2; [|done..].
    destruct (nonce_words s), (nonce_words s'). simpl in *. congruence.
  - destruct s as [c|c], s' as [c'|c']; simpl in *.
    + split; congruence.
    + apply chunk_ordinal_not_record in H. split; congruence.
    + apply chunk_ordinal_not_record in H'. split; congruence.
    + apply record_ordinal_bounded in H, H'. destruct T, T'. unfold maxRecordOrdinal in *.
      split; intros [= E]; f_equal; [|congruence]. f_equal; lia.
Qed.

(** ** Round trips *)
Lemma ParseKeyMaterial_marshalled k v :
  material_typed k -> material_MarshalBinary k = Ok v -> ParseKeyMaterial v = Ok k.
Proof.
  intros [HK HP]. unfold material_MarshalBinary. case_match eqn:Z0; [done|].
  intros E. apply Ok_inj in E as <-.
  destruct k as [key prefix]; cbn [Key NoncePrefix] in *.
  unfold ParseKeyMaterial.
  assert (Hl : len (bytes "PBTK" ++ PutByte ProtocolVersion ++ key ++ prefix) = 45).
  { unfold len. rewrite !length_app, HK, HP. reflexivity. }
  rewrite Hl. change (negb (45 =? keyRecordSize)) with false.
  change (sub 0 4 (bytes "PBTK" ++ PutByte ProtocolVersion ++ key ++ prefix)) with (bytes "PBTK").
  rewrite bool_decide_true by done.
  change (nth 4 _ x00) with (byte_of_Z ProtocolVersion).
  change (negb (Z_of_byte _ =? ProtocolVersion)) with false. cbn [orb negb].
  replace (sub 5 37 _) with key.
  2: { symmetry. rewrite app_assoc. rewrite sub_skip by (simpl; lia). apply sub_here. done. }
  replace (sub 37 45 _) with prefix.
  2: { symmetry. rewrite app_assoc, sub_skip, sub_skip by (simpl; lia). rewrite HK. by apply sub_all. }
  by rewrite Z0.
Qed.

Lemma ParseKeyMaterial_canonical k v :
  ParseKeyMaterial v = Ok k -> material_typed k /\ material_MarshalBinary k = Ok v.
Proof.
  unfold ParseKeyMaterial. case_match eqn:H1; [done|]. case_match eqn:H2; [done|].
  intros E. apply Ok_inj in E as <-. bool_hyps. unfold keyRecordSize in *.
  assert (Hl : length v = 45%nat) by (unfold len in *; lia).
  split; [split; simpl; by rewrite sub_length by lia|].
  unfold material_MarshalBinary. cbn [Key NoncePrefix].
  destruct (_ || _) eqn:E'; [bool_hyps; apply orb_true_iff in E' as []; congruence|].
  f_equal. rewrite <- (sub_whole 45 v Hl) at 3.
  rewrite <- (sub_glue 0 4 45), <- (sub_glue 4 5 45), <- (sub_glue 5 37 45) by lia.
  f_equal; [congruence|]. f_equal. rewrite nth_sub by lia. unfold PutByte. f_equal.
  apply Z_of_byte_inj. by change (Z_of_byte (byte_of_Z ProtocolVersion)) with ProtocolVersion.
Qed.

Section sealing.
Context `{A : AEAD} `{L : !AEADLaws A}.

(** Opening with the context of the seal gives the plaintext. *)
Lemma DecryptChunk_EncryptChunk material c p ct :
  EncryptChunk material c p = Ok ct -> DecryptChunk material c ct = Ok p.
Proof.
  unfold EncryptChunk, DecryptChunk. case_match eqn:H1; [done|].
  destruct (prepare material c (len p)) as [[nonce ad]|e] eqn:H2; [|done].
  intros E. apply Ok_inj in E as <-. rewrite Seal_length. unfold Overhead.
  replace (len p + 16 - 16) with (len p) by lia. rewrite H1, H2, Open_Seal.
  by rewrite (proj2 (Z.ltb_ge _ _) (len_nonneg p)).
Qed.

Lemma DecryptRecord_EncryptRecord material c p ct :
  EncryptRecord material c p = Ok ct -> DecryptRecord material c ct = Ok p.
Proof.
  unfold EncryptRecord, DecryptRecord. case_match eqn:H1; [done|].
  destruct (prepareRecord material c (len p)) as [[nonce ad]|e] eqn:H2; [|done].
  intros E. apply Ok_inj in E as <-. rewrite Seal_length. unfold Overhead.
  replace (len p + 16 - 16) with (len p) by lia. rewrite H1, H2, Open_Seal.
  by rewrite (proj2 (Z.ltb_ge _ _) (len_nonneg p)).
Qed.

Lemma DecryptManifest_EncryptManifest material c m ct :
  manifest_typed m -> EncryptManifest material c m = Ok ct -> DecryptManifest material c ct = Ok m.
Proof.
  intros T. unfold EncryptManifest, DecryptManifest. case_match eqn:E; [|done]. intros H.
  rewrite (DecryptRecord_EncryptRecord _ _ _ _ H). by apply ParseManifest_marshalled.
Qed.

Lemma DecryptFinalReceipt_EncryptFinalReceipt material c r ct :
  receipt_typed r -> EncryptFinalReceipt material c r = Ok ct ->
  DecryptFinalReceipt material c ct = Ok r.
Proof.
  intros T. unfold EncryptFinalReceipt, DecryptFinalReceipt. case_match eqn:E; [|done]. intros H.
  rewrite (DecryptRecord_EncryptRecord _ _ _ _ H). by apply ParseFinalReceipt_marshalled.
Qed.

End sealing.
