(* ===== verification/TransferFile.v ===== *)
(** * Staging an encrypted file

    Models [internal/filetransfer/encrypted.go], the chunk reader and writer, and
    [stageEncryptedFile] of [internal/inbox/encrypted.go], which receives one file into
    a staging file that survives failed attempts and restarts.

    The source is the bytes a positioned read sees; the staging file is its bytes, and
    the writer's position is its end.  The results of reads, writes, seeks and requests
    are arguments; a write that ends with the process is [wDied].  [hash.Hash] is the
    bytes written to it. *)
From S2P Require Import Prelude.
From S2P Require Import Sha256.
From S2P Require Import TransferCodec.
From S2P Require Import TransferManifest.
From S2P Require Import TransferCrypto.
Set Warnings "-clear-no-such-hyp".

Inductive FileError :=
| ErrSource | ErrOrdinal | ErrEOF | ErrReadAt | ErrUnexpectedRead
| ErrDestination | ErrResumeOffset | ErrResumeOrdinal | ErrSeek | ErrUnavailable
| ErrCrypto (e : TransferError) | ErrChunkLength | ErrWriteFailed | ErrIncomplete | ErrDigest
| ErrFetch | ErrSync.

#[export] Instance FileError_eq_dec : EqDecision FileError.
Proof. solve_decision. Defined.

Section file.
Context `{A : AEAD}.

(** ** The reader *)
Record EncryptedChunkReader := mkReader {
  sourceSize : Z; rmaterial : KeyMaterial; rcontext : ChunkContext; ropen : bool }.
#[global] Instance EncryptedChunkReader_eta : Eta EncryptedChunkReader :=
  fun r => mkReader (sourceSize r) (rmaterial r) (rcontext r) (ropen r).

(** [NewEncryptedChunkReader] for a source that supports positioned reads. *)
Definition NewEncryptedChunkReader (size : Z) (material : KeyMaterial) (c : ChunkContext)
    : result FileError EncryptedChunkReader :=
  if (size <? 0) || negb (ValidateChunkContext material c) || negb (cChunkOrdinal c =? 0) || cFinal c
  then Err ErrSource else Ok (mkReader size material c true).

Definition reader_Close (r : EncryptedChunkReader) : EncryptedChunkReader :=
  (r <| rmaterial := mkMaterial (zero_bytes 32) (zero_bytes 8) |>) <| ropen := false |>.

(** [ReaderAt.ReadAt] of a regular file: fewer bytes only at its end, with an error. *)
Definition ReadAt (content : list byte) (length offset : Z) : list byte :=
  ztake length (zdrop offset content).

(** [ReadChunk] up to the call of [EncryptChunk]: the context and the plaintext. *)
Definition readPlain (r : EncryptedChunkReader) (content : list byte) (ordinal : Z)
    : result FileError (ChunkContext * list byte) :=
  if negb (ropen r) || (maxUint64 / ChunkSize <? ordinal) then Err ErrOrdinal
  else
    let offset := u64 (ordinal * ChunkSize) in
    if (sourceSize r <=? offset) && negb ((sourceSize r =? 0) && (ordinal =? 0)) then Err ErrEOF
    else
      let remaining := u64 (sourceSize r - offset) in
      let length := if remaining <? ChunkSize then remaining else ChunkSize in
      let plaintext := if 0 <? length then ReadAt content length offset else [] in
      if (0 <? length) && negb (len plaintext =? length) then Err ErrReadAt
      else Ok (((rcontext r) <| cChunkOrdinal := ordinal |>)
                 <| cFinal := u64 (offset + length) =? sourceSize r |>, plaintext).

Definition ReadChunk (r : EncryptedChunkReader) (content : list byte) (ordinal : Z)
    : result FileError (list byte * bool) :=
  match readPlain r content ordinal with
  | Err e => Err e
  | Ok (c, plaintext) =>
      match EncryptChunk (rmaterial r) c plaintext with
      | Err e => Err (ErrCrypto e)
      | Ok ciphertext => Ok (ciphertext, cFinal c)
      end
  end.

(** ** The writer *)
Record EncryptedChunkWriter := mkWriter {
  wmaterial : KeyMaterial; wcontext : ChunkContext; expected : ManifestFile;
  whash : list byte; next : Z; written : Z; wpoisoned : bool; completed : bool }.
#[global] Instance EncryptedChunkWriter_eta : Eta EncryptedChunkWriter :=
  fun w => mkWriter (wmaterial w) (wcontext w) (expected w) (whash w) (next w) (written w)
    (wpoisoned w) (completed w).

Definition writer_Close (w : EncryptedChunkWriter) : EncryptedChunkWriter :=
  (w <| wmaterial := mkMaterial (zero_bytes 32) (zero_bytes 8) |>) <| wpoisoned := true |>.

Definition NewEncryptedChunkWriter (material : KeyMaterial) (c : ChunkContext)
    (expected : ManifestFile) : result FileError EncryptedChunkWriter :=
  if negb (validateManifestFile expected) || negb (ValidateChunkContext material c)
     || negb (cFileOrdinal c =? FileOrdinal expected) || negb (cChunkOrdinal c =? 0) || cFinal c
  then Err ErrDestination
  else Ok (mkWriter material c expected [] 0 0 false false).

(** Which of the file operations of a resumption fail. *)
Record ResumeIO := mkResumeIO { seekEnd : bool; seekStart : bool; copyFails : bool; seekBack : bool }.

Definition NewResumingEncryptedChunkWriter (file : list byte) (io : ResumeIO)
    (material : KeyMaterial) (c : ChunkContext) (expected : ManifestFile)
    : result FileError (EncryptedChunkWriter * Z) :=
  match NewEncryptedChunkWriter material c expected with
  | Err e => Err e
  | Ok w =>
      let size := len file in
      if seekEnd io || (Size expected <? size)
         || (size <? Size expected) && negb (size mod ChunkSize =? 0)
      then Err ErrResumeOffset
      else
        let committed := if size =? Size expected then ChunkCount expected else size / ChunkSize in
        if ChunkCount expected <? committed then Err ErrResumeOrdinal
        else if seekStart io || copyFails io || seekBack io then Err ErrSeek
        else Ok (((w <| whash := file |>) <| next := committed |>) <| written := size |>, committed)
  end.

(** The result of [writer.Write]: how many bytes reached the file, and the error. *)
Record WriteResult := mkWrite { wCount : Z; wErr : bool }.

Definition poisonW (w : EncryptedChunkWriter) : EncryptedChunkWriter := w <| wpoisoned := true |>.

(** The context of the next chunk. *)
Definition nextContext (w : EncryptedChunkWriter) : ChunkContext :=
  ((wcontext w) <| cChunkOrdinal := next w |>)
    <| cFinal := u64 (next w + 1) =? ChunkCount (expected w) |>.

Definition WriteChunk (w : EncryptedChunkWriter) (file ciphertext : list byte) (wr : WriteResult)
    : EncryptedChunkWriter * list byte * result FileError unit :=
  if wpoisoned w || completed w || (ChunkCount (expected w) <=? next w)
  then (w, file, Err ErrUnavailable)
  else
    let c := nextContext w in
    match DecryptChunk (wmaterial w) c ciphertext with
    | Err e => (poisonW w, file, Err (ErrCrypto e))
    | Ok plaintext =>
        let want := if cFinal c then u64 (Size (expected w) - written w) else ChunkSize in
        if negb (len plaintext =? want) then (poisonW w, file, Err ErrChunkLength)
        else
          let file := file ++ ztake (wCount wr) plaintext in
          if wErr wr || negb (wCount wr =? len plaintext)
          then (poisonW w, file, Err ErrWriteFailed)
          else (((w <| whash := whash w ++ plaintext |>) <| written := u64 (written w + wCount wr) |>)
                  <| next := u64 (next w + 1) |>, file, Ok tt)
    end.

(** [Complete]; the comparison is of all bytes, as [subtle.ConstantTimeCompare]. *)
Definition Complete (w : EncryptedChunkWriter) : EncryptedChunkWriter * result FileError unit :=
  if wpoisoned w || completed w || negb (next w =? ChunkCount (expected w))
     || negb (written w =? Size (expected w))
  then (w, Err ErrIncomplete)
  else if negb (equalBytes (Sum256 (whash w)) (PlaintextSHA256 (expected w)))
  then (poisonW w, Err ErrDigest)
  else (w <| completed := true |>, Ok tt).

(** ** Staging *)

(** One iteration's results: the response of [EncryptedChunk], the write (or the death
    of the process during it), whether [Truncate] and [Sync] succeed. *)
Record StageIO := mkStageIO {
  fetched : option (list byte); wrote : WriteResult; wDied : bool; truncates : bool; syncs : bool }.

(** How an attempt ends: with the call's result, or with the process. *)
Inductive StageEnd := Returned (r : result FileError unit) | Died.

(** [os.File.Truncate], which also extends. *)
Definition Truncate (size : Z) (file : list byte) : list byte :=
  ztake size file ++ zero_bytes (Z.to_nat (size - len file)).

(** The loop of [stageEncryptedFile]; the process dies when [ios] ends. *)
Fixpoint stageLoop (ios : list StageIO) (ordinal : Z) (w : EncryptedChunkWriter) (file : list byte)
    : list byte * (EncryptedChunkWriter + StageEnd) :=
  if ChunkCount (expected w) <=? ordinal then (file, inl w)
  else
    match ios with
    | [] => (file, inr Died)
    | io :: ios =>
        match fetched io with
        | None => (file, inr (Returned (Err ErrFetch)))
        | Some ciphertext =>
            let '(w', file', r) := WriteChunk w file ciphertext (wrote io) in
            if wDied io then (file', inr Died)
            else
              match r with
              | Err e =>
                  (if truncates io then Truncate (ordinal * ChunkSize) file' else file',
                   inr (Returned (Err e)))
              | Ok _ =>
                  if negb (syncs io) then (file', inr (Returned (Err ErrSync)))
                  else stageLoop ios (u64 (ordinal + 1)) w' file'
              end
        end
    end.

(** The results of a whole attempt: of the resumption, of the iterations, of removing the
    staging file and of the last [Sync]. *)
Record AttemptIO := mkAttempt {
  resumeIO : ResumeIO; chunkIO : list StageIO; removes : bool; lastSync : bool }.

(** [stageEncryptedFile] on a staging file that holds [file] ([[]] when it is created):
    what it holds afterwards ([[]] when it was removed), and how the attempt ended. *)
Definition stageEncryptedFile (io : AttemptIO) (material : KeyMaterial) (c : ChunkContext)
    (expected : ManifestFile) (file : list byte) : list byte * StageEnd :=
  match NewResumingEncryptedChunkWriter file (resumeIO io) material c expected with
  | Err e => (file, Returned (Err e))
  | Ok (w, ordinal) =>
      match stageLoop (chunkIO io) ordinal w file with
      | (file, inr ended) => (file, ended)
      | (file, inl w) =>
          match (Complete w).2 with
          | Err e => (if removes io then [] else file, Returned (Err e))
          | Ok _ => (file, Returned (if lastSync io then Ok tt else Err ErrSync))
          end
      end
  end.

(** Attempts one after the other, over restarts of the process. *)
Fixpoint stageAttempts (ios : list AttemptIO) (material : KeyMaterial) (c : ChunkContext)
    (expected : ManifestFile) (file : list byte) : list byte * list StageEnd :=
  match ios with
  | [] => (file, [])
  | io :: ios =>
      let '(file', e) := stageEncryptedFile io material c expected file in
      let '(file'', es) := stageAttempts ios material c expected file' in
      (file'', e :: es)
  end.

End file.
