(* ===== verification/TransferFileProps.v ===== *)
(** * What a staging file holds

    Over any sequence of attempts, whatever the host answers, a staging file holds a
    prefix of the sender's file, and an attempt that succeeds leaves exactly that file;
    an attempt against an honest host completes from whatever attempts before it left,
    unless a write was torn by the end of the process. *)
From S2P Require Import Prelude.
From S2P Require Import Sha256.
From S2P Require Import TransferCodec.
From S2P Require Import TransferManifest.
From S2P Require Import TransferCrypto.
From S2P Require Import TransferCryptoProps.
From S2P Require Import TransferFile.
Set Warnings "-clear-no-such-hyp".

Lemma ChunkSize_pos : 0 < ChunkSize.
Proof. reflexivity. Qed.

Lemma wantChunks_spec s :
  0 <= s ->
  1 <= wantChunks s /\ s <= wantChunks s * ChunkSize /\
  ((wantChunks s - 1) * ChunkSize < s \/ (s = 0 /\ wantChunks s = 1)).
Proof.
  intros Hs. unfold wantChunks, ChunkSize.
  pose proof (Z.div_mod s 1048576 ltac:(lia)). pose proof (Z.mod_pos_bound s 1048576 ltac:(lia)).
  pose proof (Z.div_pos s 1048576 ltac:(lia) ltac:(lia)).
  repeat case_match; bool_hyps; lia.
Qed.

Lemma ztake_prefix {A} n (l : list A) : ztake n l `prefix_of` l.
Proof. exists (zdrop n l). by rewrite ztake_zdrop. Qed.

Lemma prefix_is_ztake {A} (k l : list A) : k `prefix_of` l -> k = ztake (len k) l.
Proof. intros [x ->]. by rewrite ztake_len_app. Qed.

Section props.
Context `{A : AEAD} `{L : !AEADLaws A}.

(** ** Chunks of a source *)
Definition chunkOf (F : list byte) (i : Z) : list byte := ztake ChunkSize (zdrop (i * ChunkSize) F).
Definition isFinal (F : list byte) (i : Z) : bool := len F <=? (i + 1) * ChunkSize.

(** [i] is the ordinal of a chunk of [F]; an empty file has one empty chunk. *)
Definition hasChunk (F : list byte) (i : Z) : Prop :=
  0 <= i /\ (i * ChunkSize < len F \/ (len F = 0 /\ i = 0)).

Definition atOrdinal (c : ChunkContext) (F : list byte) (i : Z) : ChunkContext :=
  (c <| cChunkOrdinal := i |>) <| cFinal := isFinal F i |>.

Lemma len_chunkOf F i :
  hasChunk F i -> len (chunkOf F i) = Z.min ChunkSize (len F - i * ChunkSize).
Proof.
  intros [Hi Hc]. unfold chunkOf, ChunkSize in *. unfold len, ztake, zdrop in *.
  rewrite length_take, length_drop. lia.
Qed.

Lemma ReadAt_chunk F i n :
  hasChunk F i -> n = Z.min ChunkSize (len F - i * ChunkSize) ->
  (if 0 <? n then ReadAt F n (i * ChunkSize) else []) = chunkOf F i.
Proof.
  intros HC Hn. pose proof (len_chunkOf F i HC) as Hlen. pose proof ChunkSize_pos as Hpos.
  assert (Hi : 0 <= i * ChunkSize <= len F).
  { destruct HC as [Hi [HC|[HC ->]]]; [|lia]. split; [by apply Z.mul_nonneg_nonneg; lia|lia]. }
  destruct (0 <? n) eqn:Hp; bool_hyps.
  - unfold ReadAt, chunkOf. destruct (Z.le_gt_cases ChunkSize (len F - i * ChunkSize)) as [H|H].
    + f_equal. lia.
    + rewrite !ztake_all; [done|rewrite len_zdrop by lia; lia..].
  - symmetry. apply len_zero_nil. pose proof (len_nonneg (chunkOf F i)). lia.
Qed.

Lemma chunk_end F i n :
  hasChunk F i -> len F < 2 ^ 63 -> n = Z.min ChunkSize (len F - i * ChunkSize) ->
  (u64 (i * ChunkSize + n) =? len F) = isFinal F i.
Proof.
  intros [Hi HC] HF Hn. pose proof (len_nonneg F). unfold isFinal, ChunkSize in *.
  rewrite u64_id by (unfold two64; lia).
  apply eq_true_iff_eq. rewrite Z.eqb_eq, Z.leb_le. lia.
Qed.

Lemma chunk_remaining (F : list byte) i :
  (if len F - i * ChunkSize <? ChunkSize then len F - i * ChunkSize else ChunkSize)
  = Z.min ChunkSize (len F - i * ChunkSize).
Proof. case_match; bool_hyps; lia. Qed.

Lemma chunk_offset F i :
  hasChunk F i -> len F < 2 ^ 63 ->
  u64 (i * ChunkSize) = i * ChunkSize /\ u64 (len F - i * ChunkSize) = len F - i * ChunkSize /\
  (maxUint64 / ChunkSize <? i) = false.
Proof.
  intros [Hi HC] HF. assert (Hmax : maxUint64 / ChunkSize = 17592186044415) by reflexivity.
  rewrite Hmax, Z.ltb_ge. unfold ChunkSize in *.
  split; [|split]; [apply u64_id; unfold two64; lia..|lia].
Qed.

(** The chunk at an ordinal, as the reader reads it. *)
Lemma readPlain_chunk r F i :
  sourceSize r = len F -> len F < 2 ^ 63 -> ropen r = true -> hasChunk F i ->
  readPlain r F i = Ok (atOrdinal (rcontext r) F i, chunkOf F i).
Proof.
  intros HS HF HO HC. destruct (chunk_offset F i HC HF) as (E1&E2&E3).
  unfold readPlain. rewrite HS, HO, E1, E2, E3, chunk_remaining. cbn [negb orb].
  rewrite (ReadAt_chunk F i _ HC eq_refl), (chunk_end F i _ HC HF eq_refl), len_chunkOf by done.
  rewrite Z.eqb_refl, andb_false_r.
  destruct ((len F <=? i * ChunkSize) && _) eqn:E; [|done]. exfalso. bool_hyps.
  destruct HC as [Hi [HC|[HC ->]]]; [lia|]. by rewrite HC in *.
Qed.

(** There is nothing at any other ordinal. *)
Lemma readPlain_hasChunk r F i x :
  sourceSize r = len F -> len F < 2 ^ 63 -> 0 <= i -> readPlain r F i = Ok x ->
  hasChunk F i /\ ropen r = true.
Proof.
  intros HS HF Hi. unfold readPlain. rewrite HS. case_match eqn:H1; [done|]. bool_hyps.
  assert (Hmax : maxUint64 / ChunkSize = 17592186044415) by reflexivity.
  rewrite (u64_id (i * ChunkSize)) by (unfold two64, ChunkSize in *; lia).
  case_match eqn:H2; [done|]. intros _. split; [|done]. split; [done|].
  apply andb_false_iff in H2 as [H2|H2]; bool_hyps; [by left|by right].
Qed.

Lemma Ok_pair_inj {E X Y} (x x' : X) (y y' : Y) :
  @Ok E (X * Y) (x, y) = Ok (x', y') -> x = x' /\ y = y'.
Proof. by intros [= -> ->]. Qed.

Lemma readPlain_inv r F i c p :
  sourceSize r = len F -> len F < 2 ^ 63 -> 0 <= i -> readPlain r F i = Ok (c, p) ->
  hasChunk F i /\ c = atOrdinal (rcontext r) F i /\ p = chunkOf F i.
Proof.
  intros HS HF Hi HR. destruct (readPlain_hasChunk _ _ _ _ HS HF Hi HR) as [HC HO].
  rewrite (readPlain_chunk r F i HS HF HO HC) in HR. apply Ok_pair_inj in HR as [<- <-]. done.
Qed.

(** ** Authenticity

    [log] is everything sealed under the key of a transfer.  What the AEAD promises for
    one ciphertext: it opens only at the nonce and additional data of a seal, to what was
    sealed. *)
Section transfer.
Context (material : KeyMaterial) (c : ChunkContext) (e : ManifestFile) (F : list byte).
Context (log : list (Sealed * list byte)).

Definition unforged (nonce ciphertext ad : list byte) : Prop :=
  forall p, Open (Key material) nonce ciphertext ad = Some p ->
    exists s, (s, p) ∈ log /\ sealed_typed s /\ sealed_nonce material s = nonce /\
      sealed_data s (len p) = Ok ad.

(** The context at which the writer opens chunk [i]. *)
Definition chunkAt (i : Z) : ChunkContext :=
  (c <| cChunkOrdinal := i |>) <| cFinal := u64 (i + 1) =? ChunkCount e |>.

Definition authentic (ciphertext : list byte) : Prop :=
  forall i nonce ad, 0 <= i < ChunkCount e ->
    prepare material (chunkAt i) (len ciphertext - Overhead) = Ok (nonce, ad) ->
    unforged nonce ciphertext ad.

Definition attempt_authentic (io : AttemptIO) : Prop :=
  forall x ct, x ∈ chunkIO io -> fetched x = Some ct -> authentic ct.

(** The chunks sealed for this file of this transfer are those a reader of [F] sealed. *)
Definition fromSource : Prop :=
  forall c' p, (SChunk c', p) ∈ log ->
    (c' <| cChunkOrdinal := 0 |>) <| cFinal := false |> = c ->
    exists r i, rcontext r = c /\ sourceSize r = len F /\ 0 <= i /\
      readPlain r F i = Ok (c', p).

(** The manifest entry is the one of [F], and the fields have their types. *)
Record transfer_ok : Prop := {
  to_context : chunk_typed c;
  to_start : cChunkOrdinal c = 0 /\ cFinal c = false;
  to_valid : validateManifestFile e = true;
  to_typed : file_typed e;
  to_size : Size e = len F;
  to_len : len F < 2 ^ 63;
  to_source : fromSource }.

Hypothesis TO : transfer_ok.

Lemma chunkAt_typed i : 0 <= i < ChunkCount e -> chunk_typed (chunkAt i).
Proof.
  intros Hi. destruct (to_context TO), (to_typed TO). split; simpl; try done. lia.
Qed.

Lemma chunkAt_reset i : ((chunkAt i) <| cChunkOrdinal := 0 |>) <| cFinal := false |> = c.
Proof.
  destruct (to_start TO) as [H1 H2]. unfold chunkAt. destruct c; simpl in *. by subst.
Qed.

Lemma count_next i : 0 <= i < ChunkCount e -> u64 (i + 1) = i + 1.
Proof. intros Hi. destruct (to_typed TO). apply u64_id. unfold two64. lia. Qed.

Lemma count_wants : ChunkCount e = wantChunks (len F).
Proof. rewrite <- (to_size TO). apply (validateManifestFile_fields e), TO. Qed.

Lemma count_bounds :
  1 <= ChunkCount e /\ len F <= ChunkCount e * ChunkSize /\
  ((ChunkCount e - 1) * ChunkSize < len F \/ (len F = 0 /\ ChunkCount e = 1)).
Proof. rewrite count_wants. apply wantChunks_spec, len_nonneg. Qed.

(** A chunk that opens at ordinal [i] is the chunk [i] of the source, and the last one
    exactly when the manifest says so. *)
Lemma accepted_chunk i ct p :
  0 <= i < ChunkCount e -> authentic ct -> DecryptChunk material (chunkAt i) ct = Ok p ->
  hasChunk F i /\ p = chunkOf F i /\ isFinal F i = (i + 1 =? ChunkCount e).
Proof.
  intros Hi HA. unfold DecryptChunk. case_match eqn:H1; [done|].
  destruct (prepare _ _ _) as [[nonce ad]|] eqn:HP; [|done].
  destruct (Open _ _ _ _) as [p'|] eqn:HO; [|done]. intros [= ->].
  destruct (HA _ _ _ Hi HP _ HO) as (s&Hin&HT&_&HD).
  unfold prepare in HP. case_match; [done|]. destruct (chunkAdditionalData _ _) eqn:HC; [|done].
  injection HP as _ ->.
  destruct s as [c'|c']; simpl in *; [|by apply (chunk_not_record _ _ _ _ _ HC) in HD].
  destruct (chunkAdditionalData_inj _ _ _ _ _ HT (chunkAt_typed i Hi) HD HC) as [-> _].
  destruct (to_source TO _ _ Hin (chunkAt_reset i)) as (r&j&Hr&Hs&Hj&HR).
  destruct (readPlain_inv _ _ _ _ _ Hs (to_len TO) Hj HR) as (Hc&E&->). rewrite Hr in E.
  pose proof (f_equal cChunkOrdinal E) as E1. pose proof (f_equal cFinal E) as E2.
  simpl in E1, E2. rewrite (count_next i Hi) in E2. subst j. done.
Qed.

(** ** The writer's invariant *)
Record writer_ok (w : EncryptedChunkWriter) (file : list byte) : Prop := {
  wo_material : wmaterial w = material;
  wo_context : wcontext w = c;
  wo_expected : expected w = e;
  wo_hash : whash w = file;
  wo_written : written w = len file;
  wo_prefix : file `prefix_of` F;
  wo_next : 0 <= next w <= ChunkCount e;
  wo_partial : next w < ChunkCount e -> len file = next w * ChunkSize;
  wo_whole : next w = ChunkCount e -> file = F }.

Lemma append_chunk file i :
  file `prefix_of` F -> len file = i * ChunkSize -> hasChunk F i ->
  file ++ chunkOf F i = ztake ((i + 1) * ChunkSize) F.
Proof.
  intros HP HL [Hi _]. rewrite (prefix_is_ztake file F HP) at 1. rewrite HL. unfold chunkOf.
  pose proof ChunkSize_pos. rewrite ztake_ztake_zdrop by nia. f_equal. lia.
Qed.

Lemma append_part file i n :
  file `prefix_of` F -> len file = i * ChunkSize -> hasChunk F i ->
  (file ++ ztake n (chunkOf F i)) `prefix_of` F.
Proof.
  intros HP HL HC. transitivity (file ++ chunkOf F i).
  - apply prefix_app. apply ztake_prefix.
  - rewrite append_chunk by done. apply ztake_prefix.
Qed.

Lemma prefix_len {X} (k l : list X) : k `prefix_of` l -> len k <= len l.
Proof. intros [x ->]. rewrite len_app. pose proof (len_nonneg x). lia. Qed.

Lemma advance_ok w file n :
  writer_ok w file -> next w < ChunkCount e -> hasChunk F (next w) ->
  isFinal F (next w) = (next w + 1 =? ChunkCount e) -> n = len (chunkOf F (next w)) ->
  writer_ok (((w <| whash := whash w ++ chunkOf F (next w) |>)
                <| written := u64 (written w + n) |>) <| next := u64 (next w + 1) |>)
            (file ++ chunkOf F (next w)).
Proof.
  intros [] Hlt HC HF ->. specialize (wo_partial0 Hlt).
  pose proof (append_chunk file (next w) wo_prefix0 wo_partial0 HC) as HApp.
  assert (HP : (file ++ chunkOf F (next w)) `prefix_of` F) by (rewrite HApp; apply ztake_prefix).
  pose proof (prefix_len _ _ HP) as Hlen. rewrite len_app in Hlen.
  pose proof (len_nonneg file). pose proof (len_nonneg (chunkOf F (next w))).
  pose proof (to_len TO). split; simpl; rewrite ?(count_next (next w)) by lia; try done.
  - by rewrite wo_hash0.
  - rewrite len_app, wo_written0. apply u64_id. unfold two64. lia.
  - lia.
  - intros Hn. rewrite (proj2 (Z.eqb_neq _ _)) in HF by lia. unfold isFinal in HF. bool_hyps.
    rewrite len_app, wo_partial0, len_chunkOf by done. unfold ChunkSize in *. lia.
  - intros Hn. rewrite (proj2 (Z.eqb_eq _ _)) in HF by done. unfold isFinal in HF. bool_hyps.
    rewrite HApp. by apply ztake_all.
Qed.

Lemma WriteChunk_ok w file ct wr w' file' r :
  writer_ok w file -> authentic ct -> WriteChunk w file ct wr = (w', file', r) ->
  file' `prefix_of` F /\ file `prefix_of` file' /\
  (r = Ok tt -> writer_ok w' file' /\ next w' = next w + 1).
Proof.
  intros W HA. pose proof W as W0. destruct W0. unfold WriteChunk. rewrite wo_expected0.
  case_match eqn:H1; [intros [[<- <-]%pair_eq <-]%pair_eq; done|]. bool_hyps.
  assert (Hi : 0 <= next w < ChunkCount e) by lia.
  assert (Hctx : nextContext w = chunkAt (next w)) by (unfold nextContext, chunkAt; congruence).
  rewrite Hctx, wo_material0. destruct (DecryptChunk _ _ _) as [p|er] eqn:HD.
  2: { intros [[<- <-]%pair_eq <-]%pair_eq. done. }
  destruct (accepted_chunk _ _ _ Hi HA HD) as (HC&->&HF).
  specialize (wo_partial0 ltac:(lia)).
  cbv zeta. destruct (negb (len _ =? _)) eqn:H2; [intros [[<- <-]%pair_eq <-]%pair_eq; done|].
  assert (HP := append_part file (next w) (wCount wr) wo_prefix0 wo_partial0 HC).
  destruct (wErr wr || _) eqn:H3; intros [[<- <-]%pair_eq <-]%pair_eq.
  - split; [done|]. split; [apply prefix_app_r; done|]. done.
  - split; [done|]. split; [apply prefix_app_r; done|]. intros _. bool_hyps.
    rewrite ztake_all by lia. rewrite (count_next (next w) Hi) at 2.
    split; [|done]. by apply advance_ok.
Qed.

(** ** Attempts *)
Lemma Truncate_prefix n file file' :
  len file = n -> file `prefix_of` file' -> file' `prefix_of` F -> Truncate n file' `prefix_of` F.
Proof.
  intros <- H1 H2. unfold Truncate. pose proof (prefix_len _ _ H1).
  replace (Z.to_nat (len file - len file')) with 0%nat by lia. rewrite app_nil_r.
  etransitivity; [apply ztake_prefix|done].
Qed.

Lemma stageLoop_ok ios w file file' o :
  writer_ok w file -> (forall x ct, x ∈ ios -> fetched x = Some ct -> authentic ct) ->
  stageLoop ios (next w) w file = (file', o) ->
  file' `prefix_of` F /\ forall w', o = inl w' -> writer_ok w' file' /\ file' = F.
Proof.
  revert w file. induction ios as [|io ios IH]; intros w file W HA; cbn [stageLoop];
    rewrite (wo_expected _ _ W); destruct (ChunkCount e <=? next w) eqn:HN.
  1,3: intros [<- <-]%pair_eq; split; [apply W|]; intros w' [= <-]; split; [done|];
       apply (wo_whole _ _ W); bool_hyps; pose proof (wo_next _ _ W); lia.
  - intros [<- <-]%pair_eq. split; [apply W|done].
  - destruct (fetched io) as [ct|] eqn:HFe; [|intros [<- <-]%pair_eq; split; [apply W|done]].
    destruct (WriteChunk w file ct (wrote io)) as [[w1 file1] r] eqn:HW.
    destruct (WriteChunk_ok _ _ _ _ _ _ _ W (HA io ct ltac:(left) HFe) HW) as (HP&HE&HO).
    destruct (wDied io); [intros [<- <-]%pair_eq; done|].
    destruct r as [[]|er].
    + destruct (HO eq_refl) as [W1 Hn].
      destruct (syncs io); cbn [negb]; [|intros [<- <-]%pair_eq; done].
      rewrite (count_next (next w)), <- Hn by (pose proof (wo_next _ _ W); bool_hyps; lia).
      apply IH; [done|]. intros x ct' Hx. apply HA. by right.
    + intros [<- <-]%pair_eq. split; [|done]. destruct (truncates io); [|done].
      apply (Truncate_prefix _ file); [|done..]. apply (wo_partial _ _ W). bool_hyps. lia.
Qed.

Lemma stageLoop_not_Ok ios k w file file' :
  stageLoop ios k w file <> (file', inr (Returned (Ok tt))).
Proof.
  revert k w file. induction ios as [|io ios IH]; intros k w file; cbn [stageLoop];
    repeat case_match; congruence.
Qed.

Lemma resume_ok file io w ordinal :
  file `prefix_of` F ->
  NewResumingEncryptedChunkWriter file io material c e = Ok (w, ordinal) ->
  writer_ok w file /\ ordinal = next w /\ wpoisoned w = false /\ completed w = false.
Proof.
  intros HP. unfold NewResumingEncryptedChunkWriter, NewEncryptedChunkWriter.
  destruct (negb (validateManifestFile e) || _ || _ || _ || _) eqn:H1; [done|].
  destruct (seekEnd io || _ || _) eqn:H2; [done|]. cbv zeta.
  set (committed := if len file =? Size e then ChunkCount e else len file / ChunkSize).
  destruct (ChunkCount e <? committed) eqn:H3; [done|].
  destruct (seekStart io || _ || _) eqn:H4; [done|].
  intros [<- <-]%Ok_pair_inj. split; [|done].
  assert (HC : 0 <= committed <= ChunkCount e /\
    (committed < ChunkCount e -> len file = committed * ChunkSize) /\
    (committed = ChunkCount e -> len file = len F)).
  { unfold committed. rewrite (to_size TO) in *. bool_hyps.
    pose proof (prefix_len _ _ HP). pose proof (len_nonneg file). pose proof count_bounds.
    unfold ChunkSize in *. destruct (len file =? len F) eqn:E; bool_hyps; [lia|].
    apply andb_false_iff in H5 as [|]; bool_hyps; [lia|].
    pose proof (Z.div_mod (len file) 1048576 ltac:(done)).
    pose proof (Z.div_pos (len file) 1048576 ltac:(lia) ltac:(lia)). lia. }
  destruct HC as (HC1&HC2&HC3). split; simpl; try done.
  intros Hn. rewrite (prefix_is_ztake file F HP), HC3 by done. by apply ztake_all.
Qed.

Lemma stage_ok io file file' r :
  file `prefix_of` F -> attempt_authentic io ->
  stageEncryptedFile io material c e file = (file', r) ->
  file' `prefix_of` F /\ (r = Returned (Ok tt) -> file' = F).
Proof.
  intros HP HA. unfold stageEncryptedFile.
  destruct (NewResumingEncryptedChunkWriter _ _ _ _ _) as [[w k]|er] eqn:HR.
  2: { intros [<- <-]%pair_eq. done. }
  destruct (resume_ok _ _ _ _ HP HR) as (W&->&_).
  destruct (stageLoop _ _ _ _) as [file1 o] eqn:HL.
  destruct (stageLoop_ok _ _ _ _ _ W HA HL) as [HP1 HO].
  destruct o as [w1|en]; [|intros [<- <-]%pair_eq].
  - destruct (HO w1 eq_refl) as [_ ->].
    destruct ((Complete w1).2); intros [<- <-]%pair_eq; [done|].
    split; [|done]. destruct (removes io); [apply prefix_nil|done].
  - split; [done|]. intros ->. by apply stageLoop_not_Ok in HL.
Qed.

(** Over attempts, from a new staging file. *)
Lemma attempts_ok ios file file' es :
  file `prefix_of` F -> Forall attempt_authentic ios ->
  stageAttempts ios material c e file = (file', es) ->
  file' `prefix_of` F /\ (last es = Some (Returned (Ok tt)) -> file' = F).
Proof.
  intros HP HA. revert file file' es HP. induction HA as [|io ios Hio HA IH];
    intros file file' es HP; cbn [stageAttempts].
  - intros [<- <-]%pair_eq. done.
  - destruct (stageEncryptedFile io material c e file) as [file1 r] eqn:H1.
    destruct (stageAttempts ios material c e file1) as [file2 es'] eqn:H2.
    intros [<- <-]%pair_eq.
    destruct (stage_ok _ _ _ _ HP Hio H1) as [HP1 HO1]. destruct (IH _ _ _ HP1 H2) as [HP2 HO2].
    split; [done|]. destruct es' as [|r' es']; [|by apply HO2].
    destruct ios; simpl in H2; [|by repeat case_match].
    injection H2 as <-. intros [= ->]. by apply HO1.
Qed.
(** ** An honest host *)

(** The sender's reader of this file, and the iterations in which the host returns what
    it produced and every write is complete. *)
Definition reader : EncryptedChunkReader := mkReader (len F) material c true.
Definition serveChunk (i : Z) : StageIO :=
  mkStageIO (match ReadChunk reader F i with Ok (ct, _) => Some ct | Err _ => None end)
    (mkWrite (len (chunkOf F i)) false) false true true.
Fixpoint serve (i : Z) (n : nat) : list StageIO :=
  match n with O => [] | S m => serveChunk i :: serve (i + 1) m end.

(** The first chunk an attempt asks for. *)
Definition firstChunk (file : list byte) : Z :=
  if len file =? len F then ChunkCount e else len file / ChunkSize.
Definition honest (file : list byte) : AttemptIO :=
  mkAttempt (mkResumeIO false false false false)
    (serve (firstChunk file) (Z.to_nat (ChunkCount e - firstChunk file))) true true.

(** The context and the digest of the manifest are the sender's. *)
Record agreed : Prop := {
  ag_context : ValidateChunkContext material c = true;
  ag_ordinal : cFileOrdinal c = FileOrdinal e;
  ag_digest : PlaintextSHA256 e = Sum256 F }.

Lemma count_hasChunk i : 0 <= i < ChunkCount e -> hasChunk F i.
Proof.
  intros Hi. pose proof count_bounds. pose proof (len_nonneg F). split; [lia|].
  unfold ChunkSize in *. lia.
Qed.

Lemma count_isFinal i : 0 <= i < ChunkCount e -> isFinal F i = (i + 1 =? ChunkCount e).
Proof.
  intros Hi. pose proof count_bounds. unfold isFinal. apply eq_true_iff_eq.
  rewrite Z.leb_le, Z.eqb_eq. unfold ChunkSize in *. lia.
Qed.

Lemma chunkAt_atOrdinal i : 0 <= i < ChunkCount e -> atOrdinal c F i = chunkAt i.
Proof. intros Hi. unfold atOrdinal, chunkAt. by rewrite count_isFinal, count_next. Qed.

Lemma chunkAdditionalData_at i n :
  0 <= n <= ChunkSize -> is_ok (chunkAdditionalData c 0) = true ->
  is_ok (chunkAdditionalData (chunkAt i) n) = true.
Proof.
  intros Hn. assert (HL : lengthInRange n = true).
  { unfold lengthInRange. by rewrite (proj2 (Z.leb_le 0 n)), (proj2 (Z.leb_le n _)) by lia. }
  unfold chunkAdditionalData, chunkAt. rewrite HL. simpl. by repeat case_match.
Qed.

Lemma EncryptChunk_at i :
  agreed -> 0 <= i < ChunkCount e ->
  exists ct, EncryptChunk material (chunkAt i) (chunkOf F i) = Ok ct.
Proof.
  intros AG Hi. pose proof (ag_context AG) as HV. unfold ValidateChunkContext, material_Valid in HV.
  pose proof (len_chunkOf F i (count_hasChunk i Hi)) as HL. pose proof (len_nonneg (chunkOf F i)).
  bool_hyps. unfold EncryptChunk, prepare.
  rewrite (proj2 (Z.ltb_ge _ _)) by lia.
  rewrite H0, H2. cbn [orb].
  pose proof (chunkAdditionalData_at i (len (chunkOf F i)) ltac:(lia) ltac:(done)) as HD.
  destruct (chunkAdditionalData (chunkAt i) _); [eexists; reflexivity|done].
Qed.

Lemma fetched_serveChunk i :
  agreed -> 0 <= i < ChunkCount e ->
  exists ct, fetched (serveChunk i) = Some ct /\ DecryptChunk material (chunkAt i) ct = Ok (chunkOf F i).
Proof.
  intros AG Hi. destruct (EncryptChunk_at i AG Hi) as [ct HE]. exists ct.
  split; [|by apply DecryptChunk_EncryptChunk].
  unfold serveChunk, ReadChunk. cbn [fetched].
  rewrite (readPlain_chunk reader F i eq_refl (to_len TO) eq_refl (count_hasChunk i Hi)).
  cbn [rcontext rmaterial reader]. by rewrite chunkAt_atOrdinal, HE.
Qed.

(** The writer takes the chunk it expects, and what the file takes of it. *)
Lemma WriteChunk_expected w file ct wr :
  writer_ok w file -> wpoisoned w = false -> completed w = false -> next w < ChunkCount e ->
  DecryptChunk material (chunkAt (next w)) ct = Ok (chunkOf F (next w)) ->
  WriteChunk w file ct wr =
    let p := chunkOf F (next w) in
    if wErr wr || negb (wCount wr =? len p)
    then (poisonW w, file ++ ztake (wCount wr) p, Err ErrWriteFailed)
    else (((w <| whash := whash w ++ p |>) <| written := u64 (written w + wCount wr) |>)
            <| next := u64 (next w + 1) |>, file ++ ztake (wCount wr) p, Ok tt).
Proof.
  intros W HP HC Hn HD. pose proof (wo_next _ _ W) as Hnx.
  assert (Hi : 0 <= next w < ChunkCount e) by lia.
  unfold WriteChunk. rewrite HP, HC, (wo_expected _ _ W). cbn [orb].
  rewrite (proj2 (Z.leb_gt _ _)) by lia. cbv zeta.
  assert (nextContext w = chunkAt (next w)) as ->.
  { unfold nextContext, chunkAt. by rewrite (wo_context _ _ W), (wo_expected _ _ W). }
  rewrite (wo_material _ _ W), HD.
  pose proof (count_hasChunk _ Hi) as HH. pose proof (len_chunkOf F _ HH) as HL.
  assert (len (chunkOf F (next w))
    = if cFinal (chunkAt (next w)) then u64 (Size e - written w) else ChunkSize) as HW.
  { cbn [chunkAt cFinal set_field]. rewrite (count_next _ Hi), <- (count_isFinal _ Hi).
    rewrite (wo_written _ _ W), (wo_partial _ _ W Hn), (to_size TO), HL.
    pose proof (to_len TO). destruct HH as [_ HH]. unfold isFinal.
    destruct (len F <=? _) eqn:E; bool_hyps; [rewrite u64_id by (unfold two64, ChunkSize in *; lia)|];
      unfold ChunkSize in *; lia. }
  rewrite HW at 1. by rewrite Z.eqb_refl.
Qed.

Lemma WriteChunk_serve w file :
  agreed -> writer_ok w file -> wpoisoned w = false -> completed w = false ->
  next w < ChunkCount e ->
  exists ct w', fetched (serveChunk (next w)) = Some ct /\
    WriteChunk w file ct (wrote (serveChunk (next w))) = (w', file ++ chunkOf F (next w), Ok tt) /\
    writer_ok w' (file ++ chunkOf F (next w)) /\ next w' = next w + 1 /\
    wpoisoned w' = false /\ completed w' = false.
Proof.
  intros AG W HP HC Hn. pose proof (wo_next _ _ W) as Hnx.
  assert (Hi : 0 <= next w < ChunkCount e) by lia.
  destruct (fetched_serveChunk _ AG Hi) as (ct&Hct&HD). exists ct. eexists. split; [done|].
  rewrite (WriteChunk_expected w file ct _ W HP HC Hn HD). cbv zeta.
  cbn [serveChunk wrote wCount wErr orb]. rewrite Z.eqb_refl, ztake_all by lia. cbn [negb].
  split; [reflexivity|].
  split; [apply advance_ok; auto using count_isFinal, count_hasChunk|].
  split; [|done]. apply (count_next _ Hi).
Qed.

Lemma stageLoop_serve n w file :
  agreed -> writer_ok w file -> wpoisoned w = false -> completed w = false ->
  next w + Z.of_nat n = ChunkCount e ->
  exists w', stageLoop (serve (next w) n) (next w) w file = (F, inl w') /\
    writer_ok w' F /\ next w' = ChunkCount e /\ wpoisoned w' = false /\ completed w' = false.
Proof.
  intros AG. revert w file. induction n as [|n IH]; intros w file W HP HC Hn; cbn [serve stageLoop];
    rewrite (wo_expected _ _ W).
  - rewrite (proj2 (Z.leb_le _ _)) by lia.
    assert (file = F) as -> by (apply (wo_whole _ _ W); lia). exists w.
    split; [done|]. split; [done|]. split; [lia|done].
  - rewrite (proj2 (Z.leb_gt _ _)) by lia.
    destruct (WriteChunk_serve w file AG W HP HC ltac:(lia)) as (ct&w'&Hct&HW&W'&Hn'&HP'&HC').
    rewrite Hct, HW. cbn [wDied syncs serveChunk negb].
    rewrite (count_next (next w)), <- Hn' by (pose proof (wo_next _ _ W); lia).
    apply IH; try done. lia.
Qed.

(** ** Completion *)

(** What an attempt can resume from. *)
Definition resumable (file : list byte) : Prop :=
  file `prefix_of` F /\ (len file mod ChunkSize = 0 \/ file = F).

Lemma resume_succeeds file :
  agreed -> resumable file ->
  exists w, NewResumingEncryptedChunkWriter file (resumeIO (honest file)) material c e
            = Ok (w, firstChunk file) /\ next w = firstChunk file.
Proof.
  intros AG [HP HM]. pose proof (prefix_len _ _ HP). pose proof (len_nonneg file).
  pose proof count_bounds as HB. destruct (to_start TO) as [HS1 HS2].
  unfold NewResumingEncryptedChunkWriter, NewEncryptedChunkWriter.
  rewrite (to_valid TO), (ag_context AG), (ag_ordinal AG), HS1, HS2, Z.eqb_refl.
  cbn [negb orb Z.eqb honest resumeIO seekEnd seekStart copyFails seekBack]. cbv zeta.
  rewrite (to_size TO), (proj2 (Z.ltb_ge (len F) _)) by lia. cbn [orb].
  assert ((len file <? len F) && negb (len file mod ChunkSize =? 0) = false) as ->.
  { destruct HM as [->| ->]; [apply andb_false_r|by rewrite Z.ltb_irrefl]. }
  fold (firstChunk file).
  assert (firstChunk file <= ChunkCount e).
  { unfold firstChunk. case_match; [lia|]. unfold ChunkSize in *.
    pose proof (Z.div_mod (len file) 1048576 ltac:(done)).
    pose proof (Z.mod_pos_bound (len file) 1048576 ltac:(done)). lia. }
  rewrite (proj2 (Z.ltb_ge _ _)) by lia. eexists. split; [reflexivity|done].
Qed.

Lemma honest_completes file :
  agreed -> resumable file ->
  stageEncryptedFile (honest file) material c e file = (F, Returned (Ok tt)).
Proof.
  intros AG HR. destruct (resume_succeeds file AG HR) as (w&HN&Hf).
  destruct (resume_ok _ _ _ _ (proj1 HR) HN) as (W&_&HP&HC).
  unfold stageEncryptedFile. rewrite HN. cbn [chunkIO honest]. rewrite <- Hf.
  destruct (stageLoop_serve (Z.to_nat (ChunkCount e - next w)) w file AG W HP HC)
    as (w'&HL&W'&Hn&HP'&HC').
  { pose proof (wo_next _ _ W). lia. }
  rewrite HL. unfold Complete. rewrite HP', HC', (wo_expected _ _ W'), Hn, (wo_written _ _ W').
  rewrite (wo_hash _ _ W'), (to_size TO), !Z.eqb_refl, (ag_digest AG).
  by rewrite (proj2 (equalBytes_true _ _)).
Qed.

(** Attempts whose writes are not cut by the end of the process leave a file from which
    the next one resumes. *)
Definition intact (io : AttemptIO) : Prop :=
  Forall (fun x => wDied x = false /\ truncates x = true) (chunkIO io).

Lemma ordinal_resumable file i :
  file `prefix_of` F -> len file = i * ChunkSize -> resumable file.
Proof. intros HP HL. split; [done|left]. rewrite HL. by apply Z_mod_mult. Qed.

Lemma writer_resumable w file : writer_ok w file -> resumable file.
Proof.
  intros W. pose proof (wo_next _ _ W). destruct (Z.eq_dec (next w) (ChunkCount e)) as [E|E].
  - split; [apply W|right]. by apply (wo_whole _ _ W).
  - apply (ordinal_resumable _ (next w)); [apply W|]. apply (wo_partial _ _ W). lia.
Qed.

Lemma stageLoop_intact ios w file file' o :
  writer_ok w file -> (forall x ct, x ∈ ios -> fetched x = Some ct -> authentic ct) ->
  Forall (fun x => wDied x = false /\ truncates x = true) ios ->
  stageLoop ios (next w) w file = (file', o) -> resumable file'.
Proof.
  intros W HA HI. revert w file W HA. induction HI as [|io ios [HD HT] HI IH];
    intros w file W HA; cbn [stageLoop]; rewrite (wo_expected _ _ W);
    destruct (ChunkCount e <=? next w) eqn:HN.
  1,2,3: intros [<- <-]%pair_eq; by apply (writer_resumable w).
  destruct (fetched io) as [ct|] eqn:HFe; [|intros [<- <-]%pair_eq; by apply (writer_resumable w)].
  destruct (WriteChunk w file ct (wrote io)) as [[w1 file1] r] eqn:HW.
  destruct (WriteChunk_ok _ _ _ _ _ _ _ W (HA io ct ltac:(left) HFe) HW) as (HP&HE&HO).
  rewrite HD. bool_hyps. destruct r as [[]|er].
  - destruct (HO eq_refl) as [W1 Hn].
    destruct (syncs io); cbn [negb]; [|intros [<- <-]%pair_eq; by apply (writer_resumable w1)].
    rewrite (count_next (next w)), <- Hn by (pose proof (wo_next _ _ W); lia).
    apply IH; [done|]. intros x ct' Hx. apply HA. by right.
  - intros [<- <-]%pair_eq. rewrite HT. pose proof (wo_partial _ _ W HN) as HL.
    apply (ordinal_resumable _ (next w)); [by apply (Truncate_prefix _ file)|].
    pose proof (prefix_len _ _ HE). unfold Truncate.
    replace (Z.to_nat (next w * ChunkSize - len file1)) with 0%nat by lia. rewrite app_nil_r.
    apply len_ztake. pose proof (len_nonneg file). lia.
Qed.

Lemma stage_intact io file file' r :
  resumable file -> attempt_authentic io -> intact io ->
  stageEncryptedFile io material c e file = (file', r) -> resumable file'.
Proof.
  intros HR HA HI. unfold stageEncryptedFile.
  destruct (NewResumingEncryptedChunkWriter _ _ _ _ _) as [[w k]|er] eqn:HN.
  2: { by intros [<- <-]%pair_eq. }
  destruct (resume_ok _ _ _ _ (proj1 HR) HN) as (W&->&_).
  destruct (stageLoop _ _ _ _) as [file1 o] eqn:HL.
  pose proof (stageLoop_intact _ _ _ _ _ W HA HI HL) as HR1.
  destruct o as [w1|en]; [|by intros [<- <-]%pair_eq].
  destruct ((Complete w1).2); intros [<- <-]%pair_eq; [done|].
  destruct (removes io); [|done]. split; [apply prefix_nil|by left].
Qed.

Lemma attempts_intact ios file file' es :
  resumable file -> Forall (fun io => attempt_authentic io /\ intact io) ios ->
  stageAttempts ios material c e file = (file', es) -> resumable file'.
Proof.
  intros HR HF. revert file file' es HR. induction HF as [|io ios [HA HI] HF IH];
    intros file file' es HR; cbn [stageAttempts]; [by intros [<- <-]%pair_eq|].
  destruct (stageEncryptedFile io material c e file) as [file1 r] eqn:H1.
  destruct (stageAttempts ios material c e file1) as [file2 es'] eqn:H2.
  intros [<- <-]%pair_eq. eapply IH; [|done]. by eapply stage_intact.
Qed.

(** ** A torn write *)
Lemma prefix_shorter file : file `prefix_of` F -> file <> F -> len file < Size e.
Proof.
  intros HP HN. rewrite (to_size TO). pose proof (prefix_len _ _ HP).
  destruct (Z.eq_dec (len file) (len F)) as [E|E]; [|lia]. destruct HN.
  rewrite (prefix_is_ztake file F HP), E. by apply ztake_all.
Qed.

Lemma torn_refused io file :
  agreed -> len file < Size e -> len file mod ChunkSize <> 0 ->
  stageEncryptedFile io material c e file = (file, Returned (Err ErrResumeOffset)).
Proof.
  intros AG HL HM. destruct (to_start TO) as [HS1 HS2].
  unfold stageEncryptedFile, NewResumingEncryptedChunkWriter, NewEncryptedChunkWriter.
  rewrite (to_valid TO), (ag_context AG), (ag_ordinal AG), HS1, HS2, Z.eqb_refl.
  cbn [negb orb Z.eqb]. cbv zeta. rewrite (proj2 (Z.ltb_lt (len file) _)) by done.
  rewrite (proj2 (Z.eqb_neq (len file mod ChunkSize) 0)) by done. by rewrite orb_true_r.
Qed.

(** An attempt whose process dies when [n] bytes of the first chunk are in the file. *)
Definition torn (n : Z) : AttemptIO :=
  mkAttempt (mkResumeIO false false false false)
    [mkStageIO (fetched (serveChunk 0)) (mkWrite n false) true true true] true true.

Lemma stage_torn n :
  agreed -> 0 < n < Z.min ChunkSize (len F) ->
  stageEncryptedFile (torn n) material c e [] = (ztake n F, Died).
Proof.
  intros AG Hn. assert (HR : resumable []) by (split; [apply prefix_nil|by left]).
  destruct (resume_succeeds [] AG HR) as (w&HN&Hf).
  destruct (resume_ok _ _ _ _ (proj1 HR) HN) as (W&_&HP&HC).
  assert (HF0 : firstChunk [] = 0).
  { unfold firstChunk. rewrite len_nil, (proj2 (Z.eqb_neq 0 (len F))) by lia. done. }
  rewrite HF0 in *. pose proof count_bounds as HB.
  destruct (fetched_serveChunk 0 AG ltac:(lia)) as (ct&Hct&HD). rewrite <- Hf in HD at 1.
  unfold stageEncryptedFile, torn. cbn [resumeIO chunkIO honest] in *. rewrite HN.
  cbn [stageLoop fetched wDied]. rewrite (wo_expected _ _ W), (proj2 (Z.leb_gt _ _)), Hct by lia.
  rewrite (WriteChunk_expected w [] ct _ W HP HC ltac:(lia)) by (by rewrite HD, Hf).
  cbv zeta. rewrite Hf. cbn [wrote wCount wErr orb app].
  pose proof (len_chunkOf F 0 (count_hasChunk 0 ltac:(lia))) as HL.
  rewrite (proj2 (Z.eqb_neq _ _)) by lia. cbn [negb]. f_equal.
  unfold chunkOf. rewrite Z.mul_0_l, zdrop_0. apply ztake_ztake. lia.
Qed.

Lemma torn_forever ios file :
  agreed -> len file < Size e -> len file mod ChunkSize <> 0 ->
  stageAttempts ios material c e file
  = (file, replicate (length ios) (Returned (Err ErrResumeOffset))).
Proof.
  intros AG HL HM. induction ios as [|io ios IH]; [done|]. cbn [stageAttempts length replicate].
  by rewrite torn_refused, IH.
Qed.

End transfer.
End props.

(** ** A source that changes

    Two reads of one ordinal of a file that changed in between are sealed under one key
    with the same nonce and additional data, and different plaintexts. *)
Lemma changed_source_reuses_nonce (r : EncryptedChunkReader) (F F' : list byte) :
  sourceSize r = len F -> len F' = len F -> len F < 2 ^ 63 -> ropen r = true ->
  chunkOf F 0 <> chunkOf F' 0 ->
  exists c p p', readPlain r F 0 = Ok (c, p) /\ readPlain r F' 0 = Ok (c, p') /\ p <> p' /\
    prepare (rmaterial r) c (len p) = prepare (rmaterial r) c (len p').
Proof.
  intros HS HL HF HO HN.
  assert (HC : hasChunk F 0 /\ hasChunk F' 0).
  { unfold hasChunk. pose proof (len_nonneg F). rewrite Z.mul_0_l, HL. lia. }
  destruct HC as [HC HC'].
  exists (atOrdinal (rcontext r) F 0), (chunkOf F 0), (chunkOf F' 0).
  split; [by apply readPlain_chunk|]. split.
  - rewrite readPlain_chunk by (done || lia). unfold atOrdinal, isFinal. by rewrite HL.
  - split; [done|]. by rewrite !len_chunkOf, HL by done.
Qed.
