(* ===== verification/PeerContext.v ===== *)
(** * The peer context tuple

    Models [internal/peertransport/peercontext] (context.go, transport.go): the endpoint,
    authorization, operation and generation tuple bound into every peer transport, the
    reusable transport's and the stream's bindings, their canonical encodings and hashes. *)
From S2P Require Import Prelude.
From S2P Require Import Codec.
From S2P Require Import Sha256.
From S2P Require Import TransferCodec.
Set Warnings "-clear-no-such-hyp".

Inductive ContextError :=
| ErrIdentifier | ErrGeneration | ErrZeroHash | ErrBinding | ErrContextString | ErrContextEncoding.

Record Context := mkContext {
  xAccountID : gostring; xUserID : gostring; xDeviceID : gostring; xMachineID : gostring;
  xInitiatorCertificateHash : list byte; xResponderCertificateHash : list byte;
  xHostGeneration : Z; xAuthorizationGeneration : Z;
  xIntentID : gostring; xOperationID : gostring; xConsumer : gostring;
  xInitiatorRole : gostring; xResponderRole : gostring; xAttemptGeneration : Z }.

#[export] Instance Context_eq_dec : EqDecision Context.
Proof. solve_decision. Defined.

(** [Context.MarshalBinary] *)
Definition Context_MarshalBinary (c : Context) : result ContextError (list byte) :=
  if negb (forallb identifier
       [xAccountID c; xUserID c; xDeviceID c; xMachineID c; xIntentID c; xOperationID c;
        xConsumer c; xInitiatorRole c; xResponderRole c])
  then Err ErrIdentifier
  else if (xHostGeneration c =? 0) || (xAuthorizationGeneration c =? 0)
     || (xAttemptGeneration c =? 0)
  then Err ErrGeneration
  else if allZero (xInitiatorCertificateHash c) || allZero (xResponderCertificateHash c)
  then Err ErrZeroHash
  else Ok (bytes "PBPC" ++ PutByte 1
       ++ appendString (xAccountID c) ++ appendString (xUserID c) ++ appendString (xDeviceID c)
       ++ appendString (xMachineID c)
       ++ xInitiatorCertificateHash c ++ xResponderCertificateHash c
       ++ PutUint64 (xHostGeneration c) ++ PutUint64 (xAuthorizationGeneration c)
       ++ appendString (xIntentID c) ++ appendString (xOperationID c) ++ appendString (xConsumer c)
       ++ appendString (xInitiatorRole c) ++ appendString (xResponderRole c)
       ++ PutUint64 (xAttemptGeneration c)).

(** [binary.Read] of an unsigned integer from a [bytes.Reader] that holds [s]. *)
Definition readUint (n : nat) (s : list byte) : option (Z * list byte) :=
  match ReadFull n s with Ok (v, rest) => Some (be_get v, rest) | Err _ => None end.

(** The string readers of [ParseBinary] and of control.go: the whole value is there when
    the length passes. *)
Definition readString (s : list byte) : option (gostring * list byte) :=
  size_rest ← readUint 2 s;
  let '(size, rest) := size_rest in
  if (size =? 0) || (len rest <? size) then None else Some (ztake size rest, zdrop size rest).

(** A loop that reads into each of [n] strings. *)
Fixpoint readStrings (n : nat) (s : list byte) : option (list gostring * list byte) :=
  match n with
  | O => Some ([], s)
  | S m => '(v, s) ← readString s; '(l, s) ← readStrings m s; Some (v :: l, s)
  end.

Definition ParseBinary (encoded : list byte) : result ContextError Context :=
  if (len encoded <? 5) || negb (bool_decide (sub 0 5 encoded = bytes "PBPC" ++ PutByte 1))
  then Err ErrContextEncoding
  else
    match readStrings 4 (drop 5 encoded) with
    | Some ([account; user; device; machine], s) =>
        if len s <? 32 + 32 + 8 + 8 then Err ErrContextEncoding
        else
          let ihash := sub 0 32 s in
          let rhash := sub 32 64 s in
          let host := be_get (sub 64 72 s) in
          let authorization := be_get (sub 72 80 s) in
          match readStrings 5 (drop 80 s) with
          | Some ([intent; operation; consumer; irole; rrole], s) =>
              if negb (len s =? 8) then Err ErrContextEncoding
              else
                let result := mkContext account user device machine ihash rhash host
                  authorization intent operation consumer irole rrole (be_get s) in
                match Context_MarshalBinary result with
                | Err _ => Err ErrContextEncoding
                | Ok canonical =>
                    if bool_decide (canonical = encoded) then Ok result
                    else Err ErrContextEncoding
                end
          | _ => Err ErrContextString
          end
    | _ => Err ErrContextString
    end.

(** [Context.Hash] *)
Definition Context_Hash (c : Context) : result ContextError (list byte) :=
  match Context_MarshalBinary c with Ok e => Ok (Sum256 e) | Err e => Err e end.

(** [identifierIssue], the diagnosis of a rejected identifier. *)
Inductive Issue := Empty | TooLong (n : Z) | BadByte (index : Z) (b : byte) | NonCanonical.

Fixpoint scanIdentifier (index : Z) (rest : gostring) : Issue :=
  match rest with
  | [] => NonCanonical
  | b :: r =>
      let z := Z_of_byte b in
      if isAlnum b || (0 <? index) && ((z =? 95) || (z =? 46) || (z =? 58) || (z =? 45))
      then scanIdentifier (index + 1) r
      else BadByte index b
  end.

Definition identifierIssue (value : gostring) : Issue :=
  if bool_decide (value = []) then Empty
  else if 128 <? len value then TooLong (len value)
  else scanIdentifier 0 value.

(** ** Transports and streams *)
Record Transport := mkTransport {
  tAccountID : gostring; tUserID : gostring; tDeviceID : gostring; tMachineID : gostring;
  tInitiatorCertificateHash : list byte; tResponderCertificateHash : list byte;
  tHostGeneration : Z; tAuthorizationGeneration : Z;
  tTransportID : gostring; tInitiatorRole : gostring; tResponderRole : gostring;
  tAttemptGeneration : Z }.

Definition Transport_MarshalBinary (c : Transport) : result ContextError (list byte) :=
  if negb (forallb identifier
       [tAccountID c; tUserID c; tDeviceID c; tMachineID c; tTransportID c; tInitiatorRole c;
        tResponderRole c])
  then Err ErrIdentifier
  else if (tHostGeneration c =? 0) || (tAuthorizationGeneration c =? 0)
     || (tAttemptGeneration c =? 0) || allZero (tInitiatorCertificateHash c)
     || allZero (tResponderCertificateHash c)
  then Err ErrBinding
  else Ok (bytes "PBPT" ++ PutByte 1
       ++ appendString (tAccountID c) ++ appendString (tUserID c) ++ appendString (tDeviceID c)
       ++ appendString (tMachineID c)
       ++ tInitiatorCertificateHash c ++ tResponderCertificateHash c
       ++ PutUint64 (tHostGeneration c) ++ PutUint64 (tAuthorizationGeneration c)
       ++ appendString (tTransportID c) ++ appendString (tInitiatorRole c)
       ++ appendString (tResponderRole c) ++ PutUint64 (tAttemptGeneration c)).

Definition Transport_Hash (c : Transport) : result ContextError (list byte) :=
  match Transport_MarshalBinary c with Ok e => Ok (Sum256 e) | Err e => Err e end.

Record Stream := mkStream {
  sTransportHash : list byte; sOperationID : gostring; sConsumer : gostring; sStreamID : gostring;
  sCredentialHash : list byte; sDeadlineUnix : Z; sMaximumBytes : Z }.

Definition Stream_MarshalBinary (c : Stream) : result ContextError (list byte) :=
  if allZero (sTransportHash c) || allZero (sCredentialHash c) || negb (identifier (sOperationID c))
     || negb (identifier (sConsumer c)) || negb (identifier (sStreamID c))
     || (sDeadlineUnix c <=? 0) || (sMaximumBytes c =? 0)
  then Err ErrBinding
  else Ok (bytes "PBPS" ++ PutByte 1 ++ sTransportHash c ++ appendString (sOperationID c)
       ++ appendString (sConsumer c) ++ appendString (sStreamID c) ++ sCredentialHash c
       ++ PutUint64 (sDeadlineUnix c) ++ PutUint64 (sMaximumBytes c)).

Definition Stream_Hash (c : Stream) : result ContextError (list byte) :=
  match Stream_MarshalBinary c with Ok e => Ok (Sum256 e) | Err e => Err e end.

(** ** The ranges of the fields' types *)
Record context_typed (c : Context) : Prop := {
  xt_ihash : length (xInitiatorCertificateHash c) = 32%nat;
  xt_rhash : length (xResponderCertificateHash c) = 32%nat;
  xt_host : 0 <= xHostGeneration c < 256 ^ 8;
  xt_authorization : 0 <= xAuthorizationGeneration c < 256 ^ 8;
  xt_attempt : 0 <= xAttemptGeneration c < 256 ^ 8 }.

Record transport_typed (c : Transport) : Prop := {
  tt_ihash : length (tInitiatorCertificateHash c) = 32%nat;
  tt_rhash : length (tResponderCertificateHash c) = 32%nat;
  tt_host : 0 <= tHostGeneration c < 256 ^ 8;
  tt_authorization : 0 <= tAuthorizationGeneration c < 256 ^ 8;
  tt_attempt : 0 <= tAttemptGeneration c < 256 ^ 8 }.

Record stream_typed (c : Stream) : Prop := {
  st_transport : length (sTransportHash c) = 32%nat;
  st_credential : length (sCredentialHash c) = 32%nat;
  st_deadline : - 2 ^ 63 <= sDeadlineUnix c < 2 ^ 63;
  st_maximum : 0 <= sMaximumBytes c < 256 ^ 8 }.

(** ** The scanner and the pattern agree *)
Lemma scanIdentifier_ok index rest :
  0 < index -> scanIdentifier index rest = NonCanonical <-> forallb isIdChar rest = true.
Proof.
  revert index. induction rest as [|b r IH]; intros index Hi; simpl; [done|].
  rewrite (proj2 (Z.ltb_lt 0 index)) by lia. cbn [andb]. unfold isIdChar at 1.
  destruct (isAlnum b); cbn [orb andb]; [apply IH; lia|].
  destruct (_ || _ || _ || _); cbn [andb]; [apply IH; lia|done].
Qed.

Lemma identifierIssue_exact v : identifierIssue v = NonCanonical <-> identifier v = true.
Proof.
  unfold identifierIssue, identifier. destruct v as [|b r]; [done|].
  rewrite bool_decide_false by done. rewrite len_cons. simpl.
  destruct (isAlnum b) eqn:Ha; cbn [orb andb].
  - destruct (128 <? 1 + len r) eqn:Hl; bool_hyps.
    + rewrite (proj2 (Z.leb_gt _ _)) by lia. by rewrite andb_false_r.
    + rewrite (proj2 (Z.leb_le _ _)), andb_true_r by lia. apply scanIdentifier_ok. lia.
  - by case_match.
Qed.

(** ** Round trip *)
Lemma readUint_put n z rest :
  0 <= z < 256 ^ Z.of_nat n -> readUint n (be_put n z ++ rest) = Some (z, rest).
Proof.
  intros Hz. unfold readUint. rewrite ReadFull_app by apply be_put_length. by rewrite be_get_put_id.
Qed.

Lemma readString_put v rest :
  0 < len v < 65536 -> readString (appendString v ++ rest) = Some (v, rest).
Proof.
  intros Hv. unfold readString, appendString, PutUint16. rewrite <- app_assoc.
  rewrite readUint_put by (simpl; lia). simpl. rewrite len_app.
  pose proof (len_nonneg rest).
  rewrite (proj2 (Z.eqb_neq _ _)), (proj2 (Z.ltb_ge _ _)) by lia. simpl.
  by rewrite ztake_len_app, zdrop_len_app.
Qed.

Lemma readStrings_put l rest :
  Forall (fun v => 0 < len v < 65536) l ->
  readStrings (length l) (flat_map appendString l ++ rest) = Some (l, rest).
Proof.
  induction 1 as [|v l Hv HF IH]; cbn [length readStrings flat_map]; [done|].
  rewrite <- app_assoc, readString_put by done. cbn [mbind option_bind]. by rewrite IH.
Qed.

Lemma forallb_identifiers l :
  forallb identifier l = true -> Forall (fun v => 0 < len v < 65536) l.
Proof.
  intros H. rewrite forallb_forall in H. apply Forall_forall. intros v Hv.
  apply list_elem_of_In in Hv. specialize (H v Hv). apply identifier_length in H. lia.
Qed.

Lemma ParseBinary_marshalled c b :
  context_typed c -> Context_MarshalBinary c = Ok b -> ParseBinary b = Ok c.
Proof.
  intros [] HM. pose proof HM as HM'. unfold Context_MarshalBinary in HM'.
  destruct (negb (forallb _ _)) eqn:Hid; [done|]. case_match eqn:Hg; [done|].
  case_match eqn:Hz; [done|]. apply Ok_inj in HM'.
  apply negb_false_iff, forallb_identifiers in Hid.
  destruct c as [ac us dv mc ih rh hg ag it op cs ir rr at_];
    cbn [xAccountID xUserID xDeviceID xMachineID xInitiatorCertificateHash
      xResponderCertificateHash xHostGeneration xAuthorizationGeneration xIntentID xOperationID
      xConsumer xInitiatorRole xResponderRole xAttemptGeneration] in *.
  apply (Forall_app _ [ac; us; dv; mc]) in Hid as [Hid1 Hid2].
  pose proof (readStrings_put [ac; us; dv; mc]) as R1.
  pose proof (readStrings_put [it; op; cs; ir; rr]) as R2.
  set (tail := flat_map appendString [it; op; cs; ir; rr] ++ PutUint64 at_) in *.
  set (mid := ih ++ rh ++ PutUint64 hg ++ PutUint64 ag ++ tail).
  assert (Hb : b = (bytes "PBPC" ++ PutByte 1) ++ flat_map appendString [ac; us; dv; mc] ++ mid).
  { rewrite <- HM'. unfold mid, tail. cbn [flat_map]. by rewrite <- !app_assoc, !app_nil_l. }
  pose proof (PutUint64_length hg) as L1. pose proof (PutUint64_length ag) as L2.
  clear HM'. subst b. unfold ParseBinary. rewrite sub_here by done.
  rewrite (drop_app_length' (bytes "PBPC" ++ PutByte 1) _ 5) by done.
  rewrite len_app. change (len (bytes "PBPC" ++ PutByte 1)) with 5.
  rewrite (proj2 (Z.ltb_ge _ _)) by (pose proof (len_nonneg (flat_map appendString [ac; us; dv; mc] ++ mid)); lia).
  rewrite bool_decide_true by done. cbn [orb negb].
  specialize (R1 mid Hid1). cbn [length] in R1. rewrite R1. cbv iota beta.
  assert (HL : len mid = 80 + len tail).
  { unfold mid. rewrite !len_app. unfold len. rewrite xt_ihash0, xt_rhash0, L1, L2. lia. }
  pose proof (len_nonneg tail).
  rewrite (proj2 (Z.ltb_ge (len mid) _)) by lia. cbv zeta.
  replace (sub 0 32 mid) with ih by (symmetry; unfold mid; take_field).
  replace (sub 32 64 mid) with rh by (symmetry; unfold mid; take_field).
  replace (sub 64 72 mid) with (PutUint64 hg) by (symmetry; unfold mid; take_field).
  replace (sub 72 80 mid) with (PutUint64 ag) by (symmetry; unfold mid; take_field).
  replace (drop 80 mid) with tail.
  2: { unfold mid. rewrite !app_assoc. rewrite (drop_app_length' _ tail 80); [done|].
       rewrite !length_app, xt_ihash0, xt_rhash0, L1, L2. done. }
  specialize (R2 (PutUint64 at_) Hid2). cbn [length] in R2. unfold tail at 1. rewrite R2. cbv iota beta.
  change (negb (len (PutUint64 at_) =? 8)) with false. cbv iota.
  rewrite !(be_get_put_id 8) by done. rewrite HM. by rewrite bool_decide_true.
Qed.

Lemma ParseBinary_canonical c b :
  ParseBinary b = Ok c -> context_typed c /\ Context_MarshalBinary c = Ok b.
Proof.
  unfold ParseBinary. case_match eqn:Hmagic; [done|]. clear Hmagic.
  destruct (readStrings 4 _) as [[[|ac [|us [|dv [|mc [|]]]]] s]|]; try done.
  destruct (len s <? _) eqn:HL; [done|]. cbv zeta.
  destruct (readStrings 5 _) as [[[|it [|op [|cs [|ir [|rr [|]]]]]] s']|]; try done.
  destruct (len s' =? 8) eqn:H8; cbn [negb]; [|done].
  case_match eqn:HM; [|done]. case_bool_decide; [|done].
  intros E. apply Ok_inj in E as <-. subst. split; [|done]. bool_hyps.
  assert (Hs : (80 <= length s)%nat) by (unfold len in *; lia).
  assert (Hsub : forall lo hi, (lo <= hi <= 80)%nat -> 0 <= be_get (sub lo hi s) < 256 ^ Z.of_nat (hi - lo)).
  { intros lo hi Hlh. pose proof (be_get_range (sub lo hi s)) as HR.
    unfold len in HR. by rewrite sub_length in HR by lia. }
  split; cbn [xInitiatorCertificateHash xResponderCertificateHash xHostGeneration
    xAuthorizationGeneration xAttemptGeneration].
  - by rewrite sub_length by lia.
  - by rewrite sub_length by lia.
  - by apply (Hsub 64%nat 72%nat); lia.
  - by apply (Hsub 72%nat 80%nat); lia.
  - pose proof (be_get_range s') as HR. by rewrite H8 in HR.
Qed.
