(* ===== verification/TransferKeys.v ===== *)
(** * Delivering and keeping transfer keys

    Models [internal/peertransport/transfercrypto] control.go and vault.go, and the
    coordinator of [internal/filetransfer/keys.go]: a sender hands the key of a transfer
    to the peer over a private stream and waits for an acknowledgement of the exact
    payload; both keep it in a vault until it expires.

    An instant is its nanoseconds since the Unix epoch.  The results of the carrier's
    writes are a list, and the bytes the peer sends an argument.  The secret store is a
    map from references to values; a value that does not decode to a key is
    [Undecodable] (the JSON text of a record is the record).  A [Set] that fails may have
    been applied. *)
From S2P Require Import Prelude.
From S2P Require Import Codec.
From S2P Require Import Sha256.
From S2P Require Import TransferCodec.
From S2P Require Import TransferCrypto.
From S2P Require Import PeerContext.
Set Warnings "-clear-no-such-hyp".

(** ** Time *)
Definition Second : Z := 1000000000.
Definition zeroTime : Z := - 62135596800 * Second.
Definition Unix (t : Z) : Z := t / Second.
Definition Nanosecond (t : Z) : Z := t mod Second.
Definition TruncateSecond (t : Z) : Z := t - t mod Second.

(** ** The key control message *)
Record KeyControlBinding := mkBinding {
  bOperationID : gostring; bTransferID : gostring; bGeneration : Z; bExpiresAt : Z }.

Definition maxControlPayload : Z := 512.
Definition controlVersion : Z := 1.

(** [validTransferID]: the pattern is [identifierPattern]'s. *)
Definition validTransferID : gostring -> bool := identifier.

(** [validateControlBinding]: whether it returns nil. *)
Definition validateControlBinding (b : KeyControlBinding) : bool :=
  negb (negb (validTransferID (bOperationID b)) || negb (validTransferID (bTransferID b))
        || (bGeneration b =? 0) || (bExpiresAt b =? zeroTime)
        || negb (Nanosecond (bExpiresAt b) =? 0) || (Unix (bExpiresAt b) <=? 0)).

Definition marshalKeyControl (b : KeyControlBinding) (material : KeyMaterial)
    : result TransferError (list byte) :=
  if negb (validateControlBinding b) || negb (material_Valid material) then Err ErrInvalid
  else match material_MarshalBinary material with
       | Err e => Err e
       | Ok key =>
           let payload := bytes "PBKC" ++ PutByte controlVersion ++ appendString (bOperationID b)
             ++ appendString (bTransferID b) ++ PutUint64 (bGeneration b)
             ++ PutUint64 (Unix (TruncateSecond (bExpiresAt b))) ++ key in
           if maxControlPayload <? len payload then Err ErrInvalid else Ok payload
       end.

Definition parseKeyControl (payload : list byte)
    : result TransferError (KeyControlBinding * KeyMaterial) :=
  if (len payload <? 5) || (maxControlPayload <? len payload)
     || negb (bool_decide (sub 0 5 payload = bytes "PBKC" ++ PutByte controlVersion))
  then Err ErrInvalid
  else
    match readString (drop 5 payload) with
    | None => Err ErrInvalid
    | Some (operationID, s) =>
        match readString s with
        | None => Err ErrInvalid
        | Some (transferID, s) =>
            match readUint 8 s with
            | None => Err ErrInvalid
            | Some (generation, s) =>
                match readUint 8 s with
                | None => Err ErrInvalid
                | Some (expiresUnix, key) =>
                    if 2 ^ 63 - 1 <? expiresUnix then Err ErrInvalid
                    else
                      let binding :=
                        mkBinding operationID transferID generation (expiresUnix * Second) in
                      match ParseKeyMaterial key with
                      | Err _ => Err ErrInvalid
                      | Ok material =>
                          if negb (validateControlBinding binding) then Err ErrInvalid
                          else Ok (binding, material)
                      end
                end
            end
        end
    end.

Definition controlAcknowledgement (payload : list byte) : list byte :=
  bytes "PBKA" ++ PutByte controlVersion ++ Sum256 payload.

(** [writeAll]: what reached the carrier, the results left and whether it succeeded;
    without results left the carrier is closed. *)
Definition WriteResults := list (Z * bool).
Fixpoint writeAll (ws : WriteResults) (payload : list byte) : list byte * WriteResults * bool :=
  match payload with
  | [] => ([], ws, true)
  | _ :: _ =>
      match ws with
      | [] => ([], [], false)
      | (n, fails) :: ws =>
          if fails then (ztake n payload, ws, false)
          else if (n <=? 0) || (len payload <? n) then (ztake n payload, ws, false)
          else
            let '(sent, ws, ok) := writeAll ws (zdrop n payload) in (ztake n payload ++ sent, ws, ok)
      end
  end.

Definition writeControlFrame (ws : WriteResults) (payload : list byte)
    : list byte * WriteResults * bool :=
  if (len payload =? 0) || (maxControlPayload <? len payload) then ([], ws, false)
  else
    match writeAll ws (PutUint16 (len payload)) with
    | (sent, ws, false) => (sent, ws, false)
    | (sent, ws, true) =>
        let '(sent', ws, ok) := writeAll ws payload in (sent ++ sent', ws, ok)
    end.

(** [readControlFrame] on what the peer sent. *)
Definition readControlFrame (input : list byte) : option (list byte * list byte) :=
  match ReadFull 2 input with
  | Err _ => None
  | Ok (header, rest) =>
      let size := be_get header in
      if (size =? 0) || (maxControlPayload <? size) then None
      else match ReadFull (Z.to_nat size) rest with
           | Err _ => None
           | Ok (payload, rest) => Some (payload, rest)
           end
  end.

(** [DeliverKey]: what was sent, and the result; [answer] is what the peer sends. *)
Definition DeliverKey (ws : WriteResults) (answer : list byte) (b : KeyControlBinding)
    (material : KeyMaterial) : list byte * result TransferError unit :=
  match marshalKeyControl b material with
  | Err e => ([], Err e)
  | Ok payload =>
      match writeControlFrame ws payload with
      | (sent, _, false) => (sent, Err ErrControlSend)
      | (sent, _, true) =>
          match ReadFull 37 answer with
          | Err _ => (sent, Err ErrControlRead)
          | Ok (ack, _) =>
              if negb (bool_decide (ack = controlAcknowledgement payload))
              then (sent, Err ErrControlRejected) else (sent, Ok tt)
          end
      end
  end.

(** ** The vault *)
Inductive Ownership := Local | Received.
#[export] Instance Ownership_eq_dec : EqDecision Ownership.
Proof. solve_decision. Defined.

Record persistedKey := mkPersisted {
  pVersion : Z; pTransferID : gostring; pGeneration : Z; pExpiresAt : Z; pOwnership : Ownership;
  pKeyMaterial : list byte; pPeerContext : option Context }.

Inductive Stored := Decoded (p : persistedKey) | Undecodable.

Abbreviation SecretStore := (gmap (list byte) Stored).

(** [hex.EncodeToString], [keyRef] *)
Definition hexDigit (z : Z) : byte := byte_of_Z (if z <? 10 then 48 + z else 87 + z).
Definition hexEncode (l : list byte) : list byte :=
  flat_map (fun b => [hexDigit (Z_of_byte b / 16); hexDigit (Z_of_byte b mod 16)]) l.
Definition keyRef (transferID : gostring) : list byte :=
  bytes "transfer-" ++ hexEncode (Sum256 transferID).

(** How [Set] and [Delete] of the store end. *)
Inductive StoreResult := Done | Failed (applied : bool).

Definition store_Set (r : StoreResult) (ref : list byte) (v : Stored) (s : SecretStore)
    : SecretStore * bool :=
  match r with
  | Done => (<[ref := v]> s, true)
  | Failed applied => (if applied then <[ref := v]> s else s, false)
  end.

Definition store_Delete (r : StoreResult) (ref : list byte) (s : SecretStore) : SecretStore * bool :=
  match r with
  | Done => (delete ref s, true)
  | Failed applied => (if applied then delete ref s else s, false)
  end.

(** [json.Marshal] of a time: the year must be in 0..9999. *)
Definition jsonYear (t : Z) : bool :=
  (- 62167219200 * Second <=? t) && (t <? 253402300800 * Second).

(** [KeyVault.save] *)
Definition save (r : StoreResult) (now : Z) (transferID : gostring) (generation : Z)
    (material : KeyMaterial) (expiresAt : Z) (ownership : Ownership) (context : option Context)
    (s : SecretStore) : SecretStore * result TransferError unit :=
  if negb (validTransferID transferID) || (generation =? 0) || negb (material_Valid material)
     || (expiresAt =? zeroTime)
  then (s, Err ErrInvalid)
  else if expiresAt <=? now then (s, Err ErrInvalid)
  else match material_MarshalBinary material with
       | Err e => (s, Err e)
       | Ok encoded =>
           if negb (jsonYear expiresAt) then (s, Err ErrControlStore) else
           let p := mkPersisted ProtocolVersion transferID generation expiresAt ownership encoded
                      context in
           match store_Set r (keyRef transferID) (Decoded p) s with
           | (s, true) => (s, Ok tt)
           | (s, false) => (s, Err ErrControlStore)
           end
       end.

Definition fileTransferKey : gostring := bytes "file_transfer_key".

Definition saveBound (r : StoreResult) (now : Z) (transferID : gostring) (generation : Z)
    (material : KeyMaterial) (expiresAt : Z) (ownership : Ownership) (context : Context)
    (s : SecretStore) : SecretStore * result TransferError unit :=
  if bool_decide (xOperationID context = []) || negb (bool_decide (xConsumer context = fileTransferKey))
  then (s, Err ErrInvalid)
  else match Context_MarshalBinary context with
       | Err _ => (s, Err ErrInvalid)
       | Ok _ => save r now transferID generation material expiresAt ownership (Some context) s
       end.

(** [KeyVault.load]; [r] is the result of deleting an expired entry. *)
Definition load (r : StoreResult) (now : Z) (transferID : gostring) (generation : Z)
    (s : SecretStore) : SecretStore * result TransferError (KeyMaterial * persistedKey) :=
  if negb (validTransferID transferID) || (generation =? 0) then (s, Err ErrInvalid)
  else
    match s !! keyRef transferID with
    | None | Some Undecodable => (s, Err ErrKeyUnavailable)
    | Some (Decoded p) =>
        if negb (pVersion p =? ProtocolVersion) || negb (bool_decide (pTransferID p = transferID))
           || negb (pGeneration p =? generation) || (pExpiresAt p =? zeroTime)
        then (s, Err ErrKeyUnavailable)
        else if pExpiresAt p <=? now then ((store_Delete r (keyRef transferID) s).1, Err ErrKeyUnavailable)
        else match ParseKeyMaterial (pKeyMaterial p) with
             | Err _ => (s, Err ErrKeyUnavailable)
             | Ok material => (s, Ok (material, p))
             end
    end.

Definition LoadBound (r : StoreResult) (now : Z) (transferID : gostring) (generation : Z)
    (s : SecretStore) : SecretStore * result TransferError (KeyMaterial * Context) :=
  match load r now transferID generation s with
  | (s, Err _) => (s, Err ErrKeyUnavailable)
  | (s, Ok (material, p)) =>
      match pPeerContext p with
      | None => (s, Err ErrKeyUnavailable)
      | Some context =>
          if negb (bool_decide (xConsumer context = fileTransferKey))
             || bool_decide (xOperationID context = [])
          then (s, Err ErrKeyUnavailable)
          else match Context_MarshalBinary context with
               | Err _ => (s, Err ErrKeyUnavailable)
               | Ok _ => (s, Ok (material, context))
               end
      end
  end.

(** [LoadLocal]; no context is the zero [Context]. *)
Definition LoadLocal (r : StoreResult) (now : Z) (transferID : gostring) (generation : Z)
    (s : SecretStore) : SecretStore * result TransferError (KeyMaterial * option Context) :=
  match load r now transferID generation s with
  | (s, Err _) => (s, Err ErrKeyUnavailable)
  | (s, Ok (material, p)) =>
      if negb (bool_decide (pOwnership p = Local)) then (s, Err ErrKeyUnavailable)
      else match pPeerContext p with
           | None => (s, Ok (material, None))
           | Some context =>
               match Context_MarshalBinary context with
               | Err _ => (s, Err ErrKeyUnavailable)
               | Ok _ => (s, Ok (material, Some context))
               end
           end
  end.

(** [KeyVault.Delete] *)
Definition vault_Delete (r : StoreResult) (transferID : gostring) (s : SecretStore)
    : SecretStore * result TransferError unit :=
  if negb (validTransferID transferID) then (s, Err ErrInvalid)
  else match store_Delete r (keyRef transferID) s with
       | (s, true) => (s, Ok tt)
       | (s, false) => (s, Err ErrControlStore)
       end.

(** [ReceiveKey]: the store, what was sent, and the result. *)
Definition ReceiveKey (ws : WriteResults) (input : list byte) (r : StoreResult) (now : Z)
    (expected : KeyControlBinding) (context : Context) (s : SecretStore)
    : SecretStore * list byte * result TransferError unit :=
  if negb (validateControlBinding expected)
     || negb (bool_decide (xOperationID context = bOperationID expected))
     || negb (bool_decide (xConsumer context = fileTransferKey))
  then (s, [], Err ErrControlContext)
  else
    match readControlFrame input with
    | None => (s, [], Err ErrControlRead)
    | Some (payload, _) =>
        match parseKeyControl payload with
        | Err _ => (s, [], Err ErrControlRejected)
        | Ok (b, material) =>
            if negb (bool_decide (bOperationID b = bOperationID expected))
               || negb (bool_decide (bTransferID b = bTransferID expected))
               || negb (bGeneration b =? bGeneration expected)
               || negb (bExpiresAt b =? TruncateSecond (bExpiresAt expected))
            then (s, [], Err ErrControlRejected)
            else
              match saveBound r now (bTransferID b) (bGeneration b) material (bExpiresAt b)
                      Received context s with
              | (s, Err _) => (s, [], Err ErrControlStore)
              | (s, Ok _) =>
                  match writeAll ws (controlAcknowledgement payload) with
                  | (sent, _, true) => (s, sent, Ok tt)
                  | (sent, _, false) => (s, sent, Err ErrControlAck)
                  end
              end
        end
    end.

(** ** The coordinator *)

(** [PreparedKey] without its optional direct transport. *)
Definition PreparedKey := (KeyMaterial * Context)%type.

(** What the environment of one [Prepare] does: the clock, the random source, the store,
    and whether the peer took the key (with the context of the stream). *)
Record PrepareIO := mkPrepareIO {
  pNow : Z; pRandom : list byte; pLoad : StoreResult; pSave : StoreResult; pBound : StoreResult;
  pDelivered : option Context }.

(** The end of [Prepare], with the key it uses: delivery and the binding to the context. *)
Definition finishPrepare (io : PrepareIO) (b : KeyControlBinding) (k : KeyMaterial) (s : SecretStore)
    : SecretStore * result TransferError PreparedKey :=
  match pDelivered io with
  | None => (s, Err ErrControlSend)
  | Some context =>
      match saveBound (pBound io) (pNow io) (bTransferID b) (bGeneration b) k
              (bExpiresAt b) Local context s with
      | (s, Err e) => (s, Err e)
      | (s, Ok _) => (s, Ok (k, context))
      end
  end.

(** [KeyCoordinator.Prepare] *)
Definition Prepare (io : PrepareIO) (b : KeyControlBinding) (s : SecretStore)
    : SecretStore * result TransferError PreparedKey :=
  match load (pLoad io) (pNow io) (bTransferID b) (bGeneration b) s with
  | (s, Ok (material, _)) => finishPrepare io b material s
  | (s, Err ErrKeyUnavailable) =>
      match generateKeyMaterial (pRandom io) with
      | Err e => (s, Err e)
      | Ok material =>
          match save (pSave io) (pNow io) (bTransferID b) (bGeneration b) material (bExpiresAt b)
                  Local None s with
          | (s, Err e) => (s, Err e)
          | (s, Ok _) => finishPrepare io b material s
          end
      end
  | (s, Err e) => (s, Err e)
  end.

(** [KeyCoordinator.Receive]; [receive] is the peer's delivery into the vault. *)
Definition Receive (now : Z) (r1 r2 : StoreResult)
    (receive : SecretStore -> SecretStore * option Context)
    (b : KeyControlBinding) (s : SecretStore) : SecretStore * result TransferError PreparedKey :=
  match LoadBound r1 now (bTransferID b) (bGeneration b) s with
  | (s, Ok prepared) => (s, Ok prepared)
  | (s, Err ErrKeyUnavailable) =>
      match receive s with
      | (s, None) => (s, Err ErrControlRead)
      | (s, Some peer) =>
          match LoadBound r2 now (bTransferID b) (bGeneration b) s with
          | (s, Ok (material, stored)) =>
              if bool_decide (stored = peer) then (s, Ok (material, peer))
              else (s, Err ErrControlRejected)
          | (s, Err e) => (s, Err e)
          end
      end
  | (s, Err e) => (s, Err e)
  end.

(** [KeyCoordinator.Erase] *)
Definition Erase : StoreResult -> gostring -> SecretStore -> SecretStore * result TransferError unit :=
  vault_Delete.
