(* ===== verification/TransferKeysProps.v ===== *)
(** * Agreement on transfer keys

    The key control message round trips; a sender that is acknowledged knows what the
    receiver can load; and every preparation of one transfer generation before its
    expiry uses one key. *)
From S2P Require Import Prelude.
From S2P Require Import Codec.
From S2P Require Import Sha256.
From S2P Require Import TransferCodec.
From S2P Require Import TransferCrypto.
From S2P Require Import TransferCryptoProps.
From S2P Require Import PeerContext.
From S2P Require Import TransferKeys.
Set Warnings "-clear-no-such-hyp".

(** The generation is a [uint64], and the seconds of the expiry an [int64]. *)
Definition binding_typed (b : KeyControlBinding) : Prop :=
  0 <= bGeneration b < 256 ^ 8 /\ Unix (bExpiresAt b) < 2 ^ 63.

(** ** The message *)
Lemma readUint_Some n s z rest :
  readUint n s = Some (z, rest) -> s = be_put n z ++ rest /\ 0 <= z < 256 ^ Z.of_nat n.
Proof.
  unfold readUint. destruct (ReadFull n s) as [[v r]|] eqn:E; [|done]. intros [= <- <-].
  apply ReadFull_Ok in E as [-> <-]. rewrite be_put_get. split; [done|].
  pose proof (be_get_range v) as H. unfold len in H. done.
Qed.

Lemma readString_Some s v rest :
  readString s = Some (v, rest) -> s = appendString v ++ rest /\ 0 < len v < 65536.
Proof.
  unfold readString. destruct (readUint 2 s) as [[size r]|] eqn:E; [|done].
  apply readUint_Some in E as [-> Hs]. simpl in Hs. cbn [mbind option_bind].
  destruct (_ || _) eqn:E; [done|]. intros [= <- <-]. bool_hyps.
  assert (HL : len (ztake size r) = size) by (apply len_ztake; lia).
  unfold appendString, PutUint16. rewrite HL, <- app_assoc, ztake_zdrop. split; [done|lia].
Qed.

Lemma validateControlBinding_fields b :
  validateControlBinding b = true ->
  identifier (bOperationID b) = true /\ identifier (bTransferID b) = true /\ bGeneration b <> 0 /\
  bExpiresAt b <> zeroTime /\ Nanosecond (bExpiresAt b) = 0 /\ 0 < Unix (bExpiresAt b).
Proof.
  unfold validateControlBinding, validTransferID. intros H. bool_hyps. repeat split; try done; lia.
Qed.

Lemma whole_seconds t : Nanosecond t = 0 -> TruncateSecond t = t /\ t = Unix t * Second.
Proof.
  unfold Nanosecond, TruncateSecond, Unix, Second. intros H. rewrite H.
  pose proof (Z.div_mod t 1000000000 ltac:(done)). lia.
Qed.

Lemma marshalKeyControl_Ok b k payload :
  marshalKeyControl b k = Ok payload ->
  validateControlBinding b = true /\ exists key, material_MarshalBinary k = Ok key /\
  payload = bytes "PBKC" ++ PutByte controlVersion ++ appendString (bOperationID b)
    ++ appendString (bTransferID b) ++ PutUint64 (bGeneration b)
    ++ PutUint64 (Unix (bExpiresAt b)) ++ key /\ len payload <= maxControlPayload.
Proof.
  unfold marshalKeyControl. destruct (negb _ || _) eqn:E; [done|].
  destruct (material_MarshalBinary k) as [key|] eqn:HK; [|done]. cbv zeta.
  destruct (maxControlPayload <? _) eqn:HL; [done|].
  intros H. apply Ok_inj in H as <-. bool_hyps. split; [done|]. exists key.
  destruct (validateControlBinding_fields b H) as (_&_&_&_&HN&_).
  destruct (whole_seconds _ HN) as [HT _]. rewrite HT in *. done.
Qed.

Lemma parseKeyControl_marshalled b k payload :
  binding_typed b -> material_typed k -> marshalKeyControl b k = Ok payload ->
  parseKeyControl payload = Ok (b, k).
Proof.
  intros [HG HE] HK HM. destruct (marshalKeyControl_Ok _ _ _ HM) as (HV&key&Hkey&Hp&HL).
  destruct (validateControlBinding_fields b HV) as (Hop&Htr&_&_&HN&HU).
  apply identifier_length in Hop, Htr. destruct (whole_seconds _ HN) as [_ HT].
  unfold parseKeyControl.
  set (tail := appendString (bOperationID b) ++ appendString (bTransferID b)
    ++ PutUint64 (bGeneration b) ++ PutUint64 (Unix (bExpiresAt b)) ++ key) in *.
  rewrite app_assoc in Hp. subst payload.
  rewrite sub_here, (drop_app_length' _ tail 5) by done. rewrite bool_decide_true by done.
  rewrite (proj2 (Z.ltb_ge maxControlPayload _)) by done.
  rewrite len_app. change (len (bytes "PBKC" ++ PutByte controlVersion)) with 5.
  pose proof (len_nonneg tail). rewrite (proj2 (Z.ltb_ge _ 5)) by lia. cbn [orb negb].
  unfold tail. rewrite readString_put by lia. rewrite readString_put by lia.
  unfold PutUint64. rewrite readUint_put by done. rewrite readUint_put by (simpl; lia).
  rewrite (proj2 (Z.ltb_ge _ _)) by lia. cbv zeta.
  rewrite (ParseKeyMaterial_marshalled k key HK Hkey), <- HT.
  destruct b as [op tr g ex]. cbn [bOperationID bTransferID bGeneration bExpiresAt] in *.
  by rewrite HV.
Qed.

Lemma parseKeyControl_canonical b k payload :
  parseKeyControl payload = Ok (b, k) ->
  binding_typed b /\ material_typed k /\ marshalKeyControl b k = Ok payload.
Proof.
  unfold parseKeyControl. destruct (_ || _ || _) eqn:E1; [done|].
  destruct (readString (drop 5 payload)) as [[op s1]|] eqn:R1; [|done].
  destruct (readString s1) as [[tr s2]|] eqn:R2; [|done].
  destruct (readUint 8 s2) as [[g s3]|] eqn:R3; [|done].
  destruct (readUint 8 s3) as [[ex key]|] eqn:R4; [|done].
  destruct (2 ^ 63 - 1 <? ex) eqn:E2; [done|]. cbv zeta.
  destruct (ParseKeyMaterial key) as [m|] eqn:HK; [|done].
  destruct (validateControlBinding _) eqn:HV; cbn [negb]; [|done].
  intros H. apply Ok_inj in H. injection H as <- <-.
  apply readString_Some in R1 as [R1 _]. apply readString_Some in R2 as [-> _].
  apply readUint_Some in R3 as [-> Hg]. apply readUint_Some in R4 as [-> Hx].
  destruct (ParseKeyMaterial_canonical _ _ HK) as [HT HM]. bool_hyps.
  assert (Hu : Unix (ex * Second) = ex) by (apply Z.div_mul; done).
  split; [|split; [done|]].
  { split; [done|]. cbn [bExpiresAt]. rewrite Hu. lia. }
  unfold marshalKeyControl. rewrite HV, HM.
  assert (material_Valid m = true) as ->.
  { unfold material_MarshalBinary in HM. destruct (_ || _) eqn:HZ; [done|]. bool_hyps.
    unfold material_Valid. by repeat match goal with H : allZero _ = false |- _ => rewrite H end. }
  cbn [negb orb bOperationID bTransferID bGeneration bExpiresAt]. cbv zeta.
  unfold TruncateSecond. rewrite Z_mod_mult, Z.sub_0_r, Hu.
  match goal with |- context [maxControlPayload <? len ?p] => assert (Hp : p = payload) end.
  { rewrite <- (take_drop 5 payload), R1. change (take 5 payload) with (sub 0 5 payload).
    by match goal with H : sub _ _ _ = _ |- _ => rewrite H, <- !app_assoc end. }
  rewrite Hp. by rewrite (proj2 (Z.ltb_ge _ _)) by lia.
Qed.

(** ** The carrier *)
Lemma writeAll_Ok ws payload sent ws' : writeAll ws payload = (sent, ws', true) -> sent = payload.
Proof.
  revert payload sent ws'. induction ws as [|[n fails] ws IH]; intros [|b p] sent ws'; simpl;
    try by intros [= <- <-].
  destruct fails; [done|]. destruct (_ || _) eqn:E; [done|].
  destruct (writeAll ws _) as [[sent1 ws1] ok] eqn:HW. intros [= <- <- ->].
  apply IH in HW as ->. apply ztake_zdrop.
Qed.

Lemma readControlFrame_sent ws payload sent ws' rest :
  writeControlFrame ws payload = (sent, ws', true) ->
  readControlFrame (sent ++ rest) = Some (payload, rest).
Proof.
  unfold writeControlFrame, readControlFrame. destruct (_ || _) eqn:E; [done|]. bool_hyps.
  destruct (writeAll ws _) as [[s1 ws1] [|]] eqn:H1; [|done].
  destruct (writeAll ws1 payload) as [[s2 ws2] ok] eqn:H2. intros [= <- <- ->].
  apply writeAll_Ok in H1 as ->. apply writeAll_Ok in H2 as ->.
  pose proof (len_nonneg payload). unfold maxControlPayload, PutUint16 in *.
  rewrite <- app_assoc, ReadFull_app by apply be_put_length.
  rewrite be_get_put_id by (simpl; lia). cbv zeta.
  rewrite (proj2 (Z.eqb_neq _ _)), (proj2 (Z.ltb_ge _ _)) by lia. cbn [orb].
  rewrite ReadFull_app; [done|]. unfold len. by rewrite Nat2Z.id.
Qed.

(** ** What the vault holds *)
Definition holds (s : SecretStore) (transferID : gostring) (generation : Z) (k : KeyMaterial)
    (p : persistedKey) : Prop :=
  s !! keyRef transferID = Some (Decoded p) /\ pVersion p = ProtocolVersion /\
  pTransferID p = transferID /\ pGeneration p = generation /\ pExpiresAt p <> zeroTime /\
  ParseKeyMaterial (pKeyMaterial p) = Ok k.

Lemma load_holds r now id g k p s :
  holds s id g k p -> validTransferID id = true -> g <> 0 -> now < pExpiresAt p ->
  load r now id g s = (s, Ok (k, p)).
Proof.
  intros (H1&H2&H3&H4&H5&H6) HV Hg Hn. unfold load. rewrite HV, H1, H2, H3, H4, H6.
  rewrite (proj2 (Z.eqb_neq g 0)), (proj2 (Z.eqb_neq (pExpiresAt p) _)) by done.
  rewrite Z.eqb_refl, bool_decide_true, Z.eqb_refl by done. cbn [negb orb].
  by rewrite (proj2 (Z.leb_gt _ _)) by done.
Qed.

Lemma save_holds r now id g k ex own ctx s s' :
  material_typed k -> save r now id g k ex own ctx s = (s', Ok tt) ->
  validTransferID id = true /\ g <> 0 /\ now < ex /\
  exists key, holds s' id g k (mkPersisted ProtocolVersion id g ex own key ctx).
Proof.
  intros HK. unfold save. destruct (negb (validTransferID id) || _ || _ || _) eqn:E1; [done|].
  destruct (ex <=? now) eqn:E2; [done|].
  destruct (material_MarshalBinary k) as [key|] eqn:HM; [|done].
  destruct (jsonYear ex); cbn [negb]; [|done]. cbv zeta. destruct r as [|[|]]; simpl; [|done|done].
  intros [= <-]. bool_hyps. repeat split; try done. exists key.
  repeat split; simpl; try done; [apply lookup_insert_eq|].
  by apply ParseKeyMaterial_marshalled.
Qed.

(** A save that does not succeed leaves the entry or what it would have written. *)
Lemma save_outcome r now id g k ex own ctx s :
  (save r now id g k ex own ctx s).1 = s \/
  exists key, material_MarshalBinary k = Ok key /\ validTransferID id = true /\ g <> 0 /\ now < ex /\
    ex <> zeroTime /\
    (save r now id g k ex own ctx s).1
    = <[keyRef id := Decoded (mkPersisted ProtocolVersion id g ex own key ctx)]> s.
Proof.
  unfold save. destruct (negb (validTransferID id) || _ || _ || _) eqn:E1; [by left|].
  destruct (ex <=? now) eqn:E2; [by left|].
  destruct (material_MarshalBinary k) as [key|] eqn:HM; [|by left].
  destruct (negb (jsonYear ex)); [by left|]. cbv zeta. bool_hyps.
  destruct r as [|[|]]; simpl; [right|right|by left]; exists key; repeat split; done.
Qed.

Lemma LoadBound_saved r' now now' r id g k ex own ctx s s' :
  material_typed k -> saveBound r now id g k ex own ctx s = (s', Ok tt) -> now' < ex ->
  LoadBound r' now' id g s' = (s', Ok (k, ctx)).
Proof.
  intros HK HS Hn. unfold saveBound in HS. destruct (_ || _) eqn:E; [done|].
  destruct (Context_MarshalBinary ctx) eqn:HC; [|done].
  destruct (save_holds _ _ _ _ _ _ _ _ _ _ HK HS) as (HV&Hg&_&key&HH).
  unfold LoadBound. rewrite (load_holds _ _ _ _ _ _ _ HH) by done. cbn [pPeerContext].
  apply orb_false_iff in E as [E1 E2]. apply negb_false_iff in E2. by rewrite E1, E2, HC.
Qed.

(** ** Agreement *)
Lemma controlAcknowledgement_length p : length (controlAcknowledgement p) = 37%nat.
Proof. unfold controlAcknowledgement. by rewrite !length_app, Sum256_length. Qed.

Lemma DeliverKey_Ok ws answer b k sent :
  DeliverKey ws answer b k = (sent, Ok tt) ->
  exists payload rest, marshalKeyControl b k = Ok payload /\
    answer = controlAcknowledgement payload ++ rest.
Proof.
  unfold DeliverKey. destruct (marshalKeyControl b k) as [p|]; [|done].
  destruct (writeControlFrame ws p) as [[s ws'] [|]]; [|done].
  destruct (ReadFull 37 answer) as [[ack rest]|] eqn:HR; [|done].
  case_bool_decide as Hack; [|done]. intros _. exists p, rest. split; [done|].
  apply ReadFull_Ok in HR as [-> _]. by rewrite Hack.
Qed.

Lemma ReceiveKey_Ok ws input r now expd ctx s s' sent :
  ReceiveKey ws input r now expd ctx s = (s', sent, Ok tt) ->
  exists payload rest b k, readControlFrame input = Some (payload, rest) /\
    parseKeyControl payload = Ok (b, k) /\ sent = controlAcknowledgement payload /\
    bOperationID b = bOperationID expd /\ bTransferID b = bTransferID expd /\
    bGeneration b = bGeneration expd /\ bExpiresAt b = TruncateSecond (bExpiresAt expd) /\
    saveBound r now (bTransferID b) (bGeneration b) k (bExpiresAt b) Received ctx s = (s', Ok tt).
Proof.
  unfold ReceiveKey. destruct (negb (validateControlBinding expd) || _ || _); [done|].
  destruct (readControlFrame input) as [[p rest]|] eqn:HR; [|done].
  destruct (parseKeyControl p) as [[b k]|] eqn:HP; [|done].
  destruct (negb (bool_decide (bOperationID b = _)) || _ || _ || _) eqn:HB; [done|].
  destruct (saveBound _ _ _ _ _ _ _ _ _) as [s1 [[]|]] eqn:HS; [|done].
  destruct (writeAll ws _) as [[sent1 ws1] [|]] eqn:HW; [|done].
  intros [[<- <-]%pair_eq _]%pair_eq. apply writeAll_Ok in HW as ->. bool_hyps.
  exists p, rest, b, k. repeat split; done.
Qed.

Lemma delivered_agrees wsA answer bA kA sentA wsB input r now expd ctx s s' sentB :
  binding_typed bA -> material_typed kA ->
  DeliverKey wsA answer bA kA = (sentA, Ok tt) ->
  ReceiveKey wsB input r now expd ctx s = (s', sentB, Ok tt) ->
  sentB `prefix_of` answer ->
  (forall pA pB rest, marshalKeyControl bA kA = Ok pA -> readControlFrame input = Some (pB, rest) ->
     Sum256 pA = Sum256 pB -> pA = pB) ->
  forall r' now', now' < bExpiresAt bA ->
  LoadBound r' now' (bTransferID bA) (bGeneration bA) s' = (s', Ok (kA, ctx)).
Proof.
  intros HbT HkT HD HR [x Hx] HC r' now' Hn.
  destruct (DeliverKey_Ok _ _ _ _ _ HD) as (pA&rest&HM&Hans).
  destruct (ReceiveKey_Ok _ _ _ _ _ _ _ _ _ HR) as (pB&rest'&b&k&HF&HP&->&_&_&_&_&HS).
  assert (pA = pB) as ->.
  { apply (HC pA pB rest' HM HF). rewrite Hans in Hx.
    apply app_inj_1 in Hx as [Hx _]; [|by rewrite !controlAcknowledgement_length].
    unfold controlAcknowledgement in Hx. apply app_inv_head in Hx. by apply app_inv_head in Hx. }
  rewrite (parseKeyControl_marshalled _ _ _ HbT HkT HM) in HP.
  apply Ok_inj in HP. injection HP as <- <-. by eapply LoadBound_saved.
Qed.

(** ** One key per transfer generation *)

(** Preparations one after the other, with the clock, the random source, the store and
    the peer of each. *)
Fixpoint prepareAll (runs : list (PrepareIO * KeyControlBinding)) (s : SecretStore)
    : SecretStore * list (result TransferError PreparedKey) :=
  match runs with
  | [] => (s, [])
  | (io, b) :: runs =>
      let '(s', r) := Prepare io b s in
      let '(s'', rs) := prepareAll runs s' in (s'', r :: rs)
  end.

(** The entry of a transfer is [k] for this generation, unexpired until [E]. *)
Definition keeps (s : SecretStore) (id : gostring) (g : Z) (k : KeyMaterial) (E : Z) : Prop :=
  material_typed k /\ exists p, holds s id g k p /\ E <= pExpiresAt p.

Lemma generateKeyMaterial_typed random k : generateKeyMaterial random = Ok k -> material_typed k.
Proof.
  unfold generateKeyMaterial. destruct (ReadFull 32 random) as [[key r]|] eqn:H1; [|done].
  destruct (ReadFull 8 r) as [[p r']|] eqn:H2; [|done]. case_match; [done|]. intros [= <-].
  apply ReadFull_Ok in H1 as [_ H1]. apply ReadFull_Ok in H2 as [_ H2]. by split.
Qed.

Lemma save_keeps r now id g k ex own ctx s E :
  keeps s id g k E -> E <= ex -> keeps (save r now id g k ex own ctx s).1 id g k E.
Proof.
  intros [HT HK] HE. split; [done|].
  destruct (save_outcome r now id g k ex own ctx s) as [->|(key&HM&_&_&_&Hz&->)]; [done|].
  exists (mkPersisted ProtocolVersion id g ex own key ctx). split; [|exact HE].
  repeat split; simpl; try done; [apply lookup_insert_eq|].
  by apply ParseKeyMaterial_marshalled.
Qed.

Lemma saveBound_keeps r now id g k ex own ctx s E :
  keeps s id g k E -> E <= ex -> keeps (saveBound r now id g k ex own ctx s).1 id g k E.
Proof.
  intros HK HE. unfold saveBound. repeat case_match; simpl; try done. by apply save_keeps.
Qed.

Section one_key.
Context (id : gostring) (g E : Z).

(** A preparation of this transfer generation, before [E], for at least until [E]. *)
Definition in_time (run : PrepareIO * KeyControlBinding) : Prop :=
  bTransferID run.2 = id /\ bGeneration run.2 = g /\ pNow run.1 < E /\ E <= bExpiresAt run.2.

Lemma load_Ok r now s s' k p :
  load r now id g s = (s', Ok (k, p)) ->
  s' = s /\ material_typed k /\ holds s id g k p /\ validTransferID id = true /\ g <> 0.
Proof.
  unfold load. destruct (negb (validTransferID id) || _) eqn:H1; [done|].
  destruct (s !! keyRef id) as [[q|]|] eqn:H2; [|done..].
  destruct (negb (pVersion q =? _) || _ || _ || _) eqn:H3; [done|].
  destruct (pExpiresAt q <=? now); [done|].
  destruct (ParseKeyMaterial (pKeyMaterial q)) as [m|] eqn:H4; [|done].
  intros [<- Hr]%pair_eq. apply Ok_inj in Hr. injection Hr as <- <-. bool_hyps.
  split; [done|]. split; [by apply (ParseKeyMaterial_canonical _ _ H4)|]. by repeat split.
Qed.

Lemma finish_keeps io b k s s' r :
  in_time (io, b) -> keeps s id g k E -> finishPrepare io b k s = (s', r) ->
  keeps s' id g k E /\ forall m ctx, r = Ok (m, ctx) -> m = k.
Proof.
  intros (<-&<-&Hn&HE) HK. simpl in *. unfold finishPrepare.
  destruct (pDelivered io) as [ctx|]; [|by intros [<- <-]%pair_eq].
  pose proof (saveBound_keeps (pBound io) (pNow io) _ _ _ (bExpiresAt b) Local ctx s E HK HE) as HK'.
  destruct (saveBound _ _ _ _ _ _ _ _ _) as [s1 [[]|]]; simpl in HK'; intros [<- <-]%pair_eq;
    (split; [done|]); [|done]. by intros m ctx' [= <- <-].
Qed.

Lemma finish_Ok io b k s s' m ctx :
  in_time (io, b) -> material_typed k -> finishPrepare io b k s = (s', Ok (m, ctx)) ->
  m = k /\ keeps s' id g k E.
Proof.
  intros (<-&<-&Hn&HE) HT. simpl in *. unfold finishPrepare.
  destruct (pDelivered io) as [ctx0|]; [|done].
  destruct (saveBound _ _ _ _ _ _ _ _ _) as [s1 [[]|]] eqn:HS; [|done].
  intros [<- Hr]%pair_eq. apply Ok_inj in Hr. injection Hr as <- <-. split; [done|]. split; [done|].
  unfold saveBound in HS. destruct (_ || _); [done|].
  destruct (Context_MarshalBinary ctx0); [|done].
  destruct (save_holds _ _ _ _ _ _ _ _ _ _ HT HS) as (_&_&_&key&HH). by eexists.
Qed.

Lemma Prepare_keeps io b k s s' r :
  in_time (io, b) -> validTransferID id = true -> g <> 0 -> keeps s id g k E ->
  Prepare io b s = (s', r) -> keeps s' id g k E /\ forall m ctx, r = Ok (m, ctx) -> m = k.
Proof.
  intros HI HV Hg HK. pose proof HI as (Hid&Hgen&Hn&_). simpl in *.
  destruct HK as [HT (p&HH&Hp)]. unfold Prepare. rewrite Hid, Hgen.
  rewrite (load_holds _ _ _ _ _ _ _ HH HV Hg) by lia.
  apply (finish_keeps io b k s s' r HI).
  split; [done|]. by exists p.
Qed.

(** A preparation that succeeds leaves its key. *)
Lemma Prepare_Ok io b s s' m ctx :
  in_time (io, b) -> Prepare io b s = (s', Ok (m, ctx)) ->
  keeps s' id g m E /\ validTransferID id = true /\ g <> 0.
Proof.
  intros HI. pose proof HI as (Hid&Hgen&_&_). simpl in *. unfold Prepare. rewrite Hid, Hgen.
  destruct (load _ _ _ _ _) as [s1 [[k p]|er]] eqn:HL.
  - destruct (load_Ok _ _ _ _ _ _ HL) as (->&HT&_&HV&Hg). intros HF.
    by destruct (finish_Ok io b k s s' m ctx HI HT HF) as [-> HK].
  - destruct er; try done. destruct (generateKeyMaterial _) as [k|] eqn:HG; [|done].
    destruct (save _ _ _ _ _ _ _ _ _) as [s2 [[]|]] eqn:HS; [|done].
    pose proof (generateKeyMaterial_typed _ _ HG) as HT.
    destruct (save_holds _ _ _ _ _ _ _ _ _ _ HT HS) as (HV&Hg&_).
    intros HF.
    by destruct (finish_Ok io b k s2 s' m ctx HI HT HF) as [-> HK].
Qed.

Lemma prepareAll_keeps runs s s' rs k :
  Forall in_time runs -> validTransferID id = true -> g <> 0 -> keeps s id g k E ->
  prepareAll runs s = (s', rs) -> forall m ctx, Ok (m, ctx) ∈ rs -> m = k.
Proof.
  intros HF HV Hg. revert s s' rs. induction HF as [|[io b] runs HI HF IH];
    intros s s' rs HK; cbn [prepareAll].
  - intros [<- <-]%pair_eq m ctx. by rewrite elem_of_nil.
  - destruct (Prepare io b s) as [s1 r] eqn:HP. destruct (prepareAll runs s1) as [s2 rs'] eqn:HR.
    intros [<- <-]%pair_eq m ctx. destruct (Prepare_keeps _ _ _ _ _ _ HI HV Hg HK HP) as [HK1 Hr].
    rewrite elem_of_cons. intros [<-|Hin]; [by eapply Hr|]. by eapply IH.
Qed.

Lemma prepareAll_one_key runs s s' rs :
  Forall in_time runs -> prepareAll runs s = (s', rs) ->
  forall m m' ctx ctx', Ok (m, ctx) ∈ rs -> Ok (m', ctx') ∈ rs -> m = m'.
Proof.
  intros HF. revert s s' rs. induction HF as [|[io b] runs HI HF IH]; intros s s' rs; cbn [prepareAll].
  - intros [<- <-]%pair_eq m m' ctx ctx'. by rewrite elem_of_nil.
  - destruct (Prepare io b s) as [s1 r] eqn:HP. destruct (prepareAll runs s1) as [s2 rs'] eqn:HR.
    intros [<- <-]%pair_eq m m' ctx ctx'. destruct r as [[k c]|er].
    + destruct (Prepare_Ok _ _ _ _ _ _ HI HP) as (HK&HV&Hg).
      assert (Hall : forall m ctx, Ok (m, ctx) ∈ Ok (k, c) :: rs' -> m = k).
      { intros n cn. rewrite elem_of_cons. intros [Hn|Hin].
        - apply Ok_inj in Hn. by injection Hn.
        - by eapply (prepareAll_keeps runs s1). }
      intros H1 H2. by rewrite (Hall _ _ H1), (Hall _ _ H2).
    + rewrite !elem_of_cons. intros [|H1]; [done|]. intros [|H2]; [done|]. by eapply IH.
Qed.
End one_key.
