(* ===== verification/TransferProps.v ===== *)
(** * The theorems on encrypted transfers

    Canonical and disjoint encodings, well-formed manifests, distinct nonces, what a
    staging file can hold, and agreement on keys; with a concrete cipher at which the
    hypotheses are met. *)
From S2P Require Import Prelude.
From S2P Require Import Codec.
From S2P Require Import Sha256.
From S2P Require Import TransferCodec.
From S2P Require Import TransferManifest.
From S2P Require Import TransferCrypto.
From S2P Require Import TransferCryptoProps.
From S2P Require Import TransferFile.
From S2P Require Import TransferFileProps.
From S2P Require Import PeerContext.
From S2P Require Import TransferKeys.
From S2P Require Import TransferKeysProps.
Set Warnings "-clear-no-such-hyp".

(** ** Everything the packages encode *)
Inductive Encoded :=
| EManifest (m : Manifest) | EReceipt (r : FinalReceipt) | EMaterial (k : KeyMaterial)
| EKeyControl (b : KeyControlBinding) (k : KeyMaterial)
| EChunk (c : ChunkContext) (n : Z) | ERecord (c : RecordContext) (n : Z)
| EContext (c : Context) | ETransport (c : Transport) | EStream (c : Stream).

Definition ok {E X} (r : result E X) : option X := match r with Ok x => Some x | Err _ => None end.

Definition encode (x : Encoded) : option (list byte) :=
  match x with
  | EManifest m => ok (Manifest_MarshalBinary m)
  | EReceipt r => ok (FinalReceipt_MarshalBinary r)
  | EMaterial k => ok (material_MarshalBinary k)
  | EKeyControl b k => ok (marshalKeyControl b k)
  | EChunk c n => ok (chunkAdditionalData c n)
  | ERecord c n => ok (recordAdditionalData c n)
  | EContext c => ok (Context_MarshalBinary c)
  | ETransport c => ok (Transport_MarshalBinary c)
  | EStream c => ok (Stream_MarshalBinary c)
  end.

(** The fields are in the ranges of their Go types. *)
Definition typed (x : Encoded) : Prop :=
  match x with
  | EManifest m => manifest_typed m
  | EReceipt r => receipt_typed r
  | EMaterial k => material_typed k
  | EKeyControl b k => binding_typed b /\ material_typed k
  | EChunk c n => chunk_typed c
  | ERecord c n => record_typed c
  | EContext c => context_typed c
  | ETransport c => transport_typed c
  | EStream c => stream_typed c
  end.

Definition magic (x : Encoded) : list byte :=
  bytes match x with
        | EManifest _ => "PBMF" | EReceipt _ => "PBRC" | EMaterial _ => "PBTK"
        | EKeyControl _ _ => "PBKC" | EChunk _ _ => "PBTC" | ERecord _ _ => "PBTR"
        | EContext _ => "PBPC" | ETransport _ => "PBPT" | EStream _ => "PBPS"
        end.

Lemma ok_Some {E X} (r : result E X) x : ok r = Some x <-> r = Ok x.
Proof. destruct r; simpl; split; congruence. Qed.

Ltac starts_with H :=
  repeat match type of H with context [if ?c then _ else _] => destruct c; [discriminate H|] end;
  apply Ok_inj in H; subst.

Lemma encode_magic x b : encode x = Some b -> exists rest, b = magic x ++ rest.
Proof.
  destruct x; simpl; rewrite ok_Some; intros H.
  - apply Manifest_MarshalBinary_Ok in H as (->&_). unfold manifestHeader.
    rewrite <- !app_assoc. by eexists.
  - apply FinalReceipt_MarshalBinary_Ok in H as (->&_). unfold receiptHeader.
    rewrite <- !app_assoc. by eexists.
  - unfold material_MarshalBinary in H. starts_with H. by eexists.
  - apply marshalKeyControl_Ok in H as (_&key&_&->&_). by eexists.
  - unfold chunkAdditionalData in H. starts_with H. by eexists.
  - unfold recordAdditionalData in H. starts_with H. by eexists.
  - unfold Context_MarshalBinary in H. starts_with H. by eexists.
  - unfold Transport_MarshalBinary in H. starts_with H. by eexists.
  - unfold Stream_MarshalBinary in H. starts_with H. by eexists.
Qed.

(** Readers of the two encodings that no code parses. *)
Definition d_transport : Decoder Transport :=
  _ ← d_magic (bytes "PBPT"); _ ← d_byte;
  account ← d_string 128; user ← d_string 128; device ← d_string 128; machine ← d_string 128;
  ihash ← d_copy 32; rhash ← d_copy 32; host ← d_uint64; authorization ← d_uint64;
  transport ← d_string 128; irole ← d_string 128; rrole ← d_string 128; attempt ← d_uint64;
  mret (mkTransport account user device machine ihash rhash host authorization transport irole
          rrole attempt).

Definition d_stream : Decoder Stream :=
  _ ← d_magic (bytes "PBPS"); _ ← d_byte;
  transport ← d_copy 32; operation ← d_string 128; consumer ← d_string 128; stream ← d_string 128;
  credential ← d_copy 32; deadline ← d_uint64; maximum ← d_uint64;
  mret (mkStream transport operation consumer stream credential deadline maximum).

Lemma Transport_reads c b :
  transport_typed c -> Transport_MarshalBinary c = Ok b -> Decodes d_transport b c.
Proof.
  intros [] H. unfold Transport_MarshalBinary in H.
  destruct (forallb _ _) eqn:Hid; cbn [negb] in H; [|discriminate H]. starts_with H.
  apply forallb_identifiers in Hid as Hid'. apply forallb_identifier in Hid.
  rewrite !Forall_cons in Hid. destruct Hid as ((_&?)&(_&?)&(_&?)&(_&?)&(_&?)&(_&?)&(_&?)&_).
  clear Hid'. destruct c as [ac us dv mc ih rh hg ag tp ir rr at_];
  cbn [tAccountID tUserID tDeviceID tMachineID tInitiatorCertificateHash tResponderCertificateHash
    tHostGeneration tAuthorizationGeneration tTransportID tInitiatorRole tResponderRole
    tAttemptGeneration] in *.
  unfold d_transport. decode_fields.
Qed.

Lemma Stream_reads c b : stream_typed c -> Stream_MarshalBinary c = Ok b -> Decodes d_stream b c.
Proof.
  intros [] H. unfold Stream_MarshalBinary in H. case_match eqn:E; [done|].
  apply Ok_inj in H as <-. bool_hyps.
  destruct c as [th op cs sid ch dl mb];
    cbn [sTransportHash sOperationID sConsumer sStreamID sCredentialHash sDeadlineUnix
      sMaximumBytes] in *.
  repeat match goal with H : identifier _ = true |- _ => apply identifier_length in H end.
  unfold d_stream. decode_fields.
Qed.

Lemma Decodes_same {X} (m : Decoder X) b x y : Decodes m b x -> Decodes m b y -> x = y.
Proof. intros H1 H2. by destruct (Decodes_inj m b b x y [] [] H1 H2). Qed.

(** C9: Two values of any of the nine encodings of the transfer protocol (manifests,
    receipts, key records, key control messages, the additional data of chunks and of
    records, and the context, transport and stream bindings) with the same bytes are the
    same value of the same kind: nothing authenticated or hashed as one thing can be
    taken for another. *)
Theorem encodings_disjoint (x y : Encoded) (b : list byte) :
  typed x -> typed y -> encode x = Some b -> encode y = Some b -> x = y.
Proof.
  intros Tx Ty Hx Hy.
  assert (HM : magic x = magic y).
  { destruct (encode_magic x b Hx) as [r1 E1], (encode_magic y b Hy) as [r2 E2].
    rewrite E1 in E2. apply app_inj_1 in E2 as [E2 _]; [done|]. by destruct x, y. }
  destruct x, y; try discriminate HM; clear HM; simpl in *; rewrite ok_Some in Hx, Hy; f_equal.
  - apply (@Ok_inj TransferError).
    by rewrite <- (ParseManifest_marshalled m b), <- (ParseManifest_marshalled m0 b).
  - apply (@Ok_inj TransferError).
    by rewrite <- (ParseFinalReceipt_marshalled r b), <- (ParseFinalReceipt_marshalled r0 b).
  - apply (@Ok_inj TransferError).
    by rewrite <- (ParseKeyMaterial_marshalled k b), <- (ParseKeyMaterial_marshalled k0 b).
  - destruct Tx, Ty. pose proof (parseKeyControl_marshalled b0 k b ltac:(done) ltac:(done) Hx) as P.
    rewrite (parseKeyControl_marshalled b1 k0 b) in P by done. apply Ok_inj in P. congruence.
  - destruct Tx, Ty. pose proof (parseKeyControl_marshalled b0 k b ltac:(done) ltac:(done) Hx) as P.
    rewrite (parseKeyControl_marshalled b1 k0 b) in P by done. apply Ok_inj in P. congruence.
  - by apply (chunkAdditionalData_inj _ _ _ _ _ Tx Ty Hx Hy).
  - by apply (chunkAdditionalData_inj _ _ _ _ _ Tx Ty Hx Hy).
  - by apply (recordAdditionalData_inj _ _ _ _ _ Tx Ty Hx Hy).
  - by apply (recordAdditionalData_inj _ _ _ _ _ Tx Ty Hx Hy).
  - apply (@Ok_inj ContextError).
    by rewrite <- (ParseBinary_marshalled c b), <- (ParseBinary_marshalled c0 b).
  - by apply (Decodes_same d_transport b); apply Transport_reads.
  - by apply (Decodes_same d_stream b); apply Stream_reads.
Qed.

(** C10: The parsers accept exactly what the encoders produce: each of the five parsers
    returns a value if and only if its fields are in the ranges of their types and the
    input is that value's one encoding. *)
Theorem transfer_parsers_exact (b : list byte) :
  (forall m, ParseManifest b = Ok m <-> manifest_typed m /\ Manifest_MarshalBinary m = Ok b) /\
  (forall r, ParseFinalReceipt b = Ok r <-> receipt_typed r /\ FinalReceipt_MarshalBinary r = Ok b) /\
  (forall k, ParseKeyMaterial b = Ok k <-> material_typed k /\ material_MarshalBinary k = Ok b) /\
  (forall bd k, parseKeyControl b = Ok (bd, k) <->
     binding_typed bd /\ material_typed k /\ marshalKeyControl bd k = Ok b) /\
  (forall c, ParseBinary b = Ok c <-> context_typed c /\ Context_MarshalBinary c = Ok b).
Proof.
  repeat apply conj.
  - intros m. split; [apply ParseManifest_canonical|intros []; by apply ParseManifest_marshalled].
  - intros r. split; [apply ParseFinalReceipt_canonical|intros []; by apply ParseFinalReceipt_marshalled].
  - intros k. split; [apply ParseKeyMaterial_canonical|intros []; by apply ParseKeyMaterial_marshalled].
  - intros bd k. split; [apply parseKeyControl_canonical|].
    intros (?&?&?). by apply parseKeyControl_marshalled.
  - intros c. split; [apply ParseBinary_canonical|intros []; by apply ParseBinary_marshalled].
Qed.

(** What a receiver may rely on in a manifest that parsed. *)
Record manifest_wf (m : Manifest) : Prop := {
  mw_batch : identifier (BatchID m) = true;
  mw_files : 0 < len (Files m) <= maxManifestFiles;
  mw_transfers : NoDup (map TransferID (Files m));
  mw_ordinals : NoDup (map FileOrdinal (Files m));
  mw_file f : f ∈ Files m ->
    file_typed f /\ FileOrdinal f <> recordFileOrdinal /\ 0 <= Mode f <= 511 /\
    (ChunkCount f - 1) * ChunkSize <= Size f <= ChunkCount f * ChunkSize /\ 1 <= ChunkCount f /\
    splitSlash (Name f) = [Name f] /\ follow [Name f] [] = Some [Name f] /\
    follow (splitSlash (RelativeDestination f)) [] = Some (rev (splitSlash (RelativeDestination f))) /\
    joinSlash (splitSlash (RelativeDestination f)) = RelativeDestination f }.

Lemma ldiff_mode z : 0 <= z -> Z.ldiff z 511 = 0 -> 0 <= z <= 511.
Proof.
  intros Hz H. split; [done|]. change 511 with (Z.ones 9) in H.
  rewrite Z.ldiff_ones_r, Z.shiftl_mul_pow2, Z.shiftr_div_pow2 in H by lia.
  pose proof (Z.div_mod z (2 ^ 9) ltac:(done)). pose proof (Z.mod_pos_bound z (2 ^ 9) ltac:(done)). lia.
Qed.

Lemma validFilename_component n :
  validFilename n = true -> splitSlash n = [n] /\ n <> [] /\ n <> dot /\ n <> dotdot.
Proof.
  unfold validFilename. intros H. bool_hyps. split; [|repeat split; try done].
  - apply splitSlash_single. intros Hin.
    match goal with H : ContainsAny _ _ = false |- _ => apply (ContainsAny_false _ _ H _ Hin) end.
    by left.
  - intros ->. by rewrite len_nil in *.
Qed.

(** A manifest that parses is well formed: the fields have their types, transfer
    identifiers and ordinals are unique and never the ordinal reserved for records, the
    chunk count covers the size, no mode bit outside 0777 is set, a name is one ordinary
    path component, and following the destination never leaves the directory it starts in. *)
Theorem parsed_manifest_well_formed (b : list byte) (m : Manifest) :
  ParseManifest b = Ok m -> manifest_wf m.
Proof.
  intros HP. apply ParseManifest_canonical in HP as [HT HM].
  apply Manifest_MarshalBinary_Ok in HM as (_&_&Hid&Hn&HV&HN1&HN2).
  split; try done. intros f Hf. unfold manifest_typed in HT. rewrite Forall_forall in HT, HV.
  specialize (HT f Hf). specialize (HV f Hf).
  destruct (validateManifestFile_fields f HV) as (_&Ho&Hname&Hpath&Hmode&_&Hc).
  pose proof (wantChunks_spec (Size f) ltac:(apply HT)) as HW. rewrite <- Hc in HW.
  destruct (validFilename_component _ Hname) as (Hs&Hc1&Hc2&Hc3).
  pose proof (follow_ordinary [Name f] [] ltac:(by repeat constructor)) as HF.
  pose proof (follow_ordinary _ [] (validRelativePath_parts _ Hpath)) as HF2.
  rewrite app_nil_r in HF2. pose proof (ldiff_mode _ (proj1 (ft_mode f HT)) Hmode).
  pose proof ChunkSize_pos.
  split; [done|]. split; [done|]. split; [done|]. split; [lia|]. split; [lia|].
  split; [done|]. split; [done|]. split; [done|]. apply joinSlash_splitSlash.
Qed.

(** C12: Under one key, two ciphertexts share a nonce exactly when they are the same chunk
    of the same file or the same record: chunks and records never collide, whatever their
    contexts are. *)
Theorem transfer_nonces_distinct (material : KeyMaterial) (s s' : Sealed) (n n' : Z)
    (ad ad' : list byte) :
  sealed_typed s -> sealed_typed s' -> sealed_data s n = Ok ad -> sealed_data s' n' = Ok ad' ->
  (sealed_nonce material s = sealed_nonce material s' <-> slot s = slot s').
Proof. apply nonce_slot. Qed.

(** C8: Whatever a host answers and however attempts fail or the process dies, the
    staging file of a transfer holds a prefix of the sender's file, and when the last
    attempt returned nil it holds exactly that file.  What is assumed of the AEAD is that
    the ciphertexts received open only as they were sealed. *)
Theorem staged_file_is_source `{A : AEAD} `{!AEADLaws A} (material : KeyMaterial) (c : ChunkContext)
    (e : ManifestFile) (F : list byte) (log : list (Sealed * list byte)) (ios : list AttemptIO)
    (file : list byte) (es : list StageEnd) :
  transfer_ok c e F log -> Forall (attempt_authentic material c e log) ios ->
  stageAttempts ios material c e [] = (file, es) ->
  file `prefix_of` F /\ (last es = Some (Returned (Ok tt)) -> file = F).
Proof. intros TO HA. by apply (attempts_ok material c e F log TO ios []), HA; try apply prefix_nil. Qed.


(** A process that dies while a chunk is being written leaves a staging file from
    which no later attempt resumes: every one is refused with the resume offset error and
    leaves the file as it is. *)
Theorem torn_write_wedges `{A : AEAD} `{!AEADLaws A} (material : KeyMaterial) (c : ChunkContext)
    (e : ManifestFile) (F : list byte) (log : list (Sealed * list byte)) (n : Z)
    (ios : list AttemptIO) :
  transfer_ok c e F log -> agreed material c e F -> 0 < n < Z.min ChunkSize (len F) ->
  stageAttempts (torn material c F n :: ios) material c e []
  = (ztake n F, Died :: replicate (length ios) (Returned (Err ErrResumeOffset))).
Proof.
  intros TO AG Hn. assert (HL : len (ztake n F) = n) by (apply len_ztake; lia).
  cbn [stageAttempts]. rewrite (stage_torn material c e F log TO n AG Hn).
  rewrite (torn_forever material c e F log TO ios (ztake n F) AG); [done|..]; rewrite HL.
  - rewrite (to_size c e F log TO). lia.
  - rewrite Z.mod_small; lia.
Qed.

(** A sender whose key was acknowledged knows what the receiver has: if the
    acknowledgement it read is the one a receiver sent, and the two payloads do not
    collide under SHA-256, the receiver's vault returns that key, with the context of its
    stream, for that transfer and generation until the key expires. *)
Theorem acknowledged_key_is_loadable wsA answer bA kA sentA wsB input r now expd ctx s s' sentB :
  binding_typed bA -> material_typed kA ->
  DeliverKey wsA answer bA kA = (sentA, Ok tt) ->
  ReceiveKey wsB input r now expd ctx s = (s', sentB, Ok tt) ->
  sentB `prefix_of` answer ->
  (forall pA pB rest, marshalKeyControl bA kA = Ok pA -> readControlFrame input = Some (pB, rest) ->
     Sum256 pA = Sum256 pB -> pA = pB) ->
  forall r' now', now' < bExpiresAt bA ->
  LoadBound r' now' (bTransferID bA) (bGeneration bA) s' = (s', Ok (kA, ctx)).
Proof. apply delivered_agrees. Qed.

(** Every preparation of one transfer generation uses one key: over any sequence of
    preparations before an instant up to which all of them keep the key, whatever the
    store, the peer and the random source do, those that succeed return the same
    material, so a retried upload never seals under a second key. *)
Theorem one_key_per_generation (id : gostring) (g E : Z) (runs : list (PrepareIO * KeyControlBinding))
    (s s' : SecretStore) (rs : list (result TransferError PreparedKey)) :
  Forall (in_time id g E) runs -> prepareAll runs s = (s', rs) ->
  forall m m' ctx ctx', Ok (m, ctx) ∈ rs -> Ok (m', ctx') ∈ rs -> m = m'.
Proof. apply prepareAll_one_key. Qed.

(** ** A concrete cipher and transfer *)
Module Toy.

Definition tag (key nonce p ad : list byte) : list byte :=
  be_put 16 (fold_left (fun acc b => (acc * 259 + Z_of_byte b + 1) mod 2 ^ 128)
               (key ++ nonce ++ ad ++ p) 0).

#[local] Instance toy : AEAD := {
  Seal key nonce p ad := p ++ tag key nonce p ad;
  Open key nonce ct ad :=
    let p := take (length ct - 16) ct in
    if (16 <=? len ct) && bool_decide (drop (length ct - 16) ct = tag key nonce p ad)
    then Some p else None }.

Lemma tag_length key nonce p ad : length (tag key nonce p ad) = 16%nat.
Proof. apply be_put_length. Qed.

#[local] Instance toy_laws : AEADLaws toy.
Proof.
  split.
  - intros. simpl. rewrite len_app. unfold len at 2. by rewrite tag_length.
  - intros. simpl. rewrite length_app, tag_length, Nat.add_sub.
    rewrite take_app_length, drop_app_length, bool_decide_true by done.
    rewrite len_app. unfold len at 2. rewrite tag_length.
    by rewrite (proj2 (Z.leb_le _ _)) by (pose proof (len_nonneg p); lia).
Qed.

Definition material : KeyMaterial := mkMaterial (replicate 32 x01) (replicate 8 x02).
Definition context : ChunkContext :=
  mkChunkContext (bytes "acct") (bytes "device") (bytes "machine") (replicate 32 x03)
    (replicate 32 x04) (bytes "op-1") (bytes "fb_1") DirectionFromMachine 1 0 0 false.
Definition source : list byte := bytes "hello".
Definition entry : ManifestFile :=
  mkFile (bytes "fb_1.0") 0 (bytes "h.txt") (bytes "Paperboat Inbox/h.txt") 384 5 (Sum256 source) 1.
Definition manifest : Manifest := mkManifest (bytes "fb_1") [entry].
Definition manifestBytes : list byte :=
  match Manifest_MarshalBinary manifest with Ok b => b | Err _ => [] end.
Definition sealedLog : list (Sealed * list byte) := [(SChunk (chunkAt context entry 0), source)].
Definition sent : list byte :=
  match EncryptChunk material (chunkAt context entry 0) source with Ok ct => ct | Err _ => [] end.
Definition forged : list byte := bytes "jello" ++ drop 5 sent.
Definition noFault : ResumeIO := mkResumeIO false false false false.
Definition answers (ct : list byte) : AttemptIO :=
  mkAttempt noFault [mkStageIO (Some ct) (mkWrite 5 false) false true true] true true.
(** A write that fails after three bytes, and the [Truncate] after it. *)
Definition cutShort : AttemptIO :=
  mkAttempt noFault [mkStageIO (Some sent) (mkWrite 3 true) false false true] true true.

Lemma context_ok : chunk_typed context.
Proof. by repeat split. Qed.

Lemma transfer : transfer_ok context entry source sealedLog.
Proof.
  split; [exact context_ok|done|by vm_compute| |done|done|].
  - by repeat split.
  - intros c' p Hin _. apply list_elem_of_singleton in Hin. injection Hin as -> ->.
    exists (mkReader 5 material context true), 0. by repeat split.
Qed.

Lemma agreement : agreed material context entry source.
Proof. split; by vm_compute. Qed.

(** The ciphertext the sender produced opens as it was sealed, and a forgery not at all. *)
Lemma sent_authentic : authentic material context entry sealedLog sent.
Proof.
  intros i nonce ad Hi HP p HO. assert (i = 0) as -> by (simpl in Hi; lia).
  exists (SChunk (chunkAt context entry 0)). vm_compute in HP. apply Ok_inj in HP.
  injection HP as <- <-. vm_compute in HO. injection HO as <-.
  split; [by left|]. split; [by repeat split|]. split; by vm_compute.
Qed.

Lemma forged_authentic : authentic material context entry sealedLog forged.
Proof.
  intros i nonce ad Hi HP p HO. assert (i = 0) as -> by (simpl in Hi; lia).
  vm_compute in HP. apply Ok_inj in HP. injection HP as <- <-. vm_compute in HO. discriminate HO.
Qed.

Lemma answers_authentic ct :
  authentic material context entry sealedLog ct ->
  attempt_authentic material context entry sealedLog (answers ct).
Proof.
  intros HA x ct1 Hx Hf. apply list_elem_of_singleton in Hx. subst x.
  cbn [fetched] in Hf. injection Hf as <-. exact HA.
Qed.

Lemma cutShort_authentic : attempt_authentic material context entry sealedLog cutShort.
Proof.
  intros x ct Hx Hf. apply list_elem_of_singleton in Hx. subst x.
  cbn [fetched] in Hf. injection Hf as <-. exact sent_authentic.
Qed.

(** Key delivery. *)
Definition binding : KeyControlBinding :=
  mkBinding (bytes "op-1") (bytes "fb_1") 1 (2000000000 * Second).
Definition peer : Context :=
  mkContext (bytes "acct") (bytes "user") (bytes "device") (bytes "machine") (replicate 32 x03)
    (replicate 32 x04) 1 1 (bytes "intent") (bytes "op-1") fileTransferKey (bytes "client")
    (bytes "host") 1.
Definition payload : list byte :=
  match marshalKeyControl binding material with Ok p => p | Err _ => [] end.
Definition frame : list byte := PutUint16 (len payload) ++ payload.
Definition writes : WriteResults := [(2, false); (len payload, false)].
Definition ackWrites : WriteResults := [(30, false); (7, false)].
Definition now0 : Z := 1000000000 * Second.

Definition prepareRun (random : list byte) (delivered : option Context) : PrepareIO * KeyControlBinding :=
  (mkPrepareIO now0 random Done Done Done delivered, binding).
Definition random1 : list byte := replicate 40 x05.
Definition random2 : list byte := replicate 40 x06.

End Toy.

Lemma encodings_disjoint_witness :
  encode (EMaterial Toy.material) = encode (EMaterial Toy.material) /\
  EMaterial Toy.material = EMaterial (mkMaterial (replicate 32 x01) (replicate 8 x02)).
Proof.
  split; [reflexivity|].
  eapply (encodings_disjoint _ _ (bytes "PBTK" ++ PutByte 1 ++ replicate 32 x01 ++ replicate 8 x02));
    [by split|by split|by vm_compute|by vm_compute].
Defined.

Lemma parsed_manifest_well_formed_witness :
  manifest_wf Toy.manifest.
Proof.
  apply (parsed_manifest_well_formed Toy.manifestBytes Toy.manifest). by vm_compute.
Defined.

Lemma transfer_nonces_distinct_witness :
  sealed_nonce Toy.material (SChunk Toy.context)
  <> sealed_nonce Toy.material (SChunk (chunkAt Toy.context Toy.entry 1)).
Proof.
  intros HE.
  assert (HS := proj1 (transfer_nonces_distinct Toy.material (SChunk Toy.context)
    (SChunk (chunkAt Toy.context Toy.entry 1)) 0 0
    (match chunkAdditionalData Toy.context 0 with Ok b => b | Err _ => [] end)
    (match chunkAdditionalData (chunkAt Toy.context Toy.entry 1) 0 with Ok b => b | Err _ => [] end)
    Toy.context_ok ltac:(by repeat split) ltac:(by vm_compute) ltac:(by vm_compute)) HE).
  discriminate HS.
Defined.

Lemma staged_file_is_source_witness :
  (stageAttempts (A := Toy.toy) [Toy.answers Toy.forged; Toy.answers Toy.sent] Toy.material Toy.context
     Toy.entry []).1 = Toy.source.
Proof.
  apply (staged_file_is_source (A := Toy.toy) (AEADLaws0 := Toy.toy_laws) Toy.material Toy.context
    Toy.entry Toy.source Toy.sealedLog
    [Toy.answers Toy.forged; Toy.answers Toy.sent] _
    (stageAttempts (A := Toy.toy) [Toy.answers Toy.forged; Toy.answers Toy.sent] Toy.material
       Toy.context Toy.entry []).2).
  - exact Toy.transfer.
  - repeat constructor; apply Toy.answers_authentic; [exact Toy.forged_authentic|exact Toy.sent_authentic].
  - apply surjective_pairing.
  - by vm_compute.
Defined.


Lemma torn_write_wedges_witness :
  stageAttempts (A := Toy.toy)
    [torn (A := Toy.toy) Toy.material Toy.context Toy.source 3; Toy.answers Toy.sent] Toy.material
    Toy.context Toy.entry []
  = (bytes "hel", [Died; Returned (Err ErrResumeOffset)]).
Proof.
  apply (torn_write_wedges (A := Toy.toy) (AEADLaws0 := Toy.toy_laws) Toy.material Toy.context
    Toy.entry Toy.source Toy.sealedLog 3 [Toy.answers Toy.sent] Toy.transfer Toy.agreement).
  by vm_compute.
Defined.

Lemma triple_eta {X Y Z} (t : X * Y * Z) y z : t.1.2 = y -> t.2 = z -> t = (t.1.1, y, z).
Proof. destruct t as [[? ?] ?]. simpl. by intros -> ->. Qed.

Lemma acknowledged_key_is_loadable_witness :
  exists s', (s', controlAcknowledgement Toy.payload, Ok tt)
    = ReceiveKey Toy.ackWrites Toy.frame Done Toy.now0 Toy.binding Toy.peer ∅ /\
  LoadBound Done Toy.now0 (bytes "fb_1") 1 s' = (s', Ok (Toy.material, Toy.peer)).
Proof.
  assert (HR := triple_eta (ReceiveKey Toy.ackWrites Toy.frame Done Toy.now0 Toy.binding Toy.peer ∅)
    (controlAcknowledgement Toy.payload) (Ok tt)
    ltac:(vm_compute; reflexivity) ltac:(vm_compute; reflexivity)).
  revert HR. generalize (ReceiveKey Toy.ackWrites Toy.frame Done Toy.now0 Toy.binding Toy.peer ∅).1.1.
  intros s' HR. exists s'. split; [symmetry; exact HR|].
  apply (acknowledged_key_is_loadable Toy.writes (controlAcknowledgement Toy.payload) Toy.binding
    Toy.material Toy.frame Toy.ackWrites Toy.frame Done Toy.now0 Toy.binding Toy.peer ∅
    s' (controlAcknowledgement Toy.payload)).
  - repeat split; vm_compute; congruence.
  - by repeat split.
  - vm_compute. reflexivity.
  - exact HR.
  - reflexivity.
  - intros pA pB rest HA HB _. vm_compute in HA, HB. apply Ok_inj in HA. injection HB as <- _.
    symmetry. exact HA.
  - vm_compute. reflexivity.
Defined.

Lemma one_key_per_generation_witness :
  let rs := (prepareAll [Toy.prepareRun Toy.random1 None; Toy.prepareRun Toy.random2 (Some Toy.peer);
                         Toy.prepareRun Toy.random2 (Some Toy.peer)] ∅).2 in
  exists m, m = mkMaterial (replicate 32 x05) (replicate 8 x05) /\ (Ok (m, Toy.peer) ∈ rs) /\
    forall m' ctx', Ok (m', ctx') ∈ rs -> m = m'.
Proof.
  eexists. split; [reflexivity|].
  assert (Hin : Ok (mkMaterial (replicate 32 x05) (replicate 8 x05), Toy.peer) ∈
    (prepareAll [Toy.prepareRun Toy.random1 None; Toy.prepareRun Toy.random2 (Some Toy.peer);
                 Toy.prepareRun Toy.random2 (Some Toy.peer)] ∅).2).
  { vm_compute. right. left. }
  split; [exact Hin|]. intros m' ctx' Hin'.
  apply (one_key_per_generation (bytes "fb_1") 1 (1500000000 * Second)
    [Toy.prepareRun Toy.random1 None; Toy.prepareRun Toy.random2 (Some Toy.peer);
     Toy.prepareRun Toy.random2 (Some Toy.peer)] ∅ _ _
    ltac:(repeat constructor; by vm_compute) (surjective_pairing _) _ _ _ _ Hin Hin').
Defined.
