(* ===== verification/UpdateGate.v ===== *)
(** * The update gate

    Models [internal/hostruntime/tunnelmanager/update_gate.go] and the request contract of
    [internal/hostruntime/hostdproto/update_gate.go]: the transactions by which an updater
    binds a release to the live tunnel, probes it, drains it, watches it and commits or
    rolls back, kept in a file that survives the process.

    A handler is a function of the state and of what its environment does in the call: the
    snapshots of the active tunnels at each reading, the probes' responses, whether the
    carrier is drained or replaced, the clock, and how the write of the file ends.
    [operationMu] makes calls sequential.  A list of responses or of iterations that runs
    out stands for the end of the context.  Requests reach the gate decoded from JSON, so
    their strings survive another encoding.  The file holds the transactions; [jsonSize] is
    the length of its JSON text, which only the loader looks at.  An atomic write that
    fails may have replaced the file. *)
From S2P Require Import Prelude.
From S2P Require Import TransferCodec.
Set Warnings "-clear-no-such-hyp".

Inductive GateError := ErrUpdateGateUnavailable | ErrGenerationConflict | ErrInvalidFrame | ErrOther.

(** ** Targets and requests *)
Inductive Scope := Standalone | Tunnel | OtherScope.
#[export] Instance Scope_eq_dec : EqDecision Scope.
Proof. solve_decision. Defined.

Record Target := mkTarget {
  tScope : Scope; MachineID : gostring; AccountID : gostring; HostID : gostring;
  TunnelID : gostring; ConnectorID : gostring; EdgeNodeID : gostring; ProcessEpoch : Z;
  SessionGeneration : Z; ConfigGeneration : Z; RouteGeneration : Z; FailureDomain : gostring }.
#[export] Instance Target_eq_dec : EqDecision Target.
Proof. solve_decision. Defined.

Definition empty (v : gostring) : bool := bool_decide (v = []).

(** [UpdateGateResponse.validate]; [updateGateIDPattern] is the pattern of [identifier]. *)
Definition target_valid (t : Target) : bool :=
  if negb (identifier (MachineID t)) || negb (identifier (FailureDomain t)) then false
  else
    match tScope t with
    | Standalone =>
        empty (AccountID t) && empty (HostID t) && empty (TunnelID t) && empty (ConnectorID t)
        && empty (EdgeNodeID t) && (ProcessEpoch t =? 0) && (SessionGeneration t =? 0)
        && (ConfigGeneration t =? 0) && (RouteGeneration t =? 0)
    | Tunnel =>
        forallb identifier [AccountID t; HostID t; TunnelID t; ConnectorID t; EdgeNodeID t]
        && negb ((ProcessEpoch t =? 0) || (SessionGeneration t =? 0) || (ConfigGeneration t =? 0)
                 || (RouteGeneration t =? 0))
    | OtherScope => false
    end.

Inductive Operation :=
| OpTarget | OpCandidate | OpDrain | OpStability | OpRollback | OpCommit | OpOther.
#[export] Instance Operation_eq_dec : EqDecision Operation.
Proof. solve_decision. Defined.

Record Request := mkRequest {
  qOperation : Operation; TransactionID : gostring; Version : gostring; PreviousVersion : gostring;
  ManifestSHA256 : gostring; Path : gostring; ExpectedStatus : Z; Samples : Z; TimeoutMillis : Z;
  WindowMillis : Z; IntervalMillis : Z; ExpectedTarget : option Target }.

(** [updateGateDigestPattern] *)
Definition digest (v : gostring) : bool :=
  (len v =? 64) &&
  forallb (fun b => let z := Z_of_byte b in
             ((97 <=? z) && (z <=? 102)) || ((48 <=? z) && (z <=? 57))) v.

(** The encodings of the runes of [unicode.IsSpace], and [strings.TrimSpace(v) == v]. *)
Definition spaces : list gostring :=
  map (fun b => [b]) [x09; x0a; x0b; x0c; x0d; x20]
  ++ [[xc2; x85]; [xc2; xa0]; [xe1; x9a; x80]; [xe2; x80; xa8]; [xe2; x80; xa9]; [xe2; x80; xaf];
      [xe2; x81; x9f]; [xe3; x80; x80]]
  ++ map (fun b => [xe2; x80; b]) [x80; x81; x82; x83; x84; x85; x86; x87; x88; x89; x8a].
Definition trimmed (v : gostring) : bool :=
  forallb (fun s => negb (bool_decide (s = take (length s) v))
                    && negb (bool_decide (s = drop (length v - length s) v))) spaces.

(** [validVersion] of protocol.go *)
Definition validVersion (v : gostring) : bool :=
  (0 <? len v) && (len v <=? 128) && trimmed v && negb (ContainsAny v [x00; x0d; x0a]).

Definition validUpdatePath (v : gostring) : bool :=
  hasSlashPrefix v && negb (match v with _ :: r => hasSlashPrefix r | [] => false end)
  && (len v <=? 512) && negb (ContainsAny v [x00; x0d; x0a]).

Definition validUpdateDuration (v : Z) : bool := (0 <? v) && (v <=? 30 * 60 * 1000).

Definition validPolicy (q : Request) : bool :=
  validUpdatePath (Path q) && (200 <=? ExpectedStatus q) && (ExpectedStatus q <=? 299)
  && (2 <=? Samples q) && (Samples q <=? 32).
Definition noPolicy (q : Request) : bool :=
  empty (Path q) && (ExpectedStatus q =? 0) && (Samples q =? 0).
Definition boundTarget (q : Request) : bool :=
  match ExpectedTarget q with Some t => target_valid t | None => false end.

(** [UpdateGateRequest.validate]: whether it returns nil. *)
Definition request_valid (q : Request) : bool :=
  if bool_decide (qOperation q = OpOther) || negb (identifier (TransactionID q))
     || negb (validVersion (Version q)) || negb (digest (ManifestSHA256 q))
  then false
  else if negb (empty (PreviousVersion q)) && negb (validVersion (PreviousVersion q)) then false
  else
    match qOperation q with
    | OpTarget =>
        empty (PreviousVersion q) && noPolicy q && (TimeoutMillis q =? 0) && (WindowMillis q =? 0)
        && (IntervalMillis q =? 0) && bool_decide (ExpectedTarget q = None)
    | OpCandidate =>
        validPolicy q && validUpdateDuration (TimeoutMillis q) && empty (PreviousVersion q)
        && (WindowMillis q =? 0) && (IntervalMillis q =? 0) && boundTarget q
    | OpDrain =>
        negb (empty (PreviousVersion q)) && negb (bool_decide (PreviousVersion q = Version q))
        && validUpdateDuration (TimeoutMillis q) && noPolicy q && (WindowMillis q =? 0)
        && (IntervalMillis q =? 0) && boundTarget q
    | OpRollback =>
        negb (empty (PreviousVersion q)) && negb (bool_decide (PreviousVersion q = Version q))
        && validUpdateDuration (TimeoutMillis q) && validPolicy q && (WindowMillis q =? 0)
        && (IntervalMillis q =? 0) && boundTarget q
    | OpStability =>
        validUpdateDuration (WindowMillis q) && validUpdateDuration (IntervalMillis q)
        && (IntervalMillis q <=? WindowMillis q) && empty (PreviousVersion q) && validPolicy q
        && (TimeoutMillis q =? 0) && boundTarget q
    | OpCommit =>
        empty (PreviousVersion q) && noPolicy q && (TimeoutMillis q =? 0) && (WindowMillis q =? 0)
        && (IntervalMillis q =? 0) && boundTarget q
    | OpOther => false
    end.

(** ** The current target *)
Record CarrierInfo := mkInfo { carrierReady : bool; EdgeID : gostring; iFailureDomain : gostring }.
Record Identity := mkIdentity {
  iAccountID : gostring; iHostID : gostring; iTunnelID : gostring; iConnectorID : gostring;
  iProcessGeneration : Z; iSessionGeneration : Z; iGeneration : Z }.

(** An active tunnel: its data carrier, if it provides one, with its identity and the
    states of its carriers, and its route, if it has one (id, host name, generation). *)
Record Active := mkActive {
  aCarrier : option (option Identity * list CarrierInfo);
  aRoute : option (gostring * gostring * Z) }.

Fixpoint readyCarrierInfo (values : list CarrierInfo) : option CarrierInfo :=
  match values with
  | [] => None
  | v :: r =>
      if carrierReady v && negb (empty (EdgeID v)) && negb (empty (iFailureDomain v))
      then Some v else readyCarrierInfo r
  end.

(** Byte order of Go strings, and [sortedActiveKeys] on the entries of the map. *)
Fixpoint lessEq (a b : gostring) : bool :=
  match a, b with
  | [], _ => true
  | _ :: _, [] => false
  | x :: a, y :: b =>
      if Z_of_byte x <? Z_of_byte y then true
      else if Z_of_byte y <? Z_of_byte x then false else lessEq a b
  end.
Fixpoint insertKey {A} (e : gostring * A) (l : list (gostring * A)) : list (gostring * A) :=
  match l with
  | [] => [e]
  | f :: r => if lessEq e.1 f.1 then e :: l else f :: insertKey e r
  end.
Definition sortedActive {A} (values : list (gostring * A)) : list (gostring * A) :=
  fold_right insertKey [] values.

(** The loop of [current]. *)
Fixpoint firstUsable (values : list (gostring * Active))
    : option (Identity * CarrierInfo * (gostring * gostring * Z)) :=
  match values with
  | [] => None
  | (_, a) :: r =>
      match aCarrier a, aRoute a with
      | Some (Some ident, infos), Some route =>
          match readyCarrierInfo infos with
          | Some info => Some (ident, info, route)
          | None => firstUsable r
          end
      | _, _ => firstUsable r
      end
  end.

Definition Snapshot := list (gostring * Active).

(** [current]: the target, the route and the host name. *)
Definition current (machine : gostring) (values : Snapshot) : option (Target * gostring * gostring) :=
  match firstUsable (sortedActive values) with
  | None => None
  | Some (i, info, (route, host, routeGeneration)) =>
      if iSessionGeneration i =? 0 then None
      else Some (mkTarget Tunnel machine (iAccountID i) (iHostID i) (iTunnelID i) (iConnectorID i)
                   (EdgeID info) (iProcessGeneration i) (iSessionGeneration i) (iGeneration i)
                   routeGeneration (iFailureDomain info), route, host)
  end.

(** ** Probes *)
Record Sample := mkSample {
  sFailed : bool; sBodyFailed : bool; sStatus : Z; sSnapshot : Snapshot }.

(** The loop of [canary]; without responses left the context has ended. *)
Fixpoint canaryLoop (machine : gostring) (n : nat) (target : Target) (route : gostring) (status : Z)
    (samples : list Sample) : option GateError :=
  match n with
  | O => None
  | S n =>
      match samples with
      | [] => Some ErrOther
      | s :: samples =>
          if sFailed s then Some ErrOther
          else if sBodyFailed s || negb (sStatus s =? status) then Some ErrUpdateGateUnavailable
          else
            match current machine (sSnapshot s) with
            | Some (t, r, _) =>
                if negb (bool_decide (t = target)) || negb (bool_decide (r = route))
                then Some ErrUpdateGateUnavailable
                else canaryLoop machine n target route status samples
            | None => Some ErrUpdateGateUnavailable
            end
      end
  end.

(** [canary]: its error, if any; [urlOk] is whether the probed URL parses to the host name alone. *)
Definition canary (machine : gostring) (urlOk : bool) (target : Target) (route : gostring)
    (q : Request) (samples : list Sample) : option GateError :=
  if negb urlOk || empty route then Some ErrUpdateGateUnavailable
  else canaryLoop machine (Z.to_nat (Samples q)) target route (ExpectedStatus q) samples.

(** ** The state *)
Record Transaction := mkTx {
  version : gostring; manifest : gostring; path : gostring; status : Z; samples : Z;
  target : Target; created : Z; policyBound : bool; drainStarted : bool; committed : bool }.
#[export] Instance Transaction_eta : Eta Transaction :=
  fun t => mkTx (version t) (manifest t) (path t) (status t) (samples t) (target t) (created t)
    (policyBound t) (drainStarted t) (committed t).

Abbreviation Transactions := (gmap gostring Transaction).

Record UpdateGate := mkGate {
  machine : gostring; drained : gmap gostring Target; transactions : Transactions;
  recoveryGeneration : Z; disk : option Transactions }.
#[export] Instance UpdateGate_eta : Eta UpdateGate :=
  fun g => mkGate (machine g) (drained g) (transactions g) (recoveryGeneration g) (disk g).

(** How [atomicfile.Write] ends. *)
Inductive WriteEnd := Written | WriteFailed (replaced : bool).

(** [persist] *)
Definition persist (r : WriteEnd) (g : UpdateGate) : UpdateGate * bool :=
  match r with
  | Written => (g <| disk := Some (transactions g) |>, true)
  | WriteFailed replaced => (if replaced then g <| disk := Some (transactions g) |> else g, false)
  end.

Definition zeroTime : Z := - 62135596800 * 1000000000.

(** The checks [load] makes on one entry. *)
Definition loadable (machine : gostring) (id : gostring) (v : Transaction) : bool :=
  if empty id || (created v =? zeroTime) || negb (bool_decide (MachineID (target v) = machine))
     || negb (target_valid (target v))
  then false
  else if negb (request_valid
         (mkRequest OpTarget id (version v) [] (manifest v) [] 0 0 0 0 0 None))
  then false
  else if (if policyBound v
           then negb (request_valid (mkRequest OpCandidate id (version v) [] (manifest v) (path v)
                        (status v) (samples v) 1 0 0 (Some (target v))))
           else negb (empty (path v)) || negb (status v =? 0) || negb (samples v =? 0))
  then false
  else negb (drainStarted v && negb (policyBound v)
             || committed v && (negb (policyBound v) || drainStarted v)).

Definition maxTransactions : Z := 128.
Definition maxStateBytes : Z := 262144.

(** What is being drained, according to the transactions. *)
Definition draining (m : Transactions) : gmap gostring Target :=
  omap (fun v => if drainStarted v && negb (committed v) then Some (target v) else None) m.

Section size.
Context (jsonSize : Transactions -> Z).

(** [load]: the state read from the file, if it is accepted. *)
Definition load (machine : gostring) (file : option Transactions) : option UpdateGate :=
  match file with
  | None => Some (mkGate machine ∅ ∅ 0 None)
  | Some m =>
      if (jsonSize m =? 0) || (maxStateBytes <? jsonSize m)
         || (maxTransactions <? Z.of_nat (size m))
         || negb (forallb (fun e => loadable machine e.1 e.2) (map_to_list m))
      then None
      else Some (mkGate machine (draining m) m 0 file)
  end.

(** [NewUpdateGate], with a manager and an absolute path to a directory that can be made:
    the state when the process starts. *)
Definition NewUpdateGate (machine : gostring) (file : option Transactions) : option UpdateGate :=
  if empty machine then None else load machine file.
End size.

(** [purgeTransactions] *)
Definition Hour : Z := 3600 * 1000000000.
Definition stale (now : Z) (v : Transaction) : bool :=
  negb (drainStarted v) && (2 * Hour <? now - created v).
Definition purgeTransactions (now : Z) (g : UpdateGate) : UpdateGate :=
  (g <| transactions := filter (fun e => stale now e.2 = false) (transactions g) |>)
    <| drained := filter (fun e => match transactions g !! e.1 with
                                   | Some v => stale now v | None => false end = false) (drained g) |>.

Definition committedTransactionMatches (v : Transaction) (q : Request) : bool :=
  committed v && bool_decide (version v = Version q) && bool_decide (manifest v = ManifestSHA256 q)
  && bool_decide (ExpectedTarget q = Some (target v)).

Definition sameUpdateWorkload (a b : Target) : bool :=
  bool_decide (MachineID a = MachineID b) && bool_decide (AccountID a = AccountID b)
  && bool_decide (HostID a = HostID b) && bool_decide (TunnelID a = TunnelID b)
  && bool_decide (ConnectorID a = ConnectorID b) && (ConfigGeneration a =? ConfigGeneration b)
  && (RouteGeneration a =? RouteGeneration b).

Definition matchesUpdateGateTarget (q : Request) (t : Target) : bool :=
  bool_decide (qOperation q = OpTarget) && bool_decide (ExpectedTarget q = None)
  || negb (bool_decide (qOperation q = OpTarget)) && bool_decide (ExpectedTarget q = Some t).

(** [nextRecoveryGeneration] when the manager has seen the network generation [observed]:
    the counter, which is the generation returned. *)
Definition nextRecoveryGeneration (observed : Z) (g : UpdateGate) : UpdateGate :=
  g <| recoveryGeneration := u64 (Z.max (recoveryGeneration g) observed + 1) |>.

(** One iteration of the loop that watches the new version. *)
Record Watch := mkWatch {
  wSnapshot : Snapshot; wUrlOk : bool; wSamples : list Sample; wDeadline : bool; wCancelled : bool }.

(** What the environment does during one call. *)
Record Env := mkEnv {
  now : Z; createdAt : Z; snapshot : Snapshot; urlOk : bool; probes : list Sample; write : WriteEnd;
  drainOk : bool; observed : Z; replaceOk : bool; restoredOk : bool; snapshot2 : Snapshot;
  watches : list Watch }.

#[export] Instance Env_eta : Eta Env :=
  fun e => mkEnv (now e) (createdAt e) (snapshot e) (urlOk e) (probes e) (write e) (drainOk e)
    (observed e) (replaceOk e) (restoredOk e) (snapshot2 e) (watches e).

Definition sameReleaseTarget (a b : Target) : bool :=
  bool_decide (TunnelID a = TunnelID b) && bool_decide (ConnectorID a = ConnectorID b)
  && (ConfigGeneration a =? ConfigGeneration b).

Definition policyMatches (v : Transaction) (q : Request) : bool :=
  bool_decide (path v = Path q) && (status v =? ExpectedStatus q) && (samples v =? Samples q).
Definition releaseMatches (v : Transaction) (q : Request) : bool :=
  bool_decide (version v = Version q) && bool_decide (manifest v = ManifestSHA256 q).

Definition setTx (id : gostring) (v : Transaction) (g : UpdateGate) : UpdateGate :=
  g <| transactions := <[id := v]> (transactions g) |>.
Definition setDrained (id : gostring) (t : Target) (g : UpdateGate) : UpdateGate :=
  g <| drained := <[id := t]> (drained g) |>.

(** The answer of a handler. *)
Definition Answer := result GateError Target.

(** [case UpdateGateTarget] *)
Definition handleTarget (e : Env) (q : Request) (t : Target) (g : UpdateGate) : UpdateGate * Answer :=
  let id := TransactionID q in
  match transactions g !! id with
  | Some existing =>
      if negb (releaseMatches existing q)
         || negb (bool_decide (target existing = t))
            && (negb (drainStarted existing) || negb (sameUpdateWorkload (target existing) t))
      then (g, Err ErrGenerationConflict)
      else if negb (bool_decide (target existing = t))
      then (setDrained id t (setTx id (existing <| target := t |>) g), Ok t)
      else (g, Ok t)
  | None =>
      if maxTransactions <=? Z.of_nat (size (transactions g)) then (g, Err ErrUpdateGateUnavailable)
      else
        let g1 := setTx id (mkTx (Version q) (ManifestSHA256 q) [] 0 0 t (createdAt e) false false
                              false) g in
        match persist (write e) g1 with
        | (g2, true) => (g2, Ok t)
        | (g2, false) => (g2 <| transactions := delete id (transactions g2) |>, Err ErrOther)
        end
  end.

(** [case UpdateGateCandidate] *)
Definition handleCandidate (e : Env) (q : Request) (t : Target) (route : gostring) (g : UpdateGate)
    : UpdateGate * Answer :=
  let id := TransactionID q in
  match transactions g !! id with
  | None => (g, Err ErrGenerationConflict)
  | Some v =>
      if committed v || negb (releaseMatches v q) || negb (bool_decide (target v = t))
      then (g, Err ErrGenerationConflict)
      else if policyBound v && negb (policyMatches v q) then (g, Err ErrGenerationConflict)
      else
        let v1 := mkTx (version v) (manifest v) (Path q) (ExpectedStatus q) (Samples q) (target v)
                    (created v) true (drainStarted v) (committed v) in
        match persist (write e) (setTx id v1 g) with
        | (g1, false) => (g1, Err ErrOther)
        | (g1, true) =>
            match canary (machine g) (urlOk e) t route q (probes e) with
            | None => (g1, Ok t)
            | Some err => (g1, Err err)
            end
        end
  end.

(** [case UpdateGateDrain] *)
Definition handleDrain (e : Env) (q : Request) (t : Target) (g : UpdateGate) : UpdateGate * Answer :=
  let id := TransactionID q in
  match transactions g !! id with
  | None => (g, Err ErrGenerationConflict)
  | Some v =>
      if committed v || negb (policyBound v) || negb (releaseMatches v q)
         || negb (bool_decide (target v = t))
      then (g, Err ErrGenerationConflict)
      else
        match persist (write e) (setDrained id t (setTx id (v <| drainStarted := true |>) g)) with
        | (g1, false) => (g1, Err ErrOther)
        | (g1, true) => if drainOk e then (g1, Ok t) else (g1, Err ErrOther)
        end
  end.

(** The loop of [case UpdateGateStability]: its error, if any. *)
Fixpoint watchLoop (machine : gostring) (t : Target) (q : Request) (ws : list Watch)
    : option GateError :=
  match ws with
  | [] => Some ErrOther
  | w :: ws =>
      match current machine (wSnapshot w) with
      | None => Some ErrUpdateGateUnavailable
      | Some (c, route, _) =>
          if negb (bool_decide (c = t)) then Some ErrUpdateGateUnavailable
          else
            match canary machine (wUrlOk w) c route q (wSamples w) with
            | Some err => Some err
            | None =>
                if wDeadline w then None
                else if wCancelled w then Some ErrOther
                else watchLoop machine t q ws
            end
      end
  end.

(** [case UpdateGateStability] *)
Definition handleStability (e : Env) (q : Request) (t : Target) (g : UpdateGate)
    : UpdateGate * Answer :=
  let id := TransactionID q in
  let watch (t : Target) (g : UpdateGate) :=
    match watchLoop (machine g) t q (watches e) with
    | None => (g, Ok t)
    | Some err => (g, Err err)
    end in
  match transactions g !! id with
  | None => (g, Err ErrGenerationConflict)
  | Some v =>
      if committed v || negb (drainStarted v) || negb (releaseMatches v q) || negb (policyMatches v q)
      then (g, Err ErrGenerationConflict)
      else
        match drained g !! id with
        | None => watch t g
        | Some _ =>
            let g1 := nextRecoveryGeneration (observed e) g in
            if negb (replaceOk e) then (g1, Err ErrUpdateGateUnavailable)
            else
              match current (machine g) (snapshot2 e), ExpectedTarget q with
              | Some (t1, _, _), Some want =>
                  if negb (sameReleaseTarget t1 want) then (g1, Err ErrGenerationConflict)
                  else
                    match persist (write e) (setDrained id t1 (setTx id (v <| target := t1 |>) g1)) with
                    | (g2, false) => (g2, Err ErrOther)
                    | (g2, true) => watch t1 g2
                    end
              | _, _ => (g1, Err ErrGenerationConflict)
              end
        end
  end.

(** [case UpdateGateRollback] *)
Definition handleRollback (e : Env) (q : Request) (t : Target) (g : UpdateGate)
    : UpdateGate * Answer :=
  let id := TransactionID q in
  match transactions g !! id with
  | None => (g, Err ErrGenerationConflict)
  | Some v =>
      if committed v || negb (drainStarted v) || negb (releaseMatches v q) || negb (policyMatches v q)
         || negb (bool_decide (target v = t))
      then (g, Err ErrGenerationConflict)
      else if negb (bool_decide (drained g !! id = Some t)) then (g, Err ErrUpdateGateUnavailable)
      else
        let g1 := nextRecoveryGeneration (observed e) g in
        if negb (replaceOk e) || negb (restoredOk e) then (g1, Err ErrUpdateGateUnavailable)
        else
          match current (machine g) (snapshot2 e) with
          | None => (g1, Err ErrUpdateGateUnavailable)
          | Some (t1, route, _) =>
              if negb (sameReleaseTarget t1 t) then (g1, Err ErrUpdateGateUnavailable)
              else
                match canary (machine g) (urlOk e) t1 route q (probes e) with
                | Some err => (g1, Err err)
                | None =>
                    let g2 := (g1 <| drained := delete id (drained g1) |>)
                                <| transactions := delete id (transactions g1) |> in
                    match persist (write e) g2 with
                    | (g3, false) => (g3, Err ErrOther)
                    | (g3, true) => (g3, Ok t1)
                    end
                end
          end
  end.

(** [case UpdateGateCommit] *)
Definition handleCommit (e : Env) (q : Request) (t : Target) (g : UpdateGate) : UpdateGate * Answer :=
  let id := TransactionID q in
  match transactions g !! id with
  | None => (g, Err ErrGenerationConflict)
  | Some v =>
      if committed v || negb (policyBound v) || negb (drainStarted v) || negb (releaseMatches v q)
         || negb (bool_decide (target v = t))
      then (g, Err ErrGenerationConflict)
      else if negb (bool_decide (drained g !! id = Some t)) then (g, Err ErrUpdateGateUnavailable)
      else
        let v1 := (v <| committed := true |>) <| drainStarted := false |> in
        let g1 := (setTx id v1 g) <| drained := delete id (drained g) |> in
        match persist (write e) g1 with
        | (g2, true) => (g2, Ok t)
        | (g2, false) => (setDrained id t (setTx id v g2), Err ErrOther)
        end
  end.

(** [HandleUpdateGate] *)
Definition HandleUpdateGate (e : Env) (q : Request) (g0 : UpdateGate) : UpdateGate * Answer :=
  let g := purgeTransactions (now e) g0 in
  let fresh (g : UpdateGate) :=
    match current (machine g) (snapshot e) with
    | None => (g, Err ErrUpdateGateUnavailable)
    | Some (t, route, _) =>
        if negb (matchesUpdateGateTarget q t) then (g, Err ErrGenerationConflict)
        else match qOperation q with
             | OpTarget => handleTarget e q t g
             | OpCandidate => handleCandidate e q t route g
             | OpDrain => handleDrain e q t g
             | OpStability => handleStability e q t g
             | OpRollback => handleRollback e q t g
             | OpCommit => handleCommit e q t g
             | OpOther => (g, Err ErrUpdateGateUnavailable)
             end
    end in
  if negb (request_valid q) then (g, Err ErrInvalidFrame)
  else
    match qOperation q, transactions g !! TransactionID q with
    | OpCommit, Some existing =>
        if committed existing then
          if negb (committedTransactionMatches existing q) then (g, Err ErrGenerationConflict)
          else (g, Ok (target existing))
        else fresh g
    | _, _ => fresh g
    end.
