(* ===== verification/UpdateGateProps.v ===== *)
(** * The update gate: lifecycle, durability and commit

    [gstep] is the abstract machine of one call: the table in memory, the table in the
    file, and what one request may change in them.  [HandleUpdateGate] refines it, and the
    invariant, the durability of a commit and the loss of a rollback are proved of it, over
    any calls, failing writes, crashes and restarts. *)
From S2P Require Import Prelude.
From S2P Require Import TransferCodec.
From S2P Require Import UpdateGate.
Set Warnings "-clear-no-such-hyp".

(** ** The abstract machine *)
Definition freshTx (q : Request) (t : Target) (c : Z) : Transaction :=
  mkTx (Version q) (ManifestSHA256 q) [] 0 0 t c false false false.

Definition bindPolicy (q : Request) (v : Transaction) : Transaction :=
  mkTx (version v) (manifest v) (Path q) (ExpectedStatus q) (Samples q) (target v)
    (created v) true (drainStarted v) (committed v).

Definition commitTx (v : Transaction) : Transaction :=
  (v <| committed := true |>) <| drainStarted := false |>.

(** What a request may do to the transaction it names; a new target is a live one. *)
Inductive edge (live : Target -> Prop) (q : Request) : Transaction -> Transaction -> Prop :=
| edge_target v t : qOperation q = OpTarget -> drainStarted v = true ->
    releaseMatches v q = true -> live t -> edge live q v (v <| target := t |>)
| edge_candidate v : qOperation q = OpCandidate -> committed v = false ->
    releaseMatches v q = true -> (policyBound v = true -> policyMatches v q = true) ->
    ExpectedTarget q = Some (target v) -> edge live q v (bindPolicy q v)
| edge_drain v : qOperation q = OpDrain -> committed v = false -> policyBound v = true ->
    releaseMatches v q = true -> ExpectedTarget q = Some (target v) ->
    edge live q v (v <| drainStarted := true |>)
| edge_stability v t : qOperation q = OpStability -> drainStarted v = true -> committed v = false ->
    releaseMatches v q = true -> policyMatches v q = true -> live t ->
    edge live q v (v <| target := t |>)
| edge_commit v : qOperation q = OpCommit -> committed v = false -> policyBound v = true ->
    drainStarted v = true -> releaseMatches v q = true -> ExpectedTarget q = Some (target v) ->
    edge live q v (commitTx v).

(** The table a request wants: the entry of its transaction is created, moved along an
    edge, or removed by a rollback. *)
Inductive wants (live : Target -> Prop) (c : Z) (q : Request) (m : Transactions)
    : Transactions -> Prop :=
| wants_new t : qOperation q = OpTarget -> m !! TransactionID q = None ->
    Z.of_nat (size m) < maxTransactions -> live t ->
    wants live c q m (<[TransactionID q := freshTx q t c]> m)
| wants_edge v v' : m !! TransactionID q = Some v -> edge live q v v' ->
    wants live c q m (<[TransactionID q := v']> m)
| wants_rollback v : m !! TransactionID q = Some v -> qOperation q = OpRollback ->
    drainStarted v = true -> committed v = false -> releaseMatches v q = true ->
    policyMatches v q = true -> ExpectedTarget q = Some (target v) ->
    wants live c q m (delete (TransactionID q) m).

(** One call: nothing; or the wanted table, in memory or given up, in the file or not; a
    commit is not kept unless the file has it. *)
Inductive gstep (live : Target -> Prop) (c : Z) (q : Request)
    : Transactions * option Transactions -> Transactions * option Transactions -> Prop :=
| gstep_same s : gstep live c q s s
| gstep_wanted m d m1 m' d' : request_valid q = true -> wants live c q m m1 ->
    (m' = m1 /\ (qOperation q = OpCommit -> d' = Some m1) \/ m' = m) ->
    (d' = Some m1 \/ d' = d) -> gstep live c q (m, d) (m', d').

Definition tables (g : UpdateGate) : Transactions * option Transactions := (transactions g, disk g).

(** A target the environment of the call shows. *)
Definition live (e : Env) (mach : gostring) (t : Target) : Prop :=
  exists r h, current mach (snapshot e) = Some (t, r, h) \/ current mach (snapshot2 e) = Some (t, r, h).

(** ** Draining *)
Lemma draining_insert id v m :
  draining (<[id := v]> m) =
  (if drainStarted v && negb (committed v) then <[id := target v]> (draining m)
   else delete id (draining m)).
Proof.
  unfold draining. destruct (_ && _) eqn:H.
  - by erewrite omap_insert_Some by (by rewrite H).
  - by erewrite omap_insert_None by (by rewrite H).
Qed.

Lemma draining_delete id m : draining (delete id m) = delete id (draining m).
Proof. apply omap_delete. Qed.

Lemma draining_lookup m id :
  draining m !! id = m !! id ≫= (fun v => if drainStarted v && negb (committed v)
                                          then Some (target v) else None).
Proof. apply lookup_omap. Qed.

(** ** The handlers refine the machine *)

(** What is drained is what the table says is draining, and a commit ends the drain. *)
Definition coherent (g : UpdateGate) : Prop :=
  drained g = draining (transactions g) /\
  forall id v, transactions g !! id = Some v -> committed v = true -> drainStarted v = false.

(** The outcome of a handler, against the machine. *)
Definition refines (e : Env) (q : Request) (g g' : UpdateGate) : Prop :=
  gstep (live e (machine g)) (createdAt e) q (tables g) (tables g')
  /\ machine g' = machine g
  /\ (coherent g -> drained g' = draining (transactions g')).

Lemma refines_same e q g g' :
  transactions g' = transactions g -> disk g' = disk g -> drained g' = drained g ->
  machine g' = machine g -> refines e q g g'.
Proof.
  intros Ht Hd Hr Hm. unfold refines, tables. rewrite Ht, Hd, Hr. split; [constructor|].
  split; [done|]. by intros [? _].
Qed.

Lemma persist_fields r g g' ok : persist r g = (g', ok) ->
  transactions g' = transactions g /\ drained g' = drained g /\ machine g' = machine g
  /\ (disk g' = Some (transactions g) \/ disk g' = disk g)
  /\ (ok = true -> disk g' = Some (transactions g)).
Proof.
  unfold persist. destruct r as [|[]]; intros [<- <-]%pair_eq; simpl; naive_solver.
Qed.

(** A handler that stores a wanted table and keeps it, whatever the write does. *)
Lemma refines_stored e q g g1 g' ok :
  persist (write e) g1 = (g', ok) -> request_valid q = true ->
  wants (live e (machine g)) (createdAt e) q (transactions g) (transactions g1) ->
  (qOperation q = OpCommit -> ok = true) ->
  disk g1 = disk g -> machine g1 = machine g ->
  (coherent g -> drained g1 = draining (transactions g1)) ->
  refines e q g g'.
Proof.
  intros (Ht & Hr & Hm & Hd & Ho)%persist_fields Hv Hw Hc1 Hd1 Hm1 Hc.
  unfold refines, tables. rewrite Ht, Hr, Hm, Hm1. split; [|done].
  rewrite Hd1 in Hd. eapply gstep_wanted; eauto.
Qed.

(** Rewrites with the known flags of a transaction. *)
Ltac flags :=
  repeat match goal with
  | H : ?f ?v = true |- context [?f ?v] => rewrite H
  | H : ?f ?v = false |- context [?f ?v] => rewrite H
  end; simpl.

Section handlers.
Context (e : Env) (q : Request) (t : Target) (g g' : UpdateGate) (a : Answer).
Hypothesis (Hvalid : request_valid q = true).

Lemma handleTarget_refines :
  qOperation q = OpTarget -> live e (machine g) t ->
  handleTarget e q t g = (g', a) -> refines e q g g'.
Proof using Hvalid.
  intros Hop Hl H. unfold handleTarget in H.
  destruct (transactions g !! _) as [v|] eqn:Hv.
  - destruct (_ || _) eqn:Hg in H; [by inversion H; subst; apply refines_same|].
    destruct (negb _) eqn:Ht in H; [|by inversion H; subst; apply refines_same].
    rewrite Ht in Hg. bool_hyps. simpl in *. bool_hyps.
    inversion H; subst. split; [|split; [done|]].
    + eapply gstep_wanted; [done| |left; split; [done|congruence]|by right].
      eapply wants_edge; [done|]. by constructor.
    + intros [Hd Hf]. simpl. rewrite draining_insert. simpl.
      destruct (committed v) eqn:Hc; [naive_solver congruence|].
      by rewrite Hd; destruct (drainStarted v).
  - destruct (_ <=? _) eqn:Hs; [by inversion H; subst; apply refines_same|].
    destruct (persist _ _) as [g2 ok] eqn:Hp. bool_hyps.
    assert (wants (live e (machine g)) (createdAt e) q (transactions g)
              (<[TransactionID q := freshTx q t (createdAt e)]> (transactions g)))
      by by constructor.
    destruct ok.
    + inversion H; subst. eapply refines_stored; [done..|congruence| | |]; [done..|].
      intros [Hd _]. simpl. rewrite draining_insert. simpl. rewrite delete_id; [done|].
      by rewrite draining_lookup, Hv.
    + apply persist_fields in Hp as (Ht & Hr & Hm & Hdk & _). inversion H; subst. simpl in *.
      unfold refines, tables. simpl. rewrite Ht, delete_insert_id, Hr, Hm by done.
      split; [|by split; [|intros []]].
      eapply gstep_wanted; [done..| |done]. by right.
Qed.

Lemma handleCandidate_refines route :
  qOperation q = OpCandidate -> ExpectedTarget q = Some t ->
  handleCandidate e q t route g = (g', a) -> refines e q g g'.
Proof using Hvalid.
  intros Hop Hx H. unfold handleCandidate in H.
  destruct (transactions g !! _) as [v|] eqn:Hv; [|by inversion H; subst; apply refines_same].
  destruct (_ || _) eqn:Hg in H; [by inversion H; subst; apply refines_same|].
  destruct (_ && _) eqn:Hb in H; [by inversion H; subst; apply refines_same|].
  bool_hyps. subst t.
  destruct (persist _ _) as [g1 ok] eqn:Hp.
  assert (g' = g1) as -> by (destruct ok; [destruct (canary _ _ _ _ _ _)|]; by inversion H).
  eapply refines_stored; [done..| |congruence| | |]; [|done..|].
  - eapply wants_edge; [done|]. apply edge_candidate; try done.
    intros Hpb. rewrite Hpb in Hb. by destruct (policyMatches v q).
  - intros [Hd _]. simpl. rewrite draining_insert. simpl. flags. rewrite Hd.
    apply map_eq. intros i. destruct (decide (i = TransactionID q)) as [->|Hi].
    + destruct (drainStarted v) eqn:Hds; rewrite draining_lookup, Hv; simpl; flags;
        by rewrite ?lookup_insert_eq, ?lookup_delete_eq.
    + destruct (drainStarted v); simpl; by rewrite ?lookup_insert_ne, ?lookup_delete_ne.
Qed.

Lemma handleDrain_refines :
  qOperation q = OpDrain -> ExpectedTarget q = Some t ->
  handleDrain e q t g = (g', a) -> refines e q g g'.
Proof using Hvalid.
  intros Hop Hx H. unfold handleDrain in H.
  destruct (transactions g !! _) as [v|] eqn:Hv; [|by inversion H; subst; apply refines_same].
  destruct (_ || _) eqn:Hg in H; [by inversion H; subst; apply refines_same|].
  bool_hyps. subst t.
  destruct (persist _ _) as [g1 ok] eqn:Hp.
  assert (g' = g1) as -> by (destruct ok; [destruct (drainOk _)|]; by inversion H).
  eapply refines_stored; [done..| |congruence| | |]; [|done..|].
  - eapply wants_edge; [done|]. by apply edge_drain.
  - intros [Hd _]. simpl. rewrite draining_insert. simpl. flags. by rewrite Hd.
Qed.

Lemma handleStability_refines :
  qOperation q = OpStability ->
  handleStability e q t g = (g', a) -> refines e q g g'.
Proof using Hvalid.
  intros Hop H. unfold handleStability in H.
  destruct (transactions g !! _) as [v|] eqn:Hv; [|by inversion H; subst; apply refines_same].
  destruct (_ || _) eqn:Hg in H; [by inversion H; subst; apply refines_same|].
  destruct (drained g !! _) eqn:Hdr;
    [|by destruct (watchLoop _ _ _ _); inversion H; subst; apply refines_same].
  destruct (negb (replaceOk e)) in H; [by inversion H; subst; apply refines_same|].
  destruct (current _ _) as [[[t1 r] h]|] eqn:Hc; [|by inversion H; subst; apply refines_same].
  destruct (ExpectedTarget q) as [want|]; [|by inversion H; subst; apply refines_same].
  destruct (negb (sameReleaseTarget _ _)) in H; [by inversion H; subst; apply refines_same|].
  bool_hyps.
  destruct (persist _ _) as [g1 ok] eqn:Hp.
  assert (g' = g1) as -> by (destruct ok; [destruct (watchLoop _ _ _ _)|]; by inversion H).
  eapply refines_stored; [done..| |congruence| | |]; [|done..|].
  - eapply wants_edge; [done|]. apply edge_stability; try done. exists r, h. by right.
  - intros [Hd _]. simpl. rewrite draining_insert. simpl. flags; by rewrite Hd.
Qed.

Lemma handleRollback_refines :
  qOperation q = OpRollback -> ExpectedTarget q = Some t ->
  handleRollback e q t g = (g', a) -> refines e q g g'.
Proof using Hvalid.
  intros Hop Hx H. unfold handleRollback in H.
  destruct (transactions g !! _) as [v|] eqn:Hv; [|by inversion H; subst; apply refines_same].
  destruct (_ || _) eqn:Hg in H; [by inversion H; subst; apply refines_same|].
  destruct (negb (bool_decide (drained _ !! _ = _))) in H; [by inversion H; subst; apply refines_same|].
  destruct (_ || _) in H; [by inversion H; subst; apply refines_same|].
  destruct (current _ _) as [[[t1 r] h]|] eqn:Hc; [|by inversion H; subst; apply refines_same].
  destruct (negb (sameReleaseTarget _ _)) in H; [by inversion H; subst; apply refines_same|].
  destruct (canary _ _ _ _ _ _) in H; [by inversion H; subst; apply refines_same|].
  bool_hyps. subst t.
  destruct (persist _ _) as [g1 ok] eqn:Hp.
  assert (g' = g1) as -> by (destruct ok; by inversion H).
  eapply refines_stored; [done..| |congruence| | |]; [|done..|].
  - by eapply wants_rollback.
  - intros [Hd _]. simpl. by rewrite draining_delete, Hd.
Qed.

Lemma handleCommit_refines :
  qOperation q = OpCommit -> ExpectedTarget q = Some t ->
  handleCommit e q t g = (g', a) -> refines e q g g'.
Proof using Hvalid.
  intros Hop Hx H. unfold handleCommit in H.
  destruct (transactions g !! _) as [v|] eqn:Hv; [|by inversion H; subst; apply refines_same].
  destruct (_ || _) eqn:Hg in H; [by inversion H; subst; apply refines_same|].
  destruct (negb (bool_decide (drained _ !! _ = _))) eqn:Hdr in H;
    [by inversion H; subst; apply refines_same|].
  bool_hyps. subst t.
  destruct (persist _ _) as [g1 ok] eqn:Hp.
  assert (wants (live e (machine g)) (createdAt e) q (transactions g)
            (<[TransactionID q := commitTx v]> (transactions g)))
    by (eapply wants_edge; [done|]; by apply edge_commit).
  destruct ok; inversion H; subst.
  - eapply refines_stored; [done..|]. intros [Hd _]. simpl.
    rewrite draining_insert. simpl. by rewrite Hd.
  - apply persist_fields in Hp as (Ht & Hr & Hm & Hdk & _). simpl in *.
    unfold refines, tables. simpl. rewrite Ht, insert_insert_eq, insert_id, Hr, Hm by done.
    split; [|split; [done|]].
    + eapply gstep_wanted; [done..| |done]. by right.
    + intros [Hd _]. rewrite insert_delete_eq. by rewrite insert_id.
Qed.
End handlers.

Lemma refines_handle e q g g' a :
  HandleUpdateGate e q g = (g', a) -> refines e q (purgeTransactions (now e) g) g'.
Proof.
  unfold HandleUpdateGate. generalize (purgeTransactions (now e) g) as p. intros p.
  destruct (request_valid q) eqn:Hv; simpl; [|by intros [<- _]%pair_eq; apply refines_same].
  intros H.
  match type of H with
  | match qOperation q with OpTarget => ?x | _ => _ end = _ =>
      enough (Hf : x = (g', a) -> refines e q p g')
  end.
  - destruct (qOperation q); try by apply Hf.
    destruct (transactions p !! _) as [v|] eqn:Hl; [|by apply Hf].
    destruct (committed v); [|by apply Hf].
    destruct (negb _); inversion H; subst; by apply refines_same.
  - clear H. destruct (current _ _) as [[[t r] h]|] eqn:Hc;
      [|by intros [<- _]%pair_eq; apply refines_same].
    destruct (negb _) eqn:Hm; [by intros [<- _]%pair_eq; apply refines_same|].
    unfold matchesUpdateGateTarget in Hm. bool_hyps.
    assert (live e (machine p) t) by (exists r, h; by left).
    destruct (qOperation q) eqn:Ho; simpl in Hm; bool_hyps; intros Hr.
    + by eapply handleTarget_refines.
    + by eapply handleCandidate_refines.
    + by eapply handleDrain_refines.
    + by eapply handleStability_refines.
    + by eapply handleRollback_refines.
    + by eapply handleCommit_refines.
    + by inversion Hr; subst; apply refines_same.
Qed.

(** ** What the purge keeps *)
Lemma purge_lookup n g id v :
  transactions (purgeTransactions n g) !! id = Some v <->
  transactions g !! id = Some v /\ stale n v = false.
Proof. simpl. by rewrite map_lookup_filter_Some. Qed.

Lemma purge_coherent n g : coherent g -> coherent (purgeTransactions n g).
Proof.
  intros [Hd Hf]. split.
  - simpl. rewrite Hd. apply map_eq. intros i. apply option_eq. intros t.
    rewrite map_lookup_filter_Some, !draining_lookup. simpl.
    rewrite !bind_Some. split.
    + intros [(v & Hv & Ht) Hs]. rewrite Hv in Hs. exists v. by rewrite map_lookup_filter_Some.
    + intros (v & [Hv Hs]%map_lookup_filter_Some & Ht). simpl in Hs.
      rewrite Hv. split; [by exists v|done].
  - intros id v [Hv _]%purge_lookup. by apply (Hf id).
Qed.

(** ** Entries a start of the process accepts *)

(** Every entry the gate makes is [sound]; the loader also asks for a valid target and
    a creation time, which [HandleUpdateGate] takes as they come. *)
Definition policyOk (v : Transaction) : bool :=
  validUpdatePath (path v) && (200 <=? status v) && (status v <=? 299)
  && (2 <=? samples v) && (samples v <=? 32).
Definition policyNone (v : Transaction) : bool :=
  empty (path v) && (status v =? 0) && (samples v =? 0).

Record sound (mach id : gostring) (v : Transaction) : Prop := {
  sound_id : identifier id = true;
  sound_version : validVersion (version v) = true;
  sound_manifest : digest (manifest v) = true;
  sound_machine : MachineID (target v) = mach;
  sound_policy : (if policyBound v then policyOk v else policyNone v) = true;
  sound_drain : drainStarted v = true -> policyBound v = true;
  sound_commit : committed v = true -> policyBound v = true /\ drainStarted v = false }.

Definition stamped (v : Transaction) : Prop := target_valid (target v) = true /\ created v <> zeroTime.

Lemma identifier_nonempty id : identifier id = true -> empty id = false.
Proof. by destruct id. Qed.

#[local] Arguments validUpdatePath : simpl never.
#[local] Arguments validVersion : simpl never.
#[local] Arguments digest : simpl never.
#[local] Arguments identifier : simpl never.
#[local] Arguments target_valid : simpl never.

Lemma loadable_sound mach id v : loadable mach id v = true <-> sound mach id v /\ stamped v.
Proof.
  unfold loadable. split.
  - intros H. rewrite (and_comm (sound _ _ _)).
    destruct (_ || _) eqn:H1 in H; [done|]. destruct (negb (request_valid _)) eqn:H2 in H; [done|].
    destruct (if policyBound v then _ else _) eqn:H3 in H; [done|].
    unfold request_valid in *. simpl in *. bool_hyps.
    repeat match goal with H : (if ?b then false else _) = true |- _ => destruct b eqn:?; [done|] end.
    bool_hyps. split; [done|]. split; try done.
    + unfold policyOk, policyNone. destruct (policyBound v); bool_hyps.
      * repeat match goal with H : (if ?b then false else _) = true |- _ => destruct b eqn:?; [done|] end.
        bool_hyps. unfold validPolicy in *. cbn [Path ExpectedStatus Samples] in *. bool_hyps.
        rewrite !andb_true_iff. repeat split; lia || done.
      * rewrite !andb_true_iff. repeat split; lia || done.
    + intros Hd. rewrite Hd in *. by destruct (policyBound v).
    + intros Hd. rewrite Hd in *. by destruct (policyBound v), (drainStarted v).
  - intros [[Hi Hv Hm Hk Hp Hd Hx] [Ht Hc]].
    rewrite (identifier_nonempty _ Hi), (bool_decide_eq_true_2 _ Hk), Ht.
    apply Z.eqb_neq in Hc. rewrite Hc. simpl.
    unfold request_valid. simpl. rewrite Hi, Hv, Hm. simpl.
    unfold policyOk, policyNone, validPolicy, boundTarget in *. simpl. rewrite Ht.
    destruct (policyBound v).
    + rewrite Hp. simpl. destruct (drainStarted v), (committed v); simpl; naive_solver.
    + bool_hyps. flags. rewrite (proj2 (Z.eqb_eq _ _) H1), (proj2 (Z.eqb_eq _ _) H0). simpl.
      destruct (drainStarted v), (committed v); simpl; naive_solver.
Qed.

(** ** Tables *)
Definition table_ok (mach : gostring) (m : Transactions) : Prop :=
  Z.of_nat (size m) <= maxTransactions /\ forall id v, m !! id = Some v -> sound mach id v.

(** A request that is accepted names a transaction, a release and, for a probe, a policy
    that the loader accepts too. *)
Lemma request_valid_base q : request_valid q = true ->
  identifier (TransactionID q) = true /\ validVersion (Version q) = true
  /\ digest (ManifestSHA256 q) = true.
Proof.
  unfold request_valid. intros H. destruct (_ || _) eqn:Hb in H; [done|].
  by bool_hyps.
Qed.

Lemma request_valid_policy q : request_valid q = true -> qOperation q = OpCandidate ->
  validPolicy q = true.
Proof.
  unfold request_valid. intros H Ho. rewrite Ho in H.
  destruct (_ || _) in H; [done|]. destruct (negb _ && negb _) in H; [done|]. by bool_hyps.
Qed.

Section tables.
Context (mach : gostring) (alive : Target -> Prop) (c : Z) (q : Request).
Hypothesis (Halive : forall t, alive t -> MachineID t = mach).

Lemma edge_sound v v' : request_valid q = true ->
  edge alive q v v' -> sound mach (TransactionID q) v -> sound mach (TransactionID q) v'.
Proof using All.
  intros Hvalid [] [Hi Hv Hm Hk Hp Hd Hx]; split; simpl; try done; try by apply Halive.
  - by apply request_valid_policy.
  - naive_solver.
  - naive_solver congruence.
Qed.

Lemma wants_ok m m' : request_valid q = true -> wants alive c q m m' -> table_ok mach m -> table_ok mach m'.
Proof using All.
  intros Hvalid Hw [Hs Hm]. destruct (request_valid_base q Hvalid) as (Hi & Hv & Hg).
  destruct Hw as [t Ho Hn Hlt Hl|v v' Hv0 He|v Hv0 _ _ _ _ _ _]; split.
  - rewrite map_size_insert_None by done. lia.
  - intros id v [[<- <-]|[_ ?]]%lookup_insert_Some; [|by apply Hm].
    split; simpl; try done; by apply Halive.
  - by rewrite map_size_insert_Some.
  - intros id w [[<- <-]|[_ ?]]%lookup_insert_Some; [|by apply Hm].
    eapply edge_sound; [done..|]. by apply Hm.
  - rewrite map_size_delete_Some by done. lia.
  - intros id w [_ ?]%lookup_delete_Some. by apply Hm.
Qed.

Lemma gstep_ok m d m' d' :
  gstep alive c q (m, d) (m', d') -> table_ok mach m -> (forall k, d = Some k -> table_ok mach k) ->
  table_ok mach m' /\ (forall k, d' = Some k -> table_ok mach k).
Proof using All.
  intros Hg Hm Hd. inversion Hg as [|? ? m1 ? ? Hv Hw Ha Hb]; subst; [done|].
  assert (table_ok mach m1) by by eapply wants_ok.
  destruct Ha as [[-> _]| ->], Hb as [->| ->]; naive_solver.
Qed.
End tables.

(** When the targets of the calls are valid, so are those of the entries. *)
Definition all_stamped (m : Transactions) : Prop := forall id v, m !! id = Some v -> stamped v.

Lemma gstep_stamped (alive : Target -> Prop) c q m d m' d' :
  c <> zeroTime -> (forall t, alive t -> target_valid t = true) -> gstep alive c q (m, d) (m', d') ->
  all_stamped m -> (forall k, d = Some k -> all_stamped k) ->
  all_stamped m' /\ (forall k, d' = Some k -> all_stamped k).
Proof.
  intros Hc Ha Hg Hm Hd. inversion Hg as [|? ? m1 ? ? Hv Hw Hb1 Hb2]; subst; [done|].
  assert (all_stamped m1).
  { destruct Hw as [t Ho Hn Hlt Hl|v v' Hv0 He|v Hv0 _ _ _ _ _ _]; intros id w.
    - intros [[<- <-]|[_ ?]]%lookup_insert_Some; [|by apply (Hm id)]. split; [by apply Ha|done].
    - intros [[<- <-]|[_ ?]]%lookup_insert_Some; [|by apply (Hm id)].
      specialize (Hm _ _ Hv0) as [? ?]. destruct He; split; simpl; auto.
    - intros [_ ?]%lookup_delete_Some. by apply (Hm id). }
  destruct Hb1 as [[-> _]| ->], Hb2 as [->| ->]; naive_solver.
Qed.

Lemma purge_ok mach n g : table_ok mach (transactions g) ->
  table_ok mach (transactions (purgeTransactions n g)).
Proof.
  intros [Hs Hm]. split.
  - pose proof (map_size_filter (fun e => stale n e.2 = false) (transactions g)). simpl. lia.
  - intros id v [? _]%purge_lookup. by apply Hm.
Qed.

(** ** The gate over its lifetime *)

(** A call in any environment, with any end of its write, or the process starts again
    from a file it loads. *)
Inductive gate_step (jsonSize : Transactions -> Z) : UpdateGate -> UpdateGate -> Prop :=
| gate_handle e q g g' a : HandleUpdateGate e q g = (g', a) -> gate_step jsonSize g g'
| gate_restart g g' : NewUpdateGate jsonSize (machine g) (disk g) = Some g' -> gate_step jsonSize g g'.

(** The clock runs and the live targets are valid. *)
Definition env_ok (mach : gostring) (e : Env) : Prop :=
  createdAt e <> zeroTime /\ forall t, live e mach t -> target_valid t = true.

(** The same with calls in such environments only. *)
Inductive stamped_step (jsonSize : Transactions -> Z) : UpdateGate -> UpdateGate -> Prop :=
| stamped_handle e q g g' a : env_ok (machine g) e -> HandleUpdateGate e q g = (g', a) ->
    stamped_step jsonSize g g'
| stamped_restart g g' : NewUpdateGate jsonSize (machine g) (disk g) = Some g' -> stamped_step jsonSize g g'.

Lemma stamped_gate_step jsonSize g g' : stamped_step jsonSize g g' -> gate_step jsonSize g g'.
Proof. destruct 1; [by eapply gate_handle|by apply gate_restart]. Qed.

(** What the table in memory says is committed, the file says too. *)
Definition durable (m : Transactions) (d : option Transactions) : Prop :=
  forall id v, m !! id = Some v -> committed v = true ->
    exists k, d = Some k /\ k !! id = Some v.

Record gate_ok (g : UpdateGate) : Prop := {
  gate_drained : drained g = draining (transactions g);
  gate_memory : table_ok (machine g) (transactions g);
  gate_disk : forall m, disk g = Some m -> table_ok (machine g) m;
  gate_durable : durable (transactions g) (disk g) }.

Lemma gate_ok_coherent g : gate_ok g -> coherent g.
Proof. intros [Hd [_ Hm] _ _]. split; [done|]. intros id v Hv. by apply (Hm _ _ Hv). Qed.

Lemma current_machine mach s t r h : current mach s = Some (t, r, h) -> MachineID t = mach.
Proof.
  unfold current. intros H. destruct (firstUsable _) as [[[i info] [[rt ho] rg]]|]; [|done].
  destruct (_ =? 0); [done|]. by inversion H.
Qed.

Lemma live_machine e mach t : live e mach t -> MachineID t = mach.
Proof. intros (r & h & [H|H]); by eapply current_machine. Qed.

Lemma load_ok jsonSize mach m :
  table_ok mach m -> all_stamped m -> 0 < jsonSize m <= maxStateBytes ->
  load jsonSize mach (Some m) = Some (mkGate mach (draining m) m 0 (Some m)).
Proof.
  intros [Hs Hm] Hst Hj. unfold load.
  destruct (Z.eqb_spec (jsonSize m) 0); [lia|].
  destruct (Z.ltb_spec maxStateBytes (jsonSize m)); [lia|].
  destruct (Z.ltb_spec maxTransactions (Z.of_nat (size m))); [lia|]. simpl.
  replace (forallb _ _) with true; [done|]. symmetry. apply forallb_forall.
  intros [id v] Hin%list_elem_of_In%elem_of_map_to_list. apply loadable_sound. split; [by apply Hm|by apply (Hst id)].
Qed.

Lemma load_inv jsonSize mach f g : NewUpdateGate jsonSize mach f = Some g ->
  machine g = mach /\ drained g = draining (transactions g) /\ disk g = f
  /\ transactions g = default ∅ f
  /\ (forall m, f = Some m -> table_ok mach m /\ all_stamped m /\ jsonSize m <> 0 /\ jsonSize m <= maxStateBytes).
Proof.
  unfold NewUpdateGate, load. destruct (empty mach); [done|].
  destruct f as [m|]; [|by intros [= <-]; simpl; unfold draining; rewrite omap_empty].
  destruct (_ || _) eqn:H; [done|]. intros [= <-]. simpl. bool_hyps. split_and!; try done.
  intros m' [= <-].
  assert (Hall : forall id v, m !! id = Some v -> sound mach id v /\ stamped v).
  { intros id v Hv. apply loadable_sound.
    match goal with H : forallb _ _ = true |- _ => rewrite forallb_forall in H; apply (H (id, v)) end.
    by apply list_elem_of_In, elem_of_map_to_list. }
  split_and!; try lia; [split; [lia|]|]; intros id v Hv; by apply Hall in Hv as [? ?].
Qed.

Lemma table_ok_empty mach : table_ok mach ∅.
Proof. split; [rewrite map_size_empty; unfold maxTransactions; lia|]. intros id v. by rewrite lookup_empty. Qed.

(** Only a commit makes a transaction committed, and nothing changes a committed one. *)
Lemma edge_uncommitted mach alive q id v v' : edge alive q v v' -> sound mach id v ->
  committed v = false /\ (qOperation q <> OpCommit -> committed v' = false).
Proof.
  intros [] [? ? ? ? ? ? Hx]; simpl; try (split; congruence).
  destruct (committed v0); [|done]. destruct Hx as [_ Hx]; [done|congruence].
Qed.

Lemma wants_uncommitted mach alive c q m m1 : wants alive c q m m1 -> table_ok mach m ->
  (forall v, m !! TransactionID q = Some v -> committed v = false)
  /\ (qOperation q <> OpCommit -> forall v, m1 !! TransactionID q = Some v -> committed v = false).
Proof.
  intros [t Ho Hn _ _|v v' Hv He|v Hv Ho _ Hc _ _ _] [_ Hm].
  - split; [congruence|]. intros _ v. rewrite lookup_insert_eq. by intros [= <-].
  - destruct (edge_uncommitted mach alive q _ v v' He (Hm _ _ Hv)) as [? ?].
    split; [congruence|]. intros Hn w. rewrite lookup_insert_eq. intros [= <-]. auto.
  - split; [congruence|]. intros _ w. by rewrite lookup_delete_eq.
Qed.

Lemma wants_other alive c q m m1 id : wants alive c q m m1 -> id <> TransactionID q ->
  m1 !! id = m !! id.
Proof. intros [] Hn; by rewrite ?lookup_insert_ne, ?lookup_delete_ne. Qed.

Lemma gstep_durable mach alive c q m d m' d' :
  gstep alive c q (m, d) (m', d') -> table_ok mach m -> durable m d -> durable m' d'.
Proof.
  intros Hg Hm Hd. inversion Hg as [|? ? m1 ? ? Hv Hw Ha Hb]; subst; [done|].
  destruct (wants_uncommitted _ _ _ _ _ _ Hw Hm) as [Hu Hu'].
  intros id v Hid Hc.
  destruct (decide (id = TransactionID q)) as [->|Hne].
  - destruct Ha as [[-> Hco]| ->]; [|by rewrite (Hu v Hid) in Hc].
    destruct (decide (qOperation q = OpCommit)) as [Ho|Ho]; [by rewrite (Hco Ho); eauto|].
    by rewrite (Hu' Ho v Hid) in Hc.
  - assert (m !! id = Some v /\ m1 !! id = Some v) as [Hmv Hm1v].
    { pose proof (wants_other _ _ _ _ _ _ Hw Hne).
      destruct Ha as [[-> _]| ->]; by split; congruence. }
    destruct Hb as [->| ->]; eauto.
Qed.

Lemma gate_step_ok jsonSize g g' : gate_step jsonSize g g' -> gate_ok g ->
  gate_ok g' /\ machine g' = machine g.
Proof.
  intros [e q g1 g1' a H|g1 g1' H] Hok.
  - apply refines_handle in H as (Hg & Hm & Hd). unfold tables in Hg. rewrite Hm. simpl in *.
    assert (Hp := purge_coherent (now e) g1 (gate_ok_coherent g1 Hok)).
    destruct Hok as [_ Hmem Hdisk Hdur].
    assert (Hmem' := purge_ok _ (now e) _ Hmem).
    assert (Hdur' : durable (transactions g1') (disk g1')).
    { eapply (gstep_durable (machine g1)); [done..|].
      intros id v [? _]%purge_lookup. by apply Hdur. }
    eapply gstep_ok with (mach := machine g1) in Hg as [Hm' Hd']; try done.
    + split; [|done]. split; rewrite ?Hm; by auto.
    + intros t Ht. by eapply live_machine.
  - apply load_inv in H as (Hm & Hd & Hk & Ht & Hl). rewrite Hm.
    assert (Hok' : forall m, disk g1 = Some m -> table_ok (machine g1) m) by (intros m Hmd; by apply Hl).
    split; [|done]. rewrite Ht in Hd. split; rewrite ?Hm, ?Hk, ?Ht; try done;
      destruct (disk g1) as [m|]; simpl; eauto using table_ok_empty.
    + intros id v Hv _. eauto.
    + intros id v. by rewrite lookup_empty.
Qed.

Definition gate_stamped (g : UpdateGate) : Prop :=
  all_stamped (transactions g) /\ forall m, disk g = Some m -> all_stamped m.

Lemma stamped_step_ok jsonSize g g' : stamped_step jsonSize g g' -> gate_stamped g -> gate_stamped g'.
Proof.
  intros [e q g1 g1' a [Hz He] H|g1 g1' H] [Hm Hd].
  - apply refines_handle in H as (Hg & _). eapply gstep_stamped; [exact Hz| |exact Hg| |done].
    + intros t Ht. by apply He.
    + intros id v [? _]%purge_lookup. by apply (Hm id).
  - apply load_inv in H as (_ & _ & Hk & Ht & Hok'). unfold gate_stamped. rewrite Hk, Ht. split; [|done].
    destruct (disk g1) as [m|]; simpl; [by apply Hd|]. intros id v. by rewrite lookup_empty.
Qed.
