(* ===== verification/UpdateGateRuns.v ===== *)
(** * The update gate: what its answers mean, restarts, commits

    The properties of the gate over its lifetime, proved of the abstract machine of
    UpdateGateProps.v and of the answers of the handlers. *)
From S2P Require Import Prelude.
From S2P Require Import TransferCodec.
From S2P Require Import UpdateGate.
From S2P Require Import UpdateGateProps.
Set Warnings "-clear-no-such-hyp".

(** The transaction is in memory and in the file. *)
Definition stored (g : UpdateGate) (id : gostring) (v : Transaction) : Prop :=
  transactions g !! id = Some v /\ exists k, disk g = Some k /\ k !! id = Some v.

(** What a successful answer promises of the state after the call. *)
Definition promised (e : Env) (q : Request) (t : Target) (g : UpdateGate) : Prop :=
  match qOperation q with
  | OpTarget => live e (machine g) t /\
      exists v, transactions g !! TransactionID q = Some v /\ releaseMatches v q = true /\ target v = t
  | OpCandidate =>
      exists v r h, stored g (TransactionID q) v /\ releaseMatches v q = true /\ target v = t
        /\ policyBound v = true /\ policyMatches v q = true /\ committed v = false
        /\ current (machine g) (snapshot e) = Some (t, r, h)
        /\ canary (machine g) (urlOk e) t r q (probes e) = None
  | OpDrain =>
      exists v, stored g (TransactionID q) v /\ releaseMatches v q = true /\ target v = t
        /\ drainStarted v = true /\ committed v = false /\ drainOk e = true
  | OpStability =>
      exists v, stored g (TransactionID q) v /\ releaseMatches v q = true /\ target v = t
        /\ drainStarted v = true /\ committed v = false
        /\ watchLoop (machine g) t q (watches e) = None
  | OpRollback => transactions g !! TransactionID q = None /\ disk g = Some (transactions g)
  | OpCommit =>
      exists v, stored g (TransactionID q) v /\ releaseMatches v q = true /\ target v = t
        /\ committed v = true
  | OpOther => False
  end.

Lemma stored_insert r g g' id v d : persist r ((setTx id v g) <| drained := d |>) = (g', true) ->
  stored g' id v.
Proof.
  intros (Ht & _ & _ & _ & Hd)%persist_fields. unfold stored. rewrite Hd, Ht by done. simpl.
  split; [apply lookup_insert_eq|]. eexists. split; [done|]. apply lookup_insert_eq.
Qed.

Section answers.
Context (e : Env) (q : Request) (t t' : Target) (g g' : UpdateGate).

Lemma handleTarget_answer : qOperation q = OpTarget -> live e (machine g) t ->
  handleTarget e q t g = (g', Ok t') -> promised e q t' g'.
Proof.
  intros Ho Hl H. unfold promised. rewrite Ho. unfold handleTarget in H.
  destruct (transactions g !! _) as [v|] eqn:Hv.
  - destruct (_ || _) eqn:Hg in H; [done|]. apply orb_false_iff in Hg as [Hr _]. bool_hyps.
    destruct (negb _) eqn:Ht in H; invc H; simpl; (split; [done|]); bool_hyps.
    + rewrite lookup_insert_eq. by eexists.
    + rewrite Hv. by eexists.
  - destruct (_ <=? _) in H; [done|].
    destruct (persist _ _) as [g2 []] eqn:Hp; invc H.
    apply persist_fields in Hp as (Ht & _ & Hm & _). rewrite Ht, Hm. simpl.
    split; [done|]. rewrite lookup_insert_eq. eexists. split_and!; [done| |done].
    unfold releaseMatches. simpl. by rewrite !bool_decide_true.
Qed.

Lemma policyMatches_bind v : policyMatches (bindPolicy q v) q = true.
Proof. unfold policyMatches. simpl. by rewrite bool_decide_true, !Z.eqb_refl. Qed.

Lemma handleCandidate_answer r h : qOperation q = OpCandidate ->
  current (machine g) (snapshot e) = Some (t, r, h) ->
  handleCandidate e q t r g = (g', Ok t') -> promised e q t' g'.
Proof.
  intros Ho Hc H. unfold promised. rewrite Ho. unfold handleCandidate in H.
  destruct (transactions g !! _) as [v|] eqn:Hv; [|done].
  destruct (_ || _) eqn:Hg in H; [done|].
  destruct (_ && _) in H; [done|]. bool_hyps.
  destruct (persist _ _) as [g1 []] eqn:Hp; [|done].
  destruct (canary _ _ _ _ _ _) eqn:Hn in H; [done|]. invc H.
  assert (machine g' = machine g) as -> by by apply persist_fields in Hp as (_ & _ & ? & _).
  exists (bindPolicy q v), r, h. rewrite policyMatches_bind. split_and!; try done.
  by apply stored_insert with (d := drained g) in Hp.
Qed.

Lemma handleDrain_answer : qOperation q = OpDrain ->
  handleDrain e q t g = (g', Ok t') -> promised e q t' g'.
Proof.
  intros Ho H. unfold promised. rewrite Ho. unfold handleDrain in H.
  destruct (transactions g !! _) as [v|] eqn:Hv; [|done].
  destruct (_ || _) eqn:Hg in H; [done|]. bool_hyps.
  destruct (persist _ _) as [g1 []] eqn:Hp; [|done].
  destruct (drainOk e) eqn:Hdo in H; invc H.
  eexists (v <| drainStarted := true |>). split_and!; try done. by eapply stored_insert.
Qed.

Lemma handleStability_answer : qOperation q = OpStability -> coherent g ->
  handleStability e q t g = (g', Ok t') -> promised e q t' g'.
Proof.
  intros Ho [Hco _] H. unfold promised. rewrite Ho. unfold handleStability in H.
  destruct (transactions g !! _) as [v|] eqn:Hv; [|done].
  destruct (_ || _) eqn:Hg in H; [done|]. bool_hyps.
  rewrite Hco, draining_lookup, Hv in H. simpl in H.
  destruct (drainStarted v) eqn:Hds; [|done]. destruct (committed v) eqn:Hcm; [done|]. simpl in H.
  destruct (negb (replaceOk e)) in H; [done|].
  destruct (current _ _) as [[[t1 r] h]|] in H; [|done].
  destruct (ExpectedTarget q) as [want|]; [|done].
  destruct (negb (sameReleaseTarget _ _)) in H; [done|].
  destruct (persist _ _) as [g1 []] eqn:Hp; [|done].
  destruct (watchLoop _ _ _ _) eqn:Hw in H; invc H.
  eexists. split; [by eapply stored_insert|]. done.
Qed.

Lemma handleRollback_answer : qOperation q = OpRollback ->
  handleRollback e q t g = (g', Ok t') -> promised e q t' g'.
Proof.
  intros Ho H. unfold promised. rewrite Ho. unfold handleRollback in H.
  destruct (transactions g !! _) as [v|] eqn:Hv; [|done].
  destruct (_ || _) in H; [done|].
  destruct (negb (bool_decide (drained _ !! _ = _))) in H; [done|].
  destruct (_ || _) in H; [done|].
  destruct (current _ _) as [[[t1 r] h]|] in H; [|done].
  destruct (negb (sameReleaseTarget _ _)) in H; [done|].
  destruct (canary _ _ _ _ _ _) in H; [done|].
  destruct (persist _ _) as [g1 []] eqn:Hp; invc H.
  apply persist_fields in Hp as (Ht & _ & _ & _ & Hd). rewrite Hd, Ht by done. simpl.
  by rewrite lookup_delete_eq.
Qed.

Lemma handleCommit_answer : qOperation q = OpCommit ->
  handleCommit e q t g = (g', Ok t') -> promised e q t' g'.
Proof.
  intros Ho H. unfold promised. rewrite Ho. unfold handleCommit in H.
  destruct (transactions g !! _) as [v|] eqn:Hv; [|done].
  destruct (_ || _) eqn:Hg in H; [done|].
  destruct (negb (bool_decide (drained _ !! _ = _))) in H; [done|]. bool_hyps.
  destruct (persist _ _) as [g1 []] eqn:Hp; invc H.
  exists (commitTx v). split_and!; try done. by eapply stored_insert.
Qed.
End answers.

Lemma purge_gate_ok n g : gate_ok g -> gate_ok (purgeTransactions n g).
Proof.
  intros Hok. pose proof (purge_coherent n g (gate_ok_coherent g Hok)) as [Hd _].
  destruct Hok as [_ Hm Hk Hdur]. split; [done|by apply purge_ok|done|].
  intros id v [Hv _]%purge_lookup Hc. by apply Hdur.
Qed.

Lemma HandleUpdateGate_promised e q g g' t : gate_ok g ->
  HandleUpdateGate e q g = (g', Ok t) -> promised e q t g'.
Proof.
  intros Hok%(purge_gate_ok (now e)). unfold HandleUpdateGate. revert Hok.
  generalize (purgeTransactions (now e) g) as p. intros p Hok.
  destruct (negb (request_valid q)); [done|]. intros H.
  match type of H with
  | match qOperation q with OpTarget => ?x | _ => _ end = _ =>
      enough (Hf : x = (g', Ok t) -> promised e q t g')
  end.
  - destruct (qOperation q) eqn:Ho; try by apply Hf.
    destruct (transactions p !! _) as [v|] eqn:Hl; [|by apply Hf].
    destruct (committed v) eqn:Hc; [|by apply Hf].
    destruct (negb _) eqn:Hm in H; invc H.
    unfold committedTransactionMatches in Hm. bool_hyps. unfold promised. rewrite Ho.
    exists v. split_and!; try done; [|by apply andb_true_iff; split; apply bool_decide_eq_true].
    split; [done|]. by apply (gate_durable g' Hok).
  - clear H. destruct (current _ _) as [[[t1 r] h]|] eqn:Hc; [|done].
    destruct (negb _); [done|].
    assert (live e (machine p) t1) by (exists r, h; by left).
    destruct (qOperation q) eqn:Ho; intros H'.
    + by eapply handleTarget_answer.
    + by eapply handleCandidate_answer.
    + by eapply handleDrain_answer.
    + eapply handleStability_answer; try done. by apply gate_ok_coherent.
    + by eapply handleRollback_answer.
    + by eapply handleCommit_answer.
    + done.
Qed.

(** ** After a commit *)

(** A step no later than [limit]. *)
Inductive early (jsonSize : Transactions -> Z) (limit : Z) : UpdateGate -> UpdateGate -> Prop :=
| early_handle e q g g' a : now e <= limit ->
    HandleUpdateGate e q g = (g', a) -> early jsonSize limit g g'
| early_restart g g' : NewUpdateGate jsonSize (machine g) (disk g) = Some g' -> early jsonSize limit g g'.

Lemma early_gate_step jsonSize limit g g' : early jsonSize limit g g' -> gate_step jsonSize g g'.
Proof. destruct 1; [by eapply gate_handle|by apply gate_restart]. Qed.

Lemma purge_keeps n g id v : n <= created v + 2 * Hour -> transactions g !! id = Some v ->
  transactions (purgeTransactions n g) !! id = Some v.
Proof.
  intros Hn Hv. apply purge_lookup. split; [done|]. unfold stale.
  destruct (Z.ltb_spec (2 * Hour) (n - created v)); [lia|]. apply andb_false_r.
Qed.

Lemma gstep_keeps mach alive c q m d m' d' id v :
  gstep alive c q (m, d) (m', d') -> table_ok mach m -> m !! id = Some v -> committed v = true ->
  (exists k, d = Some k /\ k !! id = Some v) ->
  m' !! id = Some v /\ exists k, d' = Some k /\ k !! id = Some v.
Proof.
  intros Hg Hm Hv Hc Hd. inversion Hg as [|? ? m1 ? ? Hq Hw Ha Hb]; subst; [done|].
  destruct (wants_uncommitted _ _ _ _ _ _ Hw Hm) as [Hu _].
  assert (id <> TransactionID q) as Hne by (intros ->; rewrite (Hu v Hv) in Hc; done).
  pose proof (wants_other _ _ _ _ _ _ Hw Hne) as Ho. rewrite Hv in Ho.
  split; [by destruct Ha as [[-> _]| ->]|]. destruct Hb as [->| ->]; eauto.
Qed.

Lemma early_keeps jsonSize g g' id v : committed v = true ->
  early jsonSize (created v + 2 * Hour) g g' -> gate_ok g -> stored g id v ->
  gate_ok g' /\ stored g' id v.
Proof.
  intros Hc Hs Hok [Hv Hd].
  destruct (gate_step_ok _ _ _ (early_gate_step _ _ _ _ Hs) Hok) as [Hok' _]. split; [done|].
  destruct Hs as [e q g g' a Hn H|g g' H].
  - apply refines_handle in H as (Hg & _ & _).
    eapply gstep_keeps; [exact Hg|apply (purge_ok (machine g)), Hok|by apply purge_keeps|done|done].
  - apply load_inv in H as (_ & _ & Hk & Ht & _). destruct Hd as (k & Hd & Hkv).
    unfold stored. rewrite Ht, Hk, Hd. simpl. eauto.
Qed.

Lemma early_stored jsonSize g g' id v : committed v = true ->
  rtc (early jsonSize (created v + 2 * Hour)) g g' -> gate_ok g -> stored g id v ->
  gate_ok g' /\ stored g' id v.
Proof.
  intros Hc. induction 1 as [|g g1 g2 Hs _ IH]; [done|]. intros Hok Hv.
  destruct (early_keeps _ _ _ _ _ Hc Hs Hok Hv). by apply IH.
Qed.

(** On a committed transaction a commit is a replay. *)
Lemma commit_replay e q g v : transactions (purgeTransactions (now e) g) !! TransactionID q = Some v ->
  committed v = true -> qOperation q = OpCommit -> request_valid q = true ->
  releaseMatches v q = true -> ExpectedTarget q = Some (target v) ->
  (HandleUpdateGate e q g).2 = Ok (target v).
Proof.
  intros Hv Hc Ho Hq Hr Hx. unfold HandleUpdateGate. rewrite Hq, Ho, Hv, Hc. simpl.
  unfold committedTransactionMatches. unfold releaseMatches in Hr.
  bool_hyps. by rewrite Hc, Hx, !bool_decide_true.
Qed.

Lemma fresh_gate_ok jsonSize mach g : NewUpdateGate jsonSize mach None = Some g -> gate_ok g.
Proof.
  unfold NewUpdateGate. destruct (empty mach); [done|]. intros [= <-]. split; simpl; [by unfold draining; rewrite omap_empty|apply table_ok_empty|done|].
  intros id v. by rewrite lookup_empty.
Qed.

Lemma reachable_gate_ok jsonSize g g' : rtc (gate_step jsonSize) g g' -> gate_ok g ->
  gate_ok g' /\ machine g' = machine g.
Proof.
  induction 1 as [|g g1 g2 Hs _ IH]; [done|]. intros Hok.
  destruct (gate_step_ok _ _ _ Hs Hok) as [Hok1 Hm1]. destruct (IH Hok1). by rewrite <- Hm1.
Qed.

Lemma reachable_stamped jsonSize g g' : rtc (stamped_step jsonSize) g g' -> gate_stamped g ->
  rtc (gate_step jsonSize) g g' /\ gate_stamped g'.
Proof.
  induction 1 as [|g g1 g2 Hs _ IH]; [by split; [constructor|]|]. intros Hok.
  destruct IH; [by eapply stamped_step_ok|]. split; [|done]. eapply rtc_l; [by apply stamped_gate_step|done].
Qed.

(** ** A rollback whose write fails *)
Lemma purge_write w e g : purgeTransactions (now (e <| write := w |>)) g = purgeTransactions (now e) g.
Proof. done. Qed.

Lemma handleRollback_written e q t g t1 :
  (handleRollback (e <| write := Written |>) q t g).2 = Ok t1 ->
  handleRollback (e <| write := WriteFailed false |>) q t g =
    (((nextRecoveryGeneration (observed e) g) <| drained := delete (TransactionID q) (drained g) |>)
       <| transactions := delete (TransactionID q) (transactions g) |>, Err ErrOther).
Proof.
  unfold handleRollback. simpl.
  destruct (transactions g !! _) as [v|]; [|done].
  repeat (case_one; try done).
Qed.

(** Nothing but a new [Target] touches a transaction that is not in the table. *)
Lemma absent_refused e q g : transactions g !! TransactionID q = None -> qOperation q <> OpTarget ->
  is_ok (HandleUpdateGate e q g).2 = false.
Proof.
  intros Hn Ho.
  assert (Hp : transactions (purgeTransactions (now e) g) !! TransactionID q = None).
  { simpl. apply map_lookup_filter_None. by left. }
  unfold HandleUpdateGate. revert Hp. generalize (purgeTransactions (now e) g) as p. intros p Hp.
  unfold handleCandidate, handleDrain, handleStability, handleRollback, handleCommit.
  rewrite Hp. repeat (case_one; try done).
Qed.

(** A commit that is answered was valid and named the target of the answer. *)
Lemma commit_accepted e q g g' t : qOperation q = OpCommit ->
  HandleUpdateGate e q g = (g', Ok t) -> request_valid q = true /\ ExpectedTarget q = Some t.
Proof.
  intros Ho. unfold HandleUpdateGate. generalize (purgeTransactions (now e) g) as p. intros p.
  rewrite Ho. destruct (request_valid q); [|done]. simpl. intros H. split; [done|].
  assert (Hf : match current (machine p) (snapshot e) with
               | Some (t, _, _) => if negb (matchesUpdateGateTarget q t)
                   then (p, Err ErrGenerationConflict) else handleCommit e q t p
               | None => (p, Err ErrUpdateGateUnavailable) end = (g', Ok t) ->
               ExpectedTarget q = Some t).
  { clear H. destruct (current _ _) as [[[t1 r] h]|]; [|done].
    unfold matchesUpdateGateTarget. rewrite Ho. simpl.
    destruct (bool_decide _) eqn:Hx; [|done]. bool_hyps. simpl. rewrite Hx.
    unfold handleCommit. intros H. repeat (case_one; try done). by inversion H. }
  destruct (transactions p !! _) as [v|]; [|by apply Hf].
  destruct (committed v); [|by apply Hf].
  destruct (negb _) eqn:Hm in H; invc H.
  unfold committedTransactionMatches in Hm. by bool_hyps.
Qed.

(** A committed transaction is not probed, drained, watched or rolled back. *)
Lemma committed_refused e q g v :
  transactions (purgeTransactions (now e) g) !! TransactionID q = Some v -> committed v = true ->
  qOperation q ∈ [OpCandidate; OpDrain; OpStability; OpRollback] ->
  is_ok (HandleUpdateGate e q g).2 = false.
Proof.
  intros Hv Hc Ho. unfold HandleUpdateGate. revert Hv.
  generalize (purgeTransactions (now e) g) as p. intros p Hv.
  unfold handleCandidate, handleDrain, handleStability, handleRollback. rewrite Hv, Hc. simpl.
  repeat (apply elem_of_cons in Ho as [Ho|Ho]; [rewrite Ho|]); [..|by apply elem_of_nil in Ho];
    repeat (case_one; try done).
Qed.

Lemma rollback_write_lost e q g t : qOperation q = OpRollback ->
  (HandleUpdateGate (e <| write := Written |>) q g).2 = Ok t ->
  let r := HandleUpdateGate (e <| write := WriteFailed false |>) q g in
  r.2 = Err ErrOther /\ transactions r.1 !! TransactionID q = None /\ disk r.1 = disk g.
Proof.
  intros Ho. unfold HandleUpdateGate. rewrite !purge_write, Ho. simpl.
  assert (Hd : disk (purgeTransactions (now e) g) = disk g) by done. revert Hd.
  generalize (purgeTransactions (now e) g) as p. intros p Hd.
  destruct (negb _); [done|]. destruct (current _ _) as [[[t1 r] h]|]; [|done].
  destruct (negb _); [done|]. intros H%handleRollback_written. simpl in H. rewrite H. simpl.
  split; [done|]. by rewrite lookup_delete_eq.
Qed.
