(* ===== verification/UpdateGateLife.v ===== *)
(** * The update gate: its properties

    The gate over its lifetime, with a run of an update on one tunnel that the witnesses
    replay. *)
From S2P Require Import Prelude.
From S2P Require Import TransferCodec.
From S2P Require Import UpdateGate.
From S2P Require Import UpdateGateProps.
From S2P Require Import UpdateGateRuns.

(** ** An update of one tunnel *)
Module Demo.
Definition str := String.list_byte_of_string.
Definition mach : gostring := str "machine"%string.

(** The carrier of the tunnel in session [n], and a live table that also has an entry
    without a route. *)
Definition active (n : Z) : Active :=
  mkActive (Some (Some (mkIdentity (str "acc") (str "host") (str "tun") (str "conn") 1 n 1),
                  [mkInfo false [] []; mkInfo true (str "edge") (str "fd")]))
    (Some (str "route", str "demo.example", 1)).
Definition table (n : Z) : Snapshot :=
  [(str "tun", active n); (str "aaa", mkActive None None)].
Definition carrier (n : Z) : Target :=
  mkTarget Tunnel mach (str "acc") (str "host") (str "tun") (str "conn") (str "edge") 1 n 1 1 (str "fd").

Definition sha : gostring := repeat x61 64.
Definition request (o : Operation) (n : Z) : Request :=
  match o with
  | OpTarget => mkRequest o (str "tx") (str "1.1") [] sha [] 0 0 0 0 0 None
  | OpCandidate => mkRequest o (str "tx") (str "1.1") [] sha (str "/up") 200 2 1000 0 0 (Some (carrier n))
  | OpDrain => mkRequest o (str "tx") (str "1.1") (str "1.0") sha [] 0 0 1000 0 0 (Some (carrier n))
  | OpStability => mkRequest o (str "tx") (str "1.1") [] sha (str "/up") 200 2 0 2000 1000 (Some (carrier n))
  | OpRollback => mkRequest o (str "tx") (str "1.1") (str "1.0") sha (str "/up") 200 2 1000 0 0 (Some (carrier n))
  | _ => mkRequest o (str "tx") (str "1.1") [] sha [] 0 0 0 0 0 (Some (carrier n))
  end.

(** The carrier is in session [n], and in [n'] once replaced; everything else succeeds. *)
Definition probe (n : Z) : Sample := mkSample false false 200 (table n).
Definition env (n n' : Z) : Env :=
  mkEnv 1000 1000 (table n) true [probe n'; probe n'] Written true 5 true true (table n')
    [mkWatch (table n') true [probe n'; probe n'] true false].

Definition start : UpdateGate := mkGate mach ∅ ∅ 0 None.
Definition call (o : Operation) (n n' : Z) (g : UpdateGate) : UpdateGate :=
  (HandleUpdateGate (env n n') (request o n) g).1.
Definition answer (o : Operation) (n n' : Z) (g : UpdateGate) : Answer :=
  (HandleUpdateGate (env n n') (request o n) g).2.

Definition bound := call OpTarget 1 1 start.
Definition probed := call OpCandidate 1 1 bound.
Definition drains := call OpDrain 1 1 probed.
Definition watched := call OpStability 1 2 drains.
Definition finished := call OpCommit 2 2 watched.

Definition jsonSize (m : Transactions) : Z := 1024.

Lemma env_is_ok n n' g : 0 < n -> 0 < n' -> machine g = mach -> env_ok (machine g) (env n n').
Proof.
  intros Hn Hn' Hg. rewrite Hg. split; [done|]. intros t (r & h & H).
  assert (forall k r h, 0 < k -> current mach (table k) = Some (t, r, h) -> target_valid t = true) as Hc.
  { intros k r' h' Hk. unfold current. replace (firstUsable _) with
      (Some (mkIdentity (str "acc") (str "host") (str "tun") (str "conn") 1 k 1,
             mkInfo true (str "edge") (str "fd"), (str "route", str "demo.example", 1))) by reflexivity.
    simpl. destruct (Z.eqb_spec k 0); [lia|]. intros [= <- _ _].
    unfold target_valid. simpl. destruct (Z.eqb_spec k 0); [lia|]. reflexivity. }
  destruct H as [H|H]; by eapply Hc in H.
Qed.

Lemma call_step o n n' g : 0 < n -> 0 < n' -> machine g = mach ->
  stamped_step jsonSize g (call o n n' g).
Proof.
  intros. eapply (stamped_handle _ (env n n') (request o n)); [by apply env_is_ok|].
  apply surjective_pairing.
Qed.

(** A live tunnel whose failure domain is not an identifier. *)
Definition oddEnv : Env :=
  mkEnv 1000 1000
    [(str "tun", mkActive (Some (Some (mkIdentity (str "acc") (str "host") (str "tun") (str "conn") 1 1 1),
                                [mkInfo true (str "edge") (str "fd east")])) (Some (str "route", str "demo.example", 1)))]
    true [] Written true 5 true true [] [].
Definition odd : UpdateGate := (HandleUpdateGate oddEnv (request OpTarget 1) start).1.
End Demo.

(** A whole update is accepted, and a call refused where it must be: the drain before the
    probes, the commit before the drain, the rollback after the commit. *)
Example demo_update :
  Demo.answer OpTarget 1 1 Demo.start = Ok (Demo.carrier 1)
  /\ Demo.answer OpDrain 1 1 Demo.bound = Err ErrGenerationConflict
  /\ Demo.answer OpCandidate 1 1 Demo.bound = Ok (Demo.carrier 1)
  /\ Demo.answer OpCommit 1 1 Demo.probed = Err ErrGenerationConflict
  /\ Demo.answer OpDrain 1 1 Demo.probed = Ok (Demo.carrier 1)
  /\ Demo.answer OpStability 1 2 Demo.drains = Ok (Demo.carrier 2)
  /\ Demo.answer OpRollback 2 2 Demo.watched = Ok (Demo.carrier 2)
  /\ Demo.answer OpCommit 2 2 Demo.watched = Ok (Demo.carrier 2)
  /\ Demo.answer OpRollback 2 2 Demo.finished = Err ErrGenerationConflict
  /\ Demo.answer OpCommit 2 3 Demo.finished = Ok (Demo.carrier 2).
Proof. vm_compute. repeat split; reflexivity. Qed.

Lemma demo_commits : Demo.answer OpCommit 2 2 Demo.watched = Ok (Demo.carrier 2).
Proof. vm_compute. reflexivity. Qed.

Lemma demo_stamped : rtc (stamped_step Demo.jsonSize) Demo.start Demo.watched.
Proof.
  apply rtc_l with Demo.bound; [by apply Demo.call_step|].
  apply rtc_l with Demo.probed; [by apply Demo.call_step|].
  apply rtc_l with Demo.drains; [by apply Demo.call_step|].
  apply rtc_l with Demo.watched; [by apply Demo.call_step|]. apply rtc_refl.
Qed.

Lemma start_stamped : gate_stamped Demo.start.
Proof. split; [intros id v; simpl; by rewrite lookup_empty|done]. Qed.

Lemma demo_reaches : rtc (gate_step Demo.jsonSize) Demo.start Demo.watched.
Proof. by apply (reachable_stamped _ _ _ demo_stamped start_stamped). Qed.

(** C14: The update gate follows its lifecycle.  Whatever the request, the live tunnels, the
    probes and the end of the write, one call either leaves the table and the file as they
    are after the purge of old transactions, or changes the one transaction the request
    names along an edge of the lifecycle (bound to a release and a live target, given its
    probe policy, draining, moved to the replaced carrier, committed, or removed by a
    rollback), each only from the phase and with the release, policy and target it
    requires; the file is the old one or the new table, and a commit is in memory only
    when it is in the file. *)
Theorem update_gate_refines e q g :
  gstep (live e (machine g)) (createdAt e) q
    (tables (purgeTransactions (now e) g)) (tables (HandleUpdateGate e q g).1).
Proof.
  destruct (HandleUpdateGate e q g) as [g' a] eqn:H. by apply refines_handle in H as (? & _).
Qed.

(** What a successful answer of the update gate promises, in every reachable state: a
    bound target is live and recorded for the release; a candidate's policy is stored in
    the file and its probes passed on the live target; a drain is stored before the carrier
    was drained; a watched target is the stored one and its watch passed; a rolled back
    transaction is gone from memory and file; a committed one is committed in both. *)
Theorem update_gate_answers jsonSize mach g0 g e q g' t :
  NewUpdateGate jsonSize mach None = Some g0 -> rtc (gate_step jsonSize) g0 g ->
  HandleUpdateGate e q g = (g', Ok t) -> promised e q t g'.
Proof.
  intros H0 Hr. apply HandleUpdateGate_promised.
  by eapply reachable_gate_ok; [|eapply fresh_gate_ok].
Qed.

Lemma update_gate_answers_witness :
  promised (Demo.env 2 2) (Demo.request OpCommit 2) (Demo.carrier 2) Demo.finished.
Proof.
  apply (update_gate_answers Demo.jsonSize Demo.mach Demo.start Demo.watched).
  - reflexivity.
  - exact demo_reaches.
  - unfold Demo.finished, Demo.call.
    rewrite (surjective_pairing (HandleUpdateGate _ _ _)). apply f_equal. exact demo_commits.
Defined.



(** C13: A commit is final.  Once the gate has answered a commit, then for two hours from
    the creation of the transaction, over any other calls, live targets, failing writes,
    crashes and restarts that load the file, the transaction stays committed in memory and in the file; the replayed
    commit is answered with the same target, whatever the carrier has become; and no probe,
    drain, watch or rollback of it is accepted. *)
Theorem commit_is_final jsonSize mach g0 g e q g1 t :
  NewUpdateGate jsonSize mach None = Some g0 -> rtc (gate_step jsonSize) g0 g ->
  qOperation q = OpCommit -> HandleUpdateGate e q g = (g1, Ok t) ->
  exists v, committed v = true /\ releaseMatches v q = true /\ target v = t /\
    forall g2, rtc (early jsonSize (created v + 2 * Hour)) g1 g2 ->
      stored g2 (TransactionID q) v /\
      forall e', now e' <= created v + 2 * Hour ->
        (HandleUpdateGate e' q g2).2 = Ok t /\
        forall q', TransactionID q' = TransactionID q ->
          qOperation q' ∈ [OpCandidate; OpDrain; OpStability; OpRollback] ->
          is_ok (HandleUpdateGate e' q' g2).2 = false.
Proof.
  intros H0 Hr Ho H.
  destruct (reachable_gate_ok _ _ _ Hr) as [Hok _]; [by eapply fresh_gate_ok|].
  assert (Hok1 : gate_ok g1) by (eapply (gate_step_ok jsonSize g); [by eapply gate_handle|done]).
  pose proof (HandleUpdateGate_promised _ _ _ _ _ Hok H) as Hp. unfold promised in Hp.
  rewrite Ho in Hp. destruct Hp as (v & Hs & Hm & Ht & Hc).
  exists v. split_and!; try done. intros g2 Hr2.
  destruct (early_stored _ _ _ _ _ Hc Hr2 Hok1 Hs) as [Hok2 Hs2]. split; [done|].
  intros e' Hn. destruct (commit_accepted _ _ _ _ _ Ho H) as [Hq Hx].
  pose proof (purge_keeps (now e') g2 _ _ Hn (proj1 Hs2)) as Hk.
  split; [subst t; by apply commit_replay|].
  intros q' Hid Hop. by apply (committed_refused _ _ _ v); rewrite ?Hid.
Qed.

Lemma commit_is_final_witness :
  exists v, committed v = true /\ stored Demo.finished (Demo.str "tx") v /\
    (HandleUpdateGate (Demo.env 7 7) (Demo.request OpCommit 2) Demo.finished).2 = Ok (Demo.carrier 2).
Proof.
  destruct (commit_is_final Demo.jsonSize Demo.mach Demo.start Demo.watched (Demo.env 2 2)
              (Demo.request OpCommit 2) Demo.finished (Demo.carrier 2)) as (v & Hc & _ & _ & Hf).
  - reflexivity.
  - exact demo_reaches.
  - reflexivity.
  - unfold Demo.finished, Demo.call.
    rewrite (surjective_pairing (HandleUpdateGate _ _ _)). apply f_equal. exact demo_commits.
  - exists v. split; [exact Hc|]. destruct (Hf Demo.finished (rtc_refl _ _)) as [Hs _].
    split; [exact Hs|]. vm_compute. reflexivity.
Defined.

(** A rollback whose write fails loses its transaction.  Where a rollback would have
    succeeded but for the write of the file, the carrier is already replaced and the
    transaction already forgotten: the call is answered with the error of the write, every
    later request for the transaction but a new [Target] is refused, so the rollback cannot
    be retried; and the file still has the transaction, so a restart finds it draining. *)
Theorem failed_rollback_is_lost jsonSize e q g t g' :
  qOperation q = OpRollback ->
  (HandleUpdateGate (e <| write := Written |>) q g).2 = Ok t ->
  g' = (HandleUpdateGate (e <| write := WriteFailed false |>) q g).1 ->
  (HandleUpdateGate (e <| write := WriteFailed false |>) q g).2 = Err ErrOther
  /\ (forall e' q', TransactionID q' = TransactionID q -> qOperation q' <> OpTarget ->
        is_ok (HandleUpdateGate e' q' g').2 = false)
  /\ disk g' = disk g
  /\ (forall g2 v, NewUpdateGate jsonSize (machine g') (disk g') = Some g2 -> stored g (TransactionID q) v ->
        drainStarted v = true -> committed v = false ->
        drained g2 !! TransactionID q = Some (target v)).
Proof.
  intros Ho Hw ->.
  destruct (rollback_write_lost e q g t Ho Hw) as (Ha & Hn & Hd). split; [done|]. split_and!.
  - intros e' q' Hid Hop. apply absent_refused; [by rewrite Hid|done].
  - done.
  - intros g2 v Hl [_ (k & Hk & Hkv)] Hds Hcm.
    apply load_inv in Hl as (_ & Hdr & _ & Ht & _).
    rewrite Hdr, Ht, Hd, Hk. simpl. rewrite draining_lookup, Hkv. simpl. by rewrite Hds, Hcm.
Qed.

Lemma failed_rollback_is_lost_witness :
  (HandleUpdateGate ((Demo.env 2 2) <| write := WriteFailed false |>) (Demo.request OpRollback 2)
     Demo.watched).2 = Err ErrOther.
Proof.
  eapply (failed_rollback_is_lost Demo.jsonSize (Demo.env 2 2) (Demo.request OpRollback 2)
            Demo.watched (Demo.carrier 2)).
  - reflexivity.
  - vm_compute. reflexivity.
  - reflexivity.
Defined.
