(* ===== verification/Effects.v ===== *)
(** * Programs that call an environment

    A program runs over a world that outlives the process, and consumes one reply of the
    environment for each call outside the process; where the replies end, the process dies,
    before that call.  It may return early with an error, which is a list: nil is the empty
    list and a joined error has several parts.  The weakest preconditions speak of every list
    of replies: what holds when the program returns, when it returns early, and when the
    process dies in it. *)
From S2P Require Import Prelude.

(** ** Programs *)
Inductive Res (R X A : Type) := Died | Failed (e : list X) (rest : list R) | Ret (a : A) (rest : list R).
Arguments Died {R X A}.
Arguments Failed {R X A} e rest.
Arguments Ret {R X A} a rest.

Definition Prog (W R X A : Type) : Type := W -> list R -> W * Res R X A.

Section programs.
Context {W R X : Type}.

#[global] Instance Prog_ret : MRet (Prog W R X) := fun A a w rs => (w, Ret a rs).
#[global] Instance Prog_bind : MBind (Prog W R X) := fun A B k m w rs =>
  match m w rs with
  | (w1, Died) => (w1, Died)
  | (w1, Failed e rest) => (w1, Failed e rest)
  | (w1, Ret a rest) => k a w1 rest
  end.

(** The next reply; an early return with an error; reading and changing the world. *)
Definition next : Prog W R X R := fun w rs =>
  match rs with [] => (w, Died) | r :: rest => (w, Ret r rest) end.
Definition fail {A} (e : list X) : Prog W R X A := fun w rs => (w, Failed e rs).
Definition get {A} (f : W -> A) : Prog W R X A := fun w rs => (w, Ret (f w) rs).
Definition modify (f : W -> W) : Prog W R X unit := fun w rs => (f w, Ret tt rs).
(** [if err != nil { return err }] *)
Definition check (e : list X) : Prog W R X unit := match e with [] => mret tt | _ => fail e end.
(** The error with which a program ends. *)
Definition attempt (m : Prog W R X unit) : Prog W R X (list X) := fun w rs =>
  match m w rs with
  | (w1, Died) => (w1, Died)
  | (w1, Failed e rest) => (w1, Ret e rest)
  | (w1, Ret _ rest) => (w1, Ret [] rest)
  end.
End programs.

(** ** Weakest preconditions *)
Definition wp {W R X A} (m : Prog W R X A) (Q : A -> W -> Prop) (E : list X -> W -> Prop) (D : W -> Prop)
    (w : W) : Prop :=
  forall rs, match m w rs with
             | (w', Died) => D w'
             | (w', Failed e _) => E e w'
             | (w', Ret a _) => Q a w'
             end.

Section rules.
Context {W R X : Type} (E : list X -> W -> Prop) (D : W -> Prop).
Abbreviation M := (Prog W R X).

Lemma wp_ret {A} (a : A) (Q : A -> W -> Prop) w : Q a w -> wp (mret a : M A) Q E D w.
Proof. by intros H rs. Qed.

Lemma wp_bind {A B} (m : M A) (k : A -> M B) Q w :
  wp m (fun a => wp (k a) Q E D) E D w -> wp (m ≫= k) Q E D w.
Proof.
  intros H rs. specialize (H rs). unfold mbind, Prog_bind.
  destruct (m w rs) as [w1 [|e rest|a rest]]; [done..|]. apply H.
Qed.

Lemma wp_next (Q : R -> W -> Prop) w : D w -> (forall r, Q r w) -> wp next Q E D w.
Proof. intros HD HQ [|r rs]; simpl; auto. Qed.

Lemma wp_fail {A} e (Q : A -> W -> Prop) w : E e w -> wp (fail e : M A) Q E D w.
Proof. by intros H rs. Qed.

Lemma wp_get {A} (f : W -> A) Q w : Q (f w) w -> wp (get f : M A) Q E D w.
Proof. by intros H rs. Qed.

Lemma wp_modify f Q w : Q tt (f w) -> wp (modify f : M unit) Q E D w.
Proof. by intros H rs. Qed.

Lemma wp_check e Q w : (e = [] -> Q tt w) -> (e <> [] -> E e w) -> wp (check e : M unit) Q E D w.
Proof. intros HQ HE rs. destruct e; simpl; [by apply HQ|by apply HE]. Qed.

Lemma wp_attempt (m : M unit) Q w :
  wp m (fun _ w => Q [] w) (fun e w => Q e w) D w -> wp (attempt m) Q E D w.
Proof.
  intros H rs. specialize (H rs). unfold attempt.
  by destruct (m w rs) as [w1 [|e rest|a rest]].
Qed.
End rules.

Lemma wp_mono {W R X A} (m : Prog W R X A) (Q Q' : A -> W -> Prop) (E E' : list X -> W -> Prop)
    (D D' : W -> Prop) w :
  wp m Q E D w -> (forall a w, Q a w -> Q' a w) -> (forall e w, E e w -> E' e w) ->
  (forall w, D w -> D' w) -> wp m Q' E' D' w.
Proof.
  intros H HQ HE HD rs. specialize (H rs).
  destruct (m w rs) as [w1 [|e rest|a rest]]; auto.
Qed.

(** One step on the head of a program. *)
Ltac wp_step :=
  cbv beta;
  lazymatch goal with
  | |- wp (mret _) _ _ _ _ => apply wp_ret
  | |- wp (_ ≫= _) _ _ _ _ => apply wp_bind
  | |- wp next _ _ _ _ => apply wp_next; [|intros ?]
  | |- wp (fail _) _ _ _ _ => apply wp_fail
  | |- wp (get _) _ _ _ _ => apply wp_get
  | |- wp (modify _) _ _ _ _ => apply wp_modify
  | |- wp (check _) _ _ _ _ => apply wp_check; intros ?
  | |- wp (attempt _) _ _ _ _ => apply wp_attempt
  end; cbv beta.

(** A condition at the head of a program. *)
Ltac wp_if :=
  cbv beta; lazymatch goal with |- wp (if ?b then _ else _) _ _ _ _ => destruct b eqn:? end.

(** ** Programs that do not change the world *)
Definition readonly {W R X A} (m : Prog W R X A) : Prop := forall w rs, (m w rs).1 = w.

Section readonly.
Context {W R X : Type}.
Abbreviation M := (Prog W R X).

Lemma wp_readonly {A} (m : M A) Q E D w : readonly m -> D w -> (forall a, Q a w) -> (forall e, E e w) ->
  wp m Q E D w.
Proof.
  intros Hr HD HQ HE rs. specialize (Hr w rs).
  destruct (m w rs) as [w1 [|e rest|a rest]]; simpl in Hr; subst; auto.
Qed.

Lemma readonly_ret {A} (a : A) : readonly (mret a : M A).
Proof. done. Qed.
Lemma readonly_bind {A B} (m : M A) (k : A -> M B) :
  readonly m -> (forall a, readonly (k a)) -> readonly (m ≫= k).
Proof.
  intros Hm Hk w rs. unfold mbind, Prog_bind. specialize (Hm w rs).
  destruct (m w rs) as [w1 [|e rest|a rest]]; simpl in *; subst; [done..|]. apply Hk.
Qed.
Lemma readonly_next : readonly (next : M R).
Proof. by intros w []. Qed.
Lemma readonly_get {A} (f : W -> A) : readonly (get f : M A).
Proof. done. Qed.
Lemma readonly_fail {A} e : readonly (fail e : M A).
Proof. done. Qed.
Lemma readonly_check e : readonly (check e : M unit).
Proof. by destruct e. Qed.
Lemma readonly_attempt (m : M unit) : readonly m -> readonly (attempt m).
Proof.
  intros Hm w rs. unfold attempt. specialize (Hm w rs).
  by destruct (m w rs) as [w1 [|e rest|a rest]].
Qed.

End readonly.

Create HintDb readonly.
#[export] Hint Resolve readonly_ret readonly_bind readonly_next readonly_get readonly_fail
  readonly_check readonly_attempt : readonly.

(** Readonly by construction. *)
Ltac ro :=
  repeat first
    [ apply readonly_ret | apply readonly_next | apply readonly_get | apply readonly_fail
    | apply readonly_check | apply readonly_attempt
    | apply readonly_bind; [|intros ?]
    | solve [auto with readonly]
    | match goal with |- readonly (if ?b then _ else _) => destruct b end
    | match goal with |- readonly (match ?x with _ => _ end) => destruct x end ].

(** ** Programs that return their error as a value *)
Definition noFail {W R X A} (m : Prog W R X A) : Prop :=
  forall w rs, match (m w rs).2 with Failed _ _ => False | _ => True end.

Section noFail.
Context {W R X : Type}.
Abbreviation M := (Prog W R X).

Lemma wp_noFail {A} (m : M A) Q E D w : noFail m -> wp m Q (fun _ _ => True) D w -> wp m Q E D w.
Proof.
  intros Hn H rs. specialize (Hn w rs). specialize (H rs).
  by destruct (m w rs) as [w1 [|e rest|a rest]].
Qed.

Lemma noFail_ret {A} (a : A) : noFail (mret a : M A).
Proof. done. Qed.
Lemma noFail_bind {A B} (m : M A) (k : A -> M B) :
  noFail m -> (forall a, noFail (k a)) -> noFail (m ≫= k).
Proof.
  intros Hm Hk w rs. unfold mbind, Prog_bind. specialize (Hm w rs).
  destruct (m w rs) as [w1 [|e rest|a rest]]; [done..|]. apply Hk.
Qed.
Lemma noFail_next : noFail (next : M R).
Proof. by intros w []. Qed.
Lemma noFail_get {A} (f : W -> A) : noFail (get f : M A).
Proof. done. Qed.
Lemma noFail_modify f : noFail (modify f : M unit).
Proof. done. Qed.
Lemma noFail_attempt (m : M unit) : noFail (attempt m).
Proof. intros w rs. unfold attempt. by destruct (m w rs) as [w1 [|e rest|a rest]]. Qed.

End noFail.

(** Without a failure by construction. *)
Ltac nf :=
  repeat first
    [ apply noFail_ret | apply noFail_next | apply noFail_get | apply noFail_modify
    | apply noFail_attempt | apply noFail_bind; [|intros ?]
    | solve [auto with readonly]
    | match goal with |- noFail (if ?b then _ else _) => destruct b end
    | match goal with |- noFail (match ?x with _ => _ end) => destruct x end ].

