(* ===== verification/UpdateFlow.v ===== *)
(** * The worker update journal

    Models [internal/hostruntime/updateflow/journal.go]: the stages of a worker update, the
    record kept on disk, when it is valid, which stage may follow which, and what a
    restarted updater does from each stage.  Times are nanoseconds since 1970; the file is
    the record it holds (its text is below the 64 KiB that [Load] reads). *)
From S2P Require Import Prelude.
From S2P Require Import TransferCodec.
From S2P Require Import UpdateGate.

Inductive Stage :=
| StageIdle | StageChecking | StageStaged | StageCandidateStarted | StageCandidateValidating
| StageCandidateReady | StageDraining | StageCutover | StageMonitoring | StageCommitted
| StageRollback | StageBlocked | StageOther.
#[export] Instance Stage_eq_dec : EqDecision Stage.
Proof. solve_decision. Defined.

Inductive Failure :=
| FailureNone | FailureVerification | FailureCompatibility | FailureCandidate | FailureCanary
| FailureDrain | FailureHealth | FailureRollback | FailureContradictoryJournal | FailureOther.
#[export] Instance Failure_eq_dec : EqDecision Failure.
Proof. solve_decision. Defined.

Definition SchemaV1 : gostring := bytes "paperboat.worker-update/v1".

Record Journal := mkJournal {
  jSchema : gostring; jTransactionID : gostring; jStage : Stage; ActiveVersion : gostring;
  ActiveDigest : gostring; ActiveLength : Z; ActiveHostdAPIMin : Z; ActiveHostdAPIMax : Z;
  ActiveRuntimeAPIMin : Z; ActiveRuntimeAPIMax : Z; RollbackVersion : gostring;
  CandidateVersion : gostring; CandidateDigest : gostring; CandidateManifestDigest : gostring;
  CandidateLength : Z; StagedPath : gostring; jHostdAPIMin : Z; jHostdAPIMax : Z;
  jRuntimeAPIMin : Z; jRuntimeAPIMax : Z; jWorkerID : gostring; jWorkerEpoch : Z;
  BootID : gostring; StageUpdatedAt : Z; HealthDeadline : Z; AttemptCount : Z;
  RollbackCount : Z; LastFailure : Failure; CleanupComplete : bool }.
#[export] Instance Journal_eta : Eta Journal :=
  fun j => mkJournal (jSchema j) (jTransactionID j) (jStage j) (ActiveVersion j) (ActiveDigest j)
    (ActiveLength j) (ActiveHostdAPIMin j) (ActiveHostdAPIMax j) (ActiveRuntimeAPIMin j)
    (ActiveRuntimeAPIMax j) (RollbackVersion j) (CandidateVersion j) (CandidateDigest j)
    (CandidateManifestDigest j) (CandidateLength j) (StagedPath j) (jHostdAPIMin j)
    (jHostdAPIMax j) (jRuntimeAPIMin j) (jRuntimeAPIMax j) (jWorkerID j) (jWorkerEpoch j)
    (BootID j) (StageUpdatedAt j) (HealthDeadline j) (AttemptCount j) (RollbackCount j)
    (LastFailure j) (CleanupComplete j).

(** The zero value of the struct. *)
Definition zeroJournal : Journal :=
  mkJournal [] [] StageOther [] [] 0 0 0 0 0 [] [] [] [] 0 [] 0 0 0 0 [] 0 [] zeroTime zeroTime 0 0
    FailureNone false.

(** [^[A-Za-z0-9._-]+$] with at most 128 bytes. *)
Definition validID (v : gostring) : bool :=
  (1 <=? len v) && (len v <=? 128) &&
  forallb (fun b => let z := Z_of_byte b in isAlnum b || (z =? 46) || (z =? 95) || (z =? 45)) v.

(** [^[0-9]{4}\.[0-9]{2}\.[0-9]{2}\.[0-9]+$] *)
Definition isDigit (b : byte) : bool := (48 <=? Z_of_byte b) && (Z_of_byte b <=? 57).
Definition validVersion (v : gostring) : bool :=
  match v with
  | a :: b :: c :: d :: p :: e :: f :: q :: g :: h :: r :: n :: rest =>
      forallb isDigit [a; b; c; d; e; f; g; h; n]
      && forallb (fun x => bool_decide (x = x2e)) [p; q; r] && forallb isDigit rest
  | _ => false
  end.

Definition invalidRange (minimum maximum : Z) : bool := (maximum <? minimum) || (1024 <? maximum).

(** [filepath.IsAbs(v) && filepath.Clean(v) == v] on Unix. *)
Definition cleanAbs (v : gostring) : bool :=
  match v with
  | [] => false
  | b :: r =>
      bool_decide (b = slash) &&
      (bool_decide (r = []) ||
       forallb (fun part => negb (bool_decide (part = []) || bool_decide (part = dot)
                                  || bool_decide (part = dotdot))) (splitSlash r))
  end.

Definition requiresCandidate (s : Stage) : bool :=
  match s with
  | StageStaged | StageCandidateStarted | StageCandidateValidating | StageCandidateReady
  | StageDraining | StageCutover | StageMonitoring | StageCommitted | StageRollback => true
  | _ => false
  end.

Definition knownStage (s : Stage) : bool := negb (bool_decide (s = StageOther)).
Definition knownFailure (f : Failure) : bool := negb (bool_decide (f = FailureOther)).

(** [hasActiveMetadata] of [Validate]. *)
Definition hasActiveMetadata (j : Journal) : bool :=
  negb (empty (ActiveDigest j)) || negb (ActiveLength j =? 0) || negb (ActiveHostdAPIMin j =? 0)
  || negb (ActiveHostdAPIMax j =? 0) || negb (ActiveRuntimeAPIMin j =? 0)
  || negb (ActiveRuntimeAPIMax j =? 0).

(** [Journal.Validate]: whether it returns nil. *)
Definition Validate (j : Journal) : bool :=
  if negb (bool_decide (jSchema j = SchemaV1)) || negb (validID (jTransactionID j))
     || negb (validVersion (ActiveVersion j)) || negb (validID (BootID j))
     || (StageUpdatedAt j =? zeroTime)
  then false
  else if negb (knownStage (jStage j)) || negb (knownFailure (LastFailure j))
          || invalidRange (jHostdAPIMin j) (jHostdAPIMax j)
          || invalidRange (jRuntimeAPIMin j) (jRuntimeAPIMax j)
  then false
  else if negb (empty (RollbackVersion j)) && negb (validVersion (RollbackVersion j))
          || negb (empty (CandidateVersion j)) && negb (validVersion (CandidateVersion j))
  then false
  else if hasActiveMetadata j &&
          (negb (digest (ActiveDigest j)) || (ActiveLength j <? 1)
           || invalidRange (ActiveHostdAPIMin j) (ActiveHostdAPIMax j) || (ActiveHostdAPIMin j =? 0)
           || invalidRange (ActiveRuntimeAPIMin j) (ActiveRuntimeAPIMax j)
           || (ActiveRuntimeAPIMin j =? 0))
  then false
  else if negb (empty (CandidateDigest j)) && negb (digest (CandidateDigest j))
          || negb (empty (CandidateManifestDigest j)) && negb (digest (CandidateManifestDigest j))
          || (CandidateLength j <? 0)
  then false
  else if negb (empty (StagedPath j)) && negb (cleanAbs (StagedPath j)) then false
  else if requiresCandidate (jStage j) &&
          (empty (CandidateVersion j) || empty (CandidateDigest j) || (CandidateLength j <=? 0)
           || empty (StagedPath j))
  then false
  else if (bool_decide (jStage j = StageCutover) || bool_decide (jStage j = StageMonitoring)
           || bool_decide (jStage j = StageCommitted))
          && ((jWorkerEpoch j =? 0) || negb (validID (jWorkerID j)))
  then false
  else true.

Definition allowed (from to : Stage) : bool :=
  bool_decide (to ∈ match from with
    | StageIdle => [StageChecking]
    | StageChecking => [StageStaged; StageIdle; StageBlocked]
    | StageStaged => [StageCandidateStarted; StageIdle; StageBlocked]
    | StageCandidateStarted => [StageCandidateValidating; StageRollback; StageBlocked]
    | StageCandidateValidating => [StageCandidateReady; StageRollback; StageBlocked]
    | StageCandidateReady => [StageDraining; StageRollback; StageBlocked]
    | StageDraining => [StageCutover; StageRollback; StageBlocked]
    | StageCutover => [StageMonitoring; StageRollback; StageBlocked]
    | StageMonitoring => [StageCommitted; StageRollback; StageBlocked]
    | StageCommitted => [StageIdle]
    | StageRollback => [StageIdle; StageBlocked]
    | StageBlocked => [StageRollback]
    | StageOther => []
    end).

(** [Journal.Transition] *)
Definition Transition (j : Journal) (next : Stage) (now : Z) : option Journal :=
  if negb (Validate j) || negb (allowed (jStage j) next) || (now =? zeroTime)
     || (now <? StageUpdatedAt j)
  then None
  else
    let j1 := (j <| jStage := next |>) <| StageUpdatedAt := now |> in
    Some (if bool_decide (next = StageMonitoring) && (HealthDeadline j1 =? zeroTime)
          then j1 <| HealthDeadline := now + 600 * 1000000000 |> else j1).

Inductive RecoveryAction :=
| RecoveryKeepActive | RecoveryDiscardCandidate | RecoveryRestoreDrain | RecoveryQueryHostd
| RecoveryContinueMonitor | RecoveryFinalizeCleanup | RecoveryPerformRollback | RecoveryRequired.
#[export] Instance RecoveryAction_eq_dec : EqDecision RecoveryAction.
Proof. solve_decision. Defined.

Definition Recovery (j : Journal) : RecoveryAction :=
  if negb (Validate j) then RecoveryRequired
  else
    match jStage j with
    | StageIdle | StageChecking => RecoveryKeepActive
    | StageStaged | StageCandidateStarted | StageCandidateValidating | StageCandidateReady =>
        RecoveryDiscardCandidate
    | StageDraining => RecoveryRestoreDrain
    | StageCutover => RecoveryQueryHostd
    | StageMonitoring => RecoveryContinueMonitor
    | StageCommitted => RecoveryFinalizeCleanup
    | StageRollback | StageBlocked => RecoveryPerformRollback
    | StageOther => RecoveryRequired
    end.

(** The file: absent, something [Load] does not decode, or a journal. *)
Inductive JournalFile := Absent | Unreadable | Stored (j : Journal).

Inductive LoadResult := NotExist | LoadFailed | Loaded (j : Journal).

(** [Load], when the file can be read or is absent. *)
Definition Load (f : JournalFile) : LoadResult :=
  match f with
  | Absent => NotExist
  | Unreadable => LoadFailed
  | Stored j => if Validate j then Loaded j else LoadFailed
  end.
