(* ===== verification/WorkerRelease.v ===== *)
(** * Releases, versions and the requests of the activation gate

    Models the data of [internal/hostruntime/workerupdate]: releases and their versions
    (manager.go), the gate requests (gate.go), the checks of the deployment gate
    (deployment_gate.go) and the requests it sends to hostd (hostd_provider.go), whose
    contract is that of UpdateGate.v.  [GOOS] and [GOARCH] are those of a Linux host;
    [uriOk] is whether [url.ParseRequestURI] gives a path alone. *)
From S2P Require Import Prelude.
From S2P Require Import TransferCodec.
From S2P Require Import UpdateGate.
From S2P Require Import UpdateFlow.

(** Errors; a joined error is the list of its parts and nil the empty list. *)
Inductive UpdateError :=
| ErrInvalidRelease | ErrBlocked | ErrQuarantined | ErrReleaseRevoked | ErrUnsafeStorage
| ErrInvalidJournal | ErrInvalidTransition | ErrActivationGate | ErrInvalidDeploymentGate
| ErrInvalidConfig | ErrHostdActivationProvider | errInterruptedDrainRecovery | errStorageRestoreFailed | ErrExternal.
#[export] Instance UpdateError_eq_dec : EqDecision UpdateError.
Proof. solve_decision. Defined.
Definition error := list UpdateError.
Definition Is (e : error) (k : UpdateError) : bool := bool_decide (k ∈ e).

(** ** Versions *)
Fixpoint splitDot (v : gostring) : list gostring :=
  match v with
  | [] => [[]]
  | b :: r =>
      if bool_decide (b = x2e) then [] :: splitDot r
      else match splitDot r with
           | part :: parts => (b :: part) :: parts
           | [] => [[b]]
           end
  end.

(** [strconv.ParseUint(part, 10, 32)] *)
Definition decimal (part : gostring) : Z :=
  fold_left (fun n b => 10 * n + (Z_of_byte b - 48)) part 0.
Definition ParseUint32 (part : gostring) : option Z :=
  if empty part || negb (forallb isDigit part) || (2 ^ 32 <=? decimal part) then None
  else Some (decimal part).

(** The number that [ParseUint] returns, with or without an error: it stops at the first byte
    that is no digit, with 0, or at the first digit that exceeds the range, with its limit. *)
Fixpoint parsedUint32 (n : Z) (part : gostring) : Z :=
  match part with
  | [] => n
  | b :: r =>
      if negb (isDigit b) then 0
      else
        let n1 := 10 * n + (Z_of_byte b - 48) in
        if 2 ^ 32 <=? n1 then 2 ^ 32 - 1 else parsedUint32 n1 r
  end.

Definition releaseVersion (v : gostring) : bool :=
  (Z.of_nat (length (splitDot v)) =? 4) &&
  forallb (fun part => negb (empty part) && bool_decide (is_Some (ParseUint32 part))) (splitDot v).

(** The errors of [ParseUint] are dropped.  Versions compared here have four parts; on fewer the
    code panics, and the comparison below ends. *)
Fixpoint compareParts (l r : list gostring) : Z :=
  match l, r with
  | a :: l, b :: r =>
      let lv := parsedUint32 0 a in
      let rv := parsedUint32 0 b in
      if lv <? rv then -1 else if rv <? lv then 1 else compareParts l r
  | _, _ => 0
  end.
Definition compareVersion (left right : gostring) : Z :=
  compareParts (take 4 (splitDot left)) (take 4 (splitDot right)).

(** ** Releases *)
Record Release := mkRelease {
  rVersion : gostring; rSHA256 : gostring; rLength : Z; rPlatform : gostring;
  rArchitecture : gostring; rManifestSHA256 : gostring; CanaryPath : gostring; CanaryStatus : Z;
  CanarySamples : Z; CanaryTimeout : Z; DrainTimeout : Z; StabilityWindow : Z;
  StabilityInterval : Z; RollbackTimeout : Z; HostdAPIMin : Z; HostdAPIMax : Z;
  RuntimeAPIMin : Z; RuntimeAPIMax : Z }.

Definition maxRuntimeBytes : Z := 536870912.
Definition invalidRequiredAPIRange (minimum maximum : Z) : bool :=
  (minimum =? 0) || invalidRange minimum maximum.

Definition isHex (b : byte) : bool :=
  let z := Z_of_byte b in isDigit b || ((97 <=? z) && (z <=? 102)) || ((65 <=? z) && (z <=? 70)).
Definition hexDigest (v : gostring) : bool := (len v mod 2 =? 0) && forallb isHex v.

Inductive WorkerState := StateEmpty | StateCandidate | StateActive.
#[export] Instance WorkerState_eq_dec : EqDecision WorkerState.
Proof. solve_decision. Defined.

Record Status := mkStatus { State : WorkerState; WorkerID : gostring; APIVersion : Z; Epoch : Z }.

Record GateRequest := mkGateRequest {
  gTransactionID : gostring; Previous : Release; Candidate : Release; Worker : Status;
  Window : Z; Interval : Z }.

Definition matches (s : Status) (st : WorkerState) (id : gostring) (epoch : Z) : bool :=
  bool_decide (State s = st) && bool_decide (WorkerID s = id)
  && ((epoch =? 0) || (Epoch s =? epoch)).

(** [lowerDigest] *)
Definition isLower (b : byte) : bool := negb ((65 <=? Z_of_byte b) && (Z_of_byte b <=? 90)).
Definition lowerDigest (v : gostring) : bool :=
  hexDigest v && (len v =? 64) && forallb isLower v.

Definition Minute : Z := 60 * 1000000000.
Definition Second : Z := 1000000000.
Definition Millis (d : Z) : Z := Z.quot d 1000000.

Section platform.
Context (GOOS GOARCH : gostring) (uriOk : gostring -> bool).

(** [validateRelease]: whether it returns nil. *)
Definition validateRelease (r : Release) : bool :=
  releaseVersion (rVersion r) && (len (rSHA256 r) =? 64) && (1 <=? rLength r)
  && (rLength r <=? maxRuntimeBytes) && bool_decide (rPlatform r = GOOS)
  && bool_decide (rArchitecture r = GOARCH) && hexDigest (rSHA256 r)
  && negb (invalidRequiredAPIRange (HostdAPIMin r) (HostdAPIMax r))
  && negb (invalidRequiredAPIRange (RuntimeAPIMin r) (RuntimeAPIMax r)).

(** [GateRequest.validate]; [safeEventID] has the pattern of [validID]. *)
Definition gateRequest_validate (st : WorkerState) (r : GateRequest) : bool :=
  validID (gTransactionID r) && validateRelease (Previous r) && validateRelease (Candidate r)
  && bool_decide (State (Worker r) = st) && negb (empty (WorkerID (Worker r)))
  && negb (Epoch (Worker r) =? 0) && negb (APIVersion (Worker r) =? 0)
  && (0 <=? Window r) && (0 <=? Interval r).

(** [GateRequest.validateState] *)
Definition validateState (st : WorkerState) (r : GateRequest) : bool :=
  validID (gTransactionID r) && validateRelease (Previous r) && validateRelease (Candidate r)
  && (bool_decide (State (Worker r) = st)
      || bool_decide (st = StateCandidate) && bool_decide (State (Worker r) = StateActive))
  && negb (empty (WorkerID (Worker r))) && negb (Epoch (Worker r) =? 0)
  && negb (APIVersion (Worker r) =? 0).

Definition validCanaryPath (v : gostring) : bool :=
  (1 <=? len v) && (len v <=? 512) && hasSlashPrefix v
  && negb (match v with _ :: r => hasSlashPrefix r | [] => false end)
  && negb (ContainsAny v [x00; x0d; x0a]) && uriOk v.

Definition validateActivationPolicy (r : Release) : bool :=
  lowerDigest (rManifestSHA256 r) && validCanaryPath (CanaryPath r) && (200 <=? CanaryStatus r)
  && (CanaryStatus r <=? 299) && (2 <=? CanarySamples r) && (CanarySamples r <=? 32)
  && (0 <? CanaryTimeout r) && (CanaryTimeout r <=? 5 * Minute) && (0 <? DrainTimeout r)
  && (DrainTimeout r <=? 5 * Minute) && (0 <? StabilityWindow r)
  && (StabilityWindow r <=? 30 * Minute) && (0 <? StabilityInterval r)
  && (StabilityInterval r <=? StabilityWindow r) && (0 <? RollbackTimeout r)
  && (RollbackTimeout r <=? 5 * Minute).
End platform.

(** ** The requests of the provider *)
Definition targetRequest (id version manifest : gostring) : Request :=
  mkRequest OpTarget id version [] manifest [] 0 0 0 0 0 None.

Definition probeRequest (r : GateRequest) (t : Target) (millis : Z) : Request :=
  mkRequest OpCandidate (gTransactionID r) (rVersion (Candidate r)) [] (rManifestSHA256 (Candidate r))
    (CanaryPath (Candidate r)) (CanaryStatus (Candidate r)) (CanarySamples (Candidate r)) millis 0 0
    (Some t).

Definition drainRequest (r : GateRequest) (t : Target) (millis : Z) : Request :=
  mkRequest OpDrain (gTransactionID r) (rVersion (Candidate r)) (rVersion (Previous r))
    (rManifestSHA256 (Candidate r)) [] 0 0 millis 0 0 (Some t).

Definition stabilityRequest (r : GateRequest) (t : Target) : Request :=
  mkRequest OpStability (gTransactionID r) (rVersion (Candidate r)) []
    (rManifestSHA256 (Candidate r)) (CanaryPath (Candidate r)) (CanaryStatus (Candidate r))
    (CanarySamples (Candidate r)) 0 (Millis (Window r)) (Millis (Interval r)) (Some t).

(** In a rollback [Previous] is the release that failed and [Candidate] the one restored. *)
Definition rollbackRequest (r : GateRequest) (t : Target) (millis : Z) : Request :=
  mkRequest OpRollback (gTransactionID r) (rVersion (Previous r)) (rVersion (Candidate r))
    (rManifestSHA256 (Previous r)) (CanaryPath (Previous r)) (CanaryStatus (Previous r))
    (CanarySamples (Previous r)) millis 0 0 (Some t).

Definition commitRequest (r : GateRequest) (t : Target) : Request :=
  mkRequest OpCommit (gTransactionID r) (rVersion (Candidate r)) [] (rManifestSHA256 (Candidate r))
    [] 0 0 0 0 0 (Some t).
