(* ===== verification/WorkerUpdate.v ===== *)
(** * The worker updater

    Models [internal/hostruntime/workerupdate/manager.go] with the deployment gate of
    deployment_gate.go and [resolveUpdatedActive] of hostruntimecmd/updated_unix.go: the
    transaction that stages a verified runtime, probes it, drains the old one, promotes
    it, watches and commits it or rolls it back, and the recovery of what a dead process
    left.

    The manager's [Gate] is an interface.  It is instantiated here, once, by the deployment
    gate over [HostdDeploymentProvider]: the commands (updated_unix.go, updated_windows.go)
    build that one, and no other implementation exists outside the tests, whose stubs accept
    what this gate refuses.  The theorems are about the updater with this gate.

    The world is the journal file, the three slots of the runtime (current, rollback and
    staged), the worker that hostd holds active and the release the process believes
    active.  A program consumes one reply of the environment for each reading of the clock
    and each call outside the process; where the replies end, the process dies, before that
    call.  A call that failed may have had its effect.  [log] records, for the theorems, each
    activation of a worker with the journal and the current slot at that moment.  Events
    sent to the sink are left out. *)
From S2P Require Import Prelude.
From S2P Require Import Sha256.
From S2P Require Import TransferCodec.
From S2P Require Import TransferManifest.
From S2P Require Import UpdateGate.
From S2P Require Import UpdateFlow.
From S2P Require Import WorkerRelease.
From S2P Require Import Effects.

Definition Image := list byte.

(** A reply of the environment: whether the call succeeded, whether a failed call had its
    effect, the time, a status, downloaded bytes, a target, milliseconds left. *)
Record Reply := mkReply {
  rOk : bool; rDone : bool; rNow : Z; rStatus : Status; rData : list byte; rTarget : Target;
  rMillis : Z }.

(** An activation: the worker and its epoch, the journal on disk, the current slot. *)
Record Activation := mkActivation {
  aWorker : gostring; aEpoch : Z; aFile : JournalFile; aBinary : option Image }.

Record World := mkWorld {
  file : JournalFile; binary : option Image; rollback : option Image; staged : option Image;
  fence : Status; active : Release; log : list Activation }.
#[export] Instance World_eta : Eta World :=
  fun w => mkWorld (file w) (binary w) (rollback w) (staged w) (fence w) (active w) (log w).

Abbreviation M := (Prog World Reply UpdateError).

(** ** Files *)
Inductive Slot := Binary | BinaryRollback | BinaryStaged.
Definition slot (s : Slot) (w : World) : option Image :=
  match s with Binary => binary w | BinaryRollback => rollback w | BinaryStaged => staged w end.
Definition setSlot (s : Slot) (i : option Image) (w : World) : World :=
  match s with
  | Binary => w <| binary := i |>
  | BinaryRollback => w <| rollback := i |>
  | BinaryStaged => w <| staged := i |>
  end.

(** A call that only succeeds or fails. *)
Definition external : M error := r ← next; mret (if rOk r then [] else [ErrExternal]).

Definition safeRuntimeFile (s : Slot) (required : bool) : M error :=
  i ← get (slot s);
  match i with
  | None => mret (if required then [ErrUnsafeStorage] else [])
  | Some _ => r ← next; mret (if rOk r then [] else [ErrUnsafeStorage])
  end.

Definition Rename (from to : Slot) : M error :=
  r ← next;
  i ← get (slot from);
  match i with
  | Some _ => if rOk r then modify (fun w => setSlot from None (setSlot to i w)) ≫= fun _ => mret []
              else mret [ErrExternal]
  | None => mret [ErrExternal]
  end.

Definition removeRuntimeFile (s : Slot) : M error :=
  e ← safeRuntimeFile s false;
  match e with
  | [] =>
      i ← get (slot s);
      match i with
      | None => mret []
      | Some _ =>
          e ← external;
          match e with
          | [] => modify (setSlot s None) ≫= fun _ => external
          | _ => mret e
          end
      end
  | _ => mret e
  end.

(** [strings.EqualFold] on hexadecimal digits. *)
Definition lower (b : byte) : byte := if isLower b then b else byte_of_Z (Z_of_byte b + 32).
Definition hexOf (i : list byte) : gostring :=
  flat_map (fun b => let d z := byte_of_Z (if z <? 10 then 48 + z else 87 + z) in
                     [d (Z_of_byte b / 16); d (Z_of_byte b mod 16)]) (Sum256 i).
Definition imageMatches (i : list byte) (length : Z) (digest : gostring) : bool :=
  (len i =? length) && bool_decide (hexOf i = map lower digest).

Definition regularMatches (s : Slot) (length : Z) (digest : gostring) : M bool :=
  i ← get (slot s);
  r ← next;
  mret (match i with Some i => rOk r && imageMatches i length digest | None => false end).

Section manager.
Context (GOOS GOARCH : gostring) (uriOk : gostring -> bool).

Record Config := mkConfig {
  binaryPath : gostring; stagedPath : gostring; MonitorWindow : Z; HealthInterval : Z;
  cCanaryTimeout : Z; cDrainTimeout : Z; cRollbackTimeout : Z; transactionID : Z -> gostring }.
Context (config : Config).

Abbreviation validateRelease := (validateRelease GOOS GOARCH).

(** ** The journal *)
Definition nowM : M Z := r ← next; mret (rNow r).

Definition write (j : Journal) : M error :=
  if negb (Validate j) then mret [ErrInvalidJournal]
  else
    r ← next;
    if rOk r then modify (fun w => w <| file := Stored j |>) ≫= fun _ => mret []
    else modify (fun w => if rDone r then w <| file := Stored j |> else w) ≫= fun _ =>
         mret [ErrExternal].

Definition loadM : M LoadResult :=
  r ← next;
  f ← get file;
  mret (match f with Absent => NotExist | _ => if rOk r then Load f else LoadFailed end).

(** [Manager.transition]: the journal, which is the zero value on an error. *)
Definition transition (j : Journal) (s : Stage) : M (Journal * error) :=
  n ← nowM;
  match Transition j s n with
  | None => mret (zeroJournal, [ErrInvalidTransition])
  | Some j1 =>
      if bool_decide (s = StageMonitoring)
      then n1 ← nowM; mret (j1 <| HealthDeadline := n1 + MonitorWindow config |>, [])
      else mret (j1, [])
  end.

Definition withRelease (j : Journal) (r : Release) (path : gostring) : Journal :=
  j <| CandidateVersion := rVersion r |> <| CandidateDigest := rSHA256 r |>
    <| CandidateLength := rLength r |> <| StagedPath := path |>
    <| CandidateManifestDigest := rManifestSHA256 r |> <| jHostdAPIMin := HostdAPIMin r |>
    <| jHostdAPIMax := HostdAPIMax r |> <| jRuntimeAPIMin := RuntimeAPIMin r |>
    <| jRuntimeAPIMax := RuntimeAPIMax r |>.

Definition withActiveRelease (j : Journal) (r : Release) : Journal :=
  j <| ActiveVersion := rVersion r |> <| ActiveDigest := rSHA256 r |> <| ActiveLength := rLength r |>
    <| ActiveHostdAPIMin := HostdAPIMin r |> <| ActiveHostdAPIMax := HostdAPIMax r |>
    <| ActiveRuntimeAPIMin := RuntimeAPIMin r |> <| ActiveRuntimeAPIMax := RuntimeAPIMax r |>.

Definition newJournal : M Journal :=
  t ← nowM;
  n ← nowM;
  a ← get active;
  mret (withActiveRelease
          (zeroJournal <| jSchema := SchemaV1 |> <| jTransactionID := transactionID config t |>
             <| jStage := StageIdle |> <| BootID := bytes "hostd" |> <| StageUpdatedAt := n |>) a).

(** A release known from the journal alone has no probe policy. *)
Definition bareRelease (version sha : gostring) (length : Z) (manifest : gostring)
    (hmin hmax rmin rmax : Z) : Release :=
  mkRelease version sha length GOOS GOARCH manifest [] 0 0 0 0 0 0 0 hmin hmax rmin rmax.
Definition releaseFromJournal (j : Journal) : Release :=
  bareRelease (CandidateVersion j) (CandidateDigest j) (CandidateLength j) (CandidateManifestDigest j)
    (jHostdAPIMin j) (jHostdAPIMax j) (jRuntimeAPIMin j) (jRuntimeAPIMax j).
Definition activeReleaseFromJournal (j : Journal) : Release :=
  bareRelease (ActiveVersion j) (ActiveDigest j) (ActiveLength j) []
    (ActiveHostdAPIMin j) (ActiveHostdAPIMax j) (ActiveRuntimeAPIMin j) (ActiveRuntimeAPIMax j).

Definition idleJournal (from : Journal) (failure : Failure) (quarantine : gostring) : M Journal :=
  n ← nowM;
  a ← get active;
  let j := withActiveRelease
             (zeroJournal <| jSchema := SchemaV1 |> <| jTransactionID := jTransactionID from |>
                <| jStage := StageIdle |> <| BootID := BootID from |> <| StageUpdatedAt := n |>
                <| RollbackCount := RollbackCount from |> <| LastFailure := failure |>) a in
  mret (if empty quarantine then j
        else withRelease j
               (bareRelease quarantine (CandidateDigest from) (CandidateLength from) []
                  (jHostdAPIMin from) (jHostdAPIMax from) (jRuntimeAPIMin from) (jRuntimeAPIMax from))
               (stagedPath config)).

(** ** Gates

    The five calls of the [ActivationGate] as the deployment gate makes them. *)

(** [HostdDeploymentProvider.call]: hostd refuses a request that is not valid. *)
Definition call (q : Request) : M (option Target) :=
  if negb (request_valid q) then mret None
  else r ← next; mret (if rOk r && target_valid (rTarget r) then Some (rTarget r) else None).
Definition callError (q : Request) : M error :=
  t ← call q; mret (match t with Some _ => [] | None => [ErrHostdActivationProvider] end).

(** The milliseconds left before the deadline of the context. *)
Definition budget : M Z := r ← next; mret (rMillis r).

Definition currentTarget (r : GateRequest) : M (option Target) :=
  call (targetRequest (gTransactionID r) (rVersion (Candidate r)) (rManifestSHA256 (Candidate r))).

Definition gate_Candidate (r : GateRequest) : M error :=
  if negb (validateState GOOS GOARCH StateCandidate r)
     || negb (validateActivationPolicy uriOk (Candidate r))
  then mret [ErrInvalidDeploymentGate]
  else
    t ← currentTarget r;
    match t with
    | None => mret [ErrInvalidDeploymentGate]
    | Some t => b ← budget; callError (probeRequest r t b)
    end.

Definition gate_Drain (r : GateRequest) : M error :=
  if negb (validateState GOOS GOARCH StateCandidate r)
     || negb (validateActivationPolicy uriOk (Candidate r))
  then mret [ErrInvalidDeploymentGate]
  else
    t ← currentTarget r;
    match t with
    | None => mret [ErrInvalidDeploymentGate]
    | Some t => b ← budget; callError (drainRequest r t b)
    end.

Definition gate_Active (r : GateRequest) : M error :=
  if negb (validateState GOOS GOARCH StateActive r)
     || negb (validateActivationPolicy uriOk (Candidate r))
     || negb (Window r =? StabilityWindow (Candidate r))
     || negb (Interval r =? StabilityInterval (Candidate r))
  then mret [ErrInvalidDeploymentGate]
  else
    t ← currentTarget r;
    match t with
    | None => mret [ErrInvalidDeploymentGate]
    | Some t => callError (stabilityRequest r t)
    end.

Definition gate_Rollback (r : GateRequest) : M error :=
  if negb (validateState GOOS GOARCH StateActive r) || negb (lowerDigest (rManifestSHA256 (Previous r)))
  then mret [ErrInvalidDeploymentGate]
  else
    t ← call (targetRequest (gTransactionID r) (rVersion (Previous r)) (rManifestSHA256 (Previous r)));
    match t with
    | None => mret [ErrInvalidDeploymentGate]
    | Some t => b ← budget; callError (rollbackRequest r t b)
    end.

Definition gate_Commit (r : GateRequest) : M error :=
  if negb (validateState GOOS GOARCH StateActive r)
     || negb (validateActivationPolicy uriOk (Candidate r))
  then mret [ErrInvalidDeploymentGate]
  else
    t ← currentTarget r;
    match t with
    | None => mret [ErrInvalidDeploymentGate]
    | Some t => callError (commitRequest r t)
    end.

(** [Manager.gate], and the validation of the request before the call. *)
Definition gate (timeout : Z) (invoke : M error) : M error :=
  if timeout <=? 0 then mret [ErrActivationGate]
  else e ← invoke; mret (match e with [] => [] | _ => ErrActivationGate :: e end).
Definition validated (st : WorkerState) (r : GateRequest) (m : M error) : M error :=
  if gateRequest_validate GOOS GOARCH st r then m else mret [ErrActivationGate].

Definition releaseDuration (signed fallback : Z) : Z := if 0 <? signed then signed else fallback.

Definition gateRequest (j : Journal) (candidate : Release) (worker : Status) : M GateRequest :=
  a ← get active; mret (mkGateRequest (jTransactionID j) a candidate worker 0 0).

Definition commitGate (j : Journal) (r : Release) : M error :=
  q ← gateRequest j r (mkStatus StateActive (jWorkerID j) 1 (jWorkerEpoch j));
  gate (releaseDuration (CanaryTimeout r) (cCanaryTimeout config))
    (validated StateActive q (gate_Commit q)).

(** ** Storage *)
Definition promoteStorage : M error := attempt (
  e ← safeRuntimeFile Binary true; check e ≫= fun _ =>
  e ← safeRuntimeFile BinaryStaged true; check e ≫= fun _ =>
  e ← removeRuntimeFile BinaryRollback; check e ≫= fun _ =>
  e ← Rename Binary BinaryRollback; check e ≫= fun _ =>
  e ← Rename BinaryStaged Binary;
  match e with
  | [] => e ← external; check e
  | _ => Rename BinaryRollback Binary ≫= fun _ => fail e
  end).

Definition ensurePromoted (j : Journal) : M error :=
  b ← regularMatches Binary (CandidateLength j) (CandidateDigest j);
  match b with true => mret [] | false => promoteStorage end.

Definition restoreStorage : M error := attempt (
  r ← next;
  s ← get staged;
  if negb (rOk r) then fail [ErrExternal]
  else
    match s with
    | Some _ => mret tt
    | None =>
        e ← safeRuntimeFile Binary true; check e ≫= fun _ =>
        e ← safeRuntimeFile BinaryRollback true; check e ≫= fun _ =>
        e ← Rename Binary BinaryStaged; check e ≫= fun _ =>
        e ← Rename BinaryRollback Binary;
        match e with
        | [] => e ← external; check e
        | _ => Rename BinaryStaged Binary ≫= fun _ => fail e
        end
    end).

Definition removeStaged : M error := removeRuntimeFile BinaryStaged.

(** [stage] of a native executable: fetch, prepare the pending file, copy and hash, sync and
    close, verify, rename, sync the directory. *)
Definition stage (r : Release) : M error := attempt (
  f ← next;
  check (if rOk f then [] else [ErrExternal]) ≫= fun _ =>
  e ← external; check e ≫= fun _ =>
  check (if imageMatches (rData f) (rLength r) (rSHA256 r) then [] else [ErrInvalidRelease])
    ≫= fun _ =>
  e ← external; check e ≫= fun _ =>
  v ← next;
  check (if rOk v then [] else [ErrInvalidRelease]) ≫= fun _ =>
  e ← external; check e ≫= fun _ =>
  modify (fun w => w <| staged := Some (rData f) |>) ≫= fun _ =>
  e ← external; check e).

(** ** Workers *)
Definition workerID (version : gostring) : gostring := bytes "runtime-" ++ version.

Definition hostdActive : M (Status * error) :=
  r ← next;
  s ← get fence;
  mret (if rOk r then (s, []) else (mkStatus StateEmpty [] 0 0, [ErrExternal])).

Definition Ready : M (Status * error) :=
  r ← next; mret (rStatus r, if rOk r then [] else [ErrExternal]).

(** [worker.Activate]: hostd moves its fence to the candidate that was ready, or does not,
    and the answer may be lost. *)
Definition activateFence (id : gostring) (ready : Status) (w : World) : World :=
  (w <| log := log w ++ [mkActivation id (Epoch ready) (file w) (binary w)] |>)
    <| fence := mkStatus StateActive id (APIVersion ready) (Epoch ready) |>.
Definition worker_Activate (id : gostring) (ready : Status) : M (Status * error) :=
  r ← next;
  modify (if rOk r || rDone r then activateFence id ready else (fun w => w)) ≫= fun _ =>
  mret (rStatus r, if rOk r then [] else [ErrExternal]).

Definition stopWorker : M unit := external ≫= fun _ => mret tt.

(** ** Failures *)
(** [errors.Join], without the order of its parts, where [e] is not nil. *)
Definition joinIf (e : error) (more : error) : error := match e with [] => [] | _ => e ++ more end.

(** The blocked journal a failure leaves, if it can be written. *)
Definition block (j : Journal) : M error :=
  '(blocked, e) ← transition j StageBlocked;
  match e with [] => write blocked | _ => mret e end.

(** The end of [restoreAfterDrain]: the candidate is discarded. *)
Definition discardDrained (nextJ : Journal) (failed : Release) (candidate : bool) (cause : error)
    : M error :=
  (if candidate then stopWorker else mret tt) ≫= fun _ =>
  e ← removeStaged;
  match e with
  | _ :: _ => mret (cause ++ e ++ [ErrBlocked])
  | [] =>
      idle ← idleJournal nextJ FailureDrain (rVersion failed);
      e ← write idle;
      match e with
      | _ :: _ => mret (cause ++ e ++ [ErrBlocked])
      | [] => mret (if Is cause errInterruptedDrainRecovery then [] else cause)
      end
  end.

(** The middle of [restoreAfterDrain]: the gate proves the restored path. *)
Definition restoreGate (j : Journal) (failed : Release) : M error :=
  '(status, statusErr0) ← hostdActive;
  let statusErr := match statusErr0 with
                   | [] => if bool_decide (State status = StateActive) then [] else [ErrInvalidRelease]
                   | _ => statusErr0 end in
  a ← get active;
  let request := mkGateRequest (jTransactionID j) failed a status 0 0 in
  match statusErr with
  | [] => validated StateActive request (gate_Rollback request)
  | _ => mret statusErr
  end.

Definition restoreAfterDrain (j : Journal) (failed : Release) (candidate : bool) (cause : error)
    : M error :=
  '(moved, transitionErr) ← transition j StageRollback;
  let nextJ := (match transitionErr with [] => moved | _ => j end) <| LastFailure := FailureDrain |> in
  journalErr ← match transitionErr with [] => write nextJ | _ => mret transitionErr end;
  restoreErr ← restoreGate j failed;
  match restoreErr with
  | _ :: _ =>
      blockErr ← block nextJ;
      mret (cause ++ journalErr ++ restoreErr ++ blockErr ++ [ErrBlocked])
  | [] =>
      if negb (bool_decide (journalErr = [])) || Is cause errStorageRestoreFailed
      then blockErr ← block nextJ; mret (cause ++ journalErr ++ blockErr ++ [ErrBlocked])
      else discardDrained nextJ failed candidate cause
  end.

Definition startWorker : M error := external.

(** Starting and activating the previous runtime in [rollbackActive]. *)
Definition startRollbackWorker (previous : Release) : M error :=
  e ← startWorker;
  match e with
  | _ :: _ => mret e
  | [] =>
      '(ready, readyErr) ← Ready;
      match readyErr with
      | _ :: _ => mret readyErr
      | [] =>
          if negb (matches ready StateCandidate (workerID (rVersion previous)) 0)
          then mret [ErrInvalidRelease]
          else
            '(act, activateErr) ← worker_Activate (workerID (rVersion previous)) ready;
            match activateErr with
            | _ :: _ => mret activateErr
            | [] =>
                mret (if matches act StateActive (workerID (rVersion previous)) (Epoch ready)
                      then [] else [ErrInvalidRelease])
            end
      end
  end.

(** The end of [rollbackActive], with the previous runtime started again: the storage, the
    gate and the journal. *)
Definition afterRestart (j nextJ : Journal) (failed previous : Release) (candidate : bool)
    (cause : error) : M unit :=
  e ← restoreStorage; check (joinIf e (cause ++ [ErrBlocked])) ≫= fun _ =>
  '(status, e) ← hostdActive; check (joinIf e (cause ++ [ErrBlocked])) ≫= fun _ =>
  let request := mkGateRequest (jTransactionID j) failed previous status 0 0 in
  rollbackErr ← validated StateActive request (gate_Rollback request);
  match rollbackErr with
  | _ :: _ =>
      block (nextJ <| LastFailure := FailureRollback |>) ≫= fun _ =>
      fail (cause ++ rollbackErr ++ [ErrBlocked])
  | [] =>
      (if candidate then stopWorker else mret tt) ≫= fun _ =>
      idle ← idleJournal nextJ FailureHealth (rVersion failed);
      e ← write (idle <| RollbackCount := RollbackCount nextJ |>);
      check (joinIf e cause) ≫= fun _ => fail cause
  end.

Definition rollbackActive (j : Journal) (failed : Release) (candidate : bool) (cause : error)
    : M error := attempt (
  '(moved, e) ← transition j StageRollback; check e ≫= fun _ =>
  let nextJ := moved <| LastFailure := FailureHealth |>
                     <| RollbackCount := (RollbackCount moved + 1) mod 2 ^ 32 |> in
  e ← write nextJ; check e ≫= fun _ =>
  previous ← get active;
  startErr ← startRollbackWorker previous;
  match startErr with
  | _ :: _ =>
      block (nextJ <| LastFailure := FailureRollback |>) ≫= fun _ =>
      fail (cause ++ startErr ++ [ErrBlocked])
  | [] => afterRestart j nextJ failed previous candidate cause
  end).

Definition failBeforeCutover (j : Journal) (worker : bool) (failure : Failure) (cause : error)
    (quarantine : gostring) : M error :=
  (if worker then stopWorker else mret tt) ≫= fun _ =>
  removeStaged ≫= fun _ =>
  idle ← idleJournal (j <| LastFailure := failure |>) failure quarantine;
  e ← write idle;
  mret (cause ++ e).

Definition finishCommitted (j : Journal) : M error := attempt (
  e ← removeStaged; check e ≫= fun _ =>
  idle ← idleJournal j FailureNone [];
  e ← write idle; check e).

(** ** The stability window *)
Definition monitor (j : Journal) (r : Release) : M error := attempt (
  check (if HealthDeadline j =? zeroTime then [ErrBlocked] else []) ≫= fun _ =>
  '(status, e) ← hostdActive; check e ≫= fun _ =>
  check (if matches status StateActive (jWorkerID j) (jWorkerEpoch j) then [] else [ErrInvalidJournal])
    ≫= fun _ =>
  e ← external; check e ≫= fun _ =>
  n ← nowM;
  let left := HealthDeadline j - n in
  let interval := releaseDuration (StabilityInterval r) (HealthInterval config) in
  let remaining := if left <=? 0 then interval else left in
  let window := releaseDuration (StabilityWindow r) remaining in
  q ← gateRequest j r status;
  let request := mkGateRequest (gTransactionID q) (Previous q) (Candidate q) (Worker q) window
                   (if window <? interval then window else interval) in
  e ← gate remaining (validated StateActive request (gate_Active request)); check e ≫= fun _ =>
  '(status, e) ← hostdActive; check e ≫= fun _ =>
  check (if matches status StateActive (jWorkerID j) (jWorkerEpoch j) then [] else [ErrInvalidJournal])
    ≫= fun _ =>
  e ← external; check e).

Definition setActive (r : Release) : M unit := modify (fun w => w <| active := r |>).

Definition monitorAndCommitRecovered (j : Journal) : M error := attempt (
  let r := releaseFromJournal j in
  e ← monitor j r;
  match e with
  | _ :: _ => e ← rollbackActive j r false e; check e
  | [] =>
      '(nextJ, e) ← transition j StageCommitted; check e ≫= fun _ =>
      e ← write nextJ; check e ≫= fun _ =>
      e ← commitGate nextJ r; check e ≫= fun _ =>
      setActive r ≫= fun _ =>
      e ← finishCommitted nextJ; check e
  end).

(** ** Recovery *)
Definition recoverLegacyPromotedCandidate (j : Journal) : M error := attempt (
  j1 ← (if bool_decide (jStage j = StageMonitoring)
        then
          a ← get active;
          e ← monitor j a; check (joinIf e [ErrBlocked]) ≫= fun _ =>
          '(nextJ, e) ← transition j StageCommitted; check e ≫= fun _ =>
          e ← write nextJ; check e ≫= fun _ => mret nextJ
        else mret j);
  e ← commitGate j1 (releaseFromJournal j1); check e ≫= fun _ =>
  e ← finishCommitted j1; check e).

Definition restoreBlockedTransaction (j : Journal) : M error := attempt (
  '(moved, e) ← transition j StageRollback;
  check (match e with [] => [] | _ => [ErrBlocked] end) ≫= fun _ =>
  e ← write moved; check (joinIf e [ErrBlocked]) ≫= fun _ =>
  e ← restoreAfterDrain (moved <| jStage := StageDraining |>) (releaseFromJournal moved) false
        [errInterruptedDrainRecovery];
  check (joinIf e [ErrBlocked])).

Definition retiredByPackage (s : Stage) : bool :=
  match s with
  | StageIdle | StageChecking | StageStaged | StageCandidateStarted | StageCandidateValidating
  | StageCandidateReady | StageDraining | StageRollback | StageBlocked => true
  | _ => false
  end.

(** The journal is of another active version than the process. *)
Definition recoverOther (j : Journal) : M error :=
  a ← get active;
  if (0 <? compareVersion (rVersion a) (ActiveVersion j)) && retiredByPackage (jStage j)
  then
    e ← removeStaged;
    match e with
    | _ :: _ => mret e
    | [] => nextJ ← newJournal; write nextJ
    end
  else if empty (ActiveDigest j) && bool_decide (CandidateVersion j = rVersion a)
          && (bool_decide (jStage j = StageMonitoring) || bool_decide (jStage j = StageCommitted))
  then recoverLegacyPromotedCandidate j
  else mret [ErrBlocked].

Definition recoverCutover (j : Journal) : M error := attempt (
  '(status, e) ← hostdActive; check e ≫= fun _ =>
  if matches status StateActive (jWorkerID j) (jWorkerEpoch j)
  then
    e ← ensurePromoted j; check e ≫= fun _ =>
    '(nextJ, e) ← transition (j <| StagedPath := binaryPath config |>) StageMonitoring;
    check e ≫= fun _ =>
    e ← write nextJ; check e ≫= fun _ =>
    e ← monitorAndCommitRecovered nextJ; check e
  else
    e ← restoreStorage;
    e ← restoreAfterDrain j (releaseFromJournal j) false
          (match e with
           | [] => [errInterruptedDrainRecovery]
           | _ => [errInterruptedDrainRecovery; errStorageRestoreFailed] ++ e
           end);
    check e).

Definition recoverSame (j : Journal) : M error :=
  match Recovery j with
  | RecoveryKeepActive => mret []
  | RecoveryDiscardCandidate =>
      e ← removeStaged;
      match e with
      | _ :: _ => mret e
      | [] => idle ← idleJournal j FailureCandidate []; write idle
      end
  | RecoveryRestoreDrain =>
      restoreAfterDrain j (releaseFromJournal j) false [errInterruptedDrainRecovery]
  | RecoveryQueryHostd => recoverCutover j
  | RecoveryContinueMonitor => monitorAndCommitRecovered j
  | RecoveryFinalizeCleanup => attempt (
      e ← commitGate j (releaseFromJournal j); check e ≫= fun _ =>
      setActive (releaseFromJournal j) ≫= fun _ =>
      e ← finishCommitted j; check e)
  | RecoveryPerformRollback => restoreBlockedTransaction j
  | RecoveryRequired => mret [ErrBlocked]
  end.

Definition recoverLocked : M error :=
  l ← loadM;
  match l with
  | NotExist => j ← newJournal; write j
  | LoadFailed => mret [ErrBlocked]
  | Loaded j =>
      a ← get active;
      if negb (bool_decide (ActiveVersion j = rVersion a)) then recoverOther j else recoverSame j
  end.

(** ** Activation *)
Record Result := mkResult { resVersion : gostring; Updated : bool }.

Definition quarantinedLocked : M (gostring * error) :=
  l ← loadM;
  mret match l with
  | NotExist => ([], [])
  | LoadFailed => ([], [ErrBlocked])
  | Loaded j =>
      if bool_decide (jStage j = StageIdle) && negb (bool_decide (LastFailure j = FailureNone))
         && negb (empty (CandidateVersion j))
      then (CandidateVersion j, []) else ([], [])
  end.

(** A step of the journal: the transition and the write, each with its early return. *)
Definition advance (j : Journal) (s : Stage) : M Journal :=
  '(j1, e) ← transition j s; check e ≫= fun _ =>
  e ← write j1; check e ≫= fun _ => mret j1.

(** From the idle journal to the staged one. *)
Definition stageRelease (r : Release) : M Journal :=
  j ← newJournal;
  e ← write j; check e ≫= fun _ =>
  j ← advance j StageChecking;
  e ← stage r;
  match e with
  | _ :: _ =>
      cleanupErr ← removeStaged;
      idle ← idleJournal j FailureVerification [];
      writeErr ← write idle;
      fail (e ++ cleanupErr ++ writeErr)
  | [] => advance (withRelease j r (stagedPath config)) StageStaged
  end.

(** The candidate is started, is ready, and passes its probes. *)
Definition validateCandidate (j : Journal) (r : Release) : M (Journal * Status) :=
  j ← advance j StageCandidateStarted;
  e ← startWorker;
  match e with
  | _ :: _ => e ← failBeforeCutover j false FailureCandidate e []; fail e
  | [] =>
      '(ready, readyErr) ← Ready;
      if negb (bool_decide (readyErr = []))
         || negb (matches ready StateCandidate (workerID (rVersion r)) 0)
      then
        e ← failBeforeCutover j true FailureCandidate
              (match readyErr with [] => [ErrInvalidRelease] | _ => readyErr end) [];
        fail e
      else
        j ← advance (j <| jWorkerID := WorkerID ready |> <| jWorkerEpoch := Epoch ready |>)
              StageCandidateValidating;
        q ← gateRequest j r ready;
        e ← gate (releaseDuration (CanaryTimeout r) (cCanaryTimeout config))
              (validated StateCandidate q (gate_Candidate q));
        match e with
        | _ :: _ => e ← failBeforeCutover j true FailureCanary e (rVersion r); fail e
        | [] => j ← advance j StageCandidateReady; mret (j, ready)
        end
  end.

(** The old runtime is drained, and the intent to cut over is on disk. *)
Definition drainActive (j : Journal) (r : Release) (ready : Status) : M Journal :=
  j ← advance j StageDraining;
  q ← gateRequest j r ready;
  e ← gate (releaseDuration (DrainTimeout r) (cDrainTimeout config))
        (validated StateCandidate q (gate_Drain q));
  match e with
  | _ :: _ => e ← restoreAfterDrain j r true e; fail e
  | [] =>
      '(j, e) ← transition j StageCutover;
      match e with
      | _ :: _ => e ← restoreAfterDrain j r true e; fail e
      | [] =>
          e ← write j;
          match e with
          | _ :: _ => e ← restoreAfterDrain j r true e; fail e
          | [] => mret j
          end
      end
  end.

(** Undoing a promotion that failed, then the drain. *)
Definition undoPromotion (j : Journal) (r : Release) (cause : error) : M error :=
  e ← restoreStorage;
  restoreAfterDrain j r true (match e with [] => cause | _ => cause ++ [errStorageRestoreFailed] ++ e end).

Definition cutOver (j : Journal) (r : Release) (ready : Status) : M Journal :=
  e ← promoteStorage;
  match e with
  | _ :: _ => e ← undoPromotion j r e; fail e
  | [] =>
      let j := j <| StagedPath := binaryPath config |> in
      e ← write j;
      match e with
      | _ :: _ => e ← undoPromotion j r e; fail e
      | [] =>
          '(act, e) ← worker_Activate (workerID (rVersion r)) ready;
          check e ≫= fun _ =>
          check (if matches act StateActive (workerID (rVersion r)) (Epoch ready)
                 then [] else [ErrInvalidRelease]) ≫= fun _ => mret j
      end
  end.

Definition watchAndCommit (j : Journal) (r : Release) : M (Result * error) :=
  '(j, e) ← transition j StageMonitoring; check e ≫= fun _ =>
  n ← nowM;
  let j := j <| HealthDeadline := n + releaseDuration (StabilityWindow r) (MonitorWindow config) |> in
  e ← write j; check e ≫= fun _ =>
  e ← monitor j r;
  match e with
  | _ :: _ => e ← rollbackActive j r true e; fail e
  | [] =>
      j ← advance j StageCommitted;
      e ← commitGate j r; check e ≫= fun _ =>
      setActive r ≫= fun _ =>
      e ← finishCommitted j;
      mret (mkResult (rVersion r) true, e)
  end.

(** The early returns of [Activate] carry the active version. *)
Definition withResult (m : M (Result * error)) : M (Result * error) := fun w rs =>
  match m w rs with
  | (w1, Failed e rest) => (w1, Ret (mkResult (rVersion (active w1)) false, e) rest)
  | x => x
  end.

Definition Activate (r : Release) : M (Result * error) := withResult (
  e ← recoverLocked; check e ≫= fun _ =>
  check (if validateRelease r then [] else [ErrInvalidRelease]) ≫= fun _ =>
  a ← get active;
  if compareVersion (rVersion r) (rVersion a) =? 0 then mret (mkResult (rVersion a) false, [])
  else
    check (if compareVersion (rVersion r) (rVersion a) <? 0 then [ErrInvalidRelease] else []) ≫= fun _ =>
    '(q, e) ← quarantinedLocked; check e ≫= fun _ =>
    check (if bool_decide (q = rVersion r) then [ErrQuarantined] else []) ≫= fun _ =>
    j ← stageRelease r;
    '(j, ready) ← validateCandidate j r;
    j ← drainActive j r ready;
    j ← cutOver j r ready;
    watchAndCommit j r).

(** ** The start of the process *)

(** [New], with a configuration that is otherwise valid: the active release must be the one
    in the current slot. *)
Definition New (a : Release) : M error :=
  if negb (validateRelease a) then mret [ErrInvalidConfig]
  else
    d ← external;
    match d with
    | _ :: _ => mret [ErrUnsafeStorage]
    | [] =>
        e ← safeRuntimeFile Binary true;
        match e with
        | _ :: _ => mret e
        | [] =>
            b ← regularMatches Binary (rLength a) (rSHA256 a);
            v ← external;
            match b, v with
            | true, [] => setActive a ≫= fun _ => mret []
            | _, _ => mret [ErrUnsafeStorage]
            end
        end
    end.

(** [TUFSource.Active]: the signed index names this release, does not, or revokes it. *)
Inductive Resolved := Found (r : Release) | NotFound | Revoked | Unresolved.

Definition candidateMayBeActive (s : Stage) : bool :=
  match s with StageCutover | StageMonitoring | StageCommitted => true | _ => false end.
Definition releaseForVersion (j : Journal) (version : gostring) : option Release :=
  if bool_decide (ActiveVersion j = version) && negb (empty (ActiveDigest j))
  then Some (activeReleaseFromJournal j)
  else if bool_decide (CandidateVersion j = version) && candidateMayBeActive (jStage j)
  then Some (releaseFromJournal j)
  else None.
Definition RecoveryReleaseFromJournal (f : JournalFile) (version : gostring) : option Release :=
  match Load f with
  | Loaded j =>
      r ← (if negb (empty (ActiveDigest j))
              && (bool_decide (ActiveVersion j = version)
                  || bool_decide (CandidateVersion j = version) && candidateMayBeActive (jStage j))
           then Some (activeReleaseFromJournal j)
           else releaseForVersion j version);
      if validateRelease r then Some r else None
  | _ => None
  end.

Definition resolveUpdatedActive (resolve : gostring -> Resolved) (f : JournalFile) (version : gostring)
    : option Release :=
  match resolve version with
  | Found r => Some r
  | Unresolved => None
  | NotFound | Revoked =>
      match RecoveryReleaseFromJournal f version with
      | None => None
      | Some recovered =>
          if bool_decide (rVersion recovered = version) then Some recovered
          else
            match resolve (rVersion recovered) with
            | Found _ | NotFound => Some recovered
            | Revoked | Unresolved => None
            end
      end
  end.

(** A start: the runtime in the current slot runs, resolves its active release, and
    recovers before it serves. *)
Definition start (versionOf : Image -> gostring) (resolve : gostring -> Resolved) : M error :=
  i ← get binary;
  f ← get file;
  match i with
  | None => mret [ErrUnsafeStorage]
  | Some i =>
      match resolveUpdatedActive resolve f (versionOf i) with
      | None => mret [ErrInvalidRelease]
      | Some a => e ← New a; match e with [] => recoverLocked | _ => mret e end
      end
  end.
End manager.
