(* ===== verification/WorkerUpdateInv.v ===== *)
(** * The worker updater: its storage and journal

    Which programs of WorkerUpdate.v do not change the world, and which return their errors as
    values.  The shapes the three slots of the runtime can have, what each program does to them
    and to the journal, and the invariant that ties the two: wherever the process dies,
    the runtime of the release it holds active is in the current or in the rollback slot. *)
From S2P Require Import Prelude.
From S2P Require Import TransferCodec.
From S2P Require Import UpdateGate.
From S2P Require Import Effects.
From S2P Require Import UpdateFlow.
From S2P Require Import WorkerRelease.
From S2P Require Import WorkerUpdate.
Set Warnings "-clear-no-such-hyp".

Section programs.
Context (GOOS GOARCH : gostring) (uriOk : gostring -> bool) (config : Config).

Lemma external_readonly : readonly external.
Proof. unfold external. ro. Qed.
Lemma safe_readonly s b : readonly (safeRuntimeFile s b).
Proof. unfold safeRuntimeFile. ro. Qed.
Lemma regular_readonly s l d : readonly (regularMatches s l d).
Proof. unfold regularMatches. ro. Qed.
Hint Resolve external_readonly safe_readonly regular_readonly : readonly.
Lemma loadM_readonly : readonly loadM.
Proof. unfold loadM. ro. Qed.
Lemma nowM_readonly : readonly nowM.
Proof. unfold nowM. ro. Qed.
Hint Resolve nowM_readonly loadM_readonly : readonly.
Lemma transition_readonly j s : readonly (transition config j s).
Proof. unfold transition. ro. Qed.
Lemma call_readonly q : readonly (call q).
Proof. unfold call. ro. Qed.
Hint Resolve call_readonly : readonly.
Lemma callError_readonly q : readonly (callError q).
Proof. unfold callError. ro. Qed.
Lemma budget_readonly : readonly budget.
Proof. unfold budget. ro. Qed.
Hint Resolve callError_readonly budget_readonly : readonly.
Lemma gate_readonly n m : readonly m -> readonly (gate n m).
Proof. intros ?. unfold gate. ro. Qed.
Lemma validated_readonly st r m : readonly m -> readonly (validated GOOS GOARCH st r m).
Proof. intros ?. unfold validated. ro. Qed.
Hint Resolve gate_readonly validated_readonly : readonly.
Lemma gate_Candidate_readonly r : readonly (gate_Candidate GOOS GOARCH uriOk r).
Proof. unfold gate_Candidate, currentTarget. ro. Qed.
Lemma gate_Drain_readonly r : readonly (gate_Drain GOOS GOARCH uriOk r).
Proof. unfold gate_Drain, currentTarget. ro. Qed.
Lemma gate_Active_readonly r : readonly (gate_Active GOOS GOARCH uriOk r).
Proof. unfold gate_Active, currentTarget. ro. Qed.
Lemma gate_Rollback_readonly r : readonly (gate_Rollback GOOS GOARCH r).
Proof. unfold gate_Rollback. ro. Qed.
Lemma gate_Commit_readonly r : readonly (gate_Commit GOOS GOARCH uriOk r).
Proof. unfold gate_Commit, currentTarget. ro. Qed.
Hint Resolve gate_Candidate_readonly gate_Drain_readonly gate_Active_readonly
  gate_Rollback_readonly gate_Commit_readonly : readonly.
Lemma gateRequest_readonly j r s : readonly (gateRequest j r s).
Proof. unfold gateRequest. ro. Qed.
Lemma hostdActive_readonly : readonly hostdActive.
Proof. unfold hostdActive. ro. Qed.
Lemma Ready_readonly : readonly Ready.
Proof. unfold Ready. ro. Qed.
Lemma stopWorker_readonly : readonly stopWorker.
Proof. unfold stopWorker. ro. Qed.
Hint Resolve gateRequest_readonly hostdActive_readonly Ready_readonly stopWorker_readonly : readonly.
Lemma commitGate_readonly j r : readonly (commitGate GOOS GOARCH uriOk config j r).
Proof. unfold commitGate. ro. Qed.
Lemma monitor_readonly j r : readonly (monitor GOOS GOARCH uriOk config j r).
Proof. unfold monitor. ro. Qed.
Lemma newJournal_readonly : readonly (newJournal config).
Proof. unfold newJournal. ro. Qed.
Lemma idleJournal_readonly j f q : readonly (idleJournal GOOS GOARCH config j f q).
Proof. unfold idleJournal. ro. Qed.
Lemma quarantined_readonly : readonly quarantinedLocked.
Proof. unfold quarantinedLocked. ro. Qed.
End programs.

Section errors.
Context (GOOS GOARCH : gostring) (uriOk : gostring -> bool) (config : Config).

Lemma transition_noFail j s : noFail (transition config j s).
Proof. unfold transition, nowM. nf. Qed.
Lemma write_noFail j : noFail (write j).
Proof. unfold write. nf. Qed.
Lemma safe_noFail s b : noFail (safeRuntimeFile s b).
Proof. unfold safeRuntimeFile. nf. Qed.
Hint Resolve transition_noFail write_noFail safe_noFail : readonly.
Lemma block_noFail j : noFail (block config j).
Proof. unfold block. nf. Qed.
Lemma call_noFail q : noFail (call q).
Proof. unfold call. nf. Qed.
Hint Resolve block_noFail call_noFail : readonly.
Lemma callError_noFail q : noFail (callError q).
Proof. unfold callError. nf. Qed.
Hint Resolve callError_noFail : readonly.
Lemma gate_Candidate_noFail r : noFail (gate_Candidate GOOS GOARCH uriOk r).
Proof. unfold gate_Candidate, currentTarget, budget. nf. Qed.
Lemma gate_Drain_noFail r : noFail (gate_Drain GOOS GOARCH uriOk r).
Proof. unfold gate_Drain, currentTarget, budget. nf. Qed.
Lemma gate_Rollback_noFail r : noFail (gate_Rollback GOOS GOARCH r).
Proof. unfold gate_Rollback, budget. nf. Qed.
Lemma gate_Commit_noFail r : noFail (gate_Commit GOOS GOARCH uriOk r).
Proof. unfold gate_Commit, currentTarget. nf. Qed.
Lemma gate_noFail n m : noFail m -> noFail (gate n m).
Proof. intros ?. unfold gate. nf. Qed.
Lemma validated_noFail st r m : noFail m -> noFail (validated GOOS GOARCH st r m).
Proof. intros ?. unfold validated. nf. Qed.
Hint Resolve gate_Candidate_noFail gate_Drain_noFail gate_Rollback_noFail gate_Commit_noFail
  gate_noFail validated_noFail : readonly.
Lemma commitGate_noFail j r : noFail (commitGate GOOS GOARCH uriOk config j r).
Proof. unfold commitGate, gateRequest. nf. Qed.
Lemma external_noFail : noFail external.
Proof. unfold external. nf. Qed.
Hint Resolve external_noFail : readonly.
Lemma stopWorker_noFail : noFail stopWorker.
Proof. unfold stopWorker. nf. Qed.
Lemma hostdActive_noFail : noFail hostdActive.
Proof. unfold hostdActive. nf. Qed.
Lemma Ready_noFail : noFail Ready.
Proof. unfold Ready. nf. Qed.
Lemma idleJournal_noFail j f q : noFail (idleJournal GOOS GOARCH config j f q).
Proof. unfold idleJournal, nowM. nf. Qed.
Lemma newJournal_noFail : noFail (newJournal config).
Proof. unfold newJournal, nowM. nf. Qed.
Lemma removeStaged_noFail : noFail removeStaged.
Proof. unfold removeStaged, removeRuntimeFile. nf. Qed.
Hint Resolve commitGate_noFail stopWorker_noFail hostdActive_noFail Ready_noFail
  idleJournal_noFail newJournal_noFail removeStaged_noFail : readonly.
Lemma restoreAfterDrain_noFail j r b c : noFail (restoreAfterDrain GOOS GOARCH config j r b c).
Proof. unfold restoreAfterDrain, restoreGate, discardDrained. nf. Qed.
Lemma startRollbackWorker_noFail r : noFail (startRollbackWorker r).
Proof. unfold startRollbackWorker, startWorker, worker_Activate. nf. Qed.
Lemma monitor_noFail j r : noFail (monitor GOOS GOARCH uriOk config j r).
Proof. unfold monitor. nf. Qed.
Lemma loadM_noFail : noFail loadM.
Proof. unfold loadM. nf. Qed.
End errors.

#[export] Hint Resolve external_readonly safe_readonly regular_readonly loadM_readonly
  transition_readonly call_readonly callError_readonly gate_readonly validated_readonly
  gate_Candidate_readonly gate_Drain_readonly gate_Active_readonly gate_Rollback_readonly
  gate_Commit_readonly gateRequest_readonly hostdActive_readonly Ready_readonly
  stopWorker_readonly commitGate_readonly monitor_readonly newJournal_readonly
  idleJournal_readonly quarantined_readonly budget_readonly nowM_readonly : readonly.
#[export] Hint Resolve transition_noFail write_noFail safe_noFail block_noFail call_noFail
  callError_noFail gate_Candidate_noFail gate_Drain_noFail gate_Rollback_noFail
  gate_Commit_noFail gate_noFail validated_noFail commitGate_noFail external_noFail
  stopWorker_noFail hostdActive_noFail Ready_noFail idleJournal_noFail newJournal_noFail
  removeStaged_noFail restoreAfterDrain_noFail startRollbackWorker_noFail monitor_noFail
  loadM_noFail noFail_attempt : readonly.

(** ** Shapes of the storage, for the image [i] of the active release *)

(** In place; between the two renames; promoted, with [i] in the rollback slot. *)
Definition inPlace (i : Image) (w : World) : Prop := binary w = Some i.
Definition between (i : Image) (w : World) : Prop := rollback w = Some i /\ binary w = None.
Definition promoted (i : Image) (w : World) : Prop :=
  rollback w = Some i /\ is_Some (binary w) /\ staged w = None.

Definition settled (i : Image) (w : World) : Prop := inPlace i w \/ between i w.
Definition safe (i : Image) (w : World) : Prop := settled i w \/ promoted i w.
(** What [restoreStorage] relies on: a staged runtime, or a promoted one. *)
Definition held (i : Image) (w : World) : Prop :=
  safe i w /\ (is_Some (staged w) \/ promoted i w).

(** Nothing but the slots changed. *)
Record framed (w w' : World) : Prop := {
  framed_file : file w' = file w; framed_fence : fence w' = fence w;
  framed_active : active w' = active w; framed_log : log w' = log w }.

Lemma framed_refl w : framed w w.
Proof. done. Qed.
Lemma framed_trans a b c : framed a b -> framed b c -> framed a c.
Proof. intros [] []. split; congruence. Qed.
Lemma framed_slot s i w : framed w (setSlot s i w).
Proof. by destruct s. Qed.
Create HintDb upd.
#[export] Hint Resolve framed_refl framed_slot : upd.

Section storage.
Context (E : error -> World -> Prop) (i : Image).

Lemma wp_safe D s (b : bool) Q w : D w ->
  (slot s w = None -> Q (if b then [ErrUnsafeStorage] else []) w) ->
  (is_Some (slot s w) -> Q [] w /\ Q [ErrUnsafeStorage] w) ->
  wp (safeRuntimeFile s b) Q E D w.
Proof.
  intros HD HN HS. unfold safeRuntimeFile. wp_step. wp_step.
  destruct (slot s w) eqn:Hs; [|wp_step; by apply HN].
  destruct HS as [? ?]; [done|]. wp_step. wp_step; [done|]. wp_step. by destruct (rOk _).
Qed.

Lemma wp_external D Q w : D w -> Q [] w -> Q [ErrExternal] w -> wp external Q E D w.
Proof. intros HD H1 H2. unfold external. do 2 wp_step; [done|]. wp_step. by destruct (rOk _). Qed.

Lemma wp_rename D from to Q w : D w -> (forall e, e <> [] -> Q e w) ->
  (forall x, slot from w = Some x -> Q [] (setSlot from None (setSlot to (Some x) w))) ->
  wp (Rename from to) Q E D w.
Proof.
  intros HD HF HS. unfold Rename. do 2 wp_step; [done|]. do 2 wp_step.
  destruct (slot from w) as [x|] eqn:Hx; [|wp_step; by apply HF].
  destruct (rOk _); [|wp_step; by apply HF]. do 3 wp_step. by apply HS.
Qed.

Lemma wp_remove D s Q w : D w -> D (setSlot s None w) -> (forall e, e <> [] -> Q e w) ->
  (slot s w = None -> Q [] w) -> Q [] (setSlot s None w) -> Q [ErrExternal] (setSlot s None w) ->
  wp (removeRuntimeFile s) Q E D w.
Proof.
  intros HD HD' HF HN HS HX. unfold removeRuntimeFile. wp_step. apply wp_safe; [done|..].
  - intros Hs. wp_step. wp_step. rewrite Hs. wp_step. auto.
  - intros [x Hs]. split; [|wp_step; by apply HF]. wp_step. wp_step. rewrite Hs. wp_step.
    apply wp_external; [done| |wp_step; by apply HF]. do 2 wp_step. by apply wp_external.
Qed.
End storage.

(** The shapes by cases. *)
Ltac slots :=
  repeat match goal with H : ?x = ?x |- _ => clear H end;
  unfold held, safe, settled, inPlace, between, promoted in *; simpl in *;
  repeat match goal with
  | H : is_Some _ |- _ => destruct H
  | H : _ /\ _ |- _ => destruct H
  | H : _ \/ _ |- _ => destruct H
  end;
  try congruence; intuition (eauto || congruence).

(** ** The programs on the storage *)
Section storage_programs.
Context (E : error -> World -> Prop) (i : Image).

(** The two renames of a promotion, from a current and a staged runtime. *)
Lemma promote_renames w0 w : framed w0 w -> inPlace i w -> rollback w = None ->
  is_Some (staged w) -> staged w = staged w0 ->
  wp (e ← Rename Binary BinaryRollback; check e ≫= fun _ =>
      e ← Rename BinaryStaged Binary;
      match e with
      | [] => e ← external; check e
      | _ => Rename BinaryRollback Binary ≫= fun _ => fail e
      end)
    (fun _ w' => framed w0 w' /\ held i w' /\ (([] : error) = [] -> promoted i w' /\ binary w' = staged w0))
    (fun e w' => framed w0 w' /\ held i w' /\ (e = [] -> promoted i w' /\ binary w' = staged w0))
    (fun w' => framed w0 w' /\ held i w') w.
Proof.
  intros Hf Hp Hn [c Hs] Hs0.
  assert (Hh : held i w) by slots.
  wp_step. apply wp_rename; [done|intros e He; by wp_step; wp_step|].
  intros x Hx. wp_step. wp_step; [|done]. simpl in Hx.
  set (w1 := setSlot Binary None (setSlot BinaryRollback (Some x) w)).
  assert (Hh1 : framed w0 w1 /\ held i w1) by (split; [by eapply framed_trans|slots]).
  wp_step. apply wp_rename; [done|..].
  - intros e He. destruct e as [|k e]; [done|]. wp_step.
    apply wp_rename; [done|intros e' He'; wp_step; split_and!; by try apply Hh1|].
    intros y Hy. wp_step. split; [by eapply framed_trans; [apply Hh1|]|]. split; [slots|done].
  - intros y Hy. assert (framed w0 (setSlot BinaryStaged None (setSlot Binary (Some y) w1))).
    { by eapply framed_trans; [apply Hh1|]. }
    assert (promoted i (setSlot BinaryStaged None (setSlot Binary (Some y) w1))) by slots.
    wp_step. apply wp_external; [split; [done|slots]|..]; wp_step; try done.
    + split; [done|]. split; [slots|]. intros _. split; [done|]. simpl in *. congruence.
    + split; [done|]. split; [slots|done].
Qed.

(** [promoteStorage]: at every moment the storage is safe, and a success moves the staged
    runtime to the current slot and the current one to the rollback slot. *)
Lemma promote_spec w : held i w ->
  wp promoteStorage
    (fun e w' => framed w w' /\ held i w' /\ (e = [] -> promoted i w' /\ binary w' = staged w)) E
    (fun w' => framed w w' /\ held i w') w.
Proof.
  intros Hh. unfold promoteStorage. wp_step. wp_step.
  apply wp_safe; [done|intros Hb; wp_step; wp_step; done|intros Hb].
  split; wp_step; wp_step; try done. wp_step.
  apply wp_safe; [done|intros Hs; wp_step; wp_step; done|intros Hs].
  split; wp_step; wp_step; try done.
  assert (Hp : inPlace i w) by slots.
  wp_step. apply wp_remove; try done; [split; [done|slots]|..].
  - intros e He. by wp_step; wp_step.
  - intros Hn. wp_step. wp_step; [|done].
    apply (promote_renames w w); [done|done|done|done|done].
  - wp_step. wp_step; [|done].
    apply (promote_renames w (setSlot BinaryRollback None w)); [done|slots..].
  - wp_step. wp_step; [done|]. split; [done|]. split; [slots|done].
Qed.

(** [restoreStorage]: at every moment the storage is safe, and a success puts the active
    runtime back in place, or finds that it never left. *)
Lemma restore_spec w : held i w ->
  wp restoreStorage
    (fun e w' => framed w w' /\ held i w' /\ (e = [] -> settled i w')) E
    (fun w' => framed w w' /\ held i w') w.
Proof.
  intros Hh. unfold restoreStorage. wp_step. wp_step. wp_step; [done|]. wp_step. wp_step.
  destruct (rOk _); cbn [negb]; [|wp_step; done].
  destruct (staged w) as [c|] eqn:Hs; [wp_step; split; [done|]; split; [done|slots]|].
  assert (Hp : promoted i w) by slots. destruct Hp as (Hr & [b Hb] & _).
  wp_step. apply wp_safe; [done|simpl; congruence|intros _].
  split; wp_step; wp_step; try done. wp_step.
  apply wp_safe; [done|simpl; congruence|intros _].
  split; wp_step; wp_step; try done. wp_step.
  apply wp_rename; [done|intros e He; by wp_step; wp_step|].
  intros x Hx. wp_step. wp_step; [|done]. simpl in Hx.
  set (w1 := setSlot Binary None (setSlot BinaryStaged (Some x) w)).
  assert (Hh1 : framed w w1 /\ held i w1) by (split; [done|slots]).
  wp_step. apply wp_rename; [done|..].
  - intros e He. destruct e as [|k e]; [done|]. wp_step.
    apply wp_rename; [done|intros e' He'; wp_step; split_and!; by try apply Hh1|].
    intros y Hy. wp_step. split; [done|]. split; [slots|done].
  - intros y Hy. simpl in Hy.
    assert (inPlace i (setSlot BinaryRollback None (setSlot Binary (Some y) w1))) by slots.
    assert (held i (setSlot BinaryRollback None (setSlot Binary (Some y) w1))) by slots.
    wp_step. apply wp_external; [done|..]; wp_step; try done.
    split; [done|]. split; [done|]. intros _. by left.
Qed.

Lemma removeStaged_spec w : safe i w ->
  wp removeStaged
    (fun e w' => framed w w' /\ safe i w' /\ (settled i w -> settled i w')) E
    (fun w' => framed w w' /\ safe i w' /\ (settled i w -> settled i w')) w.
Proof.
  intros Hs. unfold removeStaged.
  assert (framed w (setSlot BinaryStaged None w) /\ safe i (setSlot BinaryStaged None w)
          /\ (settled i w -> settled i (setSlot BinaryStaged None w))) as ?.
  { split; [done|]. split; slots. }
  by apply wp_remove.
Qed.

(** [stage]: only a runtime with the length and the digest of the release is staged. *)
Lemma stage_spec r w : settled i w ->
  wp (stage r)
    (fun e w' => framed w w' /\ settled i w'
       /\ (e = [] -> exists c, staged w' = Some c /\ imageMatches c (rLength r) (rSHA256 r) = true)) E
    (fun w' => framed w w' /\ settled i w') w.
Proof.
  intros Hs. unfold stage.
  assert (Hk : forall e : error, e <> [] -> framed w w /\ settled i w
    /\ (e = [] -> exists c, staged w = Some c /\ imageMatches c (rLength r) (rSHA256 r) = true)) by done.
  wp_step. wp_step. wp_step; [done|]. wp_step. wp_step; [|by apply Hk].
  wp_step. apply wp_external; [done| |wp_step; wp_step; by try apply Hk]. wp_step. wp_step; [|done].
  wp_step. wp_step; [|by apply Hk]. destruct (imageMatches _ _ _) eqn:Hm; [|done].
  wp_step. apply wp_external; [done| |wp_step; wp_step; by try apply Hk]. wp_step. wp_step; [|done].
  wp_step. wp_step; [done|]. wp_step. wp_step; [|by apply Hk].
  wp_step. apply wp_external; [done| |wp_step; wp_step; by try apply Hk]. wp_step. wp_step; [|done].
  wp_step. wp_step. wp_step.
  set (w1 := set_field _ _ _). assert (framed w w1 /\ settled i w1) as [? ?] by (split; [done|slots]).
  apply wp_external; [done|..]; wp_step; try done. split; [done|]. split; [done|].
  intros _. eexists. by split; [reflexivity|].
Qed.
End storage_programs.

(** ** The programs on the journal *)
Definition withFile (j : Journal) (w : World) : World := w <| file := Stored j |>.

Section journal_programs.
Context (GOOS GOARCH : gostring) (uriOk : gostring -> bool) (config : Config).
Context (E : error -> World -> Prop) (D : World -> Prop).

Lemma wp_write j Q w : D w -> (forall e, e <> [] -> Q e w) ->
  (Validate j = true -> Q [] (withFile j w) /\ forall e, e <> [] -> Q e (withFile j w)) ->
  wp (write j) Q E D w.
Proof.
  intros HD HF HS. unfold write. destruct (Validate j) eqn:Hv; cbn [negb]; [|wp_step; by apply HF].
  destruct HS as [H1 H2]; [done|]. wp_step. wp_step; [done|]. destruct (rOk _).
  - by do 3 wp_step.
  - do 3 wp_step. destruct (rDone _); [by apply H2|by apply HF].
Qed.

(** [j'] is [j] moved to the stage [s]. *)
Definition moved (j : Journal) (s : Stage) (j' : Journal) : Prop :=
  Validate j = true /\ allowed (jStage j) s = true /\
  exists t h, j' = j <| jStage := s |> <| StageUpdatedAt := t |> <| HealthDeadline := h |>.

Lemma wp_transition j s (Q : Journal * error -> World -> Prop) w : D w ->
  Q (zeroJournal, [ErrInvalidTransition]) w -> (forall j', moved j s j' -> Q (j', []) w) ->
  wp (transition config j s) Q E D w.
Proof.
  intros HD HF HS. unfold transition, nowM. wp_step. wp_step. wp_step; [done|]. wp_step.
  destruct (Transition j s _) as [j1|] eqn:Ht; [|by wp_step].
  assert (Hm : moved j s j1).
  { unfold Transition in Ht. destruct (_ || _) eqn:Hg in Ht; [done|]. bool_hyps.
    split; [done|]. split; [done|]. inversion Ht; subst; clear Ht.
    destruct (_ && _); eexists _, _; [done|]. by destruct j. }
  destruct (bool_decide _); [|by wp_step; apply HS].
  wp_step. wp_step. wp_step; [done|]. do 2 wp_step. apply HS.
  destruct Hm as (? & ? & t & h & ->). split; [done|]. split; [done|]. eexists _, _. done.
Qed.

Lemma wp_newJournal (Q : Journal -> World -> Prop) w : D w ->
  (forall j, jStage j = StageIdle -> ActiveVersion j = rVersion (active w) ->
     ActiveDigest j = rSHA256 (active w) -> LastFailure j = FailureNone -> Q j w) ->
  wp (newJournal config) Q E D w.
Proof.
  intros HD HQ. unfold newJournal, nowM. repeat (wp_step; try done). by apply HQ.
Qed.

Lemma wp_idleJournal from f q (Q : Journal -> World -> Prop) w : D w ->
  (forall j, jStage j = StageIdle -> ActiveVersion j = rVersion (active w) ->
     ActiveDigest j = rSHA256 (active w) -> LastFailure j = f -> CandidateVersion j = q -> Q j w) ->
  wp (idleJournal GOOS GOARCH config from f q) Q E D w.
Proof.
  intros HD HQ. unfold idleJournal, nowM. repeat (wp_step; try done).
  unfold empty. destruct (bool_decide_reflect (q = [])) as [->|]; by apply HQ.
Qed.

Lemma wp_ro {A} (m : M A) Q w : readonly m -> noFail m -> D w -> (forall a, Q a w) ->
  wp m Q E D w.
Proof. intros Hr Hn HD HQ. apply wp_noFail; [done|]. by apply wp_readonly. Qed.

Lemma wp_hostdActive (Q : Status * error -> World -> Prop) w : D w -> Q (fence w, []) w ->
  Q (mkStatus StateEmpty [] 0 0, [ErrExternal]) w -> wp hostdActive Q E D w.
Proof.
  intros HD H1 H2. unfold hostdActive. wp_step. wp_step; [done|]. do 3 wp_step. by destruct (rOk _).
Qed.

(** ** Requests without a probe policy are refused *)
Lemma wp_call_refused q Q w : request_valid q = false -> Q [ErrHostdActivationProvider] w ->
  wp (callError q) Q E D w.
Proof. intros Hq HQ. unfold callError, call. rewrite Hq. cbn [negb]. by do 3 wp_step. Qed.

Lemma rollback_path_refused r t b : CanaryPath (Previous r) = [] ->
  request_valid (rollbackRequest r t b) = false.
Proof.
  intros Hp. unfold request_valid, rollbackRequest, validPolicy. simpl. rewrite Hp. simpl.
  repeat (destruct (_ || _); [done|]). destruct (_ && _); [done|].
  by rewrite andb_false_r.
Qed.

Lemma wp_gate_Rollback_bare r Q w : CanaryPath (Previous r) = [] -> D w ->
  (forall e, e <> [] -> Q e w) -> wp (gate_Rollback GOOS GOARCH r) Q E D w.
Proof.
  intros Hp HD HQ. unfold gate_Rollback. destruct (_ || _); [wp_step; by apply HQ|].
  wp_step. unfold call. destruct (negb _); [wp_step; wp_step; by apply HQ|].
  wp_step. wp_step; [done|]. wp_step. destruct (_ && _); [|wp_step; by apply HQ].
  wp_step. unfold budget. wp_step. wp_step; [done|]. wp_step.
  apply wp_call_refused; [by apply rollback_path_refused|by apply HQ].
Qed.

Lemma policy_without_path r : CanaryPath r = [] -> validateActivationPolicy uriOk r = false.
Proof.
  intros Hp. unfold validateActivationPolicy. rewrite Hp. by destruct (lowerDigest _).
Qed.

Lemma wp_commitGate_bare j r Q w : CanaryPath r = [] -> D w -> (forall e, e <> [] -> Q e w) ->
  wp (commitGate GOOS GOARCH uriOk config j r) Q E D w.
Proof.
  intros Hp HD HQ. unfold commitGate, gateRequest, gate. do 4 wp_step.
  destruct (_ <=? _); [wp_step; by apply HQ|]. wp_step. unfold validated, gate_Commit.
  cbn [Candidate]. rewrite (policy_without_path r Hp).
  destruct (gateRequest_validate _ _ _ _); [|do 2 wp_step; by apply HQ].
  destruct (negb (validateState _ _ _ _)); cbn [orb negb]; do 2 wp_step; by apply HQ.
Qed.
End journal_programs.
