(* ===== verification/WorkerUpdateSafe.v ===== *)
(** * The worker updater: the invariant

    The invariant of the worker updater and its preservation by every program of
    WorkerUpdate.v, wherever the process dies. *)
From S2P Require Import Prelude.
From S2P Require Import TransferCodec.
From S2P Require Import UpdateGate.
From S2P Require Import UpdateFlow.
From S2P Require Import WorkerRelease.
From S2P Require Import Effects.
From S2P Require Import WorkerUpdate.
From S2P Require Import WorkerUpdateInv.
Set Warnings "-clear-no-such-hyp".

(** ** The invariant *)

(** Stages in which nothing has been promoted, and in which something may have been. *)
Definition quiet (s : Stage) : bool :=
  match s with
  | StageIdle | StageChecking | StageStaged | StageCandidateStarted | StageCandidateValidating
  | StageCandidateReady | StageDraining => true
  | _ => false
  end.
Definition cut (s : Stage) : bool :=
  match s with StageCutover | StageMonitoring => true | _ => false end.

(** A journal that is written is of the active version. *)
Definition good (a : Release) (j : Journal) : Prop :=
  jSchema j = SchemaV1 -> ActiveVersion j = rVersion a.

Definition fileOk (i : Image) (w : World) (j : Journal) : Prop :=
  (quiet (jStage j) = true -> settled i w)
  /\ (cut (jStage j) = true -> ActiveVersion j = rVersion (active w) ->
      is_Some (staged w) \/ promoted i w)
  /\ (ActiveVersion j <> rVersion (active w) -> inPlace i w).

(** An activation that the journal on disk announced: of the candidate of a cutover, whose
    verified image is the current runtime, or of the version a rollback restores. *)
Definition recorded (a : Activation) : Prop :=
  match aFile a with
  | Stored j =>
      jStage j = StageCutover /\ jWorkerID j = aWorker a /\ jWorkerEpoch j = aEpoch a
        /\ (exists b, aBinary a = Some b
              /\ imageMatches b (CandidateLength j) (CandidateDigest j) = true)
      \/ jStage j = StageRollback /\ aWorker a = workerID (ActiveVersion j)
  | _ => False
  end.

Record Inv (i : Image) (w : World) : Prop := {
  inv_match : imageMatches i (rLength (active w)) (rSHA256 (active w)) = true;
  inv_safe : safe i w;
  inv_absent : file w = Absent -> settled i w;
  inv_file : forall j, file w = Stored j -> fileOk i w j;
  inv_log : Forall recorded (log w) }.

Definition InvE (w : World) : Prop := exists i, Inv i w.
Lemma Inv_E i w : Inv i w -> InvE w.
Proof. by exists i. Qed.
#[export] Hint Resolve Inv_E : upd.

(** Only the file changed. *)
Record onlyFile (w w' : World) : Prop := {
  of_binary : binary w' = binary w; of_rollback : rollback w' = rollback w;
  of_staged : staged w' = staged w; of_fence : fence w' = fence w;
  of_active : active w' = active w; of_log : log w' = log w }.
Lemma onlyFile_refl w : onlyFile w w.
Proof. done. Qed.
Lemma onlyFile_trans a b c : onlyFile a b -> onlyFile b c -> onlyFile a c.
Proof. intros [] []. split; congruence. Qed.
Lemma onlyFile_with j w : onlyFile w (withFile j w).
Proof. done. Qed.
#[export] Hint Resolve onlyFile_refl onlyFile_with : upd.

Lemma settled_only i w w' : onlyFile w w' -> settled i w -> settled i w'.
Proof. unfold settled, inPlace, between. by intros [-> -> _ _ _ _]. Qed.
Lemma held_only i w w' : onlyFile w w' -> held i w -> held i w'.
Proof. unfold held, safe, settled, promoted, inPlace, between. by intros [-> -> -> _ _ _]. Qed.

Lemma Inv_with i j w : Inv i w -> fileOk i w j -> Inv i (withFile j w).
Proof. intros [Hm Hs Ha Hf Hl] Hj. split; try done. simpl. by intros j' [= <-]. Qed.

(** The slots changed, and what the file says still holds. *)
Lemma Inv_framed i w w' : Inv i w -> framed w w' -> safe i w' -> (settled i w -> settled i w') ->
  (is_Some (staged w) \/ promoted i w -> is_Some (staged w') \/ promoted i w') ->
  (inPlace i w -> inPlace i w') -> Inv i w'.
Proof.
  intros [Hm Hs Ha Hf Hl] [Ff Fe Fa Flg] Hs' Hset Hheld Hip. split.
  - by rewrite Fa.
  - done.
  - rewrite Ff. auto.
  - intros j. rewrite Ff. intros Hj. destruct (Hf j Hj) as (H1 & H2 & H3).
    unfold fileOk. rewrite Fa. auto.
  - by rewrite Flg.
Qed.

(** A file whose stage constrains nothing. *)
Lemma Inv_free i w w' : Inv i w -> framed w w' -> safe i w' ->
  (forall j, file w = Stored j -> quiet (jStage j) = false /\ cut (jStage j) = false
     /\ ActiveVersion j = rVersion (active w)) -> file w <> Absent -> Inv i w'.
Proof.
  intros [Hm Hs Ha Hf Hl] [Ff Fe Fa Flg] Hs' Hj Hn. split; try by rewrite ?Fa, ?Flg, ?Ff.
  intros j. rewrite Ff. intros H. destruct (Hj j H) as (H1 & H2 & H3). unfold fileOk.
  by rewrite H1, H2, Fa.
Qed.

(** A file of the active version in a stage that lets the storage be promoted. *)
Definition loud (w : World) : Prop :=
  exists j, file w = Stored j /\ quiet (jStage j) = false /\ ActiveVersion j = rVersion (active w).

Lemma Inv_held i w w' : Inv i w -> framed w w' -> held i w' -> loud w -> Inv i w'.
Proof.
  intros [Hm Hs Ha Hf Hl] [Ff Fe Fa Flg] [Hs' Hh] (j & Hj & Hq & Hv).
  split; rewrite ?Fa, ?Flg, ?Ff; [done|done|congruence| |done].
  intros j'. rewrite Hj. intros [= <-]. unfold fileOk. by rewrite Hq, Fa.
Qed.

(** Settled slots, under a file of the active version before a cutover. *)
Lemma Inv_settled i w w' j : Inv i w -> framed w w' -> settled i w' -> file w = Stored j ->
  cut (jStage j) = false -> ActiveVersion j = rVersion (active w) -> Inv i w'.
Proof.
  intros [Hm Hs Ha Hf Hl] [Ff Fe Fa Flg] Hs' Hj Hc Hv.
  split; rewrite ?Fa, ?Flg, ?Ff; [done|by left|congruence| |done].
  intros j'. rewrite Hj. intros [= <-]. unfold fileOk. by rewrite Hc, Fa.
Qed.

Lemma Validate_schema j : Validate j = true -> jSchema j = SchemaV1.
Proof. unfold Validate. destruct (_ || _) eqn:H; [done|]. by bool_hyps. Qed.

Lemma good_moved a j s j' : good a j -> moved j s j' -> good a j'.
Proof. intros Hg (_ & _ & t & h & ->). done. Qed.
Lemma good_zero a : good a zeroJournal.
Proof. done. Qed.
Lemma good_version a j : ActiveVersion j = rVersion a -> good a j.
Proof. by intros H _. Qed.
#[export] Hint Resolve good_zero good_version good_moved : upd.

(** What a stage requires of the storage. *)
Lemma fileOk_free i w j : good (active w) j -> Validate j = true -> quiet (jStage j) = false ->
  cut (jStage j) = false -> fileOk i w j.
Proof.
  intros Hg Hv Hq Hc. unfold fileOk. rewrite Hq, Hc. split_and!; try done.
  intros []. by apply Hg, Validate_schema.
Qed.
Lemma fileOk_quiet i w j : good (active w) j -> Validate j = true -> settled i w ->
  cut (jStage j) = false -> fileOk i w j.
Proof.
  intros Hg Hv Hs Hc. unfold fileOk. rewrite Hc. split_and!; try done.
  intros []. by apply Hg, Validate_schema.
Qed.
Lemma fileOk_cut i w j : good (active w) j -> Validate j = true -> held i w ->
  quiet (jStage j) = false -> fileOk i w j.
Proof.
  intros Hg Hv [_ Hh] Hq. unfold fileOk. rewrite Hq. split_and!; try done.
  intros []. by apply Hg, Validate_schema.
Qed.

Lemma moved_stage j s j' : moved j s j' -> jStage j' = s.
Proof. by intros (_ & _ & t & h & ->). Qed.

(** A joined error that is not nil. *)
Ltac nonempty :=
  let e := fresh in let H := fresh in
  intros e H; apply (f_equal length) in H; rewrite !length_app in H; simpl in H; lia.

Section programs.
Context (GOOS GOARCH : gostring) (uriOk : gostring -> bool) (config : Config).
Context (E : error -> World -> Prop).

Lemma wp_write_cases i j Q w : Inv i w -> (Validate j = true -> fileOk i w j) ->
  (forall e w', Inv i w' -> w' = w \/ w' = withFile j w /\ Validate j = true ->
     (e = [] -> w' = withFile j w /\ Validate j = true) -> Q e w') ->
  wp (write j) Q E InvE w.
Proof.
  intros Hi Hf HQ. apply wp_write; [by eapply Inv_E|by intros e He; apply HQ; [|left|]|].
  intros Hv. assert (Inv i (withFile j w)) by (apply Inv_with; auto).
  split; [by apply HQ; [|right|]|]. intros e He. by apply HQ; [|right|].
Qed.

Lemma wp_write_inv i j Q w : Inv i w -> (Validate j = true -> fileOk i w j) ->
  (forall e w', Inv i w' -> onlyFile w w' -> (e = [] -> w' = withFile j w /\ Validate j = true) ->
     Q e w') ->
  wp (write j) Q E InvE w.
Proof.
  intros Hi Hf HQ. apply (wp_write_cases i); [done..|].
  intros e w' Hi' Hw He. apply HQ; [done| |done]. by destruct Hw as [->|[-> _]].
Qed.

Lemma block_spec i j Q w : Inv i w -> good (active w) j ->
  (forall e w', Inv i w' -> onlyFile w w' -> Q e w') -> wp (block config j) Q E InvE w.
Proof.
  intros Hi Hg HQ. unfold block. wp_step.
  apply wp_transition; [by eapply Inv_E|by wp_step; apply HQ|]. intros j' Hm.
  apply (wp_write_inv i); [done| |auto].
  intros Hv. apply fileOk_free; [by eapply good_moved|done|by rewrite (moved_stage _ _ _ Hm)..].
Qed.

Lemma removeStaged_cases i Q w : Inv i w -> settled i w \/ (forall j, file w = Stored j ->
    quiet (jStage j) = false /\ cut (jStage j) = false /\ ActiveVersion j = rVersion (active w))
    /\ file w <> Absent ->
  (forall j, file w = Stored j -> cut (jStage j) = false) ->
  (forall e w', Inv i w' -> w' = w \/ w' = setSlot BinaryStaged None w ->
     (e = [] -> staged w' = None) -> Q e w') ->
  wp removeStaged Q E InvE w.
Proof using Type.
  intros Hi Hc Hcut HQ. pose proof (inv_safe _ _ Hi) as Hs.
  assert (Hi' : Inv i (setSlot BinaryStaged None w)).
  { assert (safe i (setSlot BinaryStaged None w)) by (clear -Hs; slots).
    destruct Hc as [Hc|[Hc Hab]]; [|by apply (Inv_free i w)].
    destruct Hi as [Hm Hs0 Ha Hfl Hl]. split; try done.
    intros j Hj. destruct (Hfl j Hj) as (H1 & H2 & H3). unfold fileOk. simpl.
    rewrite (Hcut j Hj). split_and!; [auto|done|auto]. }
  unfold removeStaged. apply wp_remove; [by eapply Inv_E|by eapply Inv_E|..].
  - intros e He. by apply HQ; [|left|].
  - intros Hn. by apply HQ; [|left|].
  - by apply HQ; [|right|].
  - by apply HQ; [|right|].
Qed.

Lemma removeStaged_inv i Q w : Inv i w -> settled i w \/ (forall j, file w = Stored j ->
    quiet (jStage j) = false /\ cut (jStage j) = false /\ ActiveVersion j = rVersion (active w))
    /\ file w <> Absent ->
  (forall j, file w = Stored j -> cut (jStage j) = false) ->
  (forall e w', Inv i w' -> framed w w' -> (settled i w -> settled i w') -> Q e w') ->
  wp removeStaged Q E InvE w.
Proof using Type.
  intros Hi Hc Hcut HQ. apply (removeStaged_cases i); [done..|].
  intros e w' Hi' Hw _. by apply HQ; [|destruct Hw as [->| ->]..].
Qed.

Definition quietFile (w : World) : Prop := exists j, file w = Stored j /\ quiet (jStage j) = true.


Lemma wp_validated_Rollback i st r Q w : Inv i w -> (forall e, e <> [] -> Q e w) ->
  (CanaryPath (Previous r) <> [] -> Q [] w) ->
  wp (validated GOOS GOARCH st r (gate_Rollback GOOS GOARCH r)) Q E InvE w.
Proof.
  intros Hi HF HS. unfold validated.
  destruct (gateRequest_validate _ _ _ _); [|wp_step; by apply HF].
  destruct (decide (CanaryPath (Previous r) = [])) as [Hp|Hp].
  - by apply wp_gate_Rollback_bare; [|eapply Inv_E|].
  - apply wp_ro; [auto with readonly..|by eapply Inv_E|].
    intros [|k e]; [by apply HS|by apply HF].
Qed.

Lemma stopped_spec i (b : bool) Q w : Inv i w -> Q tt w ->
  wp (if b then stopWorker else mret tt) Q E InvE w.
Proof.
  intros Hi HQ. destruct b; [|by wp_step].
  apply wp_ro; [auto with readonly..|by eapply Inv_E|by intros []].
Qed.

Lemma restoreGate_spec i j failed Q w : Inv i w -> 
  (forall e, e <> [] -> Q e w) -> (CanaryPath failed <> [] -> Q [] w) ->
  wp (restoreGate GOOS GOARCH j failed) Q E InvE w.
Proof.
  intros Hi HF HS. unfold restoreGate. wp_step.
  apply wp_hostdActive; [by eapply Inv_E|..].
  - do 2 wp_step. destruct (bool_decide _); [|wp_step; by apply HF].
    by apply (wp_validated_Rollback i).
  - do 3 wp_step. by apply HF.
Qed.

(** The candidate is discarded only where nothing has been promoted. *)
Lemma discardDrained_spec i j failed b cause Q w :
  Inv i w -> settled i w ->
  (forall j, file w = Stored j -> cut (jStage j) = false) ->
  (forall e w', Inv i w' -> active w' = active w -> (e = [] -> quietFile w') -> Q e w') ->
  wp (discardDrained GOOS GOARCH config j failed b cause) Q E InvE w.
Proof.
  intros Hi Hst Hcut HQ. unfold discardDrained. wp_step. apply (stopped_spec i); [done|].
  wp_step. apply (removeStaged_inv i); [done|by left|done|].
  intros e w1 Hi1 Hf1 Hs1. destruct e as [|k e].
  2: { wp_step. apply HQ; [done|apply Hf1|]. by destruct cause. }
  wp_step. apply wp_idleJournal; [by eapply Inv_E|]. intros idle Hid Hav _ _ _.
  wp_step. apply (wp_write_inv i); [done| |].
  { intros Hv. apply fileOk_quiet; [by apply good_version|done|auto|by rewrite Hid]. }
  intros e w2 Hi2 Ho2 He2. destruct e as [|k e]; wp_step.
  - apply HQ; [done|by rewrite (of_active _ _ Ho2), (framed_active _ _ Hf1)|].
    intros _. destruct He2 as [-> _]; [done|]. exists idle. by rewrite Hid.
  - apply HQ; [done|by rewrite (of_active _ _ Ho2), (framed_active _ _ Hf1)|]. by destruct cause.
Qed.

(** After a drain: a failure leaves a blocked journal or the one of before. *)
Lemma restoreAfterDrain_spec i j failed b cause Q w :
  Inv i w -> good (active w) j -> 
  settled i w \/ Is cause errStorageRestoreFailed = true \/ CanaryPath failed = [] ->
  (forall e w', Inv i w' -> active w' = active w ->
     (e = [] -> CanaryPath failed <> [] /\ quietFile w') -> Q e w') ->
  wp (restoreAfterDrain GOOS GOARCH config j failed b cause) Q E InvE w.
Proof.
  intros Hi Hg Hst HQ. unfold restoreAfterDrain. wp_step.
  assert (Hrest : forall nextJ w1 (jerr : error), Inv i w1 -> onlyFile w w1 -> good (active w) nextJ ->
    (jerr = [] -> file w1 = Stored nextJ /\ jStage nextJ = StageRollback) ->
    wp (restoreErr ← restoreGate GOOS GOARCH j failed;
        match restoreErr with
        | _ :: _ => blockErr ← block config nextJ;
            mret (cause ++ jerr ++ restoreErr ++ blockErr ++ [ErrBlocked])
        | [] => if negb (bool_decide (jerr = [])) || Is cause errStorageRestoreFailed
            then blockErr ← block config nextJ; mret (cause ++ jerr ++ blockErr ++ [ErrBlocked])
            else discardDrained GOOS GOARCH config nextJ failed b cause
        end) Q E InvE w1).
  { intros nextJ w1 jerr Hi1 Ho1 Hg1 Hj1.
    assert (Hblock : forall k : error -> error, (forall e, k e <> []) ->
      wp (blockErr ← block config nextJ; mret (k blockErr)) Q E InvE w1).
    { intros k Hk. wp_step. apply (block_spec i); [done|by rewrite (of_active _ _ Ho1)|].
      intros e w2 Hi2 Ho2. wp_step. apply HQ; [done| |by intros ?%Hk].
      by rewrite (of_active _ _ Ho2), (of_active _ _ Ho1). }
    wp_step. apply (restoreGate_spec i); [done|..].
    - intros [|k e] He; [done|].
      apply Hblock. nonempty.
    - intros Hp. destruct (bool_decide_reflect (jerr = [])) as [->|Hne]; cbn [negb orb].
      2: { apply Hblock. nonempty. }
      destruct (Is cause errStorageRestoreFailed) eqn:His.
      { apply Hblock. nonempty. }
      destruct Hj1 as [Hf1 Hs1]; [done|].
      apply (discardDrained_spec i); [done| | |].
      + apply (settled_only i w); [done|]. by destruct Hst as [?|[?|?]].
      + intros j'. rewrite Hf1. intros [= <-]. by rewrite Hs1.
      + intros e w2 Hi2 Ha2 He2. apply HQ; [done|by rewrite Ha2, (of_active _ _ Ho1)|auto]. }
  apply wp_transition; [by eapply Inv_E|..].
  - wp_step. wp_step. by apply Hrest.
  - intros j' Hm. wp_step. apply (wp_write_inv i); [done| |].
    + intros Hv. apply fileOk_free; [by apply (good_moved _ _ _ _ Hg Hm)|done|..];
        simpl; by rewrite (moved_stage _ _ _ Hm).
    + intros e w1 Hi1 Ho1 He1. apply Hrest; [done|done|by apply (good_moved _ _ _ _ Hg Hm)|].
      intros ->. destruct He1 as [-> _]; [done|]. split; [done|]. simpl. by eapply moved_stage.
Qed.

Lemma restore_inv i Q w : Inv i w -> held i w -> loud w ->
  (forall e w', Inv i w' -> framed w w' -> held i w' -> (e = [] -> settled i w') -> Q e w') ->
  wp restoreStorage Q E InvE w.
Proof.
  intros Hi Hh Hl HQ. eapply wp_mono; [by apply (restore_spec E i)|..]; simpl.
  - intros e w' (Hf & Hh' & Hs). apply HQ; [by eapply Inv_held|done..].
  - done.
  - intros w' [Hf Hh']. exists i. by eapply Inv_held.
Qed.

Lemma promote_inv i Q w : Inv i w -> held i w -> loud w ->
  (forall e w', Inv i w' -> framed w w' -> held i w' ->
     (e = [] -> promoted i w' /\ binary w' = staged w) -> Q e w') ->
  wp promoteStorage Q E InvE w.
Proof.
  intros Hi Hh Hl HQ. eapply wp_mono; [by apply (promote_spec E i)|..]; simpl.
  - intros e w' (Hf & Hh' & Hs). apply HQ; [by eapply Inv_held|done..].
  - done.
  - intros w' [Hf Hh']. exists i. by eapply Inv_held.
Qed.

(** Only the fence and the log changed. *)
Record onlyFence (w w' : World) : Prop := {
  on_binary : binary w' = binary w; on_rollback : rollback w' = rollback w;
  on_staged : staged w' = staged w; on_file : file w' = file w; on_active : active w' = active w }.

Lemma Inv_fence i w w' : Inv i w -> onlyFence w w' -> Forall recorded (log w') -> Inv i w'.
Proof.
  intros [Hm Hs Ha Hf Hl] [Hb Hr Hst Hfl Hac] Hlog.
  split; rewrite ?Hac, ?Hfl; auto.
  - unfold safe, settled, inPlace, between, promoted. by rewrite Hb, Hr, Hst.
  - unfold settled, inPlace, between. by rewrite Hb, Hr.
  - intros j Hj. unfold fileOk, settled, inPlace, between, promoted.
    rewrite Hb, Hr, Hst, Hac. by apply Hf.
Qed.

(** An activation that the file announces. *)
Lemma worker_Activate_spec i id ready (Q : Status * error -> World -> Prop) w : Inv i w ->
  recorded (mkActivation id (Epoch ready) (file w) (binary w)) ->
  (forall x w', Inv i w' -> onlyFence w w' ->
     (x.2 = [] -> w' = activateFence id ready w) -> Q x w') ->
  wp (worker_Activate id ready) Q E InvE w.
Proof.
  intros Hi Hr HQ. unfold worker_Activate. wp_step. wp_step; [by eapply Inv_E|].
  do 3 wp_step.
  assert (Inv i (activateFence id ready w)).
  { eapply Inv_fence; [done|done|]. simpl. apply Forall_app. split; [apply Hi|by constructor]. }
  destruct (rOk _), (rDone _); simpl; by apply HQ.
Qed.

Lemma startRollbackWorker_spec i j previous Q w : Inv i w -> file w = Stored j ->
  jStage j = StageRollback -> ActiveVersion j = rVersion previous ->
  (forall e w', Inv i w' -> onlyFence w w' -> Q e w') ->
  wp (startRollbackWorker previous) Q E InvE w.
Proof.
  intros Hi Hf Hs Hv HQ. unfold startRollbackWorker, startWorker. wp_step.
  apply wp_external; [by eapply Inv_E| |by wp_step; apply HQ].
  wp_step. unfold Ready. wp_step. wp_step; [by eapply Inv_E|]. wp_step.
  destruct (rOk _); [|by wp_step; apply HQ].
  destruct (negb _); [by wp_step; apply HQ|].
  wp_step. apply (worker_Activate_spec i); [done|simpl; rewrite Hf; right; by rewrite Hv|].
  intros [st [|k e]] w' Hi' Ho _; wp_step; by apply HQ.
Qed.

Lemma held_fence i w w' : onlyFence w w' -> held i w -> held i w'.
Proof. unfold held, safe, settled, promoted, inPlace, between. by intros [-> -> -> _ _]. Qed.

Lemma check_joinIf (e more : error) : joinIf e more = [] -> e = [].
Proof. by destruct e. Qed.

End programs.

Section runs.
Context (GOOS GOARCH : gostring) (uriOk : gostring -> bool) (config : Config).

Lemma afterRestart_spec i j nextJ failed previous b cause (Q : error -> World -> Prop) w :
  Inv i w -> held i w -> file w = Stored nextJ -> jStage nextJ = StageRollback ->
  ActiveVersion nextJ = rVersion (active w) ->
  (forall e w', Inv i w' -> active w' = active w -> (e = [] -> CanaryPath failed <> []) -> Q e w') ->
  wp (afterRestart GOOS GOARCH config j nextJ failed previous b cause) (fun _ w => Q [] w) Q InvE w.
Proof.
  intros Hi Hh Hf Hs Hv HQ. unfold afterRestart. wp_step.
  apply (restore_inv Q i); [done|done|exists nextJ; by rewrite Hs|].
  intros e w1 Hi1 Hf1 _ Hset. wp_step.
  assert (Ha1 : active w1 = active w) by apply Hf1.
  assert (Hk : forall e', e' <> [] -> Q e' w1) by (intros e' He'; by apply HQ).
  wp_step; [|by apply Hk]. apply check_joinIf in H. specialize (Hset H).
  wp_step. apply wp_hostdActive; [by eapply Inv_E| |wp_step; wp_step; by try apply Hk].
  wp_step. wp_step; [|done].
  wp_step. apply (wp_validated_Rollback _ _ Q i); [done|..].
  - intros [|k e'] He'; [done|]. wp_step.
    apply (block_spec config Q i); [done|apply good_version; simpl; by rewrite Ha1|].
    intros e2 w2 Hi2 Ho2. wp_step. apply HQ; [done|by rewrite (of_active _ _ Ho2)|].
    intros H2. exfalso. revert H2. by destruct cause.
  - intros Hp. wp_step. apply (stopped_spec Q i); [done|].
    wp_step. apply wp_idleJournal; [by eapply Inv_E|]. intros idle Hid Hav _ _ _.
    wp_step. apply (wp_write_inv Q i); [done| |].
    { intros Hvd. apply fileOk_quiet; [by apply good_version|done|done|simpl; by rewrite Hid]. }
    intros e2 w2 Hi2 Ho2 _. assert (active w2 = active w) by by rewrite (of_active _ _ Ho2).
    wp_step. wp_step; [wp_step|]; by apply HQ.
Qed.

(** A rollback of a promoted candidate. *)
Lemma rollbackActive_spec E i j failed b cause (Q : error -> World -> Prop) w :
  Inv i w -> held i w -> good (active w) j ->
  (forall e w', Inv i w' -> active w' = active w -> (e = [] -> CanaryPath failed <> []) -> Q e w') ->
  wp (rollbackActive GOOS GOARCH config j failed b cause) Q E InvE w.
Proof.
  intros Hi Hh Hg HQ. unfold rollbackActive. wp_step. wp_step.
  apply wp_transition; [by eapply Inv_E|wp_step; wp_step; by try apply HQ|].
  intros j' Hm. wp_step. wp_step; [|done]. wp_step.
  set (nextJ := set_field RollbackCount _ _).
  assert (Hg' : good (active w) nextJ) by apply (good_moved _ _ _ _ Hg Hm).
  assert (Hs' : jStage nextJ = StageRollback) by (simpl; by eapply moved_stage).
  apply (wp_write_inv Q i); [done|intros Hv; apply fileOk_free; [done..| |]; by rewrite Hs'|].
  intros e w1 Hi1 Ho1 He1. wp_step.
  assert (Ha1 := of_active _ _ Ho1). assert (Hh1 := held_only _ _ _ Ho1 Hh).
  wp_step; [|by apply HQ]. destruct (He1 H0) as [-> Hv].
  assert (Hver : ActiveVersion nextJ = rVersion (active w)) by by apply Hg', Validate_schema.
  wp_step. wp_step. wp_step. apply (startRollbackWorker_spec Q i nextJ); try done.
  intros e2 w2 Hi2 Ho2. assert (Ha2 := on_active _ _ Ho2).
  destruct e2 as [|k e2].
  - apply (afterRestart_spec i); [done|by eapply held_fence|by rewrite (on_file _ _ Ho2)|done| |].
    + by rewrite Ha2.
    + intros e3 w3 Hi3 Ha3 He3. apply HQ; [done|by rewrite Ha3, Ha2|done].
  - wp_step. apply (block_spec config Q i); [done|apply good_version; simpl; by rewrite Ha2|].
    intros e3 w3 Hi3 Ho3. wp_step. apply HQ; [done|by rewrite (of_active _ _ Ho3), Ha2|].
    intros H3. exfalso. revert H3. by destruct cause.
Qed.

(** A recovered transaction is never committed: its release has no probe policy. *)
Lemma monitorRecovered_spec E i j (Q : error -> World -> Prop) w :
  Inv i w -> held i w -> good (active w) j ->
  (forall e w', Inv i w' -> active w' = active w -> e <> [] -> Q e w') ->
  wp (monitorAndCommitRecovered GOOS GOARCH uriOk config j) Q E InvE w.
Proof.
  intros Hi Hh Hg HQ. unfold monitorAndCommitRecovered. wp_step. wp_step.
  apply wp_ro; [auto with readonly..|by eapply Inv_E|]. intros [|k e].
  - wp_step. apply wp_transition; [by eapply Inv_E|wp_step; wp_step; by try apply HQ|].
    intros j' Hm. wp_step. wp_step; [|done]. wp_step.
    apply (wp_write_inv Q i); [done| |].
    { intros Hv. apply fileOk_free; [by eapply good_moved|done|by rewrite (moved_stage _ _ _ Hm)..]. }
    intros e1 w1 Hi1 Ho1 He1. assert (Ha1 := of_active _ _ Ho1). wp_step. wp_step; [|by apply HQ].
    wp_step. apply wp_commitGate_bare; [done|by eapply Inv_E|].
    intros e2 He2. wp_step. wp_step; [done|]. by apply HQ.
  - wp_step. apply (rollbackActive_spec Q i); [done..|].
    intros e1 w1 Hi1 Ha1 He1. wp_step; [|by apply HQ]. by destruct (He1 H).
Qed.

Lemma ensurePromoted_inv E i j Q w : Inv i w -> held i w -> loud w ->
  (forall e w', Inv i w' -> framed w w' -> held i w' -> Q e w') ->
  wp (ensurePromoted j) Q E InvE w.
Proof.
  intros Hi Hh Hl HQ. unfold ensurePromoted, regularMatches. do 3 wp_step.
  wp_step. wp_step; [by eapply Inv_E|]. wp_step.
  destruct (match binary w with Some _ => _ | None => _ end); [by wp_step; apply HQ|].
  apply (promote_inv E i); [done..|]. intros e w' Hi' Hf Hh' _. by apply HQ.
Qed.

Lemma held_of_file i w j : Inv i w -> file w = Stored j -> cut (jStage j) = true ->
  ActiveVersion j = rVersion (active w) -> held i w.
Proof. intros Hi Hf Hc Hv. split; [apply Hi|]. by apply (inv_file _ _ Hi j Hf). Qed.

Lemma recoverCutover_spec E i j (Q : error -> World -> Prop) w :
  Inv i w -> file w = Stored j -> jStage j = StageCutover -> ActiveVersion j = rVersion (active w) ->
  (forall e w', Inv i w' -> active w' = active w -> e <> [] -> Q e w') ->
  wp (recoverCutover GOOS GOARCH uriOk config j) Q E InvE w.
Proof.
  intros Hi Hf Hs Hv HQ.
  assert (Hh : held i w) by (eapply held_of_file; [done|done|by rewrite Hs|done]).
  assert (Hl : loud w) by (exists j; by rewrite Hs).
  unfold recoverCutover. wp_step. wp_step.
  apply wp_hostdActive; [by eapply Inv_E| |wp_step; wp_step; by try apply HQ].
  wp_step. wp_step; [|done]. destruct (matches _ _ _ _).
  - wp_step. apply (ensurePromoted_inv Q i); [done..|]. intros e w1 Hi1 Hf1 Hh1.
    assert (Ha1 := framed_active _ _ Hf1). wp_step. wp_step; [|by apply HQ].
    wp_step. apply wp_transition; [by eapply Inv_E|wp_step; wp_step; by try apply HQ|].
    intros j' Hm. wp_step. wp_step; [|done]. wp_step.
    assert (Hg' : good (active w1) j').
    { eapply good_moved; [|done]. apply good_version. simpl. by rewrite Ha1. }
    apply (wp_write_inv Q i); [done| |].
    { intros Hvd. apply fileOk_cut; [done..|]. by rewrite (moved_stage _ _ _ Hm). }
    intros e2 w2 Hi2 Ho2 _. assert (Ha2 := of_active _ _ Ho2).
    wp_step. wp_step; [|apply HQ; [done|congruence|done]].
    wp_step. apply (monitorRecovered_spec Q i); [done|by eapply held_only|by rewrite Ha2|].
    intros e3 w3 Hi3 Ha3 He3. wp_step; [done|]. apply HQ; [done|congruence|done].
  - wp_step. apply (restore_inv Q i); [done..|]. intros e w1 Hi1 Hf1 _ Hset.
    assert (Ha1 := framed_active _ _ Hf1).
    wp_step. apply (restoreAfterDrain_spec GOOS GOARCH config Q i);
      [done|apply good_version; by rewrite Ha1|by right; right|].
    intros e2 w2 Hi2 Ha2 He2. wp_step; [by destruct (He2 H0)|].
    apply HQ; [done|congruence|done].
Qed.

Lemma restoreBlocked_spec E i j (Q : error -> World -> Prop) w :
  Inv i w -> ActiveVersion j = rVersion (active w) ->
  (forall e w', Inv i w' -> active w' = active w -> e <> [] -> Q e w') ->
  wp (restoreBlockedTransaction GOOS GOARCH config j) Q E InvE w.
Proof.
  intros Hi Hv HQ. unfold restoreBlockedTransaction. wp_step. wp_step.
  apply wp_transition; [by eapply Inv_E|wp_step; wp_step; by try apply HQ|].
  intros j' Hm. wp_step. wp_step; [|done]. wp_step.
  assert (Hg' : good (active w) j') by (eapply good_moved; [by apply good_version|done]).
  apply (wp_write_inv Q i); [done| |].
  { intros Hvd. apply fileOk_free; [done..| |]; by rewrite (moved_stage _ _ _ Hm). }
  intros e w1 Hi1 Ho1 _. assert (Ha1 := of_active _ _ Ho1).
  wp_step. wp_step; [|by apply HQ]. wp_step.
  apply (restoreAfterDrain_spec GOOS GOARCH config Q i); [done|by rewrite Ha1|by right; right|].
  intros e2 w2 Hi2 Ha2 He2. wp_step; [|apply HQ; [done|congruence|done]].
  apply check_joinIf in H1. by destruct (He2 H1).
Qed.

(** A journal of a version with a digest is never of a runtime without one. *)
Lemma recoverLegacy_spec E i j (Q : error -> World -> Prop) w :
  Inv i w -> inPlace i w ->
  (forall e w', Inv i w' -> active w' = active w -> e <> [] -> Q e w') ->
  wp (recoverLegacyPromotedCandidate GOOS GOARCH uriOk config j) Q E InvE w.
Proof.
  intros Hi Hp HQ. unfold recoverLegacyPromotedCandidate. wp_step. wp_step.
  assert (Hc : forall j1 w1, Inv i w1 -> active w1 = active w ->
    wp (e ← commitGate GOOS GOARCH uriOk config j1 (releaseFromJournal GOOS GOARCH j1);
        check e ≫= fun _ =>
        e ← finishCommitted GOOS GOARCH config j1; check e) (fun _ w => Q [] w) Q InvE w1).
  { intros j1 w1 Hi1 Ha1. wp_step. apply wp_commitGate_bare; [done|by eapply Inv_E|].
    intros e He. wp_step. wp_step; [done|]. by apply HQ. }
  destruct (bool_decide _); [|wp_step; by apply Hc].
  wp_step. wp_step. wp_step. apply wp_ro; [auto with readonly..|by eapply Inv_E|]. intros e.
  wp_step. wp_step; [|by apply HQ].
  wp_step. apply wp_transition; [by eapply Inv_E|wp_step; wp_step; by try apply HQ|].
  intros j' Hm. wp_step. wp_step; [|done]. wp_step. apply (wp_write_inv Q i); [done| |].
  { intros _. unfold fileOk. by rewrite (moved_stage _ _ _ Hm). }
  intros e1 w1 Hi1 Ho1 _. assert (Ha1 := of_active _ _ Ho1).
  wp_step. wp_step; [|by apply HQ]. wp_step. by apply Hc.
Qed.

Lemma recoverOther_spec E i j (Q : error -> World -> Prop) w :
  Inv i w -> file w = Stored j -> ActiveVersion j <> rVersion (active w) ->
  (forall e w', Inv i w' -> active w' = active w -> (e = [] -> quietFile w') -> Q e w') ->
  wp (recoverOther GOOS GOARCH uriOk config j) Q E InvE w.
Proof.
  intros Hi Hf Hv HQ. assert (Hp : inPlace i w) by by apply (inv_file _ _ Hi j Hf).
  unfold recoverOther. wp_step. wp_step.
  destruct (_ && _) eqn:Hr.
  - apply andb_true_iff in Hr as [_ Hr]. wp_step.
    apply (removeStaged_inv E i); [done|by left; left| |].
    { intros j'. rewrite Hf. intros [= <-]. by destruct (jStage j). }
    intros e w1 Hi1 Hf1 Hs1. assert (Ha1 := framed_active _ _ Hf1).
    destruct e as [|k e]; [|by wp_step; apply HQ].
    wp_step. apply wp_newJournal; [by eapply Inv_E|]. intros nj Hst Hav _ _.
    apply (wp_write_inv E i); [done| |].
    { intros Hvd. apply fileOk_quiet; [by apply good_version|done|apply Hs1; by left|by rewrite Hst]. }
    intros e w2 Hi2 Ho2 He2. apply HQ; [done|by rewrite (of_active _ _ Ho2)|].
    intros He. destruct (He2 He) as [-> _]. exists nj. by rewrite Hst.
  - wp_if; [|by wp_step; apply HQ].
    apply (recoverLegacy_spec E i); [done..|]. intros e w' Hi' Ha' He'. by apply HQ.
Qed.

(** Discarding a candidate that was not promoted. *)
Lemma discard_spec E i j f q (Q : error -> World -> Prop) w :
  Inv i w -> settled i w -> (forall j, file w = Stored j -> cut (jStage j) = false) ->
  (forall e w', Inv i w' -> active w' = active w -> (e = [] -> quietFile w') -> Q e w') ->
  wp (e ← removeStaged;
      match e with
      | _ :: _ => mret e
      | [] => idle ← idleJournal GOOS GOARCH config j f q; write idle
      end) Q E InvE w.
Proof.
  intros Hi Hs Hc HQ. wp_step. apply (removeStaged_inv E i); [done|by left|done|].
  intros e w1 Hi1 Hf1 Hs1. assert (Ha1 := framed_active _ _ Hf1).
  destruct e as [|k e]; [|by wp_step; apply HQ].
  wp_step. apply wp_idleJournal; [by eapply Inv_E|]. intros idle Hst Hav _ _ _.
  apply (wp_write_inv E i); [done| |].
  { intros Hvd. apply fileOk_quiet; [by apply good_version|done|by apply Hs1|by rewrite Hst]. }
  intros e w2 Hi2 Ho2 He2. apply HQ; [done|by rewrite (of_active _ _ Ho2)|].
  intros He. destruct (He2 He) as [-> _]. exists idle. by rewrite Hst.
Qed.

Lemma recoverSame_spec E i j (Q : error -> World -> Prop) w :
  Inv i w -> file w = Stored j -> ActiveVersion j = rVersion (active w) ->
  (forall e w', Inv i w' -> active w' = active w -> (e = [] -> quietFile w') -> Q e w') ->
  wp (recoverSame GOOS GOARCH uriOk config j) Q E InvE w.
Proof.
  intros Hi Hf Hv HQ.
  assert (HQ' : forall e w', Inv i w' -> active w' = active w -> e <> [] -> Q e w') by (intros; by apply HQ).
  destruct (inv_file _ _ Hi j Hf) as (Hquiet & _ & _).
  assert (Hc : forall s, jStage j = s -> cut s = false ->
            forall j', file w = Stored j' -> cut (jStage j') = false).
  { intros s <- Hs j'. rewrite Hf. by intros [= <-]. }
  unfold recoverSame, Recovery. destruct (Validate j); cbn [negb]; [|by wp_step; apply HQ].
  destruct (jStage j) eqn:Hs; cbv iota;
    try (by wp_step; apply HQ; [..|intros _; exists j; rewrite Hs]);
    try (apply (discard_spec E i); [done|by apply Hquiet|by eapply Hc; [reflexivity|]|exact HQ]);
    try (apply (restoreBlocked_spec E i); [done|done|exact HQ']).
  - apply (restoreAfterDrain_spec GOOS GOARCH config E i); [done|by apply good_version|by right; right|].
    intros e w' Hi' Ha' He'. apply HQ; [done..|]. by intros [? _]%He'.
  - by apply (recoverCutover_spec E i).
  - apply (monitorRecovered_spec E i); [done|eapply held_of_file; [done|done|by rewrite Hs|done]| |done].
    by apply good_version.
  - wp_step. wp_step. apply wp_commitGate_bare; [done|by eapply Inv_E|].
    intros e He. wp_step. wp_step; [done|]. by apply HQ'.
  - wp_step. by apply HQ'.
Qed.

Lemma recoverLocked_spec E i (Q : error -> World -> Prop) w : Inv i w ->
  (forall e w', Inv i w' -> active w' = active w -> (e = [] -> quietFile w') -> Q e w') ->
  wp (recoverLocked GOOS GOARCH uriOk config) Q E InvE w.
Proof.
  intros Hi HQ. unfold recoverLocked, loadM. do 2 wp_step. wp_step; [by eapply Inv_E|]. do 3 wp_step.
  destruct (file w) as [| |j] eqn:Hf.
  - wp_step. apply wp_newJournal; [by eapply Inv_E|]. intros nj Hst Hav _ _.
    apply (wp_write_inv E i); [done| |].
    { intros Hvd. apply fileOk_quiet; [by apply good_version|done|by apply Hi|by rewrite Hst]. }
    intros e w2 Hi2 Ho2 He2. apply HQ; [done|by rewrite (of_active _ _ Ho2)|].
    intros He. destruct (He2 He) as [-> _]. exists nj. by rewrite Hst.
  - destruct (rOk _); cbn [Load]; wp_step; by apply HQ.
  - destruct (rOk _); [|by wp_step; apply HQ]. cbn [Load].
    destruct (Validate j); [|by wp_step; apply HQ]. wp_step. wp_step.
    destruct (bool_decide_reflect (ActiveVersion j = rVersion (active w))); cbn [negb].
    + by apply (recoverSame_spec E i).
    + by apply (recoverOther_spec E i).
Qed.
End runs.
