(* ===== verification/WorkerUpdateRun.v ===== *)
(** * The worker updater: activation

    The phases of [Activate], each with the invariant of WorkerUpdateSafe.v at every point
    where the process may die, and what a successful activation leaves. *)
From S2P Require Import Prelude.
From S2P Require Import TransferCodec.
From S2P Require Import UpdateGate.
From S2P Require Import UpdateFlow.
From S2P Require Import WorkerRelease.
From S2P Require Import Effects.
From S2P Require Import WorkerUpdate.
From S2P Require Import WorkerUpdateInv.
From S2P Require Import WorkerUpdateSafe.
Set Warnings "-clear-no-such-hyp".

(** The journal names the release as its candidate. *)
Definition names (r : Release) (j : Journal) : Prop :=
  CandidateDigest j = rSHA256 r /\ CandidateLength j = rLength r.
(** ... and the worker that was ready. *)
Definition fenced (r : Release) (ready : Status) (j : Journal) : Prop :=
  jWorkerID j = workerID (rVersion r) /\ jWorkerEpoch j = Epoch ready.

(** A verified candidate is staged and nothing is promoted. *)
Definition stagedFor (i : Image) (r : Release) (w : World) : Prop :=
  settled i w /\ exists c, staged w = Some c /\ imageMatches c (rLength r) (rSHA256 r) = true.
(** The candidate is promoted. *)
Definition promotedFor (i : Image) (r : Release) (w : World) : Prop :=
  promoted i w /\ exists c, binary w = Some c /\ imageMatches c (rLength r) (rSHA256 r) = true.

Lemma stagedFor_only i r w w' : onlyFile w w' -> stagedFor i r w -> stagedFor i r w'.
Proof.
  intros Ho [Hs (c & Hc & Hm)]. split; [by eapply settled_only|]. exists c.
  by rewrite (of_staged _ _ Ho).
Qed.
Lemma promotedFor_only i r w w' : onlyFile w w' -> promotedFor i r w -> promotedFor i r w'.
Proof. unfold promotedFor, promoted. by intros [-> -> -> _ _ _]. Qed.
Lemma stagedFor_held i r w : stagedFor i r w -> held i w.
Proof. intros [Hs (c & Hc & _)]. split; [by left|]. left. by rewrite Hc. Qed.
Lemma promotedFor_held i r w : promotedFor i r w -> held i w.
Proof. intros [Hp _]. split; by right. Qed.

Definition EI : error -> World -> Prop := fun _ => InvE.

Section activation.
Context (GOOS GOARCH : gostring) (uriOk : gostring -> bool) (config : Config).

Lemma advance_spec i j s (Q : Journal -> World -> Prop) w :
  Inv i w -> (forall j', moved j s j' -> Validate j' = true -> fileOk i w j') ->
  (forall j', Inv i (withFile j' w) -> moved j s j' -> Validate j' = true -> Q j' (withFile j' w)) ->
  wp (advance config j s) Q EI InvE w.
Proof.
  intros Hi Hf HQ. unfold advance. wp_step.
  apply wp_transition; [by eapply Inv_E|wp_step; wp_step; [done|by eapply Inv_E]|].
  intros j' Hm. wp_step. wp_step; [|done]. wp_step.
  apply (wp_write_inv EI i); [done|by apply Hf|]. intros e w' Hi' Ho He.
  wp_step. wp_step; [|by eapply Inv_E]. destruct (He H0) as [-> Hv]. wp_step. by apply HQ.
Qed.

(** From a quiet state to a staged candidate. *)
Lemma stageRelease_spec i r (Q : Journal -> World -> Prop) w : Inv i w -> settled i w ->
  (forall j w', Inv i w' -> stagedFor i r w' -> file w' = Stored j -> jStage j = StageStaged ->
     good (active w) j -> names r j -> active w' = active w -> Validate j = true -> Q j w') ->
  wp (stageRelease GOOS GOARCH config r) Q EI InvE w.
Proof.
  intros Hi Hs HQ. unfold stageRelease. wp_step.
  apply wp_newJournal; [by eapply Inv_E|]. intros j0 Hst0 Hav0 _ _. wp_step.
  assert (Hg0 : good (active w) j0) by by apply good_version.
  apply (wp_write_inv EI i); [done| |].
  { intros Hv. by apply fileOk_quiet; [..|rewrite Hst0]. }
  intros e w1 Hi1 Ho1 _. wp_step. wp_step; [|by eapply Inv_E].
  assert (Ha1 := of_active _ _ Ho1). assert (Hs1 := settled_only _ _ _ Ho1 Hs).
  wp_step. apply (advance_spec i); [done| |].
  { intros j' Hm Hv. apply fileOk_quiet; [|done..|by rewrite (moved_stage _ _ _ Hm)].
    rewrite Ha1. by eapply good_moved. }
  intros j1 Hi2 Hm1 Hv1. assert (Hg1 := good_moved _ _ _ _ Hg0 Hm1).
  assert (cut (jStage j1) = false) by by rewrite (moved_stage _ _ _ Hm1).
  assert (ActiveVersion j1 = rVersion (active w1)).
  { rewrite Ha1. by apply Hg1, Validate_schema. }
  set (w2 := withFile j1 w1) in *. wp_step.
  eapply wp_mono; [by apply (stage_spec EI i r w2)|..]; simpl.
  - intros e2 w3 (Hf3 & Hs3 & Hc3). assert (Ha3 : active w3 = active w) by by rewrite (framed_active _ _ Hf3).
    assert (Hi3 : Inv i w3) by by apply (Inv_settled i w2 w3 j1).
    destruct e2 as [|k e2].
    + apply (advance_spec i); [done| |].
      { intros j' Hm Hv. apply fileOk_quiet; [|done..|by rewrite (moved_stage _ _ _ Hm)].
        rewrite Ha3. by eapply (good_moved _ (withRelease j1 r (stagedPath config))). }
      intros j2 Hi4 Hm2 Hv2. apply HQ; try done.
      * split; [done|]. by apply Hc3.
      * by eapply moved_stage.
      * by eapply (good_moved _ (withRelease j1 r (stagedPath config))).
      * destruct Hm2 as (_ & _ & t & h & ->). done.
    + wp_step. apply (removeStaged_inv EI i); [done|by left| |].
      { intros j'. rewrite (framed_file _ _ Hf3). simpl. intros [= <-]. by rewrite (moved_stage _ _ _ Hm1). }
      intros e3 w4 Hi4 Hf4 Hs4. wp_step. apply wp_idleJournal; [by eapply Inv_E|].
      intros idle Hid Hav _ _ _. wp_step. apply (wp_write_inv EI i); [done| |].
      { intros Hv. apply fileOk_quiet; [by apply good_version|done|by apply Hs4|by rewrite Hid]. }
      intros e4 w5 Hi5 _ _. wp_step. by eapply Inv_E.
  - done.
  - intros w3 [Hf3 Hs3]. exists i. by apply (Inv_settled i w2 w3 j1).
Qed.

Lemma failBeforeCutover_spec i j b f c q w : Inv i w -> settled i w ->
  (forall j, file w = Stored j -> cut (jStage j) = false) ->
  wp (e ← failBeforeCutover GOOS GOARCH config j b f c q; fail e) (fun (_ : Journal * Status) _ => False)
    EI InvE w.
Proof.
  intros Hi Hs Hc. unfold failBeforeCutover. do 2 wp_step. apply (stopped_spec EI i); [done|].
  wp_step. apply (removeStaged_inv EI i); [done|by left|done|].
  intros e w1 Hi1 Hf1 Hs1. wp_step. apply wp_idleJournal; [by eapply Inv_E|].
  intros idle Hid Hav _ _ _. wp_step. apply (wp_write_inv EI i); [done| |].
  { intros Hv. apply fileOk_quiet; [by apply good_version|done|by apply Hs1|by rewrite Hid]. }
  intros e2 w2 Hi2 _ _. do 2 wp_step. by eapply Inv_E.
Qed.

(** The state of an activation before the cutover: the candidate is staged and the file is
    the journal [j]. *)
Record before (i : Image) (r : Release) (a : Release) (s : Stage) (j : Journal) (w : World) : Prop := {
  bf_inv : Inv i w; bf_staged : stagedFor i r w; bf_file : file w = Stored j; bf_stage : jStage j = s;
  bf_good : good a j; bf_names : names r j; bf_active : active w = a; bf_valid : Validate j = true }.

Lemma before_cut i r a s j w : before i r a s j w -> cut s = false ->
  forall j', file w = Stored j' -> cut (jStage j') = false.
Proof. intros [_ _ Hf <- _ _ _ _] Hc j'. rewrite Hf. by intros [= <-]. Qed.

Lemma before_fail i r a s j w : before i r a s j w -> cut s = false ->
  forall j0 b f c q (Q : Journal * Status -> World -> Prop),
  wp (e ← failBeforeCutover GOOS GOARCH config j0 b f c q; fail e) Q EI InvE w.
Proof.
  intros Hb Hc j0 b f c q Q. eapply wp_mono; [apply (failBeforeCutover_spec i)|done..].
  - exact (bf_inv _ _ _ _ _ _ Hb).
  - exact (proj1 (bf_staged _ _ _ _ _ _ Hb)).
  - by eapply before_cut.
Qed.

(** An advance to a stage before the cutover, the worker possibly recorded. *)
Lemma before_advance i r a s s' j j0 (Q : Journal -> World -> Prop) w :
  before i r a s j0 w -> good a j -> names r j -> quiet s' = true ->
  (forall j', before i r a s' j' (withFile j' w) -> moved j s' j' -> Q j' (withFile j' w)) ->
  wp (advance config j s') Q EI InvE w.
Proof.
  intros [Hi Hst Hf Hs _ _ Ha _] Hg Hn Hq HQ. apply (advance_spec i); [done| |].
  - intros j' Hm Hv. apply fileOk_quiet; [rewrite Ha; by eapply good_moved|done|apply Hst|].
    rewrite (moved_stage _ _ _ Hm). by destruct s'.
  - intros j' Hi' Hm Hv. apply HQ; [|done]. split; try done.
    + by eapply moved_stage.
    + by eapply good_moved.
    + by destruct Hm as (_ & _ & t & h & ->).
Qed.

Lemma validateCandidate_spec i r a j (Q : Journal * Status -> World -> Prop) w :
  before i r a StageStaged j w ->
  (forall j' ready w', before i r a StageCandidateReady j' w' -> fenced r ready j' ->
     Q (j', ready) w') ->
  wp (validateCandidate GOOS GOARCH uriOk config j r) Q EI InvE w.
Proof.
  intros Hb HQ. unfold validateCandidate. wp_step.
  apply (before_advance i r a StageStaged StageCandidateStarted j j); [done|apply Hb..|done|].
  intros j1 Hb1 _. set (w1 := withFile j1 w) in *. clearbody w1.
  assert (Hfail := before_fail _ _ _ _ _ _ Hb1 eq_refl).
  wp_step. unfold startWorker. apply wp_external; [eexists; apply Hb1| |by apply Hfail].
  wp_step. unfold Ready. wp_step. wp_step; [eexists; apply Hb1|]. wp_step.
  wp_if; [by apply Hfail|].
  match goal with H : _ || _ = false |- _ => apply orb_false_iff in H as [_ Hm] end.
  apply negb_false_iff in Hm. unfold matches in Hm. bool_hyps.
  wp_step. eapply (before_advance i r a _ StageCandidateValidating); [done|apply Hb1..|done|].
  intros j2 Hb2 Hm2. set (w2 := withFile j2 w1) in *. clearbody w2.
  assert (Hfe : fenced r (rStatus r0) j2) by (by destruct Hm2 as (_ & _ & t & h & ->)).
  wp_step. unfold gateRequest. do 4 wp_step.
  apply wp_ro; [auto 10 with readonly..|eexists; apply Hb2|]. intros [|k e].
  - wp_step. eapply (before_advance i r a _ StageCandidateReady j2); [done|apply Hb2..|done|].
    intros j3 Hb3 Hm3. wp_step. apply HQ; [done|]. by destruct Hm3 as (_ & _ & t & h & ->).
  - by apply (before_fail _ _ _ _ _ _ Hb2).
Qed.

(** Undoing the drain ends the activation. *)
Lemma undrained {A} i a j r b cause (Q : A -> World -> Prop) w : Inv i w -> active w = a -> good a j ->
  settled i w \/ Is cause errStorageRestoreFailed = true ->
  wp (e ← restoreAfterDrain GOOS GOARCH config j r b cause; fail e) Q EI InvE w.
Proof.
  intros Hi Ha Hg Hs. wp_step.
  apply (restoreAfterDrain_spec GOOS GOARCH config EI i); [done|by rewrite Ha| |].
  - destruct Hs; auto.
  - intros e w' Hi' _ _. wp_step. by eapply Inv_E.
Qed.

Lemma drainActive_spec i r a j ready (Q : Journal -> World -> Prop) w :
  before i r a StageCandidateReady j w -> fenced r ready j ->
  (forall j' w', before i r a StageCutover j' w' -> fenced r ready j' -> Q j' w') ->
  wp (drainActive GOOS GOARCH uriOk config j r ready) Q EI InvE w.
Proof.
  intros Hb Hfe HQ. unfold drainActive. wp_step.
  eapply (before_advance i r a _ StageDraining j); [done|apply Hb..|done|].
  intros j1 Hb1 Hm1. set (w1 := withFile j1 w) in *. clearbody w1.
  assert (Hfe1 : fenced r ready j1) by (by destruct Hm1 as (_ & _ & t & h & ->)).
  destruct (Hb1) as [Hi1 Hst1 Hf1 Hs1 Hg1 Hn1 Ha1 _].
  wp_step. unfold gateRequest. do 4 wp_step.
  apply wp_ro; [auto 10 with readonly..|by eapply Inv_E|]. intros [|k e].
  2: { apply (undrained i a); [done..|]. left. apply Hst1. }
  wp_step. apply wp_transition; [by eapply Inv_E|..].
  { apply (undrained i a); [done..|]. left. apply Hst1. }
  intros j2 Hm2. assert (Hg2 := good_moved _ _ _ _ Hg1 Hm2).
  wp_step. apply (wp_write_inv EI i); [done| |].
  { intros Hv. apply fileOk_cut; [by rewrite Ha1|done|by eapply stagedFor_held|].
    by rewrite (moved_stage _ _ _ Hm2). }
  intros e w2 Hi2 Ho2 He2. assert (Hst2 := stagedFor_only _ _ _ _ Ho2 Hst1).
  assert (Ha2 : active w2 = a) by by rewrite (of_active _ _ Ho2).
  destruct e as [|k e].
  - wp_step. destruct He2 as [-> Hv]; [done|]. apply HQ.
    + split; try done; [by eapply moved_stage|by destruct Hm2 as (_ & _ & t & h & ->)].
    + by destruct Hm2 as (_ & _ & t & h & ->).
  - apply (undrained i a); [done..|]. left. apply Hst2.
Qed.

Lemma undoPromotion_spec {A} i a j r cause (Q : A -> World -> Prop) w :
  Inv i w -> held i w -> loud w -> active w = a -> good a j ->
  wp (e ← undoPromotion GOOS GOARCH config j r cause; fail e) Q EI InvE w.
Proof.
  intros Hi Hh Hl Ha Hg. unfold undoPromotion. do 2 wp_step.
  apply (restore_inv EI i); [done..|]. intros e w1 Hi1 Hf1 _ Hset.
  assert (Ha1 : active w1 = a) by by rewrite (framed_active _ _ Hf1).
  eapply (restoreAfterDrain_spec GOOS GOARCH config EI i); [done|by rewrite Ha1| |].
  - destruct e; [left; by apply Hset|]. right. left. apply bool_decide_eq_true. set_solver.
  - intros e' w' Hi' _ _. wp_step. by eapply Inv_E.
Qed.

(** The state after the activation of the candidate's worker. *)
Record after (i : Image) (r a : Release) (ready : Status) (j : Journal) (w : World) : Prop := {
  af_inv : Inv i w; af_promoted : promotedFor i r w; af_stage : jStage j = StageCutover;
  af_file : file w = Stored j; af_good : good a j; af_active : active w = a;
  af_fence : fence w = mkStatus StateActive (workerID (rVersion r)) (APIVersion ready) (Epoch ready) }.

Lemma cutOver_spec i r a j ready (Q : Journal -> World -> Prop) w :
  before i r a StageCutover j w -> fenced r ready j ->
  (forall j' w', after i r a ready j' w' -> Q j' w') ->
  wp (cutOver GOOS GOARCH config j r ready) Q EI InvE w.
Proof.
  intros [Hi Hst Hf Hs Hg [Hnd Hnl] Ha Hvj] [Hfw Hfe] HQ. unfold cutOver. wp_step.
  assert (Hl : loud w).
  { exists j. rewrite Hs, Ha. split; [done|]. split; [done|]. by apply Hg, Validate_schema. }
  apply (promote_inv EI i); [done|by eapply stagedFor_held|done|].
  intros e w1 Hi1 Hf1 Hh1 Hp1. assert (Ha1 : active w1 = a) by by rewrite (framed_active _ _ Hf1).
  assert (Hl1 : loud w1).
  { destruct Hl as (j' & ? & ? & ?). exists j'. rewrite (framed_file _ _ Hf1), Ha1. by rewrite Ha in *. }
  destruct e as [|k e]; [|by apply (undoPromotion_spec i a)].
  destruct Hp1 as [Hp1 Hb1]; [done|]. destruct Hst as [_ (c & Hc & Hm)]. rewrite Hc in Hb1.
  set (j1 := j <| StagedPath := binaryPath config |>). wp_step.
  apply (wp_write_cases EI i); [done| |].
  { intros Hv. apply fileOk_cut; [by rewrite Ha1|done|done|]. simpl. by rewrite Hs. }
  intros e w2 Hi2 Hw2 He2.
  assert (Ho2 : onlyFile w1 w2) by by destruct Hw2 as [->|[-> _]].
  assert (Ha2 : active w2 = a) by by rewrite (of_active _ _ Ho2).
  destruct e as [|k e].
  2: { apply (undoPromotion_spec i a); [done|by eapply held_only| |done..].
       destruct Hw2 as [->|[-> Hv]]; [done|]. exists j1. simpl. rewrite Hs, Ha1.
       split; [done|]. split; [done|]. by apply Hg, Validate_schema. }
  destruct He2 as [-> Hv]; [done|]. wp_step.
  apply (worker_Activate_spec EI i); [done| |].
  { left. split; [exact Hs|]. split; [exact Hfw|]. split; [exact Hfe|]. exists c.
    split; [done|]. simpl. by rewrite Hnd, Hnl. }
  intros [st e2] w3 Hi3 Ho3 He3. wp_step. wp_step; [|by eapply Inv_E].
  wp_step. wp_step; [|by eapply Inv_E]. wp_step. apply HQ.
  simpl in He3. rewrite He3 in * by done. split; try done.
  split; [|by exists c]. destruct Hp1 as (? & ? & ?). split_and!; done.
Qed.

(** What a successful update leaves: the release is active, its verified image is the current
    runtime, the one before is kept for a rollback, nothing is staged, the journal is idle and
    of the release, and hostd's active worker is that of the release. *)
Record updatedTo (i : Image) (r : Release) (w : World) : Prop := {
  up_active : active w = r;
  up_binary : exists c, binary w = Some c /\ imageMatches c (rLength r) (rSHA256 r) = true;
  up_rollback : rollback w = Some i;
  up_staged : staged w = None;
  up_file : exists j, file w = Stored j /\ Validate j = true /\ jStage j = StageIdle
              /\ ActiveVersion j = rVersion r /\ LastFailure j = FailureNone;
  up_fence : State (fence w) = StateActive /\ WorkerID (fence w) = workerID (rVersion r) }.

Lemma finishCommitted_spec i c r j (Q : error -> World -> Prop) w :
  Inv c w -> binary w = Some c -> rollback w = Some i -> active w = r ->
  (forall j, file w = Stored j -> cut (jStage j) = false) ->
  State (fence w) = StateActive -> WorkerID (fence w) = workerID (rVersion r) ->
  (forall e w', InvE w' -> (e = [] -> updatedTo i r w') -> Q e w') ->
  wp (finishCommitted GOOS GOARCH config j) Q EI InvE w.
Proof.
  intros Hi Hb Hr Ha Hcut Hfs Hfw HQ. unfold finishCommitted. wp_step. wp_step.
  apply (removeStaged_cases Q c); [done|by left; left|done|].
  intros e w1 Hi1 Hw1 Hst1. wp_step. wp_step; [|by apply HQ; [eapply Inv_E|]].
  specialize (Hst1 H). assert (inPlace c w1) by by destruct Hw1 as [->| ->].
  wp_step. apply wp_idleJournal; [by eapply Inv_E|]. intros idle Hid Hav _ Hlf _.
  wp_step. apply (wp_write_inv Q c); [done| |].
  { intros Hv. apply fileOk_quiet; [by apply good_version|done|by left|by rewrite Hid]. }
  intros e2 w2 Hi2 Ho2 He2. wp_step; [|by apply HQ; [eapply Inv_E|]].
  apply HQ; [by eapply Inv_E|]. intros _. destruct (He2 H1) as [-> Hv].
  assert (active w1 = r /\ rollback w1 = Some i /\ fence w1 = fence w) as (Ha1 & Hr1 & Hf1)
    by by destruct Hw1 as [->| ->].
  split; simpl; try done.
  - exists c. split; [done|]. rewrite <- Ha1. apply Hi1.
  - exists idle. by rewrite Hav, Ha1.
  - by rewrite Hf1.
Qed.

Lemma watchAndCommit_spec i r a ready j (Q : Result * error -> World -> Prop) w :
  after i r a ready j w ->
  (forall res e w', InvE w' -> Updated res = true -> (e = [] -> updatedTo i r w') -> Q (res, e) w') ->
  wp (watchAndCommit GOOS GOARCH uriOk config j r) Q EI InvE w.
Proof.
  intros [Hi Hp Hs Hf Hg Ha Hfe] HQ. unfold watchAndCommit. wp_step.
  apply wp_transition; [by eapply Inv_E|wp_step; wp_step; [done|by eapply Inv_E]|].
  intros j1 Hm1. assert (Hg1 := good_moved _ _ _ _ Hg Hm1). wp_step. wp_step; [|done].
  unfold nowM. do 2 wp_step. wp_step; [by eapply Inv_E|]. wp_step. wp_step.
  set (j2 := set_field HealthDeadline _ _).
  assert (Hg2 : good a j2) by exact Hg1.
  apply (wp_write_inv EI i); [done| |].
  { intros Hv. apply fileOk_cut; [by rewrite Ha|done|by eapply promotedFor_held|].
    simpl. by rewrite (moved_stage _ _ _ Hm1). }
  intros e w1 Hi1 Ho1 He1. wp_step. wp_step; [|by eapply Inv_E].
  assert (Hp1 := promotedFor_only _ _ _ _ Ho1 Hp).
  assert (Ha1 : active w1 = a) by by rewrite (of_active _ _ Ho1).
  wp_step. apply wp_ro; [auto with readonly..|by eapply Inv_E|]. intros [|k em].
  2: { wp_step. apply (rollbackActive_spec GOOS GOARCH config EI i);
         [done|by eapply promotedFor_held|by rewrite Ha1|].
       intros e2 w2 Hi2 _ _. wp_step. by eapply Inv_E. }
  wp_step. apply (advance_spec i); [done| |].
  { intros j' Hm Hv. apply fileOk_free; [rewrite Ha1; by eapply good_moved|done|..];
      by rewrite (moved_stage _ _ _ Hm). }
  intros j3 Hi3 Hm3 Hv3. wp_step. apply wp_ro; [auto with readonly..|by eapply Inv_E|]. intros ec.
  wp_step. wp_step; [|by eapply Inv_E]. wp_step. unfold setActive. wp_step. wp_step.
  destruct Hp1 as [(Hr & _ & _) (c & Hc & Hmc)].
  assert (Hstg : jStage j3 = StageCommitted) by by eapply moved_stage.
  apply (finishCommitted_spec i c r); simpl; try done.
  - destruct Hi3 as [_ _ _ _ Hlog]. split; simpl; try done; [by left; left|].
    intros j' [= <-]. unfold fileOk. by rewrite Hstg.
  - intros j' [= <-]. by rewrite Hstg.
  - by rewrite (of_fence _ _ Ho1), Hfe.
  - by rewrite (of_fence _ _ Ho1), Hfe.
  - intros e2 w2 Hi2 He2. wp_step. by apply HQ.
Qed.

Lemma wp_withResult m Q E D w :
  wp m Q (fun e w => Q (mkResult (rVersion (active w)) false, e) w) D w ->
  wp (withResult m) Q E D w.
Proof.
  intros H rs. specialize (H rs). unfold withResult.
  by destruct (m w rs) as [w1 [|e rest|x rest]].
Qed.

Lemma Inv_quiet i w : Inv i w -> quietFile w -> settled i w.
Proof. intros Hi (j & Hf & Hq). by apply (inv_file _ _ Hi j Hf). Qed.

(** An activation keeps the invariant wherever it ends, and if it reports an update without
    an error the update is complete. *)
Lemma Activate_spec i r w : Inv i w ->
  wp (Activate GOOS GOARCH uriOk config r)
    (fun x w' => InvE w' /\ (Updated x.1 = true -> x.2 = [] -> updatedTo i r w')) EI InvE w.
Proof.
  intros Hi. unfold Activate. apply wp_withResult.
  eapply wp_mono with (E := EI) (D := InvE);
    [|intros a w' Ha; exact Ha|intros e w' He; split; [exact He|done]|done].
  wp_step. apply (recoverLocked_spec GOOS GOARCH uriOk config EI i); [done|].
  intros e w1 Hi1 Ha1 Hq1. wp_step. wp_step; [|by eapply Inv_E].
  assert (Hs1 : settled i w1) by (apply Inv_quiet; auto).
  wp_step. wp_step; [|by eapply Inv_E]. wp_step. wp_step.
  wp_if; [wp_step; split; [by eapply Inv_E|done]|].
  wp_step. wp_step; [|by eapply Inv_E].
  wp_step. eapply wp_readonly; [auto with readonly|by eapply Inv_E| |by intros; eapply Inv_E].
  intros [q eq]. wp_step. wp_step; [|by eapply Inv_E]. wp_step. wp_step; [|by eapply Inv_E].
  wp_step. apply (stageRelease_spec i); [done..|].
  intros j w2 Hi2 Hst Hf2 Hsg2 Hg2 Hn2 Ha2 Hv2.
  wp_step. apply (validateCandidate_spec i r (active w1)); [done|].
  intros j3 ready w3 Hb3 Hfe3. wp_step. eapply (drainActive_spec i r (active w1)); [done..|].
  intros j4 w4 Hb4 Hfe4. wp_step. eapply (cutOver_spec i r (active w1)); [done..|].
  intros j5 w5 Haf5. apply (watchAndCommit_spec i r (active w1) ready); [done|].
  intros res e6 w6 Hi6 _ He6. by split.
Qed.
End activation.
