(* ===== verification/WorkerUpdateProps.v ===== *)
(** * The worker updater: its properties

    The worker updater over its lifetime, and an update of a host that the witnesses
    replay. *)
From S2P Require Import Prelude.
From S2P Require Import TransferCodec.
From S2P Require Import TransferManifest.
From S2P Require Import UpdateGate.
From S2P Require Import UpdateFlow.
From S2P Require Import WorkerRelease.
From S2P Require Import Effects.
From S2P Require Import WorkerUpdate.
From S2P Require Import WorkerUpdateInv.
From S2P Require Import WorkerUpdateSafe.
From S2P Require Import WorkerUpdateRun.
Set Warnings "-clear-no-such-hyp".

(** ** Runs *)
Section runs.
Context (GOOS GOARCH : gostring) (uriOk : gostring -> bool) (config : Config).

(** A call of [Activate] or of [Recover], wherever it ends, a start of the process, or a
    change of hostd's worker between calls: a restart of hostd forgets it.  A promoted runtime
    does not start as the version that it replaced. *)
Inductive updateStep : World -> World -> Prop :=
| step_activate r w rs : updateStep w (Activate GOOS GOARCH uriOk config r w rs).1
| step_recover w rs : updateStep w (recoverLocked GOOS GOARCH uriOk config w rs).1
| step_start a w rs w' rest : New GOOS GOARCH a w rs = (w', Ret [] rest) ->
    (forall j, file w = Stored j -> cut (jStage j) = true -> staged w = None ->
       ActiveVersion j <> rVersion a) ->
    updateStep w w'
| step_hostd st w : updateStep w (w <| fence := st |>).

(** A host on which the active release is installed. *)
Definition installed (w : World) : Prop :=
  file w = Absent /\ log w = [] /\
  exists i, binary w = Some i /\ imageMatches i (rLength (active w)) (rSHA256 (active w)) = true.

Lemma installed_inv w : installed w -> InvE w.
Proof.
  intros (Hf & Hl & i & Hb & Hm). exists i. split; try done; [by left; left|by left| |by rewrite Hl].
  by rewrite Hf.
Qed.

Lemma wp_inv {A} (m : M A) Q w rs : wp m (fun a w' => InvE w' /\ Q a w') EI InvE w -> InvE (m w rs).1.
Proof. intros H. specialize (H rs). destruct (m w rs) as [w' [|e rest|a rest]]; simpl; [done..|apply H]. Qed.

(** What a successful [New] has checked. *)
Lemma New_ok a w rs w' rest : New GOOS GOARCH a w rs = (w', Ret [] rest) ->
  w' = w <| active := a |> /\
  exists b, binary w = Some b /\ imageMatches b (rLength a) (rSHA256 a) = true.
Proof.
  intros H.
  assert (Hw : wp (New GOOS GOARCH a)
    (fun e w' => e = [] -> w' = w <| active := a |> /\
       exists b, binary w = Some b /\ imageMatches b (rLength a) (rSHA256 a) = true)
    (fun _ _ => True) (fun _ => True) w).
  { unfold New. wp_if; [by wp_step|]. wp_step. apply wp_external; [done| |by wp_step].
    wp_step. apply wp_safe; [done|by intros _; wp_step|]. intros [b Hb]. split; [|by wp_step].
    wp_step. unfold regularMatches. do 2 wp_step. rewrite Hb. wp_step. wp_step; [done|].
    wp_step. wp_step.
    destruct (_ && _) eqn:Hm; apply wp_external; try done; wp_step; try done.
    unfold setActive. wp_step. wp_step. intros _. apply andb_true_iff in Hm as [_ Hm]. split; [done|]. by exists b. }
  specialize (Hw rs). rewrite H in Hw. by apply Hw.
Qed.

Lemma updateStep_inv w w' : updateStep w w' -> InvE w -> InvE w'.
Proof.
  intros [r w0 rs|w0 rs|a w0 rs w1 rest H Hp|st w0] [i Hi].
  - eapply wp_inv. by apply Activate_spec.
  - eapply (wp_inv _ (fun _ _ => True)). apply (recoverLocked_spec _ _ _ _ EI i); [done|].
    intros e w1 Hi' _ _. split; [by eapply Inv_E|done].
  - apply New_ok in H as [-> (b & Hb & Hm)]. exists b. split; simpl; try done; [by left; left|by left| |apply Hi].
    intros j Hj. unfold fileOk. simpl. split; [by left|]. split; [|done].
    intros Hc Hv. left. destruct (staged w0) eqn:Hs; [done|]. by destruct (Hp j Hj Hc eq_refl).
  - exists i. eapply Inv_fence; [done|by split|apply Hi].
Qed.

Lemma updateRun_inv w w' : rtc updateStep w w' -> InvE w -> InvE w'.
Proof. induction 1; [done|]. eauto using updateStep_inv. Qed.

(** ** Recoveries that cannot succeed *)
Lemma recover_refused i j w : Inv i w -> file w = Stored j -> ActiveVersion j = rVersion (active w) ->
  jStage j ∈ [StageDraining; StageCutover; StageMonitoring; StageCommitted; StageRollback; StageBlocked] ->
  wp (recoverLocked GOOS GOARCH uriOk config) (fun e _ => e <> []) EI InvE w.
Proof.
  intros Hi Hf Hv Hs. unfold recoverLocked, loadM. do 2 wp_step. wp_step; [by eapply Inv_E|]. do 3 wp_step.
  rewrite Hf. destruct (rOk _); [|by wp_step]. cbn [Load].
  destruct (Validate j) eqn:Hvd; [|by wp_step]. wp_step. wp_step.
  rewrite bool_decide_true by done. cbn [negb]. unfold recoverSame, Recovery. rewrite Hvd. cbn [negb].
  repeat (apply elem_of_cons in Hs as [Hs|Hs]); [..|by apply elem_of_nil in Hs]; rewrite Hs.
  - apply (restoreAfterDrain_spec _ _ _ EI i); [done|by apply good_version|by right; right|].
    intros e w' _ _ He He'. by destruct (He He').
  - by apply (recoverCutover_spec _ _ _ _ EI i).
  - apply (monitorRecovered_spec _ _ _ _ EI i); [done| |by apply good_version|done].
    eapply held_of_file; [done|done|by rewrite Hs|done].
  - wp_step. wp_step. apply wp_commitGate_bare; [done|by eapply Inv_E|].
    intros e He. wp_step. by wp_step.
  - by apply (restoreBlocked_spec _ _ _ EI i).
  - by apply (restoreBlocked_spec _ _ _ EI i).
Qed.

(** Nothing changed but what the process believes active. *)
Record untouched (w w' : World) : Prop := {
  un_file : file w' = file w; un_binary : binary w' = binary w; un_rollback : rollback w' = rollback w;
  un_staged : staged w' = staged w; un_fence : fence w' = fence w }.

Lemma start_refused versionOf resolve j c r w :
  file w = Stored j -> Validate j = true -> candidateMayBeActive (jStage j) = true ->
  ActiveDigest j <> [] -> ActiveVersion j <> CandidateVersion j ->
  binary w = Some c -> versionOf c = CandidateVersion j ->
  resolve (CandidateVersion j) = Found r -> rVersion r = CandidateVersion j ->
  wp (start GOOS GOARCH uriOk config versionOf resolve) (fun e w' => untouched w w' /\ e <> [])
    (fun _ => untouched w) (untouched w) w.
Proof.
  intros Hf Hv Hs Hd Hne Hb Hvo Hr Hrv. unfold start. do 4 wp_step. rewrite Hb.
  unfold resolveUpdatedActive. rewrite Hvo, Hr. wp_step.
  assert (Hk : forall w', w' = w \/ w' = w <| active := r |> -> untouched w w')
    by by intros w' [->| ->].
  unfold New. wp_if; [wp_step; wp_step; split; [by apply Hk; left|done]|]. wp_step.
  apply wp_external; [done| |by do 2 wp_step]. wp_step.
  apply wp_safe; [done|by intros _; do 2 wp_step|]. intros _. split; [|by do 2 wp_step].
  wp_step. apply wp_readonly; [auto with readonly|done| |done]. intros b. wp_step.
  apply wp_external; [done| |by destruct b; do 2 wp_step].
  destruct b; [|by do 2 wp_step]. wp_step. unfold setActive. wp_step. wp_step.
  unfold recoverLocked, loadM. do 2 wp_step. wp_step; [done|]. do 3 wp_step.
  cbn [file]. simpl (file _). rewrite Hf. destruct (rOk _); [|by wp_step]. cbn [Load]. rewrite Hv.
  wp_step. wp_step. simpl. rewrite Hrv, bool_decide_false by done. cbn [negb].
  unfold recoverOther. wp_step. wp_step.
  replace (retiredByPackage (jStage j)) with false by by destruct (jStage j).
  rewrite andb_false_r. replace (empty (ActiveDigest j)) with false by by destruct (ActiveDigest j).
  cbn [andb]. by wp_step.
Qed.
End runs.

(** ** An update of a host *)
Module Demo.
Definition str := String.list_byte_of_string.
Definition goos : gostring := str "linux".
Definition goarch : gostring := str "amd64".
Definition uriOk (_ : gostring) : bool := true.
Definition oldImage : Image := str "old".
Definition newImage : Image := str "new".
Definition release (version : gostring) (i : Image) : Release :=
  mkRelease version (hexOf i) (len i) goos goarch (repeat x61 64) (str "/up") 200 2
    (30 * Second) (30 * Second) (2 * Minute) Second Minute 1 1 1 1.
Definition old : Release := Eval vm_compute in release (str "2024.01.01.1") oldImage.
Definition new : Release := Eval vm_compute in release (str "2024.01.02.1") newImage.
Definition config : Config :=
  mkConfig (str "/opt/current") (str "/opt/staged") (10 * Minute) Second (30 * Second) (30 * Second)
    (2 * Minute) (fun _ => str "txn-1").
Definition target : Target :=
  mkTarget Standalone (str "machine") [] [] [] [] [] 0 0 0 0 (str "fd").
Definition reply (st : WorkerState) : Reply :=
  mkReply true false 1000 (mkStatus st (workerID (rVersion new)) 1 7) newImage target 1000.
Definition host : World :=
  mkWorld Absent (Some oldImage) None None (mkStatus StateActive (workerID (rVersion old)) 1 6) old [].
Definition activate := Activate goos goarch uriOk config new.
Definition replies (n m : nat) : list Reply :=
  repeat (reply StateCandidate) n ++ repeat (reply StateActive) m.

(** The process dies in the stability window, or while the old runtime drains. *)
Definition monitoring : World := (activate host (take 52 (replies 22 80))).1.
Definition draining : World := (activate host (take 33 (replies 22 80))).1.
Definition finished : World := (activate host (replies 22 80)).1.
Definition versionOf (i : Image) : gostring :=
  if bool_decide (i = newImage) then rVersion new else rVersion old.
Definition resolve (v : gostring) : Resolved :=
  if bool_decide (v = rVersion new) then Found new else NotFound.
Definition journal (w : World) : Journal := match file w with Stored j => j | _ => zeroJournal end.
End Demo.

Lemma demo_installed : installed Demo.host.
Proof. split; [reflexivity|]. split; [reflexivity|]. exists Demo.oldImage. split; [reflexivity|]. vm_compute. reflexivity. Qed.

(** C16: The active runtime is never lost, and no worker is activated without a record.  From
    an installed host, over any sequence of activations, recoveries and starts of the
    updater and restarts of hostd between them, with any failures, downloads and answers of hostd and with the process dying
    before any of its calls: the runtime with the length and digest of the release that the
    updater holds active is in the current or in the rollback slot; and each activation of a
    worker happened while the journal on disk announced it, as the candidate of a cutover
    whose verified image was the current runtime, or as the version a rollback restores. *)
Theorem runtime_never_lost GOOS GOARCH uriOk config w0 w :
  installed w0 -> rtc (updateStep GOOS GOARCH uriOk config) w0 w ->
  (exists i, imageMatches i (rLength (active w)) (rSHA256 (active w)) = true
     /\ (binary w = Some i \/ rollback w = Some i))
  /\ Forall recorded (log w).
Proof.
  intros H0 Hr. destruct (updateRun_inv _ _ _ _ _ _ Hr (installed_inv _ H0)) as [i [Hm Hs _ _ Hl]].
  split; [|done]. exists i. split; [done|]. destruct Hs as [[H|[H _]]|(H & _ & _)]; auto.
Qed.

Lemma runtime_never_lost_witness : Forall recorded (log Demo.monitoring).
Proof.
  apply (runtime_never_lost Demo.goos Demo.goarch Demo.uriOk Demo.config Demo.host Demo.monitoring).
  - exact demo_installed.
  - apply rtc_once. exact (step_activate Demo.goos Demo.goarch Demo.uriOk Demo.config Demo.new Demo.host
      (take 52 (Demo.replies 22 80))).
Defined.

(** C17: A reported update is complete.  In every reachable state, when [Activate] reports an
    update without an error, the release is the active one, its verified image is the current
    runtime, an image of the release before is in the rollback slot, nothing is staged, the
    journal on disk is valid, idle and of the new release, and the active worker of hostd is
    that of the release. *)
Theorem reported_update_complete GOOS GOARCH uriOk config w0 w r rs w' res rest :
  installed w0 -> rtc (updateStep GOOS GOARCH uriOk config) w0 w ->
  Activate GOOS GOARCH uriOk config r w rs = (w', Ret (res, []) rest) -> Updated res = true ->
  exists i, imageMatches i (rLength (active w)) (rSHA256 (active w)) = true /\ updatedTo i r w'.
Proof.
  intros H0 Hr Ha Hu. destruct (updateRun_inv _ _ _ _ _ _ Hr (installed_inv _ H0)) as [i Hi].
  exists i. split; [apply Hi|].
  pose proof (Activate_spec GOOS GOARCH uriOk config i r w Hi rs) as Hs. rewrite Ha in Hs.
  by apply Hs.
Qed.

Lemma reported_update_complete_witness :
  exists i, imageMatches i (rLength Demo.old) (rSHA256 Demo.old) = true
    /\ updatedTo i Demo.new Demo.finished.
Proof.
  eapply (reported_update_complete Demo.goos Demo.goarch Demo.uriOk Demo.config Demo.host Demo.host
    Demo.new (Demo.replies 22 80) Demo.finished (mkResult (rVersion Demo.new) true)).
  - exact demo_installed.
  - apply rtc_refl.
  - vm_compute. reflexivity.
  - reflexivity.
Defined.



(** A start of a promoted runtime is refused.  Where the journal on disk is in the stage
    cutover, monitoring or committed and the current runtime is its candidate, which the
    signed index names, every start of the updater fails and leaves the journal, the slots
    and hostd's worker as they are: the restarted updater holds the candidate active, the
    journal is of the version before, and recovery treats that as blocked. *)
Theorem promoted_start_refused GOOS GOARCH uriOk config versionOf resolve w j c r rs :
  file w = Stored j -> Validate j = true -> candidateMayBeActive (jStage j) = true ->
  ActiveDigest j <> [] -> ActiveVersion j <> CandidateVersion j ->
  binary w = Some c -> versionOf c = CandidateVersion j ->
  resolve (CandidateVersion j) = Found r -> rVersion r = CandidateVersion j ->
  untouched w (start GOOS GOARCH uriOk config versionOf resolve w rs).1 /\
  forall rest, (start GOOS GOARCH uriOk config versionOf resolve w rs).2 <> Ret [] rest.
Proof.
  intros Hf Hv Hs Hd Hne Hb Hvo Hr Hrv.
  pose proof (start_refused GOOS GOARCH uriOk config versionOf resolve j c r w Hf Hv Hs Hd Hne Hb Hvo
    Hr Hrv rs) as H.
  destruct (start _ _ _ _ _ _ w rs) as [w' [|e rest|e rest]]; simpl; [done..|].
  destruct H as [Hu He]. split; [done|]. by intros rest' [= -> _].
Qed.

Lemma promoted_start_refused_witness :
  untouched Demo.monitoring
    (start Demo.goos Demo.goarch Demo.uriOk Demo.config Demo.versionOf Demo.resolve Demo.monitoring
       (Demo.replies 0 80)).1.
Proof.
  apply (promoted_start_refused Demo.goos Demo.goarch Demo.uriOk Demo.config Demo.versionOf
    Demo.resolve Demo.monitoring (Demo.journal Demo.monitoring) Demo.newImage Demo.new);
    vm_compute; try reflexivity; discriminate.
Defined.

(** ** Two ends of an interrupted update *)

(** The watch fails, the previous runtime cannot be started, and the journal is blocked with
    the failed candidate as the current runtime; the next start takes the candidate for a
    newer package, and adopts it. *)
Example failed_candidate_adopted :
  let ok := Demo.reply StateActive in
  let bad := mkReply false false 1000 (rStatus ok) [] Demo.target 0 in
  let blocked := (Demo.activate Demo.host
                    (take 48 (Demo.replies 22 80) ++ [bad; ok; ok; bad; ok; ok])).1 in
  let started := start Demo.goos Demo.goarch Demo.uriOk Demo.config Demo.versionOf Demo.resolve blocked
                   (Demo.replies 0 80) in
  jStage (Demo.journal blocked) = StageBlocked /\ LastFailure (Demo.journal blocked) = FailureRollback
  /\ match started.2 with Ret [] _ => True | _ => False end
  /\ active started.1 = Demo.new /\ jStage (Demo.journal started.1) = StageIdle
  /\ LastFailure (Demo.journal started.1) = FailureNone.
Proof. vm_compute. repeat split; reflexivity. Qed.

(** The process dies between the two renames of a promotion: there is no current runtime to
    start. *)
Example promotion_gap :
  let w := (Demo.activate Demo.host (take 39 (Demo.replies 22 80))).1 in
  binary w = None /\ rollback w = Some Demo.oldImage
  /\ (start Demo.goos Demo.goarch Demo.uriOk Demo.config Demo.versionOf Demo.resolve w
        (Demo.replies 0 80)).2 = Ret [ErrUnsafeStorage] (Demo.replies 0 80).
Proof. vm_compute. repeat split; reflexivity. Qed.
