(* ===== verification/WorkerFence.v ===== *)
(** * The worker fence

    Models [internal/hostruntime/hostdproto]: the controller of protocol.go, by which hostd
    grants a lease to a candidate worker, hears that it is ready, makes it the active one and
    takes its heartbeats; the fence file of state.go; a request at the socket of
    socket_unix.go; and the worker's half, candidate_unix.go.

    The mutex makes the calls of a controller sequential.  Random bytes, the clock and how the
    write of the file ends are arguments of a call.  A message is sent as JSON text, which
    keeps it; [Decode] makes pointers, and what a handler returns is a value or a pointer,
    which the server distinguishes.  A connection may lose the request or the response. *)
From S2P Require Import Prelude.
From S2P Require Import TransferCodec.
From S2P Require Import UpdateGate.
From S2P Require Import WorkerRelease.

Inductive FenceError :=
| ErrInvalidFrame | ErrIncompatible | ErrFenced | ErrNotReady | ErrEpochExhausted
| ErrLeaseGeneration | ErrRandom | ErrPersist | ErrConnection.
#[export] Instance FenceError_eq_dec : EqDecision FenceError.
Proof. solve_decision. Defined.

Definition maxAPIVersion : Z := 1024.

(** ** Leases *)

(** [base64.RawURLEncoding] *)
Definition urlChar (n : Z) : byte :=
  byte_of_Z (if n <? 26 then 65 + n else if n <? 52 then 71 + n else if n <? 62 then n - 4
             else if n =? 62 then 45 else 95).
Definition isUrlChar (b : byte) : bool :=
  isAlnum b || bool_decide (b = x2d) || bool_decide (b = x5f).
Fixpoint EncodeToString (bs : list byte) : gostring :=
  match bs with
  | a :: b :: c :: r =>
      let n := Z_of_byte a * 65536 + Z_of_byte b * 256 + Z_of_byte c in
      urlChar (n / 262144) :: urlChar (n / 4096 mod 64) :: urlChar (n / 64 mod 64)
        :: urlChar (n mod 64) :: EncodeToString r
  | [a; b] =>
      let n := Z_of_byte a * 65536 + Z_of_byte b * 256 in
      [urlChar (n / 262144); urlChar (n / 4096 mod 64); urlChar (n / 64 mod 64)]
  | [a] => let n := Z_of_byte a * 65536 in [urlChar (n / 262144); urlChar (n / 4096 mod 64)]
  | [] => []
  end.

(** [validLease]: the decoder passes over line breaks, and 43 characters are 32 bytes. *)
Definition validLease (v : gostring) : bool :=
  let r := filter (fun b => b <> x0a /\ b <> x0d) v in
  (len r =? 43) && forallb isUrlChar r.

(** [workerIDPattern] *)
Definition validWorkerID (v : gostring) : bool :=
  match v with
  | [] => false
  | b :: r => isAlnum b
              && forallb (fun b => let z := Z_of_byte b in isAlnum b || (z =? 95) || (z =? 46) || (z =? 45)) r
              && (len r <=? 127)
  end.
Definition validRange (minimum maximum : Z) : bool :=
  (0 <? minimum) && (minimum <=? maximum) && (maximum <=? maxAPIVersion).
Definition validAPIVersion (v : Z) : bool := (0 <? v) && (v <=? maxAPIVersion).

(** ** Messages *)
Record Hello := mkHello { hWorkerID : gostring; hVersion : gostring; hAPIMin : Z; hAPIMax : Z }.

(** [Welcome], [Ready], [Activate] and [Heartbeat] have the same fields. *)
Record Lease := mkLease { lWorkerID : gostring; lAPIVersion : Z; lEpoch : Z; lLease : gostring }.
#[export] Instance Lease_eq_dec : EqDecision Lease.
Proof. solve_decision. Defined.

(** [Status] with the fields that the socket adds. *)
Record HostStatus := mkHostStatus {
  worker : Status; LastHeartbeatUnixMilli : Z; WorkloadGeneration : Z; ProtectedWorkloads : Z }.
Definition emptyStatus : HostStatus := mkHostStatus (mkStatus StateEmpty [] 0 0) 0 0 0.

Inductive Code := CodeIncompatible | CodeFenced | CodeNotReady | CodeInvalid.

Inductive Body :=
| BHello (h : Hello) | BWelcome (l : Lease) | BReady (l : Lease) | BActivate (l : Lease)
| BHeartbeat (l : Lease) | BStatus (s : HostStatus) | BError (c : Code)
| BGateRequest (q : Request) | BGateResponse (t : Target).

(** A message is a struct or a pointer to one. *)
Inductive Message := Value (b : Body) | Pointer (b : Body).
Definition body (m : Message) : Body := match m with Value b | Pointer b => b end.

(** [validateLeaseMessage] and [Welcome.validate] *)
Definition validateLeaseMessage (l : Lease) : bool :=
  validWorkerID (lWorkerID l) && validAPIVersion (lAPIVersion l) && negb (lEpoch l =? 0)
  && validLease (lLease l).
Definition hello_validate (h : Hello) : bool :=
  validWorkerID (hWorkerID h) && validVersion (hVersion h) && validRange (hAPIMin h) (hAPIMax h).
Definition status_validate (s : HostStatus) : bool :=
  let w := worker s in
  match State w with
  | StateEmpty =>
      empty (WorkerID w) && (APIVersion w =? 0) && (Epoch w =? 0) && (LastHeartbeatUnixMilli s =? 0)
      && (WorkloadGeneration s =? 0) && (ProtectedWorkloads s =? 0)
  | _ =>
      validWorkerID (WorkerID w) && validAPIVersion (APIVersion w) && negb (Epoch w =? 0)
      && (0 <=? LastHeartbeatUnixMilli s)
      && negb ((0 <? ProtectedWorkloads s) && (WorkloadGeneration s =? 0))
  end.
Definition validate (b : Body) : bool :=
  match b with
  | BHello h => hello_validate h
  | BWelcome l | BReady l | BActivate l | BHeartbeat l => validateLeaseMessage l
  | BStatus s => status_validate s
  | BError _ => true
  | BGateRequest q => request_valid q
  | BGateResponse t => target_valid t
  end.

(** ** The fence file *)
Record FenceState := mkFenceState { fWorkerID : gostring; fAPIVersion : Z; fEpoch : Z }.
(** The file: absent, something that does not decode, or a record. *)
Inductive FenceFile := NoFence | BadFence | Fence (f : FenceState).

Definition LoadFenceState (f : FenceFile) : option FenceState :=
  match f with
  | NoFence => Some (mkFenceState [] 0 0)
  | BadFence => None
  | Fence f =>
      if fEpoch f =? 0 then
        if negb (empty (fWorkerID f)) || negb (fAPIVersion f =? 0) then None else Some f
      else if negb (validWorkerID (fWorkerID f)) || negb (validAPIVersion (fAPIVersion f)) then None
      else Some f
  end.

(** ** The controller *)
Record Worker := mkWorker {
  wWorkerID : gostring; wAPIVersion : Z; wEpoch : Z; wLease : gostring; wReady : bool;
  wLastHeartbeat : Z }.
#[export] Instance Worker_eta : Eta Worker :=
  fun w => mkWorker (wWorkerID w) (wAPIVersion w) (wEpoch w) (wLease w) (wReady w) (wLastHeartbeat w).
Definition noWorker : Worker := mkWorker [] 0 0 [] false zeroTime.

(** The controller, with the file that its [persist] writes. *)
Record Controller := mkController {
  apiMin : Z; apiMax : Z; cActive : Worker; cCandidate : Worker; lastEpoch : Z; fenceFile : FenceFile }.
#[export] Instance Controller_eta : Eta Controller :=
  fun c => mkController (apiMin c) (apiMax c) (cActive c) (cCandidate c) (lastEpoch c) (fenceFile c).

(** The environment of a call: the reads of the random source, the end of the write, the
    clock. *)
Record CallEnv := mkCallEnv { reads : list (option (list byte)); fenceWrite : WriteEnd; clock : Z }.

Definition NewController (lo hi initial : Z) (f : FenceFile) : option Controller :=
  if negb (validRange lo hi) then None
  else Some (mkController lo hi noWorker noWorker initial f).

Definition statusFor (w : Worker) (st : WorkerState) : HostStatus :=
  mkHostStatus (mkStatus st (wWorkerID w) (wAPIVersion w) (wEpoch w))
    (if bool_decide (st = StateActive) && negb (wLastHeartbeat w =? zeroTime)
     then wLastHeartbeat w / 1000000 else 0) 0 0.

(** [NewFenceStatePersister]: the write of an activation. *)
Definition persistFence (e : WriteEnd) (s : HostStatus) (c : Controller) : Controller * bool :=
  let w := worker s in
  if negb (bool_decide (State w = StateActive)) || negb (status_validate s) then (c, false)
  else
    let written := c <| fenceFile := Fence (mkFenceState (WorkerID w) (APIVersion w) (Epoch w)) |> in
    match e with
    | Written => (written, true)
    | WriteFailed replaced => (if replaced then written else c, false)
    end.

Definition worker_matches (w : Worker) (l : Lease) : bool :=
  negb (wEpoch w =? 0) && bool_decide (wWorkerID w = lWorkerID l) && (wAPIVersion w =? lAPIVersion l)
  && (wEpoch w =? lEpoch l) && bool_decide (wLease w = lLease l).

Definition selectVersion (hostMin hostMax workerMin workerMax : Z) : option Z :=
  let minimum := if hostMin <? workerMin then workerMin else hostMin in
  let maximum := if workerMax <? hostMax then workerMax else hostMax in
  if maximum <? minimum then None else Some maximum.

(** [newUniqueLeaseLocked]; [newLease] reads 32 bytes or fails. *)
Fixpoint newUniqueLease (tries : nat) (reads : list (option (list byte))) (c : Controller)
    : result FenceError gostring :=
  match tries with
  | O => Err ErrLeaseGeneration
  | S tries =>
      match reads with
      | Some bs :: reads =>
          if negb (len bs =? 32) then Err ErrRandom
          else if negb (bool_decide (EncodeToString bs = wLease (cActive c)))
                  && negb (bool_decide (EncodeToString bs = wLease (cCandidate c)))
          then Ok (EncodeToString bs)
          else newUniqueLease tries reads c
      | _ => Err ErrRandom
      end
  end.

Definition Negotiate (e : CallEnv) (h : Hello) (c : Controller) : Controller * result FenceError Lease :=
  if negb (hello_validate h) then (c, Err ErrInvalidFrame)
  else
    match selectVersion (apiMin c) (apiMax c) (hAPIMin h) (hAPIMax h) with
    | None => (c, Err ErrIncompatible)
    | Some version =>
        let c := if lastEpoch c <? wEpoch (cActive c) then c <| lastEpoch := wEpoch (cActive c) |> else c in
        if lastEpoch c =? maxUint64 then (c, Err ErrEpochExhausted)
        else
          match newUniqueLease 4 (reads e) c with
          | Err err => (c, Err err)
          | Ok lease =>
              let epoch := lastEpoch c +64 1 in
              ((c <| lastEpoch := epoch |>)
                 <| cCandidate := mkWorker (hWorkerID h) version epoch lease false zeroTime |>,
               Ok (mkLease (hWorkerID h) version epoch lease))
          end
    end.

Definition MarkReady (l : Lease) (c : Controller) : Controller * option FenceError :=
  if negb (validateLeaseMessage l) then (c, Some ErrInvalidFrame)
  else if negb (worker_matches (cCandidate c) l) then (c, Some ErrFenced)
  else (c <| cCandidate := (cCandidate c) <| wReady := true |> |>, None).

Definition controller_Activate (e : CallEnv) (l : Lease) (c : Controller)
    : Controller * result FenceError HostStatus :=
  if negb (validateLeaseMessage l) then (c, Err ErrInvalidFrame)
  else if negb (worker_matches (cCandidate c) l) then (c, Err ErrFenced)
  else if negb (wReady (cCandidate c)) then (c, Err ErrNotReady)
  else
    let status := statusFor (cCandidate c) StateActive in
    match persistFence (fenceWrite e) status c with
    | (c, false) => (c, Err ErrPersist)
    | (c, true) => ((c <| cActive := cCandidate c |>) <| cCandidate := noWorker |>, Ok status)
    end.

Definition AcceptHeartbeat (e : CallEnv) (l : Lease) (c : Controller) : Controller * option FenceError :=
  if negb (validateLeaseMessage l) then (c, Some ErrInvalidFrame)
  else if negb (worker_matches (cActive c) l) then (c, Some ErrFenced)
  else (c <| cActive := (cActive c) <| wLastHeartbeat := clock e |> |>, None).

Definition controller_Status (c : Controller) : HostStatus :=
  if negb (wEpoch (cActive c) =? 0) then statusFor (cActive c) StateActive
  else if negb (wEpoch (cCandidate c) =? 0) then statusFor (cCandidate c) StateCandidate
  else emptyStatus.
Definition CandidateStatus (c : Controller) : HostStatus :=
  if negb (wEpoch (cCandidate c) =? 0) then statusFor (cCandidate c) StateCandidate else emptyStatus.

(** [Handle]: the answers are structs. *)
Definition Handle (e : CallEnv) (m : Message) (c : Controller) : Controller * result FenceError Message :=
  if negb (validate (body m)) then (c, Err ErrInvalidFrame)
  else
    match body m with
    | BHello h =>
        match Negotiate e h c with
        | (c, Ok l) => (c, Ok (Value (BWelcome l)))
        | (c, Err err) => (c, Err err)
        end
    | BReady l =>
        match MarkReady l c with
        | (c, None) => (c, Ok (Value (BStatus (CandidateStatus c))))
        | (c, Some err) => (c, Err err)
        end
    | BActivate l =>
        match controller_Activate e l c with
        | (c, Ok s) => (c, Ok (Value (BStatus s)))
        | (c, Err err) => (c, Err err)
        end
    | BHeartbeat l =>
        match AcceptHeartbeat e l c with
        | (c, None) => (c, Ok (Value (BStatus (controller_Status c))))
        | (c, Some err) => (c, Err err)
        end
    | BStatus s =>
        if negb (bool_decide (State (worker s) = StateEmpty)) then (c, Err ErrInvalidFrame)
        else (c, Ok (Value (BStatus (controller_Status c))))
    | _ => (c, Err ErrInvalidFrame)
    end.

(** ** The socket *)

(** [NewServer], with a configuration and a directory that are in order. *)
Definition NewServer (lo hi : Z) (f : FenceFile) : option Controller :=
  match LoadFenceState f with
  | None => None
  | Some st => NewController lo hi (fEpoch st) f
  end.

(** A connection: its peer, the token and the frame it sends, the answer of the update gate
    where there is one, and the workloads. *)
Record Connection := mkConnection {
  authorised : bool; tokenOk : bool; frame : result FenceError Body;
  gateAnswer : option (result FenceError Target); Workloads : option (Z * Z) }.

Definition errorCode (e : FenceError) : Code :=
  match e with
  | ErrIncompatible => CodeIncompatible
  | ErrFenced => CodeFenced
  | ErrNotReady => CodeNotReady
  | _ => CodeInvalid
  end.

(** The workloads are added to a response that is a pointer. *)
Definition addWorkloads (k : Connection) (request response : Message) : Message :=
  match Workloads k, request, response with
  | Some (generation, protected), Pointer (BStatus _), Pointer (BStatus s) =>
      Pointer (BStatus (mkHostStatus (worker s) (LastHeartbeatUnixMilli s) generation protected))
  | _, _, _ => response
  end.

(** [WriteFrame]: a message that is not valid is not sent. *)
Definition WriteFrame (m : Message) : option Body := if validate (body m) then Some (body m) else None.

(** [serveOne]: what it sends before it closes. *)
Definition serveOne (e : CallEnv) (k : Connection) (c : Controller) : Controller * option Body :=
  if negb (authorised k) then (c, None)
  else if negb (tokenOk k) then (c, None)
  else
    match frame k with
    | Err err => (c, Some (BError (errorCode err)))
    | Ok b =>
        let request := Pointer b in
        let '(c, answer) :=
          match b with
          | BGateRequest _ =>
              (c, match gateAnswer k with
                  | None => Err ErrNotReady
                  | Some (Ok t) => Ok (Pointer (BGateResponse t))
                  | Some (Err err) => Err err
                  end)
          | _ => Handle e request c
          end in
        match answer with
        | Err err => (c, Some (BError (errorCode err)))
        | Ok response => (c, WriteFrame (addWorkloads k request response))
        end
    end.

Definition errorForCode (c : Code) : FenceError :=
  match c with
  | CodeIncompatible => ErrIncompatible
  | CodeFenced => ErrFenced
  | CodeNotReady => ErrNotReady
  | CodeInvalid => ErrInvalidFrame
  end.

(** An exchange: whether the request arrives and its response, the environment of the call,
    and the workloads of the server. *)
Record Exchange := mkExchange {
  sent : bool; answered : bool; env : CallEnv; xGate : option (result FenceError Target);
  xWorkloads : option (Z * Z) }.

(** [Client.Request] of an authorised client with the token. *)
Definition client_Request (x : Exchange) (b : Body) (c : Controller) : Controller * result FenceError Body :=
  if negb (validate b) then (c, Err ErrInvalidFrame)
  else if negb (sent x) then (c, Err ErrConnection)
  else
    let '(c, r) := serveOne (env x) (mkConnection true true (Ok b) (xGate x) (xWorkloads x)) c in
    (c, if negb (answered x) then Err ErrConnection
        else match r with
             | None => Err ErrConnection
             | Some (BError code) => Err (errorForCode code)
             | Some b => Ok b
             end).

Definition client_Active (x : Exchange) (c : Controller) : Controller * result FenceError HostStatus :=
  match client_Request x (BStatus emptyStatus) c with
  | (c, Ok (BStatus s)) => (c, if status_validate s then Ok s else Err ErrInvalidFrame)
  | (c, Ok _) => (c, Err ErrInvalidFrame)
  | (c, Err err) => (c, Err err)
  end.

(** ** The worker's half *)
Record CandidateHalf := mkCandidateHalf { chHello : Hello; chLease : option Lease }.

Definition NewCandidate (h : Hello) : option CandidateHalf :=
  if hello_validate h then Some (mkCandidateHalf h None) else None.

Definition candidateStatus (b : Body) (st : WorkerState) (l : Lease) : result FenceError HostStatus :=
  match b with
  | BStatus s =>
      if bool_decide (State (worker s) = st) && bool_decide (WorkerID (worker s) = lWorkerID l)
         && (APIVersion (worker s) =? lAPIVersion l) && (Epoch (worker s) =? lEpoch l)
      then Ok s else Err ErrInvalidFrame
  | _ => Err ErrInvalidFrame
  end.

(** The hello of [Candidate.Ready], where there is no lease yet. *)
Definition acquireLease (x : Exchange) (k : CandidateHalf) (c : Controller)
    : Controller * result FenceError Lease :=
  match chLease k with
  | Some l => (c, Ok l)
  | None =>
      match client_Request x (BHello (chHello k)) c with
      | (c, Err err) => (c, Err err)
      | (c, Ok (BWelcome l)) =>
          (c, if validateLeaseMessage l && bool_decide (lWorkerID l = hWorkerID (chHello k))
              then Ok l else Err ErrInvalidFrame)
      | (c, Ok _) => (c, Err ErrInvalidFrame)
      end
  end.

(** A request on the lease and the status it must answer. *)
Definition leaseRequest (x : Exchange) (m : Lease -> Body) (st : WorkerState) (l : Lease) (c : Controller)
    : Controller * result FenceError HostStatus :=
  match client_Request x (m l) c with
  | (c, Err err) => (c, Err err)
  | (c, Ok b) => (c, candidateStatus b st l)
  end.

Definition candidate_Ready (x1 x2 : Exchange) (k : CandidateHalf) (c : Controller)
    : Controller * CandidateHalf * result FenceError HostStatus :=
  match acquireLease x1 k c with
  | (c, Err err) => (c, k, Err err)
  | (c, Ok l) =>
      let '(c, r) := leaseRequest x2 BReady StateCandidate l c in
      (c, mkCandidateHalf (chHello k) (Some l), r)
  end.

Definition candidate_Activate (x1 x2 : Exchange) (k : CandidateHalf) (c : Controller)
    : Controller * result FenceError HostStatus :=
  match chLease k with
  | None => (c, Err ErrNotReady)
  | Some l =>
      match leaseRequest x1 BActivate StateActive l c with
      | (c, Err err) => (c, Err err)
      | (c, Ok _) => leaseRequest x2 BHeartbeat StateActive l c
      end
  end.

Definition candidate_Heartbeat (x : Exchange) (k : CandidateHalf) (c : Controller)
    : Controller * option FenceError :=
  match chLease k with
  | None => (c, Some ErrNotReady)
  | Some l =>
      match leaseRequest x BHeartbeat StateActive l c with
      | (c, Err err) => (c, Some err)
      | (c, Ok _) => (c, None)
      end
  end.
