(* ===== verification/WorkerFenceProps.v ===== *)
(** * The worker fence: its properties

    The history of a fence over any messages, failing writes and restarts of hostd, and the
    life of a worker against it. *)
From S2P Require Import Prelude.
From S2P Require Import TransferCodec.
From S2P Require Import UpdateGate.
From S2P Require Import UpdateFlow.
From S2P Require Import WorkerRelease.
From S2P Require Import Effects.
From S2P Require Import WorkerUpdate.
From S2P Require Import WorkerFence.
Set Warnings "-clear-no-such-hyp".

(** ** Histories *)

(** What hostd granted and accepted. *)
Inductive Event := EvGranted (l : Lease) | EvReady (l : Lease) | EvActivated (l : Lease) | EvHeartbeat (l : Lease).

Definition events (m : Message) (r : result FenceError Message) : list Event :=
  match r with
  | Err _ => []
  | Ok a =>
      match body m, body a with
      | BHello _, BWelcome l => [EvGranted l]
      | BReady l, _ => [EvReady l]
      | BActivate l, _ => [EvActivated l]
      | BHeartbeat l, _ => [EvHeartbeat l]
      | _, _ => []
      end
  end.

(** A call with any message, or a restart of hostd from the file. *)
Inductive fenceStep : Controller * list Event -> Controller * list Event -> Prop :=
| fence_handle e m c log : fenceStep (c, log) ((Handle e m c).1, log ++ events m (Handle e m c).2)
| fence_restart c c' log : NewServer (apiMin c) (apiMax c) (fenceFile c) = Some c' ->
    fenceStep (c, log) (c', log).

(** What may come after the activation of a lease. *)
Definition follows (l : Lease) (v : Event) : Prop :=
  match v with
  | EvGranted k | EvReady k | EvActivated k => lEpoch l < lEpoch k
  | EvHeartbeat k => k = l \/ lEpoch l < lEpoch k
  end.
(** What must have come before. *)
Definition precedent (past : list Event) (v : Event) : Prop :=
  match v with
  | EvGranted _ => True
  | EvReady k => EvGranted k ∈ past
  | EvActivated k => EvReady k ∈ past
  | EvHeartbeat k => EvActivated k ∈ past
  end.
Definition justified (past : list Event) (v : Event) : Prop :=
  (forall l, EvActivated l ∈ past -> follows l v) /\ precedent past v.
Definition history (log : list Event) : Prop :=
  forall past v later, log = past ++ v :: later -> justified past v.

Lemma history_nil : history [].
Proof. by intros [] v later H. Qed.

Lemma history_snoc log v : history log -> justified log v -> history (log ++ [v]).
Proof.
  intros Hh Hv past x later H. destruct later as [|y later _] using rev_ind.
  - apply app_inj_2 in H as [-> [= ->]]; done.
  - rewrite app_comm_cons, app_assoc in H. apply app_inj_2 in H as [-> _]; [|done]. by eapply Hh.
Qed.

(** ** The invariant *)
Definition leaseOf (w : Worker) : Lease := mkLease (wWorkerID w) (wAPIVersion w) (wEpoch w) (wLease w).

Lemma worker_matches_lease w l : worker_matches w l = true -> l = leaseOf w /\ wEpoch w <> 0.
Proof.
  unfold worker_matches, leaseOf. destruct l as [i a e k]. simpl. intros H. repeat (apply andb_true_iff in H as [H ?]).
  repeat match goal with H : bool_decide _ = true |- _ => apply bool_decide_eq_true in H end.
  split; [f_equal; by try lia|lia].
Qed.

Record FInv (c : Controller) (log : list Event) : Prop := {
  fi_last : 0 <= lastEpoch c <= maxUint64;
  fi_file : forall f, fenceFile c = Fence f -> 0 <= fEpoch f <= maxUint64;
  fi_candidate : wEpoch (cCandidate c) <> 0 ->
    0 < wEpoch (cCandidate c) <= lastEpoch c /\ EvGranted (leaseOf (cCandidate c)) ∈ log
    /\ (wReady (cCandidate c) = true -> EvReady (leaseOf (cCandidate c)) ∈ log)
    /\ forall l, EvActivated l ∈ log -> lEpoch l < wEpoch (cCandidate c);
  fi_active : wEpoch (cActive c) <> 0 ->
    EvActivated (leaseOf (cActive c)) ∈ log
    /\ forall l, EvActivated l ∈ log -> l = leaseOf (cActive c) \/ lEpoch l < wEpoch (cActive c);
  fi_saved : forall l, EvActivated l ∈ log -> 0 < lEpoch l <= lastEpoch c /\
    exists f, fenceFile c = Fence f /\ lEpoch l <= fEpoch f;
  fi_history : history log }.

(** An event that is no activation leaves what is recorded of them. *)
Lemma activated_snoc log v l : (forall k, v <> EvActivated k) -> EvActivated l ∈ log ++ [v] -> EvActivated l ∈ log.
Proof. intros Hv. rewrite elem_of_app, list_elem_of_singleton. intros [H|H]; [done|]. by destruct (Hv l). Qed.

Lemma active_le_last c log : FInv c log -> wEpoch (cActive c) <= lastEpoch c.
Proof.
  intros Hi. destruct (decide (wEpoch (cActive c) = 0)) as [E|E]; [destruct (fi_last _ _ Hi); lia|].
  by apply (fi_saved _ _ Hi _ (proj1 (fi_active _ _ Hi E))).
Qed.

Lemma Negotiate_inv e h c log c' l : FInv c log -> Negotiate e h c = (c', Ok l) ->
  FInv c' (log ++ [EvGranted l]).
Proof.
  intros Hi H. unfold Negotiate in H. destruct (negb (hello_validate h)); [done|].
  destruct (selectVersion _ _ _ _) as [version|]; [|done].
  pose proof (active_le_last _ _ Hi) as Hle.
  replace (lastEpoch c <? wEpoch (cActive c)) with false in H by lia. cbv zeta in H.
  destruct (lastEpoch c =? maxUint64) eqn:Hx; [done|].
  destruct (newUniqueLease _ _ _) as [lease|]; [|done]. inversion H; subst. clear H.
  pose proof (fi_last _ _ Hi) as Hl.
  rewrite (u64_id (lastEpoch c + 1)) by (unfold maxUint64, two64 in *; lia).
  assert (Hlt : forall l, EvActivated l ∈ log -> lEpoch l <= lastEpoch c)
    by (intros l Hl'; apply (fi_saved _ _ Hi _ Hl')).
  split; simpl.
  - unfold maxUint64 in *. lia.
  - apply Hi.
  - intros _. repeat split; [lia|lia| |done|].
    + apply elem_of_app. right. by apply list_elem_of_singleton.
    + intros l' Hl'. apply activated_snoc in Hl'; [|done]. specialize (Hlt _ Hl'). lia.
  - intros Ha. destruct (fi_active _ _ Hi Ha) as [H1 H2]. split; [apply elem_of_app; by left|].
    intros l' Hl'. apply activated_snoc in Hl'; [|done]. by apply H2.
  - intros l' Hl'. apply activated_snoc in Hl'; [|done].
    destruct (fi_saved _ _ Hi _ Hl') as [? ?]. split; [lia|done].
  - apply history_snoc; [apply Hi|]. split; [|done]. intros l' Hl'. simpl. specialize (Hlt _ Hl'). lia.
Qed.

Lemma Negotiate_refused e h c log c' err : FInv c log -> Negotiate e h c = (c', Err err) -> c' = c.
Proof.
  intros Hi H. pose proof (active_le_last _ _ Hi). unfold Negotiate in H.
  replace (lastEpoch c <? wEpoch (cActive c)) with false in H by lia. cbv zeta in H.
  repeat case_match; by simplify_eq.
Qed.

Lemma MarkReady_inv l c log c' : FInv c log -> MarkReady l c = (c', None) -> FInv c' (log ++ [EvReady l]).
Proof.
  intros Hi H. unfold MarkReady in H. destruct (negb (validateLeaseMessage l)); [done|].
  destruct (worker_matches _ _) eqn:Hm; [|done]. cbn [negb] in H. inversion H; subst. clear H.
  apply worker_matches_lease in Hm as [-> Hne]. destruct (fi_candidate _ _ Hi Hne) as (Hr & Hg & _ & Hlt).
  split; simpl.
  - apply Hi.
  - apply Hi.
  - intros _. split; [lia|]. split; [apply elem_of_app; by left|].
    split; [intros _; apply elem_of_app; right; by apply list_elem_of_singleton|].
    intros l Hl. apply activated_snoc in Hl; [|done]. by apply Hlt.
  - intros Ha. destruct (fi_active _ _ Hi Ha) as [H1 H2]. split; [apply elem_of_app; by left|].
    intros l' Hl'. apply activated_snoc in Hl'; [|done]. by apply H2.
  - intros l' Hl'. apply activated_snoc in Hl'; [|done]. by apply (fi_saved _ _ Hi).
  - apply history_snoc; [apply Hi|]. split; [|done]. intros l' Hl'. by apply Hlt.
Qed.

Lemma Heartbeat_inv e l c log c' : FInv c log -> AcceptHeartbeat e l c = (c', None) ->
  FInv c' (log ++ [EvHeartbeat l]).
Proof.
  intros Hi H. unfold AcceptHeartbeat in H. destruct (negb (validateLeaseMessage l)); [done|].
  destruct (worker_matches _ _) eqn:Hm; [|done]. cbn [negb] in H. inversion H; subst. clear H.
  apply worker_matches_lease in Hm as [-> Hne]. destruct (fi_active _ _ Hi Hne) as (Hg & Hlt).
  split; simpl.
  - apply Hi.
  - apply Hi.
  - intros Hc. destruct (fi_candidate _ _ Hi Hc) as (H1 & H2 & H3 & H4).
    split; [done|]. split; [apply elem_of_app; by left|].
    split; [intros Hr; apply elem_of_app; left; by apply H3|].
    intros l Hl. apply activated_snoc in Hl; [|done]. by apply H4.
  - intros Ha. split; [apply elem_of_app; by left|].
    intros l' Hl'. apply activated_snoc in Hl'; [|done]. by apply Hlt.
  - intros l' Hl'. apply activated_snoc in Hl'; [|done]. by apply (fi_saved _ _ Hi).
  - apply history_snoc; [apply Hi|]. split; [|done]. intros l' Hl'. simpl.
    destruct (Hlt _ Hl'); [left; congruence|by right].
Qed.

(** A write of the candidate's fence keeps what is known, whether it succeeded. *)
Lemma fenceWritten_inv c log : FInv c log -> wEpoch (cCandidate c) <> 0 ->
  FInv (c <| fenceFile := Fence (mkFenceState (wWorkerID (cCandidate c)) (wAPIVersion (cCandidate c))
                                   (wEpoch (cCandidate c))) |>) log.
Proof.
  intros Hi Hne. destruct (fi_candidate _ _ Hi Hne) as (Hr & _ & _ & Hlt). split; simpl; try apply Hi.
  - intros f [= <-]. simpl. pose proof (fi_last _ _ Hi). lia.
  - intros l Hl. split; [by apply (fi_saved _ _ Hi)|]. eexists. split; [done|]. simpl. specialize (Hlt _ Hl). lia.
Qed.

Lemma Activate_inv e l c log c' r : FInv c log -> controller_Activate e l c = (c', r) ->
  FInv c' (log ++ match r with Ok _ => [EvActivated l] | Err _ => [] end).
Proof.
  intros Hi H. unfold controller_Activate in H.
  destruct (negb (validateLeaseMessage l)); [by simplify_eq; rewrite app_nil_r|].
  destruct (worker_matches _ _) eqn:Hm; cbn [negb] in H; [|by simplify_eq; rewrite app_nil_r].
  destruct (wReady _) eqn:Hrd; cbn [negb] in H; [|by simplify_eq; rewrite app_nil_r].
  apply worker_matches_lease in Hm as [-> Hne]. pose proof (fenceWritten_inv _ _ Hi Hne) as Hw.
  unfold persistFence in H. cbn [worker statusFor State WorkerID APIVersion Epoch] in H.
  destruct (_ || _); [by simplify_eq; rewrite app_nil_r|].
  destruct (fenceWrite e) as [|[]]; simplify_eq; try by rewrite app_nil_r.
  destruct (fi_candidate _ _ Hi Hne) as (Hr & _ & Hrdy & Hlt).
  assert (Hcase : forall l, EvActivated l ∈ log ++ [EvActivated (leaseOf (cCandidate c))] ->
    l = leaseOf (cCandidate c) \/ lEpoch l < wEpoch (cCandidate c)).
  { intros l. rewrite elem_of_app, list_elem_of_singleton. intros [H|[= ->]]; [right; by apply Hlt|by left]. }
  split; simpl.
  - apply Hi.
  - apply Hw.
  - done.
  - intros _. split; [|done]. apply elem_of_app. right. by apply list_elem_of_singleton.
  - intros l Hl. pose proof (Hcase _ Hl) as Hc.
    apply elem_of_app in Hl as [Hl|Hl]; [by apply (fi_saved _ _ Hw)|].
    apply list_elem_of_singleton in Hl as [= ->]. simpl. split; [lia|]. eexists. split; [done|]. simpl. lia.
  - apply history_snoc; [apply Hi|]. split; [exact Hlt|]. by apply Hrdy.
Qed.

Lemma Handle_inv e m c log : FInv c log -> FInv (Handle e m c).1 (log ++ events m (Handle e m c).2).
Proof.
  intros Hi. unfold Handle, events. destruct (negb (validate (body m))); [by rewrite app_nil_r|].
  destruct (body m) as [h|l|l|l|l|s|k|q|t] eqn:Hb; try by rewrite app_nil_r.
  - destruct (Negotiate e h c) as [c' [l|err]] eqn:H; simpl.
    + by eapply Negotiate_inv.
    + rewrite app_nil_r. by rewrite (Negotiate_refused _ _ _ _ _ _ Hi H).
  - destruct (MarkReady l c) as [c' [err|]] eqn:H; simpl; [|by eapply MarkReady_inv].
    rewrite app_nil_r. unfold MarkReady in H. repeat case_match; by simplify_eq.
  - destruct (controller_Activate e l c) as [c' r] eqn:H. pose proof (Activate_inv _ _ _ _ _ _ Hi H).
    by destruct r.
  - destruct (AcceptHeartbeat e l c) as [c' [err|]] eqn:H; simpl; [|by eapply Heartbeat_inv].
    rewrite app_nil_r. unfold AcceptHeartbeat in H. repeat case_match; by simplify_eq.
  - by destruct (negb _); rewrite app_nil_r.
Qed.

(** A file whose epoch is a [uint64]. *)
Definition fileRange (f : FenceFile) : Prop := forall st, f = Fence st -> 0 <= fEpoch st <= maxUint64.

Lemma NewServer_loaded lo hi f c : NewServer lo hi f = Some c ->
  c = mkController lo hi noWorker noWorker (match f with Fence st => fEpoch st | _ => 0 end) f.
Proof. unfold NewServer, NewController, LoadFenceState. intros H. repeat case_match; by simplify_eq/=. Qed.

Lemma restart_inv lo hi c log c' : FInv c log -> NewServer lo hi (fenceFile c) = Some c' -> FInv c' log.
Proof.
  intros Hi ->%NewServer_loaded. split; simpl; try apply Hi; try done.
  - destruct (fenceFile c) eqn:Hf; try by unfold maxUint64. by apply (fi_file _ _ Hi).
  - intros l Hl. destruct (fi_saved _ _ Hi l Hl) as [[H0 _] (f & Hf & Hle)]. rewrite Hf. split; [lia|]. by exists f.
Qed.

Lemma fenceRun_inv lo hi f c0 c log : NewServer lo hi f = Some c0 -> fileRange f ->
  rtc fenceStep (c0, []) (c, log) -> FInv c log.
Proof.
  intros Hn Hf Hr.
  assert (H0 : FInv c0 []).
  { apply NewServer_loaded in Hn as ->. split; simpl; try done.
    - destruct f; try by unfold maxUint64. by apply Hf.
    - intros l Hl. by apply elem_of_nil in Hl.
    - apply history_nil. }
  enough (Hx : forall x y, rtc fenceStep x y -> FInv x.1 x.2 -> FInv y.1 y.2) by by apply (Hx _ _ Hr).
  clear. induction 1 as [|x y z Hs _ IH]; [done|]. intros Hi. apply IH.
  destruct Hs; simpl in *; [by apply Handle_inv|by eapply restart_inv].
Qed.

(** ** Leases *)
Lemma isUrlChar_urlChar n : 0 <= n < 64 -> isUrlChar (urlChar n) = true.
Proof.
  intros H. assert (Hn : n = Z.of_nat (Z.to_nat n)) by lia. rewrite Hn.
  assert (Hall : forallb (fun i => isUrlChar (urlChar (Z.of_nat i))) (seq 0 64) = true) by reflexivity.
  rewrite forallb_forall in Hall. apply Hall. apply in_seq. lia.
Qed.

Lemma EncodeToString_chars bs : forallb isUrlChar (EncodeToString bs) = true.
Proof.
  assert (Hc : forall n, 0 <= n < 16777216 ->
    isUrlChar (urlChar (n / 262144)) = true /\ isUrlChar (urlChar (n / 4096 mod 64)) = true
    /\ isUrlChar (urlChar (n / 64 mod 64)) = true /\ isUrlChar (urlChar (n mod 64)) = true).
  { intros n Hn. repeat split; apply isUrlChar_urlChar;
      [split; [apply Z.div_pos|apply Z.div_lt_upper_bound]; lia|apply Z.mod_pos_bound; lia..]. }
  induction bs as [bs IH] using (induction_ltof1 _ (@length byte)). unfold ltof in IH.
  destruct bs as [|a [|b [|c r]]]; [done|..]; cbn [EncodeToString]; cbv zeta; cbn [forallb];
    pose proof (Z_of_byte_range a); try pose proof (Z_of_byte_range b); try pose proof (Z_of_byte_range c).
  - destruct (Hc (Z_of_byte a * 65536)) as (-> & -> & _); [lia|done].
  - destruct (Hc (Z_of_byte a * 65536 + Z_of_byte b * 256)) as (-> & -> & -> & _); [lia|done].
  - destruct (Hc (Z_of_byte a * 65536 + Z_of_byte b * 256 + Z_of_byte c)) as (-> & -> & -> & ->); [lia|].
    apply IH. simpl. lia.
Qed.

Lemma EncodeToString_length bs : len (EncodeToString bs) = (4 * len bs + 2) / 3.
Proof.
  induction bs as [bs IH] using (induction_ltof1 _ (@length byte)). unfold ltof in IH.
  destruct bs as [|a [|b [|c r]]]; try reflexivity. cbn [EncodeToString]. cbv zeta. rewrite !len_cons.
  rewrite IH by (simpl; lia).
  replace (4 * (1 + (1 + (1 + len r))) + 2) with (4 * len r + 2 + 4 * 3) by lia.
  rewrite Z.div_add by lia. lia.
Qed.

Lemma filter_urlChars l : forallb isUrlChar l = true -> filter (fun b => b <> x0a /\ b <> x0d) l = l.
Proof.
  induction l as [|b l IH]; [done|]. cbn [forallb]. intros [Hb Hl]%andb_true_iff.
  rewrite filter_cons_True; [by rewrite IH|]. by split; intros ->.
Qed.

(** A lease that hostd makes is one that it accepts. *)
Lemma EncodeToString_lease bs : len bs = 32 -> validLease (EncodeToString bs) = true.
Proof.
  intros H. unfold validLease. pose proof (EncodeToString_chars bs) as Hc.
  by rewrite filter_urlChars, Hc, EncodeToString_length, H.
Qed.

(** ** The socket *)

(** What a controller answers is never a pointer, so the workloads are never added. *)
Lemma Handle_value e m c c' r : Handle e m c = (c', Ok r) -> exists b, r = Value b.
Proof. unfold Handle. intros H. repeat case_match; simplify_eq; eauto. Qed.

Theorem workloads_never_reported e k c :
  serveOne e k c = serveOne e (mkConnection (authorised k) (tokenOk k) (frame k) (gateAnswer k) None) c.
Proof.
  unfold serveOne. simpl. destruct (authorised k), (tokenOk k); try done. simpl.
  destruct (frame k) as [b|err]; [|done].
  assert (Hh : forall c' a, Handle e (Pointer b) c = (c', a) ->
    match a with Err err => (c', Some (BError (errorCode err)))
    | Ok r => (c', WriteFrame (addWorkloads k (Pointer b) r)) end
    = match a with Err err => (c', Some (BError (errorCode err)))
    | Ok r => (c', WriteFrame (addWorkloads (mkConnection (authorised k) (tokenOk k) (frame k) (gateAnswer k) None)
                                 (Pointer b) r)) end).
  { intros c' [r|err] H; [|done]. apply Handle_value in H as [b' ->]. unfold addWorkloads. simpl.
    destruct (Workloads k) as [[]|], b; done. }
  destruct b as [h|l|l|l|l|s|code|q|t];
    try (destruct (Handle _ _ c) as [c' a]; by apply Hh).
  unfold addWorkloads. simpl. destruct (gateAnswer k) as [[t|err]|], (Workloads k) as [[]|]; done.
Qed.

(** An exchange that is delivered. *)
Definition delivered (x : Exchange) : Prop := sent x = true /\ answered x = true.

Lemma client_Request_value x b c c' m : delivered x -> validate b = true -> (forall q, b <> BGateRequest q) ->
  Handle (env x) (Pointer b) c = (c', Ok (Value m)) -> validate m = true -> (forall code, m <> BError code) ->
  client_Request x b c = (c', Ok m).
Proof.
  intros [Hs Ha] Hv Hq Hh Hm He. unfold client_Request. rewrite Hv, Hs, workloads_never_reported.
  unfold serveOne. cbn [negb authorised tokenOk frame]. unfold addWorkloads, WriteFrame.
  destruct b; try (rewrite Hh, Ha; cbn [negb Workloads body]; rewrite Hm; destruct m; try done;
    by destruct (He c0)). by destruct (Hq q).
Qed.

(** ** The life of a worker *)
Definition freshLease (c : Controller) (e : CallEnv) (lease : gostring) : Prop :=
  exists bs rest, reads e = Some bs :: rest /\ len bs = 32 /\ lease = EncodeToString bs
    /\ lease <> wLease (cActive c) /\ lease <> wLease (cCandidate c).

Lemma selectVersion_valid lo hi m n v : validRange m n = true -> selectVersion lo hi m n = Some v ->
  validAPIVersion v = true.
Proof. unfold validRange, validAPIVersion, selectVersion, maxAPIVersion. intros H. repeat case_match; intros [= <-]; lia. Qed.

Lemma worker_matches_self w : wEpoch w <> 0 -> worker_matches w (leaseOf w) = true.
Proof. intros H. unfold worker_matches, leaseOf. simpl. rewrite !bool_decide_true, !Z.eqb_refl by done. lia. Qed.

(** The states a worker passes: granted, ready, active, heard. *)
Definition granted (c : Controller) (w : Worker) : Controller :=
  (c <| lastEpoch := wEpoch w |>) <| cCandidate := w |>.
Definition activated (c : Controller) (w : Worker) : Controller :=
  (((c <| lastEpoch := wEpoch w |>)
      <| fenceFile := Fence (mkFenceState (wWorkerID w) (wAPIVersion w) (wEpoch w)) |>)
     <| cActive := w |>) <| cCandidate := noWorker |>.

Definition validWorker (w : Worker) : Prop :=
  validWorkerID (wWorkerID w) = true /\ validAPIVersion (wAPIVersion w) = true /\ 0 < wEpoch w
  /\ validLease (wLease w) = true.

Lemma leaseOf_valid w : validWorker w -> validateLeaseMessage (leaseOf w) = true.
Proof. intros (H1 & H2 & H3 & H4). unfold validateLeaseMessage. simpl. rewrite H1, H2, H4. lia. Qed.

Lemma statusFor_valid w st : validWorker w -> st <> StateEmpty -> wLastHeartbeat w = zeroTime \/ 0 <= wLastHeartbeat w ->
  status_validate (statusFor w st) = true.
Proof.
  intros (H1 & H2 & H3 & H4) Hst Hh. unfold status_validate, statusFor. simpl. rewrite H1, H2.
  assert (Hb : 0 <= (if bool_decide (st = StateActive) && negb (wLastHeartbeat w =? zeroTime)
     then wLastHeartbeat w / 1000000 else 0)).
  { case_match; [|lia]. apply Z.div_pos; [|lia]. destruct Hh; lia. }
  destruct st; [done|..]; lia.
Qed.

Lemma candidateStatus_self w st : candidateStatus (BStatus (statusFor w st)) st (leaseOf w) = Ok (statusFor w st).
Proof. unfold candidateStatus, statusFor, leaseOf. simpl. by rewrite !bool_decide_true, !Z.eqb_refl by done. Qed.

Lemma hello_granted x h c v lease : delivered x -> hello_validate h = true ->
  selectVersion (apiMin c) (apiMax c) (hAPIMin h) (hAPIMax h) = Some v ->
  wEpoch (cActive c) <= lastEpoch c -> 0 <= lastEpoch c < maxUint64 -> freshLease c (env x) lease ->
  let w := mkWorker (hWorkerID h) v (lastEpoch c + 1) lease false zeroTime in
  validWorker w /\ client_Request x (BHello h) c = (granted c w, Ok (BWelcome (leaseOf w))).
Proof.
  intros Hx Hh Hv Hle Hl (bs & rest & Hr & Hlen & -> & Ha & Hc) w.
  assert (Hw : validWorker w).
  { unfold hello_validate in Hh. apply andb_true_iff in Hh as [[Hid _]%andb_true_iff Hrg].
    repeat split; [done|by eapply selectVersion_valid|simpl; lia|by apply EncodeToString_lease]. }
  split; [done|].
  apply client_Request_value; try done; [|by apply leaseOf_valid].
  unfold Handle, Negotiate. cbn [body validate]. rewrite Hh. cbn [negb]. rewrite Hv.
  replace (lastEpoch c <? wEpoch (cActive c)) with false by lia. cbv zeta.
  replace (lastEpoch c =? maxUint64) with false by lia. rewrite Hr. cbn [newUniqueLease].
  rewrite Hlen, !bool_decide_false by done. cbn [negb andb Z.eqb Pos.eqb].
  rewrite u64_id by (unfold maxUint64, two64 in *; lia). done.
Qed.

Lemma ready_heard x w c : delivered x -> validWorker w -> cCandidate c = w -> wLastHeartbeat w = zeroTime ->
  leaseRequest x BReady StateCandidate (leaseOf w) c
    = (c <| cCandidate := w <| wReady := true |> |>, Ok (statusFor w StateCandidate)).
Proof.
  intros Hx Hw Hc Hz. pose proof (leaseOf_valid _ Hw) as Hv. destruct Hw as (H1 & H2 & H3 & H4) eqn:Hw'.
  unfold leaseRequest.
  rewrite (client_Request_value x _ c (c <| cCandidate := w <| wReady := true |> |>) (BStatus (statusFor w StateCandidate)));
    [by rewrite candidateStatus_self|done..| |by apply statusFor_valid; auto|done].
  unfold Handle, MarkReady. cbn [body validate]. rewrite Hv. cbn [negb]. rewrite Hc, worker_matches_self by lia.
  cbn [negb]. unfold CandidateStatus. simpl. by replace (wEpoch w =? 0) with false by lia.
Qed.

Lemma activation_done x w c : delivered x -> validWorker w -> cCandidate c = w -> wReady w = true ->
  wLastHeartbeat w = zeroTime -> lastEpoch c = wEpoch w -> fenceWrite (env x) = Written ->
  leaseRequest x BActivate StateActive (leaseOf w) c = (activated c w, Ok (statusFor w StateActive)).
Proof.
  intros Hx Hw Hc Hr Hz Hl He. pose proof (leaseOf_valid _ Hw) as Hv.
  assert (Hs : status_validate (statusFor w StateActive) = true) by by apply statusFor_valid; auto.
  unfold leaseRequest.
  rewrite (client_Request_value x _ c (activated c w) (BStatus (statusFor w StateActive)));
    [by rewrite candidateStatus_self|done..| |done|done].
  unfold Handle, controller_Activate. cbn [body validate]. rewrite Hv. cbn [negb]. rewrite Hc.
  destruct Hw as (_ & _ & H3 & _). rewrite worker_matches_self by lia. cbn [negb]. rewrite Hr. cbn [negb].
  unfold persistFence. rewrite Hs, He. unfold activated. simpl. rewrite <- Hl, Hc. by destruct c.
Qed.

Lemma heartbeat_heard x w c : delivered x -> validWorker w -> cActive c = w -> 0 <= clock (env x) ->
  leaseRequest x BHeartbeat StateActive (leaseOf w) c
    = (c <| cActive := w <| wLastHeartbeat := clock (env x) |> |>,
       Ok (statusFor (w <| wLastHeartbeat := clock (env x) |>) StateActive)).
Proof.
  intros Hx Hw Hc Hz. pose proof (leaseOf_valid _ Hw) as Hv. set (w' := w <| wLastHeartbeat := clock (env x) |>).
  assert (Hw' : validWorker w') by done. unfold leaseRequest.
  rewrite (client_Request_value x _ c (c <| cActive := w' |>) (BStatus (statusFor w' StateActive)));
    [by rewrite (candidateStatus_self w')|done..| |by apply statusFor_valid; auto|done].
  unfold Handle, AcceptHeartbeat. cbn [body validate]. rewrite Hv. cbn [negb]. rewrite Hc.
  destruct Hw as (_ & _ & H3 & _). rewrite worker_matches_self by lia. cbn [negb]. unfold controller_Status. simpl.
  by replace (wEpoch w =? 0) with false by lia.
Qed.

(** A restarted hostd has forgotten which worker is active.  Whatever the fence file holds,
    the status it answers to a client is empty, so it confirms no worker to the recovery of an
    interrupted cutover. *)
Theorem restart_hides_fence lo hi f c x id epoch :
  NewServer lo hi f = Some c -> delivered x ->
  client_Active x c = (c, Ok emptyStatus) /\ matches (worker emptyStatus) StateActive id epoch = false.
Proof.
  intros ->%NewServer_loaded Hx. split; [|done]. unfold client_Active.
  by erewrite client_Request_value; [|done..].
Qed.

(** C19: A fenced worker never comes back.  Over any messages, random bytes, failing writes of
    the fence file (which may have replaced it) and restarts of hostd: after a lease was
    activated hostd accepts only heartbeats of that very lease, and grants, hears ready,
    activates and takes heartbeats of later epochs; a lease is granted before it is ready,
    ready before it is activated and activated before its heartbeats are taken; and the file
    holds an epoch no lower than any that was activated. *)
Theorem stale_worker_fenced lo hi f c0 c log :
  NewServer lo hi f = Some c0 -> fileRange f -> rtc fenceStep (c0, []) (c, log) ->
  history log /\
  forall l, EvActivated l ∈ log -> exists st, fenceFile c = Fence st /\ lEpoch l <= fEpoch st <= maxUint64.
Proof.
  intros Hn Hf Hr. pose proof (fenceRun_inv _ _ _ _ _ _ Hn Hf Hr) as Hi. split; [apply Hi|].
  intros l Hl. destruct (fi_saved _ _ Hi l Hl) as (_ & st & Hst & Hle). exists st.
  pose proof (fi_file _ _ Hi _ Hst). split; [done|lia].
Qed.

(** C20: A worker that no other disturbs becomes the active one.  In every reachable state of
    hostd with an epoch left, for a hello whose versions hostd knows, with random bytes that
    are no lease in use, delivered messages, a fence file that can be written and a clock after
    1970: [Ready] answers a candidate with the next epoch and leaves the active worker;
    [Activate] answers that worker as active, as the status of hostd then says and the file
    holds; it is the fence that the worker updater expects from the activation of a candidate
    that was ready; and the worker that was active before is fenced. *)
Theorem candidate_becomes_active lo hi f c0 c log h k v lease x1 x2 x3 x4 :
  NewServer lo hi f = Some c0 -> fileRange f -> rtc fenceStep (c0, []) (c, log) ->
  NewCandidate h = Some k -> selectVersion (apiMin c) (apiMax c) (hAPIMin h) (hAPIMax h) = Some v ->
  lastEpoch c < maxUint64 -> freshLease c (env x1) lease ->
  delivered x1 -> delivered x2 -> delivered x3 -> delivered x4 ->
  fenceWrite (env x3) = Written -> 0 <= clock (env x4) ->
  exists c1 k1 ready c2 act,
    candidate_Ready x1 x2 k c = (c1, k1, Ok ready) /\ cActive c1 = cActive c
    /\ worker ready = mkStatus StateCandidate (hWorkerID h) v (lastEpoch c + 1)
    /\ candidate_Activate x3 x4 k1 c1 = (c2, Ok act) /\ controller_Status c2 = act
    /\ fenceFile c2 = Fence (mkFenceState (hWorkerID h) v (lastEpoch c + 1))
    /\ (forall w, worker act = fence (activateFence (hWorkerID h) (worker ready) w))
    /\ forall e l, worker_matches (cActive c) l = true -> validateLeaseMessage l = true ->
         AcceptHeartbeat e l c2 = (c2, Some ErrFenced).
Proof.
  intros Hn Hf Hr Hk Hv Hl Hfr H1 H2 H3 H4 Hw Hc.
  pose proof (fenceRun_inv _ _ _ _ _ _ Hn Hf Hr) as Hi. pose proof (active_le_last _ _ Hi) as Hle.
  pose proof (fi_last _ _ Hi) as Hl0.
  unfold NewCandidate in Hk. destruct (hello_validate h) eqn:Hh; [|done]. injection Hk as <-.
  destruct (hello_granted x1 h c v lease H1 Hh Hv Hle ltac:(lia) Hfr) as [Hok Hg].
  set (w := mkWorker (hWorkerID h) v (lastEpoch c + 1) lease false zeroTime) in *.
  set (w1 := w <| wReady := true |>). assert (Hok1 : validWorker w1) by exact Hok.
  set (c1 := (granted c w) <| cCandidate := w1 |>).
  set (w2 := w1 <| wLastHeartbeat := clock (env x4) |>).
  set (c2 := (activated c1 w1) <| cActive := w2 |>).
  exists c1, (mkCandidateHalf h (Some (leaseOf w))), (statusFor w StateCandidate), c2, (statusFor w2 StateActive).
  split_and!; [|done|done| |unfold controller_Status; simpl; case_match; [done|lia]|done|done|].
  - unfold candidate_Ready, acquireLease. cbn [chLease chHello]. rewrite Hg, (leaseOf_valid _ Hok).
    cbn [leaseOf lWorkerID wWorkerID w]. rewrite bool_decide_true by done. cbn [andb].
    by rewrite (ready_heard x2 w (granted c w)).
  - unfold candidate_Activate. cbn [chLease]. change (leaseOf w) with (leaseOf w1).
    rewrite (activation_done x3 w1 c1) by done. by rewrite (heartbeat_heard x4 w1 (activated c1 w1)).
  - intros e l [-> Hne]%worker_matches_lease Hvl. unfold AcceptHeartbeat. rewrite Hvl. cbn [negb].
    replace (worker_matches _ _) with false; [done|]. symmetry. apply not_true_iff_false.
    intros [Hm _]%worker_matches_lease. apply (f_equal lEpoch) in Hm. simpl in Hm. lia.
Qed.

(** ** A host *)
Module FenceDemo.
Definition str := String.list_byte_of_string.
Definition delivery (n : byte) : Exchange :=
  mkExchange true true (mkCallEnv [Some (repeat n 32)] Written 1000000000) None (Some (3, 2)).
Definition hello (id : gostring) : Hello := mkHello id (str "2024.01.02.1") 1 1.
Definition started : Controller := mkController 1 1 noWorker noWorker 0 NoFence.
Definition half (id : gostring) : CandidateHalf := mkCandidateHalf (hello id) None.
Definition lease (n : byte) (id : gostring) (epoch : Z) : Lease :=
  mkLease id 1 epoch (EncodeToString (repeat n 32)).
Definition call (n : byte) : CallEnv := env (delivery n).
Definition log : list Event :=
  let l := lease x01 (str "runtime-1") 1 in [EvGranted l; EvReady l; EvActivated l].
Definition first : Controller :=
  ((started <| lastEpoch := 1 |>) <| fenceFile := Fence (mkFenceState (str "runtime-1") 1 1) |>)
    <| cActive := mkWorker (str "runtime-1") 1 1 (EncodeToString (repeat x01 32)) true zeroTime |>.
End FenceDemo.

Lemma demo_first : rtc fenceStep (FenceDemo.started, []) (FenceDemo.first, FenceDemo.log).
Proof.
  pose (l := FenceDemo.lease x01 (FenceDemo.str "runtime-1") 1).
  eapply rtc_l; [apply (fence_handle (FenceDemo.call x01) (Pointer (BHello (FenceDemo.hello (FenceDemo.str "runtime-1")))))|].
  eapply rtc_l; [apply (fence_handle (FenceDemo.call x01) (Pointer (BReady l)))|].
  eapply rtc_l; [apply (fence_handle (FenceDemo.call x01) (Pointer (BActivate l)))|].
  match goal with |- rtc _ ?a ?b => replace b with a by (vm_compute; reflexivity) end. apply rtc_refl.
Qed.

Lemma demo_range : fileRange NoFence.
Proof. by intros st H. Qed.

Lemma stale_worker_fenced_witness : history FenceDemo.log.
Proof.
  apply (stale_worker_fenced 1 1 NoFence FenceDemo.started FenceDemo.first FenceDemo.log).
  - reflexivity.
  - exact demo_range.
  - exact demo_first.
Defined.

Lemma candidate_becomes_active_witness :
  exists c1 k1 ready, candidate_Ready (FenceDemo.delivery x02) (FenceDemo.delivery x02)
    (FenceDemo.half (FenceDemo.str "runtime-2")) FenceDemo.first = (c1, k1, Ok ready)
    /\ worker ready = mkStatus StateCandidate (FenceDemo.str "runtime-2") 1 2.
Proof.
  destruct (candidate_becomes_active 1 1 NoFence FenceDemo.started FenceDemo.first FenceDemo.log
    (FenceDemo.hello (FenceDemo.str "runtime-2")) (FenceDemo.half (FenceDemo.str "runtime-2")) 1
    (EncodeToString (repeat x02 32)) (FenceDemo.delivery x02) (FenceDemo.delivery x02)
    (FenceDemo.delivery x02) (FenceDemo.delivery x02)) as (c1 & k1 & ready & c2 & act & H1 & _ & H2 & _).
  - reflexivity.
  - exact demo_range.
  - exact demo_first.
  - vm_compute. reflexivity.
  - vm_compute. reflexivity.
  - vm_compute. reflexivity.
  - exists (repeat x02 32), []. split_and!; try reflexivity; vm_compute; discriminate.
  - split; reflexivity.
  - split; reflexivity.
  - split; reflexivity.
  - split; reflexivity.
  - reflexivity.
  - vm_compute. discriminate.
  - exists c1, k1, ready. split; [exact H1|exact H2].
Defined.

(** A second hello replaces a candidate that is ready, which can then not be activated. *)
Example ready_candidate_replaced :
  let id := FenceDemo.str "runtime-2" in
  let '(c1, k1, _) := candidate_Ready (FenceDemo.delivery x02) (FenceDemo.delivery x02)
                        (FenceDemo.half id) FenceDemo.first in
  let c2 := (client_Request (FenceDemo.delivery x03) (BHello (FenceDemo.hello id)) c1).1 in
  wReady (cCandidate c1) = true
  /\ (candidate_Activate (FenceDemo.delivery x02) (FenceDemo.delivery x02) k1 c2).2 = Err ErrFenced.
Proof. vm_compute. split; reflexivity. Qed.

(** The epoch of a candidate that was not activated is granted again after a restart. *)
Example epoch_reused :
  let id := FenceDemo.str "runtime-2" in
  let '(c1, _, r1) := candidate_Ready (FenceDemo.delivery x02) (FenceDemo.delivery x02)
                        (FenceDemo.half id) FenceDemo.first in
  match NewServer 1 1 (fenceFile c1) with
  | Some c2 =>
      let '(_, _, r2) := candidate_Ready (FenceDemo.delivery x03) (FenceDemo.delivery x03)
                           (FenceDemo.half id) c2 in
      r1 = r2
  | None => False
  end.
Proof. vm_compute. reflexivity. Qed.
