(* ===== verification/Inbox.v ===== *)
(** * The inbox

    Models [internal/inbox/inbox.go] on Unix: the delivery of a file that a host offers into
    the inbox directory, which survives failed downloads and the death of the process, and the
    journal of receipts by which a repeated delivery is recognised.

    The world is the directory and what lies around it: names of entries, each the number of
    an inode, so that a hard link is an alias; the inodes; and the journal, whose text is
    [journalText].  An entry of the inbox is named by its name, one elsewhere by its absolute
    path, so that each place has one name ([place]); a transfer identifier may hold slashes,
    and the temporary file then lies where the cleaned path leads.  A symbolic link names the
    entry it leads to, and [os.OpenFile] follows it.  Directories on the way to the temporary
    file are not links themselves, and the journal has no other name.  What is neither a
    regular file nor a link is [Special].

    A program consumes one reply for each call outside the process and dies where the replies
    end.  [published] records, for the theorems, each final name that was linked. *)
From S2P Require Import Prelude.
From S2P Require Import Sha256.
From S2P Require Import TransferCodec.
From S2P Require Import TransferManifest.
From S2P Require Import TransferCrypto.
From S2P Require Import TransferKeys.
From S2P Require Import UpdateGate.
From S2P Require Import Effects.

Inductive InboxError :=
| ErrInvalidSize | ErrDigestMismatch | ErrInvalidPath | ErrOffsetConflict | ErrResourceLimit
| ErrStorage | ErrRemote.
#[export] Instance InboxError_eq_dec : EqDecision InboxError.
Proof. solve_decision. Defined.

(** ** Data *)
Record InboxManifest := mkInboxManifest {
  mTransferID : gostring; mDestination : gostring; mBasename : gostring; mSize : Z; mSHA256 : gostring }.

Record Receipt := mkReceipt { rcDigest : gostring; rcPath : gostring; rcAt : Z }.
#[export] Instance Receipt_eq_dec : EqDecision Receipt.
Proof. solve_decision. Defined.

Abbreviation Entries := (gmap gostring Receipt).
(** The journal file: absent, a text that does not decode, or its entries. *)
Inductive ReceiptFile := NoJournal | CorruptJournal (text : list byte) | Journal (e : Entries).

Inductive Node := Regular (content : list byte) | Symlink (entry : gostring) | Special.

Record World := mkWorld {
  names : gmap gostring nat; inodes : list Node; journal : ReceiptFile;
  published : list (gostring * gostring) }.
#[export] Instance World_eta : Eta World :=
  fun w => mkWorld (names w) (inodes w) (journal w) (published w).

(** A reply: whether the call succeeded, whether a failed one had its effect, the time, an
    HTTP status, the bytes that were copied. *)
Record Reply := mkReply { rOk : bool; rDone : bool; rNow : Z; rStatus : Z; rData : list byte }.

Abbreviation M := (Prog World Reply InboxError).

Definition maxJournalEntries : Z := 1024.
Definition journalName : gostring := bytes ".paperboat-receipts.json".
Definition inboxPrefix : gostring := bytes "Paperboat Inbox/".

(** ** Paths *)

(** [filepath.Clean] of a rooted path, from its parts: the parts that remain, last first. *)
Fixpoint cleanParts (parts kept : list gostring) : list gostring :=
  match parts with
  | [] => kept
  | part :: rest =>
      if bool_decide (part = []) || bool_decide (part = dot) then cleanParts rest kept
      else if bool_decide (part = dotdot) then cleanParts rest (tail kept)
      else cleanParts rest (part :: kept)
  end.

(** The parts of [filepath.Join(root, name)]. *)
Definition joinParts (root name : gostring) : list gostring :=
  rev (cleanParts (splitSlash (root ++ slash :: name)) []).

(** [filepath.Join(root, name)]: as a name in the directory [root] where it lies below it,
    otherwise as the absolute path. *)
Definition place (root name : gostring) : gostring :=
  let parts := joinParts root name in
  let base := joinParts root [] in
  let below := drop (length base) parts in
  if bool_decide (take (length base) parts = base) && negb (bool_decide (below = []))
  then joinSlash below else slash :: joinSlash parts.

Definition tempName (root id : gostring) : gostring :=
  place root (bytes ".paperboat-transfer-" ++ id ++ bytes ".part").

(** ** The directory *)
Section inbox.
Context (journalText : Entries -> list byte) (root : gostring).

Definition journalNode (j : ReceiptFile) : option Node :=
  match j with
  | NoJournal => None
  | CorruptJournal text => Some (Regular text)
  | Journal e => Some (Regular (journalText e))
  end.

(** [os.Lstat] of a name in the directory. *)
Definition lookup_name (n : gostring) (w : World) : option Node :=
  if bool_decide (n = journalName) then journalNode (journal w)
  else if bool_decide (n = dot) || bool_decide (n = dotdot) || bool_decide (n = [slash]) then Some Special
  else i ← names w !! n; inodes w !! i.

Definition external : M (list InboxError) := r ← next; mret (if rOk r then [] else [ErrStorage]).

(** Where the system ends up from a name: it follows at most 40 links. *)
Definition maxLinks : nat := 40.
Fixpoint resolve (fuel : nat) (n : gostring) (w : World) : option gostring :=
  match lookup_name n w with
  | Some (Symlink p) => match fuel with O => None | S fuel => resolve fuel p w end
  | _ => Some n
  end.

(** [os.OpenFile(O_CREATE|O_RDWR)]: the inode.  Links are followed, and the file that the
    last one leads to is created if it does not exist. *)
Definition OpenFile (n : gostring) : M nat :=
  r ← next;
  if negb (rOk r) then fail [ErrStorage]
  else
    p ← get (resolve maxLinks n);
    match p with
    | None => fail [ErrStorage]
    | Some p =>
        o ← get (lookup_name p);
        match o with
        | None =>
            i ← get (fun w => length (inodes w));
            modify (fun w => (w <| inodes := inodes w ++ [Regular []] |>) <| names := <[p := i]> (names w) |>)
              ≫= fun _ => mret i
        | Some (Regular _) =>
            i ← get (fun w => names w !! p);
            match i with Some i => mret i | None => fail [ErrStorage] end
        | Some _ => fail [ErrStorage]
        end
    end.

Definition contentOf (i : nat) (w : World) : list byte :=
  match inodes w !! i with Some (Regular c) => c | _ => [] end.
Definition setContent (i : nat) (c : list byte) (w : World) : World :=
  w <| inodes := <[i := Regular c]> (inodes w) |>.

(** [os.Remove], which does not follow links and whose error is dropped by its callers here. *)
Definition Remove (n : gostring) : M bool :=
  r ← next;
  if rOk r then modify (fun w => w <| names := delete n (names w) |>) ≫= fun _ => mret true
  else mret false.

(** [os.Link]: the new name must not exist.  A link in place of the old one is not followed:
    the new name is one more name of the link. *)
Definition Link (id from to : gostring) : M (list InboxError) :=
  r ← next;
  i ← get (fun w => names w !! from);
  o ← get (lookup_name to);
  match i, o with
  | Some i, None =>
      if rOk r
      then modify (fun w => (w <| names := <[to := i]> (names w) |>)
                              <| published := published w ++ [(id, to)] |>) ≫= fun _ => mret []
      else mret [ErrStorage]
  | _, _ => mret [ErrStorage]
  end.

(** ** Names *)

(** [filepath.Base(v) == v] *)
Definition isBase (v : gostring) : bool :=
  bool_decide (v = [slash]) || (negb (empty v) && negb (ContainsAny v [slash])).

(** [strings.TrimPrefix] *)
Definition TrimPrefix (v p : gostring) : gostring :=
  if bool_decide (take (length p) v = p) then drop (length p) v else v.

(** [filepath.Ext] of a name without a slash: from its last dot on. *)
Fixpoint Ext (v : gostring) : gostring :=
  match v with
  | [] => []
  | b :: r => match Ext r with
              | [] => if bool_decide (b = x2e) then v else []
              | e => e
              end
  end.

(** [%d] *)
Fixpoint Itoa (fuel : nat) (n : Z) : gostring :=
  match fuel with
  | O => []
  | S fuel => (if n <? 10 then [] else Itoa fuel (n / 10)) ++ [byte_of_Z (48 + n mod 10)]
  end.

Definition numberedName (basename : gostring) (index : Z) : gostring :=
  if index <=? 1 then basename
  else
    let extension := Ext basename in
    let stem := take (length basename - length extension) basename in
    stem ++ bytes " (" ++ Itoa 20 index ++ bytes ")" ++ extension.

Fixpoint firstFree (fuel : nat) (index : Z) (basename : gostring) (w : World) : option gostring :=
  match fuel with
  | O => None
  | S fuel =>
      let name := numberedName basename index in
      match lookup_name name w with
      | None => Some name
      | Some _ => firstFree fuel (index + 1) basename w
      end
  end.

(** [availableName]; the reply is whether each of its [Lstat]s answered. *)
Definition availableName (basename : gostring) : M gostring :=
  r ← next;
  n ← get (firstFree (Z.to_nat 10000) 1 basename);
  match n with
  | Some n => if rOk r then mret n else fail [ErrStorage]
  | None => fail [ErrStorage; ErrResourceLimit]
  end.

(** ** The journal *)

(** The entry that [boundJournal] deletes: the oldest, and the least identifier among equals. *)
Definition older (a b : gostring * Receipt) : bool :=
  (rcAt a.2 <? rcAt b.2) || (rcAt a.2 =? rcAt b.2) && lessEq a.1 b.1.
Definition oldest (e : Entries) : option (gostring * Receipt) :=
  fold_right (fun x acc => match acc with
                           | None => Some x
                           | Some y => Some (if older x y then x else y)
                           end) None (map_to_list e).
Fixpoint boundLoop (fuel : nat) (e : Entries) : Entries :=
  match fuel with
  | O => e
  | S fuel =>
      if Z.of_nat (size e) <=? maxJournalEntries then e
      else match oldest e with
           | None => e
           | Some (id, _) => boundLoop fuel (delete id e)
           end
  end.
Definition boundJournal (e : Entries) : Entries := boundLoop (size e) e.

Definition loadJournal : M Entries :=
  r ← next;
  j ← get journal;
  match j with
  | NoJournal => mret ∅
  | CorruptJournal _ => fail [ErrStorage]
  | Journal e => if rOk r then mret e else fail [ErrStorage]
  end.

Definition saveJournal (e : Entries) : M (list InboxError) :=
  r ← next;
  if rOk r then modify (fun w => w <| journal := Journal e |>) ≫= fun _ => mret []
  else modify (fun w => if rDone r then w <| journal := Journal e |> else w) ≫= fun _ => mret [ErrStorage].

(** ** Delivery *)
Context (MachineID : gostring).

Definition lowerHex (b : byte) : bool :=
  let z := Z_of_byte b in ((48 <=? z) && (z <=? 57)) || ((97 <=? z) && (z <=? 102)).

Definition validateManifest (m : InboxManifest) : list InboxError :=
  if empty (mTransferID m) || negb (bool_decide (mDestination m = MachineID)) || (mSize m <? 0)
     || (52428800 <? mSize m) || negb (len (mSHA256 m) =? 64)
  then [ErrInvalidSize]
  else if negb (forallb lowerHex (mSHA256 m)) then [ErrDigestMismatch]
  else
    let name := mBasename m in
    if empty name || bool_decide (name = dot) || bool_decide (name = dotdot) || negb (isBase name)
       || ContainsAny name [slash; x5c; x00]
    then [ErrInvalidPath] else [].

Definition digestMatches (content sha : gostring) : bool := bool_decide (hexEncode (Sum256 content) = sha).

(** A receipt of the transfer: [Some path] when its file is still there, [None] when it has
    to be fetched again. *)
Definition checkPrior (m : InboxManifest) (p : Receipt) : M (option gostring) :=
  check (if bool_decide (rcDigest p = mSHA256 m) then [] else [ErrDigestMismatch]) ≫= fun _ =>
  let name := TrimPrefix (rcPath p) inboxPrefix in
  check (if bool_decide (name = rcPath p) || negb (isBase name) then [ErrStorage] else []) ≫= fun _ =>
  e ← external; check e ≫= fun _ =>
  o ← get (lookup_name name);
  match o with
  | Some (Regular content) =>
      check (if len content =? mSize m then [] else [ErrDigestMismatch]) ≫= fun _ =>
      e ← external; check e ≫= fun _ =>
      check (if digestMatches content (mSHA256 m) then [] else [ErrDigestMismatch]) ≫= fun _ =>
      mret (Some (rcPath p))
  | _ => mret None
  end.

(** The size of the temporary file, and its bytes into the hash. *)
Definition openTemp (m : InboxManifest) : M (nat * list byte) :=
  i ← OpenFile (tempName root (mTransferID m));
  c ← get (contentOf i);
  r ← next;
  if negb (rOk r) || (mSize m <? len c)
  then
    t ← next;
    modify (if rOk t then setContent i [] else (fun w => w)) ≫= fun _ => fail [ErrInvalidSize]
  else
    e ← external; check e ≫= fun _ =>
    e ← external; check e ≫= fun _ => mret (i, c).

(** The rest of the content: the request, and the copy into the file and the hash. *)
Definition fetchRest (m : InboxManifest) (i : nat) (c : list byte) : M (list byte) :=
  if mSize m <=? len c then mret c
  else
    q ← next;
    check (if rOk q then [] else [ErrRemote]) ≫= fun _ =>
    check (if (0 <? len c) && negb (rStatus q =? 206) || (len c =? 0) && negb (rStatus q =? 200)
           then [ErrOffsetConflict] else []) ≫= fun _ =>
    e ← external; check e ≫= fun _ =>
    p ← next;
    let remaining := mSize m - len c in
    let copied := ztake (remaining + 1) (rData p) in
    modify (setContent i (c ++ copied)) ≫= fun _ =>
    check (if rOk p then [] else [ErrRemote]) ≫= fun _ =>
    check (if len copied =? remaining then [] else [ErrInvalidSize]) ≫= fun _ =>
    mret (c ++ copied).

(** The name a new file gets, which the journal records before the file has it. *)
Definition reserveName (m : InboxManifest) (e : Entries) : M gostring :=
  name ← availableName (mBasename m);
  n ← next;
  let e := boundJournal (<[mTransferID m := mkReceipt (mSHA256 m) (inboxPrefix ++ name) (rNow n)]> e) in
  err ← saveJournal e; check err ≫= fun _ => mret name.

(** The temporary file gets its name and loses the other. *)
Definition publish (m : InboxManifest) (name : gostring) : M unit :=
  e ← Link (mTransferID m) (tempName root (mTransferID m)) name; check e ≫= fun _ =>
  e ← external; check e ≫= fun _ =>
  removed ← Remove (tempName root (mTransferID m));
  match removed with
  | true => e ← external; check e
  | false => Remove (tempName root (mTransferID m)) ≫= fun _ => fail [ErrStorage]
  end.

Definition Deliver (m : InboxManifest) : M gostring :=
  check (validateManifest m) ≫= fun _ =>
  e ← external; check e ≫= fun _ =>
  e ← external; check e ≫= fun _ =>
  entries ← loadJournal;
  let prior := entries !! mTransferID m in
  done ← match prior with Some p => checkPrior m p | None => mret None end;
  match done with
  | Some path => mret path
  | None =>
      '(i, c) ← openTemp m;
      data ← fetchRest m i c;
      if negb (digestMatches data (mSHA256 m))
      then Remove (tempName root (mTransferID m)) ≫= fun _ => fail [ErrDigestMismatch]
      else
        e ← external; check e ≫= fun _ =>
        e ← external; check e ≫= fun _ =>
        '(name, path) ← match prior with
                        | Some p => mret (TrimPrefix (rcPath p) inboxPrefix, rcPath p)
                        | None => n ← reserveName m entries; mret (n, inboxPrefix ++ n)
                        end;
        publish m name ≫= fun _ => mret path
  end.

End inbox.
