(* ===== verification/InboxProps.v ===== *)
(** * The inbox: what a delivery does to the directory

    Weakest preconditions of the steps of a delivery: what it leaves of every other file, what
    the temporary file holds, and what has been published when it succeeds. *)
From S2P Require Import Prelude.
From S2P Require Import Sha256.
From S2P Require Import TransferCodec.
From S2P Require Import TransferManifest.
From S2P Require Import TransferKeys.
From S2P Require Import UpdateGate.
From S2P Require Import Effects.
From S2P Require Import Inbox.
Set Warnings "-clear-no-such-hyp".

(** ** The place of the temporary file *)
Lemma splitSlash_join a p : splitSlash (a ++ slash :: p) = splitSlash a ++ splitSlash p.
Proof.
  induction a as [|b a IH]; [done|]. simpl. rewrite IH.
  case_bool_decide; [done|]. destruct (splitSlash a) eqn:E; [by apply splitSlash_nonempty in E|done].
Qed.

(** The last part of a path keeps the end of the path. *)
Lemma splitSlash_end a p : slash ∉ p -> exists l x, splitSlash (a ++ p) = l ++ [x ++ p].
Proof.
  intros Hp. induction a as [|b a (l & x & IH)]; [exists [], []; by apply splitSlash_single|].
  simpl. rewrite IH. case_bool_decide; [by exists ([] :: l), x|].
  destruct l as [|y l]; [by exists [], (b :: x)|by exists ((b :: y) :: l), x].
Qed.

Lemma cleanParts_app l k kept : cleanParts (l ++ k) kept = cleanParts k (cleanParts l kept).
Proof. revert kept. induction l as [|y l IH]; intros kept; [done|]. simpl. by repeat case_match. Qed.

Lemma joinSlash_end l x : exists y, joinSlash (l ++ [x]) = y ++ x.
Proof.
  induction l as [|z l [y IH]]; [by exists []|]. exists (z ++ slash :: y).
  rewrite <- app_assoc. cbn [app]. rewrite <- IH. simpl. destruct (l ++ [x]) eqn:E; [by destruct l|done].
Qed.

(** An ordinary part. *)
Definition partOk (x : gostring) : bool :=
  negb (bool_decide (x = []) || bool_decide (x = dot) || bool_decide (x = dotdot)).

Lemma partOk_clean x kept : partOk x = true -> cleanParts [x] kept = x :: kept.
Proof. unfold partOk. simpl. intros [[H1 H2]%orb_false_iff H3]%negb_true_iff%orb_false_iff. by rewrite H1, H2, H3. Qed.

Lemma dotPart_ok x : partOk (x ++ bytes ".part") = true.
Proof.
  unfold partOk. apply negb_true_iff. rewrite !bool_decide_false; [done|..];
    intros H; apply (f_equal length) in H; rewrite length_app in H; simpl in H; lia.
Qed.

Lemma place_end root n : exists y, place root (n ++ bytes ".part") = y ++ bytes ".part".
Proof.
  unfold place, joinParts.
  destruct (splitSlash_end (root ++ slash :: n) (bytes ".part")) as (l & x & H); [vm_compute; set_solver|].
  rewrite <- app_assoc, <- app_comm_cons in H. rewrite H, cleanParts_app, partOk_clean by apply dotPart_ok.
  set (base := rev _). set (kept := cleanParts l []). cbn [rev]. destruct (_ && _) eqn:Hb.
  - apply andb_true_iff in Hb as [Ht Hd]. apply bool_decide_eq_true in Ht. apply negb_true_iff, bool_decide_eq_false in Hd.
    assert (Hl : (length base <= length (rev kept))%nat).
    { destruct (decide (length base <= length (rev kept))%nat); [done|]. destruct Hd. apply drop_ge.
      rewrite length_app. simpl. lia. }
    rewrite drop_app_le by done. destruct (joinSlash_end (drop (length base) (rev kept)) (x ++ bytes ".part")) as [y ->].
    exists (y ++ x). by rewrite app_assoc.
  - destruct (joinSlash_end (rev kept) (x ++ bytes ".part")) as [y ->].
    exists (slash :: y ++ x). by rewrite <- app_comm_cons, app_assoc.
Qed.

(** A name without a slash is itself. *)
Lemma place_plain root n : slash ∉ n -> partOk n = true -> place root n = n.
Proof.
  intros Hs Hn. unfold place, joinParts. rewrite !splitSlash_join, (splitSlash_single n) by done.
  rewrite !cleanParts_app, (partOk_clean n) by done. simpl (cleanParts (splitSlash []) _).
  set (base := rev _). simpl rev. rewrite take_app_length, drop_app_length, bool_decide_true by done. done.
Qed.

Lemma tempName_end root id : exists y, tempName root id = y ++ bytes ".part".
Proof. unfold tempName. rewrite app_assoc. apply place_end. Qed.

Lemma tempName_flat root id : ContainsAny id [slash] = false ->
  tempName root id = bytes ".paperboat-transfer-" ++ id ++ bytes ".part".
Proof.
  intros H. apply place_plain.
  - assert (slash ∉ id).
    { intros Hin. apply not_true_iff_false in H. apply H. apply existsb_exists. exists slash.
      split; [by apply list_elem_of_In|]. apply bool_decide_eq_true. set_solver. }
    rewrite !elem_of_app. intros [Hx|[Hx|Hx]]; [|done|]; revert Hx; vm_compute; set_solver.
  - rewrite app_assoc. apply dotPart_ok.
Qed.

Section delivery.
Context (journalText : Entries -> list byte) (root MachineID : gostring).
Abbreviation lookup_name := (lookup_name journalText).
Abbreviation Deliver := (Deliver journalText root MachineID).
Abbreviation tempName := (tempName root).
Abbreviation resolve := (resolve journalText).

(** ** Names *)
Lemma tempName_plain id : tempName id <> journalName /\ tempName id <> dot /\ tempName id <> dotdot
  /\ tempName id <> [slash].
Proof.
  destruct (tempName_end root id) as [y ->].
  split_and!; intros H; apply (f_equal (fun l => take 5 (rev l))) in H; rewrite rev_app_distr in H; vm_compute in H; discriminate.
Qed.

Lemma lookup_temp id w : lookup_name (tempName id) w = names w !! tempName id ≫= fun i => inodes w !! i.
Proof.
  unfold Inbox.lookup_name. destruct (tempName_plain id) as (H1 & H2 & H3 & H4).
  by rewrite !bool_decide_false by done.
Qed.

(** A name that does not exist is no special one. *)
Lemma lookup_free n w : lookup_name n w = None -> journal w <> NoJournal -> forall w',
  lookup_name n w' = names w' !! n ≫= fun i => inodes w' !! i.
Proof.
  unfold Inbox.lookup_name. intros H Hj w'. case_bool_decide; [by destruct (journal w)|].
  by destruct (_ || _ || _).
Qed.

(** A name of a file that is not the journal names an inode. *)
Lemma lookup_inode n w nd : n <> journalName -> lookup_name n w = Some nd -> nd <> Special ->
  exists i, names w !! n = Some i /\ inodes w !! i = Some nd.
Proof.
  intros Hn. unfold Inbox.lookup_name. rewrite bool_decide_false by done. destruct (_ || _ || _); [congruence|].
  intros (i & H1 & H2)%bind_Some _. eauto.
Qed.
Lemma lookup_regular n w c : n <> journalName -> lookup_name n w = Some (Regular c) ->
  exists i, names w !! n = Some i /\ inodes w !! i = Some (Regular c).
Proof. intros Hn Hl. by apply lookup_inode. Qed.

(** The program does not change the directory or its files. *)
Record sameFiles (w w' : World) : Prop := {
  sf_names : names w' = names w; sf_inodes : inodes w' = inodes w; sf_published : published w' = published w }.

Lemma inbox_external_readonly : readonly external.
Proof. unfold external. ro. Qed.
Lemma loadJournal_readonly : readonly loadJournal.
Proof. unfold loadJournal. ro. Qed.
Lemma checkPrior_readonly m p : readonly (checkPrior journalText m p).
Proof. unfold checkPrior. pose proof inbox_external_readonly. ro. Qed.
Lemma availableName_readonly b : readonly (availableName journalText b).
Proof. unfold availableName. ro. Qed.
Hint Resolve inbox_external_readonly loadJournal_readonly checkPrior_readonly availableName_readonly : readonly.

Section rules.
Context (E : list InboxError -> World -> Prop) (D : World -> Prop).

Lemma wp_inboxCall (Q : list InboxError -> World -> Prop) w : D w -> Q [] w -> Q [ErrStorage] w ->
  wp external Q E D w.
Proof. intros HD H1 H2. unfold external. wp_step. wp_step; [done|]. wp_step. by destruct (rOk _). Qed.

(** A call whose failure ends the program. *)
Lemma wp_call (k : M unit) Q w : D w -> E [ErrStorage] w -> wp k Q E D w ->
  wp (e ← external; check e ≫= fun _ => k) Q E D w.
Proof.
  intros HD HE Hk. wp_step. apply wp_inboxCall; [done|..].
  - wp_step. by wp_step.
  - wp_step. by wp_step.
Qed.

(** What loading gives. *)
Lemma wp_loadJournal (Q : Entries -> World -> Prop) w : D w -> E [ErrStorage] w ->
  (forall e, journal w = Journal e \/ journal w = NoJournal /\ e = ∅ -> Q e w) -> wp loadJournal Q E D w.
Proof.
  intros HD HE HQ. unfold loadJournal. wp_step. wp_step; [done|]. wp_step. wp_step.
  destruct (journal w) eqn:Hj; [wp_step; apply HQ; by right|by wp_step|].
  wp_if; wp_step; [apply HQ; by left|done].
Qed.

(** A saved journal, or one that failed and may have been saved. *)
Lemma wp_saveJournal e (Q : list InboxError -> World -> Prop) w : D w ->
  Q [] (w <| journal := Journal e |>) ->
  Q [ErrStorage] w -> Q [ErrStorage] (w <| journal := Journal e |>) -> wp (saveJournal e) Q E D w.
Proof.
  intros HD H1 H2 H3. unfold saveJournal. wp_step. wp_step; [done|]. wp_if.
  - wp_step. wp_step. by wp_step.
  - wp_step. wp_step. wp_step. by destruct (rDone _).
Qed.

Lemma wp_Remove n (Q : bool -> World -> Prop) w : D w -> Q true (w <| names := delete n (names w) |>) ->
  Q false w -> wp (Remove n) Q E D w.
Proof.
  intros HD H1 H2. unfold Remove. wp_step. wp_step; [done|]. wp_if; [|by wp_step].
  wp_step. wp_step. by wp_step.
Qed.

(** [Link] makes the new name an alias of a file, where there was none. *)
Lemma wp_Link id from to (Q : list InboxError -> World -> Prop) w : D w -> Q [ErrStorage] w ->
  (forall i, names w !! from = Some i -> lookup_name to w = None ->
     Q [] ((w <| names := <[to := i]> (names w) |>) <| published := published w ++ [(id, to)] |>)) ->
  wp (Link journalText id from to) Q E D w.
Proof.
  intros HD H1 H2. unfold Link. wp_step. wp_step; [done|]. do 4 wp_step.
  destruct (names w !! from) as [i|] eqn:Hi; [|by wp_step].
  destruct (lookup_name to w) eqn:Ho; [by wp_step|]. wp_if; [|by wp_step].
  wp_step. wp_step. wp_step. by apply H2.
Qed.

(** The file at the end of the links is opened, or created empty. *)
Lemma wp_OpenFile n (Q : nat -> World -> Prop) w : D w -> E [ErrStorage] w ->
  (forall p, resolve maxLinks n w = Some p -> p <> journalName) ->
  (forall p i c, resolve maxLinks n w = Some p -> names w !! p = Some i -> inodes w !! i = Some (Regular c) -> Q i w) ->
  (forall p, resolve maxLinks n w = Some p -> lookup_name p w = None -> let i := length (inodes w) in
   Q i ((w <| inodes := inodes w ++ [Regular []] |>) <| names := <[p := i]> (names w) |>)) ->
  wp (OpenFile journalText n) Q E D w.
Proof.
  intros HD HE Hj H1 H2. unfold OpenFile. wp_step. wp_step; [done|]. wp_if; [by wp_step|]. wp_step. wp_step.
  destruct (resolve maxLinks n w) as [p|] eqn:Hp; [|by wp_step]. wp_step. wp_step.
  destruct (lookup_name p w) as [[c|q|]|] eqn:Ho; [|by wp_step..|].
  - wp_step. wp_step. destruct (lookup_regular _ _ _ (Hj p eq_refl) Ho) as (i & Hi & Hc). rewrite Hi. wp_step. by eapply H1.
  - do 4 wp_step. wp_step. by apply H2.
Qed.
End rules.

(** ** Other files *)

(** Wherever a delivery stops: every name but [t] keeps its file, every file but the one
    at [p] its content, and the names that were added are [p] and published ones. *)
Record frame (t p : gostring) (w w' : World) : Prop := {
  fr_names : forall n i, n <> t -> names w !! n = Some i -> names w' !! n = Some i;
  fr_inodes : forall i, (i < length (inodes w))%nat -> names w !! p <> Some i -> inodes w' !! i = inodes w !! i;
  fr_temp : forall i, names w' !! p = Some i -> names w !! p = Some i \/ (length (inodes w) <= i)%nat;
  fr_added : forall n i, names w' !! n = Some i -> names w !! n = Some i \/ n = p \/ n ∈ (published w').*2;
  fr_published : published w `prefix_of` published w';
  fr_length : (length (inodes w) <= length (inodes w'))%nat;
  fr_special : forall i nd, inodes w' !! i = Some nd -> (forall c, nd <> Regular c) -> inodes w !! i = Some nd }.

Lemma frame_refl t p w : frame t p w w.
Proof. split; auto. Qed.

Lemma frame_trans t p w1 w2 w3 : frame t p w1 w2 -> frame t p w2 w3 -> frame t p w1 w3.
Proof.
  intros H1 H2. pose proof (fr_length _ _ _ _ H1). pose proof (fr_length _ _ _ _ H2). split.
  - intros n i Hn Hi. eapply fr_names, fr_names; eauto.
  - intros i Hl Hi. rewrite (fr_inodes _ _ _ _ H2), (fr_inodes _ _ _ _ H1); [done..|lia|].
    intros Hx. destruct (fr_temp _ _ _ _ H1 _ Hx) as [|]; [done|lia].
  - intros i Hi. destruct (fr_temp _ _ _ _ H2 _ Hi) as [Hx|Hx]; [by apply (fr_temp _ _ _ _ H1)|right; lia].
  - intros n i Hi. destruct (fr_added _ _ _ _ H2 _ _ Hi) as [Hx|[Hx|Hx]]; [|by auto..].
    destruct (fr_added _ _ _ _ H1 _ _ Hx) as [|[|Hy]]; [by auto..|]. right; right.
    destruct (fr_published _ _ _ _ H2) as [k ->]. rewrite fmap_app. apply elem_of_app. by left.
  - etrans; [apply H1|apply H2].
  - lia.
  - intros i nd Hi Hn. eauto using fr_special.
Qed.

Lemma frame_journal t p w j : frame t p w (w <| journal := j |>).
Proof. split; simpl; auto. Qed.
Lemma frame_remove t p w : frame t p w (w <| names := delete t (names w) |>).
Proof.
  split; simpl; auto.
  - intros n i Hn Hi. by rewrite lookup_delete_ne.
  - intros i [_ Hi]%lookup_delete_Some. auto.
  - intros n i [_ Hi]%lookup_delete_Some. auto.
Qed.
Lemma frame_content t p i c w : names w !! p = Some i -> frame t p w (setContent i c w).
Proof.
  intros Hi. split; simpl; auto.
  - intros j Hj Hne. rewrite list_lookup_insert_ne; [done|]. intros ->. done.
  - by rewrite length_insert.
  - intros j nd. rewrite list_lookup_insert_Some. intros [(_ & <- & _)|[_ ?]] Hn; [by destruct (Hn c)|done].
Qed.
Lemma frame_create t p w : names w !! p = None -> frame t p w
  ((w <| inodes := inodes w ++ [Regular []] |>) <| names := <[p := length (inodes w)]> (names w) |>).
Proof.
  intros Hp. split; simpl; auto.
  - intros n i Hn Hi. rewrite lookup_insert_ne; [done|]. intros ->. by rewrite Hi in Hp.
  - intros i Hi _. by rewrite lookup_app_l.
  - intros i. rewrite lookup_insert_eq. intros [= <-]. right. lia.
  - intros n i [[<- _]|[_ ?]]%lookup_insert_Some; auto.
  - rewrite length_app. simpl. lia.
  - intros i nd. rewrite lookup_app_Some. intros [?|[_ H]] Hn; [done|].
    destruct (i - length (inodes w))%nat as [|k]; [|by destruct k]. injection H as <-. by destruct (Hn []).
Qed.
Lemma frame_link t p to i id w : names w !! to = None -> to <> p ->
  frame t p w ((w <| names := <[to := i]> (names w) |>) <| published := published w ++ [(id, to)] |>).
Proof.
  intros Hn Hne. split; simpl; auto.
  - intros n j Hj Hl. rewrite lookup_insert_ne; [done|]. intros ->. by rewrite Hl in Hn.
  - intros j. rewrite lookup_insert_ne by done. auto.
  - intros n j [[<- _]|[_ ?]]%lookup_insert_Some; [right; right|by auto].
    rewrite fmap_app. apply elem_of_app. right. by left.
  - by eexists.
Qed.
#[local] Hint Resolve frame_refl frame_journal frame_remove frame_content : core.

(** Names are names of files, and the journal has no other name: no link leads to it. *)
Record wf (w : World) : Prop := {
  wf_names : forall n i, names w !! n = Some i -> (i < length (inodes w))%nat;
  wf_journal : names w !! journalName = None;
  wf_links : forall i p, inodes w !! i = Some (Symlink p) -> p <> journalName }.

Lemma wf_free n w : wf w -> lookup_name n w = None -> names w !! n = None.
Proof.
  intros Hw. unfold Inbox.lookup_name. case_bool_decide as Hn; [subst; intros _; apply Hw|].
  destruct (_ || _ || _); [done|]. destruct (names w !! n) as [i|] eqn:Hi; [|done]. simpl.
  intros H%lookup_ge_None. pose proof (wf_names _ Hw _ _ Hi). lia.
Qed.

Lemma wf_create p w : wf w -> p <> journalName ->
  wf ((w <| inodes := inodes w ++ [Regular []] |>) <| names := <[p := length (inodes w)]> (names w) |>).
Proof.
  intros Hw Hj. split; simpl.
  - intros n i. rewrite length_app. simpl. destruct (decide (n = p)) as [->|Hn].
    + rewrite lookup_insert_eq. intros [= <-]. lia.
    + rewrite lookup_insert_ne by done. intros Hi%(wf_names _ Hw). lia.
  - rewrite lookup_insert_ne by done. apply Hw.
  - intros i q. rewrite lookup_app_Some. intros [?|[_ H]]; [by eapply wf_links|].
    by destruct (i - length (inodes w))%nat as [|[]].
Qed.
Lemma wf_remove n w : wf w -> wf (w <| names := delete n (names w) |>).
Proof.
  intros Hw. split; simpl; [| |apply Hw].
  - intros k i. rewrite lookup_delete_Some. intros [_ Hi]. by eapply wf_names.
  - rewrite lookup_delete_None. right. apply Hw.
Qed.
Lemma wf_content i c w : wf w -> wf (setContent i c w).
Proof.
  intros Hw. split; simpl; [rewrite length_insert; apply Hw|apply Hw|].
  intros j p. rewrite list_lookup_insert_Some. intros [(_ & [=] & _)|[_ ?]]. by eapply wf_links.
Qed.
Lemma wf_link n i w l k : wf w -> names w !! n = Some i -> k <> journalName ->
  wf ((w <| names := <[k := i]> (names w) |>) <| published := l |>).
Proof.
  intros Hw Hi Hk. split; simpl; [| |apply Hw].
  - intros m j. destruct (decide (m = k)) as [->|Hm].
    + rewrite lookup_insert_eq. intros [= <-]. by eapply wf_names.
    + rewrite lookup_insert_ne by done. apply Hw.
  - rewrite lookup_insert_ne by done. apply Hw.
Qed.
#[local] Hint Resolve wf_create wf_remove wf_content : core.

(** ** Links *)

(** Where the temporary file is: at the end of the links from its name.  When there is no
    end, it does not open. *)
Definition tempTarget (id : gostring) (w : World) : gostring :=
  default (tempName id) (resolve maxLinks (tempName id) w).

Lemma resolve_journal fuel : forall n p w, wf w -> n <> journalName -> resolve fuel n w = Some p -> p <> journalName.
Proof.
  induction fuel as [|fuel IH]; intros n p w Hw Hn; simpl;
    (destruct (lookup_name n w) as [[c|q|]|] eqn:Hl; [by intros [= <-]| |by intros [= <-]..]); [done|].
  apply IH; [done|]. destruct (lookup_inode n w _ Hn Hl ltac:(done)) as (i & _ & Hi). by eapply wf_links.
Qed.

(** What stands at the temporary name when it was followed. *)
Lemma resolve_first fuel n p w : resolve fuel n w = Some p ->
  p = n \/ exists q, lookup_name n w = Some (Symlink q).
Proof. destruct fuel; simpl; repeat case_match; naive_solver. Qed.

Lemma tempTarget_plain id w : (forall q, lookup_name (tempName id) w <> Some (Symlink q)) -> tempTarget id w = tempName id.
Proof.
  intros H. unfold tempTarget. destruct (resolve _ _ w) as [p|] eqn:Hp; [|done].
  destruct (resolve_first _ _ _ _ Hp) as [|[q Hq]]; [done|by apply H in Hq].
Qed.

(** ** The journal *)
Definition entriesOf (j : ReceiptFile) : Entries := match j with Journal e => e | _ => ∅ end.
Definition newEntry (m : InboxManifest) (name : gostring) (at_ : Z) (e : Entries) : Entries :=
  boundJournal (<[mTransferID m := mkReceipt (mSHA256 m) (inboxPrefix ++ name) at_]> e).

(** No link stands in place of the temporary file. *)
Definition straight (m : InboxManifest) (w : World) : Prop :=
  tempTarget (mTransferID m) w = tempName (mTransferID m).
(** The names that are not the temporary file's are as they were; the name that was free when
    the temporary file was there. *)
Definition offTemp (m : InboxManifest) (w w' : World) : Prop :=
  forall n, n <> tempName (mTransferID m) -> n <> tempTarget (mTransferID m) w -> names w' !! n = names w !! n.
Definition chosen (m : InboxManifest) (w : World) (name : gostring) : Prop :=
  exists w1, wf w1 /\ is_Some (names w1 !! tempName (mTransferID m))
    /\ offTemp m w w1 /\ journal w1 = journal w
    /\ firstFree journalText (Z.to_nat 10000) 1 (mBasename m) w1 = Some name.
(** A file of the size and digest of the manifest has this name. *)
Definition named (m : InboxManifest) (name : gostring) (w : World) : Prop :=
  exists c, lookup_name name w = Some (Regular c) /\ len c = mSize m /\ digestMatches c (mSHA256 m) = true.

(** What a delivery did to the journal and what it published, wherever it stopped. *)
Inductive outcome (m : InboxManifest) (w w' : World) : Prop :=
| out_nothing : journal w' = journal w -> published w' = published w -> offTemp m w w' -> outcome m w w'
| out_reserved name at_ : entriesOf (journal w) !! mTransferID m = None ->
    journal w' = Journal (newEntry m name at_ (entriesOf (journal w))) ->
    published w' = published w -> chosen m w name -> offTemp m w w' -> outcome m w w'
| out_again p name : entriesOf (journal w) !! mTransferID m = Some p -> rcPath p = inboxPrefix ++ name ->
    journal w' = journal w -> published w' = published w ++ [(mTransferID m, name)] ->
    (straight m w -> named m name w') -> outcome m w w'
| out_new name at_ : entriesOf (journal w) !! mTransferID m = None ->
    journal w' = Journal (newEntry m name at_ (entriesOf (journal w))) ->
    published w' = published w ++ [(mTransferID m, name)] -> chosen m w name ->
    (straight m w -> named m name w') -> outcome m w w'.

(** A program that only handles the temporary file. *)
Record handled (m : InboxManifest) (w w' : World) : Prop := {
  hd_wf : wf w'; hd_frame : frame (tempName (mTransferID m)) (tempTarget (mTransferID m) w) w w';
  hd_journal : journal w' = journal w; hd_published : published w' = published w;
  hd_names : offTemp m w w' }.

Lemma handled_refl m w : wf w -> handled m w w.
Proof. intros H. by split. Qed.

Definition after (m : InboxManifest) (w w' : World) : Prop :=
  wf w' /\ frame (tempName (mTransferID m)) (tempTarget (mTransferID m) w) w w' /\ outcome m w w'.

Lemma handled_after m w w' : handled m w w' -> after m w w'.
Proof. intros [H1 H2 H3 H4 H5]. split_and!; [done..|]. by apply out_nothing. Qed.
Hint Resolve handled_after handled_refl : core.

(** The temporary file, which is at [p], holds these bytes; its name is taken. *)
Definition holds (m : InboxManifest) (p : gostring) (i : nat) (c : list byte) (w : World) : Prop :=
  names w !! p = Some i /\ inodes w !! i = Some (Regular c) /\ is_Some (names w !! tempName (mTransferID m)).

Lemma holds_content m p i c c' w : holds m p i c w -> holds m p i c' (setContent i c' w).
Proof. intros (H1 & H2 & H3). split_and!; [done| |done]. simpl. apply list_lookup_insert_eq. by eapply lookup_lt_Some. Qed.

Lemma handled_content m i c c' w0 w : handled m w0 w -> holds m (tempTarget (mTransferID m) w0) i c w ->
  handled m w0 (setContent i c' w).
Proof. intros [H1 H2 H3 H4 H5] (Hi & _). split; auto. eapply frame_trans; eauto. Qed.

(** ** The steps *)
Section steps.
Context (m : InboxManifest) (w0 : World).
Abbreviation E := (fun (_ : list InboxError) w => after m w0 w).
Abbreviation D := (after m w0).
Abbreviation temp := (tempName (mTransferID m)).
Abbreviation target := (tempTarget (mTransferID m) w0).

Lemma wp_call' {A} (k : M A) Q w : after m w0 w -> wp k Q E D w ->
  wp (e ← external; check e ≫= fun _ => k) Q E D w.
Proof.
  intros HD Hk. wp_step. apply wp_inboxCall; [done|..]; wp_step; by wp_step.
Qed.

Lemma openTemp_spec (Q : nat * list byte -> World -> Prop) : wf w0 ->
  (forall i c w', handled m w0 w' -> holds m target i c w' -> len c <= mSize m -> Q (i, c) w') ->
  wp (openTemp journalText root m) Q E D w0.
Proof.
  intros Hw HQ. assert (Hh : handled m w0 w0) by auto. unfold openTemp. wp_step.
  assert (Hk : forall i c w1, handled m w0 w1 -> holds m target i c w1 ->
    wp (c ← get (contentOf i); r ← next;
        if negb (rOk r) || (mSize m <? len c)
        then t ← next; modify (if rOk t then setContent i [] else (fun w => w)) ≫= fun _ => fail [ErrInvalidSize]
        else e ← external; check e ≫= fun _ => e ← external; check e ≫= fun _ => mret (i, c)) Q E D w1).
  { intros i c w1 H1 H2. wp_step. wp_step. unfold contentOf. rewrite (proj1 (proj2 H2)). wp_step.
    wp_step; [by auto|]. wp_if.
    - wp_step. wp_step; [by auto|]. wp_step. wp_step. wp_step. case_match; [|by auto].
      apply handled_after. by eapply handled_content.
    - apply wp_call'; [by auto|]. apply wp_call'; [by auto|]. wp_step. apply HQ; [done..|].
      apply orb_false_iff in Heqb as [_ Hl]. lia. }
  destruct (tempName_plain (mTransferID m)) as (Hj & _).
  assert (Hp : forall p, resolve maxLinks temp w0 = Some p -> target = p /\ p <> journalName /\
            (p = temp \/ is_Some (names w0 !! temp))).
  { intros p Hp. unfold tempTarget. rewrite Hp. split_and!; [done|by eapply resolve_journal|].
    destruct (resolve_first _ _ _ _ Hp) as [|[q Hq]]; [by left|right].
    destruct (lookup_inode _ _ _ Hj Hq ltac:(done)) as (i & Hi & _). by exists i. }
  apply wp_OpenFile; [by auto..|by intros p Hr; apply Hp| |].
  - intros p i c Hr H1 H2. destruct (Hp p Hr) as (Ht & _ & Hs). apply (Hk i c); [done|]. rewrite Ht.
    split_and!; [done..|]. by destruct Hs as [->|]; [exists i|].
  - intros p Hr Ho i. destruct (Hp p Hr) as (Ht & Hpj & Hs). pose proof (wf_free _ _ Hw Ho) as Hno. apply (Hk i []).
    + split; [by apply wf_create|rewrite Ht; by apply frame_create|done..|].
      intros n _ Hn. simpl. rewrite Ht in Hn. by rewrite lookup_insert_ne.
    + rewrite Ht. split_and!; simpl; [by rewrite lookup_insert_eq|by rewrite lookup_app_r, Nat.sub_diag by lia|].
      destruct (decide (p = temp)) as [->|Hne]; [rewrite lookup_insert_eq; by eexists|].
      rewrite lookup_insert_ne by done. by destruct Hs.
Qed.

Lemma fetchRest_spec i c (Q : list byte -> World -> Prop) w :
  handled m w0 w -> holds m target i c w -> len c <= mSize m ->
  (forall data w', handled m w0 w' -> holds m target i data w' -> len data = mSize m -> Q data w') ->
  wp (fetchRest m i c) Q E D w.
Proof.
  intros Hh Hc Hl HQ. unfold fetchRest. wp_if; [wp_step; apply HQ; [done..|lia]|].
  wp_step. wp_step; [by auto|]. wp_step. wp_step; [|by auto]. wp_step. wp_step; [|by auto].
  apply wp_call'; [by auto|]. wp_step. wp_step; [by auto|].
  set (copied := ztake _ _). wp_step. wp_step.
  assert (Hh' : handled m w0 (setContent i (c ++ copied) w)) by by eapply handled_content.
  wp_step. wp_step; [|by auto]. wp_step. wp_step; [|by auto]. wp_step.
  apply HQ; [done|by eapply holds_content|]. rewrite len_app. case_match; [lia|done].
Qed.

Lemma publish_spec i data name (Q : unit -> World -> Prop) w :
  wf w -> frame temp target w0 w -> holds m target i data w -> journal w <> NoJournal ->
  len data = mSize m -> digestMatches data (mSHA256 m) = true -> outcome m w0 w ->
  (forall w', journal w' = journal w -> published w' = published w ++ [(mTransferID m, name)] ->
     (straight m w0 -> named m name w') -> outcome m w0 w') ->
  (forall w', after m w0 w' -> journal w' = journal w -> published w' = published w ++ [(mTransferID m, name)] ->
     (straight m w0 -> named m name w') -> Q tt w') ->
  wp (publish journalText root m name) Q E D w.
Proof.
  intros Hw Hf (Hi & Hc & Hex) Hj Hlen Hdig Hs Hl HQ. unfold publish. wp_step.
  apply wp_Link; [by split_and!|wp_step; wp_step; [done|by split_and!]|].
  intros i' Hi' Ho.
  pose proof (lookup_free _ _ Ho Hj) as Hfree. pose proof (wf_free _ _ Hw Ho) as Hno.
  assert (Hne : name <> temp) by (intros ->; by rewrite Hi' in Hno).
  assert (Hnt : name <> target) by (intros ->; by rewrite Hi in Hno).
  assert (Hst : straight m w0 -> i' = i) by (unfold straight; intros Hx; rewrite Hx in Hi; congruence).
  assert (Hnj : name <> journalName).
  { intros ->. unfold Inbox.lookup_name in Ho. rewrite bool_decide_true in Ho by done. by destruct (journal w). }
  set (w1 := _ <| published := _ |>).
  assert (Ha1 : after m w0 w1).
  { split_and!; [by eapply wf_link| |].
    - eapply frame_trans; [done|]. by apply frame_link.
    - apply Hl; [done..|]. intros ->%Hst. exists data. split; [|done]. rewrite Hfree. simpl. by rewrite lookup_insert_eq. }
  set (w2 := w1 <| names := delete temp (names w1) |>).
  assert (Hn2 : straight m w0 -> named m name w2).
  { intros ->%Hst. exists data. split; [|done]. rewrite Hfree. simpl. by rewrite lookup_delete_ne, lookup_insert_eq. }
  assert (Ha2 : after m w0 w2).
  { destruct Ha1 as (H1 & H2 & H3). split_and!; [by apply wf_remove| |by apply Hl].
    eapply frame_trans; [done|]. apply frame_remove. }
  wp_step. wp_step; [|done]. apply wp_call'; [done|]. wp_step. apply wp_Remove; [done| |].
  - wp_step. apply wp_inboxCall; [done| |by wp_step]. wp_step; [|done]. by apply HQ.
  - wp_step. apply wp_Remove; [done|by wp_step|by wp_step].
Qed.

Lemma reserveName_spec i c e (Q : gostring -> World -> Prop) w :
  handled m w0 w -> holds m target i c w -> e = entriesOf (journal w0) -> e !! mTransferID m = None ->
  (forall name at_, firstFree journalText (Z.to_nat 10000) 1 (mBasename m) w = Some name ->
     Q name (w <| journal := Journal (newEntry m name at_ e) |>)) ->
  wp (reserveName journalText m e) Q E D w.
Proof.
  intros Hh Hc He Hn HQ. unfold reserveName, availableName. wp_step. wp_step. wp_step; [by auto|].
  wp_step. wp_step. destruct (firstFree _ _ _ _ _) as [name|] eqn:Hff; [|wp_step; by auto].
  wp_if; [|wp_step; by auto]. wp_step. wp_step. wp_step; [by auto|].
  assert (Ha : forall at_, after m w0 (w <| journal := Journal (newEntry m name at_ e) |>)).
  { intros at_. destruct Hh as [H1 H2 H3 H4 H5]. split_and!; [by split; apply H1| |].
    - eapply frame_trans; [done|]. apply frame_journal.
    - subst e. eapply out_reserved; [done..| |done].
      exists w. split_and!; [done|apply Hc|done..]. }
  fold (newEntry m name (rNow r0) e). wp_step. apply wp_saveJournal; [by auto|..].
  - wp_step. wp_step; [|done]. wp_step. by apply HQ.
  - wp_step. wp_step; [done|]. by auto.
  - wp_step. wp_step; [done|]. by auto.
Qed.
End steps.

(** The path is that of a file of the manifest's size and digest. *)
Definition delivered (m : InboxManifest) (path : gostring) (w : World) : Prop :=
  exists name, path = inboxPrefix ++ name /\ named m name w.

Lemma TrimPrefix_ne v p : TrimPrefix v p <> v -> v = p ++ TrimPrefix v p.
Proof.
  unfold TrimPrefix. case_bool_decide as H; [|done]. intros _.
  rewrite <- (take_drop (length p) v) at 1. by rewrite H.
Qed.

Lemma TrimPrefix_app p v : TrimPrefix (p ++ v) p = v.
Proof. unfold TrimPrefix. by rewrite take_app_length, bool_decide_true, drop_app_length. Qed.

Lemma wp_checkPrior m p E D (Q : option gostring -> World -> Prop) w : D w -> (forall e, E e w) ->
  (forall name, rcPath p = inboxPrefix ++ name -> isBase name = true -> delivered m (rcPath p) w -> Q (Some (rcPath p)) w) ->
  (forall name, rcPath p = inboxPrefix ++ name -> isBase name = true -> Q None w) ->
  wp (checkPrior journalText m p) Q E D w.
Proof.
  intros HD HE H1 H2. unfold checkPrior. wp_step. wp_step; [|by auto]. wp_step. wp_step; [|by auto].
  assert (Hp : rcPath p = inboxPrefix ++ TrimPrefix (rcPath p) inboxPrefix /\ isBase (TrimPrefix (rcPath p) inboxPrefix) = true).
  { destruct (bool_decide _) eqn:Hb in H0; [done|]. apply bool_decide_eq_false in Hb.
    destruct (isBase _); [|done]. split; [by apply TrimPrefix_ne|done]. }
  destruct Hp as [Hp Hb]. wp_step. apply wp_inboxCall; [done| |wp_step; wp_step; by auto].
  wp_step. wp_step; [|done]. wp_step. wp_step. destruct (lookup_name _ w) as [[c|q|]|] eqn:Ho; [|by wp_step; eapply H2..].
  wp_step. wp_step; [|by auto]. wp_step. apply wp_inboxCall; [done| |wp_step; wp_step; by auto].
  wp_step. wp_step; [|done]. wp_step. wp_step; [|by auto]. wp_step. eapply H1; [done..|].
  exists (TrimPrefix (rcPath p) inboxPrefix). split; [done|]. exists c. repeat case_match; try done. split_and!; [done|lia|done].
Qed.

(** The entry of the journal that a delivery goes by. *)
Definition receiptOf (m : InboxManifest) (path : gostring) (w0 w : World) : Prop :=
  (exists p, entriesOf (journal w0) !! mTransferID m = Some p /\ rcPath p = path /\ journal w = journal w0)
  \/ exists name at_, entriesOf (journal w0) !! mTransferID m = None /\ path = inboxPrefix ++ name
       /\ journal w = Journal (newEntry m name at_ (entriesOf (journal w0))).

(** What a delivery that returns a path has done. *)
Definition finished (m : InboxManifest) (w0 : World) (path : gostring) (w : World) : Prop :=
  after m w0 w /\ (straight m w0 -> delivered m path w) /\ receiptOf m path w0 w.

(** The temporary file is fetched and verified before what follows. *)
Lemma fetch_spec m w0 (k : M gostring) : wf w0 ->
  (forall i data w, handled m w0 w -> holds m (tempTarget (mTransferID m) w0) i data w -> len data = mSize m ->
     digestMatches data (mSHA256 m) = true ->
     wp k (finished m w0) (fun _ w => after m w0 w) (after m w0) w) ->
  wp ('(i, c) ← openTemp journalText root m; data ← fetchRest m i c;
      if negb (digestMatches data (mSHA256 m))
      then Remove (tempName (mTransferID m)) ≫= fun _ => fail [ErrDigestMismatch]
      else e ← external; check e ≫= fun _ => e ← external; check e ≫= fun _ => k)
    (finished m w0) (fun _ w => after m w0 w) (after m w0) w0.
Proof.
  intros Hw Hk. wp_step. apply openTemp_spec; [done|]. intros i c w1 H1 H2 H3. cbn. wp_step.
  apply fetchRest_spec; [done..|]. intros data w2 H4 H5 H6. destruct (digestMatches _ _) eqn:Hd; cbn [negb].
  - apply wp_call'; [by auto|]. apply wp_call'; [by auto|]. by eapply Hk.
  - wp_step. apply wp_Remove; [by auto| |by wp_step; auto]. wp_step. apply handled_after.
    destruct H4 as [? ? ? ? Hof]. split; [by apply wf_remove| |done..|].
    + eapply frame_trans; [done|]. apply frame_remove.
    + intros n Hn Ht. simpl. rewrite lookup_delete_ne by done. by apply Hof.
Qed.

(** A transfer with a receipt, whose file is not there. *)
Lemma again_spec m w0 e p name : wf w0 -> journal w0 = Journal e -> e !! mTransferID m = Some p ->
  rcPath p = inboxPrefix ++ name -> forall i data w, handled m w0 w ->
  holds m (tempTarget (mTransferID m) w0) i data w -> len data = mSize m -> digestMatches data (mSHA256 m) = true ->
  wp ('(n, path) ← mret (TrimPrefix (rcPath p) inboxPrefix, rcPath p);
      publish journalText root m n ≫= fun _ => mret path) (finished m w0) (fun _ w => after m w0 w) (after m w0) w.
Proof.
  intros Hw Hj Hp Hn i data w [H1 H2 H3 H4 H5] Hc Hl Hd. rewrite Hn, TrimPrefix_app. do 2 wp_step. cbn. wp_step.
  apply (publish_spec m w0 i data); [done..|by rewrite H3, Hj|done|done|by apply out_nothing| |].
  - intros w' Hj' Hp' Hnm. eapply out_again; [by rewrite Hj|done|by rewrite Hj'|by rewrite Hp', H4|done].
  - intros w' Ha Hj' _ Hnm. wp_step. split_and!; [done|intros Hs; exists name; split; [done|by apply Hnm]|].
    left. exists p. rewrite Hj. split_and!; [done..|]. by rewrite Hj', H3.
Qed.

(** A transfer without one. *)
Lemma new_spec m w0 e : wf w0 -> e = entriesOf (journal w0) -> e !! mTransferID m = None ->
  forall i data w, handled m w0 w -> holds m (tempTarget (mTransferID m) w0) i data w -> len data = mSize m ->
  digestMatches data (mSHA256 m) = true ->
  wp ('(n, path) ← (n ← reserveName journalText m e; mret (n, inboxPrefix ++ n));
      publish journalText root m n ≫= fun _ => mret path) (finished m w0) (fun _ w => after m w0 w) (after m w0) w.
Proof.
  intros Hw Hent Hp i data w Hh1 Hc Hl Hd. wp_step. wp_step. apply (reserveName_spec m w0 i data); [done..|].
  intros name at_ Hff. wp_step. cbn. wp_step. destruct Hh1 as [H1 H2 H3 H4 H5].
  assert (Hch : chosen m w0 name) by (exists w; split_and!; [done|apply Hc|done..]).
  apply (publish_spec m w0 i data); [by split; apply H1| |done..| | |].
  - eapply frame_trans; [done|]. apply frame_journal.
  - eapply out_reserved; [by rewrite <- Hent|by rewrite <- Hent|done..].
  - intros w' Hj' Hp' Hnm. eapply out_new; [by rewrite <- Hent|by rewrite Hj', <- Hent|by rewrite Hp'; simpl; rewrite H4|done|done].
  - intros w' Ha Hj' _ Hnm. wp_step. split_and!; [done|intros Hs; exists name; split; [done|by apply Hnm]|].
    right. exists name, at_. rewrite <- Hent. by rewrite Hj'.
Qed.

Lemma Deliver_spec m w0 : wf w0 ->
  wp (Deliver m) (finished m w0) (fun _ w => after m w0 w) (after m w0) w0.
Proof.
  intros Hw. assert (Hh : handled m w0 w0) by by apply handled_refl. unfold Inbox.Deliver.
  wp_step. wp_step; [|by auto]. apply wp_call'; [by auto|]. apply wp_call'; [by auto|].
  wp_step. apply wp_loadJournal; [by auto..|]. intros e He.
  assert (Hent : e = entriesOf (journal w0)) by by destruct He as [->|[-> ->]].
  destruct (e !! mTransferID m) as [p|] eqn:Hp.
  - assert (Hj : journal w0 = Journal e) by by destruct He as [|[_ ->]].
    wp_step. apply wp_checkPrior; [by auto..| |].
    + intros name Hn _ Hd. wp_step. split_and!; [by auto|done|]. left. exists p. by rewrite <- Hent.
    + intros name Hn _. apply fetch_spec; [done|]. by eapply again_spec.
  - wp_step. wp_step. apply fetch_spec; [done|]. by apply new_spec.
Qed.
End delivery.
