(* ===== verification/InboxLife.v ===== *)
(** * The inbox: its properties

    Deliveries over any failures, deaths of the process and changes of the user's files. *)
From S2P Require Import Prelude.
From S2P Require Import Sha256.
From S2P Require Import TransferCodec.
From S2P Require Import TransferKeys.
From S2P Require Import UpdateGate.
From S2P Require Import Effects.
From S2P Require Import Inbox.
From S2P Require Import InboxProps.
Set Warnings "-clear-no-such-hyp".

Section life.
Context (journalText : Entries -> list byte) (root MachineID : gostring).
Abbreviation lookup_name := (lookup_name journalText).
Abbreviation Deliver := (Deliver journalText root MachineID).
Abbreviation delivered := (delivered journalText).

(** ** Runs *)

(** A delivery of a known transfer, wherever it stops, or any change of the user to files that
    are not the journal. *)
Inductive inboxStep (ids : gset gostring) : World -> World -> Prop :=
| step_deliver m w rs : mTransferID m ∈ ids -> inboxStep ids w (Deliver m w rs).1
| step_user w w' : journal w' = journal w -> published w' = published w -> wf w' -> inboxStep ids w w'.

(** An inbox without a journal. *)
Definition newInbox (w : World) : Prop := wf w /\ journal w = NoJournal /\ published w = [].

Record IInv (ids : gset gostring) (w : World) : Prop := {
  ii_wf : wf w;
  ii_text : match journal w with CorruptJournal _ => False | _ => True end;
  ii_ids : dom (entriesOf (journal w)) ⊆ ids;
  ii_published : forall T n, (T, n) ∈ published w ->
    exists p, entriesOf (journal w) !! T = Some p /\ rcPath p = inboxPrefix ++ n }.

Lemma newInbox_inv ids w : newInbox w -> IInv ids w.
Proof.
  intros (H1 & H2 & H3). split; [done|by rewrite H2|rewrite H2; simpl; set_solver|].
  rewrite H3. intros T n H. by apply elem_of_nil in H.
Qed.

Lemma boundLoop_small n e : Z.of_nat (size e) <= maxJournalEntries -> boundLoop n e = e.
Proof. intros H. destruct n; [done|]. simpl. by replace (_ <=? _) with true by lia. Qed.

(** With room in the journal a new entry displaces none. *)
Lemma newEntry_room ids m name at_ e : Z.of_nat (size ids) <= maxJournalEntries -> dom e ⊆ ids ->
  mTransferID m ∈ ids ->
  newEntry m name at_ e = <[mTransferID m := mkReceipt (mSHA256 m) (inboxPrefix ++ name) at_]> e.
Proof.
  intros Hs Hd Hm. apply boundLoop_small. rewrite <- size_dom, dom_insert.
  assert ((size ({[mTransferID m]} ∪ dom e) <= size ids)%nat) by (apply subseteq_size; set_solver). lia.
Qed.

Lemma outcome_inv ids m w w' : Z.of_nat (size ids) <= maxJournalEntries -> mTransferID m ∈ ids ->
  IInv ids w -> wf w' -> outcome journalText root m w w' ->
  IInv ids w' /\ entriesOf (journal w) ⊆ entriesOf (journal w').
Proof.
  intros Hs Hm Hi Hw Ho. pose proof (ii_ids _ _ Hi) as Hids.
  assert (Hnew : forall name at_ j, entriesOf (journal w) !! mTransferID m = None ->
    j = Journal (newEntry m name at_ (entriesOf (journal w))) ->
    entriesOf j = <[mTransferID m := mkReceipt (mSHA256 m) (inboxPrefix ++ name) at_]> (entriesOf (journal w))
    /\ entriesOf (journal w) ⊆ entriesOf j /\ dom (entriesOf j) ⊆ ids).
  { intros name at_ j Hn ->. simpl. rewrite (newEntry_room ids) by done.
    split; [done|]. split; [by apply insert_subseteq|]. rewrite dom_insert. set_solver. }
  assert (Hkeep : forall j, entriesOf (journal w) ⊆ entriesOf j -> forall T n, (T, n) ∈ published w ->
    exists p, entriesOf j !! T = Some p /\ rcPath p = inboxPrefix ++ n).
  { intros j Hj T n H. destruct (ii_published _ _ Hi T n H) as (p & Hp & Hpath).
    exists p. split; [|done]. by eapply lookup_weaken. }
  destruct Ho as [Hj Hp _|name at_ Hn Hj Hp _ _|p name Hn Hpath Hj Hp _|name at_ Hn Hj Hp _ _].
  - rewrite Hj. split; [|done]. split; [done|rewrite Hj; apply Hi..|rewrite Hj, Hp; apply Hi].
  - destruct (Hnew name at_ _ Hn Hj) as (He & Hsub & Hd). split; [|done].
    split; [done|by rewrite Hj|done|]. rewrite Hp. by apply Hkeep.
  - rewrite Hj. split; [|done]. split; [done|rewrite Hj; apply Hi..|]. rewrite Hj, Hp. intros T n.
    rewrite elem_of_app, list_elem_of_singleton. intros [H|[= -> ->]]; [by apply Hi|]. by exists p.
  - destruct (Hnew name at_ _ Hn Hj) as (He & Hsub & Hd). split; [|done].
    split; [done|by rewrite Hj|done|]. rewrite Hp. intros T n.
    rewrite elem_of_app, list_elem_of_singleton. intros [H|[= -> ->]]; [by eapply Hkeep|].
    rewrite He. eexists. split; [apply lookup_insert_eq|done].
Qed.

Lemma Deliver_after m w rs : wf w -> after journalText root m w (Deliver m w rs).1.
Proof.
  intros Hw. pose proof (Deliver_spec journalText root MachineID m w Hw rs) as H.
  destruct (Deliver m w rs) as [w' [|e rest|path rest]]; simpl; [done..|by destruct H].
Qed.

Lemma inboxStep_inv ids w w' : Z.of_nat (size ids) <= maxJournalEntries -> inboxStep ids w w' -> IInv ids w ->
  IInv ids w' /\ entriesOf (journal w) ⊆ entriesOf (journal w').
Proof.
  intros Hs [m w1 rs Hm|w1 w2 Hj Hp Hw] Hi.
  - destruct (Deliver_after m w1 rs (ii_wf _ _ Hi)) as (Hw' & _ & Ho). by eapply outcome_inv.
  - rewrite Hj. split; [|done]. split; [done|rewrite Hj; apply Hi..|rewrite Hj, Hp; apply Hi].
Qed.

Lemma inboxRun_inv ids w w' : Z.of_nat (size ids) <= maxJournalEntries -> rtc (inboxStep ids) w w' -> IInv ids w ->
  IInv ids w' /\ entriesOf (journal w) ⊆ entriesOf (journal w').
Proof.
  intros Hs. induction 1 as [w|w1 w2 w3 H _ IH]; [done|]. intros Hi.
  destruct (inboxStep_inv _ _ _ Hs H Hi) as [H1 H2]. destruct (IH H1) as [H3 H4]. split; [done|].
  by etrans.
Qed.

(** The path that a delivery returned is that of the transfer's receipt. *)
Lemma Deliver_receipt ids m w rs w' path rest : Z.of_nat (size ids) <= maxJournalEntries ->
  mTransferID m ∈ ids -> IInv ids w -> Deliver m w rs = (w', Ret path rest) ->
  IInv ids w' /\
  exists p, entriesOf (journal w') !! mTransferID m = Some p /\ rcPath p = path.
Proof.
  intros Hs Hm Hi H. pose proof (Deliver_spec journalText root MachineID m w (ii_wf _ _ Hi) rs) as Hd.
  rewrite H in Hd. destruct Hd as ((Hw & _ & Ho) & _ & Hr).
  destruct (outcome_inv _ _ _ _ Hs Hm Hi Hw Ho) as [Hi' _]. split; [done|].
  destruct Hr as [(p & Hp & Hpath & Hj)|(name & at_ & Hn & -> & Hj)].
  - exists p. by rewrite Hj.
  - rewrite Hj. simpl. rewrite (newEntry_room ids) by (done || apply Hi).
    eexists. split; [apply lookup_insert_eq|done].
Qed.
End life.

(** ** An inbox *)
Module InboxDemo.
Definition str := String.list_byte_of_string.
Definition text (e : Entries) : list byte := str "{}".
Definition root : gostring := str "/home/user/Paperboat Inbox".
Definition machine : gostring := str "machine".
Definition source : list byte := str "hello".
Definition manifest (id : gostring) (content : list byte) : InboxManifest :=
  mkInboxManifest id machine (str "a.txt") (len content) (hexEncode (Sum256 content)).
Definition first : InboxManifest := Eval vm_compute in manifest (str "t1") source.
Definition second : InboxManifest := Eval vm_compute in manifest (str "t2") (str "other").
Definition empty : World := mkWorld ∅ [] NoJournal [].
Definition serve (content : list byte) : Reply := mkReply true false 1000 200 content.
Definition deliver (m : InboxManifest) := Deliver text root machine m.
(** A delivery without a failure, and one that dies once its name is reserved. *)
Definition saved : World := (deliver first empty (repeat (serve source) 30)).1.
Definition reserved : World := (deliver first empty (repeat (serve source) 15)).1.
Definition plain : gostring := tempName root (str "t2").
Definition ids : gset gostring := {[str "t1"; str "t2"]}.
End InboxDemo.

Lemma demo_newInbox : newInbox InboxDemo.empty.
Proof. by split_and!. Qed.
Lemma demo_ids : Z.of_nat (size InboxDemo.ids) <= maxJournalEntries.
Proof. vm_compute. discriminate. Qed.



(** A link in place of the temporary file is followed: the download goes into the user's file,
    and the name that is returned is the link's. *)
Example linked_temporary_written :
  let linked := mkWorld (<[InboxDemo.plain := 0%nat]> {[bytes "/home/user/notes" := 1%nat]})
                  [Symlink (bytes "/home/user/notes"); Regular []] NoJournal [] in
  let result := InboxDemo.deliver InboxDemo.second linked (repeat (InboxDemo.serve (InboxDemo.str "other")) 30) in
  match result.2 with Ret path _ => path = bytes "Paperboat Inbox/a.txt" | _ => False end
  /\ lookup_name InboxDemo.text (bytes "/home/user/notes") result.1 = Some (Regular (InboxDemo.str "other"))
  /\ lookup_name InboxDemo.text (bytes "a.txt") result.1 = Some (Symlink (bytes "/home/user/notes")).
Proof. vm_compute. split_and!; reflexivity. Qed.

(** A transfer identifier with slashes names a file outside the inbox. *)
Example temporary_outside_inbox :
  tempName InboxDemo.root (bytes "x/../../../.config/app") = bytes "/home/.config/app.part".
Proof. vm_compute. reflexivity. Qed.


