(* ===== verification/InboxRetry.v ===== *)
(** * The inbox: interrupted deliveries

    What attempts that failed or died leave of one transfer, and that a host which serves the
    file and calls that succeed complete it. *)
From S2P Require Import Prelude.
From S2P Require Import Sha256.
From S2P Require Import TransferCodec.
From S2P Require Import TransferKeys.
From S2P Require Import UpdateGate.
From S2P Require Import Effects.
From S2P Require Import Inbox.
From S2P Require Import InboxProps.
From S2P Require Import InboxLife.
Set Warnings "-clear-no-such-hyp".

(** ** Names *)
Lemma ContainsAny_app a b cs : ContainsAny (a ++ b) cs = ContainsAny a cs || ContainsAny b cs.
Proof. unfold ContainsAny. apply existsb_app. Qed.

Lemma Itoa_plain fuel : forall n, 0 <= n -> ContainsAny (Itoa fuel n) [slash] = false.
Proof.
  induction fuel as [|fuel IH]; intros n Hn; [done|]. cbn [Itoa]. rewrite ContainsAny_app.
  assert (H1 : ContainsAny (if n <? 10 then [] else Itoa fuel (n / 10)) [slash] = false).
  { case_match; [done|]. apply IH. apply Z.div_pos; lia. }
  rewrite H1. simpl. pose proof (Z.mod_pos_bound n 10 ltac:(lia)) as Hm.
  assert (Hc : forall k, 0 <= k < 10 -> ContainsAny [byte_of_Z (48 + k)] [slash] = false).
  { intros k Hk. assert (Hall : forallb (fun i => negb (ContainsAny [byte_of_Z (48 + Z.of_nat i)] [slash])) (seq 0 10) = true)
      by reflexivity.
    rewrite forallb_forall in Hall. specialize (Hall (Z.to_nat k) ltac:(apply in_seq; lia)).
    rewrite Z2Nat.id in Hall by lia. by apply negb_true_iff in Hall. }
  by apply Hc.
Qed.

Lemma Ext_suffix v : exists stem, v = stem ++ Ext v.
Proof.
  induction v as [|b r [stem IH]]; [by exists []|]. cbn [Ext].
  destruct (Ext r) as [|x e] eqn:He; [case_bool_decide; [by exists []|exists (b :: r); by rewrite app_nil_r]|].
  exists (b :: stem). by rewrite IH at 1.
Qed.

Lemma numberedName_base b k : negb (empty b) && negb (ContainsAny b [slash]) = true -> isBase (numberedName b k) = true.
Proof.
  intros [He Hs]%andb_true_iff. apply negb_true_iff in Hs. unfold isBase. apply orb_true_iff. right.
  unfold numberedName. destruct (k <=? 1) eqn:Hk; [by rewrite He, Hs|].
  destruct (Ext_suffix b) as [stem Hb]. remember (Ext b) as ex eqn:Hex. clear Hex. subst b.
  rewrite length_app, Nat.add_sub, take_app_length. rewrite ContainsAny_app in Hs. apply orb_false_iff in Hs as [Hs1 Hs2].
  rewrite !ContainsAny_app, Hs1, Hs2, Itoa_plain by lia. apply andb_true_iff. split; [|done].
  unfold empty. rewrite bool_decide_false; [done|]. by destruct stem.
Qed.

Section retry.
Context (journalText : Entries -> list byte) (root MachineID : gostring).
Abbreviation lookup_name := (lookup_name journalText).
Abbreviation Deliver := (Deliver journalText root MachineID).

Lemma firstFree_free fuel : forall k b w n, firstFree journalText fuel k b w = Some n ->
  lookup_name n w = None /\ exists i, n = numberedName b i.
Proof.
  induction fuel as [|fuel IH]; intros k b w n; [done|]. cbn [firstFree].
  destruct (lookup_name _ w) eqn:Hl; [apply IH|]. intros [= <-]. eauto.
Qed.

Lemma firstFree_some fuel : forall k b w i, k <= i < k + Z.of_nat fuel -> lookup_name (numberedName b i) w = None ->
  firstFree journalText fuel k b w <> None.
Proof.
  induction fuel as [|fuel IH]; intros k b w i Hi Hl; [lia|]. cbn [firstFree].
  destruct (lookup_name (numberedName b k) w) eqn:Hk; [|done]. apply (IH _ _ _ i); [|done].
  destruct (decide (i = k)) as [->|]; [by rewrite Hl in Hk|lia].
Qed.

(** Names other than the temporary one are as they were, and so are their lookups. *)
Definition aside (m : InboxManifest) (w w' : World) : Prop :=
  forall n, n <> tempName root (mTransferID m) -> names w' !! n = names w !! n.

Lemma straight_aside m w w' : straight journalText root m w -> offTemp journalText root m w w' -> aside m w w'.
Proof. unfold straight. intros Hs Ho n Hn. apply Ho; [done|]. by rewrite Hs. Qed.

Lemma lookup_aside m n w w' : wf w -> wf w' -> aside m w w' -> n <> tempName root (mTransferID m) ->
  n <> journalName -> lookup_name n w = None -> lookup_name n w' = None.
Proof.
  intros Hw Hw' Ho Hn Hj Hl. pose proof (wf_free _ _ _ Hw Hl) as Hf. unfold Inbox.lookup_name in *.
  rewrite bool_decide_false in * by done. destruct (_ || _ || _); [done|]. by rewrite Ho, Hf.
Qed.

(** Nothing or a regular file has this name. *)
Definition fileOrFree (n : gostring) (w : World) : Prop :=
  match lookup_name n w with None | Some (Regular _) => True | _ => False end.

Lemma fileOrFree_straight m w : fileOrFree (tempName root (mTransferID m)) w -> straight journalText root m w.
Proof. intros H. apply tempTarget_plain. intros q Hq. unfold fileOrFree in H. by rewrite Hq in H. Qed.

(** ** One transfer *)
Section transfer.
Context (m : InboxManifest) (src : list byte) (w0 : World).
Abbreviation temp := (tempName root (mTransferID m)).

(** A host that can deliver: a valid manifest of this content, an inbox with a journal that is
    not corrupt, has room and does not know the transfer, no directory or link in place of the
    temporary file, and a name that is free. *)
Record deliverable : Prop := {
  dv_valid : validateManifest MachineID m = [];
  dv_size : len src = mSize m;
  dv_digest : digestMatches src (mSHA256 m) = true;
  dv_wf : wf w0;
  dv_journal : match journal w0 with CorruptJournal _ => False | _ => True end;
  dv_new : entriesOf (journal w0) !! mTransferID m = None;
  dv_room : Z.of_nat (size (entriesOf (journal w0))) < maxJournalEntries;
  dv_temp : fileOrFree temp w0;
  dv_free : exists k, 1 <= k <= 10000 /\ lookup_name (numberedName (mBasename m) k) w0 = None
              /\ numberedName (mBasename m) k <> temp;
  dv_name : forall k, numberedName (mBasename m) k <> journalName }.

Inductive progress (w : World) : Prop :=
| pr_none : journal w = journal w0 -> aside m w0 w -> progress w
| pr_reserved e p n : journal w = Journal e -> e !! mTransferID m = Some p -> rcPath p = inboxPrefix ++ n ->
    rcDigest p = mSHA256 m -> isBase n = true -> n <> temp -> n <> journalName ->
    lookup_name n w = None \/ named journalText m n w -> progress w.

Record retried (w : World) : Prop := {
  rt_wf : wf w; rt_temp : fileOrFree temp w; rt_progress : progress w }.

Hypothesis Hdv : deliverable.

Lemma newEntry_new name at_ :
  newEntry m name at_ (entriesOf (journal w0))
    = <[mTransferID m := mkReceipt (mSHA256 m) (inboxPrefix ++ name) at_]> (entriesOf (journal w0)).
Proof.
  apply boundLoop_small. rewrite map_size_insert_None by apply Hdv. pose proof (dv_room Hdv). lia.
Qed.

Lemma basename_plain : negb (empty (mBasename m)) && negb (ContainsAny (mBasename m) [slash]) = true.
Proof.
  pose proof (dv_valid Hdv) as H. unfold validateManifest in H.
  destruct (_ || negb (len _ =? 64)); [done|]. destruct (negb (forallb _ _)); [done|].
  destruct (_ || ContainsAny _ _) eqn:Hn; [done|]. apply orb_false_iff in Hn as [Hn Hc].
  repeat (apply orb_false_iff in Hn as [Hn ?]). rewrite Hn. simpl.
  apply negb_true_iff, not_true_iff_false. unfold ContainsAny in *. intros (b & Hb & Hs)%existsb_exists.
  apply not_true_iff_false in Hc. apply Hc. apply existsb_exists. exists b. split; [done|].
  apply bool_decide_eq_true in Hs. apply bool_decide_eq_true. set_solver.
Qed.

Lemma temp_regular w w' : wf w -> fileOrFree temp w -> frame temp temp w w' -> fileOrFree temp w'.
Proof.
  intros Hw Ht Hf. unfold fileOrFree in *. rewrite !lookup_temp in *.
  destruct (names w' !! temp) as [i|] eqn:Hi; [|done]. simpl.
  destruct (inodes w' !! i) as [nd|] eqn:Hnd; [|done].
  assert (Hold : (forall c, nd <> Regular c) -> False); [|by destruct nd; [|apply Hold..]].
  intros Hr. pose proof (fr_special _ _ _ _ Hf _ _ Hnd Hr) as Hnd'.
  destruct (fr_temp _ _ _ _ Hf _ Hi) as [Hx|Hx]; [|apply lookup_lt_Some in Hnd'; lia].
  rewrite Hx in Ht. simpl in Ht. rewrite Hnd' in Ht. destruct nd; try done. by eapply Hr.
Qed.

(** A transfer whose file is there is left alone. *)
Lemma Deliver_named e p n w : journal w = Journal e -> e !! mTransferID m = Some p ->
  rcPath p = inboxPrefix ++ n -> named journalText m n w ->
  wp (Deliver m) (fun _ w' => w' = w) (fun _ w' => w' = w) (fun w' => w' = w) w.
Proof.
  intros Hj He Hp (c & Hc & Hl & Hd). unfold Inbox.Deliver. wp_step. wp_step; [|done].
  wp_step. apply wp_inboxCall; [done| |wp_step; by wp_step]. wp_step. wp_step; [|done].
  wp_step. apply wp_inboxCall; [done| |wp_step; by wp_step]. wp_step. wp_step; [|done].
  wp_step. apply wp_loadJournal; [done..|]. intros e' [Hj'|[Hj' _]]; rewrite Hj in Hj'; [|done].
  injection Hj' as <-. rewrite He. wp_step. unfold checkPrior. wp_step. wp_step; [|done].
  rewrite Hp, TrimPrefix_app. wp_step. wp_step; [|done].
  wp_step. apply wp_inboxCall; [done| |wp_step; by wp_step]. wp_step. wp_step; [|done].
  wp_step. wp_step. rewrite Hc. wp_step. wp_step; [|done].
  wp_step. apply wp_inboxCall; [done| |wp_step; by wp_step]. wp_step. wp_step; [|done].
  wp_step. wp_step; [|done]. wp_step. by wp_step.
Qed.

Lemma chosen_plain w name : straight journalText root m w -> chosen journalText root m w name ->
  isBase name = true /\ name <> temp /\ name <> journalName
  /\ forall w', wf w' -> aside m w w' -> lookup_name name w' = None.
Proof.
  intros Hs (w1 & Hw1 & [i Hi] & Ho1 & Hj & Hff). apply firstFree_free in Hff as [Hl [k ->]].
  apply (straight_aside _ _ _ Hs) in Ho1.
  assert (Hne : numberedName (mBasename m) k <> temp).
  { intros Hx. apply (wf_free _ _ _ Hw1) in Hl. by rewrite Hx, Hi in Hl. }
  split_and!; [apply numberedName_base, basename_plain|done|apply Hdv|].
  intros w' Hw' Ho. apply (lookup_aside m _ w1); [done..| |done|apply Hdv|done]. intros n Hn. by rewrite Ho, Ho1.
Qed.

Lemma retried_step w rs : retried w -> retried (Deliver m w rs).1.
Proof.
  intros [Hw Ht Hp]. destruct (Deliver_after journalText root MachineID m w rs Hw) as (Hw' & Hf & Ho).
  pose proof (fileOrFree_straight _ _ Ht) as Hs. unfold straight in Hs. rewrite Hs in Hf.
  pose proof (temp_regular _ _ Hw Ht Hf) as Ht'. split; [done..|].
  destruct Hp as [Hj Hn|e p n Hj He Hpath Hdg Hb Hne Hnj [Hl|Hl]].
  - assert (Hent : forall name at_ w', chosen journalText root m w name ->
      lookup_name name w' = None \/ named journalText m name w' ->
      journal w' = Journal (newEntry m name at_ (entriesOf (journal w))) -> progress w').
    { intros name at_ w' Hc Hl Hj'. destruct (chosen_plain _ _ Hs Hc) as (H1 & H2 & H3 & _).
      rewrite Hj, newEntry_new in Hj'. eapply (pr_reserved _ _ _ name); [done|apply lookup_insert_eq|done..]. }
    destruct Ho as [Hj' _ Hn'|name at_ _ Hj' _ Hc Hn'|p name Hp _ _ _ _|name at_ _ Hj' _ Hc Hn'].
    + apply pr_none; [by rewrite Hj'|]. intros k Hk. by rewrite (straight_aside _ _ _ Hs Hn'), Hn.
    + eapply Hent; [done| |done]. left. apply (chosen_plain _ _ Hs Hc); [done|]. by apply straight_aside.
    + by rewrite Hj, (dv_new Hdv) in Hp.
    + eapply Hent; [done|right; by apply Hn'|done].
  - destruct Ho as [Hj' _ Hn'|name at_ H0 _ _ _ _|p' name Hp' Hpath' Hj' _ Hn'|name at_ H0 _ _ _ _];
      try (by rewrite Hj in H0; simpl in H0; rewrite He in H0).
    + eapply (pr_reserved _ e p n); [by rewrite Hj'|done..|]. left.
      apply (lookup_aside m _ w); [done|done|by apply straight_aside|done|done|done].
    + rewrite Hj in Hp'. simpl in Hp'. rewrite He in Hp'. injection Hp' as <-. rewrite Hpath in Hpath'.
      apply app_inv_head in Hpath' as <-. eapply (pr_reserved _ e p n); [by rewrite Hj'|done..|]. right. by apply Hn'.
  - pose proof (Deliver_named e p n w Hj He Hpath Hl rs) as Hd.
    destruct (Deliver m w rs) as [w' [| |]]; simpl in *; subst w'; apply (pr_reserved _ e p n); auto.
Qed.

(** ** Replies of a host that serves the file *)

(** The program returns, or returns early, after [n] times the same reply. *)
Definition returns {A} (r : Reply) (n : nat) (p : M A) (w : World) (a : A) (w' : World) : Prop :=
  forall rest, p w (replicate n r ++ rest) = (w', Ret a rest).
Definition breaks {A} (r : Reply) (n : nat) (p : M A) (w : World) (e : list InboxError) (w' : World) : Prop :=
  forall rest, p w (replicate n r ++ rest) = (w', Failed e rest).

Section replies.
Context (r : Reply) (Hok : rOk r = true).

Lemma returns_ret {A} (a : A) w : returns r 0 (mret a) w a w.
Proof. by intros rest. Qed.
Lemma returns_get {A} (f : World -> A) w : returns r 0 (get f) w (f w) w.
Proof. by intros rest. Qed.
Lemma returns_modify f w : returns r 0 (modify f) w tt (f w).
Proof. by intros rest. Qed.
Lemma returns_next w : returns r 1 next w r w.
Proof. by intros rest. Qed.
Lemma breaks_fail {A} e w : breaks r 0 (fail e : M A) w e w.
Proof. by intros rest. Qed.
Lemma returns_bind {A B} n n' (p : M A) (k : A -> M B) w a w1 b w2 :
  returns r n p w a w1 -> returns r n' (k a) w1 b w2 -> returns r (n + n') (p ≫= k) w b w2.
Proof.
  intros H1 H2 rest. unfold mbind, Prog_bind. rewrite replicate_add, <- app_assoc, H1. apply H2.
Qed.
Lemma breaks_bind {A B} n n' (p : M A) (k : A -> M B) w a w1 e w2 :
  returns r n p w a w1 -> breaks r n' (k a) w1 e w2 -> breaks r (n + n') (p ≫= k) w e w2.
Proof.
  intros H1 H2 rest. unfold mbind, Prog_bind. rewrite replicate_add, <- app_assoc, H1. apply H2.
Qed.
Lemma breaks_first {A B} n (p : M A) (k : A -> M B) w e w1 :
  breaks r n p w e w1 -> breaks r n (p ≫= k) w e w1.
Proof. intros H rest. unfold mbind, Prog_bind. by rewrite H. Qed.

Lemma returns_external w : returns r 1 external w [] w.
Proof. intros rest. unfold external, mbind, Prog_bind. simpl. by rewrite Hok. Qed.
Lemma returns_call {A} n (k : M A) w a w' : returns r n k w a w' ->
  returns r (1 + n) (e ← external; check e ≫= fun _ => k) w a w'.
Proof. intros H. eapply returns_bind; [apply returns_external|]. by intros rest. Qed.
Lemma breaks_call {A} n (k : M A) w e w' : breaks r n k w e w' ->
  breaks r (1 + n) (e ← external; check e ≫= fun _ => k) w e w'.
Proof. intros H. eapply breaks_bind; [apply returns_external|]. by intros rest. Qed.
Lemma returns_check {A} n e (k : M A) w a w' : e = [] -> returns r n k w a w' ->
  returns r n (check e ≫= fun _ => k) w a w'.
Proof. by intros -> H rest. Qed.
Lemma breaks_check {A} n e (k : M A) w err w' : e = [] -> breaks r n k w err w' ->
  breaks r n (check e ≫= fun _ => k) w err w'.
Proof. by intros -> H rest. Qed.
Lemma returns_Remove n w : returns r 1 (Remove n) w true (w <| names := delete n (names w) |>).
Proof. intros rest. unfold Remove, mbind, Prog_bind. simpl. by rewrite Hok. Qed.

(** The journal that the process reads is the one on disk. *)
Lemma returns_loadJournal w : match journal w with CorruptJournal _ => False | _ => True end ->
  returns r 1 loadJournal w (entriesOf (journal w)) w.
Proof.
  intros H rest. unfold loadJournal, mbind, Prog_bind. simpl.
  destruct (journal w); [done..|]. by rewrite Hok.
Qed.

Lemma returns_publish i data name w : wf w -> holds root m temp i data w -> journal w <> NoJournal ->
  lookup_name name w = None -> exists w', returns r 4 (publish journalText root m name) w tt w'.
Proof.
  intros Hw Hc Hj Hl. eexists. unfold publish.
  apply (returns_bind 1 3 _ _ _ [] ((w <| names := <[name := i]> (names w) |>)
                                       <| published := published w ++ [(mTransferID m, name)] |>)).
  { intros rest. unfold Link, mbind, Prog_bind. simpl. rewrite (proj1 Hc), Hl, Hok. done. }
  apply returns_check; [done|]. apply returns_call. apply (returns_bind 1 1 _ _ _ true _ _ _ (returns_Remove _ _)).
  intros rest. unfold mbind, Prog_bind. simpl. rewrite Hok. done.
Qed.
End replies.

(** ** An attempt at such a host *)
Definition tempContent (w : World) : list byte :=
  match lookup_name temp w with Some (Regular c) => c | _ => [] end.
(** Every call succeeds, and the content is served from the offset of the temporary file. *)
Definition honest (at_ : Z) (w : World) : Reply :=
  mkReply true false at_ (if len (tempContent w) =? 0 then 200 else 206) (zdrop (len (tempContent w)) src).

(** The temporary file, opened. *)
Lemma resolve_file n w : fileOrFree n w -> resolve journalText maxLinks n w = Some n.
Proof.
  unfold fileOrFree, maxLinks. intros H. cbn [resolve]. by destruct (lookup_name n w) as [[]|].
Qed.

Lemma opened r w : rOk r = true -> wf w -> fileOrFree temp w -> exists i w1,
  returns r 1 (OpenFile journalText temp) w i w1 /\ holds root m temp i (tempContent w) w1 /\ wf w1
  /\ journal w1 = journal w /\ aside m w w1.
Proof.
  intros Hok Hw Ht. pose proof (resolve_file _ _ Ht) as Hr. unfold tempContent, fileOrFree in *.
  destruct (lookup_name temp w) as [[c|q|]|] eqn:Hl; [|done..|].
  - pose proof Hl as Hl'. rewrite lookup_temp in Hl'. destruct (names w !! temp) as [i|] eqn:Hi; [|done]. simpl in Hl'.
    exists i, w. split_and!; [|by split_and!; [..|eexists]|done..]. intros rest. unfold OpenFile, mbind, Prog_bind.
    cbn [replicate app next]. rewrite Hok. cbn -[resolve Inbox.lookup_name maxLinks].
    by rewrite Hr, Hl, Hi.
  - eexists (length (inodes w)), _. split_and!.
    + intros rest. unfold OpenFile, mbind, Prog_bind. cbn [replicate app next]. rewrite Hok.
      cbn -[resolve Inbox.lookup_name maxLinks]. by rewrite Hr, Hl.
    + split_and!; simpl; [by rewrite lookup_insert_eq|by rewrite lookup_app_r, Nat.sub_diag by lia|].
      rewrite lookup_insert_eq. by eexists.
    + apply wf_create; [done|]. apply tempName_plain.
    + done.
    + intros n Hn. simpl. by rewrite lookup_insert_ne.
Qed.

Lemma holds_temp i c w : holds root m temp i c w -> tempContent w = c.
Proof. intros (H1 & H2 & _). unfold tempContent. by rewrite lookup_temp, H1; simpl; rewrite H2. Qed.

(** Fetching, verifying and what comes after. *)
Definition fetchThen (k : M gostring) : M gostring :=
  '(i, c) ← openTemp journalText root m; data ← fetchRest m i c;
  if negb (digestMatches data (mSHA256 m))
  then Remove temp ≫= fun _ => fail [ErrDigestMismatch]
  else e ← external; check e ≫= fun _ => e ← external; check e ≫= fun _ => k.

Section attempt.
Context (at_ : Z) (w : World).
Abbreviation r := (honest at_ w).
Abbreviation c := (tempContent w).

Lemma openTemp_returns : wf w -> fileOrFree temp w -> len c <= mSize m -> exists i w1,
  returns r 4 (openTemp journalText root m) w (i, c) w1 /\ holds root m temp i c w1 /\ wf w1
  /\ journal w1 = journal w /\ aside m w w1.
Proof.
  intros Hw Ht Hl. destruct (opened r w eq_refl Hw Ht) as (i & w1 & H1 & H2 & H3 & H4 & H5).
  exists i, w1. split_and!; [|done..]. unfold openTemp. eapply (returns_bind r 1 3); [done|].
  eapply (returns_bind r 0 3); [apply returns_get|]. unfold contentOf. rewrite (proj1 (proj2 H2)).
  eapply (returns_bind r 1 2); [apply returns_next|]. cbn [rOk honest negb orb].
  replace (mSize m <? len c) with false by lia.
  apply (returns_call r eq_refl 1), (returns_call r eq_refl 0), returns_ret.
Qed.

Lemma fetchRest_returns i w1 : holds root m temp i c w1 -> len c <= mSize m -> exists n w2,
  returns r n (fetchRest m i c) w1 (c ++ zdrop (len c) src) w2 /\ holds root m temp i (c ++ zdrop (len c) src) w2
  /\ names w2 = names w1 /\ journal w2 = journal w1 /\ (wf w1 -> wf w2).
Proof.
  intros Hc Hl. unfold fetchRest. pose proof (dv_size Hdv) as Hs. destruct (mSize m <=? len c) eqn:Hle.
  - exists 0%nat, w1. rewrite zdrop_all, app_nil_r by lia. split_and!; [apply returns_ret|done..].
  - pose proof (len_nonneg c) as Hn.
    assert (Hz : len (zdrop (len c) src) = mSize m - len c) by (rewrite len_zdrop; lia).
    exists 3%nat, (setContent i (c ++ zdrop (len c) src) w1). split_and!; [|by eapply holds_content|done..|by apply wf_content].
    eapply (returns_bind r 1 2); [apply returns_next|]. apply returns_check; [done|]. apply returns_check.
    { cbn [rStatus honest]. destruct (len c =? 0) eqn:H0; repeat case_match; try done; lia. }
    apply (returns_call r eq_refl 1). eapply (returns_bind r 1 0); [apply returns_next|].
    cbn [rData honest rOk]. rewrite ztake_all by lia.
    eapply (returns_bind r 0 0); [apply returns_modify|]. apply returns_check; [done|]. apply returns_check; [|apply returns_ret].
    by replace (_ =? _) with true by lia.
Qed.

Lemma fetchThen_returns k : wf w -> fileOrFree temp w -> len c <= mSize m ->
  digestMatches (c ++ zdrop (len c) src) (mSHA256 m) = true ->
  (forall i w', holds root m temp i (c ++ zdrop (len c) src) w' -> wf w' -> journal w' = journal w -> aside m w w' ->
     exists n path w'', returns r n k w' path w'') ->
  exists n path w', returns r n (fetchThen k) w path w'.
Proof.
  intros Hw Ht Hl Hd Hk. destruct (openTemp_returns Hw Ht Hl) as (i & w1 & H1 & H2 & H3 & H4 & H5).
  destruct (fetchRest_returns i w1 H2 Hl) as (n & w2 & H6 & H7 & H8 & H9 & H10).
  destruct (Hk i w2) as (n' & path & w' & H); [done|by apply H10|by rewrite H9| |].
  { intros x Hx. by rewrite H8, H5. }
  eexists (4 + (n + (1 + (1 + n'))))%nat, path, w'. unfold fetchThen.
  eapply returns_bind; [done|]. eapply returns_bind; [done|]. rewrite Hd. cbn [negb].
  by apply (returns_call r eq_refl), (returns_call r eq_refl).
Qed.

Lemma fetchThen_breaks k : wf w -> fileOrFree temp w ->
  mSize m < len c \/ digestMatches (c ++ zdrop (len c) src) (mSHA256 m) = false ->
  exists n e w', breaks r n (fetchThen k) w e w' /\ tempContent w' = [].
Proof.
  intros Hw Ht Hb. destruct (decide (mSize m < len c)) as [Hlt|Hge].
  - destruct (opened r w eq_refl Hw Ht) as (i & w1 & H1 & H2 & H3 & H4 & H5).
    exists 3%nat, [ErrInvalidSize], (setContent i [] w1). split.
    + unfold fetchThen. apply breaks_first. unfold openTemp. eapply (breaks_bind r 1 2); [done|].
      eapply (breaks_bind r 0 2); [apply returns_get|]. unfold contentOf. rewrite (proj1 (proj2 H2)).
      eapply (breaks_bind r 1 1); [apply returns_next|]. replace (mSize m <? len c) with true by lia.
      rewrite orb_true_r. eapply (breaks_bind r 1 0); [apply returns_next|]. cbn [rOk honest].
      eapply (breaks_bind r 0 0); [apply returns_modify|]. apply breaks_fail.
    + eapply holds_temp, holds_content. done.
  - destruct Hb as [|Hd]; [done|].
    destruct (openTemp_returns Hw Ht) as (i & w1 & H1 & H2 & H3 & H4 & H5); [lia|].
    destruct (fetchRest_returns i w1 H2) as (n & w2 & H6 & H7 & H8 & H9 & H10); [lia|].
    eexists (4 + (n + (1 + 0)))%nat, [ErrDigestMismatch], _. split.
    + unfold fetchThen. eapply breaks_bind; [done|]. eapply breaks_bind; [done|]. rewrite Hd. cbn [negb].
      eapply breaks_bind; [by apply returns_Remove|]. apply breaks_fail.
    + unfold tempContent. rewrite lookup_temp. simpl. by rewrite lookup_delete_eq.
Qed.
End attempt.

Section finish.
Context (at_ : Z) (w : World).
Abbreviation r := (honest at_ w).
Abbreviation c := (tempContent w).

(** The end of a delivery whose name is reserved, or has to be. *)
Definition finishPrior (p : Receipt) : M gostring :=
  '(name, path) ← mret (TrimPrefix (rcPath p) inboxPrefix, rcPath p);
  publish journalText root m name ≫= fun _ => mret path.
Definition finishNew (e : Entries) : M gostring :=
  '(name, path) ← (n ← reserveName journalText m e; mret (n, inboxPrefix ++ n));
  publish journalText root m name ≫= fun _ => mret path.

Lemma finishPrior_returns p n i data w1 : rcPath p = inboxPrefix ++ n -> wf w1 -> holds root m temp i data w1 ->
  journal w1 <> NoJournal -> lookup_name n w1 = None ->
  exists k path w', returns r k (finishPrior p) w1 path w'.
Proof.
  intros Hp Hw Hc Hj Hl. unfold finishPrior. rewrite Hp, TrimPrefix_app.
  destruct (returns_publish r eq_refl i data n w1 Hw Hc Hj Hl) as [w' H].
  eexists (0 + (4 + 0))%nat, _, w'. eapply returns_bind; [apply returns_ret|].
  eapply returns_bind; [done|]. apply returns_ret.
Qed.

Lemma finishNew_returns i data w1 : wf w1 -> holds root m temp i data w1 -> journal w1 = journal w0 -> aside m w0 w1 ->
  exists k path w', returns r k (finishNew (entriesOf (journal w0))) w1 path w'.
Proof.
  intros Hw Hc Hj Hn. destruct (dv_free Hdv) as (k & Hk & Hl & Hne).
  destruct (firstFree journalText (Z.to_nat 10000) 1 (mBasename m) w1) as [name|] eqn:Hff.
  2:{ exfalso. revert Hff. apply (firstFree_some _ _ _ _ k); [lia|].
      apply (lookup_aside m _ w0); [apply Hdv|done|done|done|apply Hdv|done]. }
  destruct (firstFree_free _ _ _ _ _ Hff) as [Hfree [j Hname]].
  set (w2 := w1 <| journal := Journal (newEntry m name at_ (entriesOf (journal w0))) |>).
  destruct (returns_publish r eq_refl i data name w2) as [w' H]; [by split; apply Hw|done|done| |].
  { unfold Inbox.lookup_name in *. rewrite Hname, bool_decide_false in * by apply Hdv. done. }
  eexists (3 + (4 + 0))%nat, _, w'. unfold finishNew. eapply returns_bind.
  - apply (returns_bind r 3 0 _ _ _ name w2); [|apply returns_ret]. unfold reserveName.
    apply (returns_bind r 1 2 _ _ _ name w1).
    { intros rest. unfold availableName, mbind, Prog_bind. cbn [replicate app next get]. by rewrite Hff. }
    eapply (returns_bind r 1 1); [apply returns_next|]. fold (newEntry m name at_ (entriesOf (journal w0))).
    eapply (returns_bind r 1 0 _ _ _ [] w2); [by intros rest|]. apply returns_check; [done|apply returns_ret].
  - eapply returns_bind; [done|]. apply returns_ret.
Qed.

(** The steps before the temporary file. *)
Lemma Deliver_returns n a path w' : match journal w with CorruptJournal _ => False | _ => True end ->
  returns r n (match entriesOf (journal w) !! mTransferID m with
               | Some p => checkPrior journalText m p | None => mret None end) w a w ->
  (exists k, returns r k (match a with
     | Some path => mret path
     | None => fetchThen (match entriesOf (journal w) !! mTransferID m with
                          | Some p => finishPrior p | None => finishNew (entriesOf (journal w)) end)
     end) w path w') -> exists k, returns r k (Deliver m) w path w'.
Proof.
  intros Hj Hp [k Hk]. exists (1 + (1 + (1 + (n + k))))%nat. unfold Inbox.Deliver.
  apply returns_check; [apply Hdv|]. apply (returns_call r eq_refl), (returns_call r eq_refl).
  eapply returns_bind; [by apply returns_loadJournal|]. eapply returns_bind; [done|].
  by destruct a, (entriesOf (journal w) !! mTransferID m).
Qed.

Lemma Deliver_breaks n e w' : match journal w with CorruptJournal _ => False | _ => True end ->
  returns r n (match entriesOf (journal w) !! mTransferID m with
               | Some p => checkPrior journalText m p | None => mret None end) w None w ->
  (exists k, breaks r k (fetchThen (match entriesOf (journal w) !! mTransferID m with
                          | Some p => finishPrior p | None => finishNew (entriesOf (journal w)) end)) w e w') ->
  exists k, breaks r k (Deliver m) w e w'.
Proof.
  intros Hj Hp [k Hk]. exists (1 + (1 + (1 + (n + k))))%nat. unfold Inbox.Deliver.
  apply breaks_check; [apply Hdv|]. apply (breaks_call r eq_refl), (breaks_call r eq_refl).
  eapply breaks_bind; [by apply returns_loadJournal|]. eapply breaks_bind; [done|].
  by destruct (entriesOf (journal w) !! mTransferID m).
Qed.

(** A receipt without its file. *)
Lemma checkPrior_gone p n : rcPath p = inboxPrefix ++ n -> rcDigest p = mSHA256 m -> isBase n = true ->
  lookup_name n w = None -> returns r 1 (checkPrior journalText m p) w None w.
Proof.
  intros Hp Hd Hb Hl. unfold checkPrior. rewrite Hp, TrimPrefix_app.
  apply returns_check; [by rewrite bool_decide_true|]. apply returns_check.
  { rewrite Hb, bool_decide_false; [done|]. intros H. apply (f_equal length) in H. rewrite length_app in H.
    change (length inboxPrefix) with 16%nat in H. lia. }
  apply (returns_call r eq_refl 0). eapply (returns_bind r 0 0); [apply returns_get|]. rewrite Hl. apply returns_ret.
Qed.
Lemma checkPrior_there p n : rcPath p = inboxPrefix ++ n -> rcDigest p = mSHA256 m -> isBase n = true ->
  named journalText m n w -> returns r 2 (checkPrior journalText m p) w (Some (rcPath p)) w.
Proof.
  intros Hp Hd Hb (x & Hl & Hlen & Hdig). unfold checkPrior. rewrite Hp, TrimPrefix_app.
  apply returns_check; [by rewrite bool_decide_true|]. apply returns_check.
  { rewrite Hb, bool_decide_false; [done|]. intros H. apply (f_equal length) in H. rewrite length_app in H.
    change (length inboxPrefix) with 16%nat in H. lia. }
  apply (returns_call r eq_refl 1). eapply (returns_bind r 0 1); [apply returns_get|]. rewrite Hl.
  apply returns_check; [by rewrite Hlen, Z.eqb_refl|]. apply (returns_call r eq_refl 0).
  apply returns_check; [by rewrite Hdig|]. apply returns_ret.
Qed.

Lemma attempt_returns : retried w -> len c <= mSize m -> digestMatches (c ++ zdrop (len c) src) (mSHA256 m) = true ->
  exists n path w', returns r n (Deliver m) w path w'.
Proof.
  intros [Hw Ht Hp] Hl Hd. destruct Hp as [Hj Hn|e p n Hj He Hpath Hdg Hb Hne Hnj Hx].
  - destruct (fetchThen_returns at_ w (finishNew (entriesOf (journal w0))) Hw Ht Hl Hd) as (k & path & w' & Hk).
    { intros i w1 Hc1 Hw1 Hj1 Hn1. eapply finishNew_returns; [done..|by rewrite Hj1|].
      intros x Hx. by rewrite Hn1, Hn. }
    destruct (Deliver_returns 0 None path w') as [k' H]; [rewrite Hj; apply Hdv| | |eauto].
    + rewrite Hj, (dv_new Hdv). apply returns_ret.
    + exists k. by rewrite Hj, (dv_new Hdv).
  - destruct Hx as [Hx|Hx].
    + destruct (fetchThen_returns at_ w (finishPrior p) Hw Ht Hl Hd) as (k & path & w' & Hk).
      { intros i w1 Hc1 Hw1 Hj1 Hn1. eapply (finishPrior_returns p n); [done..|by rewrite Hj1, Hj|].
        by apply (lookup_aside m _ w). }
      destruct (Deliver_returns 1 None path w') as [k' H]; [by rewrite Hj| | |eauto].
      * rewrite Hj. simpl. rewrite He. by apply (checkPrior_gone p n).
      * exists k. rewrite Hj. simpl. by rewrite He.
    + destruct (Deliver_returns 2 (Some (rcPath p)) (rcPath p) w) as [k' H]; [by rewrite Hj| | |eauto].
      * rewrite Hj. simpl. rewrite He. by apply (checkPrior_there p n).
      * exists 0%nat. apply returns_ret.
Qed.

Lemma attempt_breaks : retried w -> mSize m < len c \/ digestMatches (c ++ zdrop (len c) src) (mSHA256 m) = false ->
  (exists n path w', returns r n (Deliver m) w path w')
  \/ exists n e w', breaks r n (Deliver m) w e w' /\ retried w' /\ tempContent w' = [].
Proof.
  intros Hrt Hbad. pose proof Hrt as [Hw Ht Hp].
  assert (Hre : forall n e w', breaks r n (Deliver m) w e w' -> retried w').
  { intros n e w' H. specialize (H []). pose proof (retried_step w (replicate n r ++ []) Hrt) as Hs. by rewrite H in Hs. }
  destruct Hp as [Hj Hn|e p n Hj He Hpath Hdg Hb Hne Hnj Hx].
  - right. destruct (fetchThen_breaks at_ w (finishNew (entriesOf (journal w0))) Hw Ht Hbad) as (k & err & w' & Hk & Hk').
    destruct (Deliver_breaks 0 err w') as [k' H]; [rewrite Hj; apply Hdv| | |exists k', err, w'; eauto].
    + rewrite Hj, (dv_new Hdv). apply returns_ret.
    + exists k. by rewrite Hj, (dv_new Hdv).
  - destruct Hx as [Hx|Hx].
    + right. destruct (fetchThen_breaks at_ w (finishPrior p) Hw Ht Hbad) as (k & err & w' & Hk & Hk').
      destruct (Deliver_breaks 1 err w') as [k' H]; [by rewrite Hj| | |exists k', err, w'; eauto].
      * rewrite Hj. simpl. rewrite He. by apply (checkPrior_gone p n).
      * exists k. rewrite Hj. simpl. by rewrite He.
    + left. destruct (Deliver_returns 2 (Some (rcPath p)) (rcPath p) w) as [k' H]; [by rewrite Hj| | |eauto].
      * rewrite Hj. simpl. rewrite He. by apply (checkPrior_there p n).
      * exists 0%nat. apply returns_ret.
Qed.
End finish.

(** Attempts at the transfer. *)
Inductive attemptStep : World -> World -> Prop :=
| attempt_any w rs : attemptStep w (Deliver m w rs).1.

Lemma retried_run w w' : rtc attemptStep w w' -> retried w -> retried w'.
Proof. induction 1 as [|x y z H _ IH]; [done|]. intros Hr. apply IH. destruct H. by apply retried_step. Qed.

Lemma retried_start : retried w0.
Proof. split; [apply Hdv..|]. by apply pr_none. Qed.

Lemma good_offset w : tempContent w = [] -> len (tempContent w) <= mSize m
  /\ digestMatches (tempContent w ++ zdrop (len (tempContent w)) src) (mSHA256 m) = true.
Proof.
  intros ->. rewrite len_nil, zdrop_0. pose proof (dv_size Hdv). pose proof (len_nonneg src). split; [lia|apply Hdv].
Qed.
End transfer.
End retry.

(** C23: An interrupted delivery completes.  Where the transfer can be delivered, after any
    attempts at it, with any answers of the host, failures and deaths of the process, one or two
    attempts at a host that serves the file, with calls that succeed, save it: the first may
    only clear away what an earlier answer left in the temporary file. *)
Theorem interrupted_delivery_completes journalText root MachineID m src w0 w at1 at2 :
  deliverable journalText root MachineID m src w0 -> rtc (attemptStep journalText root MachineID m) w0 w ->
  (exists n path w', returns (honest journalText root m src at1 w) n (Deliver journalText root MachineID m) w path w'
     /\ delivered journalText m path w')
  \/ exists n e w1, breaks (honest journalText root m src at1 w) n (Deliver journalText root MachineID m) w e w1
     /\ exists n' path w2, returns (honest journalText root m src at2 w1) n' (Deliver journalText root MachineID m) w1 path w2
        /\ delivered journalText m path w2.
Proof.
  intros Hdv Hr. pose proof (retried_run _ _ _ _ _ _ Hdv _ _ Hr (retried_start _ _ _ _ _ _ Hdv)) as Hw.
  assert (Hsaved : forall r n path v v', retried journalText root m w0 v -> returns r n (Deliver journalText root MachineID m) v path v' ->
    delivered journalText m path v').
  { intros r n path v v' [Hv Ht _] H.
    pose proof (Deliver_spec journalText root MachineID m v Hv (replicate n r ++ [])) as Hd.
    rewrite (H []) in Hd. by apply Hd, fileOrFree_straight. }
  assert (Hdone : forall at_ v, retried journalText root m w0 v ->
    len (tempContent journalText root m v) <= mSize m ->
    digestMatches (tempContent journalText root m v ++ zdrop (len (tempContent journalText root m v)) src) (mSHA256 m) = true ->
    exists n path v', returns (honest journalText root m src at_ v) n (Deliver journalText root MachineID m) v path v'
      /\ delivered journalText m path v').
  { intros at_ v Hv Hl Hd. destruct (attempt_returns _ _ _ _ _ _ Hdv at_ v Hv Hl Hd) as (n & path & v' & H).
    exists n, path, v'. split; [done|]. by eapply Hsaved. }
  set (c := tempContent journalText root m w). destruct (decide (len c <= mSize m
    /\ digestMatches (c ++ zdrop (len c) src) (mSHA256 m) = true)) as [[Hl Hd]|Hbad]; [left; by apply Hdone|].
  destruct (attempt_breaks _ _ _ _ _ _ Hdv at1 w Hw) as [(n & path & w' & H)|(n & e & w1 & H & Hw1 & Hc)].
  - destruct (digestMatches (c ++ _) _) eqn:Hd; [left|by right].
    destruct (decide (len c <= mSize m)); [naive_solver|]. subst c. lia.
  - left. exists n, path, w'. split; [done|]. by eapply Hsaved.
  - right. exists n, e, w1. split; [done|]. destruct (good_offset _ _ _ _ _ _ Hdv w1 Hc). by apply Hdone.
Qed.

(** A name with a number is no journal. *)
Lemma demo_names k : numberedName (mBasename InboxDemo.first) k <> journalName.
Proof.
  unfold numberedName. destruct (k <=? 1); [done|]. intros H. apply (f_equal (take 1)) in H. vm_compute in H. done.
Qed.

Lemma demo_deliverable :
  deliverable InboxDemo.text InboxDemo.root InboxDemo.machine InboxDemo.first InboxDemo.source InboxDemo.empty.
Proof.
  split.
  1-3: vm_compute; reflexivity.
  - apply demo_newInbox.
  - exact I.
  - reflexivity.
  - vm_compute. reflexivity.
  - vm_compute. exact I.
  - exists 1. split_and!; [lia..|vm_compute; reflexivity|vm_compute; discriminate].
  - apply demo_names.
Qed.

(** The witness: after a death right after the name was reserved. *)
Lemma interrupted_delivery_completes_witness :
  rtc (attemptStep InboxDemo.text InboxDemo.root InboxDemo.machine InboxDemo.first) InboxDemo.empty InboxDemo.reserved
  /\ ((exists n path w', returns (honest InboxDemo.text InboxDemo.root InboxDemo.first InboxDemo.source 1 InboxDemo.reserved) n
         (Deliver InboxDemo.text InboxDemo.root InboxDemo.machine InboxDemo.first) InboxDemo.reserved path w'
       /\ delivered InboxDemo.text InboxDemo.first path w')
     \/ exists n e w1, breaks (honest InboxDemo.text InboxDemo.root InboxDemo.first InboxDemo.source 1 InboxDemo.reserved) n
         (Deliver InboxDemo.text InboxDemo.root InboxDemo.machine InboxDemo.first) InboxDemo.reserved e w1
       /\ exists n' path w2, returns (honest InboxDemo.text InboxDemo.root InboxDemo.first InboxDemo.source 2 w1) n'
            (Deliver InboxDemo.text InboxDemo.root InboxDemo.machine InboxDemo.first) w1 path w2
          /\ delivered InboxDemo.text InboxDemo.first path w2).
Proof.
  assert (H : rtc (attemptStep InboxDemo.text InboxDemo.root InboxDemo.machine InboxDemo.first) InboxDemo.empty InboxDemo.reserved)
    by apply rtc_once, (attempt_any InboxDemo.text InboxDemo.root InboxDemo.machine InboxDemo.first InboxDemo.empty).
  split; [exact H|].
  exact (interrupted_delivery_completes InboxDemo.text InboxDemo.root InboxDemo.machine InboxDemo.first InboxDemo.source
    InboxDemo.empty InboxDemo.reserved 1 2 demo_deliverable H).
Defined.

(** ** Two transfers *)

(** The name that the journal reserves is only free until another transfer takes it: a delivery
    that died before its link is then refused for ever. *)
Example reserved_name_taken :
  let other := InboxDemo.deliver InboxDemo.second InboxDemo.reserved
                 (repeat (InboxDemo.serve (InboxDemo.str "other")) 30) in
  match other.2 with Ret _ _ => True | _ => False end
  /\ match (InboxDemo.deliver InboxDemo.first other.1 (repeat (InboxDemo.serve InboxDemo.source) 30)).2 with
     | Failed e _ => e = [ErrDigestMismatch]
     | _ => False
     end.
Proof. vm_compute. split; reflexivity. Qed.

(** The temporary name of a transfer is a name that another may give its file, which the
    delivery of the first then takes for its own remains and removes. *)
Example temporary_name_delivered :
  let third := mkInboxManifest (InboxDemo.str "t3") InboxDemo.machine (tempName InboxDemo.root (InboxDemo.str "t1")) 5
                 (hexEncode (Sum256 (InboxDemo.str "other"))) in
  let saved := InboxDemo.deliver third InboxDemo.empty (repeat (InboxDemo.serve (InboxDemo.str "other")) 30) in
  match saved.2 with Ret path _ => path = inboxPrefix ++ tempName InboxDemo.root (InboxDemo.str "t1") | _ => False end
  /\ lookup_name InboxDemo.text (tempName InboxDemo.root (InboxDemo.str "t1")) saved.1 = Some (Regular (InboxDemo.str "other"))
  /\ lookup_name InboxDemo.text (tempName InboxDemo.root (InboxDemo.str "t1"))
       (InboxDemo.deliver InboxDemo.first saved.1 (repeat (InboxDemo.serve InboxDemo.source) 30)).1 = None.
Proof. vm_compute. split_and!; reflexivity. Qed.
