(* ===== verification/Connector.v ===== *)
(** * The connector protocol: messages

    Models the data of [internal/connectorprotocol/protocol.go]: the identity that every message
    of a session carries, the negotiation of versions and capabilities, and the validation of
    each message.

    Times are nanoseconds, with [zeroTime] for Go's zero time.  The cause of an error, which
    only its text shows, is left out.  What a payload has to be is a parameter: the canonical
    form of JSON text ([canonicalJSON]) and the contents of a configuration
    ([validateConfigSnapshotPayload]).  Kinds, statuses and codes are the ones the source names;
    text that is none of them does not validate there. *)
From S2P Require Import Prelude.
From S2P Require Import Sha256.
From S2P Require Import TransferCodec.
From S2P Require Import TransferKeys.
From S2P Require Import UpdateGate.
From S2P Require Import UpdateFlow.
From S2P Require Import WorkerRelease.
From S2P Require Import WorkerFence.

(** ** Errors *)
Inductive Code :=
| CodeInvalidInput | CodeMalformedFrame | CodeFrameTooLarge | CodeProtocolIncompatible | CodeCapabilityMissing | CodeAuthenticationFailed
| CodeCredentialExpired | CodeIdentityMismatch | CodeSessionConflict | CodeSessionClosed
| CodeLeaseExpired | CodeHeartbeatTimeout | CodeSnapshotRequired | CodeGenerationGap
| CodeStaleGeneration | CodeContentHashMismatch | CodeSnapshotRejected | CodeDeltaRejected
| CodeNotReady | CodeCanceled | CodeStaleSession | CodeUnsupportedMessage
| CodeDrainRejected | CodeDrainTimeout | CodeCredentialRotationRejected
| CodeCredentialRotationNotReady | CodeCredentialRotationFailed.
#[export] Instance Code_eq_dec : EqDecision Code.
Proof. solve_decision. Defined.

Inductive DisconnectReason :=
| ReasonProtocolMismatch | ReasonCapabilityMissing | ReasonMalformed | ReasonAuthentication
| ReasonCredentialExpired | ReasonLeaseExpired | ReasonHeartbeatTimeout | ReasonSessionReplaced
| ReasonStaleGeneration | ReasonSnapshotRejected | ReasonGenerationGap | ReasonCredentialRotation
| ReasonCanceled | ReasonServerShutdown | ReasonProtocolClosed.
#[export] Instance DisconnectReason_eq_dec : EqDecision DisconnectReason.
Proof. solve_decision. Defined.

Record Error := mkError { eCode : Code; eReason : option DisconnectReason; eRetryable : bool }.
(** The errors that the package declares, and those with a reason. *)
Definition baseError (c : Code) : Error := mkError c None false.
Definition ErrInvalidInput : Error := baseError CodeInvalidInput.
Definition codeError (c : Code) (reason : option DisconnectReason) (retryable : bool) : Error :=
  mkError c reason retryable.

(** ** Identity *)
Record Ident := mkIdent {
  AccountID : gostring; TunnelID : gostring; ConnectorID : gostring; SessionID : gostring;
  ProcessGeneration : Z }.
#[export] Instance Ident_eq_dec : EqDecision Ident.
Proof. solve_decision. Defined.

(** [ValidateIdentifier(v) == nil] for each part *)
Definition validIdent (i : Ident) : bool :=
  identifier (AccountID i) && identifier (TunnelID i) && identifier (ConnectorID i)
  && identifier (SessionID i) && negb (ProcessGeneration i =? 0).

(** [hashPattern] *)
Definition hashPrefix : gostring := bytes "sha256:".
Definition validHash (v : gostring) : bool :=
  bool_decide (take 7 v = hashPrefix) && digest (drop 7 v).
Definition contentHash (payload : list byte) : gostring := hashPrefix ++ hexEncode (Sum256 payload).

(** [identityThumbprintPattern] and [ValidateIdentityKey] *)
Definition validThumbprint (v : gostring) : bool := (len v =? 43) && forallb isUrlChar v.
Definition ValidateIdentityKey (keyID thumbprint : gostring) : bool :=
  bool_decide (take 8 keyID = bytes "ed25519:") && validThumbprint (drop 8 keyID)
  && validThumbprint thumbprint && bool_decide (drop 8 keyID = thumbprint).

(** [ValidateProof], and the nonces of [validate] *)
Definition ValidateProof (v : gostring) : bool :=
  (32 <=? len v) && (len v <=? 16384) && trimmed v && negb (ContainsAny v [x0d; x0a]).
Definition validNonce (v : gostring) : bool :=
  (16 <=? len v) && (len v <=? 128) && trimmed v && negb (ContainsAny v [x0d; x0a]).

Definition Millisecond : Z := 1000000.
Definition Minute : Z := 60 * 1000 * Millisecond.
Definition MaxClockSkew : Z := 2 * Minute.
Definition MaxLease : Z := 24 * 60 * Minute.
Definition isZero (t : Z) : bool := t =? zeroTime.

(** ** Versions and capabilities *)
Definition ProtocolName : gostring := bytes "paperboat.connector".
Definition ProtocolVersion : gostring := bytes "1.0".

(** [versionPattern] and [parseVersion]: decimal numbers of an [int] without leading zeros. *)
Definition parseNumber (part : gostring) : option Z :=
  if empty part || negb (forallb isDigit part) || (2 ^ 63 <=? decimal part)
     || (1 <? len part) && bool_decide (take 1 part = [x30])
  then None else Some (decimal part).
Definition parseVersion (v : gostring) : option (Z * Z) :=
  match splitDot v with
  | [a; b] => major ← parseNumber a; minor ← parseNumber b; Some (major, minor)
  | _ => None
  end.
Definition incompatible : Error :=
  codeError CodeProtocolIncompatible (Some ReasonProtocolMismatch) false.
Definition NegotiateVersion (minVersion maxVersion : gostring) : result Error gostring :=
  match parseVersion minVersion, parseVersion maxVersion, parseVersion ProtocolVersion with
  | Some (minMajor, minMinor), Some (maxMajor, maxMinor), Some (major, minor) =>
      if (maxMajor <? minMajor) || (major <? minMajor) || (maxMajor <? major)
         || (minMajor =? major) && (minor <? minMinor) || (maxMajor =? major) && (maxMinor <? minor)
      then Err incompatible else Ok ProtocolVersion
  | _, _, _ => Err incompatible
  end.

Definition CapabilityDrain : gostring := bytes "connector.drain.v1".
Definition requiredCapabilities : list gostring :=
  [bytes "config.snapshot.v1"; bytes "config.delta.v1"; bytes "config.ack.v1";
   bytes "session.heartbeat.v1"; bytes "auth.renew.v1"].

(** [capabilityPattern] *)
Definition isLowerAlpha (b : byte) : bool := (97 <=? Z_of_byte b) && (Z_of_byte b <=? 122).
Definition validCapability (v : gostring) : bool :=
  match v with
  | [] => false
  | b :: r =>
      isLowerAlpha b && (1 <=? len r) && (len r <=? 127)
      && forallb (fun b => isLowerAlpha b || isDigit b || bool_decide (b ∈ [x5f; x2e; x2d])) r
  end.
(** The loop over the values, with what it has seen. *)
Fixpoint capabilitiesOk (values : list gostring) (seen : gset gostring) : option (gset gostring) :=
  match values with
  | [] => Some seen
  | v :: values =>
      if (128 <? len v) || negb (validCapability v) || bool_decide (v ∈ seen) then None
      else capabilitiesOk values ({[v]} ∪ seen)
  end.
Definition ValidateCapabilities (values : list gostring) : option Error :=
  if (len values =? 0) || (64 <? len values) then Some (baseError CodeCapabilityMissing)
  else
    match capabilitiesOk values ∅ with
    | None => Some ErrInvalidInput
    | Some seen =>
        if forallb (fun r => bool_decide (r ∈ seen)) requiredCapabilities then None
        else Some (codeError CodeCapabilityMissing (Some ReasonCapabilityMissing) false)
    end.
Definition NegotiateCapabilities (offered supported : list gostring) : result Error (list gostring) :=
  match ValidateCapabilities offered, ValidateCapabilities supported with
  | Some e, _ => Err e
  | None, Some e => Err e
  | None, None =>
      let selected := filter (fun v => v ∈ supported) offered in
      match ValidateCapabilities selected with
      | Some _ => Err (codeError CodeCapabilityMissing (Some ReasonCapabilityMissing) false)
      | None => Ok selected
      end
  end.
Definition hasCapability (values : list gostring) (capability : gostring) : bool :=
  bool_decide (capability ∈ values).

(** ** Authentication *)
Record AuthRequest := mkAuthRequest {
  qAccountID : gostring; qTunnelID : gostring; qConnectorID : gostring; qHostID : gostring;
  qIdentityKeyID : gostring; qIdentityKeyThumbprint : gostring; qProcessGeneration : Z;
  qCredentialGeneration : Z; qNonce : gostring; qSignedProof : gostring; qIssuedAt : Z;
  qExpiresAt : Z }.

Definition authRequest_Validate (now : Z) (a : AuthRequest) : option Error :=
  if negb (identifier (qAccountID a)) || negb (identifier (qTunnelID a)) || negb (identifier (qConnectorID a))
     || negb (identifier (qHostID a)) || negb (ValidateIdentityKey (qIdentityKeyID a) (qIdentityKeyThumbprint a))
  then Some ErrInvalidInput
  else if negb (validNonce (qNonce a)) || (qProcessGeneration a =? 0) || (qCredentialGeneration a =? 0)
     || isZero (qIssuedAt a) || isZero (qExpiresAt a) || (qExpiresAt a <=? qIssuedAt a)
     || (15 * Minute <? qExpiresAt a - qIssuedAt a) || negb (ValidateProof (qSignedProof a))
  then Some ErrInvalidInput
  else if negb (isZero now) && ((now + MaxClockSkew <? qIssuedAt a) || (MaxClockSkew <? now - qIssuedAt a)
                                || (qExpiresAt a <=? now))
  then Some (codeError CodeCredentialExpired (Some ReasonCredentialExpired) true)
  else None.

Record AuthResult := mkAuthResult {
  rAccountID : gostring; rTunnelID : gostring; rConnectorID : gostring; rSessionID : gostring;
  rHostID : gostring; rIdentityKeyID : gostring; rIdentityKeyThumbprint : gostring;
  rProcessGeneration : Z; rCredentialGeneration : Z; CredentialExpiresAt : Z; LeaseExpiresAt : Z }.
#[export] Instance AuthResult_eq_dec : EqDecision AuthResult.
Proof. solve_decision. Defined.
#[export] Instance AuthResult_eta : Eta AuthResult :=
  fun a => mkAuthResult (rAccountID a) (rTunnelID a) (rConnectorID a) (rSessionID a) (rHostID a)
             (rIdentityKeyID a) (rIdentityKeyThumbprint a) (rProcessGeneration a)
             (rCredentialGeneration a) (CredentialExpiresAt a) (LeaseExpiresAt a).

Definition authResult_valid (now : Z) (a : AuthResult) : bool :=
  identifier (rAccountID a) && identifier (rTunnelID a) && identifier (rConnectorID a)
  && identifier (rHostID a) && (empty (rSessionID a) || identifier (rSessionID a))
  && ValidateIdentityKey (rIdentityKeyID a) (rIdentityKeyThumbprint a)
  && negb (rProcessGeneration a =? 0) && negb (rCredentialGeneration a =? 0)
  && negb (isZero (CredentialExpiresAt a)) && negb (isZero (LeaseExpiresAt a))
  && (LeaseExpiresAt a <=? CredentialExpiresAt a)
  && (isZero now || (now <? CredentialExpiresAt a) && (now <? LeaseExpiresAt a)
                    && (LeaseExpiresAt a - now <=? MaxLease)).
Definition authResult_bound (a : AuthResult) : bool :=
  authResult_valid zeroTime a && identifier (rSessionID a).

Record RenewalRequest := mkRenewal {
  nSessionID : gostring; nAccountID : gostring; nTunnelID : gostring; nConnectorID : gostring;
  nHostID : gostring; nIdentityKeyID : gostring; nIdentityKeyThumbprint : gostring;
  nProcessGeneration : Z; nCredentialGeneration : Z; nNonce : gostring; nSignedProof : gostring;
  nRequestedAt : Z }.
Definition renewal_valid (r : RenewalRequest) : bool :=
  identifier (nSessionID r) && identifier (nAccountID r) && identifier (nTunnelID r)
  && identifier (nConnectorID r) && identifier (nHostID r)
  && ValidateIdentityKey (nIdentityKeyID r) (nIdentityKeyThumbprint r)
  && negb (nProcessGeneration r =? 0) && negb (nCredentialGeneration r =? 0) && validNonce (nNonce r)
  && negb (isZero (nRequestedAt r)) && ValidateProof (nSignedProof r).
Definition renewal_ValidateAt (now : Z) (r : RenewalRequest) : option Error :=
  if negb (renewal_valid r) then Some ErrInvalidInput
  else if negb (isZero now) && ((now + MaxClockSkew <? nRequestedAt r) || (MaxClockSkew <? now - nRequestedAt r))
  then Some (codeError CodeAuthenticationFailed (Some ReasonAuthentication) false)
  else None.

(** ** The handshake *)
Record Lease := mkLease { leSessionID : gostring; ExpiresAt : Z; HeartbeatIntervalMS : Z }.
#[export] Instance Lease_eta : Eta Lease :=
  fun l => mkLease (leSessionID l) (ExpiresAt l) (HeartbeatIntervalMS l).
Definition lease_valid (now : Z) (l : Lease) : bool :=
  identifier (leSessionID l) && negb (isZero (ExpiresAt l)) && negb (HeartbeatIntervalMS l =? 0)
  && (isZero now || (now <? ExpiresAt l) && (ExpiresAt l - now <=? MaxLease)
                    && (HeartbeatIntervalMS l * Millisecond <? ExpiresAt l - now)).

Record Hello := mkHello {
  hProtocol : gostring; hMinVersion : gostring; hMaxVersion : gostring; hAccountID : gostring;
  hTunnelID : gostring; hConnectorID : gostring; hHostID : gostring; hProcessGeneration : Z;
  hCapabilities : list gostring; hAuth : AuthRequest }.
Definition hello_Validate (now : Z) (h : Hello) : option Error :=
  if negb (bool_decide (hProtocol h = ProtocolName)) || empty (hMinVersion h) || empty (hMaxVersion h)
     || negb (identifier (hAccountID h)) || negb (identifier (hTunnelID h)) || negb (identifier (hConnectorID h))
     || negb (identifier (hHostID h)) || (hProcessGeneration h =? 0)
  then Some ErrInvalidInput
  else match NegotiateVersion (hMinVersion h) (hMaxVersion h) with
  | Err e => Some e
  | Ok _ =>
      match ValidateCapabilities (hCapabilities h) with
      | Some e => Some e
      | None =>
          let a := hAuth h in
          if negb (bool_decide (qAccountID a = hAccountID h)) || negb (bool_decide (qTunnelID a = hTunnelID h))
             || negb (bool_decide (qConnectorID a = hConnectorID h)) || negb (bool_decide (qHostID a = hHostID h))
             || negb (qProcessGeneration a =? hProcessGeneration h)
          then Some (codeError CodeIdentityMismatch (Some ReasonAuthentication) false)
          else authRequest_Validate now a
      end
  end.

Record Welcome := mkWelcome {
  wProtocol : gostring; wVersion : gostring; wSessionID : gostring; Capabilities : list gostring;
  wLease : Lease; RequiresSnapshot : bool; ServerTime : Z }.
Definition welcome_valid (now : Z) (w : Welcome) : bool :=
  bool_decide (wProtocol w = ProtocolName) && bool_decide (wVersion w = ProtocolVersion)
  && identifier (wSessionID w) && RequiresSnapshot w
  && bool_decide (ValidateCapabilities (Capabilities w) = None) && negb (isZero (ServerTime w))
  && bool_decide (leSessionID (wLease w) = wSessionID w) && lease_valid now (wLease w).

(** ** Configurations *)
Record Snapshot := mkSnapshot {
  sIdent : Ident; Generation : Z; ContentHash : gostring; Payload : list byte }.
#[export] Instance Snapshot_eq_dec : EqDecision Snapshot.
Proof. solve_decision. Defined.
Record Delta := mkDelta {
  dIdent : Ident; PreviousGeneration : Z; dGeneration : Z; PreviousContentHash : gostring;
  dContentHash : gostring; dPayload : list byte }.
#[export] Instance Delta_eq_dec : EqDecision Delta.
Proof. solve_decision. Defined.

Class ConfigPayload := {
  canonicalJSON : list byte -> Z -> option (list byte);
  validateConfigSnapshotPayload : list byte -> gostring -> Z -> bool }.

Definition MaxSnapshotBytes : Z := 4194304.
Definition MaxDeltaBytes : Z := 1048576.

Section payloads.
Context `{ConfigPayload}.

(** The payload, its canonical form, hash and contents; [last] is the error of the last step. *)
Definition payload_Validate (limit : Z) (tunnelID : gostring) (generation : Z) (hash : gostring)
    (payload : list byte) (reason : DisconnectReason) (last : Code) : option Error :=
  if negb (bool_decide (canonicalJSON payload limit = Some payload))
     || negb (bool_decide (hash = contentHash payload))
  then Some (codeError CodeContentHashMismatch (Some reason) false)
  else if negb (validateConfigSnapshotPayload payload tunnelID generation)
  then Some (codeError last (Some reason) false)
  else None.

(** The identity of a configuration that no session has bound yet may be missing. *)
Definition optionalIdent (i : Ident) : bool :=
  identifier (TunnelID i) && (empty (AccountID i) || identifier (AccountID i))
  && (empty (SessionID i) || identifier (SessionID i)).
Definition boundIdent (i : Ident) : bool :=
  identifier (AccountID i) && identifier (ConnectorID i) && identifier (SessionID i)
  && negb (ProcessGeneration i =? 0).

Definition snapshot_Validate (s : Snapshot) : option Error :=
  if negb (optionalIdent (sIdent s)) || (Generation s =? 0) || negb (validHash (ContentHash s))
     || (len (Payload s) =? 0) || (MaxSnapshotBytes <? len (Payload s))
  then Some ErrInvalidInput
  else payload_Validate MaxSnapshotBytes (TunnelID (sIdent s)) (Generation s) (ContentHash s) (Payload s)
         ReasonSnapshotRejected CodeSnapshotRejected.
Definition snapshot_ValidateBound (s : Snapshot) : option Error :=
  if negb (boundIdent (sIdent s)) then Some ErrInvalidInput else snapshot_Validate s.

Definition delta_Validate (d : Delta) : option Error :=
  if negb (optionalIdent (dIdent d)) || negb (validHash (PreviousContentHash d)) || negb (validHash (dContentHash d))
     || (len (dPayload d) =? 0) || (MaxDeltaBytes <? len (dPayload d))
  then Some ErrInvalidInput
  else if (PreviousGeneration d =? 0) || negb (dGeneration d =? PreviousGeneration d +64 1)
  then Some (codeError CodeGenerationGap (Some ReasonGenerationGap) true)
  else payload_Validate MaxDeltaBytes (TunnelID (dIdent d)) (dGeneration d) (dContentHash d) (dPayload d)
         ReasonGenerationGap CodeDeltaRejected.
Definition delta_ValidateBound (d : Delta) : option Error :=
  if negb (boundIdent (dIdent d)) then Some ErrInvalidInput else delta_Validate d.
End payloads.

(** ** Messages of a session *)
Inductive AckKind := AckSnapshot | AckDelta | AckReady | AckRenewal.
Inductive AckStatus := AckApplied | AckDuplicate | AckRejected | AckSnapshotRequired.
#[export] Instance AckKind_eq_dec : EqDecision AckKind.
Proof. solve_decision. Defined.
#[export] Instance AckStatus_eq_dec : EqDecision AckStatus.
Proof. solve_decision. Defined.

Record Ack := mkAck {
  aIdent : Ident; aKind : AckKind; aStatus : AckStatus; aGeneration : Z; aContentHash : gostring;
  aCode : option Code }.
Definition ack_valid (a : Ack) : bool :=
  validIdent (aIdent a) && negb (aGeneration a =? 0) && validHash (aContentHash a)
  && (if bool_decide (aStatus a = AckRejected) then bool_decide (aCode a <> None)
      else bool_decide (aCode a = None)).

Record Readiness := mkReadiness {
  yIdent : Ident; yGeneration : Z; yContentHash : gostring; EdgeReady : bool; RouteReady : bool;
  OriginReady : bool }.
Definition readiness_valid (r : Readiness) : bool :=
  validIdent (yIdent r) && negb (yGeneration r =? 0) && validHash (yContentHash r).

Record Heartbeat := mkHeartbeat {
  bIdent : Ident; LastAppliedGeneration : Z; LastAppliedHash : gostring; SentAt : Z }.
Definition heartbeat_valid (h : Heartbeat) : bool :=
  validIdent (bIdent h) && negb (LastAppliedGeneration h =? 0) && validHash (LastAppliedHash h)
  && negb (isZero (SentAt h)).

Record HeartbeatAck := mkHeartbeatAck { kIdent : Ident; kLeaseExpiresAt : Z; kServerTime : Z }.
Definition heartbeatAck_valid (now : Z) (h : HeartbeatAck) : bool :=
  validIdent (kIdent h) && negb (isZero (kLeaseExpiresAt h)) && (now <? kLeaseExpiresAt h)
  && negb (isZero (kServerTime h)).

Inductive DrainStatus := DrainAccepted | DrainProgressed | DrainCompleted | DrainForced | DrainRejected.
#[export] Instance DrainStatus_eq_dec : EqDecision DrainStatus.
Proof. solve_decision. Defined.
Definition MaxActiveStreams : Z := 1048576.

Record Drain := mkDrain {
  drIdent : Ident; DrainID : gostring; drGeneration : Z; drContentHash : gostring; Deadline : Z;
  StopNewStreams : bool; ForceAfterDeadline : bool }.
Definition drain_valid (now : Z) (d : Drain) : bool :=
  validIdent (drIdent d) && identifier (DrainID d) && negb (drGeneration d =? 0)
  && validHash (drContentHash d) && negb (isZero (Deadline d)) && StopNewStreams d
  && (isZero now || (now <? Deadline d) && (Deadline d - now <=? MaxLease)).

Record DrainAck := mkDrainAck {
  daIdent : Ident; daDrainID : gostring; daGeneration : Z; daContentHash : gostring;
  daStatus : DrainStatus; ActiveStreams : Z; ForcedClose : bool; daCode : option Code }.
Definition drainAck_valid (a : DrainAck) : bool :=
  validIdent (daIdent a) && identifier (daDrainID a) && negb (daGeneration a =? 0)
  && validHash (daContentHash a) && (ActiveStreams a <=? MaxActiveStreams)
  && match daStatus a with
     | DrainAccepted | DrainProgressed => negb (ForcedClose a) && bool_decide (daCode a = None)
     | DrainCompleted => (ActiveStreams a =? 0) && negb (ForcedClose a) && bool_decide (daCode a = None)
     | DrainForced => ForcedClose a && bool_decide (daCode a = Some CodeDrainTimeout) && (ActiveStreams a =? 0)
     | DrainRejected => negb (ForcedClose a) && bool_decide (daCode a = Some CodeDrainRejected)
     end.
