(* ===== verification/ConnectorServer.v ===== *)
(** * The connector protocol: the server's session

    Models [SessionRegistry], [Server] and [ServerSession] of
    [internal/connectorprotocol/session.go].

    A call holds the mutex of its session throughout, except [Renew], which is cut where it
    calls the authenticator.  Its calls of the registry are taken as one step with it: a session
    that is attached in between sees the entry of this one, which may only refuse it.  The
    clock, the results of the authenticator, the source of snapshots and of session identifiers,
    and whether a context is cancelled are arguments. *)
From S2P Require Import Prelude.
From S2P Require Import TransferCodec.
From S2P Require Import UpdateGate.
From S2P Require Import Connector.

Inductive SessionState :=
| SessionNew | SessionAwaitingSnapshot | SessionAwaitingReady | SessionReady | SessionDraining
| SessionClosed.
#[export] Instance SessionState_eq_dec : EqDecision SessionState.
Proof. solve_decision. Defined.

(** ** The registry *)
Record SessionRef := mkRef {
  fTunnelID : gostring; fConnectorID : gostring; fSessionID : gostring; fProcessGeneration : Z }.
#[export] Instance SessionRef_eq_dec : EqDecision SessionRef.
Proof. solve_decision. Defined.
Definition ref_valid (r : SessionRef) : bool :=
  identifier (fTunnelID r) && identifier (fConnectorID r) && identifier (fSessionID r)
  && negb (fProcessGeneration r =? 0).

Abbreviation Registry := (gmap gostring SessionRef).

(** [Attach]: the session that was replaced. *)
Definition Attach (ref : SessionRef) (r : Registry) : Registry * result Error (option SessionRef) :=
  if negb (ref_valid ref) then (r, Err ErrInvalidInput)
  else
    match r !! fConnectorID ref with
    | Some previous =>
        if negb (bool_decide (fTunnelID previous = fTunnelID ref))
        then (r, Err (codeError CodeIdentityMismatch (Some ReasonAuthentication) false))
        else if fProcessGeneration ref <=? fProcessGeneration previous
        then (r, Err (codeError CodeSessionConflict (Some ReasonStaleGeneration) false))
        else (<[fConnectorID ref := ref]> r, Ok (Some previous))
    | None => (<[fConnectorID ref := ref]> r, Ok None)
    end.

Definition Disconnect (ref : SessionRef) (r : Registry) : Registry * option Error :=
  if negb (ref_valid ref) then (r, Some ErrInvalidInput)
  else
    match r !! fConnectorID ref with
    | None => (r, None)
    | Some current =>
        if negb (bool_decide (current = ref))
        then (r, Some (codeError CodeStaleSession (Some ReasonStaleGeneration) false))
        else (delete (fConnectorID ref) r, None)
    end.

Definition registry_Active (connectorID : gostring) (r : Registry) : option SessionRef :=
  if identifier connectorID then r !! connectorID else None.

Module Server.
(** ** Configuration *)
Record Config := mkConfig { Capabilities : list gostring; LeaseDuration : Z; HeartbeatInterval : Z }.
Definition DefaultLease : Z := 45000 * Millisecond.
Definition DefaultHeartbeat : Z := 15000 * Millisecond.
Definition New (capabilities : list gostring) (leaseDuration interval : Z) : option Config :=
  let leaseDuration := if leaseDuration =? 0 then DefaultLease else leaseDuration in
  let interval := if interval =? 0 then DefaultHeartbeat else interval in
  if (leaseDuration <=? 0) || (MaxLease <? leaseDuration) || (interval <=? 0)
     || (leaseDuration <=? interval * 2) || bool_decide (ValidateCapabilities capabilities <> None)
  then None else Some (mkConfig capabilities leaseDuration interval).

Record Session := mkSession {
  ref : SessionRef; auth : AuthResult; lease : Lease; welcome : Welcome;
  pendingSnapshot : option Snapshot; pendingDelta : option Delta; active : option Snapshot;
  candidate : option Snapshot; readyGeneration : Z; needsSnapshot : bool; state : SessionState;
  lastHeartbeat : Z; lastHeartbeatSentAt : Z; drain : option Drain; drainStatus : option DrainStatus;
  drainCode : option Code; drainCompleted : bool; disconnectReason : option DisconnectReason }.
#[export] Instance Session_eta : Eta Session :=
  fun s => mkSession (ref s) (auth s) (lease s) (welcome s) (pendingSnapshot s) (pendingDelta s)
             (active s) (candidate s) (readyGeneration s) (needsSnapshot s) (state s) (lastHeartbeat s)
             (lastHeartbeatSentAt s) (drain s) (drainStatus s) (drainCode s) (drainCompleted s)
             (disconnectReason s).

(** The identity of the session, which its messages carry. *)
Definition ident (s : Session) : Ident :=
  mkIdent (rAccountID (auth s)) (fTunnelID (ref s)) (fConnectorID (ref s)) (fSessionID (ref s))
    (fProcessGeneration (ref s)).
Definition matchesIdentity (i : Ident) (s : Session) : bool := bool_decide (i = ident s).
Definition mismatch : Error := codeError CodeIdentityMismatch (Some ReasonAuthentication) false.

Definition bindSnapshot (i : Ident) (s : Snapshot) : Snapshot :=
  mkSnapshot (mkIdent (AccountID i) (TunnelID (sIdent s)) (ConnectorID i) (SessionID i) (ProcessGeneration i))
    (Generation s) (ContentHash s) (Payload s).

(** [hasActive && active.Generation == readyGeneration] *)
Definition activeReady (s : Session) : bool :=
  match active s with Some a => readyGeneration s =? Generation a | None => false end.

Definition restoreState (s : Session) : Session :=
  s <| state := if activeReady s && negb (needsSnapshot s) then SessionReady else SessionAwaitingSnapshot |>.

(** A world: the registry and the session. *)
Abbreviation World := (Registry * Session)%type.

Definition close (reason : DisconnectReason) (w : World) : World :=
  if bool_decide (state w.2 = SessionClosed) then w
  else ((Disconnect (ref w.2) w.1).1,
        (w.2 <| state := SessionClosed |>) <| disconnectReason := Some reason |>).

Definition ensureActive (now : Z) (w : World) : World * option Error :=
  let s := w.2 in
  if bool_decide (state s = SessionClosed)
  then (w, Some (codeError CodeSessionClosed (disconnectReason s) false))
  else if negb (bool_decide (registry_Active (fConnectorID (ref s)) w.1 = Some (ref s)))
  then (close ReasonSessionReplaced w, Some (codeError CodeStaleSession (Some ReasonSessionReplaced) false))
  else if CredentialExpiresAt (auth s) <=? now
  then (close ReasonCredentialExpired w, Some (codeError CodeCredentialExpired (Some ReasonCredentialExpired) true))
  else if ExpiresAt (lease s) <=? now
  then (close ReasonLeaseExpired w, Some (codeError CodeLeaseExpired (Some ReasonLeaseExpired) true))
  else if negb (isZero (lastHeartbeat s))
          && (2 * (HeartbeatIntervalMS (lease s) * Millisecond) <? now - lastHeartbeat s)
  then (close ReasonHeartbeatTimeout w, Some (codeError CodeHeartbeatTimeout (Some ReasonHeartbeatTimeout) true))
  else (w, None).

(** A call whose body runs only for the session that is current and alive. *)
Definition whenActive {A} (now : Z) (body : Session -> Session * result Error A) (w : World)
    : World * result Error A :=
  match ensureActive now w with
  | (w, Some e) => (w, Err e)
  | (w, None) => let '(s, r) := body w.2 in ((w.1, s), r)
  end.

(** ** Accept *)
Section calls.
Context `{ConfigPayload} (config : Config).

(** [auth.Validate] and the comparison with the hello *)
Definition authMatches (now : Z) (hello : Hello) (a : AuthResult) : bool :=
  authResult_valid now a && bool_decide (rAccountID a = hAccountID hello)
  && bool_decide (rTunnelID a = hTunnelID hello) && bool_decide (rConnectorID a = hConnectorID hello)
  && bool_decide (rHostID a = hHostID hello) && bool_decide (rIdentityKeyID a = qIdentityKeyID (hAuth hello))
  && bool_decide (rIdentityKeyThumbprint a = qIdentityKeyThumbprint (hAuth hello))
  && (rProcessGeneration a =? hProcessGeneration hello).

Definition authFailed : Error := codeError CodeAuthenticationFailed (Some ReasonAuthentication) false.

Definition Accept (now : Z) (authenticated : option AuthResult) (source : option Snapshot)
    (sessionID : option gostring) (hello : Hello) (r : Registry)
    : Registry * result Error (Session * Welcome * Snapshot) :=
  match hello_Validate now hello with Some e => (r, Err e) | None =>
  match NegotiateVersion (hMinVersion hello) (hMaxVersion hello) with Err e => (r, Err e) | Ok version =>
  match NegotiateCapabilities (hCapabilities hello) (Capabilities config) with Err e => (r, Err e) | Ok capabilities =>
  match authenticated with None => (r, Err authFailed) | Some a =>
  if negb (authMatches now hello a) then (r, Err authFailed) else
  match source with
  | None => (r, Err (codeError CodeSnapshotRejected (Some ReasonSnapshotRejected) true))
  | Some snapshot =>
  if bool_decide (snapshot_Validate snapshot <> None)
     || negb (bool_decide (TunnelID (sIdent snapshot) = hTunnelID hello))
  then (r, Err (codeError CodeSnapshotRejected (Some ReasonSnapshotRejected) false)) else
  match sessionID with
  | None => (r, Err (codeError CodeSessionConflict (Some ReasonAuthentication) true))
  | Some sessionID =>
  if negb (identifier sessionID)
  then (r, Err (codeError CodeSessionConflict (Some ReasonAuthentication) true)) else
  let expiry := Z.min (LeaseExpiresAt a) (now + LeaseDuration config) in
  let l := mkLease sessionID expiry (HeartbeatInterval config / Millisecond) in
  if negb (lease_valid now l) then (r, Err authFailed) else
  let ref := mkRef (hTunnelID hello) (hConnectorID hello) sessionID (hProcessGeneration hello) in
  match Attach ref r with
  | (r, Err e) => (r, Err e)
  | (r, Ok _) =>
      let w := mkWelcome ProtocolName version sessionID capabilities l true now in
      let i := mkIdent (hAccountID hello) (hTunnelID hello) (hConnectorID hello) sessionID (hProcessGeneration hello) in
      let bound := bindSnapshot i snapshot in
      (r, Ok (mkSession ref a l w (Some bound) None None None 0 false SessionAwaitingSnapshot now zeroTime
                None None None false None, w, bound))
  end end end end end end end.

(** ** Acknowledgements *)
Definition sameConfig (generation : Z) (hash : gostring) (s : Snapshot) : bool :=
  (generation =? Generation s) && bool_decide (hash = ContentHash s).

(** [pendingSnapshot != nil] *)
Definition ackSnapshot (ack : Ack) (pending : Snapshot) (s : Session) : Session * result Error unit :=
  if negb (bool_decide (aKind ack = AckSnapshot)) || negb (sameConfig (aGeneration ack) (aContentHash ack) pending)
  then (s, Err (codeError CodeSnapshotRejected (Some ReasonSnapshotRejected) false))
  else
    let s := s <| pendingSnapshot := None |> in
    match aStatus ack with
    | AckSnapshotRequired =>
        (restoreState (s <| needsSnapshot := true |>),
         Err (codeError CodeSnapshotRequired (Some ReasonGenerationGap) true))
    | AckRejected =>
        (restoreState (s <| needsSnapshot := true |>),
         Err (codeError CodeSnapshotRejected (Some ReasonSnapshotRejected) false))
    | _ =>
        let s := (s <| candidate := Some pending |>) <| needsSnapshot := false |> in
        (if activeReady s then s else s <| state := SessionAwaitingReady |>, Ok tt)
    end.

(** [pendingDelta != nil] *)
Definition deltaFollows (d : Delta) (a : option Snapshot) : bool :=
  match a with
  | None => true
  | Some a => sameConfig (PreviousGeneration d) (PreviousContentHash d) a
  end.
Definition ackDelta (ack : Ack) (pending : Delta) (s : Session) : Session * result Error unit :=
  if negb (bool_decide (aKind ack = AckDelta)) || negb (aGeneration ack =? dGeneration pending)
     || negb (bool_decide (aContentHash ack = dContentHash pending))
  then (s, Err (codeError CodeDeltaRejected (Some ReasonGenerationGap) false))
  else
    let s := s <| pendingDelta := None |> in
    match aStatus ack with
    | AckSnapshotRequired =>
        (restoreState (s <| needsSnapshot := true |>),
         Err (codeError CodeSnapshotRequired (Some ReasonGenerationGap) true))
    | AckRejected =>
        (restoreState (s <| needsSnapshot := true |>),
         Err (codeError CodeDeltaRejected (Some ReasonSnapshotRejected) false))
    | _ =>
        if negb (deltaFollows pending (active s))
        then (s, Err (codeError CodeGenerationGap (Some ReasonGenerationGap) true))
        else
          let s := s <| candidate := Some (mkSnapshot
                     (mkIdent (AccountID (ident s)) (TunnelID (dIdent pending)) (ConnectorID (ident s))
                        (SessionID (ident s)) (ProcessGeneration (ident s)))
                     (dGeneration pending) (dContentHash pending) (dPayload pending)) |> in
          (if activeReady s then s else s <| state := SessionAwaitingReady |>, Ok tt)
    end.

(** No offer is pending. *)
Definition ackDuplicate (ack : Ack) (s : Session) : result Error unit :=
  if negb (bool_decide (aStatus ack = AckDuplicate))
  then Err (codeError CodeInvalidInput (Some ReasonMalformed) false)
  else
    match candidate s, active s with
    | Some current, _ | None, Some current =>
        if sameConfig (aGeneration ack) (aContentHash ack) current then Ok tt
        else Err (codeError CodeStaleGeneration (Some ReasonStaleGeneration) false)
    | None, None => Err (codeError CodeStaleGeneration (Some ReasonStaleGeneration) false)
    end.

Definition handleAck (ack : Ack) (s : Session) : Session * result Error unit :=
  if negb (matchesIdentity (aIdent ack) s) then (s, Err mismatch)
  else
    match pendingSnapshot s, pendingDelta s with
    | Some pending, _ => ackSnapshot ack pending s
    | None, Some pending => ackDelta ack pending s
    | None, None => (s, ackDuplicate ack s)
    end.
Definition HandleAck (now : Z) (ack : Ack) (w : World) : World * result Error unit :=
  if negb (ack_valid ack) then (w, Err ErrInvalidInput) else whenActive now (handleAck ack) w.

Definition CanPersistNegativeAck (ack : Ack) (s : Session) : bool :=
  bool_decide (aStatus ack = AckRejected \/ aStatus ack = AckSnapshotRequired) && ack_valid ack
  && matchesIdentity (aIdent ack) s
  && match pendingSnapshot s, pendingDelta s with
     | Some p, _ => bool_decide (aKind ack = AckSnapshot) && sameConfig (aGeneration ack) (aContentHash ack) p
     | None, Some p => bool_decide (aKind ack = AckDelta) && (aGeneration ack =? dGeneration p)
                       && bool_decide (aContentHash ack = dContentHash p)
     | None, None => false
     end.

(** ** Readiness *)
Definition makeAck (kind : AckKind) (status : AckStatus) (generation : Z) (hash : gostring) (s : Session) : Ack :=
  mkAck (ident s) kind status generation hash None.
Definition handleReadiness (y : Readiness) (s : Session) : Session * result Error Ack :=
  if negb (matchesIdentity (yIdent y) s) then (s, Err mismatch)
  else
    match candidate s, active s with
    | Some current, _ | None, Some current =>
        if negb (sameConfig (yGeneration y) (yContentHash y) current)
        then (s, Err (codeError CodeStaleGeneration (Some ReasonStaleGeneration) false))
        else if negb (EdgeReady y && RouteReady y && OriginReady y)
        then (s, Err (codeError CodeNotReady (Some ReasonSnapshotRejected) true))
        else
          let s := match candidate s with
                   | Some c => (s <| active := Some c |>) <| candidate := None |>
                   | None => s
                   end in
          let s := ((s <| needsSnapshot := false |>) <| readyGeneration := yGeneration y |>)
                     <| state := SessionReady |> in
          (s, Ok (makeAck AckReady AckApplied (yGeneration y) (yContentHash y) s))
    | None, None => (s, Err (codeError CodeStaleGeneration (Some ReasonStaleGeneration) false))
    end.
Definition HandleReadiness (now : Z) (y : Readiness) (w : World) : World * result Error Ack :=
  if negb (readiness_valid y) then (w, Err ErrInvalidInput) else whenActive now (handleReadiness y) w.

(** ** Offers *)

(** The parts of an identity that are there are those of the session. *)
Definition partsMatch (i j : Ident) : bool :=
  (empty (AccountID i) || bool_decide (AccountID i = AccountID j))
  && (empty (ConnectorID i) || bool_decide (ConnectorID i = ConnectorID j))
  && (empty (SessionID i) || bool_decide (SessionID i = SessionID j))
  && ((ProcessGeneration i =? 0) || (ProcessGeneration i =? ProcessGeneration j)).

(** An offer of a generation that is known. *)
Definition repeated (p : Snapshot) (known : option Snapshot) : option (result Error unit) :=
  match known with
  | Some k =>
      if Generation p =? Generation k
      then Some (if bool_decide (ContentHash p = ContentHash k) then Ok tt
                 else Err (codeError CodeContentHashMismatch (Some ReasonSnapshotRejected) false))
      else None
  | None => None
  end.
Definition offerSnapshot (p : Snapshot) (s : Session) : Session * result Error unit :=
  if negb (bool_decide (TunnelID (sIdent p) = fTunnelID (ref s))) || negb (partsMatch (sIdent p) (ident s))
  then (s, Err mismatch)
  else if match active s with Some a => Generation p <? Generation a | None => false end
  then (s, Err (codeError CodeStaleGeneration (Some ReasonStaleGeneration) false))
  else
    match repeated p (candidate s) with Some r => (s, r) | None =>
    match repeated p (active s) with Some r => (s, r) | None =>
    match repeated p (pendingSnapshot s) with Some r => (s, r) | None =>
      let s := (s <| pendingDelta := None |>) <| pendingSnapshot := Some (bindSnapshot (ident s) p) |> in
      (match active s with None => s <| state := SessionAwaitingSnapshot |> | Some _ => s end, Ok tt)
    end end end.
Definition OfferSnapshot (now : Z) (p : Snapshot) (w : World) : World * result Error unit :=
  if bool_decide (snapshot_Validate p <> None)
  then (w, Err (codeError CodeSnapshotRejected (Some ReasonSnapshotRejected) false))
  else whenActive now (offerSnapshot p) w.

Definition bindDelta (i : Ident) (d : Delta) : Delta :=
  mkDelta (mkIdent (AccountID i) (TunnelID (dIdent d)) (ConnectorID i) (SessionID i) (ProcessGeneration i))
    (PreviousGeneration d) (dGeneration d) (PreviousContentHash d) (dContentHash d) (dPayload d).
Definition offerDelta (d : Delta) (s : Session) : Session * result Error unit :=
  if negb (activeReady s) || needsSnapshot s
  then (s, Err (codeError CodeNotReady (Some ReasonSnapshotRejected) true))
  else if bool_decide (pendingSnapshot s <> None) || bool_decide (pendingDelta s <> None)
          || bool_decide (candidate s <> None)
          || negb (bool_decide (TunnelID (dIdent d) = fTunnelID (ref s))) || negb (partsMatch (dIdent d) (ident s))
          || negb (deltaFollows d (active s))
  then (s, Err (codeError CodeGenerationGap (Some ReasonGenerationGap) true))
  else (s <| pendingDelta := Some (bindDelta (ident s) d) |>, Ok tt).
Definition OfferDelta (now : Z) (d : Delta) (w : World) : World * result Error unit :=
  if bool_decide (delta_Validate d <> None)
  then (w, Err (codeError CodeDeltaRejected (Some ReasonGenerationGap) false))
  else whenActive now (offerDelta d) w.

(** ** Heartbeats *)
Definition handleHeartbeat (now : Z) (h : Heartbeat) (s : Session) : Session * result Error HeartbeatAck :=
  if negb (matchesIdentity (bIdent h) s) then (s, Err mismatch)
  else if now + MaxClockSkew <? SentAt h
  then (s, Err (codeError CodeInvalidInput (Some ReasonMalformed) false))
  else if SentAt h <? now - MaxClockSkew
  then (s, Err (codeError CodeHeartbeatTimeout (Some ReasonHeartbeatTimeout) true))
  else if negb (isZero (lastHeartbeatSentAt s)) && (SentAt h <=? lastHeartbeatSentAt s)
  then (s, Err (codeError CodeStaleSession (Some ReasonStaleGeneration) false))
  else
    match active s, candidate s, pendingSnapshot s with
    | Some expected, _, _ | None, Some expected, _ | None, None, Some expected =>
        if negb (sameConfig (LastAppliedGeneration h) (LastAppliedHash h) expected)
        then
          (match active s with
           | Some _ => ((s <| needsSnapshot := true |>) <| readyGeneration := 0 |>)
                         <| state := SessionAwaitingSnapshot |>
           | None => s
           end, Err (codeError CodeSnapshotRequired (Some ReasonGenerationGap) true))
        else
          let expiry := Z.min (now + LeaseDuration config) (CredentialExpiresAt (auth s)) in
          (((s <| lastHeartbeatSentAt := SentAt h |>) <| lastHeartbeat := now |>)
             <| lease := (lease s) <| ExpiresAt := expiry |> |>,
           Ok (mkHeartbeatAck (ident s) expiry now))
    | None, None, None => (s, Err (codeError CodeSnapshotRequired (Some ReasonGenerationGap) true))
    end.
Definition HandleHeartbeat (now : Z) (h : Heartbeat) (w : World) : World * result Error HeartbeatAck :=
  if negb (heartbeat_valid h) then (w, Err ErrInvalidInput) else whenActive now (handleHeartbeat now h) w.

(** ** Drains *)
Definition canceledError : Error := codeError CodeCanceled (Some ReasonCanceled) true.
Definition beginDrain (now : Z) (drainID : gostring) (deadline : Z) (force : bool) (s : Session)
    : Session * result Error Drain :=
  if negb (hasCapability (Connector.Capabilities (welcome s)) CapabilityDrain)
  then (s, Err (codeError CodeCapabilityMissing (Some ReasonCapabilityMissing) false))
  else
    match drain s, active s with
    | Some d, _ =>
        (s, if bool_decide (DrainID d = drainID) then Ok d
            else Err (codeError CodeSessionConflict (Some ReasonStaleGeneration) true))
    | None, Some a =>
        if needsSnapshot s || negb (readyGeneration s =? Generation a) || negb (bool_decide (state s = SessionReady))
        then (s, Err (codeError CodeNotReady (Some ReasonSnapshotRejected) true))
        else
          let request := mkDrain (ident s) drainID (Generation a) (ContentHash a) deadline true force in
          if negb (drain_valid now request) then (s, Err ErrInvalidInput)
          else (((((s <| drain := Some request |>) <| drainStatus := Some DrainAccepted |>) <| drainCode := None |>)
                  <| drainCompleted := false |>) <| state := SessionDraining |>, Ok request)
    | None, None => (s, Err (codeError CodeNotReady (Some ReasonSnapshotRejected) true))
    end.
Definition BeginDrain (canceled : bool) (now now' : Z) (drainID : gostring) (deadline : Z) (force : bool) (w : World)
    : World * result Error Drain :=
  if canceled then (w, Err canceledError) else whenActive now (beginDrain now' drainID deadline force) w.

Definition handleDrainAck (a : DrainAck) (s : Session) : Session * result Error unit :=
  if negb (matchesIdentity (daIdent a) s) then (s, Err mismatch)
  else
    match drain s with
    | None => (s, Err (codeError CodeStaleSession (Some ReasonStaleGeneration) false))
    | Some d =>
        if negb (bool_decide (daDrainID a = DrainID d))
        then (s, Err (codeError CodeStaleSession (Some ReasonStaleGeneration) false))
        else if negb (daGeneration a =? drGeneration d) || negb (bool_decide (daContentHash a = drContentHash d))
        then (s, Err (codeError CodeContentHashMismatch (Some ReasonSnapshotRejected) false))
        else if drainCompleted s
        then (s, if bool_decide (Some (daStatus a) = drainStatus s) && bool_decide (daCode a = drainCode s) then Ok tt
                 else Err (codeError CodeStaleGeneration (Some ReasonStaleGeneration) false))
        else
          let s := (s <| drainStatus := Some (daStatus a) |>) <| drainCode := daCode a |> in
          match daStatus a with
          | DrainAccepted | DrainProgressed => (s, Ok tt)
          | DrainCompleted | DrainForced => (s <| drainCompleted := true |>, Ok tt)
          | DrainRejected =>
              (restoreState (s <| drainCompleted := true |>),
               Err (codeError CodeDrainRejected (Some ReasonSnapshotRejected) false))
          end
    end.
Definition HandleDrainAck (canceled : bool) (now : Z) (a : DrainAck) (w : World) : World * result Error unit :=
  if canceled then (w, Err canceledError)
  else if negb (drainAck_valid a) then (w, Err ErrInvalidInput) else whenActive now (handleDrainAck a) w.

Definition CanPersistNegativeDrainAck (a : DrainAck) (s : Session) : bool :=
  bool_decide (daStatus a = DrainRejected) && drainAck_valid a
  && match drain s with
     | Some d => matchesIdentity (daIdent a) s && bool_decide (daDrainID a = DrainID d)
                 && (daGeneration a =? drGeneration d) && bool_decide (daContentHash a = drContentHash d)
     | None => false
     end.

(** ** Renewal *)

(** The request, up to the call of the authenticator: what it expects. *)
Definition renewStart (q : RenewalRequest) (s : Session) : Session * result Error (AuthResult * SessionRef) :=
  let a := auth s in
  let f := ref s in
  if negb (bool_decide (nSessionID q = fSessionID f)) || negb (bool_decide (nAccountID q = rAccountID a))
     || negb (bool_decide (nTunnelID q = fTunnelID f)) || negb (bool_decide (nConnectorID q = fConnectorID f))
     || negb (bool_decide (nHostID q = rHostID a)) || negb (bool_decide (nIdentityKeyID q = rIdentityKeyID a))
     || negb (bool_decide (nIdentityKeyThumbprint q = rIdentityKeyThumbprint a))
     || negb (nProcessGeneration q =? fProcessGeneration f)
     || negb (nCredentialGeneration q =? rCredentialGeneration a)
  then (s, Err mismatch) else (s, Ok (a, f)).
Definition Renew_start (now : Z) (q : RenewalRequest) (w : World) : World * result Error (AuthResult * SessionRef) :=
  match renewal_ValidateAt now q with
  | Some e => (w, Err e)
  | None => whenActive now (renewStart q) w
  end.

Definition renewed (now : Z) (a : AuthResult) (f : SessionRef) (result : AuthResult) : bool :=
  authResult_valid now result && bool_decide (rAccountID result = rAccountID a)
  && bool_decide (rTunnelID result = fTunnelID f) && bool_decide (rConnectorID result = fConnectorID f)
  && (empty (rSessionID result) || bool_decide (rSessionID result = fSessionID f))
  && bool_decide (rHostID result = rHostID a) && bool_decide (rIdentityKeyID result = rIdentityKeyID a)
  && bool_decide (rIdentityKeyThumbprint result = rIdentityKeyThumbprint a)
  && (rProcessGeneration result =? fProcessGeneration f)
  && (rCredentialGeneration a <=? rCredentialGeneration result).
Definition renewFinish (now : Z) (a : AuthResult) (f : SessionRef) (result : AuthResult) (s : Session)
    : Session * Prelude.result Error AuthResult :=
  if negb (bool_decide (auth s = a)) || negb (bool_decide (ref s = f))
  then (s, Err (codeError CodeSessionConflict (Some ReasonStaleGeneration) true))
  else
    let result := result <| rSessionID := fSessionID f |> in
    let expiry := Z.min (LeaseExpiresAt result) (now + LeaseDuration config) in
    (((s <| auth := result |>) <| lease := (lease s) <| ExpiresAt := expiry |> |>) <| lastHeartbeat := now |>,
     Ok result).
(** [now] is the time of the start, [now'] that of the end. *)
Definition Renew_finish (now now' : Z) (a : AuthResult) (f : SessionRef) (result : option AuthResult) (w : World)
    : World * Prelude.result Error AuthResult :=
  match result with
  | None => (w, Err (codeError CodeCredentialExpired (Some ReasonCredentialExpired) true))
  | Some result =>
      if negb (renewed now a f result) then (w, Err authFailed)
      else whenActive now' (renewFinish now a f result) w
  end.

(** ** The rest *)
Definition Close (reason : DisconnectReason) (w : World) : World := close reason w.
Definition CheckLease (now : Z) (w : World) : World * option Error := ensureActive now w.
(** The active configuration, whether it is ready, and the generation that was. *)
Definition Current (s : Session) : option (Snapshot * bool * Z) :=
  a ← active s;
  Some (a, bool_decide (state s = SessionReady) && negb (needsSnapshot s) && (readyGeneration s =? Generation a),
        readyGeneration s).
End calls.
End Server.
