(* ===== verification/ConnectorClient.v ===== *)
(** * The connector protocol: the connector's session

    Models [ClientSession] of [internal/connectorprotocol/session.go].

    A call is cut where it releases the mutex of the session for a call of the applier or the
    drainer; what these answer, the clock and the end of contexts are arguments.
    A [PreparedConfig] is a number, and [Call] records what is asked of the applier.
    [applyMu] keeps the calls of [ApplySnapshot], [ApplyDelta], [MarkReadyContext] and [Close]
    apart, which is up to the runs of the calls here ([ConnectorLife]). *)
From S2P Require Import Prelude.
From S2P Require Import TransferCodec.
From S2P Require Import UpdateGate.
From S2P Require Import Connector.
From S2P Require Import ConnectorServer.

(** What the applier is asked for: a configuration that it prepared, its activation with the
    result, and its removal. *)
Inductive Call := Prepared (h : nat) (s : Snapshot) | Activate (h : nat) (ok : bool) | Abort (h : nat).
#[export] Instance Call_eq_dec : EqDecision Call.
Proof. solve_decision. Defined.

Module Client.
Record Session := mkSession {
  hello : Hello; welcome : Welcome; state : SessionState; lease : Lease; auth : AuthRequest;
  active : option Snapshot; candidate : option Snapshot; prepared : option nat;
  needsSnapshot : bool; readyGeneration : Z; lastHeartbeatAck : Z; drain : option Drain;
  drainStatus : option DrainStatus; drainCode : option Code; drainCompleted : bool;
  activeStreams : Z; disconnectReason : option DisconnectReason }.
#[export] Instance Session_eta : Eta Session :=
  fun c => mkSession (hello c) (welcome c) (state c) (lease c) (auth c) (active c) (candidate c)
             (prepared c) (needsSnapshot c) (readyGeneration c) (lastHeartbeatAck c) (drain c)
             (drainStatus c) (drainCode c) (drainCompleted c) (activeStreams c) (disconnectReason c).

(** What a call returns: a message, an error, or both. *)
Abbreviation Reply A := (option A * option Error)%type.
Definition failed {A} (e : Error) : Reply A := (None, Some e).
Definition answer {A} (a : A) : Reply A := (Some a, None).

Definition noLease : Lease := mkLease [] zeroTime 0.
Definition noWelcome : Welcome := mkWelcome [] [] [] [] noLease false zeroTime.
Definition New (now applyTimeout abortTimeout : Z) (h : Hello) : result Error Session :=
  if (applyTimeout <? 0) || (MaxLease <? applyTimeout) || (abortTimeout <? 0) || (MaxLease <? abortTimeout)
  then Err ErrInvalidInput
  else match hello_Validate now h with
       | Some e => Err e
       | None => Ok (mkSession h noWelcome SessionNew noLease (hAuth h) None None None false 0 zeroTime
                       None None None false 0 None)
       end.

(** The identity that the messages carry. *)
Definition ident (c : Session) : Ident :=
  mkIdent (hAccountID (hello c)) (hTunnelID (hello c)) (hConnectorID (hello c)) (wSessionID (welcome c))
    (hProcessGeneration (hello c)).
Definition mismatch : Error := Server.mismatch.

Definition AcceptWelcome (now now' : Z) (w : Welcome) (c : Session) : Session * option Error :=
  if negb (welcome_valid now w) then (c, Some ErrInvalidInput)
  else if negb (bool_decide (state c = SessionNew))
  then (c, Some (codeError CodeSessionConflict (Some ReasonProtocolClosed) false))
  else match NegotiateVersion (hMinVersion (hello c)) (hMaxVersion (hello c)) with
  | Err e => (c, Some e)
  | Ok _ =>
      match NegotiateCapabilities (hCapabilities (hello c)) (Capabilities w) with
      | Err e => (c, Some e)
      | Ok _ =>
          ((((c <| welcome := w |>) <| lease := wLease w |>) <| state := SessionAwaitingSnapshot |>)
             <| lastHeartbeatAck := now' |>, None)
      end
  end.

Definition closed (reason : DisconnectReason) (c : Session) : Session :=
  (c <| state := SessionClosed |>) <| disconnectReason := Some reason |>.
Definition ensureActive (now : Z) (c : Session) : Session * option Error :=
  if bool_decide (state c = SessionClosed)
  then (c, Some (codeError CodeSessionClosed (disconnectReason c) false))
  else if bool_decide (state c = SessionNew)
  then (c, Some (codeError CodeSessionConflict (Some ReasonProtocolClosed) false))
  else if ExpiresAt (lease c) <=? now
  then (closed ReasonLeaseExpired c, Some (codeError CodeLeaseExpired (Some ReasonLeaseExpired) true))
  else if negb (isZero (lastHeartbeatAck c))
          && (2 * (HeartbeatIntervalMS (lease c) * Millisecond) <? now - lastHeartbeatAck c)
  then (closed ReasonHeartbeatTimeout c, Some (codeError CodeHeartbeatTimeout (Some ReasonHeartbeatTimeout) true))
  else (c, None).

Definition restoreState (c : Session) : Session :=
  c <| state :=
        if match active c with Some a => readyGeneration c =? Generation a | None => false end
           && negb (needsSnapshot c) then SessionReady
        else match candidate c with Some _ => SessionAwaitingReady | None => SessionAwaitingSnapshot end |>.

Definition makeAck (kind : AckKind) (status : AckStatus) (generation : Z) (hash : gostring) (c : Session) : Ack :=
  mkAck (ident c) kind status generation hash None.
Definition canceledError : Error := Server.canceledError.
Definition generationGap : Error := codeError CodeGenerationGap (Some ReasonGenerationGap) true.

(** ** Staging *)

(** Where a call goes on: it returns, or calls the applier. *)
Inductive Next (A : Type) := Return (r : A) | Continue.
Arguments Return {A}.
Arguments Continue {A}.

Section calls.
Context `{ConfigPayload}.

Definition ApplySnapshot_start (now : Z) (p : Snapshot) (c : Session) : Session * Next (Reply Ack) :=
  if bool_decide (snapshot_Validate p <> None)
  then (c, Return (failed (codeError CodeSnapshotRejected (Some ReasonSnapshotRejected) false)))
  else match ensureActive now c with
  | (c, Some e) => (c, Return (failed e))
  | (c, None) =>
      if negb (bool_decide (sIdent p = ident c)) || bool_decide (snapshot_ValidateBound p <> None)
      then (c, Return (failed mismatch))
      else
        match candidate c, active c with
        | Some current, _ | None, Some current =>
            if Generation p <? Generation current
            then (c, Return (failed (codeError CodeStaleGeneration (Some ReasonStaleGeneration) false)))
            else if Generation p =? Generation current
            then (c, Return (if bool_decide (ContentHash p = ContentHash current)
                             then answer (makeAck AckSnapshot AckDuplicate (Generation p) (ContentHash p) c)
                             else failed (codeError CodeContentHashMismatch (Some ReasonSnapshotRejected) false)))
            else (c, Continue)
        | None, None => (c, Continue)
        end
  end.

(** The answer of the applier: the configuration it prepared, whether it returned an error,
    whether the time for it had run out, whether the caller's context had ended. *)
Record PrepareReply := mkPrepareReply {
  pHandle : option nat; pErr : bool; pExpired : bool; pCanceled : bool }.
Definition abortPrepared (h : option nat) : list Call := match h with Some h => [Abort h] | None => [] end.

(** After the answer: the calls that clean up and the error, or the prepared configuration. *)
Definition prepareOutcome (rejected : Code) (r : PrepareReply) : list Call * result Error nat :=
  let rejected := codeError rejected (Some ReasonSnapshotRejected) false in
  if pErr r then (abortPrepared (pHandle r), Err (if pCanceled r || pExpired r then canceledError else rejected))
  else if pExpired r then (abortPrepared (pHandle r), Err canceledError)
  else match pHandle r with None => ([], Err rejected) | Some h => ([], Ok h) end.

(** The staged candidate of a session, unless there is one. *)
Definition stage (now : Z) (h : nat) (p : Snapshot) (c : Session) : Session * list Call * option Error :=
  match ensureActive now c with
  | (c, Some e) => (c, [Abort h], Some e)
  | (c, None) =>
      if bool_decide (candidate c <> None) && bool_decide (prepared c <> None)
      then (c, [Abort h], Some generationGap)
      else ((((c <| candidate := Some p |>) <| prepared := Some h |>) <| readyGeneration := 0 |>)
              <| state := SessionAwaitingReady |>, [], None)
  end.
Definition ApplySnapshot_finish (now : Z) (h : nat) (p : Snapshot) (c : Session)
    : Session * list Call * Reply Ack :=
  match stage now h (Server.bindSnapshot (ident c) p) c with
  | (c, calls, Some e) => (c, calls, failed e)
  | (c, calls, None) =>
      (c <| needsSnapshot := false |>, calls,
       answer (makeAck AckSnapshot AckApplied (Generation p) (ContentHash p) c))
  end.

Definition snapshotRequired (d : Delta) (e : Error) (c : Session) : Reply Ack :=
  (Some (makeAck AckDelta AckSnapshotRequired (dGeneration d) (dContentHash d) c), Some e).
Definition ApplyDelta_start (now : Z) (d : Delta) (c : Session) : Session * Next (Reply Ack) :=
  if bool_decide (delta_Validate d <> None)
  then (c, Return (failed (codeError CodeDeltaRejected (Some ReasonGenerationGap) false)))
  else match ensureActive now c with
  | (c, Some e) => (c, Return (failed e))
  | (c, None) =>
      if bool_decide (delta_ValidateBound d <> None) || negb (bool_decide (dIdent d = ident c))
      then (c, Return (failed mismatch))
      else
        match active c with
        | Some a =>
            if needsSnapshot c || bool_decide (candidate c <> None)
            then (c, Return (snapshotRequired d (codeError CodeSnapshotRequired (Some ReasonGenerationGap) true) c))
            else if Server.sameConfig (PreviousGeneration d) (PreviousContentHash d) a
            then if negb (dGeneration d =? Generation a +64 1)
                 then (c <| needsSnapshot := true |>, Return (snapshotRequired d generationGap c))
                 else (c, Continue)
            else if dGeneration d <=? Generation a
            then (c, Return (failed (codeError CodeStaleGeneration (Some ReasonStaleGeneration) false)))
            else (c <| needsSnapshot := true |>, Return (snapshotRequired d generationGap c))
        | None =>
            (c, Return (snapshotRequired d (codeError CodeSnapshotRequired (Some ReasonGenerationGap) true) c))
        end
  end.
(** The configuration that a delta carries, which is complete. *)
Definition deltaSnapshot (d : Delta) (c : Session) : Snapshot :=
  let i := ident c in
  mkSnapshot (mkIdent (AccountID i) (TunnelID (dIdent d)) (ConnectorID i) (SessionID i) (ProcessGeneration i))
    (dGeneration d) (dContentHash d) (dPayload d).
Definition ApplyDelta_finish (now : Z) (h : nat) (d : Delta) (c : Session) : Session * list Call * Reply Ack :=
  match stage now h (deltaSnapshot d c) c with
  | (c, calls, Some e) => (c, calls, failed e)
  | (c, calls, None) => (c, calls, answer (makeAck AckDelta AckApplied (dGeneration d) (dContentHash d) c))
  end.

Definition RejectionAck (kind : AckKind) (generation : Z) (hash : gostring) (code : Code) (c : Session) : Ack :=
  mkAck (ident c) kind AckRejected generation hash (Some code).

(** ** Readiness *)
Definition readinessOf (p : Snapshot) (edge route origin : bool) (c : Session) : Readiness :=
  mkReadiness (ident c) (Generation p) (ContentHash p) edge route origin.

(** What is to be activated: the prepared configuration, the candidate, what is then sent. *)
Record Activation := mkActivation { vHandle : nat; vCandidate : Snapshot; vReadiness : Readiness }.
Definition MarkReady_start (canceled : bool) (now : Z) (edge route origin : bool) (c : Session)
    : Session * result (Reply Readiness) Activation :=
  match ensureActive now c with
  | (c, Some e) => (c, Err (failed e))
  | (c, None) =>
      match candidate c with
      | None => (c, Err (failed (codeError CodeSnapshotRequired (Some ReasonGenerationGap) true)))
      | Some p =>
          let y := readinessOf p edge route origin c in
          if negb (edge && route && origin)
          then (c, Err (Some y, Some (codeError CodeNotReady (Some ReasonSnapshotRejected) true)))
          else if canceled then (c, Err (Some y, Some canceledError))
          else match prepared c with
               | None => (c, Err (Some y, Some (codeError CodeSnapshotRejected (Some ReasonSnapshotRejected) false)))
               | Some h => (c, Ok (mkActivation h p y))
               end
      end
  end.

Definition candidateIs (p : Snapshot) (c : Session) : bool :=
  match candidate c with
  | Some k => Server.sameConfig (Generation p) (ContentHash p) k
  | None => false
  end.
(** [Activate] failed. *)
Definition MarkReady_failed (canceled : bool) (v : Activation) (c : Session) : Session * list Call * Reply Readiness :=
  let c := if candidateIs (vCandidate v) c
           then restoreState (((c <| candidate := None |>) <| prepared := None |>) <| needsSnapshot := true |>)
           else c in
  (c, [Abort (vHandle v)],
   (Some (vReadiness v),
    Some (if canceled then canceledError else codeError CodeSnapshotRejected (Some ReasonSnapshotRejected) false))).
(** [Activate] succeeded. *)
Definition MarkReady_finish (now : Z) (v : Activation) (c : Session) : Session * Reply Readiness :=
  match ensureActive now c with
  | (c, Some e) => (c, (Some (vReadiness v), Some e))
  | (c, None) =>
      match candidate c with
      | Some p =>
          if negb (candidateIs (vCandidate v) c)
          then (c, (Some (vReadiness v), Some (codeError CodeSessionConflict (Some ReasonStaleGeneration) true)))
          else ((((((c <| active := Some p |>) <| candidate := None |>) <| prepared := None |>)
                    <| needsSnapshot := false |>) <| readyGeneration := Generation p |>)
                  <| state := SessionReady |>, answer (vReadiness v))
      | None =>
          (c, (Some (vReadiness v), Some (codeError CodeSessionConflict (Some ReasonStaleGeneration) true)))
      end
  end.

(** ** Heartbeats *)
Definition current (c : Session) : option Snapshot :=
  match active c with Some a => Some a | None => candidate c end.
Definition makeHeartbeat (now : Z) (c : Session) : Session * Reply Heartbeat :=
  match ensureActive now c with
  | (c, Some e) => (c, failed e)
  | (c, None) =>
      match current c with
      | None => (c, failed (codeError CodeSnapshotRequired (Some ReasonGenerationGap) true))
      | Some p => (c, answer (mkHeartbeat (ident c) (Generation p) (ContentHash p) now))
      end
  end.
Definition AcceptHeartbeatAck (now : Z) (k : HeartbeatAck) (c : Session) : Session * option Error :=
  if negb (heartbeatAck_valid now k) then (c, Some ErrInvalidInput)
  else match ensureActive now c with
  | (c, Some e) => (c, Some e)
  | (c, None) =>
      if negb (bool_decide (kIdent k = ident c)) then (c, Some mismatch)
      else ((c <| lease := (lease c) <| ExpiresAt := kLeaseExpiresAt k |> |>) <| lastHeartbeatAck := now |>, None)
  end.

(** ** Drains *)
Definition makeDrainAck (d : Drain) (status : DrainStatus) (n : Z) (forced : bool) (code : option Code) (c : Session)
    : DrainAck :=
  mkDrainAck (ident c) (DrainID d) (drGeneration d) (drContentHash d) status n forced code.
Definition drainAnswer (d : Drain) (c : Session) : DrainAck :=
  let status := default DrainAccepted (drainStatus c) in
  makeDrainAck d status (activeStreams c) (bool_decide (status = DrainForced)) (drainCode c) c.
Definition drainRejected (d : Drain) (n : Z) (e : Error) (c : Session) : Reply DrainAck :=
  (Some (makeDrainAck d DrainRejected n false (Some CodeDrainRejected) c), Some e).

Definition HandleDrain_start (canceled : bool) (now : Z) (d : Drain) (c : Session) : Session * Next (Reply DrainAck) :=
  if canceled then (c, Return (failed canceledError))
  else if negb (drain_valid now d) then (c, Return (failed ErrInvalidInput))
  else match ensureActive now c with
  | (c, Some e) => (c, Return (failed e))
  | (c, None) =>
      if negb (hasCapability (Capabilities (welcome c)) CapabilityDrain)
      then (c, Return (failed (codeError CodeCapabilityMissing (Some ReasonCapabilityMissing) false)))
      else if negb (bool_decide (drIdent d = ident c)) then (c, Return (drainRejected d 0 mismatch c))
      else
        match drain c, active c with
        | Some k, _ =>
            (c, Return
               (if negb (bool_decide (DrainID d = DrainID k))
                then drainRejected d (activeStreams c) (codeError CodeSessionConflict (Some ReasonStaleGeneration) true) c
                else if negb (drGeneration d =? drGeneration k) || negb (bool_decide (drContentHash d = drContentHash k))
                then drainRejected d (activeStreams c)
                       (codeError CodeContentHashMismatch (Some ReasonSnapshotRejected) false) c
                else answer (drainAnswer d c)))
        | None, Some a =>
            if needsSnapshot c || negb (readyGeneration c =? Generation a)
            then (c, Return (drainRejected d 0 (codeError CodeNotReady (Some ReasonSnapshotRejected) true) c))
            else if negb (Server.sameConfig (drGeneration d) (drContentHash d) a)
            then (c, Return (drainRejected d 0 (codeError CodeStaleGeneration (Some ReasonStaleGeneration) true) c))
            else ((((((c <| drain := Some d |>) <| drainStatus := Some DrainAccepted |>) <| drainCode := None |>)
                     <| drainCompleted := false |>) <| activeStreams := 0 |>) <| state := SessionDraining |>, Continue)
        | None, None =>
            (c, Return (drainRejected d 0 (codeError CodeNotReady (Some ReasonSnapshotRejected) true) c))
        end
  end.

(** The drain under way is this one. *)
Definition drainIs (d : Drain) (c : Session) : bool :=
  match drain c with Some k => bool_decide (DrainID k = DrainID d) | None => false end.
(** The drainer refused, or gave no count. *)
Definition HandleDrain_failed (counted : bool) (d : Drain) (c : Session) : Session * Reply DrainAck :=
  let n := if counted then 0 else activeStreams c in
  let c := if drainIs d c
           then restoreState (((c <| drainStatus := Some DrainRejected |>) <| drainCode := Some CodeDrainRejected |>)
                                <| drainCompleted := true |>)
           else c in
  (c, drainRejected d n (codeError CodeDrainRejected (Some ReasonSnapshotRejected) true) c).
(** The streams that are left; more than the bound is a failure. *)
Definition HandleDrain_finish (n : Z) (d : Drain) (c : Session) : Session * Reply DrainAck :=
  if MaxActiveStreams <? n then HandleDrain_failed true d c
  else if negb (drainIs d c)
  then (c, drainRejected d n (codeError CodeStaleSession (Some ReasonStaleGeneration) false) c)
  else (c <| activeStreams := n |>, answer (makeDrainAck d DrainAccepted n false None c)).

Definition DrainProgress (canceled : bool) (now n : Z) (forced : bool) (c : Session) : Session * Reply DrainAck :=
  if MaxActiveStreams <? n then (c, failed ErrInvalidInput)
  else if canceled then (c, failed canceledError)
  else match ensureActive now c with
  | (c, Some e) => (c, failed e)
  | (c, None) =>
      match drain c with
      | None => (c, failed (codeError CodeSessionConflict (Some ReasonStaleGeneration) false))
      | Some d =>
          let c := c <| activeStreams := n |> in
          if drainCompleted c then (c, answer (drainAnswer d c))
          else if forced then
            if negb (n =? 0) then (c, failed (codeError CodeInvalidInput (Some ReasonSnapshotRejected) false))
            else (((c <| drainStatus := Some DrainForced |>) <| drainCode := Some CodeDrainTimeout |>)
                    <| drainCompleted := true |>, answer (makeDrainAck d DrainForced 0 true (Some CodeDrainTimeout) c))
          else if n =? 0 then
            (((c <| drainStatus := Some DrainCompleted |>) <| drainCode := None |>) <| drainCompleted := true |>,
             answer (makeDrainAck d DrainCompleted 0 false None c))
          else if Deadline d <=? now then
            (c, (Some (makeDrainAck d DrainProgressed n false None c),
                 Some (codeError CodeDrainTimeout (Some ReasonHeartbeatTimeout) true)))
          else
            ((c <| drainStatus := Some DrainProgressed |>) <| drainCode := None |>,
             answer (makeDrainAck d DrainProgressed n false None c))
      end
  end.

(** [CompleteDrain], up to the call of the drainer; [DrainProgress] follows. *)
Definition CompleteDrain_start (c : Session) : Next (Reply DrainAck) :=
  match drain c with
  | None => Return (failed (codeError CodeSessionConflict (Some ReasonStaleGeneration) false))
  | Some d => if drainCompleted c then Return (answer (drainAnswer d c)) else Continue
  end.
(** What the drainer answered: the streams that are left, or that it failed. *)
Definition CompleteDrain_finish (canceled : bool) (now : Z) (force : bool) (count : option Z) (c : Session)
    : Session * Reply DrainAck :=
  match count with
  | None => (c, failed (codeError CodeDrainRejected (Some ReasonSnapshotRejected) true))
  | Some n => DrainProgress canceled now (if force then 0 else n) force c
  end.

(** ** Renewal and the end *)
Definition RenewalRequest_ (now : Z) (nonce proof : gostring) (c : Session) : result Error RenewalRequest :=
  let a := auth c in
  if bool_decide (state c = SessionClosed) then Err (codeError CodeSessionClosed (disconnectReason c) false)
  else if bool_decide (state c = SessionNew) then Err (codeError CodeSessionConflict (Some ReasonProtocolClosed) false)
  else if ExpiresAt (lease c) <=? now then Err (codeError CodeLeaseExpired (Some ReasonLeaseExpired) true)
  else
    let q := mkRenewal (wSessionID (welcome c)) (qAccountID a) (qTunnelID a) (qConnectorID a) (qHostID a)
               (qIdentityKeyID a) (qIdentityKeyThumbprint a) (hProcessGeneration (hello c))
               (qCredentialGeneration a) nonce proof now in
    if renewal_valid q then Ok q else Err ErrInvalidInput.

Definition ApplyRenewal (now : Z) (r : AuthResult) (c : Session) : Session * option Error :=
  if negb (authResult_bound r) then (c, Some (baseError CodeAuthenticationFailed))
  else match ensureActive now c with
  | (c, Some e) => (c, Some e)
  | (c, None) =>
      let a := auth c in
      if negb (bool_decide (rAccountID r = qAccountID a)) || negb (bool_decide (rTunnelID r = qTunnelID a))
         || negb (bool_decide (rConnectorID r = qConnectorID a))
         || negb (bool_decide (rSessionID r = wSessionID (welcome c))) || negb (bool_decide (rHostID r = qHostID a))
         || negb (bool_decide (rIdentityKeyID r = qIdentityKeyID a))
         || negb (bool_decide (rIdentityKeyThumbprint r = qIdentityKeyThumbprint a))
         || negb (rProcessGeneration r =? hProcessGeneration (hello c))
         || (rCredentialGeneration r <? qCredentialGeneration a)
      then (c, Some mismatch)
      else if (CredentialExpiresAt r <? qExpiresAt a) || (LeaseExpiresAt r <? ExpiresAt (lease c))
      then (c, Some (codeError CodeSessionConflict (Some ReasonAuthentication) false))
      else if (rCredentialGeneration r =? qCredentialGeneration a) && (CredentialExpiresAt r =? qExpiresAt a)
              && (LeaseExpiresAt r =? ExpiresAt (lease c))
      then (c, None)
      else
        (((c <| auth := mkAuthRequest (rAccountID r) (rTunnelID r) (rConnectorID r) (rHostID r) (rIdentityKeyID r)
                          (rIdentityKeyThumbprint r) (rProcessGeneration r) (rCredentialGeneration r) [] [] now
                          (CredentialExpiresAt r) |>)
            <| lease := (lease c) <| ExpiresAt := LeaseExpiresAt r |> |>) <| lastHeartbeatAck := now |>, None)
  end.

Definition CheckLease (now : Z) (c : Session) : Session * option Error := ensureActive now c.

(** [Close], with the prepared configuration that it aborts. *)
Definition Close (reason : DisconnectReason) (c : Session) : Session * list Call :=
  if bool_decide (state c = SessionClosed) then (c, [])
  else ((closed reason c <| prepared := None |>) <| candidate := None |>, abortPrepared (prepared c)).
End calls.
End Client.
