(* ===== verification/ConnectorLife.v ===== *)
(** * The connector protocol: the life of a configuration

    Runs of the calls of one [ClientSession], with any messages of the server, any answers of
    the applier and the drainer, and calls that overlap where the mutex is free: every prepared
    configuration is accounted for. *)
From S2P Require Import Prelude.
From S2P Require Import TransferCodec.
From S2P Require Import UpdateGate.
From S2P Require Import Connector.
From S2P Require Import ConnectorServer.
From S2P Require Import ConnectorClient.
Import Client.
Set Warnings "-clear-no-such-hyp".

(** ** Worlds *)

(** The call that holds [applyMu]: what it waits for. *)
Inductive Task :=
| Idle
| Preparing (d : option Delta) (p : Snapshot)
| Staging (d : option Delta) (p : Snapshot) (h : nat)
| Activating (v : Activation).

(** The session, the calls of the applier so far, the holder of [applyMu], the calls of
    [HandleDrain] that wait for the drainer, the clock, and the readiness that was returned
    without an error. *)
Record CWorld := mkCWorld {
  cs : Session; calls : list Call; task : Task; drains : list Drain; clock : Z; sent : list Readiness }.
#[export] Instance CWorld_eta : Eta CWorld :=
  fun w => mkCWorld (cs w) (calls w) (task w) (drains w) (clock w) (sent w).

Section life.
Context `{ConfigPayload}.

(** The calls of one mutex-held section, which do not involve the applier. *)
Inductive quick : Z -> Session -> Session -> Prop :=
| quick_welcome now now' w c : now <= now' -> quick now c (AcceptWelcome now now' w c).1
| quick_heartbeat now c : quick now c (makeHeartbeat now c).1
| quick_ack now k c : quick now c (AcceptHeartbeatAck now k c).1
| quick_renewal now r c : quick now c (ApplyRenewal now r c).1
| quick_lease now c : quick now c (CheckLease now c).1
| quick_progress canceled now n forced c : quick now c (DrainProgress canceled now n forced c).1
| quick_complete canceled now force count c : quick now c (CompleteDrain_finish canceled now force count c).1.

(** The handles that the applier gave. *)
Definition handles (l : list Call) : list nat :=
  omap (fun x => match x with Prepared h _ => Some h | _ => None end) l.

Inductive cstep : CWorld -> CWorld -> Prop :=
| c_time w t : clock w <= t -> cstep w (w <| clock := t |>)
| c_quick w c : quick (clock w) (cs w) c -> cstep w (w <| cs := c |>)
| c_snapshot w p : task w = Idle -> 0 <= Generation p < two64 ->
    cstep w match ApplySnapshot_start (clock w) p (cs w) with
            | (c, Return _) => w <| cs := c |>
            | (c, Continue) => (w <| cs := c |>) <| task := Preparing None p |>
            end
| c_delta w d : task w = Idle ->
    cstep w match ApplyDelta_start (clock w) d (cs w) with
            | (c, Return _) => w <| cs := c |>
            | (c, Continue) => (w <| cs := c |>) <| task := Preparing (Some d) (deltaSnapshot d c) |>
            end
| c_canceled w d p : task w = Preparing d p -> cstep w (w <| task := Idle |>)
| c_prepared w d p r code : task w = Preparing d p ->
    (forall h, pHandle r = Some h -> h ∉ handles (calls w)) ->
    cstep w match prepareOutcome code r with
            | (l, Err _) =>
                (w <| calls := calls w ++ match pHandle r with Some h => [Prepared h p] | None => [] end ++ l |>)
                  <| task := Idle |>
            | (_, Ok h) => (w <| calls := calls w ++ [Prepared h p] |>) <| task := Staging d p h |>
            end
| c_staged w d p h : task w = Staging d p h ->
    cstep w (let '(c, l, _) := match d with
                               | None => ApplySnapshot_finish (clock w) h p (cs w)
                               | Some d => ApplyDelta_finish (clock w) h d (cs w)
                               end in
             ((w <| cs := c |>) <| calls := calls w ++ l |>) <| task := Idle |>)
| c_ready w canceled e ro o : task w = Idle ->
    cstep w match MarkReady_start canceled (clock w) e ro o (cs w) with
            | (c, Err _) => w <| cs := c |>
            | (c, Ok v) => (w <| cs := c |>) <| task := Activating v |>
            end
| c_activate_failed w v canceled : task w = Activating v ->
    cstep w (let '(c, l, _) := MarkReady_failed canceled v (cs w) in
             ((w <| cs := c |>) <| calls := calls w ++ Activate (vHandle v) false :: l |>) <| task := Idle |>)
| c_activated w v t : task w = Activating v -> clock w <= t ->
    cstep w (let '(c, r) := MarkReady_finish t v (cs w) in
             ((((w <| cs := c |>) <| calls := calls w ++ [Activate (vHandle v) true] |>) <| task := Idle |>)
                <| clock := t |>)
               <| sent := match r with (Some y, None) => sent w ++ [y] | _ => sent w end |>)
| c_close w reason : task w = Idle ->
    cstep w (let '(c, l) := Close reason (cs w) in (w <| cs := c |>) <| calls := calls w ++ l |>)
| c_drain w canceled d :
    cstep w match HandleDrain_start canceled (clock w) d (cs w) with
            | (c, Return _) => w <| cs := c |>
            | (c, Continue) => (w <| cs := c |>) <| drains := d :: drains w |>
            end
| c_drain_failed w l1 d l2 counted : drains w = l1 ++ d :: l2 ->
    cstep w ((w <| cs := (HandleDrain_failed counted d (cs w)).1 |>) <| drains := l1 ++ l2 |>)
| c_drained w l1 d l2 n : drains w = l1 ++ d :: l2 ->
    cstep w ((w <| cs := (HandleDrain_finish n d (cs w)).1 |>) <| drains := l1 ++ l2 |>).

(** A session that was just made. *)
Definition newClient (w : CWorld) : Prop :=
  (exists now a b h, New now a b h = Ok (cs w)) /\ calls w = [] /\ task w = Idle /\ drains w = [] /\ sent w = [].

(** ** The use of the applier *)

(** What the applier may be asked: configurations have handles of their own, are activated once
    and not after they were aborted, and aborted once. *)
Inductive lawful : list Call -> Prop :=
| lawful_nil : lawful []
| lawful_prepare l h p : lawful l -> h ∉ handles l -> lawful (l ++ [Prepared h p])
| lawful_activate l h ok : lawful l -> h ∈ handles l -> Abort h ∉ l -> (forall ok', Activate h ok' ∉ l) ->
    lawful (l ++ [Activate h ok])
| lawful_abort l h : lawful l -> h ∈ handles l -> Abort h ∉ l -> lawful (l ++ [Abort h]).

(** The lease has ended, or the heartbeats. *)
Definition expired (t : Z) (c : Session) : Prop :=
  ExpiresAt (lease c) <= t
  \/ isZero (lastHeartbeatAck c) = false /\ 2 * (HeartbeatIntervalMS (lease c) * Millisecond) < t - lastHeartbeatAck c.

Lemma expired_mono t t' c : t <= t' -> expired t c -> expired t' c.
Proof. intros Ht [H0|[H0 H1]]; [left; lia|right; split; [done|lia]]. Qed.

Lemma ensureActive_ok now c c' : ensureActive now c = (c', None) ->
  c' = c /\ ~ expired now c /\ state c <> SessionClosed /\ state c <> SessionNew.
Proof.
  unfold ensureActive. repeat (case_bool_decide || case_match); intros [= <-]; split_and!; try done.
  intros [?|[Hz ?]]; [lia|]. rewrite Hz in *. simpl in *. lia.
Qed.

(** What changes of a session that has expired: only the fields of its end and its drains. *)
Record kept (t : Z) (c c' : Session) : Prop := {
  k_candidate : candidate c' = candidate c; k_prepared : prepared c' = prepared c;
  k_active : active c' = active c; k_hello : hello c' = hello c;
  k_new : state c <> SessionNew -> state c' <> SessionNew;
  k_expired : state c <> SessionNew -> expired t c -> expired t c';
  k_closed : state c' = SessionClosed -> state c = SessionClosed \/ expired t c' }.

Lemma kept_refl t c : kept t c c.
Proof. split; auto. Qed.

Lemma ensureActive_kept now c : kept now c (ensureActive now c).1.
Proof.
  unfold ensureActive, closed.
  repeat (case_bool_decide || case_match); simpl; try apply kept_refl; split; simpl; try done.
  - intros _. right. left. simpl. lia.
  - intros _. right. right. repeat match goal with H : _ && _ = true |- _ => apply andb_true_iff in H as [? ?] end.
    simpl. split; [by apply negb_true_iff|lia].
Qed.

(** A call that goes on only where the session is alive. *)
Lemma alive_kept {A} now c (bad : Error -> A) (k : Session -> Session * A) :
  (~ expired now c -> state c <> SessionClosed -> state c <> SessionNew -> kept now c (k c).1) ->
  kept now c (match ensureActive now c with (c, Some e) => (c, bad e) | (c, None) => k c end).1.
Proof.
  intros Hk. pose proof (ensureActive_kept now c) as Hc. destruct (ensureActive now c) as [c' [e|]] eqn:He; [done|].
  apply ensureActive_ok in He as (-> & ? & ? & ?). auto.
Qed.
Ltac alive := apply alive_kept; intros; repeat case_match; simpl; try apply kept_refl; split; simpl; try done.

Lemma DrainProgress_kept canceled now n forced c : kept now c (DrainProgress canceled now n forced c).1.
Proof. unfold DrainProgress. case_match; [apply kept_refl|]. case_match; [apply kept_refl|]. alive. all: auto. Qed.

Lemma quick_kept now c c' : quick now c c' -> kept now c c'.
Proof.
  intros [t t' w k Ht|t k|t a k|t r k|t k|b t n f k|b t f n k].
  - unfold AcceptWelcome. repeat (case_match || case_bool_decide); try apply kept_refl. all: split; simpl; done.
  - unfold makeHeartbeat. by alive.
  - unfold AcceptHeartbeatAck. case_match; [apply kept_refl|]. by alive.
  - unfold ApplyRenewal. case_match; [apply kept_refl|]. by alive.
  - apply ensureActive_kept.
  - apply DrainProgress_kept.
  - unfold CompleteDrain_finish. case_match; [apply DrainProgress_kept|apply kept_refl].
Qed.

Lemma ApplySnapshot_start_kept now p c : kept now c (ApplySnapshot_start now p c).1.
Proof. unfold ApplySnapshot_start. case_match; [apply kept_refl|]. by alive. Qed.
Lemma ApplyDelta_start_kept now d c : kept now c (ApplyDelta_start now d c).1.
Proof. unfold ApplyDelta_start. case_match; [apply kept_refl|]. alive; auto. Qed.
Lemma MarkReady_start_kept canceled now e ro o c : kept now c (MarkReady_start canceled now e ro o c).1.
Proof. unfold MarkReady_start. by alive. Qed.
Lemma HandleDrain_start_kept canceled now d c : kept now c (HandleDrain_start canceled now d c).1.
Proof. unfold HandleDrain_start. case_match; [apply kept_refl|]. case_match; [apply kept_refl|]. alive; auto. Qed.
Lemma HandleDrain_failed_kept counted now d c : kept now c (HandleDrain_failed counted d c).1.
Proof.
  unfold HandleDrain_failed, restoreState. simpl. case_match; [|apply kept_refl].
  split; simpl; auto; intros; repeat case_match; done.
Qed.
Lemma HandleDrain_finish_kept now n d c : kept now c (HandleDrain_finish n d c).1.
Proof.
  unfold HandleDrain_finish. case_match; [apply HandleDrain_failed_kept|]. case_match; [apply kept_refl|].
  split; simpl; auto.
Qed.

(** ** The invariant *)
Definition isActivating (t : Task) : bool := match t with Activating _ => true | _ => false end.
Record CInv (w : CWorld) : Prop := {
  ci_lawful : lawful (calls w);
  ci_pair : candidate (cs w) = None <-> prepared (cs w) = None;
  ci_new : state (cs w) = SessionNew -> candidate (cs w) = None;
  ci_end : candidate (cs w) <> None -> state (cs w) = SessionClosed -> expired (clock w) (cs w);
  ci_prepared : forall h, prepared (cs w) = Some h -> h ∈ handles (calls w) /\ (Abort h ∉ calls w)
    /\ (forall ok, Activate h ok ∈ calls w -> ok = true /\ expired (clock w) (cs w) /\ isActivating (task w) = false);
  ci_staging : forall d p h, task w = Staging d p h -> h ∈ handles (calls w) /\ (Abort h ∉ calls w)
    /\ (forall ok, Activate h ok ∉ calls w) /\ prepared (cs w) <> Some h;
  ci_activating : forall v, task w = Activating v ->
    prepared (cs w) = Some (vHandle v) /\ candidate (cs w) = Some (vCandidate v);
  ci_account : forall h, h ∈ handles (calls w) -> Abort h ∈ calls w \/ Activate h true ∈ calls w
    \/ prepared (cs w) = Some h \/ exists d p, task w = Staging d p h;
  ci_failed : forall h, Activate h false ∈ calls w -> Abort h ∈ calls w }.

Lemma newClient_inv w : newClient w -> CInv w.
Proof.
  destruct w as [c l t d ck st]. intros ((now & a & b & h & Hn) & Hc & Ht & _). simpl in *. unfold New in Hn.
  repeat case_match; simplify_eq. split; simpl; try done; [constructor|..]; intros h' H'; by apply elem_of_nil in H'.
Qed.

Lemma CInv_kept w c : CInv w -> kept (clock w) (cs w) c -> CInv (w <| cs := c |>).
Proof.
  intros Hi [Hc Hp _ _ Hn He Hcl].
  assert (Hnew : forall h, prepared (cs w) = Some h -> state (cs w) <> SessionNew).
  { intros h Hh Hs. apply (ci_new _ Hi), (ci_pair _ Hi) in Hs. congruence. }
  split; simpl; rewrite ?Hc, ?Hp; try apply Hi.
  - intros Hs. destruct (decide (state (cs w) = SessionNew)) as [Hx|Hx]; [by apply (ci_new _ Hi)|]. by apply Hn in Hx.
  - intros Hk Hs. destruct (Hcl Hs) as [Hx|Hx]; [|done]. apply He; [by rewrite Hx|]. by apply (ci_end _ Hi).
  - intros h Hh. destruct (ci_prepared _ Hi h Hh) as (H1 & H2 & H3). split_and!; [done..|].
    intros ok Hok. destruct (H3 ok Hok) as (H4 & H5 & H6). eauto 10.
Qed.

Lemma handles_app l k : handles (l ++ k) = handles l ++ handles k.
Proof. apply omap_app. Qed.
Lemma lawful_known l h : lawful l -> h ∉ handles l -> (Abort h ∉ l) /\ forall ok, Activate h ok ∉ l.
Proof.
  induction 1 as [|l h' p _ IH _|l h' ok _ IH Hin _ _|l h' _ IH Hin _]; rewrite ?handles_app; intros Hh.
  - split; [|intros ok]; apply not_elem_of_nil.
  - set_solver.
  - simpl in Hh. destruct IH as [H1 H2]; [set_solver|]. split; [set_solver|]. intros ok'.
    rewrite elem_of_app, list_elem_of_singleton. intros [H3|[= -> ->]]; [by eapply H2|set_solver].
  - simpl in Hh. destruct IH as [H1 H2]; [set_solver|]. split; [|set_solver].
    rewrite elem_of_app, list_elem_of_singleton. intros [H3|[= ->]]; [done|set_solver].
Qed.

(** The calls that are added. *)
Ltac calls_in :=
  repeat match goal with
  | H : _ ∈ _ ++ _ |- _ => apply elem_of_app in H as [H|H]
  | H : _ ∈ [_] |- _ => rewrite list_elem_of_singleton in H
  | H : _ ∈ [] |- _ => by apply elem_of_nil in H
  | H : Abort _ = _ |- _ => (discriminate H || (injection H; clear H; intros; subst))
  | H : Activate _ _ = _ |- _ => (discriminate H || (injection H; clear H; intros; subst))
  end.

(** Between calls that hold [applyMu]. *)
Definition quiet (t : Task) : Prop := match t with Idle | Preparing _ _ => True | _ => False end.
Lemma CInv_quiet w t : CInv w -> quiet (task w) -> quiet t -> CInv (w <| task := t |>).
Proof.
  intros Hi Hq Ht. split; simpl; try apply Hi.
  - intros h Hh. destruct (ci_prepared _ Hi h Hh) as (H1 & H2 & H3). split_and!; [done..|].
    intros ok Hok. destruct (H3 ok Hok) as (? & ? & ?). split_and!; [done..|]. by destruct t.
  - intros d p h ->. done.
  - by intros v ->.
  - intros h Hh. destruct (ci_account _ Hi h Hh) as [?|[?|[?|(d & p & Hx)]]]; [auto..|]. by rewrite Hx in Hq.
Qed.

(** A configuration that the applier prepared. *)
Lemma CInv_prepared w d p h : CInv w -> quiet (task w) -> h ∉ handles (calls w) ->
  CInv ((w <| calls := calls w ++ [Prepared h p] |>) <| task := Staging d p h |>).
Proof.
  intros Hi Hq Hh. destruct (lawful_known _ _ (ci_lawful _ Hi) Hh) as [Ha Hv].
  assert (Hne : prepared (cs w) <> Some h) by (intros Hx; by apply (ci_prepared _ Hi) in Hx as [? _]).
  split; simpl; try apply Hi; rewrite ?handles_app; simpl.
  - by apply lawful_prepare; [apply Hi|].
  - intros h' Hp. destruct (ci_prepared _ Hi h' Hp) as (H1 & H2 & H3). split_and!; [set_solver..|].
    intros ok Hok. calls_in. destruct (H3 ok) as (? & ? & ?); [done|]. auto.
  - intros d' p' h' [= <- <- <-]. split_and!; [set_solver|set_solver| |done]. intros ok Hok. calls_in. by eapply Hv.
  - done.
  - intros h' Hx. apply elem_of_app in Hx as [Hx|Hx%list_elem_of_singleton]; [|subst; eauto 10].
    destruct (ci_account _ Hi h' Hx) as [?|[?|[?|(d' & p' & Hy)]]]; [set_solver..|auto|]. by rewrite Hy in Hq.
  - intros h' Hx. calls_in. apply elem_of_app. left. by apply Hi.
Qed.

(** A held configuration is given up. *)
Lemma CInv_abort w h : CInv w -> h ∈ handles (calls w) -> (Abort h ∉ calls w) -> prepared (cs w) <> Some h ->
  quiet (task w) \/ (exists d p, task w = Staging d p h) ->
  CInv ((w <| calls := calls w ++ [Abort h] |>) <| task := Idle |>).
Proof.
  intros Hi Hh Ha Hne Hq. split; simpl; try apply Hi; rewrite ?handles_app; simpl; rewrite ?app_nil_r.
  - by apply lawful_abort; [apply Hi|..].
  - intros h' Hp. destruct (ci_prepared _ Hi h' Hp) as (H1 & H2 & H3). split_and!; [done| |].
    + intros Hx. calls_in; [done|by rewrite Hp in Hne].
    + intros ok Hok. calls_in. destruct (H3 ok) as (? & ? & ?); [done|]. auto.
  - done.
  - done.
  - intros h' Hx. destruct (decide (h' = h)) as [->|Hd]; [left; set_solver|].
    destruct (ci_account _ Hi h' Hx) as [?|[?|[?|(d' & p' & Hy)]]]; [set_solver..|auto|].
    rewrite Hy in Hq. destruct Hq as [[]|(d & p & [=])]. congruence.
  - intros h' Hx. calls_in. apply elem_of_app. left. by apply Hi.
Qed.

(** A staged configuration becomes the candidate, or is given up. *)
Lemma stage_cases now h p c : let '(c', l, e) := stage now h p c in
  kept now c c' /\ l = [Abort h] /\ is_Some e
  \/ ~ expired now c /\ state c <> SessionClosed /\ l = [] /\ e = None /\ (candidate c = None \/ prepared c = None)
     /\ c' = (((c <| candidate := Some p |>) <| prepared := Some h |>) <| readyGeneration := 0 |>)
               <| state := SessionAwaitingReady |>.
Proof.
  unfold stage. pose proof (ensureActive_kept now c) as Hk. destruct (ensureActive now c) as [c1 [e|]] eqn:He.
  - left. split_and!; eauto.
  - apply ensureActive_ok in He as (-> & ? & ? & ?). repeat case_bool_decide; simpl.
    + left. split_and!; eauto using kept_refl.
    + right. split_and!; auto.
    + right. split_and!; auto.
    + right. split_and!; auto.
Qed.

Lemma CInv_staged w d p q h : CInv w -> task w = Staging d p h ->
  let '(c, l, e) := stage (clock w) h q (cs w) in
  forall c', (e = None -> c' = c \/ c' = c <| needsSnapshot := false |>) -> (e <> None -> c' = c) ->
  CInv (((w <| cs := c' |>) <| calls := calls w ++ l |>) <| task := Idle |>).
Proof.
  intros Hi Ht. destruct (ci_staging _ Hi _ _ _ Ht) as (Hh & Ha & Hv & Hne). pose proof (stage_cases (clock w) h q (cs w)) as Hs.
  destruct (stage _ _ _ _) as [[c l] e]. intros c' Hc1 Hc2.
  destruct Hs as [(Hk & -> & [x ->])|(Hx & Hcl & -> & -> & Hnone & ->)].
  - rewrite Hc2 by done. pose proof (CInv_abort (w <| cs := c |>) h) as Hx. simpl in Hx. apply Hx; [by apply CInv_kept|done..| |eauto].
    by rewrite (k_prepared _ _ _ Hk).
  - assert (Hp : prepared (cs w) = None) by (destruct Hnone as [Hn|Hn]; [by apply (ci_pair _ Hi)|done]).
    rewrite app_nil_r.
    assert (Hg : candidate c' = Some q /\ prepared c' = Some h /\ state c' = SessionAwaitingReady)
      by (destruct (Hc1 eq_refl) as [->| ->]; done).
    clear Hc1 Hc2. destruct Hg as (Hg1 & Hg2 & Hg3). split; simpl; try apply Hi; rewrite ?Hg1, ?Hg2, ?Hg3; try done.
    + intros h' [= <-]. split_and!; [done..|]. intros ok Hok. by apply Hv in Hok.
    + intros h' Hx'. destruct (ci_account _ Hi h' Hx') as [?|[?|[?|(d' & p' & Hy)]]]; [auto..|congruence|].
      rewrite Ht in Hy. injection Hy as <- <- <-. auto.
Qed.

Lemma CInv_close w reason : CInv w -> task w = Idle ->
  CInv (let '(c, l) := Close reason (cs w) in (w <| cs := c |>) <| calls := calls w ++ l |>).
Proof.
  intros Hi Ht. unfold Close. case_bool_decide as Hc; [rewrite app_nil_r; by destruct w|].
  set (c' := closed reason (cs w) <| prepared := None |> <| candidate := None |>).
  assert (H0 : forall l, lawful l -> handles l = handles (calls w) -> (forall x, x ∈ calls w -> x ∈ l) ->
    (forall h ok, Activate h ok ∈ l -> Activate h ok ∈ calls w) ->
    (forall h, prepared (cs w) = Some h -> Abort h ∈ l) -> CInv ((w <| cs := c' |>) <| calls := l |>)).
  { intros l Hl Hh Hin Hv Hp. split; simpl; rewrite ?Hh; try done.
    - by rewrite Ht.
    - by rewrite Ht.
    - intros h Hx. destruct (ci_account _ Hi h Hx) as [?|[?|[?|(d & p & Hy)]]]; [auto..|congruence].
    - intros h Hx. apply Hin. apply (ci_failed _ Hi). by apply Hv. }
  unfold abortPrepared. destruct (prepared (cs w)) as [h|] eqn:Hp.
  - destruct (ci_prepared _ Hi h Hp) as (H1 & H2 & H3). apply H0.
    + by apply lawful_abort; [apply Hi|..].
    + by rewrite handles_app, app_nil_r.
    + set_solver.
    + intros h' ok Hx. by calls_in.
    + intros h' [= <-]. set_solver.
  - rewrite app_nil_r. apply H0; [apply Hi|done..].
Qed.

(** An activation ends. *)
Lemma CInv_activate_failed w v canceled : CInv w -> task w = Activating v ->
  CInv (let '(c, l, _) := MarkReady_failed canceled v (cs w) in
        ((w <| cs := c |>) <| calls := calls w ++ Activate (vHandle v) false :: l |>) <| task := Idle |>).
Proof.
  intros Hi Ht. destruct (ci_activating _ Hi v Ht) as [Hp Hc]. destruct (ci_prepared _ Hi _ Hp) as (H1 & H2 & H3).
  assert (Hv : forall ok, Activate (vHandle v) ok ∉ calls w).
  { intros ok Hok. destruct (H3 ok Hok) as (_ & _ & Hx). by rewrite Ht in Hx. }
  unfold MarkReady_failed, candidateIs. rewrite Hc. unfold Server.sameConfig. rewrite Z.eqb_refl, bool_decide_true by done.
  simpl. rewrite cons_middle, app_assoc. split; simpl; rewrite ?handles_app; simpl; rewrite ?app_nil_r; try done.
  - apply lawful_abort; [by apply lawful_activate; [apply Hi|..]| |]; [by rewrite handles_app, app_nil_r|].
    intros Hx. by calls_in.
  - intros h Hx. destruct (ci_account _ Hi h Hx) as [?|[?|[Hy|(d & p & Hy)]]]; [set_solver..| |congruence].
    rewrite Hp in Hy. injection Hy as <-. set_solver.
  - intros h Hx. calls_in; [|set_solver]. apply elem_of_app. left. apply elem_of_app. left. by apply Hi.
Qed.

Lemma ensureActive_expired now c c' e : ensureActive now c = (c', Some e) -> state c <> SessionNew ->
  (state c = SessionClosed -> expired now c) -> expired now c'.
Proof.
  unfold ensureActive, closed, expired. repeat case_bool_decide; try done; [intros [= <- <-]; auto|].
  intros He _ _. repeat case_match; simplify_eq; simpl.
  - left. lia.
  - right. repeat match goal with H : _ && _ = true |- _ => apply andb_true_iff in H as [? ?] end.
    split; [by apply negb_true_iff|lia].
Qed.

Lemma CInv_time w t : clock w <= t -> CInv w -> CInv (w <| clock := t |>).
Proof.
  intros Ht Hi. split; simpl; try apply Hi.
  - intros H1 H2. eapply expired_mono; [done|]. by apply (ci_end _ Hi).
  - intros h Hh. destruct (ci_prepared _ Hi h Hh) as (H1 & H2 & H3). split_and!; [done..|].
    intros ok Hok. destruct (H3 ok Hok) as (? & ? & ?). split_and!; [done| |done]. by eapply expired_mono.
Qed.

(** What [MarkReady_finish] does for the activation that is under way. *)
Lemma MarkReady_finish_cases t v c : candidate c = Some (vCandidate v) ->
  let '(c', r) := MarkReady_finish t v c in
  (exists e, ensureActive t c = (c', Some e) /\ r = (Some (vReadiness v), Some e))
  \/ ~ expired t c /\ state c <> SessionClosed /\ r = (Some (vReadiness v), None)
     /\ c' = (((((c <| active := Some (vCandidate v) |>) <| candidate := None |>) <| prepared := None |>)
                 <| needsSnapshot := false |>) <| readyGeneration := Generation (vCandidate v) |>)
               <| state := SessionReady |>.
Proof.
  intros Hc. unfold MarkReady_finish. destruct (ensureActive t c) as [c1 [e|]] eqn:He; [left; eauto|].
  apply ensureActive_ok in He as (-> & ? & ? & ?). unfold candidateIs. rewrite Hc. unfold Server.sameConfig.
  rewrite Z.eqb_refl, bool_decide_true by done. simpl. auto.
Qed.

Lemma CInv_activated w v t y : CInv w -> task w = Activating v -> clock w <= t ->
  CInv (((((w <| cs := (MarkReady_finish t v (cs w)).1 |>) <| calls := calls w ++ [Activate (vHandle v) true] |>)
            <| task := Idle |>) <| clock := t |>) <| sent := y |>).
Proof.
  intros Hi Ht Hlt. destruct (ci_activating _ Hi v Ht) as [Hp Hc]. destruct (ci_prepared _ Hi _ Hp) as (H1 & H2 & H3).
  assert (Hv : forall ok, Activate (vHandle v) ok ∉ calls w).
  { intros ok Hok. destruct (H3 ok Hok) as (_ & _ & Hx). by rewrite Ht in Hx. }
  assert (Hlaw : lawful (calls w ++ [Activate (vHandle v) true])) by (apply lawful_activate; [apply Hi|done..]).
  assert (Hacc : forall h, h ∈ handles (calls w) -> Abort h ∈ calls w ++ [Activate (vHandle v) true]
                   \/ Activate h true ∈ calls w ++ [Activate (vHandle v) true]).
  { intros h Hx. destruct (ci_account _ Hi h Hx) as [?|[?|[Hy|(d & p & Hy)]]]; [set_solver..| |congruence].
    rewrite Hp in Hy. injection Hy as <-. set_solver. }
  assert (Hfail : forall h, Activate h false ∈ calls w ++ [Activate (vHandle v) true] ->
                   Abort h ∈ calls w ++ [Activate (vHandle v) true]).
  { intros h Hx. calls_in. apply elem_of_app. left. by apply Hi. }
  assert (Hst : state (cs w) <> SessionNew) by (intros Hx; apply (ci_new _ Hi) in Hx; congruence).
  pose proof (MarkReady_finish_cases t v (cs w) Hc) as Hm. destruct (MarkReady_finish t v (cs w)) as [c r]. simpl.
  destruct Hm as [(e & He & _)|(_ & Hcl & _ & ->)].
  - pose proof (ensureActive_kept t (cs w)) as Hk. rewrite He in Hk. simpl in Hk.
    assert (Hex : expired t c).
    { eapply ensureActive_expired; [done..|]. intros Hcl. apply (expired_mono (clock w)); [done|].
      apply (ci_end _ Hi); [congruence|done]. }
    destruct Hk as [K1 K2 _ _ K5 _ _].
    split; simpl; rewrite ?handles_app, ?K1, ?K2; simpl; rewrite ?app_nil_r; try done; try apply Hi.
    + intros Hx. by apply K5 in Hst.
    + intros h Hh. rewrite Hp in Hh. injection Hh as <-. split_and!; [done|set_solver|].
      intros ok Hok. calls_in; [by apply Hv in Hok|by split_and!].
    + intros h Hx. destruct (Hacc h Hx); auto.
  - split; simpl; rewrite ?handles_app; simpl; rewrite ?app_nil_r; try done.
    intros h Hx. destruct (Hacc h Hx); auto.
Qed.

Lemma CInv_drains w l : CInv w -> CInv (w <| drains := l |>).
Proof. intros [? ? ? ? ? ? ? ? ?]. by split. Qed.

(** An answer of the applier. *)
Lemma CInv_answer w d p r code : CInv w -> quiet (task w) ->
  (forall h, pHandle r = Some h -> h ∉ handles (calls w)) ->
  CInv match prepareOutcome code r with
       | (l, Err _) =>
           (w <| calls := calls w ++ match pHandle r with Some h => [Prepared h p] | None => [] end ++ l |>)
             <| task := Idle |>
       | (_, Ok h) => (w <| calls := calls w ++ [Prepared h p] |>) <| task := Staging d p h |>
       end.
Proof.
  intros Hi Hq Hf. unfold prepareOutcome. destruct (pHandle r) as [h|] eqn:Hr.
  - specialize (Hf h eq_refl). pose proof (CInv_prepared w d p h Hi Hq Hf) as Hs.
    assert (Ha : CInv ((w <| calls := calls w ++ [Prepared h p; Abort h] |>) <| task := Idle |>)).
    { pose proof (CInv_abort _ h Hs) as Hx. simpl in Hx. rewrite <- app_assoc in Hx.
      destruct (ci_staging _ Hs d p h eq_refl) as (H1 & H2 & _ & H4). simpl in *. apply Hx; eauto. }
    destruct (pErr r); [done|]. destruct (pExpired r); done.
  - assert (Ha : CInv ((w <| calls := calls w ++ [] ++ [] |>) <| task := Idle |>)).
    { rewrite !app_nil_r. by apply (CInv_quiet w). }
    destruct (pErr r); [done|]. destruct (pExpired r); done.
Qed.

Lemma MarkReady_start_ok canceled now e ro o c c' v : MarkReady_start canceled now e ro o c = (c', Ok v) ->
  c' = c /\ ~ expired now c /\ prepared c = Some (vHandle v) /\ candidate c = Some (vCandidate v)
  /\ vReadiness v = readinessOf (vCandidate v) true true true c.
Proof.
  unfold MarkReady_start. destruct (ensureActive now c) as [c1 [x|]] eqn:He; [done|].
  apply ensureActive_ok in He as (-> & ? & ? & ?). repeat case_match; intros; simplify_eq.
  by destruct e, ro, o.
Qed.

Lemma CInv_ready w canceled e ro o c v : CInv w -> task w = Idle ->
  MarkReady_start canceled (clock w) e ro o (cs w) = (c, Ok v) ->
  CInv ((w <| cs := c |>) <| task := Activating v |>).
Proof.
  intros Hi Ht (-> & Hx & Hp & Hc & _)%MarkReady_start_ok. split; simpl; try apply Hi; try done.
  - intros h Hh. destruct (ci_prepared _ Hi h Hh) as (H1 & H2 & H3). split_and!; [done..|].
    intros ok Hok. by destruct (H3 ok Hok) as (_ & H4 & _).
  - by intros v' [= <-].
  - intros h Hh. destruct (ci_account _ Hi h Hh) as [?|[?|[?|(d & p & Hy)]]]; [auto..|congruence].
Qed.

Lemma cstep_inv w w' : cstep w w' -> CInv w -> CInv w'.
Proof.
  intros Hs Hi. destruct Hs as [w t Ht|w c Hq|w p Ht _|w d Ht|w d p Ht|w d p r code Ht Hf|w d p h Ht|w b e ro o Ht
    |w v b Ht|w v t Ht Hlt|w reason Ht|w b d|w l1 d l2 b Hd|w l1 d l2 n Hd].
  - by apply CInv_time.
  - apply CInv_kept; [done|]. by apply quick_kept.
  - pose proof (ApplySnapshot_start_kept (clock w) p (cs w)) as Hk. destruct (ApplySnapshot_start _ _ _) as [c [r|]].
    + by apply CInv_kept.
    + apply (CInv_quiet (w <| cs := c |>)); [by apply CInv_kept|simpl; by rewrite Ht|done].
  - pose proof (ApplyDelta_start_kept (clock w) d (cs w)) as Hk. destruct (ApplyDelta_start _ _ _) as [c [r|]].
    + by apply CInv_kept.
    + apply (CInv_quiet (w <| cs := c |>)); [by apply CInv_kept|simpl; by rewrite Ht|done].
  - apply CInv_quiet; [done|by rewrite Ht|done].
  - apply CInv_answer; [done|by rewrite Ht|done].
  - destruct d as [d|]; unfold ApplySnapshot_finish, ApplyDelta_finish.
    + pose proof (CInv_staged w _ _ (deltaSnapshot d (cs w)) h Hi Ht) as Hx.
      destruct (stage _ _ _ _) as [[c l] [e|]]; apply Hx; auto; done.
    + pose proof (CInv_staged w _ _ (Server.bindSnapshot (ident (cs w)) p) h Hi Ht) as Hx.
      destruct (stage _ _ _ _) as [[c l] [e|]]; apply Hx; auto; done.
  - pose proof (MarkReady_start_kept b (clock w) e ro o (cs w)) as Hk. destruct (MarkReady_start _ _ _ _ _ _) as [c [v|r]] eqn:Hm.
    + by eapply CInv_ready.
    + by apply CInv_kept.
  - by apply CInv_activate_failed.
  - pose proof (CInv_activated w v t) as Hx. destruct (MarkReady_finish _ _ _) as [c r]. by apply Hx.
  - by apply CInv_close.
  - pose proof (HandleDrain_start_kept b (clock w) d (cs w)) as Hk. destruct (HandleDrain_start _ _ _ _) as [c [r|]].
    + by apply CInv_kept.
    + apply (CInv_drains (w <| cs := c |>)). by apply CInv_kept.
  - apply (CInv_drains (w <| cs := _ |>)), CInv_kept; [done|]. apply HandleDrain_failed_kept.
  - apply (CInv_drains (w <| cs := _ |>)), CInv_kept; [done|]. apply HandleDrain_finish_kept.
Qed.

Lemma crun_inv w w' : rtc cstep w w' -> CInv w -> CInv w'.
Proof. induction 1 as [|w1 w2 w3 H1 _ IH]; [done|]. intros Hi. apply IH. by eapply cstep_inv. Qed.
End life.
