(* ===== verification/ConnectorFence.v ===== *)
(** * The connector protocol: one session of a connector

    All sessions of a server share its registry.  Whatever calls are made of them, in any
    order, only the session that the registry holds for a connector can act for it. *)
From S2P Require Import Prelude.
From S2P Require Import TransferCodec.
From S2P Require Import UpdateGate.
From S2P Require Import Connector.
From S2P Require Import ConnectorServer.
Import Server.

Create HintDb connector.

Section fence.
Context `{ConfigPayload} (config : Config).

(** ** Calls *)

(** A call of a session but [HandleReadiness], and whether it returned without an error. *)
Inductive served : World -> World -> bool -> Prop :=
| sv_ack now a w : served w (HandleAck now a w).1 (is_ok (HandleAck now a w).2)
| sv_snapshot now p w : served w (OfferSnapshot now p w).1 (is_ok (OfferSnapshot now p w).2)
| sv_delta now d w : served w (OfferDelta now d w).1 (is_ok (OfferDelta now d w).2)
| sv_heartbeat now h w : served w (HandleHeartbeat config now h w).1 (is_ok (HandleHeartbeat config now h w).2)
| sv_drain b now now' id deadline force w :
    served w (BeginDrain b now now' id deadline force w).1 (is_ok (BeginDrain b now now' id deadline force w).2)
| sv_drainAck b now a w : served w (HandleDrainAck b now a w).1 (is_ok (HandleDrainAck b now a w).2)
| sv_renew now q w : served w (Renew_start now q w).1 (is_ok (Renew_start now q w).2)
| sv_renewed now now' a f r w :
    served w (Renew_finish config now now' a f r w).1 (is_ok (Renew_finish config now now' a f r w).2)
| sv_lease now w : served w (CheckLease now w).1 (bool_decide ((CheckLease now w).2 = None)).

(** Any call; [Close] cannot fail. *)
Inductive called : World -> World -> Prop :=
| called_served w w' ok : served w w' ok -> called w w'
| called_ready now y w : called w (HandleReadiness now y w).1
| called_close reason w : called w (Close reason w).

(** ** What a call does to the registry *)
Definition isCurrent (w : World) : Prop := w.1 !! fConnectorID (ref w.2) = Some (ref w.2).

(** The session keeps its identity; the registry is as it was, or has lost this session, which
    is then closed. *)
Record inside (w w' : World) : Prop := {
  in_ref : ref w'.2 = ref w.2;
  in_registry : w'.1 = w.1 \/ isCurrent w /\ w'.1 = delete (fConnectorID (ref w.2)) w.1;
  in_closed : state w.2 = SessionClosed -> w' = w;
  in_gone : ref_valid (ref w.2) = true -> state w.2 <> SessionClosed -> state w'.2 = SessionClosed -> ~ isCurrent w' }.

Lemma inside_refl w : inside w w.
Proof. split; auto. Qed.

Lemma close_inside reason w : inside w (close reason w).
Proof.
  unfold close. case_bool_decide as Hc; [apply inside_refl|]. unfold Disconnect, isCurrent. split; simpl; try done.
  - unfold isCurrent. repeat case_match; simpl; auto. case_bool_decide; naive_solver.
  - intros Hv _ _. rewrite Hv. simpl. unfold isCurrent. simpl. destruct (w.1 !! fConnectorID (ref w.2)) as [f|] eqn:Hf; simpl; [|by rewrite Hf].
    case_bool_decide as Hd; simpl; [by rewrite lookup_delete_eq|]. rewrite Hf. by intros [= ->].
Qed.

Lemma registry_Active_is c r f : registry_Active c r = Some f -> r !! c = Some f.
Proof. unfold registry_Active. by case_match. Qed.

(** The check of a call: what it closes, or that the session is current and alive. *)
Lemma ensureActive_inside now w : inside w (ensureActive now w).1
  /\ ((ensureActive now w).2 = None -> (ensureActive now w).1 = w /\ isCurrent w /\ state w.2 <> SessionClosed).
Proof.
  unfold ensureActive. case_bool_decide; [split; [apply inside_refl|done]|].
  case_bool_decide as Ha; simpl; [|split; [apply close_inside|done]].
  repeat (case_match; [split; [apply close_inside|done]|]). split; [apply inside_refl|].
  intros _. split_and!; try done. by apply registry_Active_is.
Qed.

Lemma whenActive_inside {A} now (body : Session -> Session * result Error A) w :
  (forall s, state s <> SessionClosed -> ref (body s).1 = ref s /\ state (body s).1 <> SessionClosed) ->
  inside w (whenActive now body w).1 /\ (is_ok (whenActive now body w).2 = true -> isCurrent w).
Proof.
  intros Hb. unfold whenActive. destruct (ensureActive_inside now w) as [Hi Hok].
  destruct (ensureActive now w) as [w1 [e|]]; [done|]. destruct (Hok eq_refl) as (Hw & Hc & Hs). simpl in Hw. subst w1.
  specialize (Hb w.2 Hs). destruct (body w.2) as [s r]. simpl in *. split; [|done].
  destruct Hb as [Hr Hs']. split; simpl; auto; done.
Qed.

(** The bodies of the calls keep the identity and do not close the session. *)
Definition stays (s s' : Session) : Prop := ref s' = ref s /\ (state s <> SessionClosed -> state s' <> SessionClosed).
Ltac stay := unfold stays, restoreState; repeat (case_match; simpl in *; try done); simplify_eq; try done.

Lemma handleAck_stays a s : stays s (handleAck a s).1.
Proof. unfold handleAck, ackSnapshot, ackDelta. stay. Qed.
Lemma handleReadiness_stays y s : stays s (handleReadiness y s).1.
Proof. unfold handleReadiness. stay. Qed.
Lemma offerSnapshot_stays p s : stays s (offerSnapshot p s).1.
Proof. unfold offerSnapshot. stay. Qed.
Lemma offerDelta_stays d s : stays s (offerDelta d s).1.
Proof. unfold offerDelta. stay. Qed.
Lemma handleHeartbeat_stays now h s : stays s (handleHeartbeat config now h s).1.
Proof. unfold handleHeartbeat. stay. Qed.
Lemma beginDrain_stays now id deadline force s : stays s (beginDrain now id deadline force s).1.
Proof. unfold beginDrain. stay. Qed.
Lemma handleDrainAck_stays a s : stays s (handleDrainAck a s).1.
Proof. unfold handleDrainAck. stay. Qed.
Lemma renewStart_stays q s : stays s (renewStart q s).1.
Proof. unfold renewStart. stay. Qed.
Lemma renewFinish_stays now a f r s : stays s (renewFinish config now a f r s).1.
Proof. unfold renewFinish. stay. Qed.
Hint Resolve handleAck_stays handleReadiness_stays offerSnapshot_stays offerDelta_stays handleHeartbeat_stays
  beginDrain_stays handleDrainAck_stays renewStart_stays renewFinish_stays : connector.

Lemma stays_inside {A} now (body : Session -> Session * result Error A) w : (forall s, stays s (body s).1) ->
  inside w (whenActive now body w).1 /\ (is_ok (whenActive now body w).2 = true -> isCurrent w).
Proof. intros Hb. apply whenActive_inside. intros s Hs. destruct (Hb s). auto. Qed.

Lemma served_inside w w' ok : served w w' ok -> inside w w' /\ (ok = true -> isCurrent w).
Proof.
  assert (Hno : forall e : Error, inside w w /\ (is_ok (@Err Error unit e) = true -> isCurrent w))
    by (intros; split; [apply inside_refl|done]).
  intros [now a v|now p v|now d v|now h v|b now now' id dl f v|b now a v|now q v|now now' a f r v|now v].
  all: try (unfold HandleAck, OfferSnapshot, OfferDelta, HandleHeartbeat, BeginDrain, HandleDrainAck, Renew_start, Renew_finish;
    repeat case_match; try (split; [apply inside_refl|done]); apply stays_inside; auto with connector; fail).
  unfold CheckLease. destruct (ensureActive_inside now v) as [Hi Hok]. split; [done|]. intros Hx%bool_decide_eq_true. by apply Hok.
Qed.

Lemma called_inside w w' : called w w' -> inside w w'.
Proof.
  intros [v v' ok Hs|now y v|reason v].
  - by apply served_inside in Hs as [? _].
  - unfold HandleReadiness. case_match; [apply inside_refl|]. apply stays_inside; auto with connector.
  - apply close_inside.
Qed.

(** A session that is not current gets nothing done. *)
Lemma stale_served w w' ok : served w w' ok -> ~ isCurrent w -> ok = false /\ w'.1 = w.1.
Proof.
  intros [Hi Hok]%served_inside Hc. split; [destruct ok; naive_solver|]. by destruct (in_registry _ _ Hi) as [|[]].
Qed.
Lemma stale_ready now y w : ~ isCurrent w -> is_ok (HandleReadiness now y w).2 = false.
Proof.
  intros Hc. unfold HandleReadiness. case_match; [done|].
  destruct (stays_inside now (handleReadiness y) w) as [_ Hx]; [auto with connector|].
  destruct (is_ok _); naive_solver.
Qed.

(** ** Many sessions *)
Record Sessions := mkSessions { registry : Registry; sessions : list Session }.

Inductive fstep : Sessions -> Sessions -> Prop :=
| f_accept w now a p sid h r s wl q :
    Accept config now a p (Some sid) h (registry w) = (r, Ok (s, wl, q)) ->
    (forall i s', sessions w !! i = Some s' -> fSessionID (ref s') <> sid) ->
    fstep w (mkSessions r (sessions w ++ [s]))
| f_call w i s r s' : sessions w !! i = Some s -> called (registry w, s) (r, s') ->
    fstep w (mkSessions r (<[i := s']> (sessions w))).

Definition current (w : Sessions) (s : Session) : Prop := isCurrent (registry w, s).

(** What [Accept] attaches. *)
Record accepted (sid : gostring) (r r' : Registry) (s : Session) : Prop := {
  ac_registry : r' = <[fConnectorID (ref s) := ref s]> r;
  ac_valid : ref_valid (ref s) = true;
  ac_session : fSessionID (ref s) = sid;
  ac_open : state s <> SessionClosed;
  ac_later : forall f, r !! fConnectorID (ref s) = Some f ->
    fTunnelID f = fTunnelID (ref s) /\ fProcessGeneration f < fProcessGeneration (ref s) }.

Lemma attached_ref f r r' o : Attach f r = (r', Ok o) ->
  r' = <[fConnectorID f := f]> r /\ ref_valid f = true
  /\ forall g, r !! fConnectorID f = Some g -> fTunnelID g = fTunnelID f /\ fProcessGeneration g < fProcessGeneration f.
Proof.
  unfold Attach. destruct (ref_valid f); simpl; [|done]. destruct (r !! fConnectorID f) as [g|].
  - case_bool_decide; simpl; [|done]. destruct (_ <=? _) eqn:Hle; [done|]. intros [= <- <-].
    split_and!; [done..|]. intros g' [= <-]. split; [done|lia].
  - intros [= <- <-]. split_and!; [done..|]. by intros g.
Qed.

(** What [Accept] has checked when it returns a session. *)
Lemma Accept_inv now a p sid h r r' s wl b : Accept config now a p sid h r = (r', Ok (s, wl, b)) ->
  exists version caps a0 p0 sid0 o,
    let l := mkLease sid0 (Z.min (LeaseExpiresAt a0) (now + LeaseDuration config)) (HeartbeatInterval config / Millisecond) in
    let f := mkRef (hTunnelID h) (hConnectorID h) sid0 (hProcessGeneration h) in
    hello_Validate now h = None /\ NegotiateVersion (hMinVersion h) (hMaxVersion h) = Ok version
    /\ NegotiateCapabilities (hCapabilities h) (Capabilities config) = Ok caps
    /\ a = Some a0 /\ authMatches now h a0 = true
    /\ p = Some p0 /\ snapshot_Validate p0 = None /\ TunnelID (sIdent p0) = hTunnelID h
    /\ sid = Some sid0 /\ identifier sid0 = true /\ lease_valid now l = true /\ Attach f r = (r', Ok o)
    /\ wl = mkWelcome ProtocolName version sid0 caps l true now
    /\ b = bindSnapshot (mkIdent (hAccountID h) (hTunnelID h) (hConnectorID h) sid0 (hProcessGeneration h)) p0
    /\ s = mkSession f a0 l wl (Some b) None None None 0 false SessionAwaitingSnapshot now zeroTime None None None false None.
Proof.
  unfold Accept. destruct (hello_Validate now h); [done|]. destruct (NegotiateVersion _ _) as [v|]; [|done].
  destruct (NegotiateCapabilities _ _) as [caps|]; [|done]. destruct a as [a|]; [|done].
  destruct (authMatches now h a) eqn:Hm; [|done]. destruct p as [p|]; [|done].
  case_bool_decide as Hv; [done|]. case_bool_decide as Ht; [|done]. destruct sid as [sid|]; [|done].
  destruct (identifier sid) eqn:Hi; [|done]. cbv zeta. simpl. destruct (lease_valid _ _) eqn:Hl; [|done]. simpl.
  destruct (Attach _ r) as [r1 [o|e]] eqn:Hat; [|done]. intros [= <- <- <- <-]. by exists v, caps, a, p, sid, o.
Qed.

Lemma Accept_ok now a p sid h r r' s wl q : Accept config now a p sid h r = (r', Ok (s, wl, q)) ->
  exists i, sid = Some i /\ accepted i r r' s.
Proof.
  intros (v & caps & a0 & p0 & sid0 & o & _ & _ & _ & _ & _ & _ & _ & _ & -> & _ & _ & Hat & _ & _ & ->)%Accept_inv.
  apply attached_ref in Hat as (H1 & H2 & H3). exists sid0. split; [done|]. by split.
Qed.

Record FInv (w : Sessions) : Prop := {
  fi_ids : forall i j s s', sessions w !! i = Some s -> sessions w !! j = Some s' ->
    fSessionID (ref s) = fSessionID (ref s') -> i = j;
  fi_valid : forall i s, sessions w !! i = Some s -> ref_valid (ref s) = true;
  fi_key : forall c f, registry w !! c = Some f -> fConnectorID f = c /\ exists i s, sessions w !! i = Some s /\ ref s = f;
  fi_open : forall i s, sessions w !! i = Some s -> state s = SessionClosed -> ~ current w s }.

(** The sessions after a call of one of them. *)
Lemma called_sessions (l : list Session) i s s' : l !! i = Some s -> ref s' = ref s ->
  forall j t, <[i := s']> l !! j = Some t -> exists t', l !! j = Some t' /\ ref t = ref t' /\ (j <> i -> t = t').
Proof.
  intros Hi Hr j t. rewrite list_lookup_insert_Some. intros [(-> & -> & _)|(Hn & Hj)]; [exists s|exists t]; done.
Qed.

(** A session that is not current does not become current again. *)
Lemma stale_stays w w' i s s' : FInv w -> fstep w w' -> sessions w !! i = Some s -> sessions w' !! i = Some s' ->
  ~ current w s -> ref s' = ref s /\ ~ current w' s'.
Proof.
  intros Hi Hs Hls Hls' Hc. destruct Hs as [w now a p sid h r k wl q Ha Hf|w j k r k' Hj Hk]; simpl in *.
  - apply Accept_ok in Ha as (? & [= <-] & [Hr _ Hsid _ _]). rewrite lookup_app_l in Hls' by by eapply lookup_lt_Some.
    rewrite Hls in Hls'. injection Hls' as <-. split; [done|]. unfold current, isCurrent in *. simpl in *. rewrite Hr.
    rewrite lookup_insert_Some. intros [[_ Hx]|[_ Hx]]; [|done]. apply (Hf i s Hls). by rewrite <- Hx.
  - apply called_inside in Hk. pose proof (in_ref _ _ Hk) as Hrf. simpl in Hrf.
    destruct (called_sessions _ _ _ _ Hj Hrf i s' Hls') as (t & Ht & Href & _). rewrite Hls in Ht. injection Ht as <-.
    split; [done|]. unfold current, isCurrent in *. simpl in *. rewrite Href.
    destruct (in_registry _ _ Hk) as [Hx|[_ Hx]]; simpl in Hx; rewrite Hx; [done|]. rewrite lookup_delete_Some. by intros [_ ?].
Qed.

Lemma fstep_inv w w' : fstep w w' -> FInv w -> FInv w'.
Proof.
  intros Hs Hi. pose proof (fun i s s' => stale_stays w w' i s s' Hi Hs) as Hst.
  destruct Hs as [w now a p sid h r k wl q Ha Hf|w j k r k' Hj Hk].
  - apply Accept_ok in Ha as (? & [= <-] & [Hr Hv Hsid Hop _]).
    assert (Hnew : forall i s, (sessions w ++ [k]) !! i = Some s -> sessions w !! i = Some s \/ s = k /\ i = length (sessions w)).
    { intros i s. rewrite lookup_app_Some. intros [?|[Hlen Hx]]; [by left|right].
      destruct (i - length (sessions w))%nat eqn:He; [|by destruct n]. simpl in Hx. split; [congruence|lia]. }
    split; simpl.
    + intros i j s s' H1 H2 Hx. destruct (Hnew _ _ H1) as [H3|[-> ->]], (Hnew _ _ H2) as [H4|[-> ->]].
      * by eapply (fi_ids _ Hi).
      * rewrite Hsid in Hx. by apply Hf in H3.
      * rewrite Hsid in Hx. symmetry in Hx. by apply Hf in H4.
      * done.
    + intros i s Hx. destruct (Hnew _ _ Hx) as [?|[-> _]]; [by eapply fi_valid|done].
    + intros c f. rewrite Hr, lookup_insert_Some. intros [[<- <-]|[_ Hx]].
      * split; [done|]. exists (length (sessions w)), k. split; [|done]. by rewrite lookup_app_r, Nat.sub_diag by lia.
      * destruct (fi_key _ Hi _ _ Hx) as (H1 & i & s & H2 & H3). split; [done|]. exists i, s. split; [|done]. by apply lookup_app_l_Some.
    + intros i s Hx Hcl. destruct (Hnew _ _ Hx) as [Hy|[-> _]]; [|done].
      by eapply Hst; [..|eapply fi_open].
  - pose proof (called_inside _ _ Hk) as [Hrf Hreg Hcl Hgone]. simpl in *.
    pose proof (called_sessions _ _ _ _ Hj Hrf) as Hback. split; simpl.
    + intros i i' s s' H1 H2 Hx. destruct (Hback _ _ H1) as (t & Ht & Hrt & _), (Hback _ _ H2) as (t' & Ht' & Hrt' & _).
      eapply (fi_ids _ Hi); [done..|]. by rewrite <- Hrt, <- Hrt'.
    + intros i s Hx. destruct (Hback _ _ Hx) as (t & Ht & Hrt & _). rewrite Hrt. by eapply fi_valid.
    + intros c f Hx. assert (Hy : registry w !! c = Some f).
      { destruct Hreg as [->|[_ ->]]; [done|]. by rewrite lookup_delete_Some in Hx; destruct Hx. }
      destruct (fi_key _ Hi _ _ Hy) as (H1 & i & s & H2 & H3). split; [done|].
      destruct (decide (i = j)) as [->|Hd].
      * exists j, k'. rewrite list_lookup_insert_eq by by eapply lookup_lt_Some. split; [done|]. congruence.
      * exists i, s. by rewrite list_lookup_insert_ne.
    + intros i s Hx Hc. destruct (decide (i = j)) as [->|Hd].
      * rewrite list_lookup_insert_eq in Hx by by eapply lookup_lt_Some. injection Hx as <-.
        destruct (decide (state k = SessionClosed)) as [Hk'|Hk'].
        -- specialize (Hcl Hk'). injection Hcl as -> ->. exact (fi_open _ Hi _ _ Hj Hk').
        -- apply Hgone; [by eapply fi_valid|done..].
      * rewrite list_lookup_insert_ne in Hx by done. eapply Hst; [done|simpl; by rewrite list_lookup_insert_ne|]. by eapply fi_open.
Qed.

Definition noSessions : Sessions := mkSessions ∅ [].
Lemma noSessions_inv : FInv noSessions.
Proof. by split. Qed.
Lemma frun_inv w w' : rtc fstep w w' -> FInv w -> FInv w'.
Proof. induction 1 as [|w1 w2 w3 H1 _ IH]; [done|]. intros Hi. apply IH. by eapply fstep_inv. Qed.

(** Sessions are not forgotten. *)
Lemma fstep_keeps w w' i s : fstep w w' -> sessions w !! i = Some s -> exists s', sessions w' !! i = Some s'.
Proof.
  intros [v now a p sid h r k wl q _ _|v j k r k' _ _] Hx; simpl.
  - exists s. by apply lookup_app_l_Some.
  - apply lookup_lt_is_Some. rewrite length_insert. by eapply lookup_lt_Some.
Qed.
Lemma stale_forever w w' i s : rtc fstep w w' -> FInv w -> sessions w !! i = Some s -> ~ current w s ->
  exists s', sessions w' !! i = Some s' /\ ref s' = ref s /\ ~ current w' s'.
Proof.
  intros Hr. revert s. induction Hr as [w|w1 w2 w3 H1 _ IH]; intros s Hi Hs Hc; [eauto|].
  destruct (fstep_keeps _ _ _ _ H1 Hs) as [t Ht]. destruct (stale_stays _ _ _ _ _ Hi H1 Hs Ht Hc) as [Hrt Hct].
  destruct (IH t (fstep_inv _ _ H1 Hi) Ht Hct) as (u & Hu & Hru & Hcu). exists u. split_and!; [done|congruence|done].
Qed.

(** A connector's entry is only replaced by a later process. *)
Lemma replaced_later w w' c f f' : FInv w -> fstep w w' -> registry w !! c = Some f -> registry w' !! c = Some f' ->
  f' = f \/ fTunnelID f' = fTunnelID f /\ fProcessGeneration f < fProcessGeneration f'.
Proof.
  intros Hi [v now a p sid h r k wl q Ha _|v j k r k' _ Hk] H1 H2; simpl in *.
  - apply Accept_ok in Ha as (? & _ & [Hr _ _ _ Hl]). rewrite Hr, lookup_insert_Some in H2.
    destruct H2 as [[<- <-]|[_ H2]]; [|left; congruence]. right. apply Hl in H1 as [? ?]. auto.
  - apply called_inside in Hk. destruct (in_registry _ _ Hk) as [Hx|[_ Hx]]; simpl in Hx; rewrite Hx in H2.
    + left. congruence.
    + rewrite lookup_delete_Some in H2. left. destruct H2. congruence.
Qed.
End fence.
