(* ===== verification/ConnectorAgree.v ===== *)
(** * The connector protocol: the server and the connector agree

    What a connector has staged, activated and reported, what the server takes for active, and
    the rollout of a configuration through both. *)
From S2P Require Import Prelude.
From S2P Require Import TransferCodec.
From S2P Require Import UpdateGate.
From S2P Require Import Connector.
From S2P Require Import ConnectorServer.
From S2P Require Import ConnectorClient.
From S2P Require Import ConnectorLife.
From S2P Require Import ConnectorFence.
Import Client.
#[local] Existing Instance Server.Session_eta.
Set Warnings "-clear-no-such-hyp".

(** ** Configurations *)

(** The same configuration, bound or not; one whose hash is that of its payload. *)
Definition same (p q : Snapshot) : Prop :=
  Generation p = Generation q /\ ContentHash p = ContentHash q /\ Payload p = Payload q.
Definition validated (p : Snapshot) : Prop := ContentHash p = contentHash (Payload p).
Definition ranged (p : Snapshot) : Prop := 0 <= Generation p < two64.

Lemma same_validated p q : same p q -> validated p -> validated q.
Proof. unfold validated. by intros (_ & <- & <-). Qed.

Section agree.
Context `{ConfigPayload}.

Lemma payload_ok limit t g hash p reason last :
  payload_Validate limit t g hash p reason last = None -> hash = contentHash p.
Proof.
  unfold payload_Validate. destruct (bool_decide (hash = _)) eqn:Hd; [|by rewrite orb_true_r].
  intros _. by apply bool_decide_eq_true in Hd.
Qed.
Lemma snapshot_ok p : snapshot_Validate p = None -> validated p /\ Generation p <> 0.
Proof.
  unfold snapshot_Validate. destruct (_ || (MaxSnapshotBytes <? _)) eqn:Hf; [done|]. intros Hp%payload_ok.
  split; [done|]. repeat (apply orb_false_iff in Hf as [Hf ?]). lia.
Qed.
Lemma delta_ok d : delta_Validate d = None ->
  dContentHash d = contentHash (dPayload d) /\ dGeneration d = PreviousGeneration d +64 1.
Proof.
  unfold delta_Validate. destruct (_ || (MaxDeltaBytes <? _)); [done|]. destruct (_ || negb (_ =? _)) eqn:Hg; [done|].
  intros Hp%payload_ok. apply orb_false_iff in Hg as [_ Hg]. split; [done|]. apply negb_false_iff in Hg. lia.
Qed.

(** ** The connector *)

(** No delta has passed the last generation of 64 bits. *)
Definition noWrap (l : list Call) : Prop := forall h p, Prepared h p ∈ l -> Generation p <> 0.

Definition below (w : CWorld) (p : Snapshot) : Prop :=
  forall q, active (cs w) = Some q -> Generation q < Generation p.
Definition inHand (t : Task) (d : option Delta) (p : Snapshot) : Prop :=
  t = Preparing d p \/ exists h, t = Staging d p h.

(** What was reported: it was activated, and the active configuration is that or a later one. *)
Definition reported (w : CWorld) (y : Readiness) : Prop :=
  (exists q, active (cs w) = Some q /\ yGeneration y <= Generation q
             /\ (yGeneration y = Generation q -> yContentHash y = ContentHash q))
  /\ exists h p, Prepared h p ∈ calls w /\ Activate h true ∈ calls w
       /\ Generation p = yGeneration y /\ ContentHash p = yContentHash y /\ validated p.

Record GInv (w : CWorld) : Prop := {
  gi_active : forall q, active (cs w) = Some q -> validated q /\ ranged q;
  gi_candidate : forall p, candidate (cs w) = Some p -> validated p /\ ranged p /\ below w p
    /\ exists h p', prepared (cs w) = Some h /\ Prepared h p' ∈ calls w /\ same p' p;
  gi_task : forall d p, inHand (task w) d p -> validated p /\ ranged p /\ (Generation p <> 0 -> below w p)
    /\ forall d' c, d = Some d' -> same (deltaSnapshot d' c) p;
  gi_staging : forall d p h, task w = Staging d p h -> Prepared h p ∈ calls w;
  gi_ready : forall v, task w = Activating v -> yGeneration (vReadiness v) = Generation (vCandidate v)
    /\ yContentHash (vReadiness v) = ContentHash (vCandidate v);
  gi_sent : forall y, y ∈ sent w -> reported w y }.

Lemma newClient_config w : newClient w -> GInv w.
Proof.
  destruct w as [c l t d ck st]. intros ((now & a & b & h & Hn) & Hc & Ht & _ & Hst). simpl in *. unfold New in Hn.
  repeat case_match; simplify_eq. split; simpl; try done.
  - by intros d' p [|[]].
  - intros y Hy. by apply elem_of_nil in Hy.
Qed.

(** A step that changes neither the configurations nor the task. *)
Lemma GInv_same w w' : active (cs w') = active (cs w) -> candidate (cs w') = candidate (cs w) ->
  prepared (cs w') = prepared (cs w) -> task w' = task w -> sent w' = sent w ->
  (forall x, x ∈ calls w -> x ∈ calls w') -> GInv w -> GInv w'.
Proof.
  intros Ha Hc Hp Ht Hs Hl [I1 I2 I3 I4 I5 I6]. unfold reported, below in *. split; unfold reported, below;
    rewrite ?Ha, ?Hc, ?Hp, ?Ht, ?Hs; try done.
  - intros p Hx. destruct (I2 p Hx) as (? & ? & ? & h & p' & ? & ? & ?). eauto 10.
  - intros d p h Hx. eauto.
  - intros y Hy. destruct (I6 y Hy) as [? (h & p & ? & ? & ?)]. eauto 10.
Qed.
Lemma GInv_kept w c : kept (clock w) (cs w) c -> GInv w -> GInv (w <| cs := c |>).
Proof. intros [Hc Hp Ha _ _ _ _]. by apply GInv_same. Qed.

(** The end of a call, or one without a configuration in hand. *)
Lemma GInv_idle w : GInv w -> GInv (w <| task := Idle |>).
Proof. intros [I1 I2 I3 I4 I5 I6]. split; simpl; try done. by intros d p [|[]]. Qed.

(** A configuration is only prepared when it is newer. *)
Lemma ApplySnapshot_start_continue now p c c' : ApplySnapshot_start now p c = (c', Continue) ->
  c' = c /\ snapshot_Validate p = None
  /\ forall k, candidate c = Some k \/ candidate c = None /\ active c = Some k -> Generation k < Generation p.
Proof.
  unfold ApplySnapshot_start. case_bool_decide as Hv; [done|]. destruct (ensureActive now c) as [c1 [e|]] eqn:He; [done|].
  apply ensureActive_ok in He as (-> & _). destruct (_ || _); [done|].
  destruct (candidate c) as [k|], (active c) as [q|]; repeat case_match; intros; simplify_eq; split_and!; try done;
    intros k' [|[]]; simplify_eq; lia.
Qed.
Lemma ApplyDelta_start_continue now d c c' : ApplyDelta_start now d c = (c', Continue) ->
  c' = c /\ delta_Validate d = None /\ exists a, active c = Some a /\ dGeneration d = Generation a +64 1.
Proof.
  unfold ApplyDelta_start. case_bool_decide as Hv; [done|]. destruct (ensureActive now c) as [c1 [e|]] eqn:He; [done|].
  apply ensureActive_ok in He as (-> & _). destruct (_ || _); [done|].
  destruct (active c) as [a|]; [|done]. repeat case_match; intros; simplify_eq. split_and!; [done..|].
  exists a. split; [done|]. match goal with H : negb (dGeneration d =? _) = false |- _ => apply negb_false_iff in H; lia end.
Qed.

Lemma GInv_snapshot w p : GInv w -> ranged p -> snapshot_Validate p = None ->
  (forall k, candidate (cs w) = Some k \/ candidate (cs w) = None /\ active (cs w) = Some k -> Generation k < Generation p) ->
  GInv (w <| task := Preparing None p |>).
Proof.
  intros Hi Hr Hv Hb. apply snapshot_ok in Hv as [Hv _]. destruct Hi as [I1 I2 I3 I4 I5 I6]. split; simpl; try done.
  intros d p' [[= <- <-]|[h [=]]]. split_and!; [done..| |done]. intros _ q Hq.
  destruct (candidate (cs w)) as [k|] eqn:Hc; [|by apply Hb; right].
  destruct (I2 k eq_refl) as (_ & _ & Hx & _). specialize (Hx q Hq). specialize (Hb k (or_introl eq_refl)). lia.
Qed.

Lemma u64_next g : 0 <= g < two64 -> g +64 1 <> 0 -> g < g +64 1.
Proof.
  intros Hg. unfold u64. destruct (decide (g + 1 = two64)) as [->|Hne]; [by rewrite Z.mod_same|].
  rewrite Z.mod_small by lia. lia.
Qed.
Lemma GInv_delta w d a c : GInv w -> delta_Validate d = None -> active (cs w) = Some a ->
  dGeneration d = Generation a +64 1 -> GInv (w <| task := Preparing (Some d) (deltaSnapshot d c) |>).
Proof.
  intros Hi Hv Ha Hg. apply delta_ok in Hv as [Hh _]. destruct Hi as [I1 I2 I3 I4 I5 I6]. split; simpl; try done.
  intros d' p' [[= <- <-]|[h [=]]]. destruct (I1 a Ha) as [_ Hr]. unfold ranged, below, deltaSnapshot. simpl. rewrite Hg.
  split_and!; [done|by apply u64_range..| |].
  - intros Hz q. simpl. rewrite Ha. intros [= <-]. by apply u64_next.
  - by intros d' c' [= <-].
Qed.

(** A configuration in hand becomes the candidate. *)
Lemma GInv_staged w d p h c : GInv w -> task w = Staging d p h -> noWrap (calls w) ->
  active c = active (cs w) -> candidate c = Some (match d with
    | None => Server.bindSnapshot (ident (cs w)) p | Some d => deltaSnapshot d (cs w) end) -> prepared c = Some h ->
  GInv (((w <| cs := c |>) <| calls := calls w ++ [] |>) <| task := Idle |>).
Proof.
  intros Hi Ht Hnw Ha Hc Hp. rewrite app_nil_r. destruct Hi as [I1 I2 I3 I4 I5 I6].
  destruct (I3 d p) as (Hv & Hr & Hb & Hd); [right; eauto|]. specialize (I4 _ _ _ Ht). specialize (Hb (Hnw _ _ I4)).
  assert (Hs : forall k, candidate c = Some k -> same p k).
  { intros k. rewrite Hc. intros [= <-]. destruct d as [d|]; [|done]. destruct (Hd d (cs w) eq_refl) as (H1 & H2 & H3). done. }
  unfold below, reported in *. split; unfold below, reported; simpl; rewrite ?Ha; try done.
  - intros k Hk. specialize (Hs k Hk). pose proof Hs as (Hg & _ & _). split_and!.
    + by eapply same_validated.
    + unfold ranged. by rewrite <- Hg.
    + intros q Hq. rewrite <- Hg. auto.
    + exists h, p. auto.
  - by intros d' p' [|[]].
Qed.

(** The candidate becomes active. *)
Lemma GInv_activated w v t c r : GInv w -> CInv w -> task w = Activating v -> MarkReady_finish t v (cs w) = (c, r) ->
  GInv (((((w <| cs := c |>) <| calls := calls w ++ [Activate (vHandle v) true] |>) <| task := Idle |>)
          <| clock := t |>) <| sent := match r with (Some y, None) => sent w ++ [y] | _ => sent w end |>).
Proof.
  intros Hi Hci Ht Hm. destruct (ci_activating _ Hci v Ht) as [Hp Hc].
  pose proof (MarkReady_finish_cases t v (cs w) Hc) as Hx. rewrite Hm in Hx.
  destruct Hx as [(e & He & ->)|(_ & _ & -> & ->)].
  - pose proof (ensureActive_kept t (cs w)) as [K1 K2 K3 _ _ _ _]. rewrite He in *. simpl in *.
    apply (GInv_same (w <| task := Idle |>)); simpl; [done..| |by apply GInv_idle]. set_solver.
  - destruct (gi_ready _ Hi v Ht) as [Hy1 Hy2]. destruct (gi_candidate _ Hi _ Hc) as (Hv & Hr & Hb & h & p' & Hh & Hpr & Hs).
    rewrite Hp in Hh. injection Hh as <-. split; simpl; try done.
    + by intros q [= <-].
    + by intros d p [|[]].
    + intros y Hy. apply elem_of_app in Hy as [Hy|Hy%list_elem_of_singleton].
      * destruct (gi_sent _ Hi y Hy) as [(q & Hq & Hle & _) (h & p & H1 & H2 & H3)]. split.
        -- eexists. simpl. split; [done|]. specialize (Hb q Hq). split; [lia|]. intros; lia.
        -- exists h, p. simpl. rewrite !elem_of_app. auto.
      * subst y. split.
        -- eexists. simpl. split; [done|]. rewrite Hy1, Hy2. split; [lia|done].
        -- exists (vHandle v), p'. destruct Hs as (Hs1 & Hs2 & Hs3). simpl. rewrite !elem_of_app, !list_elem_of_singleton.
           split_and!; [by left|by right|congruence|congruence|]. unfold validated in *. congruence.
Qed.

(** ** Runs of the connector *)
Lemma cstep_calls w w' : cstep w w' -> forall x, x ∈ calls w -> x ∈ calls w'.
Proof.
  intros Hs x Hx. destruct Hs as [w t Ht|w c Hq|w p Ht _|w d Ht|w d p Ht|w d p r code Ht Hf|w d p h Ht|w b e ro o Ht
    |w v b Ht|w v t Ht Hlt|w reason Ht|w b d|w l1 d l2 b Hd|w l1 d l2 n Hd]; repeat case_match; simpl;
    rewrite ?elem_of_app; auto.
Qed.

Lemma GInv_staging w d p h : GInv w -> task w = Staging d p h -> noWrap (calls w) ->
  GInv (let '(c, l, _) := match d with
                          | None => ApplySnapshot_finish (clock w) h p (cs w)
                          | Some d => ApplyDelta_finish (clock w) h d (cs w)
                          end in
        ((w <| cs := c |>) <| calls := calls w ++ l |>) <| task := Idle |>).
Proof.
  intros Hi Ht Hnw. unfold ApplySnapshot_finish, ApplyDelta_finish.
  assert (Hfail : forall c, kept (clock w) (cs w) c ->
    GInv (((w <| cs := c |>) <| calls := calls w ++ [Abort h] |>) <| task := Idle |>)).
  { intros c Hk. apply GInv_idle. apply (GInv_same (w <| cs := c |>)); simpl; [done..| |by apply GInv_kept]. set_solver. }
  pose proof (GInv_staged w d p h) as Hok.
  destruct d as [d|]; [pose proof (stage_cases (clock w) h (deltaSnapshot d (cs w)) (cs w)) as Hs
                      |pose proof (stage_cases (clock w) h (Server.bindSnapshot (ident (cs w)) p) (cs w)) as Hs].
  all: destruct (stage _ _ _ _) as [[c l] e]; destruct Hs as [(Hk & -> & [x ->])|(_ & _ & -> & -> & _ & ->)]; auto.
Qed.

(** The candidate is dropped. *)
Lemma GInv_drop w w' : active (cs w') = active (cs w) -> candidate (cs w') = None -> task w' = Idle -> sent w' = sent w ->
  (forall x, x ∈ calls w -> x ∈ calls w') -> GInv w -> GInv w'.
Proof.
  intros Ha Hc Ht Hs Hl [I1 I2 I3 I4 I5 I6]. unfold reported, below in *. split; unfold reported, below;
    rewrite ?Ha, ?Hc, ?Ht, ?Hs; try done.
  - by intros d p [|[]].
  - intros y Hy. destruct (I6 y Hy) as [? (h & p & ? & ? & ?)]. eauto 10.
Qed.

Lemma GInv_answer w d p r code : GInv w -> task w = Preparing d p ->
  GInv match prepareOutcome code r with
       | (l, Err _) =>
           (w <| calls := calls w ++ match pHandle r with Some h => [Prepared h p] | None => [] end ++ l |>)
             <| task := Idle |>
       | (_, Ok h) => (w <| calls := calls w ++ [Prepared h p] |>) <| task := Staging d p h |>
       end.
Proof.
  intros Hi Ht. destruct (prepareOutcome code r) as [l [h|e]].
  - destruct Hi as [I1 I2 I3 I4 I5 I6]. destruct (I3 d p) as (H1 & H2 & H3 & H4); [by left|].
    unfold reported, below in *. split; unfold reported, below; simpl; try done.
    + intros k Hk. destruct (I2 k Hk) as (? & ? & ? & h' & p' & ? & ? & ?). split_and!; [done..|].
      exists h', p'. rewrite elem_of_app. auto.
    + intros d' p' [[=]|[h' [= <- <- <-]]]. done.
    + intros d' p' h' [= <- <- <-]. set_solver.
    + intros y Hy. destruct (I6 y Hy) as [? (h' & p' & ? & ? & ?)]. split; [done|]. exists h', p'. rewrite !elem_of_app. auto.
  - apply GInv_idle. apply (GInv_same w); simpl; try done. set_solver.
Qed.

Lemma GInv_ready w b e ro o c v : GInv w -> MarkReady_start b (clock w) e ro o (cs w) = (c, Ok v) ->
  GInv ((w <| cs := c |>) <| task := Activating v |>).
Proof.
  intros [I1 I2 I3 I4 I5 I6] (-> & _ & _ & _ & Hy)%MarkReady_start_ok. split; simpl; try done.
  - by intros d p [|[]].
  - intros v' [= <-]. by rewrite Hy.
Qed.

Lemma cstep_config w w' : cstep w w' -> CInv w -> noWrap (calls w) -> GInv w -> GInv w'.
Proof.
  intros Hs Hci Hnw Hi. destruct Hs as [w t Ht|w c Hq|w p Ht Hr|w d Ht|w d p Ht|w d p r code Ht Hf|w d p h Ht|w b e ro o Ht
    |w v b Ht|w v t Ht Hlt|w reason Ht|w b d|w l1 d l2 b Hd|w l1 d l2 n Hd].
  - by apply (GInv_same w).
  - by apply GInv_kept; [apply quick_kept|].
  - pose proof (ApplySnapshot_start_kept (clock w) p (cs w)) as Hk.
    destruct (ApplySnapshot_start _ _ _) as [c [r|]] eqn:Hx; [by apply GInv_kept|].
    apply ApplySnapshot_start_continue in Hx as (-> & Hv & Hb). by apply (GInv_snapshot (w <| cs := cs w |>)); [apply GInv_kept|..].
  - pose proof (ApplyDelta_start_kept (clock w) d (cs w)) as Hk.
    destruct (ApplyDelta_start _ _ _) as [c [r|]] eqn:Hx; [by apply GInv_kept|].
    apply ApplyDelta_start_continue in Hx as (-> & Hv & a & Ha & Hg). by eapply (GInv_delta (w <| cs := cs w |>)); [apply GInv_kept|..].
  - by apply GInv_idle.
  - by apply GInv_answer.
  - by apply GInv_staging.
  - pose proof (MarkReady_start_kept b (clock w) e ro o (cs w)) as Hk.
    destruct (MarkReady_start _ _ _ _ _ _) as [c [v|r]] eqn:Hm; [|by apply GInv_kept].
    by eapply GInv_ready.
  - unfold MarkReady_failed, candidateIs. destruct (ci_activating _ Hci v Ht) as [_ ->]. unfold Server.sameConfig.
    rewrite Z.eqb_refl, bool_decide_true by done. apply (GInv_drop w); simpl; try done. set_solver.
  - destruct (MarkReady_finish _ _ _) as [c r] eqn:Hm. by eapply GInv_activated.
  - unfold Close. case_bool_decide; [by apply (GInv_same w); [..|set_solver|]|].
    apply (GInv_drop w); simpl; try done. set_solver.
  - pose proof (HandleDrain_start_kept b (clock w) d (cs w)) as Hk.
    destruct (HandleDrain_start _ _ _ _) as [c [r|]]; [by apply GInv_kept|].
    by apply (GInv_same (w <| cs := c |>)), GInv_kept.
  - apply (GInv_same (w <| cs := (HandleDrain_failed b d (cs w)).1 |>)); try done. apply GInv_kept; [|done]. apply HandleDrain_failed_kept.
  - apply (GInv_same (w <| cs := (HandleDrain_finish n d (cs w)).1 |>)); try done. apply GInv_kept; [|done]. apply HandleDrain_finish_kept.
Qed.

Lemma crun_config w w' : rtc cstep w w' -> CInv w -> noWrap (calls w') -> GInv w -> GInv w'.
Proof.
  induction 1 as [|w1 w2 w3 H1 H2 IH]; [done|]. intros Hci Hnw Hi.
  assert (Hmono : forall x, x ∈ calls w2 -> x ∈ calls w3).
  { clear -H2. induction H2 as [|a b c Hab _ IH]; [done|]. intros x Hx. apply IH. by eapply cstep_calls. }
  apply IH; [by eapply cstep_inv|done|]. apply (cstep_config w1); [done..| |done]. intros h p Hp.
  eapply Hnw, Hmono. by eapply cstep_calls.
Qed.

(** ** The server *)
Context (config : Server.Config).

(** What the server holds is what it validated. *)
Record SInv (s : Server.Session) : Prop := {
  si_pending : forall p, Server.pendingSnapshot s = Some p -> validated p;
  si_delta : forall d, Server.pendingDelta s = Some d -> dContentHash d = contentHash (dPayload d);
  si_candidate : forall p, Server.candidate s = Some p -> validated p;
  si_active : forall p, Server.active s = Some p -> validated p }.
(** A call that leaves the active configuration. *)
Definition leaves (s s' : Server.Session) : Prop :=
  Server.active s' = Server.active s /\ (SInv s -> SInv s').

Lemma leaves_refl s : leaves s s.
Proof. done. Qed.
Lemma leaves_fields s s' : Server.active s' = Server.active s -> Server.candidate s' = Server.candidate s ->
  (Server.pendingSnapshot s' = Server.pendingSnapshot s \/ Server.pendingSnapshot s' = None) ->
  (Server.pendingDelta s' = Server.pendingDelta s \/ Server.pendingDelta s' = None) -> leaves s s'.
Proof. intros Ha Hc Hp Hd. split; [done|]. intros [J1 J2 J3 J4]. split; rewrite ?Ha, ?Hc; try done.
  - intros p. destruct Hp as [->| ->]; [apply J1|done].
  - intros d. destruct Hd as [->| ->]; [apply J2|done].
Qed.
Ltac fields := apply leaves_fields; simpl; auto.

Lemma restoreState_fields s s' : leaves s s' -> leaves s (Server.restoreState s').
Proof. intros [H1 H2]. split; [done|]. intros Hx. by destruct (H2 Hx); split. Qed.

Lemma handleAck_leaves a s : leaves s (Server.handleAck a s).1.
Proof.
  unfold Server.handleAck. case_match; [apply leaves_refl|].
  destruct (Server.pendingSnapshot s) as [p|] eqn:Hp; [|destruct (Server.pendingDelta s) as [d|] eqn:Hd; [|apply leaves_refl]].
  - unfold Server.ackSnapshot. case_match; [apply leaves_refl|].
    assert (Hc : leaves s (((s <| Server.pendingSnapshot := None |>) <| Server.candidate := Some p |>)
                             <| Server.needsSnapshot := false |>)).
    { split; [done|]. intros [J1 J2 J3 J4]. split; simpl; try done. intros p' [= <-]. by apply J1. }
    repeat case_match; simpl; try (apply restoreState_fields; by fields); try done.
    all: by destruct Hc as [J1 J2]; split; [|intros Hx; destruct (J2 Hx); split].
  - unfold Server.ackDelta. case_match; [apply leaves_refl|].
    repeat case_match; simpl; try (apply restoreState_fields; by fields); try by fields.
    all: split; [done|]; intros [J1 J2 J3 J4]; split; simpl; try done; intros p' [= <-]; unfold validated; simpl; auto.
Qed.
Lemma offerSnapshot_leaves p s : validated p -> leaves s (Server.offerSnapshot p s).1.
Proof.
  intros Hv. unfold Server.offerSnapshot. repeat (case_match; try apply leaves_refl); simpl; split; try done;
    intros [J1 J2 J3 J4]; split; simpl; try done; by intros p' [= <-].
Qed.
Lemma offerDelta_leaves d s : dContentHash d = contentHash (dPayload d) -> leaves s (Server.offerDelta d s).1.
Proof.
  intros Hv. unfold Server.offerDelta. repeat (case_match; try apply leaves_refl). split; [done|].
  intros [J1 J2 J3 J4]. split; simpl; try done. by intros d' [= <-].
Qed.
Lemma handleHeartbeat_leaves now h s : leaves s (Server.handleHeartbeat config now h s).1.
Proof. unfold Server.handleHeartbeat. repeat (case_match; try apply leaves_refl); simpl; by fields. Qed.
Lemma beginDrain_leaves now id dl f s : leaves s (Server.beginDrain now id dl f s).1.
Proof. unfold Server.beginDrain. repeat (case_match; try apply leaves_refl); simpl; by fields. Qed.
Lemma handleDrainAck_leaves a s : leaves s (Server.handleDrainAck a s).1.
Proof.
  unfold Server.handleDrainAck. repeat (case_match; try apply leaves_refl); simpl; try (by fields).
  all: apply restoreState_fields; by fields.
Qed.
Lemma renewStart_leaves q s : leaves s (Server.renewStart q s).1.
Proof. unfold Server.renewStart. case_match; apply leaves_refl. Qed.
Lemma renewFinish_leaves now a f r s : leaves s (Server.renewFinish config now a f r s).1.
Proof. unfold Server.renewFinish. repeat (case_match; try apply leaves_refl); simpl; by fields. Qed.

Lemma close_leaves reason w : leaves w.2 (Server.close reason w).2.
Proof. unfold Server.close. case_match; [apply leaves_refl|]. by fields. Qed.
Lemma ensureActive_leaves now w : leaves w.2 (Server.ensureActive now w).1.2.
Proof. unfold Server.ensureActive. repeat case_match; simpl; apply leaves_refl || apply close_leaves. Qed.
Lemma whenActive_leaves {A} now (body : Server.Session -> Server.Session * result Error A) w :
  (forall s, leaves s (body s).1) -> leaves w.2 (Server.whenActive now body w).1.2.
Proof.
  intros Hb. unfold Server.whenActive. destruct (ensureActive_inside now w) as [_ Hok].
  pose proof (ensureActive_leaves now w) as Hl. destruct (Server.ensureActive now w) as [w1 [e|]]; [done|].
  destruct (Hok eq_refl) as (Hw & _). simpl in Hw. subst w1. specialize (Hb w.2). by destruct (body w.2).
Qed.
Hint Resolve handleAck_leaves handleHeartbeat_leaves beginDrain_leaves handleDrainAck_leaves renewStart_leaves
  renewFinish_leaves leaves_refl : connector.

Lemma served_leaves w w' ok : served config w w' ok -> leaves w.2 w'.2.
Proof.
  intros [now a v|now p v|now d v|now h v|b now now' id dl f v|b now a v|now q v|now now' a f r v|now v].
  - unfold Server.HandleAck. case_match; [done|]. apply whenActive_leaves. auto with connector.
  - unfold Server.OfferSnapshot. case_bool_decide as Hv; [done|]. apply whenActive_leaves. intros s.
    apply offerSnapshot_leaves. by apply snapshot_ok in Hv as [? _].
  - unfold Server.OfferDelta. case_bool_decide as Hv; [done|]. apply whenActive_leaves. intros s.
    apply offerDelta_leaves. by apply delta_ok in Hv as [? _].
  - unfold Server.HandleHeartbeat. case_match; [done|]. apply whenActive_leaves. auto with connector.
  - unfold Server.BeginDrain. case_match; [done|]. apply whenActive_leaves. auto with connector.
  - unfold Server.HandleDrainAck. repeat (case_match; [done|]). apply whenActive_leaves. auto with connector.
  - unfold Server.Renew_start. case_match; [done|]. apply whenActive_leaves. auto with connector.
  - unfold Server.Renew_finish. repeat (case_match; try done). apply whenActive_leaves. auto with connector.
  - apply ensureActive_leaves.
Qed.

(** Readiness promotes the candidate that it names, or nothing. *)
Lemma handleReadiness_cases y s : let s' := (Server.handleReadiness y s).1 in
  (SInv s -> SInv s') /\ (Server.active s' = Server.active s
    \/ yIdent y = Server.ident s /\ exists a, Server.active s' = Some a /\ yGeneration y = Generation a /\ yContentHash y = ContentHash a).
Proof.
  unfold Server.handleReadiness, Server.matchesIdentity. case_bool_decide as Hid; simpl; [|by split; [|left]].
  destruct (Server.candidate s) as [k|] eqn:Hk.
  - unfold Server.sameConfig. case_match eqn:Hm; [by split; [|left]|]. case_match; [by split; [|left]|]. simpl. split.
    + intros [J1 J2 J3 J4]. split; simpl; try done. intros p [= <-]. by apply J3.
    + right. split; [done|]. exists k. apply negb_false_iff, andb_true_iff in Hm as [H1 H2%bool_decide_eq_true].
      split; [done|]. split; [lia|done].
  - destruct (Server.active s) as [k|] eqn:Ha; [|by split; [|left]].
    case_match; [by split; [|left]|]. case_match; [by split; [|left]|]. simpl. split; [|by left].
    intros [J1 J2 J3 J4]. split; simpl; try done. by rewrite <- Ha.
Qed.
Lemma HandleReadiness_cases now y w : let w' := (Server.HandleReadiness now y w).1 in
  (SInv w.2 -> SInv w'.2) /\ (Server.active w'.2 = Server.active w.2
    \/ yIdent y = Server.ident w.2 /\ exists a, Server.active w'.2 = Some a /\ yGeneration y = Generation a /\ yContentHash y = ContentHash a).
Proof.
  unfold Server.HandleReadiness. case_match; [by split; [|left]|]. unfold Server.whenActive.
  destruct (ensureActive_inside now w) as [_ Hok]. pose proof (ensureActive_leaves now w) as [Hl1 Hl2].
  destruct (Server.ensureActive now w) as [w1 [e|]]; [by split; [|left]|].
  destruct (Hok eq_refl) as (Hw & _). simpl in Hw. subst w1. pose proof (handleReadiness_cases y w.2) as Hx.
  by destruct (Server.handleReadiness y w.2).
Qed.

(** ** Both *)
Record System := mkSystem { sw : Server.World; cw : CWorld }.

(** The server may be sent anything, but readiness in the name of the session comes from its
    connector, which reports it when [MarkReadyContext] returned no error.  Other sessions
    change the registry. *)
Inductive ystep : System -> System -> Prop :=
| y_client s w w' : cstep w w' -> ystep (mkSystem s w) (mkSystem s w')
| y_served s s' ok w : served config s s' ok -> ystep (mkSystem s w) (mkSystem s' w)
| y_close reason s w : ystep (mkSystem s w) (mkSystem (Server.Close reason s) w)
| y_registry r s w : ystep (mkSystem s w) (mkSystem (r, s.2) w)
| y_ready now y s w : y ∈ sent w \/ yIdent y <> Server.ident s.2 ->
    ystep (mkSystem s w) (mkSystem (Server.HandleReadiness now y s).1 w).

(** A session that was accepted, and a new connector. *)
Definition fresh (y : System) : Prop :=
  (exists now a p sid h r wl q, Server.Accept config now a p sid h r = ((sw y).1, Ok ((sw y).2, wl, q)))
  /\ newClient (cw y).

Record YInv (y : System) : Prop := {
  yi_server : SInv (sw y).2; yi_client : CInv (cw y);
  yi_active : forall a, Server.active (sw y).2 = Some a ->
    exists r, r ∈ sent (cw y) /\ yGeneration r = Generation a /\ yContentHash r = ContentHash a }.

Lemma fresh_inv y : fresh y -> YInv y.
Proof.
  intros [(now & a & p & sid & h & r & wl & q & Ha) Hn].
  apply Accept_inv in Ha as (v & caps & a0 & p0 & sid0 & o & _ & _ & _ & _ & _ & _ & Hv & _ & _ & _ & _ & _ & _ & -> & Hs).
  split; simpl; [|by apply newClient_inv|by rewrite Hs].
  rewrite Hs. split; simpl; try done. intros p' [= <-]. by apply snapshot_ok in Hv as [Hv _].
Qed.

Lemma cstep_sent w w' y : cstep w w' -> y ∈ sent w -> y ∈ sent w'.
Proof.
  intros Hs Hy. destruct Hs as [w t Ht|w c Hq|w p Ht _|w d Ht|w d p Ht|w d p r code Ht Hf|w d p h Ht|w b e ro o Ht
    |w v b Ht|w v t Ht Hlt|w reason Ht|w b d|w l1 d l2 b Hd|w l1 d l2 n Hd]; repeat case_match; simpl;
    rewrite ?elem_of_app; auto.
Qed.

Lemma ystep_inv y y' : ystep y y' -> YInv y -> YInv y'.
Proof.
  intros Hs [H1 H2 H3]. destruct Hs as [s w w' Hc|s s' ok w Hc|reason s w|r s w|now r s w Hr]; simpl in *.
  - split; simpl; [done|by eapply cstep_inv|]. intros a Ha. destruct (H3 a Ha) as (r & Hr & Hx). exists r.
    split; [by eapply cstep_sent|done].
  - apply served_leaves in Hc as [Ha Hv]. split; simpl; [auto|done|]. by rewrite Ha.
  - pose proof (close_leaves reason s) as [Ha Hv]. unfold Server.Close. split; simpl; [auto|done|]. by rewrite Ha.
  - by split.
  - destruct (HandleReadiness_cases now r s) as [Hv Ha]. split; simpl; [auto|done|]. intros a Hx.
    destruct Ha as [Ha|(Hid & a' & Ha & Hg & Hh)]; [apply H3; congruence|].
    rewrite Hx in Ha. injection Ha as <-. exists r. destruct Hr; [done|congruence].
Qed.

Lemma yrun_inv y y' : rtc ystep y y' -> YInv y -> YInv y'.
Proof. induction 1 as [|a b c Hab _ IH]; [done|]. intros Hi. apply IH. by eapply ystep_inv. Qed.
Lemma yrun_client y y' : rtc ystep y y' -> rtc cstep (cw y) (cw y').
Proof.
  induction 1 as [|a b c Hab _ IH]; [done|]. destruct Hab; simpl in *; [by eapply rtc_l|done..].
Qed.
End agree.
