(* ===== verification/ConnectorRollout.v ===== *)
(** * The connector protocol: the rollout of a configuration

    The handshake and the exchange by which a configuration becomes active on both sides, when
    every message arrives and the applier does what it is asked. *)
From S2P Require Import Prelude.
From S2P Require Import TransferCodec.
From S2P Require Import UpdateGate.
From S2P Require Import Connector.
From S2P Require Import ConnectorServer.
From S2P Require Import ConnectorClient.
From S2P Require Import ConnectorLife.
From S2P Require Import ConnectorFence.
From S2P Require Import ConnectorAgree.
Import Client.
#[local] Existing Instance Server.Session_eta.
Set Warnings "-clear-no-such-hyp".

Section rollout.
Context `{ConfigPayload}.

(** ** The exchange *)

(** The snapshot is staged as [h] and acknowledged, then activated and reported. *)
Definition rollout (now : Z) (h : nat) (b : Snapshot) (w : Server.World) (c : Session)
    : option (Server.World * Session * Ack) :=
  match ApplySnapshot_start now b c with (c, Continue) =>
  match ApplySnapshot_finish now h b c with (c, [], (Some ack, None)) =>
  match Server.HandleAck now ack w with (w, Ok _) =>
  match MarkReady_start false now true true true c with (c, Ok v) =>
  match MarkReady_finish now v c with (c, (Some y, None)) =>
  match Server.HandleReadiness now y w with (w, Ok a) => Some (w, c, a)
  | _ => None end | _ => None end | _ => None end | _ => None end | _ => None end | _ => None end.

(** Both sides are alive, the server offers [b], which is valid and bound to the session, and
    the connector has nothing staged and nothing newer. *)
Record offered (now : Z) (b : Snapshot) (w : Server.World) (c : Session) : Prop := {
  of_server : (Server.ensureActive now w).2 = None;
  of_client : (ensureActive now c).2 = None;
  of_ident : Server.ident w.2 = ident c;
  of_bound : sIdent b = ident c;
  of_identOk : validIdent (ident c) = true;
  of_valid : snapshot_Validate b = None;
  of_pending : Server.pendingSnapshot w.2 = Some b;
  of_idle : candidate c = None /\ prepared c = None;
  of_newer : forall q, active c = Some q -> Generation q < Generation b }.

(** [b] is in force: active and ready on both sides, nothing is staged. *)
Record inForce (b : Snapshot) (w : Server.World) (c : Session) : Prop := {
  fo_server : Server.Current w.2 = Some (b, true, Generation b);
  fo_client : active c = Some b;
  fo_state : state c = SessionReady;
  fo_ident : Server.ident w.2 = ident c;
  fo_identOk : validIdent (ident c) = true;
  fo_offers : Server.pendingSnapshot w.2 = None;
  fo_served : Server.candidate w.2 = None;
  fo_idle : candidate c = None /\ prepared c = None }.

Lemma alive_client now c : (ensureActive now c).2 = None -> ensureActive now c = (c, None).
Proof.
  intros Hx. destruct (ensureActive now c) as [c' e] eqn:He. simpl in Hx. subst e. by apply ensureActive_ok in He as [-> _].
Qed.
Lemma alive_server now w : (Server.ensureActive now w).2 = None -> Server.ensureActive now w = (w, None).
Proof.
  intros Hx. destruct (ensureActive_inside now w) as [_ Hok]. specialize (Hok Hx) as [Hw _].
  destruct (Server.ensureActive now w) as [w' e]. simpl in *. congruence.
Qed.
(** Being alive does not depend on what is staged. *)
Lemma alive_client_same now c c' : state c <> SessionClosed -> state c <> SessionNew -> state c' <> SessionClosed ->
  state c' <> SessionNew -> lease c' = lease c -> lastHeartbeatAck c' = lastHeartbeatAck c ->
  (ensureActive now c).2 = None -> ensureActive now c' = (c', None).
Proof.
  intros H1 H2 H3 H4 Hl Hh. unfold ensureActive. rewrite !bool_decide_false by done. rewrite Hl, Hh.
  destruct (_ <=? _); [done|]. destruct (negb _ && _); done.
Qed.

Lemma alive_server_same now r s s' : Server.state s' <> SessionClosed -> Server.ref s' = Server.ref s ->
  Server.auth s' = Server.auth s -> Server.lease s' = Server.lease s -> Server.lastHeartbeat s' = Server.lastHeartbeat s ->
  (Server.ensureActive now (r, s)).2 = None -> (Server.ensureActive now (r, s')).2 = None.
Proof.
  intros H1 Hr Ha Hl Hh. unfold Server.ensureActive. simpl. rewrite (bool_decide_false (Server.state s' = _)) by done.
  rewrite Hr, Ha, Hl, Hh. case_bool_decide; [done|]. by repeat case_match.
Qed.
Lemma alive_body {A} now (body : Server.Session -> Server.Session * result Error A) r s s' a :
  (Server.ensureActive now (r, s)).2 = None -> body s = (s', a) -> Server.whenActive now body (r, s) = ((r, s'), a).
Proof. intros Hw Hb. unfold Server.whenActive. rewrite (alive_server _ _ Hw). simpl. by rewrite Hb. Qed.

Lemma snapshot_fields b : snapshot_Validate b = None -> (Generation b =? 0) = false /\ validHash (ContentHash b) = true.
Proof.
  unfold snapshot_Validate. destruct (_ || (MaxSnapshotBytes <? _)) eqn:Hf; [done|]. intros _.
  repeat (apply orb_false_iff in Hf as [Hf ?]). split; [done|]. by apply negb_false_iff.
Qed.

(** The connector stages the snapshot and acknowledges it. *)
Lemma staged now h b w c : offered now b w c -> exists c1,
  ApplySnapshot_start now b c = (c, Continue)
  /\ ApplySnapshot_finish now h b c = (c1, [], answer (mkAck (ident c) AckSnapshot AckApplied (Generation b) (ContentHash b) None))
  /\ ensureActive now c1 = (c1, None) /\ candidate c1 = Some b /\ prepared c1 = Some h /\ ident c1 = ident c.
Proof.
  intros Ho. exists (((((c <| candidate := Some b |>) <| prepared := Some h |>) <| readyGeneration := 0 |>)
              <| state := SessionAwaitingReady |>) <| needsSnapshot := false |>). pose proof (alive_client _ _ (of_client _ _ _ _ Ho)) as Ha. destruct (of_idle _ _ _ _ Ho) as [Hc Hp].
  pose proof Ha as (_ & _ & Hs1 & Hs2)%ensureActive_ok.
  assert (Hb : Server.bindSnapshot (ident c) b = b).
  { unfold Server.bindSnapshot. destruct b as [i g ch pl]. simpl. pose proof (of_bound _ _ _ _ Ho) as Hi. simpl in Hi.
    by rewrite Hi. }
  assert (Hbound : snapshot_ValidateBound b = None).
  { unfold snapshot_ValidateBound, boundIdent. rewrite (of_bound _ _ _ _ Ho). pose proof (of_identOk _ _ _ _ Ho) as Hi.
    unfold validIdent in Hi. repeat (apply andb_true_iff in Hi as [Hi ?]). rewrite Hi. repeat match goal with H : _ = true |- _ => rewrite H end.
    simpl. apply Ho. }
  split_and!.
  - unfold ApplySnapshot_start. rewrite bool_decide_false by (rewrite (of_valid _ _ _ _ Ho); naive_solver). rewrite Ha.
    rewrite bool_decide_true by apply Ho. rewrite bool_decide_false by (rewrite Hbound; naive_solver). simpl. rewrite Hc.
    destruct (active c) as [q|] eqn:Hq; [|done]. pose proof (of_newer _ _ _ _ Ho q Hq).
    replace (_ <? _) with false by lia. by replace (_ =? _) with false by lia.
  - unfold ApplySnapshot_finish, stage. rewrite Ha, Hb. rewrite bool_decide_false by (rewrite Hc; naive_solver). done.
  - eapply (alive_client_same now c); try done. apply Ho.
  - done.
  - done.
  - done.
Qed.

(** The server takes it for its candidate. *)
Lemma acknowledged now b r s c : offered now b (r, s) c ->
  exists s1, Server.HandleAck now (mkAck (ident c) AckSnapshot AckApplied (Generation b) (ContentHash b) None) (r, s) = ((r, s1), Ok tt)
  /\ Server.candidate s1 = Some b /\ Server.ident s1 = ident c /\ Server.pendingSnapshot s1 = None
  /\ (Server.ensureActive now (r, s1)).2 = None.
Proof.
  intros Ho. destruct (snapshot_fields b (of_valid _ _ _ _ Ho)) as [Hg Hh]. pose proof (of_server _ _ _ _ Ho) as Ha.
  unfold Server.HandleAck, ack_valid. simpl. rewrite (of_identOk _ _ _ _ Ho), Hg, Hh. simpl.
  assert (Hst : Server.state s <> SessionClosed) by (destruct (ensureActive_inside now (r, s)) as [_ Hok]; by apply Hok).
  eexists. split.
  - apply alive_body; [done|]. unfold Server.handleAck, Server.matchesIdentity.
    rewrite (of_ident _ _ _ _ Ho : Server.ident s = ident c), bool_decide_true by done. simpl.
    rewrite (of_pending _ _ _ _ Ho : Server.pendingSnapshot s = Some b). unfold Server.ackSnapshot, Server.sameConfig. simpl.
    rewrite Z.eqb_refl, bool_decide_true by done. simpl. reflexivity.
  - destruct (Server.activeReady _); simpl; split_and!; try done; try apply Ho; by apply (alive_server_same now r s).
Qed.

(** The connector activates it, and the server hears of it. *)
Lemma promoted now b r s c : (Server.ensureActive now (r, s)).2 = None -> Server.candidate s = Some b ->
  Server.ident s = ident c -> Server.pendingSnapshot s = None -> validIdent (ident c) = true -> snapshot_Validate b = None ->
  exists s2, Server.HandleReadiness now (readinessOf b true true true c) (r, s)
    = ((r, s2), Ok (mkAck (ident c) AckReady AckApplied (Generation b) (ContentHash b) None))
  /\ Server.Current s2 = Some (b, true, Generation b) /\ Server.ident s2 = ident c
  /\ Server.pendingSnapshot s2 = None /\ Server.candidate s2 = None.
Proof.
  intros Ha Hc Hi Hp Hid Hv. destruct (snapshot_fields b Hv) as [Hg Hh].
  unfold Server.HandleReadiness, readiness_valid. simpl. rewrite Hid, Hg, Hh. simpl. eexists. split.
  - apply alive_body; [done|]. unfold Server.handleReadiness, Server.matchesIdentity. simpl.
    rewrite Hi, bool_decide_true by done. simpl. rewrite Hc. unfold Server.sameConfig. simpl.
    rewrite Z.eqb_refl, bool_decide_true by done. simpl. unfold Server.makeAck, Server.ident. simpl.
    fold (Server.ident s). rewrite Hi. reflexivity.
  - unfold Server.Current. simpl. split_and!; try done. by rewrite Z.eqb_refl.
Qed.

Lemma rollout_ok now h b w c : offered now b w c -> exists w' c',
  rollout now h b w c = Some (w', c', mkAck (ident c) AckReady AckApplied (Generation b) (ContentHash b) None)
  /\ inForce b w' c' /\ ident c' = ident c /\ w'.1 = w.1.
Proof.
  destruct w as [r s]. intros Ho. destruct (staged now h _ _ _ Ho) as (c1 & H1 & H2 & H3 & Hcc & Hcp & Hci).
  destruct (acknowledged now b r s c Ho) as (s1 & H4 & Hc1 & Hi1 & Hp1 & Ha1). rewrite <- Hci in *.
  destruct (promoted now b r s1 c1 Ha1 Hc1 Hi1 Hp1) as (s2 & H5 & Hcur & Hi2 & Hp2 & Hc2);
    [rewrite Hci; apply Ho|apply Ho|].
  unfold rollout. rewrite H1, H2. unfold answer. rewrite H4. unfold MarkReady_start. rewrite H3, Hcc, Hcp. cbn [negb andb].
  unfold MarkReady_finish. rewrite H3, Hcc. unfold candidateIs, Server.sameConfig. rewrite Hcc. cbn [vCandidate vReadiness].
  rewrite Z.eqb_refl, bool_decide_true by done. cbn [negb andb]. unfold answer. rewrite H5.
  eexists _, _. split; [reflexivity|]. split; [|done]. split; simpl; try done. change (validIdent (ident c1) = true).
  rewrite Hci. apply Ho.
Qed.

(** ** Offers *)
Lemma bound_valid i p : snapshot_Validate p = None -> validIdent i = true -> TunnelID (sIdent p) = TunnelID i ->
  snapshot_Validate (Server.bindSnapshot i p) = None /\ sIdent (Server.bindSnapshot i p) = i.
Proof.
  intros Hv Hi Ht. unfold validIdent in Hi. repeat (apply andb_true_iff in Hi as [Hi ?]). split.
  - unfold snapshot_Validate in *. simpl. destruct (_ || (MaxSnapshotBytes <? _)) eqn:Hf; [done|].
    repeat (apply orb_false_iff in Hf as [Hf ?]). unfold optionalIdent in *. simpl.
    repeat match goal with H : ?x = false |- context [?x] => rewrite H end.
    apply negb_false_iff in Hf. repeat (apply andb_true_iff in Hf as [Hf ?]). rewrite Hf, Hi.
    repeat match goal with H : identifier (_ i) = true |- _ => rewrite H end. rewrite !orb_true_r. done.
  - unfold Server.bindSnapshot. simpl. rewrite Ht. by destruct i.
Qed.

Lemma offer_ok now p b w c : inForce b w c -> (Server.ensureActive now w).2 = None -> (ensureActive now c).2 = None ->
  snapshot_Validate p = None -> TunnelID (sIdent p) = TunnelID (ident c) -> Server.partsMatch (sIdent p) (ident c) = true ->
  Generation b < Generation p ->
  exists w', Server.OfferSnapshot now p w = (w', Ok tt) /\ w'.1 = w.1 /\ offered now (Server.bindSnapshot (ident c) p) w' c.
Proof.
  destruct w as [r s]. intros Hf Hs Hc Hv Ht Hm Hg. destruct Hf as [F1 F2 F3 F4 F5 F6 F7 F8]. simpl in *.
  destruct (bound_valid (ident c) p Hv F5 Ht) as [Hbv Hbi].
  assert (Ha : Server.active s = Some b) by (unfold Server.Current in F1; destruct (Server.active s); simpl in F1; congruence).
  assert (Hst : Server.state s <> SessionClosed) by (destruct (ensureActive_inside now (r, s)) as [_ Hok]; by apply Hok).
  eexists. split_and!.
  - unfold Server.OfferSnapshot. rewrite bool_decide_false by (rewrite Hv; naive_solver). apply alive_body; [done|].
    unfold Server.offerSnapshot. rewrite bool_decide_true by (rewrite Ht; exact (f_equal TunnelID (eq_sym F4))).
    rewrite F4, Hm, Ha, F7, F6. simpl.
    replace (Generation p <? Generation b) with false by lia. replace (Generation p =? Generation b) with false by lia. reflexivity.
  - done.
  - rewrite Ha. split; simpl; try done; [|by intros q; rewrite F2; intros [= <-]].
    by apply (alive_server_same now r s).
Qed.

(** ** The handshake *)
Lemma filter_on {A} (P Q : A -> Prop) `{!forall x, Decision (P x)} `{!forall x, Decision (Q x)} (l : list A) :
  (forall x, x ∈ l -> P x <-> Q x) -> filter P l = filter Q l.
Proof.
  induction l as [|a l IH]; [done|]. intros Hx. rewrite !filter_cons, IH by set_solver.
  specialize (Hx a ltac:(set_solver)). destruct (decide (P a)), (decide (Q a)); tauto.
Qed.
Lemma negotiated_again offered supported selected : NegotiateCapabilities offered supported = Ok selected ->
  ValidateCapabilities selected = None /\ NegotiateCapabilities offered selected = Ok selected.
Proof.
  unfold NegotiateCapabilities. destruct (ValidateCapabilities offered) as [|] eqn:Ho; [done|].
  destruct (ValidateCapabilities supported); [done|]. destruct (ValidateCapabilities (filter _ _)) as [|] eqn:Hs; [done|].
  intros [= <-]. split; [done|]. rewrite Hs.
  assert (Hf : filter (fun v => v ∈ filter (fun v => v ∈ supported) offered) offered = filter (fun v => v ∈ supported) offered).
  { apply filter_on. intros x. rewrite list_elem_of_filter. tauto. }
  by rewrite Hf, Hs.
Qed.

Lemma version_is a b v : NegotiateVersion a b = Ok v -> v = ProtocolVersion.
Proof. unfold NegotiateVersion. repeat case_match; congruence. Qed.

(** What validation says of times, when there is a clock. *)
Lemma lease_alive now l : isZero now = false -> lease_valid now l = true -> now < ExpiresAt l.
Proof. unfold lease_valid. intros ->. rewrite !andb_true_iff. simpl. rewrite !andb_true_iff. lia. Qed.
Lemma auth_alive now h a : isZero now = false -> Server.authMatches now h a = true ->
  now < CredentialExpiresAt a /\ rAccountID a = hAccountID h /\ identifier (hAccountID h) = true.
Proof.
  unfold Server.authMatches, authResult_valid. intros ->. intros Hm. repeat (apply andb_true_iff in Hm as [Hm ?]).
  repeat match goal with Hx : bool_decide _ = true |- _ => apply bool_decide_eq_true in Hx end.
  split_and!; [|done|congruence]. simpl in *. repeat match goal with Hx : _ && _ = true |- _ => apply andb_true_iff in Hx as [? ?] end. lia.
Qed.

(** A session is alive when it was accepted and welcomed. *)
Lemma welcomed now c : isZero now = false -> now < ExpiresAt (lease c) -> 0 <= HeartbeatIntervalMS (lease c) ->
  lastHeartbeatAck c = now -> state c = SessionAwaitingSnapshot -> ensureActive now c = (c, None).
Proof.
  intros Hz Hl Hi Hh Hs. unfold ensureActive. rewrite Hs, Hh, Hz. rewrite !bool_decide_false by done.
  replace (_ <=? _) with false by lia. unfold Millisecond. by replace (_ <? _) with false by lia.
Qed.
Lemma attached now f r r' o s : isZero now = false -> Attach f r = (r', Ok o) -> Server.ref s = f ->
  now < CredentialExpiresAt (Server.auth s) -> now < ExpiresAt (Server.lease s) -> 0 <= HeartbeatIntervalMS (Server.lease s) ->
  Server.lastHeartbeat s = now -> Server.state s <> SessionClosed -> (Server.ensureActive now (r', s)).2 = None.
Proof.
  intros Hz (-> & Hv & _)%attached_ref Hf Ha Hl Hi Hh Hs. unfold Server.ensureActive, registry_Active. simpl. rewrite Hf, Hh, Hz.
  rewrite bool_decide_false by done. unfold ref_valid in Hv. repeat (apply andb_true_iff in Hv as [Hv ?]).
  match goal with Hx : identifier (fConnectorID f) = true |- _ => rewrite Hx end. rewrite lookup_insert_eq, bool_decide_true by done.
  simpl. unfold Millisecond. replace (_ <=? _) with false by lia. replace (_ <=? _) with false by lia.
  by replace (_ <? _) with false by lia.
Qed.

Lemma New_interval caps l i config : Server.New caps l i = Some config -> 0 <= Server.HeartbeatInterval config / Millisecond.
Proof.
  unfold Server.New. destruct (_ || _) eqn:Hb; [done|]. intros [= <-]. simpl.
  repeat (apply orb_false_iff in Hb as [Hb ?]). apply Z.div_pos; [lia|done].
Qed.

(** A process that was accepted, and its session: the first configuration is on offer. *)
Lemma handshake caps l i config now a p sid hello r r' s wl b t1 t2 c0 :
  Server.New caps l i = Some config -> isZero now = false ->
  Server.Accept config now a p sid hello r = (r', Ok (s, wl, b)) -> New now t1 t2 hello = Ok c0 ->
  exists c, AcceptWelcome now now wl c0 = (c, None) /\ offered now b (r', s) c.
Proof.
  intros Hint%New_interval Hnow Ha Hc0.
  apply Accept_inv in Ha as (v & cps & a0 & p0 & sid0 & o & Hh & Hver & Hcap & -> & Hm & -> & Hv & Ht & -> & Hid & Hl & Hat & -> & -> & ->).
  apply negotiated_again in Hcap as [Hval Hcap]. unfold New in Hc0.
  destruct (_ || _); [done|]. rewrite Hh in Hc0. injection Hc0 as <-.
  pose proof (version_is _ _ _ Hver) as ->. destruct (auth_alive _ _ _ Hnow Hm) as (Hca & Hacc & Hacc').
  pose proof (lease_alive _ _ Hnow Hl) as Hle. set (l0 := mkLease sid0 _ _) in *.
  set (idn := mkIdent (hAccountID hello) (hTunnelID hello) (hConnectorID hello) sid0 (hProcessGeneration hello)).
  assert (Hidn : validIdent idn = true).
  { pose proof Hat as (_ & Hf & _)%attached_ref. unfold ref_valid in Hf. simpl in Hf. unfold validIdent. simpl.
    repeat (apply andb_true_iff in Hf as [Hf ?]). by rewrite Hacc', Hf, !andb_true_iff. }
  destruct (bound_valid idn p0 Hv Hidn Ht) as [Hbv Hbi].
  eexists. split.
  - unfold AcceptWelcome, welcome_valid. simpl. rewrite Hid, Hl, Hval, Hnow, !bool_decide_true by done. simpl.
    rewrite Hver, Hcap. reflexivity.
  - split; simpl; try done; [by eapply attached|by rewrite welcomed|]. unfold Server.ident. simpl. by rewrite Hacc.
Qed.
End rollout.
