(* ===== verification/ConnectorProps.v ===== *)
(** * The connector protocol: properties

    What the sessions of a connector and its server promise together, and runs that show where
    they do not do what they mean to. *)
From S2P Require Import Prelude.
From S2P Require Import TransferCodec.
From S2P Require Import UpdateGate.
From S2P Require Import Connector.
From S2P Require Import ConnectorServer.
From S2P Require Import ConnectorClient.
From S2P Require Import ConnectorLife.
From S2P Require Import ConnectorFence.
From S2P Require Import ConnectorAgree.
From S2P Require Import ConnectorRollout.
Set Warnings "-clear-no-such-hyp".

(** A step of a run whose end is computed. *)
Lemma rtc_to {A} (R : A -> A -> Prop) x y z t : R x y -> y = z -> rtc R z t -> rtc R x t.
Proof. intros H1 -> H2. by eapply rtc_l. Qed.
Ltac run step := eapply rtc_to; [eapply step; try (vm_compute; reflexivity); try done|vm_compute; reflexivity|].

Section properties.
Context `{ConfigPayload} (config : Server.Config).

(** C26: Whatever a server sends, whatever the applier and the drainer answer and however the
    calls overlap, a connector asks its applier for nothing out of order: a configuration is
    activated at most once and never after it was aborted, and aborted at most once.  A prepared
    configuration is never lost: it was aborted, or activated with success, or the session still
    holds it, or the call that prepared it is about to stage it.  One whose activation failed
    was aborted; and a session that was closed before its lease and heartbeats ran out holds
    none. *)
Theorem prepared_accounted w w' : newClient w -> rtc cstep w w' ->
  lawful (calls w')
  /\ (forall h, h ∈ handles (calls w') -> Abort h ∈ calls w' \/ Activate h true ∈ calls w'
        \/ Client.prepared (cs w') = Some h \/ exists d p, task w' = Staging d p h)
  /\ (forall h, Activate h false ∈ calls w' -> Abort h ∈ calls w')
  /\ (Client.state (cs w') = SessionClosed -> ~ expired (clock w') (cs w') -> Client.prepared (cs w') = None).
Proof.
  intros Hn%newClient_inv Hr. pose proof (crun_inv _ _ Hr Hn) as Hi. split_and!; [apply Hi..|].
  intros Hc He. apply (ci_pair _ Hi). destruct (Client.candidate (cs w')) eqn:Hk; [|done].
  destruct He. by apply (ci_end _ Hi); [rewrite Hk|].
Qed.

(** C24: The server takes a configuration for active only when the connector has activated it.
    In any run of an accepted session and a new connector, with lost, repeated and delayed
    messages, in which no generation wrapped around to zero: the connector prepared and
    activated a configuration of that generation and contents, and what it serves now is that
    or a later one, never a different one of the same generation. *)
Theorem config_agreement y y' a : fresh config y -> rtc (ystep config) y y' -> noWrap (calls (cw y')) ->
  Server.active (sw y').2 = Some a ->
  (exists h p, Prepared h p ∈ calls (cw y') /\ Activate h true ∈ calls (cw y')
     /\ Generation p = Generation a /\ contentHash (Payload p) = contentHash (Payload a))
  /\ exists q, Client.active (cs (cw y')) = Some q /\ Generation a <= Generation q
       /\ (Generation a = Generation q -> contentHash (Payload a) = contentHash (Payload q)).
Proof.
  intros Hf Hr Hw Ha. pose proof (yrun_inv _ _ _ Hr (fresh_inv _ _ Hf)) as [Hs _ Hy].
  destruct Hf as [_ Hn]. pose proof (yrun_client _ _ _ Hr) as Hc.
  pose proof (crun_config _ _ Hc (newClient_inv _ Hn) Hw (newClient_config _ Hn)) as Hg.
  destruct (Hy a Ha) as (r & Hsent & Hgen & Hh). apply (si_active _ Hs) in Ha. unfold validated in Ha.
  destruct (gi_sent _ Hg r Hsent) as [(q & Hq & Hle & Heq) (h & p & H1 & H2 & H3 & H4 & Hv)]. unfold validated in Hv.
  rewrite Hgen, Hh in *. split; [exists h, p; split_and!; congruence|]. exists q. split_and!; [done..|].
  intros Hx. apply (gi_active _ Hg) in Hq as [Hq _]. unfold validated in Hq. rewrite <- Ha, <- Hq. auto.
Qed.

(** C25: A connector has one session.  In any run of a server, whatever calls are made of its
    sessions and in any order, at most one session of a connector is current, where the source
    of session identifiers repeats none.  One that is not
    current, because a later process took over or because it was closed, never becomes current
    again: its calls fail and leave the registry alone.  The entry of a connector gives way
    only to a later process of the same tunnel. *)
Theorem connector_fenced w w' : rtc (fstep config) noSessions w -> rtc (fstep config) w w' ->
  (forall i j s t, sessions w !! i = Some s -> sessions w !! j = Some t ->
     current w s -> current w t -> fConnectorID (Server.ref s) = fConnectorID (Server.ref t) -> i = j)
  /\ (forall i s, sessions w !! i = Some s -> Server.state s = SessionClosed -> ~ current w s)
  /\ (forall i s, sessions w !! i = Some s -> ~ current w s -> exists s',
        sessions w' !! i = Some s' /\ Server.ref s' = Server.ref s /\ ~ current w' s'
        /\ (forall w2 ok, served config (registry w', s') w2 ok -> ok = false /\ w2.1 = registry w')
        /\ (forall now y, is_ok (Server.HandleReadiness now y (registry w', s')).2 = false))
  /\ (forall w2 c f f', fstep config w w2 -> registry w !! c = Some f -> registry w2 !! c = Some f' ->
        f' = f \/ fTunnelID f' = fTunnelID f /\ fProcessGeneration f < fProcessGeneration f').
Proof.
  intros H0 Hr. pose proof (frun_inv _ _ _ H0 noSessions_inv) as Hi. split_and!.
  - intros i j s t Hs Ht Hcs Hct Hc. eapply (fi_ids _ Hi); [done..|]. unfold current, isCurrent in *. simpl in *.
    rewrite Hc, Hct in Hcs. by injection Hcs as <-.
  - apply (fi_open _ Hi).
  - intros i s Hs Hc. destruct (stale_forever _ _ _ _ _ Hr Hi Hs Hc) as (s' & H1 & H2 & H3).
    exists s'. split_and!; [done..| |intros; by apply stale_ready]. intros w2 ok Hv. by apply (stale_served _ _ _ _ Hv).
  - intros w2 c f f' Hst. by eapply replaced_later.
Qed.

(** C27: Configurations reach the connector.  A process that the server accepted is welcomed by
    its own session, and the exchange of the first configuration, when nothing is lost and the
    applier does what it is asked, ends with that configuration active and ready on both
    sides.  From there, whenever both are alive, the server can offer any valid configuration
    of the tunnel with a later generation, and the same exchange puts it in force. *)
Theorem rollout_completes caps l i now a p sid hello r r' s wl b t1 t2 c0 :
  Server.New caps l i = Some config -> isZero now = false ->
  Server.Accept config now a p sid hello r = (r', Ok (s, wl, b)) -> Client.New now t1 t2 hello = Ok c0 ->
  (exists c, Client.AcceptWelcome now now wl c0 = (c, None)
     /\ forall h, exists w' c' ack, rollout now h b (r', s) c = Some (w', c', ack) /\ inForce b w' c')
  /\ forall b w c now p h, inForce b w c ->
       (Server.ensureActive now w).2 = None -> (Client.ensureActive now c).2 = None ->
       snapshot_Validate p = None -> TunnelID (sIdent p) = TunnelID (Client.ident c) ->
       Server.partsMatch (sIdent p) (Client.ident c) = true -> Generation b < Generation p ->
       exists w1 w2 c2 ack, Server.OfferSnapshot now p w = (w1, Ok tt)
         /\ rollout now h (Server.bindSnapshot (Client.ident c) p) w1 c = Some (w2, c2, ack)
         /\ inForce (Server.bindSnapshot (Client.ident c) p) w2 c2.
Proof.
  intros Hn Hz Ha Hc0. split.
  - destruct (handshake _ _ _ _ _ _ _ _ _ _ _ _ _ _ _ _ _ Hn Hz Ha Hc0) as (c & Hw & Ho). exists c. split; [done|].
    intros h. destruct (rollout_ok now h _ _ _ Ho) as (w' & c' & H1 & H2 & _). eauto.
  - intros b' w c now' p' h Hf Hs Hc Hv Ht Hm Hg. destruct (offer_ok _ _ _ _ _ Hf Hs Hc Hv Ht Hm Hg) as (w1 & H1 & _ & Ho).
    destruct (rollout_ok now' h _ _ _ Ho) as (w2 & c2 & H2 & H3 & _). eauto 10.
Qed.
End properties.

(** ** A connector and its server *)
Module Demo.
(** Any text of the right size is canonical, and any configuration is valid. *)
#[export] Instance payloads : ConfigPayload := {|
  canonicalJSON v limit := if len v <=? limit then Some v else None;
  validateConfigSnapshotPayload _ _ _ := true |}.

Definition key : gostring := bytes "abcdefghijklmnopqrstuvwxyzABCDEFGHIJKLMNOPQ".
Definition seconds (n : Z) : Z := n * 1000 * Millisecond.
Definition start : Z := seconds 1000.
(** The process of generation [g]. *)
Definition requestOf (g : Z) : AuthRequest :=
  mkAuthRequest (bytes "account1") (bytes "tunnel01") (bytes "connect1") (bytes "host0001")
    (bytes "ed25519:" ++ key) key g 1 (bytes "nonce-0123456789") (bytes "signed-proof-of-thirty-two-bytes")
    start (start + seconds 60).
Definition helloOf (g : Z) : Hello :=
  mkHello ProtocolName (bytes "1.0") (bytes "1.0") (bytes "account1") (bytes "tunnel01") (bytes "connect1")
    (bytes "host0001") g (CapabilityDrain :: requiredCapabilities) (requestOf g).
Definition authOf (g : Z) : AuthResult :=
  mkAuthResult (bytes "account1") (bytes "tunnel01") (bytes "connect1") [] (bytes "host0001")
    (bytes "ed25519:" ++ key) key g 1 (start + seconds 3600) (start + seconds 3600).
Definition hash : gostring := Eval vm_compute in contentHash (bytes "{}").
Definition snapshot (n : Z) : Snapshot :=
  mkSnapshot (mkIdent [] (bytes "tunnel01") [] [] 0) n hash (bytes "{}").
Definition config : Server.Config :=
  Server.mkConfig (CapabilityDrain :: requiredCapabilities) Server.DefaultLease Server.DefaultHeartbeat.
Definition sessionOf (g : Z) : gostring := if g =? 1 then bytes "session1" else bytes "session2".
Definition accept (g : Z) (r : Registry) : Registry * result Error (Server.Session * Welcome * Snapshot) :=
  Server.Accept config start (Some (authOf g)) (Some (snapshot 1)) (Some (sessionOf g)) (helloOf g) r.

(** What it returns. *)
Definition refOf (g : Z) : SessionRef := mkRef (bytes "tunnel01") (bytes "connect1") (sessionOf g) g.
Definition leaseOf (g : Z) : Lease := mkLease (sessionOf g) (start + Server.DefaultLease) 15000.
Definition welcomeOf (g : Z) : Welcome :=
  mkWelcome ProtocolName ProtocolVersion (sessionOf g) (CapabilityDrain :: requiredCapabilities) (leaseOf g) true start.
Definition identOf (g : Z) : Ident := mkIdent (bytes "account1") (bytes "tunnel01") (bytes "connect1") (sessionOf g) g.
Definition boundOf (g n : Z) : Snapshot := Server.bindSnapshot (identOf g) (snapshot n).
Definition serverOf (g : Z) : Server.Session :=
  Server.mkSession (refOf g) (authOf g) (leaseOf g) (welcomeOf g) (Some (boundOf g 1)) None None None 0 false
    SessionAwaitingSnapshot start zeroTime None None None false None.
Definition registry1 : Registry := (Attach (refOf 1) ∅).1.
Definition registry2 : Registry := (Attach (refOf 2) registry1).1.

Lemma valid1 : snapshot_Validate (snapshot 1) = None.
Proof. vm_compute. reflexivity. Qed.
Ltac accepts g := unfold accept, Server.Accept;
  replace (hello_Validate start (helloOf g)) with (@None Error) by (vm_compute; reflexivity);
  replace (NegotiateVersion _ _) with (@Ok Error _ ProtocolVersion) by (vm_compute; reflexivity);
  replace (NegotiateCapabilities _ _) with (@Ok Error _ (CapabilityDrain :: requiredCapabilities)) by (vm_compute; reflexivity);
  replace (Server.authMatches start (helloOf g) (authOf g)) with true by (vm_compute; reflexivity);
  rewrite bool_decide_false by (rewrite valid1; naive_solver); reflexivity.
Lemma accepts1 : accept 1 ∅ = (registry1, Ok (serverOf 1, welcomeOf 1, boundOf 1 1)).
Proof. accepts 1. Qed.
Lemma accepts2 : accept 2 registry1 = (registry2, Ok (serverOf 2, welcomeOf 2, boundOf 2 1)).
Proof. accepts 2. Qed.

(** The connector of the first process. *)
Definition hello : Hello := helloOf 1.
Definition welcome : Welcome := welcomeOf 1.
Definition bound : Z -> Snapshot := boundOf 1.
Definition client : Client.Session :=
  Client.mkSession hello Client.noWelcome SessionNew Client.noLease (requestOf 1) None None None false 0 zeroTime
    None None None false 0 None.
Definition idle (c : Client.Session) : CWorld := mkCWorld c [] Idle [] start [].
Lemma begins : Client.New start 0 0 hello = Ok client.
Proof. vm_compute. reflexivity. Qed.
Lemma begins_new : newClient (idle client).
Proof. split; [|done]. by exists start, 0, 0, hello. Qed.

(** The applier's answer that hands out a configuration. *)
Definition gives (h : nat) : Client.PrepareReply := Client.mkPrepareReply (Some h) false false false.
(** The run of a connector that activates the first configuration. *)
Definition activates (w : CWorld) : Prop :=
  rtc cstep (idle client) w /\ calls w = [Prepared 7 (bound 1); Activate 7 true]
  /\ Client.active (cs w) = Some (bound 1) /\ sent w = [mkReadiness (identOf 1) 1 hash true true true].
Lemma activated : exists w, activates w.
Proof.
  eexists. unfold activates. split.
  - run (c_quick (idle client) _ (quick_welcome start start welcome client (Z.le_refl start))).
    run (fun w => c_snapshot w (bound 1)).
    run (fun w => c_prepared w None (bound 1) (gives 7) CodeSnapshotRejected); [vm_compute; set_solver|].
    run (fun w => c_staged w None (bound 1) 7).
    run (fun w => c_ready w false true true true).
    run (fun w v => c_activated w v start). apply rtc_refl.
  - vm_compute. done.
Qed.

(** Both, and the sessions of the two processes. *)
Definition begun : System := mkSystem (registry1, serverOf 1) (idle client).
Lemma begun_fresh : fresh config begun.
Proof. split; [|apply begins_new]. eexists _, _, _, _, _, _, _, _. apply accepts1. Qed.
(** The server hears of the configuration that the connector has activated. *)
Definition heard (w : Server.World) : Server.World :=
  (Server.HandleAck start (mkAck (identOf 1) AckSnapshot AckApplied 1 hash None) w).1.
Definition told (w : Server.World) : Server.World :=
  (Server.HandleReadiness start (mkReadiness (identOf 1) 1 hash true true true) w).1.
Lemma agrees : exists y, rtc (ystep config) begun y /\ noWrap (calls (cw y)) /\ Server.active (sw y).2 = Some (bound 1).
Proof.
  destruct activated as (w & Hr & Hc & _ & Hs). exists (mkSystem (told (heard (registry1, serverOf 1))) w). split_and!.
  - etrans.
    { eapply (rtc_congruence (mkSystem (registry1, serverOf 1))); [|exact Hr]. intros. by apply y_client. }
    eapply rtc_l; [apply (y_served config _ _ _ _ (sv_ack config start (mkAck (identOf 1) AckSnapshot AckApplied 1 hash None) _))|].
    eapply rtc_l; [|apply rtc_refl]. apply y_ready. left. rewrite Hs. apply list_elem_of_singleton.
    done.
  - intros h p. cbn [cw]. rewrite Hc, !elem_of_cons, elem_of_nil. by intros [[= -> ->]|[[=]|[]]].
  - vm_compute. reflexivity.
Qed.
Definition replaced : Sessions := mkSessions registry2 [serverOf 1; serverOf 2].
Lemma replaces : rtc (fstep config) noSessions replaced.
Proof.
  eapply rtc_l; [eapply f_accept; [apply accepts1|done]|].
  eapply rtc_l; [eapply f_accept; [apply accepts2|]|apply rtc_refl]. by intros [|[]] s; [intros [= <-]|intros [=]..].
Qed.
End Demo.
#[local] Existing Instance Demo.payloads.

Lemma prepared_accounted_witness : exists w, rtc cstep (Demo.idle Demo.client) w
  /\ calls w = [Prepared 7 (Demo.bound 1); Activate 7 true] /\ lawful (calls w).
Proof.
  destruct Demo.activated as (w & Hr & Hc & _). exists w. split_and!; [done..|].
  apply (prepared_accounted _ _ Demo.begins_new Hr).
Defined.

Lemma connector_fenced_witness : exists w s, rtc (fstep Demo.config) noSessions w /\ sessions w !! 0%nat = Some s
  /\ ~ current w s /\ is_ok (Server.HandleHeartbeat Demo.config Demo.start (mkHeartbeat (Demo.identOf 1) 1 Demo.hash Demo.start) (registry w, s)).2 = false.
Proof.
  exists Demo.replaced, (Demo.serverOf 1). split_and!; [apply Demo.replaces|done|by vm_compute|].
  destruct (connector_fenced Demo.config _ _ Demo.replaces (rtc_refl _ _)) as (_ & _ & Hs & _).
  destruct (Hs 0%nat (Demo.serverOf 1)) as (s & [= <-] & _ & _ & Hx & _); [done|by vm_compute|].
  eapply Hx. apply sv_heartbeat.
Defined.

Lemma rollout_completes_witness : exists c, Client.AcceptWelcome Demo.start Demo.start Demo.welcome Demo.client = (c, None)
  /\ exists w' c' ack, rollout Demo.start 7 (Demo.bound 1) (Demo.registry1, Demo.serverOf 1) c = Some (w', c', ack)
  /\ inForce (Demo.bound 1) w' c'.
Proof.
  destruct (rollout_completes Demo.config (CapabilityDrain :: requiredCapabilities) 0 0 Demo.start _ _ _ Demo.hello ∅
    _ _ _ _ 0 0 Demo.client eq_refl eq_refl Demo.accepts1 Demo.begins) as [(c & H1 & H2) _].
  exists c. split; [done|]. apply H2.
Defined.

Lemma config_agreement_witness : exists y, rtc (ystep Demo.config) Demo.begun y /\ Server.active (sw y).2 = Some (Demo.bound 1)
  /\ exists q, Client.active (cs (cw y)) = Some q /\ 1 <= Generation q.
Proof.
  destruct Demo.agrees as (y & Hr & Hw & Ha). exists y. split_and!; [done..|].
  destruct (config_agreement Demo.config Demo.begun y (Demo.bound 1) Demo.begun_fresh Hr Hw Ha) as (_ & q & Hq & Hg & _).
  exists q. split; [apply Hq|apply Hg].
Defined.

(** ** Runs that go wrong *)
Module Runs.
Import Demo.
(** The connector with the first configuration staged, and with it active; the server then. *)
Definition staged : Client.Session := Eval vm_compute in
  (Client.ApplySnapshot_finish start 7 (bound 1) (Client.AcceptWelcome start start welcome client).1).1.1.
Definition serving : Client.Session := Eval vm_compute in
  match Client.MarkReady_start false start true true true staged with
  | (c, Ok v) => (Client.MarkReady_finish start v c).1
  | (c, Err _) => c
  end.
Definition ready : Server.World := told (heard (registry1, serverOf 1)).
Definition late : Z := start + seconds 10.
Definition drainOf (w : Server.World) : Server.World * result Error Drain :=
  Server.BeginDrain false start start (bytes "drain-1") late false w.
Definition drain : Drain := mkDrain (identOf 1) (bytes "drain-1") 1 hash late true false.
Definition refusal : DrainAck := mkDrainAck (identOf 1) (bytes "drain-1") 1 hash DrainRejected 0 false (Some CodeDrainRejected).

(** When the lease has run out, any call closes the session and leaves the prepared
    configuration; [Close] then finds the session closed and does not abort it. *)
Example expired_leaks :
  let c := (Client.CheckLease (start + seconds 60) staged).1 in
  Client.state c = SessionClosed /\ Client.prepared c = Some 7%nat /\ Client.Close ReasonCanceled c = (c, []).
Proof. vm_compute. done. Qed.

(** A session that is closed while the drainer stops the streams is ready again when it fails
    to. *)
Example drain_reopens :
  let c := (Client.HandleDrain_start false start drain serving).1 in
  let c' := (Client.Close ReasonCanceled c).1 in
  Client.state c = SessionDraining /\ Client.state c' = SessionClosed
  /\ Client.state (Client.HandleDrain_failed false drain c').1 = SessionReady
  /\ (Client.ensureActive start (Client.HandleDrain_failed false drain c').1).2 = None.
Proof. vm_compute. done. Qed.

(** After a drain that the connector refused, the session is ready, but no other drain can be
    begun; the error says to try again. *)
Example refused_drain_stays :
  let w := (Server.HandleDrainAck false start refusal (drainOf ready).1).1 in
  is_ok (drainOf ready).2 = true /\ Server.state w.2 = SessionReady
  /\ (Server.BeginDrain false start start (bytes "drain-2") late false w).2
     = Err (codeError CodeSessionConflict (Some ReasonStaleGeneration) true).
Proof. vm_compute. done. Qed.

(** Readiness that is repeated during a drain makes the session ready. *)
Example ready_in_drain :
  let w := (drainOf ready).1 in
  Server.state w.2 = SessionDraining /\ Server.state (told w).2 = SessionReady
  /\ Server.drain (told w).2 = Some drain /\ Server.drainCompleted (told w).2 = false.
Proof. vm_compute. done. Qed.

(** A renewal sets the time of the last heartbeat to that of its start, before heartbeats that
    came while the authenticator worked. *)
Example renewal_sets_back :
  let w := (Server.HandleHeartbeat config late (mkHeartbeat (identOf 1) 1 hash late) ready).1 in
  let w' := (Server.Renew_finish config start late (authOf 1) (refOf 1) (Some (authOf 1)) w).1 in
  Server.lastHeartbeat w.2 = late /\ Server.lastHeartbeat w'.2 = start.
Proof. vm_compute. done. Qed.
End Runs.
