(* ===== verification/Rotation.v ===== *)
(** * Credential rotation: messages

    Models the data of [internal/connectorprotocol/rotation.go]: the plan of a rotation, with
    its hash, and the messages between the coordinator and the connectors.

    The fields that every message carries are one record, [Bound], and so are those of the new
    key.  The reference of a credential is a URL; how it parses ([url.Parse]), the JSON text of
    a string and of a time and the verification of signatures are parameters. *)
From S2P Require Import Prelude.
From S2P Require Import Sha256.
From S2P Require Import TransferCodec.
From S2P Require Import UpdateGate.
From S2P Require Import WorkerFence.
From S2P Require Import Inbox.
From S2P Require Import Connector.

(** ** Targets and plans *)
Record RotationTarget := mkTarget {
  tConnectorID : gostring; tHostID : gostring; tOldGeneration : Z; tNewGeneration : Z }.
#[export] Instance RotationTarget_eq_dec : EqDecision RotationTarget.
Proof. solve_decision. Defined.
Definition target_valid (t : RotationTarget) : bool :=
  identifier (tConnectorID t) && identifier (tHostID t) && negb (tOldGeneration t =? 0)
  && (tNewGeneration t =? tOldGeneration t +64 1).

Record RotationPlan := mkPlan {
  pAccountID : gostring; pTunnelID : gostring; pOperationID : gostring; pTargetSetHash : gostring;
  pTargets : list RotationTarget }.
#[export] Instance RotationPlan_eq_dec : EqDecision RotationPlan.
Proof. solve_decision. Defined.

Definition MaxRotationTargets : Z := 256.
Definition MaxRotationMessage : Z := 512.
Definition MaxRotationCredentialLifetime : Z := 5 * 365 * 24 * 60 * Minute.

(** Go's [<] on strings. *)
Fixpoint strLess (a b : gostring) : bool :=
  match a, b with
  | [], [] => false
  | [], _ => true
  | _, [] => false
  | x :: a, y :: b =>
      (Z_of_byte x <? Z_of_byte y) || (Z_of_byte x =? Z_of_byte y) && strLess a b
  end.

(** The loop over the targets, with the one before and those seen. *)
Fixpoint targetsOk (previous : option gostring) (seen : gset gostring) (l : list RotationTarget) : bool :=
  match l with
  | [] => true
  | t :: l =>
      target_valid t && match previous with Some p => strLess p (tConnectorID t) | None => true end
      && negb (bool_decide (tConnectorID t ∈ seen))
      && targetsOk (Some (tConnectorID t)) ({[tConnectorID t]} ∪ seen) l
  end.
Definition validateRotationPlanFields (p : RotationPlan) : bool :=
  identifier (pAccountID p) && identifier (pTunnelID p) && identifier (pOperationID p)
  && (validHash (pTargetSetHash p) || empty (pTargetSetHash p))
  && negb (len (pTargets p) =? 0) && (len (pTargets p) <=? MaxRotationTargets)
  && targetsOk None ∅ (pTargets p).

(** The JSON text of [rotationPlanDocument], whose strings need no escapes. *)
Definition quote : byte := x22.
Definition jsonString (v : gostring) : gostring := [quote] ++ v ++ [quote].
Definition jsonField (name value : gostring) : gostring := jsonString name ++ [x3a] ++ value.
Fixpoint jsonJoin (l : list gostring) : gostring :=
  match l with
  | [] => []
  | [v] => v
  | v :: l => v ++ [x2c] ++ jsonJoin l
  end.
Definition jsonObject (fields : list gostring) : gostring := [x7b] ++ jsonJoin fields ++ [x7d].
Definition jsonTarget (t : RotationTarget) : gostring :=
  jsonObject [jsonField (bytes "connector_id") (jsonString (tConnectorID t));
              jsonField (bytes "host_id") (jsonString (tHostID t));
              jsonField (bytes "old_credential_generation") (Itoa 20 (tOldGeneration t));
              jsonField (bytes "new_credential_generation") (Itoa 20 (tNewGeneration t))].
Definition planDocument (p : RotationPlan) : gostring :=
  jsonObject [jsonField (bytes "protocol") (jsonString ProtocolName);
              jsonField (bytes "version") (jsonString ProtocolVersion);
              jsonField (bytes "account_id") (jsonString (pAccountID p));
              jsonField (bytes "tunnel_id") (jsonString (pTunnelID p));
              jsonField (bytes "operation_id") (jsonString (pOperationID p));
              jsonField (bytes "targets") ([x5b] ++ jsonJoin (map jsonTarget (pTargets p)) ++ [x5d])].
Definition rotationPlanHash (p : RotationPlan) : gostring := contentHash (planDocument p).

Definition plan_Validate (p : RotationPlan) : option Error :=
  if negb (validateRotationPlanFields p) then Some ErrInvalidInput
  else if bool_decide (pTargetSetHash p = rotationPlanHash p) then None
  else Some (codeError CodeContentHashMismatch (Some ReasonSnapshotRejected) false).

(** [sort.Slice] by the connector; equal connectors are refused after it. *)
Fixpoint insertTarget (t : RotationTarget) (l : list RotationTarget) : list RotationTarget :=
  match l with
  | [] => [t]
  | u :: l => if strLess (tConnectorID u) (tConnectorID t) then u :: insertTarget t l else t :: u :: l
  end.
Definition NewRotationPlan (accountID tunnelID operationID : gostring) (targets : list RotationTarget)
    : result Error RotationPlan :=
  let plan := mkPlan accountID tunnelID operationID [] (fold_right insertTarget [] targets) in
  if negb (validateRotationPlanFields plan) then Err ErrInvalidInput
  else Ok (mkPlan accountID tunnelID operationID (rotationPlanHash plan) (pTargets plan)).

Definition plan_Target (connectorID : gostring) (p : RotationPlan) : option RotationTarget :=
  list_find (fun t => tConnectorID t = connectorID) (pTargets p) ≫= fun x => Some x.2.

(** ** What messages share *)
Record Bound := mkBound {
  oAccountID : gostring; oTunnelID : gostring; oOperationID : gostring; oConnectorID : gostring;
  oHostID : gostring; oSessionID : gostring; oProcessGeneration : Z; oTargetSetHash : gostring;
  oOldGeneration : Z; oNewGeneration : Z }.
#[export] Instance Bound_eq_dec : EqDecision Bound.
Proof. solve_decision. Defined.
Definition bound_valid (o : Bound) : bool :=
  identifier (oAccountID o) && identifier (oTunnelID o) && identifier (oOperationID o)
  && identifier (oConnectorID o) && identifier (oHostID o) && identifier (oSessionID o)
  && negb (oProcessGeneration o =? 0) && validHash (oTargetSetHash o) && negb (oOldGeneration o =? 0)
  && (oNewGeneration o =? oOldGeneration o +64 1).

Record NewKey := mkNewKey {
  NewIdentityKeyID : gostring; NewIdentityKeyThumbprint : gostring; NewPublicKey : gostring;
  NewCredentialReference : gostring }.
#[export] Instance NewKey_eq_dec : EqDecision NewKey.
Proof. solve_decision. Defined.

(** [base64.RawURLEncoding.Strict]: six bits of a character; text without line breaks. *)
Definition sextet (b : byte) : option Z :=
  let z := Z_of_byte b in
  if (65 <=? z) && (z <=? 90) then Some (z - 65)
  else if (97 <=? z) && (z <=? 122) then Some (z - 71)
  else if (48 <=? z) && (z <=? 57) then Some (z + 4)
  else if z =? 45 then Some 62 else if z =? 95 then Some 63 else None.
Fixpoint DecodeString (v : gostring) : option (list byte) :=
  match v with
  | [] => Some []
  | [_] => None
  | [a; b] =>
      x ← sextet a; y ← sextet b;
      let n := x * 64 + y in if n mod 16 =? 0 then Some (be_put 1 (n / 16)) else None
  | [a; b; c] =>
      x ← sextet a; y ← sextet b; z ← sextet c;
      let n := (x * 64 + y) * 64 + z in if n mod 4 =? 0 then Some (be_put 2 (n / 4)) else None
  | a :: b :: c :: d :: r =>
      x ← sextet a; y ← sextet b; z ← sextet c; t ← sextet d;
      rest ← DecodeString r; Some (be_put 3 (((x * 64 + y) * 64 + z) * 64 + t) ++ rest)
  end.
Definition decodeRotationPublicKey (v : gostring) : option (list byte) :=
  decoded ← DecodeString v;
  if (len decoded =? 32) && bool_decide (EncodeToString decoded = v) then Some decoded else None.
Definition IdentityThumbprint (publicKey : list byte) : gostring :=
  let canonical := jsonObject [jsonField (bytes "crv") (jsonString (bytes "Ed25519"));
                               jsonField (bytes "kty") (jsonString (bytes "OKP"));
                               jsonField (bytes "x") (jsonString (EncodeToString publicKey))] in
  EncodeToString (Sum256 canonical).
Definition DecodeProof (v : gostring) : option (list byte) :=
  if negb (ValidateProof v) then None
  else signature ← DecodeString v;
       if (len signature =? 0) || (16384 <? len signature) then None else Some signature.

Record URL := mkURL {
  Scheme : gostring; Host : gostring; HasUser : bool; Opaque_ : gostring; RawQuery : gostring;
  Fragment : gostring; Path : gostring }.

(** ** Messages *)
Record CredentialRotationChallenge := mkChallenge {
  chBound : Bound; chTarget : RotationTarget; chOldKeyID : gostring; chOldThumbprint : gostring;
  chNonce : gostring; chIssuedAt : Z; chExpiresAt : Z; chOverlapUntil : Z; chValidUntil : Z }.
#[export] Instance CredentialRotationChallenge_eq_dec : EqDecision CredentialRotationChallenge.
Proof. solve_decision. Defined.

Record CredentialRotationProof := mkProof {
  pfBound : Bound; pfOldKeyID : gostring; pfOldThumbprint : gostring; pfKey : NewKey;
  pfNonce : gostring; pfIssuedAt : Z; pfValidUntil : Z; pfOldSignedProof : gostring;
  pfNewSignedProof : gostring }.
#[export] Instance CredentialRotationProof_eq_dec : EqDecision CredentialRotationProof.
Proof. solve_decision. Defined.

Record CredentialRotationInstall := mkInstall {
  inBound : Bound; inKey : NewKey; inNonce : gostring; inOverlapUntil : Z; inValidUntil : Z;
  inReplacement : Z }.
#[export] Instance CredentialRotationInstall_eq_dec : EqDecision CredentialRotationInstall.
Proof. solve_decision. Defined.

Record CredentialRotationReady := mkReady {
  rdBound : Bound; rdPreviousSessionID : gostring; rdKey : NewKey; rdValidUntil : Z;
  rdConfigGeneration : Z; rdConfigHash : gostring; rdEdge : bool; rdRoute : bool; rdOrigin : bool;
  rdReadyAt : Z }.
#[export] Instance CredentialRotationReady_eq_dec : EqDecision CredentialRotationReady.
Proof. solve_decision. Defined.

Record CredentialRotationRevoke := mkRevoke {
  rvBound : Bound; rvNonce : gostring; rvIssuedAt : Z; rvDeadline : Z }.
#[export] Instance CredentialRotationRevoke_eq_dec : EqDecision CredentialRotationRevoke.
Proof. solve_decision. Defined.

Inductive RotationAckStatus :=
| RotationAckProofAccepted | RotationAckInstalled | RotationAckReady | RotationAckRevoked
| RotationAckRejected | RotationAckFailed.
#[export] Instance RotationAckStatus_eq_dec : EqDecision RotationAckStatus.
Proof. solve_decision. Defined.
Record CredentialRotationAck := mkRotationAck {
  raBound : Bound; raStatus : RotationAckStatus; raCode : option Code; raMessage : gostring }.
#[export] Instance CredentialRotationAck_eq_dec : EqDecision CredentialRotationAck.
Proof. solve_decision. Defined.

Class RotationEnv := {
  url_Parse : gostring -> option URL;
  json_String : gostring -> gostring;
  json_Time : Z -> gostring;
  ed25519_Verify : list byte -> list byte -> list byte -> bool }.

Definition DefaultAbortTimeout : Z := 5000 * Millisecond.
Definition expiredCredential : Error := codeError CodeCredentialExpired (Some ReasonCredentialExpired) true.

Section messages.
Context `{RotationEnv}.

Definition ValidateCredentialReference (v : gostring) : bool :=
  negb (len v =? 0) && (len v <=? 512) && trimmed v && negb (ContainsAny v [x0d; x0a])
  && match url_Parse v with
     | None => false
     | Some u =>
         bool_decide (Host u = bytes "paperboat") && negb (HasUser u) && empty (Opaque_ u) && empty (RawQuery u)
         && empty (Fragment u) && negb (empty (Path u))
         && bool_decide (Scheme u ∈ [bytes "keychain"; bytes "credential-manager"; bytes "secret-service";
                                     bytes "protected-file"; bytes "tpm"])
     end.

Definition challenge_Validate (now : Z) (c : CredentialRotationChallenge) : option Error :=
  let o := chBound c in
  if negb (bound_valid o) || negb (ValidateIdentityKey (chOldKeyID c) (chOldThumbprint c)) || negb (validNonce (chNonce c))
     || isZero (chIssuedAt c) || isZero (chExpiresAt c) || isZero (chOverlapUntil c) || isZero (chValidUntil c)
     || (chExpiresAt c <=? chIssuedAt c) || (chOverlapUntil c <=? chExpiresAt c) || (chValidUntil c <=? chOverlapUntil c)
     || (15 * Minute <? chExpiresAt c - chIssuedAt c) || (MaxLease <? chOverlapUntil c - chIssuedAt c)
     || (MaxRotationCredentialLifetime <? chValidUntil c - chIssuedAt c)
  then Some ErrInvalidInput
  else
    let t := chTarget c in
    if negb (target_valid t) || negb (bool_decide (tConnectorID t = oConnectorID o)) || negb (bool_decide (tHostID t = oHostID o))
       || negb (tOldGeneration t =? oOldGeneration o) || negb (tNewGeneration t =? oNewGeneration o)
    then Some (codeError CodeIdentityMismatch (Some ReasonAuthentication) false)
    else if negb (isZero now) && ((now + MaxClockSkew <? chIssuedAt c) || (MaxClockSkew <? now - chIssuedAt c)
                                  || (chExpiresAt c <=? now) || (chOverlapUntil c <=? now))
    then Some expiredCredential else None.

(** The new key and its thumbprint; [bad] is the error where they do not fit. *)
Definition key_valid (k : NewKey) : bool :=
  ValidateIdentityKey (NewIdentityKeyID k) (NewIdentityKeyThumbprint k) && ValidateCredentialReference (NewCredentialReference k).
Definition key_Validate (k : NewKey) (bad : Error) : option Error :=
  match decodeRotationPublicKey (NewPublicKey k) with
  | None => Some ErrInvalidInput
  | Some publicKey =>
      if bool_decide (IdentityThumbprint publicKey = NewIdentityKeyThumbprint k) then None else Some bad
  end.

Definition proof_validate (p : CredentialRotationProof) : option Error :=
  if negb (bound_valid (pfBound p)) || negb (ValidateIdentityKey (pfOldKeyID p) (pfOldThumbprint p)) || negb (key_valid (pfKey p))
     || bool_decide (pfOldKeyID p = NewIdentityKeyID (pfKey p)) || negb (validNonce (pfNonce p))
     || isZero (pfIssuedAt p) || isZero (pfValidUntil p) || (pfValidUntil p <=? pfIssuedAt p)
     || (MaxRotationCredentialLifetime <? pfValidUntil p - pfIssuedAt p)
  then Some ErrInvalidInput
  else key_Validate (pfKey p) (codeError CodeIdentityMismatch (Some ReasonAuthentication) false).
Definition authenticationFailed : Error := codeError CodeAuthenticationFailed (Some ReasonAuthentication) false.
Definition proof_Validate (now : Z) (p : CredentialRotationProof) : option Error :=
  match proof_validate p with
  | Some e => Some e
  | None =>
      if negb (ValidateProof (pfOldSignedProof p)) || negb (ValidateProof (pfNewSignedProof p)) then Some ErrInvalidInput
      else if negb (isZero now) && ((now + MaxClockSkew <? pfIssuedAt p) || (MaxClockSkew <? now - pfIssuedAt p))
      then Some authenticationFailed else None
  end.

(** The JSON text of [rotationProofTranscript], which is signed. *)
Definition transcript (p : CredentialRotationProof) : gostring :=
  let o := pfBound p in let k := pfKey p in
  let text name v := jsonField (bytes name) (json_String v) in
  let number name v := jsonField (bytes name) (Itoa 20 v) in
  jsonObject [text "domain"%string (bytes "paperboat.connector.credential-rotation.v1");
              text "protocol"%string ProtocolName; text "version"%string ProtocolVersion;
              text "account_id"%string (oAccountID o); text "tunnel_id"%string (oTunnelID o);
              text "operation_id"%string (oOperationID o); text "connector_id"%string (oConnectorID o);
              text "host_id"%string (oHostID o); text "session_id"%string (oSessionID o);
              number "process_generation"%string (oProcessGeneration o);
              text "target_set_hash"%string (oTargetSetHash o);
              number "old_credential_generation"%string (oOldGeneration o);
              number "new_credential_generation"%string (oNewGeneration o);
              text "old_identity_key_id"%string (pfOldKeyID p);
              text "old_identity_key_thumbprint"%string (pfOldThumbprint p);
              text "new_identity_key_id"%string (NewIdentityKeyID k);
              text "new_identity_key_thumbprint"%string (NewIdentityKeyThumbprint k);
              text "new_public_key"%string (NewPublicKey k);
              text "new_credential_reference"%string (NewCredentialReference k);
              text "challenge_nonce"%string (pfNonce p);
              jsonField (bytes "issued_at") (json_Time (pfIssuedAt p));
              jsonField (bytes "new_credential_valid_until") (json_Time (pfValidUntil p))].
Definition CredentialRotationProofPayload (p : CredentialRotationProof) : result Error (list byte) :=
  match proof_validate p with
  | Some e => Err e
  | None => Ok (transcript p)
  end.

(** [sign]: the signature that the callback returns. *)
Definition SignProofPayload (payload : list byte) (sign : list byte -> list byte) : option gostring :=
  if (len payload =? 0) || (16384 <? len payload) then None
  else let signature := sign payload in
       if (len signature =? 0) || (16384 <? len signature) then None else Some (EncodeToString signature).
Definition SignCredentialRotationProof (p : CredentialRotationProof) (oldSign newSign : list byte -> list byte)
    : result Error CredentialRotationProof :=
  match CredentialRotationProofPayload p with
  | Err e => Err e
  | Ok payload =>
      match SignProofPayload payload oldSign, SignProofPayload payload newSign with
      | Some old, Some new =>
          let p := mkProof (pfBound p) (pfOldKeyID p) (pfOldThumbprint p) (pfKey p) (pfNonce p) (pfIssuedAt p) (pfValidUntil p) old new in
          match proof_Validate zeroTime p with
          | Some e => Err e
          | None => Ok p
          end
      | _, _ => Err ErrInvalidInput
      end
  end.

(** [verifyOld]: the answer of the callback, of the text that was signed and the signature. *)
Definition VerifyCredentialRotationProofAt (now : Z) (p : CredentialRotationProof)
    (verifyOld : list byte -> list byte -> bool) : option Error :=
  match proof_Validate now p with
  | Some e => Some e
  | None =>
      match CredentialRotationProofPayload p, DecodeProof (pfOldSignedProof p) with
      | Err e, _ => Some e
      | Ok _, None => Some (baseError CodeAuthenticationFailed)
      | Ok payload, Some oldSignature =>
          if negb (verifyOld payload oldSignature) then Some authenticationFailed
          else match DecodeProof (pfNewSignedProof p) with
               | None => Some (baseError CodeAuthenticationFailed)
               | Some newSignature =>
                   match decodeRotationPublicKey (NewPublicKey (pfKey p)) with
                   | Some publicKey =>
                       if ed25519_Verify publicKey payload newSignature then None else Some authenticationFailed
                   | None => Some authenticationFailed
                   end
               end
      end
  end.

Definition install_Validate (now : Z) (i : CredentialRotationInstall) : option Error :=
  if negb (bound_valid (inBound i)) || (inReplacement i <=? oProcessGeneration (inBound i)) || negb (key_valid (inKey i))
     || negb (validNonce (inNonce i)) || isZero (inOverlapUntil i) || isZero (inValidUntil i)
     || (inValidUntil i <=? inOverlapUntil i) || (MaxRotationCredentialLifetime <? inValidUntil i - inOverlapUntil i)
  then Some ErrInvalidInput
  else match key_Validate (inKey i) (baseError CodeIdentityMismatch) with
       | Some e => Some e
       | None => if negb (isZero now) && (inOverlapUntil i <=? now) then Some expiredCredential else None
       end.

Definition ready_Validate (now : Z) (r : CredentialRotationReady) : option Error :=
  if negb (bound_valid (rdBound r)) || negb (identifier (rdPreviousSessionID r)) || negb (key_valid (rdKey r))
     || isZero (rdValidUntil r) || (rdConfigGeneration r =? 0) || negb (validHash (rdConfigHash r)) || isZero (rdReadyAt r)
  then Some ErrInvalidInput
  else match key_Validate (rdKey r) (baseError CodeIdentityMismatch) with
       | Some e => Some e
       | None =>
           if negb (rdEdge r && rdRoute r && rdOrigin r)
           then Some (codeError CodeCredentialRotationNotReady (Some ReasonSnapshotRejected) true)
           else if isZero now then None
           else if rdValidUntil r <=? now then Some expiredCredential
           else if (rdReadyAt r <? now - MaxClockSkew) || (now + MaxClockSkew <? rdReadyAt r)
           then Some ErrInvalidInput else None
       end.
End messages.

Definition revoke_Validate (now : Z) (r : CredentialRotationRevoke) : option Error :=
  if negb (bound_valid (rvBound r)) || negb (validNonce (rvNonce r)) || isZero (rvIssuedAt r) || isZero (rvDeadline r)
     || (rvDeadline r <=? rvIssuedAt r) || (DefaultAbortTimeout * 2 <? rvDeadline r - rvIssuedAt r)
  then Some ErrInvalidInput
  else if negb (isZero now) && ((now + MaxClockSkew <? rvIssuedAt r) || (rvDeadline r <=? now))
  then Some expiredCredential else None.

Definition rotationAck_valid (a : CredentialRotationAck) : bool :=
  bound_valid (raBound a) && (len (raMessage a) <=? MaxRotationMessage)
  && match raStatus a with
     | RotationAckRejected | RotationAckFailed => bool_decide (raCode a <> None)
     | _ => bool_decide (raCode a = None)
     end.
