(* ===== verification/RotationCoordinator.v ===== *)
(** * Credential rotation: the coordinator

    Models [RotationCoordinator] and [MemoryRotationPersistence] of
    [internal/connectorprotocol/rotation.go].

    The mutex makes the calls of a coordinator sequential.  The end of a context, the clock,
    random bytes, the answer of the verifier of old proofs and of the authorizer of sessions are
    arguments; [Failure] of the store says whether its calls fail.  A message that a target does
    not have is [None], for Go's zero value. *)
From S2P Require Import Prelude.
From S2P Require Import TransferCodec.
From S2P Require Import TransferKeys.
From S2P Require Import UpdateGate.
From S2P Require Import Connector.
From S2P Require Import ConnectorServer.
From S2P Require Import Rotation.

Inductive RotationTargetState :=
| RotationTargetPending | RotationTargetChallenged | RotationTargetInstalled | RotationTargetReady
| RotationTargetRevoking | RotationTargetRevoked | RotationTargetFailed.
#[export] Instance RotationTargetState_eq_dec : EqDecision RotationTargetState.
Proof. solve_decision. Defined.
Inductive RotationAggregateStatus :=
| RotationAggregatePending | RotationAggregateSucceeded | RotationAggregateFailed.
#[export] Instance RotationAggregateStatus_eq_dec : EqDecision RotationAggregateStatus.
Proof. solve_decision. Defined.

Record RotationTargetSummary := mkTargetSummary {
  tsTarget : RotationTarget; tsState : RotationTargetState; tsCode : option Code }.
Record RotationSummary := mkSummary {
  suAccountID : gostring; suTunnelID : gostring; suOperationID : gostring; suTargetSetHash : gostring;
  suStatus : RotationAggregateStatus; suTargets : list RotationTargetSummary; suCompletedAt : Z }.

(** ** The store *)
Record MemoryRotationPersistence := mkMemory {
  Failure : bool; Started : list RotationPlan; Challenges : list CredentialRotationChallenge;
  Proofs : list CredentialRotationProof; Installs : list CredentialRotationInstall;
  Readiness : list CredentialRotationReady; Revocations : list CredentialRotationRevoke;
  Results : list RotationSummary }.
#[export] Instance MemoryRotationPersistence_eta : Eta MemoryRotationPersistence :=
  fun m => mkMemory (Failure m) (Started m) (Challenges m) (Proofs m) (Installs m) (Readiness m)
             (Revocations m) (Results m).

Definition samePlan (a b : RotationPlan) : bool :=
  bool_decide (pAccountID a = pAccountID b) && bool_decide (pTunnelID a = pTunnelID b)
  && bool_decide (pTargetSetHash a = pTargetSetHash b) && (len (pTargets a) =? len (pTargets b)).
Definition findStarted (plan : RotationPlan) (m : MemoryRotationPersistence) : option RotationPlan :=
  list_find (fun s => pOperationID s = pOperationID plan) (Started m) ≫= fun x => Some x.2.

(** Each call: the store, and whether it returned no error. *)
Definition BeginCredentialRotation (plan : RotationPlan) (m : MemoryRotationPersistence)
    : MemoryRotationPersistence * bool :=
  if Failure m then (m, false)
  else match findStarted plan m with
       | Some s => (m, samePlan s plan)
       | None => (m <| Started := Started m ++ [plan] |>, true)
       end.
Definition RecordCredentialRotationChallenge (c : CredentialRotationChallenge) (m : MemoryRotationPersistence)
    : MemoryRotationPersistence * bool :=
  if Failure m then (m, false) else (m <| Challenges := Challenges m ++ [c] |>, true).
Definition RecordCredentialRotationProof (p : CredentialRotationProof) (i : CredentialRotationInstall)
    (m : MemoryRotationPersistence) : MemoryRotationPersistence * bool :=
  if Failure m then (m, false)
  else ((m <| Proofs := Proofs m ++ [p] |>) <| Installs := Installs m ++ [i] |>, true).
Definition RecordCredentialRotationReady (r : CredentialRotationReady) (m : MemoryRotationPersistence)
    : MemoryRotationPersistence * bool :=
  if Failure m then (m, false) else (m <| Readiness := Readiness m ++ [r] |>, true).
Definition RecordCredentialRotationRevoke (r : CredentialRotationRevoke) (m : MemoryRotationPersistence)
    : MemoryRotationPersistence * bool :=
  if Failure m then (m, false) else (m <| Revocations := Revocations m ++ [r] |>, true).
(** The acknowledgement is not kept. *)
Definition RecordCredentialRotationResult (_ : CredentialRotationAck) (s : RotationSummary) (m : MemoryRotationPersistence)
    : MemoryRotationPersistence * bool :=
  if Failure m then (m, false) else (m <| Results := Results m ++ [s] |>, true).

(** *** Loading *)
Record RotationResumeTarget := mkResumeTarget {
  rtTarget : RotationTarget; rtState : RotationTargetState; rtCode : option Code;
  rtOverlapUntil : Z; rtValidUntil : Z; rtChallenge : option CredentialRotationChallenge;
  rtProof : option CredentialRotationProof; rtInstall : option CredentialRotationInstall;
  rtReady : option CredentialRotationReady; rtRevoke : option CredentialRotationRevoke }.
#[export] Instance RotationResumeTarget_eta : Eta RotationResumeTarget :=
  fun e => mkResumeTarget (rtTarget e) (rtState e) (rtCode e) (rtOverlapUntil e) (rtValidUntil e)
             (rtChallenge e) (rtProof e) (rtInstall e) (rtReady e) (rtRevoke e).
Record RotationResume := mkResume {
  reFinishedAt : Z; rePlan : RotationPlan; reStarted : bool; reTargets : list RotationResumeTarget }.

(** A record of the operation for the target. *)
Definition forTarget (plan : RotationPlan) (t : RotationTarget) (o : Bound) : bool :=
  bool_decide (oOperationID o = pOperationID plan) && bool_decide (oConnectorID o = tConnectorID t).
Definition loadChallenge (plan : RotationPlan) (e : RotationResumeTarget) (c : CredentialRotationChallenge)
    : RotationResumeTarget :=
  if forTarget plan (rtTarget e) (chBound c)
  then (((e <| rtChallenge := Some c |>) <| rtOverlapUntil := chOverlapUntil c |>) <| rtValidUntil := chValidUntil c |>)
         <| rtState := RotationTargetChallenged |>
  else e.
Definition loadProof (plan : RotationPlan) (e : RotationResumeTarget)
    (x : CredentialRotationProof * option CredentialRotationInstall) : RotationResumeTarget :=
  if forTarget plan (rtTarget e) (pfBound x.1)
  then ((e <| rtProof := Some x.1 |>) <| rtInstall := match x.2 with Some i => Some i | None => rtInstall e end |>)
         <| rtState := RotationTargetInstalled |>
  else e.
Definition loadReady (plan : RotationPlan) (e : RotationResumeTarget) (r : CredentialRotationReady) : RotationResumeTarget :=
  if forTarget plan (rtTarget e) (rdBound r)
  then (e <| rtReady := Some r |>) <| rtState := RotationTargetReady |> else e.
Definition loadResult (e : RotationResumeTarget) (s : RotationTargetSummary) : RotationResumeTarget :=
  if bool_decide (tConnectorID (tsTarget s) = tConnectorID (rtTarget e))
  then (e <| rtState := tsState s |>) <| rtCode := tsCode s |> else e.
Definition loadResults (plan : RotationPlan) (e : RotationResumeTarget) (s : RotationSummary) : RotationResumeTarget :=
  if bool_decide (suOperationID s = pOperationID plan) then fold_left loadResult (suTargets s) e else e.
Definition loadRevoke (plan : RotationPlan) (results : list RotationSummary) (e : RotationResumeTarget)
    (r : CredentialRotationRevoke) : RotationResumeTarget :=
  if forTarget plan (rtTarget e) (rvBound r)
  then fold_left (loadResults plan) results ((e <| rtRevoke := Some r |>) <| rtState := RotationTargetRevoking |>)
  else e.
Definition loadTarget (plan : RotationPlan) (m : MemoryRotationPersistence) (t : RotationTarget) : RotationResumeTarget :=
  let e := mkResumeTarget t RotationTargetPending None zeroTime zeroTime None None None None None in
  let e := fold_left (loadChallenge plan) (Challenges m) e in
  let e := fold_left (loadProof plan) (imap (fun i p => (p, Installs m !! i)) (Proofs m)) e in
  let e := fold_left (loadReady plan) (Readiness m) e in
  fold_left (loadRevoke plan (Results m)) (Revocations m) e.
Definition loadFinished (plan : RotationPlan) (at_ : Z) (s : RotationSummary) : Z :=
  if bool_decide (suOperationID s = pOperationID plan) && bool_decide (suStatus s = RotationAggregateSucceeded)
  then suCompletedAt s else at_.
Definition LoadCredentialRotation (plan : RotationPlan) (m : MemoryRotationPersistence) : option RotationResume :=
  if Failure m then None
  else match findStarted plan m with
       | None => None
       | Some s =>
           if negb (samePlan s plan) then None
           else Some (mkResume (fold_left (loadFinished plan) (Results m) zeroTime) s true
                        (map (loadTarget plan m) (pTargets s)))
       end.

(** ** The coordinator *)
Record TargetState := mkTargetState {
  sTarget : RotationTarget; sState : RotationTargetState; sCode : option Code;
  sChallenge : option CredentialRotationChallenge; sProof : option CredentialRotationProof;
  sInstall : option CredentialRotationInstall; sReady : option CredentialRotationReady;
  sRevoke : option CredentialRotationRevoke }.
#[export] Instance TargetState_eta : Eta TargetState :=
  fun s => mkTargetState (sTarget s) (sState s) (sCode s) (sChallenge s) (sProof s) (sInstall s) (sReady s) (sRevoke s).
Record Coordinator := mkCoordinator {
  cPlan : RotationPlan; cStarted : bool; cFinished : Z; cTargets : gmap gostring TargetState }.
#[export] Instance Coordinator_eta : Eta Coordinator :=
  fun c => mkCoordinator (cPlan c) (cStarted c) (cFinished c) (cTargets c).
Abbreviation RWorld := (MemoryRotationPersistence * Coordinator)%type.

Definition pendingTarget (t : RotationTarget) : TargetState :=
  mkTargetState t RotationTargetPending None None None None None None.
Definition NewRotationCoordinator (plan : RotationPlan) : option Coordinator :=
  if bool_decide (plan_Validate plan <> None) then None
  else Some (mkCoordinator plan false zeroTime
               (fold_left (fun m t => <[tConnectorID t := pendingTarget t]> m) (pTargets plan) ∅)).

Definition rotationFailed (retryable : bool) : Error :=
  codeError CodeCredentialRotationFailed (Some ReasonCredentialRotation) retryable.
Definition staleGeneration : Error := codeError CodeStaleGeneration (Some ReasonStaleGeneration) false.
Definition identityMismatch : Error := Server.mismatch.
Definition setTarget (s : TargetState) (c : Coordinator) : Coordinator :=
  c <| cTargets := <[tConnectorID (sTarget s) := s]> (cTargets c) |>.
Definition failTarget (code : Code) (s : TargetState) : TargetState :=
  (s <| sState := RotationTargetFailed |>) <| sCode := Some code |>.

Definition Start (canceled : bool) (w : RWorld) : RWorld * option Error :=
  if canceled then (w, Some Server.canceledError)
  else if cStarted w.2 then (w, None)
  else match BeginCredentialRotation (cPlan w.2) w.1 with
       | (m, false) => ((m, w.2), Some (rotationFailed false))
       | (m, true) => ((m, w.2 <| cStarted := true |>), None)
       end.

(** ** Summaries *)
Definition targetSummary (c : Coordinator) (t : RotationTarget) : option RotationTargetSummary :=
  s ← cTargets c !! tConnectorID t; Some (mkTargetSummary t (sState s) (sCode s)).
Definition summary (c : Coordinator) : RotationSummary :=
  let p := cPlan c in
  let l := omap (targetSummary c) (pTargets p) in
  let failed := existsb (fun s => bool_decide (tsState s = RotationTargetFailed)) l in
  let succeeded := forallb (fun s => bool_decide (tsState s = RotationTargetRevoked)) l in
  mkSummary (pAccountID p) (pTunnelID p) (pOperationID p) (pTargetSetHash p)
    (if failed then RotationAggregateFailed else if succeeded then RotationAggregateSucceeded else RotationAggregatePending)
    l (if negb failed && succeeded then cFinished c else zeroTime).
Definition isReadyState (s : RotationTargetState) : bool :=
  bool_decide (s ∈ [RotationTargetReady; RotationTargetRevoking; RotationTargetRevoked]).
Definition allReady (c : Coordinator) : bool := forallb (fun x => isReadyState (sState x.2)) (map_to_list (cTargets c)).

(** ** Recovery *)
Definition present {A} (f : A -> Bound) (x : option A) : bool :=
  match x with Some a => negb (empty (oSessionID (f a))) | None => false end.

(** The fields of a message that are those of the plan and the target. *)
Definition boundTo (plan : RotationPlan) (t : RotationTarget) (o : Bound) : bool :=
  bool_decide (oAccountID o = pAccountID plan) && bool_decide (oTunnelID o = pTunnelID plan)
  && bool_decide (oOperationID o = pOperationID plan) && bool_decide (oTargetSetHash o = pTargetSetHash plan)
  && bool_decide (oConnectorID o = tConnectorID t) && bool_decide (oHostID o = tHostID t).
Definition generations (t : RotationTarget) (o : Bound) : bool :=
  (oOldGeneration o =? tOldGeneration t) && (oNewGeneration o =? tNewGeneration t).

Section coordinator.
Context `{RotationEnv}.

Definition challengeFits (plan : RotationPlan) (t : RotationTarget) (c : CredentialRotationChallenge) : bool :=
  bool_decide (challenge_Validate zeroTime c = None) && boundTo plan t (chBound c) && bool_decide (chTarget c = t).
Definition installFits (plan : RotationPlan) (t : RotationTarget) (c : CredentialRotationChallenge)
    (i : CredentialRotationInstall) : bool :=
  bool_decide (install_Validate zeroTime i = None) && boundTo plan t (inBound i) && generations t (inBound i)
  && bool_decide (oSessionID (inBound i) = oSessionID (chBound c))
  && (oProcessGeneration (inBound i) =? oProcessGeneration (chBound c)) && bool_decide (inNonce i = chNonce c).
(** The session that is ready is a later one, with the key that was installed; the times are
    the same instant. *)
Definition replaces (i : CredentialRotationInstall) (r : CredentialRotationReady) : bool :=
  bool_decide (rdPreviousSessionID r = oSessionID (inBound i))
  && negb (bool_decide (oSessionID (rdBound r) = oSessionID (inBound i)))
  && negb (oProcessGeneration (rdBound r) <? inReplacement i)
  && bool_decide (rdKey r = inKey i) && (rdValidUntil r =? inValidUntil i).
Definition readyFits (plan : RotationPlan) (t : RotationTarget) (i : CredentialRotationInstall)
    (r : CredentialRotationReady) : bool :=
  bool_decide (ready_Validate zeroTime r = None) && boundTo plan t (rdBound r) && generations t (rdBound r) && replaces i r.
Definition revokeFits (plan : RotationPlan) (t : RotationTarget) (r : CredentialRotationReady)
    (v : CredentialRotationRevoke) : bool :=
  let o := rvBound v in let q := rdBound r in
  bool_decide (revoke_Validate zeroTime v = None) && boundTo plan t o && generations t o
  && ((oProcessGeneration o =? oProcessGeneration q) && bool_decide (oSessionID o = oSessionID q)
      || (oProcessGeneration q <? oProcessGeneration o) && negb (bool_decide (oSessionID o = oSessionID q))).

(** [if challengePresent], and so on: a check of a message that is there and the one before. *)
Definition fits2 {A B} (there : bool) (a : option A) (b : option B) (f : A -> B -> bool) : bool :=
  negb there || match a, b with Some a, Some b => f a b | _, _ => false end.

Definition validateRotationResumeTarget (plan : RotationPlan) (e : RotationResumeTarget) : bool :=
  let t := rtTarget e in
  let challengePresent := present chBound (rtChallenge e) in
  let installPresent := present inBound (rtInstall e) in
  let readyPresent := present rdBound (rtReady e) in
  let revokePresent := present rvBound (rtRevoke e) in
  target_valid t && bool_decide (plan_Target (tConnectorID t) plan = Some t)
  && (if bool_decide (rtState e = RotationTargetFailed) then bool_decide (rtCode e <> None) else bool_decide (rtCode e = None))
  && eqb (isZero (rtOverlapUntil e)) (isZero (rtValidUntil e))
  && (isZero (rtOverlapUntil e) || (rtOverlapUntil e <? rtValidUntil e))
  && (challengePresent || negb (installPresent || readyPresent || revokePresent))
  && (installPresent || negb (readyPresent || revokePresent)) && (readyPresent || negb revokePresent)
  && fits2 challengePresent (rtChallenge e) (Some tt) (fun c _ => challengeFits plan t c)
  && fits2 installPresent (rtChallenge e) (rtInstall e) (installFits plan t)
  && fits2 readyPresent (rtInstall e) (rtReady e) (readyFits plan t)
  && fits2 revokePresent (rtReady e) (rtRevoke e) (revokeFits plan t)
  && match rtState e with
     | RotationTargetPending => negb (challengePresent || installPresent || readyPresent || revokePresent)
     | RotationTargetChallenged => challengePresent && negb (installPresent || readyPresent || revokePresent)
     | RotationTargetInstalled => installPresent && negb (readyPresent || revokePresent)
     | RotationTargetReady => readyPresent && negb revokePresent
     | RotationTargetRevoking | RotationTargetRevoked => revokePresent
     | RotationTargetFailed => true
     end.

Fixpoint resumeTargetsOk (c : Coordinator) (seen : gset gostring) (l : list RotationResumeTarget) : bool :=
  match l with
  | [] => true
  | e :: l =>
      let id := tConnectorID (rtTarget e) in
      negb (bool_decide (id ∈ seen))
      && match cTargets c !! id with Some s => bool_decide (sTarget s = rtTarget e) | None => false end
      && validateRotationResumeTarget (cPlan c) e && resumeTargetsOk c ({[id]} ∪ seen) l
  end.
Definition recovered (e : RotationResumeTarget) (s : TargetState) : TargetState :=
  mkTargetState (sTarget s) (rtState e) (rtCode e) (rtChallenge e) (rtProof e) (rtInstall e) (rtReady e) (rtRevoke e).
Definition recoverTarget (c : Coordinator) (e : RotationResumeTarget) : Coordinator :=
  match cTargets c !! tConnectorID (rtTarget e) with
  | Some s => setTarget (recovered e s) c
  | None => c
  end.
Definition recoveryMismatch : Error := codeError CodeIdentityMismatch (Some ReasonCredentialRotation) false.

(** [Resume], with what the store loaded. *)
Definition Resume (canceled : bool) (now : Z) (loaded : option RotationResume) (c : Coordinator) : Coordinator * option Error :=
  if canceled then (c, Some Server.canceledError)
  else match loaded with
  | None => (c, Some (rotationFailed true))
  | Some l =>
      let p := rePlan l in let q := cPlan c in
      if negb (reStarted l) || negb (bool_decide (pAccountID p = pAccountID q)) || negb (bool_decide (pTunnelID p = pTunnelID q))
         || negb (bool_decide (pOperationID p = pOperationID q)) || negb (bool_decide (pTargetSetHash p = pTargetSetHash q))
         || bool_decide (plan_Validate p <> None)
      then (c, Some recoveryMismatch)
      else if cStarted c then (c, None)
      else if negb (len (reTargets l) =? Z.of_nat (size (cTargets c))) || negb (resumeTargetsOk c ∅ (reTargets l))
      then (c, Some recoveryMismatch)
      else
        let failed := existsb (fun e => bool_decide (rtState e = RotationTargetFailed)) (reTargets l) in
        let allRevoked := forallb (fun e => bool_decide (rtState e = RotationTargetRevoked)) (reTargets l) in
        if negb (isZero (reFinishedAt l)) && (negb failed && negb allRevoked || (now + MaxClockSkew <? reFinishedAt l))
        then (c, Some recoveryMismatch)
        else (((fold_left recoverTarget (reTargets l) c) <| cStarted := true |>) <| cFinished := reFinishedAt l |>, None)
  end.

(** ** The calls *)
Definition boundFor (plan : RotationPlan) (t : RotationTarget) (sessionID : gostring) (generation : Z) : Bound :=
  mkBound (pAccountID plan) (pTunnelID plan) (pOperationID plan) (tConnectorID t) (tHostID t) sessionID generation
    (pTargetSetHash plan) (tOldGeneration t) (tNewGeneration t).

Definition ChallengeWithCredentialExpiry (canceled : bool) (now : Z) (connectorID sessionID : gostring) (generation : Z)
    (oldKeyID oldThumbprint nonce : gostring) (issuedAt expiresAt overlapUntil validUntil : Z)
    (authorize : CredentialRotationChallenge -> option Error) (w : RWorld)
    : RWorld * result Error CredentialRotationChallenge :=
  let c := w.2 in
  if canceled then (w, Err Server.canceledError)
  else if negb (cStarted c) then (w, Err ErrInvalidInput)
  else match cTargets c !! connectorID with
  | None => (w, Err identityMismatch)
  | Some s =>
      if negb (bool_decide (sState s = RotationTargetPending))
         && (negb (bool_decide (sState s = RotationTargetChallenged))
             || match sChallenge s with Some k => isZero (chExpiresAt k) || (now <? chExpiresAt k) | None => true end)
      then (w, Err (codeError CodeSessionConflict (Some ReasonStaleGeneration) true))
      else
        let challenge := mkChallenge (boundFor (cPlan c) (sTarget s) sessionID generation) (sTarget s) oldKeyID oldThumbprint
                           nonce issuedAt expiresAt overlapUntil validUntil in
        match challenge_Validate now challenge with
        | Some e => (w, Err e)
        | None =>
            match authorize challenge with
            | Some e => (w, Err e)
            | None =>
                match RecordCredentialRotationChallenge challenge w.1 with
                | (m, false) => ((m, c), Err (rotationFailed false))
                | (m, true) =>
                    ((m, setTarget ((s <| sChallenge := Some challenge |>) <| sState := RotationTargetChallenged |>) c),
                     Ok challenge)
                end
            end
        end
  end.

Definition Challenge (canceled : bool) (now : Z) (connectorID sessionID : gostring) (generation : Z)
    (oldKeyID oldThumbprint nonce : gostring) (issuedAt expiresAt overlapUntil : Z)
    (authorize : CredentialRotationChallenge -> option Error) (w : RWorld) : RWorld * result Error CredentialRotationChallenge :=
  ChallengeWithCredentialExpiry canceled now connectorID sessionID generation oldKeyID oldThumbprint nonce issuedAt expiresAt
    overlapUntil (overlapUntil + 365 * 24 * 60 * Minute) authorize w.

Definition rotationProofMatchesChallenge (p : CredentialRotationProof) (c : CredentialRotationChallenge) (t : RotationTarget) : bool :=
  let o := pfBound p in let q := chBound c in
  bool_decide (oAccountID o = oAccountID q) && bool_decide (oTunnelID o = oTunnelID q)
  && bool_decide (oOperationID o = oOperationID q) && bool_decide (oConnectorID o = oConnectorID q)
  && bool_decide (oHostID o = oHostID q) && bool_decide (oSessionID o = oSessionID q)
  && (oProcessGeneration o =? oProcessGeneration q) && bool_decide (oTargetSetHash o = oTargetSetHash q)
  && generations t o && bool_decide (pfOldKeyID p = chOldKeyID c) && bool_decide (pfOldThumbprint p = chOldThumbprint c)
  && bool_decide (pfNonce p = chNonce c) && (pfValidUntil p =? chValidUntil c)
  && (chIssuedAt c <=? pfIssuedAt p) && (pfIssuedAt p <=? chExpiresAt c).
Definition rotationAckForInstall (i : CredentialRotationInstall) : CredentialRotationAck :=
  mkRotationAck (inBound i) RotationAckInstalled None [].

Definition AcceptProof (canceled : bool) (now : Z) (verifyOld : list byte -> list byte -> bool) (p : CredentialRotationProof)
    (w : RWorld) : RWorld * result Error (CredentialRotationInstall * CredentialRotationAck) :=
  let c := w.2 in
  if canceled then (w, Err Server.canceledError)
  else match proof_Validate now p with
  | Some e => (w, Err e)
  | None =>
      match cTargets c !! oConnectorID (pfBound p) with
      | None => (w, Err staleGeneration)
      | Some s =>
          match sState s, sChallenge s with
          | RotationTargetChallenged, Some challenge =>
              if negb (rotationProofMatchesChallenge p challenge (sTarget s)) then (w, Err identityMismatch)
              else match VerifyCredentialRotationProofAt now p verifyOld with
              | Some e => (w, Err e)
              | None =>
                  let o := pfBound p in
                  let install := mkInstall (mkBound (pAccountID (cPlan c)) (pTunnelID (cPlan c)) (pOperationID (cPlan c))
                                             (oConnectorID o) (oHostID o) (oSessionID o) (oProcessGeneration o)
                                             (pTargetSetHash (cPlan c)) (oOldGeneration o) (oNewGeneration o))
                                   (pfKey p) (pfNonce p) (chOverlapUntil challenge) (pfValidUntil p)
                                   (oProcessGeneration o +64 1) in
                  match install_Validate now install with
                  | Some e => (w, Err e)
                  | None =>
                      match RecordCredentialRotationProof p install w.1 with
                      | (m, false) => ((m, setTarget (failTarget CodeCredentialRotationFailed s) c), Err (rotationFailed false))
                      | (m, true) =>
                          ((m, setTarget (((s <| sProof := Some p |>) <| sInstall := Some install |>)
                                            <| sState := RotationTargetInstalled |>) c),
                           Ok (install, rotationAckForInstall install))
                      end
                  end
              end
          | RotationTargetChallenged, None => (w, Err identityMismatch)
          | _, _ => (w, Err staleGeneration)
          end
      end
  end.

Definition rotationRejectedAck (r : CredentialRotationReady) (code : Code) : CredentialRotationAck :=
  mkRotationAck (rdBound r) RotationAckRejected (Some code) [].
(** The answer and the error of a call that may return both. *)
Abbreviation Answer A := (option A * option Error)%type.

(** [located]: the two [time.Time] values that the code compares with [!=] agree in their
    locations too. *)
Definition MarkReady (canceled located : bool) (now : Z) (r : CredentialRotationReady) (w : RWorld)
    : RWorld * Answer CredentialRotationAck :=
  let c := w.2 in
  if canceled then (w, (None, Some Server.canceledError))
  else match ready_Validate now r with
  | Some e => (w, (Some (rotationRejectedAck r CodeCredentialRotationNotReady), Some e))
  | None =>
      match cTargets c !! oConnectorID (rdBound r) with
      | None => (w, (None, Some staleGeneration))
      | Some s =>
          match sState s, sInstall s with
          | RotationTargetInstalled, Some i =>
              let o := rdBound r in let q := inBound i in
              if negb (bool_decide (oAccountID o = pAccountID (cPlan c)) && bool_decide (oTunnelID o = pTunnelID (cPlan c))
                       && bool_decide (oOperationID o = pOperationID (cPlan c)) && bool_decide (oConnectorID o = oConnectorID q)
                       && bool_decide (oHostID o = oHostID q) && bool_decide (oTargetSetHash o = pTargetSetHash (cPlan c))
                       && (oOldGeneration o =? oOldGeneration q) && (oNewGeneration o =? oNewGeneration q) && replaces i r
                       && located)
              then (w, (None, Some identityMismatch))
              else match RecordCredentialRotationReady r w.1 with
              | (m, false) =>
                  ((m, setTarget (failTarget CodeCredentialRotationFailed s) c), (None, Some (rotationFailed false)))
              | (m, true) =>
                  ((m, setTarget ((s <| sReady := Some r |>) <| sState := RotationTargetReady |>) c),
                   (Some (mkRotationAck (rdBound r) RotationAckReady None []), None))
              end
          | RotationTargetInstalled, None => (w, (None, Some identityMismatch))
          | _, _ => (w, (None, Some staleGeneration))
          end
      end
  end.

(** [newOpaqueID], with the random bytes. *)
Definition newOpaqueID (prefix : gostring) (random : list byte) : gostring := prefix ++ [x5f] ++ hexEncode random.

(** Without random bytes the call fails, and so does a target that is ready without its message,
    which [revoke_Validate] would refuse. *)
Definition Revoke (canceled : bool) (now : Z) (random : option (list byte)) (connectorID : gostring) (w : RWorld)
    : RWorld * result Error CredentialRotationRevoke :=
  let c := w.2 in
  if canceled then (w, Err Server.canceledError)
  else match cTargets c !! connectorID with
  | None => (w, Err identityMismatch)
  | Some s =>
      if bool_decide (suStatus (summary c) = RotationAggregateFailed) then (w, Err (rotationFailed false))
      else if negb (allReady c) then (w, Err (codeError CodeCredentialRotationNotReady (Some ReasonSnapshotRejected) true))
      else match sState s, sRevoke s, sReady s, random with
      | RotationTargetRevoking, Some v, _, _ => (w, Ok v)
      | RotationTargetReady, _, Some r, Some random =>
          let v := mkRevoke (boundFor (cPlan c) (sTarget s) (oSessionID (rdBound r)) (oProcessGeneration (rdBound r)))
                     (newOpaqueID (bytes "rotation-revoke") random) now (now + DefaultAbortTimeout) in
          match revoke_Validate now v with
          | Some e => (w, Err e)
          | None =>
              match RecordCredentialRotationRevoke v w.1 with
              | (m, false) => ((m, setTarget (failTarget CodeCredentialRotationFailed s) c), Err (rotationFailed false))
              | (m, true) => ((m, setTarget ((s <| sRevoke := Some v |>) <| sState := RotationTargetRevoking |>) c), Ok v)
              end
          end
      | RotationTargetReady, _, _, _ => (w, Err ErrInvalidInput)
      | _, _, _, _ => (w, Err staleGeneration)
      end
  end.

(** The session of the phase that a target is in. *)
Definition phaseSession (s : TargetState) : option (gostring * Z) :=
  let of_ {A} (f : A -> Bound) (x : option A) := a ← x; Some (oSessionID (f a), oProcessGeneration (f a)) in
  match sState s with
  | RotationTargetChallenged | RotationTargetInstalled => of_ chBound (sChallenge s)
  | RotationTargetReady => of_ rdBound (sReady s)
  | RotationTargetRevoking => of_ rvBound (sRevoke s)
  | _ => None
  end.
Definition fromSession (o : Bound) (x : option (gostring * Z)) : bool :=
  match x with
  | Some (sessionID, generation) => bool_decide (oSessionID o = sessionID) && (oProcessGeneration o =? generation)
  | None => false
  end.
Definition rotationNegativeAckMatches (s : TargetState) (a : CredentialRotationAck) : bool :=
  match phaseSession s with
  | Some (sessionID, generation) => negb (empty sessionID) && (0 <? generation) && fromSession (raBound a) (Some (sessionID, generation))
  | None => false
  end.

(** A target that has failed is recorded, or stays as it was. *)
Definition recordFailure (ack : CredentialRotationAck) (s : TargetState) (code : Code) (w : RWorld)
    : RWorld * Answer RotationSummary :=
  let c := setTarget (failTarget code s) w.2 in
  match RecordCredentialRotationResult ack (summary c) w.1 with
  | (m, false) => ((m, w.2), (Some (summary w.2), Some (rotationFailed false)))
  | (m, true) => ((m, c), (Some (summary c), Some (rotationFailed false)))
  end.

Definition HandleAck (canceled : bool) (now : Z) (a : CredentialRotationAck) (w : RWorld) : RWorld * Answer RotationSummary :=
  let c := w.2 in let o := raBound a in
  if negb (rotationAck_valid a) then (w, (None, Some ErrInvalidInput))
  else if canceled then (w, (None, Some Server.canceledError))
  else match cTargets c !! oConnectorID o with
  | None => (w, (None, Some identityMismatch))
  | Some s =>
      if negb (boundTo (cPlan c) (sTarget s) o && generations (sTarget s) o) then (w, (None, Some identityMismatch))
      else
        let stale := (w, (None, Some staleGeneration)) in
        match sState s, raStatus a with
        | RotationTargetRevoked, _ | RotationTargetFailed, _ => (w, (Some (summary c), Some staleGeneration))
        | _, RotationAckRejected | _, RotationAckFailed =>
            match raCode a with
            | Some code =>
                if negb (rotationNegativeAckMatches s a) then (w, (None, Some identityMismatch)) else recordFailure a s code w
            | None => (w, (None, Some ErrInvalidInput))
            end
        | RotationTargetInstalled, RotationAckInstalled =>
            if fromSession o (i ← sInstall s; Some (oSessionID (inBound i), oProcessGeneration (inBound i)))
            then (w, (Some (summary c), None)) else stale
        | RotationTargetReady, RotationAckReady =>
            if fromSession o (phaseSession s) then (w, (Some (summary c), None)) else stale
        | RotationTargetRevoking, RotationAckRevoked =>
            if negb (fromSession o (phaseSession s)) then stale
            else
              let c := setTarget (s <| sState := RotationTargetRevoked |>) c in
              let c := if bool_decide (suStatus (summary c) = RotationAggregateSucceeded) then c <| cFinished := now |> else c in
              match RecordCredentialRotationResult a (summary c) w.1 with
              | (m, false) =>
                  let c := setTarget (failTarget CodeCredentialRotationFailed s) c in
                  ((m, c), (Some (summary c), Some (rotationFailed false)))
              | (m, true) => ((m, c), (Some (summary c), None))
              end
        | _, _ => stale
        end
  end.

Definition failureAck (c : Coordinator) (s : TargetState) (code : Code) : CredentialRotationAck :=
  let '(sessionID, generation) :=
    match sRevoke s, sReady s, sChallenge s with
    | Some v, _, _ => (oSessionID (rvBound v), oProcessGeneration (rvBound v))
    | None, Some r, _ => (oSessionID (rdBound r), oProcessGeneration (rdBound r))
    | None, None, Some k => (oSessionID (chBound k), oProcessGeneration (chBound k))
    | None, None, None => ([], 0)
    end in
  mkRotationAck (boundFor (cPlan c) (sTarget s) sessionID generation) RotationAckFailed (Some code) [].
Definition Fail (connectorID : gostring) (code : Code) (w : RWorld) : RWorld * Answer RotationSummary :=
  let c := w.2 in
  match cTargets c !! connectorID with
  | None => (w, (None, Some identityMismatch))
  | Some s =>
      match sState s with
      | RotationTargetRevoked => (w, (Some (summary c), Some staleGeneration))
      | RotationTargetFailed => (w, (Some (summary c), Some (rotationFailed false)))
      | _ => recordFailure (failureAck c s code) s code w
      end
  end.
End coordinator.
