(* ===== verification/RotationLife.v ===== *)
(** * Credential rotation: runs and recovery

    What the store and the coordinator keep over every run, and that a coordinator that resumes
    from its store is the one that was lost, as long as no result was recorded. *)
From S2P Require Import Prelude.
From S2P Require Import TransferCodec.
From S2P Require Import UpdateGate.
From S2P Require Import Connector.
From S2P Require Import ConnectorServer.
From S2P Require Import Rotation.
From S2P Require Import RotationCoordinator.
Set Warnings "-clear-no-such-hyp".

Create HintDb rotation.

(** Booleans that were checked, as equations. *)
Ltac checked :=
  repeat match goal with
    | H : _ && _ = true |- _ => apply andb_true_iff in H as [? ?]
    | H : negb _ = false |- _ => apply negb_false_iff in H
    | H : bool_decide _ = true |- _ => apply bool_decide_eq_true in H
    | H : (_ =? _) = true |- _ => apply Z.eqb_eq in H
    end.

(** ** What is loaded *)
Section load.
Context (plan : RotationPlan) (t : RotationTarget).

(** The last record of the target. *)
Definition latest {A} (f : A -> Bound) (l : list A) : option A := last (filter (fun a => forTarget plan t (f a) = true) l).
Definition paired (m : MemoryRotationPersistence) : list (CredentialRotationProof * option CredentialRotationInstall) :=
  imap (fun i p => (p, Installs m !! i)) (Proofs m).

Lemma latest_in {A} (f : A -> Bound) l a : latest f l = Some a -> a ∈ l /\ forTarget plan t (f a) = true.
Proof. intros Ha%last_Some_elem_of. apply list_elem_of_filter in Ha as [? ?]. done. Qed.
Lemma latest_snoc {A} (f : A -> Bound) l a :
  latest f (l ++ [a]) = if forTarget plan t (f a) then Some a else latest f l.
Proof.
  unfold latest. rewrite filter_app, filter_cons, filter_nil. destruct (decide _) as [Hf|Hf].
  - by rewrite Hf, last_snoc.
  - apply not_true_is_false in Hf. by rewrite Hf, app_nil_r.
Qed.

(** A fold that overwrites is the last step of it. *)
Lemma fold_latest {A} (f : A -> Bound) (upd : RotationResumeTarget -> A -> RotationResumeTarget) step l e :
  (forall e a, a ∈ l -> step e a = if forTarget plan (rtTarget e) (f a) then upd e a else e) ->
  (forall e a, rtTarget (upd e a) = rtTarget e) -> (forall e a b, upd (upd e a) b = upd e b) -> rtTarget e = t ->
  fold_left step l e = match latest f l with Some a => upd e a | None => e end.
Proof.
  intros Hs Ht Hu He. induction l as [|a l IH] using rev_ind; [done|]. rewrite fold_left_app, latest_snoc. simpl.
  rewrite IH by (intros; apply Hs; set_solver). rewrite Hs by set_solver. assert (Hx : rtTarget (match latest f l with Some a0 => upd e a0 | None => e end) = t).
  { destruct (latest f l); [|done]. by rewrite Ht. }
  rewrite Hx. destruct (forTarget plan t (f a)); [|done]. by destruct (latest f l).
Qed.

(** All but the state and the code. *)
Definition records (e : RotationResumeTarget) :=
  (rtTarget e, (rtOverlapUntil e, rtValidUntil e), rtChallenge e, rtProof e, rtInstall e, rtReady e, rtRevoke e).
Lemma loadResult_records l e : records (fold_left loadResult l e) = records e.
Proof.
  revert e. induction l as [|x l IH]; intros e; [done|]. simpl. rewrite IH. unfold loadResult. by destruct (bool_decide _).
Qed.
Lemma loadResults_records results e : records (fold_left (loadResults plan) results e) = records e.
Proof.
  revert e. induction results as [|s l IH]; intros e; [done|]. simpl. rewrite IH. unfold loadResults.
  destruct (bool_decide _); [|done]. apply loadResult_records.
Qed.

Definition entry (k : option CredentialRotationChallenge) (x : option (CredentialRotationProof * option CredentialRotationInstall))
    (r : option CredentialRotationReady) (v : option CredentialRotationRevoke) : RotationResumeTarget :=
  mkResumeTarget t
    (match v, r, x, k with
     | Some _, _, _, _ => RotationTargetRevoking
     | None, Some _, _, _ => RotationTargetReady
     | None, None, Some _, _ => RotationTargetInstalled
     | None, None, None, Some _ => RotationTargetChallenged
     | None, None, None, None => RotationTargetPending
     end) None
    (match k with Some k => chOverlapUntil k | None => zeroTime end) (match k with Some k => chValidUntil k | None => zeroTime end)
    k (fst <$> x) (x ≫= snd) r v.
Definition loaded (m : MemoryRotationPersistence) : RotationResumeTarget :=
  entry (latest chBound (Challenges m)) (latest (fun x => pfBound x.1) (paired m)) (latest rdBound (Readiness m))
    (latest rvBound (Revocations m)).
End load.


Section loads.
Context (plan : RotationPlan) (m : MemoryRotationPersistence).
(** Every proof has its install. *)
Context (Hpairs : length (Proofs m) = length (Installs m)).

Lemma paired_some x : x ∈ paired m -> exists j p i, x = (p, Some i) /\ Proofs m !! j = Some p /\ Installs m !! j = Some i.
Proof.
  intros [j Hj]%list_elem_of_lookup. unfold paired in Hj. rewrite list_lookup_imap in Hj.
  destruct (Proofs m !! j) as [p|] eqn:Hp; [|done]. simpl in Hj. injection Hj as <-.
  destruct (lookup_lt_is_Some_2 (Installs m) j) as [i Hi]; [rewrite <- Hpairs; by eapply lookup_lt_Some|].
  exists j, p, i. by rewrite Hi.
Qed.

(** What is loaded before the revocations. *)
Lemma loadTarget_split t : loadTarget plan m t
  = fold_left (loadRevoke plan (Results m)) (Revocations m)
      (entry t (latest plan t chBound (Challenges m)) (latest plan t (fun x => pfBound x.1) (paired m))
         (latest plan t rdBound (Readiness m)) None).
Proof.
  unfold loadTarget. fold (paired m). f_equal.
  rewrite (fold_latest plan t chBound (fun e c => (((e <| rtChallenge := Some c |>) <| rtOverlapUntil := chOverlapUntil c |>)
    <| rtValidUntil := chValidUntil c |>) <| rtState := RotationTargetChallenged |>)) by done.
  rewrite (fold_latest plan t (fun x => pfBound x.1) (fun e x => ((e <| rtProof := Some x.1 |>) <| rtInstall := x.2 |>)
    <| rtState := RotationTargetInstalled |>)); [|..|by destruct (latest plan t chBound _)]; try done.
  2: { intros e a (j & p & i & -> & _)%paired_some. done. }
  rewrite (fold_latest plan t rdBound (fun e r => (e <| rtReady := Some r |>) <| rtState := RotationTargetReady |>));
    [|..|by repeat destruct (latest _ _ _ _)]; try done.
  unfold entry. by repeat destruct (latest _ _ _ _).
Qed.

Lemma load_exact t : Results m = [] -> loadTarget plan m t = loaded plan t m.
Proof.
  intros Hr. rewrite loadTarget_split, Hr.
  rewrite (fold_latest plan t rvBound (fun e v => (e <| rtRevoke := Some v |>) <| rtState := RotationTargetRevoking |>)) by done.
  unfold loaded, entry. by destruct (latest plan t rvBound _).
Qed.

Lemma load_fields t : let e := loadTarget plan m t in rtTarget e = t
  /\ rtChallenge e = latest plan t chBound (Challenges m) /\ rtInstall e = latest plan t (fun x => pfBound x.1) (paired m) ≫= snd
  /\ rtReady e = latest plan t rdBound (Readiness m) /\ rtRevoke e = latest plan t rvBound (Revocations m).
Proof.
  rewrite loadTarget_split. generalize (latest plan t chBound (Challenges m)), (latest plan t (fun x => pfBound x.1) (paired m)),
    (latest plan t rdBound (Readiness m)). intros k x r. cbv zeta.
  induction (Revocations m) as [|v l IH] using rev_ind; [done|]. rewrite fold_left_app, latest_snoc. cbn [fold_left].
  destruct IH as (H1 & H2 & H3 & H4 & H5). unfold loadRevoke at 1 3 5 7 9. rewrite H1.
  destruct (forTarget plan t (rvBound v)); [|done].
  set (e := fold_left _ l _) in *.
  pose proof (loadResults_records plan (Results m) ((e <| rtRevoke := Some v |>) <| rtState := RotationTargetRevoking |>)) as Hx.
  unfold records in Hx. set (e' := fold_left (loadResults plan) _ _) in *. injection Hx as G1 _ _ G2 _ G3 G4 G5.
  rewrite G1, G2, G3, G4, G5. done.
Qed.
End loads.

(** Connectors of a plan differ. *)
Lemma targetsOk_unique l previous seen : targetsOk previous seen l = true ->
  (forall t, t ∈ l -> tConnectorID t ∉ seen)
  /\ forall t u, t ∈ l -> u ∈ l -> tConnectorID t = tConnectorID u -> t = u.
Proof.
  revert previous seen. induction l as [|x l IH]; intros previous seen; [split; set_solver|]. cbn [targetsOk]. intros Ho.
  apply andb_true_iff in Ho as [Ho Hl]. apply andb_true_iff in Ho as [_ Hx]. apply negb_true_iff, bool_decide_eq_false in Hx.
  destruct (IH _ _ Hl) as [H1 H2]. split.
  - intros t. rewrite elem_of_cons. intros [->|Ht]; [done|]. specialize (H1 t Ht). set_solver.
  - intros t u. rewrite !elem_of_cons. intros [->|Ht] [->|Hu] He; try done; [| |by apply H2].
    + specialize (H1 u Hu). set_solver.
    + specialize (H1 t Ht). set_solver.
Qed.

(** The targets of a new coordinator. *)
Lemma pending_targets (l : list RotationTarget) (base : gmap gostring TargetState) : let m := fold_left (fun m t => <[tConnectorID t := pendingTarget t]> m) l base in
  (forall id s, m !! id = Some s -> base !! id = Some s \/ exists t, t ∈ l /\ tConnectorID t = id /\ s = pendingTarget t)
  /\ (forall id, is_Some (base !! id) -> is_Some (m !! id)) /\ forall t, t ∈ l -> is_Some (m !! tConnectorID t).
Proof.
  revert base. induction l as [|x l IH]; intros base; [split_and!; [by left|done|set_solver]|]. cbn [fold_left].
  destruct (IH (<[tConnectorID x := pendingTarget x]> base)) as (H1 & H2 & H3). split_and!.
  - intros id s Hs. destruct (H1 id s Hs) as [Hx|(t & ? & ?)]; [|right; exists t; set_solver].
    rewrite lookup_insert_Some in Hx. destruct Hx as [[<- <-]|[_ Hx]]; [right; exists x; set_solver|by left].
  - intros id Hid. apply H2. rewrite lookup_insert_is_Some. destruct (decide (tConnectorID x = id)); auto.
  - intros t. rewrite elem_of_cons. intros [->|Ht]; [apply H2; rewrite lookup_insert_eq; eauto|auto].
Qed.

(** ** Runs *)
Section runs.
Context `{RotationEnv} (plan : RotationPlan) (verifyOld : CredentialRotationProof -> list byte -> list byte -> bool).

(** A call of the coordinator. *)
Inductive rcall : RWorld -> RWorld -> Prop :=
| rc_start b w : rcall w (Start b w).1
| rc_challenge b now id sid g k1 k2 n t1 t2 t3 t4 auth w :
    rcall w (ChallengeWithCredentialExpiry b now id sid g k1 k2 n t1 t2 t3 t4 auth w).1
| rc_proof b now p w : rcall w (AcceptProof b now (verifyOld p) p w).1
| rc_ready b z now r w : rcall w (MarkReady b z now r w).1
| rc_revoke b now random id w : rcall w (Revoke b now random id w).1
| rc_ack b now a w : rcall w (HandleAck b now a w).1
| rc_fail id code w : rcall w (Fail id code w).1.

(** Calls of the store begin or cease to fail; the coordinator is lost and made again; it
    resumes from the store. *)
Inductive rstep : RWorld -> RWorld -> Prop :=
| r_call w w' : rcall w w' -> rstep w w'
| r_store b m c : rstep (m, c) (m <| Failure := b |>, c)
| r_restart m c c' : NewRotationCoordinator plan = Some c' -> rstep (m, c) (m, c')
| r_resume b now m c : rstep (m, c) (m, (Resume b now (LoadCredentialRotation plan m) c).1).

(** ** What the store holds *)

(** A proof that was verified answers a challenge of the target; its key is installed. *)
Record linked (m : MemoryRotationPersistence) (p : CredentialRotationProof) (i : CredentialRotationInstall) (t : RotationTarget) : Prop := {
  lk_target : t ∈ pTargets plan;
  lk_challenge : exists k, k ∈ Challenges m /\ challengeFits plan t k = true /\ rotationProofMatchesChallenge p k t = true;
  lk_verified : exists now, VerifyCredentialRotationProofAt now p (verifyOld p) = None;
  lk_bound : inBound i = pfBound p;
  lk_key : inKey i = pfKey p }.

(** A later session of the connector is ready with the key that was installed. *)
Record readied (m : MemoryRotationPersistence) (t : RotationTarget) (r : CredentialRotationReady) : Prop := {
  ry_in : r ∈ Readiness m;
  ry_bound : boundTo plan t (rdBound r) = true;
  ry_generations : generations t (rdBound r) = true;
  ry_usable : rdEdge r && rdRoute r && rdOrigin r = true;
  ry_install : exists j p i, Proofs m !! j = Some p /\ Installs m !! j = Some i /\ linked m p i t /\ replaces i r = true }.

Definition revoked (m : MemoryRotationPersistence) (t : RotationTarget) (v : CredentialRotationRevoke) : Prop :=
  v ∈ Revocations m /\ boundTo plan t (rvBound v) = true.

(** What [m] holds rests on what [m'] holds. *)
Record held (m m' : MemoryRotationPersistence) : Prop := {
  si_pairs : length (Proofs m) = length (Installs m);
  si_linked : forall j p i, Proofs m !! j = Some p -> Installs m !! j = Some i -> exists t, linked m' p i t;
  si_ready : forall r, r ∈ Readiness m -> exists t, t ∈ pTargets plan /\ readied m' t r;
  si_revoke : forall v, v ∈ Revocations m -> (exists t, t ∈ pTargets plan /\ revoked m' t v)
    /\ forall t, t ∈ pTargets plan -> exists r, readied m' t r;
  si_result : forall s, s ∈ Results m -> suStatus s = RotationAggregateSucceeded ->
    forall t, t ∈ pTargets plan -> exists v, revoked m' t v }.
Definition SInv (m : MemoryRotationPersistence) : Prop := held m m.

(** What the store has of the phase of a target. *)
Definition phaseOk (m : MemoryRotationPersistence) (s : TargetState) : Prop :=
  let t := sTarget s in
  let readyOk := exists r, sReady s = Some r /\ readied m t r in
  let revokeOk := exists v, sRevoke s = Some v /\ revoked m t v in
  match sState s with
  | RotationTargetPending | RotationTargetFailed => True
  | RotationTargetChallenged => exists k, sChallenge s = Some k /\ k ∈ Challenges m /\ challengeFits plan t k = true
  | RotationTargetInstalled =>
      exists j p i, sInstall s = Some i /\ Proofs m !! j = Some p /\ Installs m !! j = Some i /\ linked m p i t
  | RotationTargetReady => readyOk
  | RotationTargetRevoking | RotationTargetRevoked => readyOk /\ revokeOk
  end.

Record CInv (m : MemoryRotationPersistence) (c : Coordinator) : Prop := {
  cv_plan : cPlan c = plan;
  cv_target : forall id s, cTargets c !! id = Some s -> tConnectorID (sTarget s) = id /\ sTarget s ∈ pTargets plan /\ phaseOk m s;
  cv_all : forall t, t ∈ pTargets plan -> exists s, cTargets c !! tConnectorID t = Some s }.

(** The store only grows. *)
Record grows (m m' : MemoryRotationPersistence) : Prop := {
  gr_challenges : Challenges m ⊆ Challenges m'; gr_proofs : Proofs m `prefix_of` Proofs m';
  gr_installs : Installs m `prefix_of` Installs m'; gr_ready : Readiness m ⊆ Readiness m';
  gr_revoke : Revocations m ⊆ Revocations m' }.

Lemma linked_grows m m' p i t : grows m m' -> linked m p i t -> linked m' p i t.
Proof. intros Hg [H1 (k & H2 & H3) H4 H5 H6]. split; try done. exists k. split; [by apply Hg|done]. Qed.
Lemma readied_grows m m' t r : grows m m' -> readied m t r -> readied m' t r.
Proof.
  intros Hg [H1 H2 H3 H4 (j & p & i & H5 & H6 & H7 & H8)]. split; try done; [by apply Hg|].
  exists j, p, i. split_and!; [by eapply prefix_lookup_Some; [|apply Hg]..|by eapply linked_grows|done].
Qed.
Lemma revoked_grows m m' t v : grows m m' -> revoked m t v -> revoked m' t v.
Proof. intros Hg [H1 H2]. split; [by apply Hg|done]. Qed.
Hint Resolve linked_grows readied_grows revoked_grows : rotation.

Lemma phaseOk_grows m m' s : grows m m' -> phaseOk m s -> phaseOk m' s.
Proof.
  intros Hg. unfold phaseOk. destruct (sState s); try done.
  - intros (k & ? & ? & ?). exists k. split_and!; [done|by apply Hg|done].
  - intros (j & p & i & ? & ? & ? & ?). exists j, p, i.
    split_and!; [done|by eapply prefix_lookup_Some; [|apply Hg]..|by eapply linked_grows].
  - intros (r & ? & ?). eauto with rotation.
  - intros [(r & ? & ?) (v & ? & ?)]. eauto 10 with rotation.
  - intros [(r & ? & ?) (v & ? & ?)]. eauto 10 with rotation.
Qed.
Lemma CInv_grows m m' c : grows m m' -> CInv m c -> CInv m' c.
Proof.
  intros Hg [H1 H2 H3]. split; try done. intros id s Hs. destruct (H2 id s Hs) as (? & ? & ?). split_and!; [done..|].
  by eapply phaseOk_grows.
Qed.

Lemma grows_refl m : grows m m.
Proof. done. Qed.
Lemma CInv_set m c id s s' : CInv m c -> cTargets c !! id = Some s -> sTarget s' = sTarget s -> phaseOk m s' -> CInv m (setTarget s' c).
Proof.
  intros [H1 H2 H3] Hs Ht Hp. destruct (H2 id s Hs) as (Hid & Hin & _). split; simpl; [done|..].
  - intros id' x. rewrite lookup_insert_Some. rewrite Ht. intros [[<- <-]|[_ Hx]]; [by rewrite Ht|by apply H2].
  - intros t Hx. destruct (decide (tConnectorID t = tConnectorID (sTarget s'))) as [->|Hne]; [rewrite lookup_insert_eq; eauto|].
    rewrite lookup_insert_ne by done. auto.
Qed.
Lemma CInv_same m c c' : CInv m c -> cPlan c' = cPlan c -> cTargets c' = cTargets c -> CInv m c'.
Proof. intros [H1 H2 H3] Hp Ht. split; rewrite ?Hp, ?Ht; done. Qed.
Lemma phaseOk_fail m code s : phaseOk m (failTarget code s).
Proof. done. Qed.

(** ** The calls of the store *)
Definition WInv (w : RWorld) : Prop := SInv w.1 /\ CInv w.1 w.2.

Lemma held_grows m m' : grows m m' -> SInv m -> held m m'.
Proof.
  intros Hg [H1 H2 H3 H4 H5]. split; [done|..].
  - intros j p i Hp Hi. destruct (H2 j p i Hp Hi). eauto with rotation.
  - intros r Hr. destruct (H3 r Hr) as (t & ? & ?). eauto with rotation.
  - intros v Hv. destruct (H4 v Hv) as [(t & ? & ?) Hx]. split; [eauto with rotation|]. intros t' Ht'.
    destruct (Hx t' Ht'). eauto with rotation.
  - intros s Hs Hst t Ht. destruct (H5 s Hs Hst t Ht). eauto with rotation.
Qed.

(** A record of each kind. *)
Lemma SInv_challenge m k : SInv m -> SInv (m <| Challenges := Challenges m ++ [k] |>) /\ grows m (m <| Challenges := Challenges m ++ [k] |>).
Proof.
  set (m' := m <| Challenges := _ |>). assert (Hg : grows m m') by (split; try done; set_solver).
  intros Hi. split; [|done]. by destruct (held_grows _ _ Hg Hi); split.
Qed.
Lemma SInv_proof m p i t : SInv m -> linked m p i t ->
  let m' := (m <| Proofs := Proofs m ++ [p] |>) <| Installs := Installs m ++ [i] |> in
  SInv m' /\ grows m m' /\ Proofs m' !! length (Proofs m) = Some p /\ Installs m' !! length (Proofs m) = Some i.
Proof.
  intros Hi Hl m'. assert (Hg : grows m m') by (split; try done; by apply prefix_app_r).
  destruct (held_grows _ _ Hg Hi) as [H1 H2 H3 H4 H5].
  assert (Hp : Proofs m' !! length (Proofs m) = Some p) by (simpl; by rewrite lookup_app_r, Nat.sub_diag by lia).
  assert (Hq : Installs m' !! length (Proofs m) = Some i) by (simpl; by rewrite H1, lookup_app_r, Nat.sub_diag by lia).
  split; [|done]. split; [by simpl; rewrite !length_app, H1| |done..].
  intros j p' i'. simpl. rewrite !lookup_app_Some. intros [Hj|[Hj Hx]] [Hj'|[Hj' Hy]].
  - eauto.
  - apply lookup_lt_Some in Hj. lia.
  - apply lookup_lt_Some in Hj'. lia.
  - apply list_lookup_singleton_Some in Hx as [_ <-], Hy as [_ <-]. eauto with rotation.
Qed.
Lemma SInv_ready m t r : SInv m -> t ∈ pTargets plan ->
  let m' := m <| Readiness := Readiness m ++ [r] |> in readied m' t r -> SInv m' /\ grows m m'.
Proof.
  intros Hi Ht m' Hr. assert (Hg : grows m m') by (split; try done; simpl; set_solver).
  destruct (held_grows _ _ Hg Hi) as [H1 H2 H3 H4 H5]. split; [|done]. split; try done.
  intros r'. simpl. rewrite elem_of_app, list_elem_of_singleton. intros [Hr'|[= ->]]; eauto.
Qed.
Lemma SInv_revoke m t v : SInv m -> t ∈ pTargets plan -> boundTo plan t (rvBound v) = true ->
  (forall u, u ∈ pTargets plan -> exists r, readied m u r) ->
  let m' := m <| Revocations := Revocations m ++ [v] |> in SInv m' /\ grows m m' /\ revoked m' t v.
Proof.
  intros Hi Ht Hb Ha m'. assert (Hg : grows m m') by (split; try done; simpl; set_solver).
  assert (Hv : revoked m' t v) by (split; [simpl; set_solver|done]).
  destruct (held_grows _ _ Hg Hi) as [H1 H2 H3 H4 H5]. split; [|done]. split; try done.
  intros v'. simpl. rewrite elem_of_app, list_elem_of_singleton. intros [Hv'|[= ->]]; [auto|]. split; [eauto|].
  intros u Hu. destruct (Ha u Hu). eauto with rotation.
Qed.
Lemma SInv_result m su : SInv m ->
  (suStatus su = RotationAggregateSucceeded -> forall t, t ∈ pTargets plan -> exists v, revoked m t v) ->
  SInv (m <| Results := Results m ++ [su] |>) /\ grows m (m <| Results := Results m ++ [su] |>).
Proof.
  set (m' := m <| Results := _ |>). assert (Hg : grows m m') by done. intros Hi Hs.
  destruct (held_grows _ _ Hg Hi) as [H1 H2 H3 H4 H5]. split; [|done]. split; try done.
  intros s. simpl. rewrite elem_of_app, list_elem_of_singleton. intros [Hx|[= ->]] Hst t Ht; [eauto|].
  destruct (Hs Hst t Ht). eauto with rotation.
Qed.

(** ** The calls of the coordinator *)
Lemma Start_inv b w : WInv w -> WInv (Start b w).1.
Proof.
  destruct w as [m c]. intros [Hs Hc]. cbn [fst snd] in Hs, Hc. unfold Start, BeginCredentialRotation. cbn [fst snd]. destruct b; [done|].
  destruct (cStarted c); [done|]. destruct (Failure m); [done|]. destruct (findStarted _ m) as [p|].
  - destruct (samePlan p _); [|done]. split; [done|]. by apply (CInv_same _ c).
  - assert (Hg : grows m (m <| Started := Started m ++ [cPlan c] |>)) by done. split.
    + by destruct (held_grows _ _ Hg Hs); split.
    + eapply CInv_grows; [done|]. by apply (CInv_same _ c).
Qed.

Lemma challenge_later now k : challenge_Validate now k = None -> challenge_Validate zeroTime k = None.
Proof. unfold challenge_Validate. repeat case_match; try done. all: unfold isZero in *; rewrite Z.eqb_refl in *; done. Qed.
Lemma install_later now i : install_Validate now i = None -> install_Validate zeroTime i = None.
Proof. unfold install_Validate. repeat case_match; try done. all: unfold isZero in *; rewrite Z.eqb_refl in *; done. Qed.
Lemma revoke_later now v : revoke_Validate now v = None -> revoke_Validate zeroTime v = None.
Proof. unfold revoke_Validate. repeat case_match; try done. all: unfold isZero in *; rewrite Z.eqb_refl in *; done. Qed.
Lemma ready_later now v : ready_Validate now v = None -> ready_Validate zeroTime v = None /\ rdEdge v && rdRoute v && rdOrigin v = true.
Proof.
  unfold ready_Validate. repeat case_match; try done. all: unfold isZero in *; rewrite ?Z.eqb_refl in *; try done.
  all: intros _; split; [done|]; by apply negb_false_iff.
Qed.

Lemma boundFor_to t sid g : boundTo plan t (boundFor plan t sid g) = true /\ generations t (boundFor plan t sid g) = true.
Proof. unfold boundTo, generations, boundFor. simpl. rewrite !bool_decide_true, !Z.eqb_refl by done. done. Qed.

Lemma challenge_inv b now id sid g k1 k2 n t1 t2 t3 t4 auth w : WInv w ->
  WInv (ChallengeWithCredentialExpiry b now id sid g k1 k2 n t1 t2 t3 t4 auth w).1.
Proof.
  destruct w as [m c]. intros [Hs Hc]. cbn [fst snd] in Hs, Hc. unfold ChallengeWithCredentialExpiry, RecordCredentialRotationChallenge. cbn [fst snd].
  destruct b; [done|]. destruct (cStarted c); [|done]. cbn [negb]. destruct (cTargets c !! id) as [s|] eqn:Hid; [|done].
  destruct (negb _ && _); [done|]. destruct (challenge_Validate _ _) eqn:Hv; [done|]. destruct (auth _); [done|].
  destruct (Failure m); [done|]. cbn [fst]. destruct (cv_target _ _ Hc id s Hid) as (_ & Hin & _).
  match goal with |- context [Challenges m ++ [?k]] => destruct (SInv_challenge m k Hs) as [Hs' Hg] end. split; [done|].
  eapply CInv_set; [by eapply CInv_grows|done..|]. unfold phaseOk. eexists. split_and!; [done|cbn; set_solver|].
  unfold challengeFits. rewrite bool_decide_true by (by eapply challenge_later). cbn [chBound chTarget andb sTarget].
  rewrite (cv_plan _ _ Hc). by rewrite (proj1 (boundFor_to _ _ _)), bool_decide_true by done.
Qed.

Lemma matched_bound p k t : challengeFits plan t k = true -> rotationProofMatchesChallenge p k t = true ->
  boundTo plan t (pfBound p) = true /\ generations t (pfBound p) = true
  /\ mkBound (pAccountID plan) (pTunnelID plan) (pOperationID plan) (oConnectorID (pfBound p)) (oHostID (pfBound p))
       (oSessionID (pfBound p)) (oProcessGeneration (pfBound p)) (pTargetSetHash plan) (oOldGeneration (pfBound p))
       (oNewGeneration (pfBound p)) = pfBound p.
Proof.
  unfold challengeFits, rotationProofMatchesChallenge, boundTo. intros Hc Hm. cbv zeta in Hm. checked.
  destruct (pfBound p) as [a1 a2 a3 a4 a5 a6 a7 a8 a9 a0], (chBound k) as [b1 b2 b3 b4 b5 b6 b7 b8 b9 b0]. cbn [oAccountID oTunnelID oOperationID oConnectorID oHostID oSessionID oProcessGeneration
    oTargetSetHash oOldGeneration oNewGeneration] in *. subst. rewrite !bool_decide_true by done. done.
Qed.
Lemma linked_bound m p i t : linked m p i t -> boundTo plan t (inBound i) = true /\ generations t (inBound i) = true.
Proof. intros [_ (k & _ & H1 & H2) _ Hb _]. rewrite Hb. by destruct (matched_bound p k t H1 H2) as (? & ? & _). Qed.

Lemma AcceptProof_inv b now p w : WInv w -> WInv (AcceptProof b now (verifyOld p) p w).1.
Proof.
  destruct w as [m c]. intros [Hs Hc]. cbn [fst snd] in Hs, Hc. unfold AcceptProof, RecordCredentialRotationProof. cbn [fst snd].
  destruct b; [done|]. destruct (proof_Validate now p); [done|]. destruct (cTargets c !! _) as [s|] eqn:Hid; [|done].
  destruct (cv_target _ _ Hc _ s Hid) as (_ & Hin & Hp). unfold phaseOk in Hp.
  destruct (sState s); try done. destruct Hp as (k & Hk & Hkin & Hfit). rewrite Hk.
  destruct (rotationProofMatchesChallenge p k (sTarget s)) eqn:Hm; [|done]. cbn [negb].
  destruct (VerifyCredentialRotationProofAt now p (verifyOld p)) eqn:Hver; [done|].
  destruct (install_Validate _ _); [done|]. rewrite (cv_plan _ _ Hc).
  destruct (matched_bound p k (sTarget s) Hfit Hm) as (_ & _ & ->). set (i := mkInstall (pfBound p) _ _ _ _ _).
  destruct (Failure m); [split; [done|]; by eapply CInv_set|].
  assert (Hl : linked m p i (sTarget s)) by (split; eauto).
  destruct (SInv_proof m p i _ Hs Hl) as (Hs' & Hg & H1 & H2). split; [done|].
  eapply CInv_set; [by eapply CInv_grows|done..|]. unfold phaseOk. eexists _, p, i. split_and!; [done..|].
  by eapply linked_grows.
Qed.

Lemma ready_inv b z now r w : WInv w -> WInv (MarkReady b z now r w).1.
Proof.
  destruct w as [m c]. intros [Hs Hc]. cbn [fst snd] in Hs, Hc. unfold MarkReady, RecordCredentialRotationReady. cbn [fst snd].
  destruct b; [done|]. destruct (ready_Validate now r) eqn:Hv; [done|]. destruct (cTargets c !! _) as [s|] eqn:Hid; [|done].
  destruct (cv_target _ _ Hc _ s Hid) as (_ & Hin & Hp). unfold phaseOk in Hp.
  destruct (sState s); try done. destruct Hp as (j & p & i & Hi & Hjp & Hji & Hl). rewrite Hi.
  destruct (negb _) eqn:Hn; [done|]. checked. destruct (Failure m); [split; [done|]; by eapply CInv_set|]. cbn [fst].
  pose proof (linked_bound _ _ _ _ Hl) as [Hb Hgen]. apply ready_later in Hv as [_ Hu].
  assert (Hr : readied (m <| Readiness := Readiness m ++ [r] |>) (sTarget s) r).
  { rewrite (cv_plan _ _ Hc) in *. unfold boundTo, generations in Hb, Hgen. checked. split; try done.
    - cbn. set_solver.
    - unfold boundTo. rewrite !bool_decide_true by congruence. done.
    - unfold generations. rewrite andb_true_iff. lia.
    - by rewrite !andb_true_iff.
    - exists j, p, i. split_and!; try done. eapply linked_grows; [|done]. split; try done. cbn. set_solver. }
  destruct (SInv_ready m (sTarget s) r Hs Hin Hr) as [Hs' Hg]. split; [done|].
  eapply CInv_set; [by eapply CInv_grows|done..|]. unfold phaseOk. by exists r.
Qed.

(** ** Revocations and results *)
Hypothesis Hplan : plan_Validate plan = None.

Lemma target_unique t u : t ∈ pTargets plan -> u ∈ pTargets plan -> tConnectorID t = tConnectorID u -> t = u.
Proof.
  pose proof Hplan as Hp. unfold plan_Validate in Hp. destruct (validateRotationPlanFields plan) eqn:Hf; [|done]. unfold validateRotationPlanFields in Hf.
  apply andb_true_iff in Hf as [_ Ht]. apply targetsOk_unique in Ht as [_ Ht]. apply Ht.
Qed.
Lemma cv_found m c t : CInv m c -> t ∈ pTargets plan -> exists s, cTargets c !! tConnectorID t = Some s /\ sTarget s = t /\ phaseOk m s.
Proof.
  intros Hc Ht. destruct (cv_all _ _ Hc t Ht) as [s Hs]. exists s. destruct (cv_target _ _ Hc _ s Hs) as (He & Hi & Hp).
  split_and!; [done|by apply target_unique|done].
Qed.

Lemma allReady_readied m c : CInv m c -> allReady c = true -> forall t, t ∈ pTargets plan -> exists r, readied m t r.
Proof.
  intros Hc Ha t Ht. destruct (cv_found _ _ t Hc Ht) as (s & Hs & <- & Hp). unfold allReady in Ha. rewrite forallb_forall in Ha.
  specialize (Ha (tConnectorID (sTarget s), s)). rewrite <- list_elem_of_In, elem_of_map_to_list in Ha. specialize (Ha Hs).
  apply bool_decide_eq_true in Ha. cbn [snd] in Ha. unfold phaseOk in Hp.
  destruct (sState s); set_solver || naive_solver.
Qed.
Lemma succeeded_revoked m c : CInv m c -> suStatus (summary c) = RotationAggregateSucceeded ->
  forall t, t ∈ pTargets plan -> exists v, revoked m t v.
Proof.
  intros Hc Hs t Ht. destruct (cv_found _ _ t Hc Ht) as (s & Hl & <- & Hp). unfold summary in Hs. cbn [suStatus] in Hs.
  destruct (existsb _ _); [done|]. destruct (forallb _ _) eqn:Ha; [|done]. rewrite forallb_forall in Ha.
  specialize (Ha (mkTargetSummary (sTarget s) (sState s) (sCode s))). apply bool_decide_eq_true in Ha; cbn [tsState] in Ha.
  - unfold phaseOk in Hp. rewrite Ha in Hp. destruct Hp as [_ (v & _ & Hv)]. eauto.
  - rewrite <- list_elem_of_In, list_elem_of_omap. exists (sTarget s). rewrite (cv_plan _ _ Hc). split; [done|].
    unfold targetSummary. by rewrite Hl.
Qed.

Lemma Revoke_inv b now random id w : WInv w -> WInv (Revoke b now random id w).1.
Proof.
  destruct w as [m c]. intros [Hs Hc]. cbn [fst snd] in Hs, Hc. unfold Revoke, RecordCredentialRotationRevoke. cbn [fst snd].
  destruct b; [done|]. destruct (cTargets c !! id) as [s|] eqn:Hid; [|done]. case_bool_decide; [done|].
  destruct (allReady c) eqn:Ha; [|done]. cbn [negb]. destruct (cv_target _ _ Hc _ s Hid) as (_ & Hin & Hp). unfold phaseOk in Hp.
  destruct (sState s); try (by repeat case_match). destruct Hp as (r & Hr & Hrd). rewrite Hr.
  destruct random as [random|]; [|by destruct (sRevoke s)]. rewrite (cv_plan _ _ Hc).
  pose proof (proj1 (boundFor_to (sTarget s) (oSessionID (rdBound r)) (oProcessGeneration (rdBound r)))) as Hb.
  set (v := mkRevoke _ _ _ _).
  destruct (SInv_revoke m (sTarget s) v Hs Hin Hb (allReady_readied _ _ Hc Ha)) as (Hs' & Hg & Hv).
  assert (Hnew : WInv (m <| Revocations := Revocations m ++ [v] |>,
      setTarget ((s <| sRevoke := Some v |>) <| sState := RotationTargetRevoking |>) c)).
  { split; [done|]. eapply CInv_set; [by eapply CInv_grows|done..|]. unfold phaseOk. split; [exists r|exists v]; [|done].
    split; [done|]. by eapply readied_grows. }
  destruct (sRevoke s); (destruct (revoke_Validate now v); [done|]); destruct (Failure m); try done;
    (split; [done|]; by eapply CInv_set).
Qed.

Lemma recordFailure_inv ack id s code w : WInv w -> cTargets w.2 !! id = Some s -> WInv (recordFailure ack s code w).1.
Proof.
  destruct w as [m c]. intros [Hs Hc] Hid. cbn [fst snd] in *. unfold recordFailure, RecordCredentialRotationResult. cbn [fst snd].
  destruct (Failure m); [done|]. assert (Hc' : CInv m (setTarget (failTarget code s) c)) by (by eapply CInv_set).
  destruct (SInv_result m (summary (setTarget (failTarget code s) c)) Hs) as [Hs' Hg]; [by apply succeeded_revoked|].
  split; [done|]. by eapply CInv_grows.
Qed.

Lemma HandleAck_inv b now a w : WInv w -> WInv (HandleAck b now a w).1.
Proof.
  destruct w as [m c]. intros Hw. pose proof Hw as [Hs Hc]. cbn [fst snd] in Hs, Hc. unfold HandleAck. cbn [fst snd].
  destruct (rotationAck_valid a); [|done]. destruct b; [done|]. destruct (cTargets c !! _) as [s|] eqn:Hid; [|done].
  cbn [negb]. destruct (negb _); [done|]. destruct (cv_target _ _ Hc _ s Hid) as (_ & Hin & Hp). unfold phaseOk in Hp.
  assert (Hneg : WInv (match raCode a with
      | Some code => if negb (rotationNegativeAckMatches s a) then ((m, c), (None, Some identityMismatch)) else recordFailure a s code (m, c)
      | None => ((m, c), (None, Some ErrInvalidInput)) end).1).
  { destruct (raCode a); [|done]. destruct (negb _); [done|]. by eapply recordFailure_inv. }
  destruct (sState s) eqn:Hst, (raStatus a); try done; try (by destruct (fromSession _ _)).
  destruct (fromSession _ _); [|done]. cbn [negb].
  assert (Hc1 : CInv m (setTarget (s <| sState := RotationTargetRevoked |>) c)) by (by eapply CInv_set).
  set (c1 := setTarget _ c) in *. set (c2 := if bool_decide _ then _ else c1).
  assert (Hc2 : CInv m c2) by (unfold c2; case_bool_decide; [by apply (CInv_same _ c1)|done]).
  unfold RecordCredentialRotationResult. destruct (Failure m); cbn [fst snd].
  - split; [done|]. eapply (CInv_set _ _ (tConnectorID (sTarget s)) (s <| sState := RotationTargetRevoked |>)); [done| |done..].
    assert (Hx : cTargets c2 = cTargets c1) by (unfold c2; by case_bool_decide). rewrite Hx. unfold c1. cbn. by rewrite lookup_insert_eq.
  - destruct (SInv_result m (summary c2) Hs) as [Hs' Hg]; [by apply succeeded_revoked|]. split; [done|]. by eapply CInv_grows.
Qed.

Lemma Fail_inv id code w : WInv w -> WInv (Fail id code w).1.
Proof.
  intros Hw. unfold Fail. destruct (cTargets w.2 !! id) as [s|] eqn:Hid; [|done].
  destruct (sState s); try done; by eapply recordFailure_inv.
Qed.
Lemma rcall_inv w w' : rcall w w' -> WInv w -> WInv w'.
Proof.
  intros [b v|b now id sid g k1 k2 n t1 t2 t3 t4 auth v|b now p v|b now r v|b now random id v|b now a v|id code v] Hw.
  - by apply Start_inv.
  - by apply challenge_inv.
  - by apply AcceptProof_inv.
  - by apply ready_inv.
  - by apply Revoke_inv.
  - by apply HandleAck_inv.
  - by apply Fail_inv.
Qed.

(** ** A new coordinator *)
Lemma new_inv m c : NewRotationCoordinator plan = Some c -> CInv m c.
Proof.
  unfold NewRotationCoordinator. rewrite Hplan. rewrite bool_decide_false by naive_solver. intros [= <-].
  destruct (pending_targets (pTargets plan) ∅) as (H1 & _ & H3). split; [done|..].
  - intros id s Hs. destruct (H1 id s Hs) as [Hx|(t & Ht & Hid & ->)]; [by rewrite lookup_empty in Hx|done].
  - intros t Ht. by apply H3.
Qed.

(** ** A coordinator that resumes *)
Lemma present_some {A} (f : A -> Bound) x : present f x = true -> exists a, x = Some a.
Proof. destruct x; [eauto|done]. Qed.
Lemma forTarget_connector t o : forTarget plan t o = true -> oConnectorID o = tConnectorID t.
Proof. unfold forTarget. by intros [_ ?%bool_decide_eq_true]%andb_true_iff. Qed.
Lemma boundTo_connector t o : boundTo plan t o = true -> oConnectorID o = tConnectorID t.
Proof. unfold boundTo. intros Hb. by checked. Qed.

Lemma loaded_install m t i : SInv m -> t ∈ pTargets plan -> latest plan t (fun x => pfBound x.1) (paired m) ≫= snd = Some i ->
  exists j p, Proofs m !! j = Some p /\ Installs m !! j = Some i /\ linked m p i t.
Proof.
  intros Hi Ht Hl. destruct (latest _ _ _ _) as [x|] eqn:Hx; [|done]. apply latest_in in Hx as [Hx Hf]. cbn in Hl.
  apply paired_some in Hx as (j & p & i' & -> & Hp & Hq); [|apply Hi]. cbn in Hl, Hf. injection Hl as ->. exists j, p.
  destruct (si_linked _ _ Hi j p i Hp Hq) as [u Hu]. split_and!; [done..|].
  assert (u = t) as ->; [|done]. apply target_unique; [apply Hu|done|].
  pose proof (linked_bound _ _ _ _ Hu) as [Hb%boundTo_connector _]. rewrite (lk_bound _ _ _ _ Hu) in Hb.
  apply forTarget_connector in Hf. congruence.
Qed.
Lemma loaded_ready m t r : SInv m -> t ∈ pTargets plan -> latest plan t rdBound (Readiness m) = Some r -> readied m t r.
Proof.
  intros Hi Ht [Hr Hf]%latest_in. destruct (si_ready _ _ Hi r Hr) as (u & Hu & Hx). assert (u = t) as ->; [|done].
  apply target_unique; [done..|]. pose proof (boundTo_connector _ _ (ry_bound _ _ _ Hx)). apply forTarget_connector in Hf. congruence.
Qed.
Lemma loaded_revoke m t v : SInv m -> t ∈ pTargets plan -> latest plan t rvBound (Revocations m) = Some v -> revoked m t v.
Proof.
  intros Hi Ht [Hr Hf]%latest_in. destruct (si_revoke _ _ Hi v Hr) as [(u & Hu & Hx) _]. assert (u = t) as ->; [|done].
  apply target_unique; [done..|]. pose proof (boundTo_connector _ _ (proj2 Hx)). apply forTarget_connector in Hf. congruence.
Qed.

Lemma recovered_ok m t s : SInv m -> t ∈ pTargets plan -> sTarget s = t ->
  validateRotationResumeTarget plan (loadTarget plan m t) = true -> phaseOk m (recovered (loadTarget plan m t) s).
Proof.
  intros Hi Ht Hst. destruct (load_fields plan m (si_pairs _ _ Hi) t) as (H0 & H1 & H2 & H3 & H4).
  set (e := loadTarget plan m t) in *. unfold validateRotationResumeTarget. cbv zeta. rewrite H0.
  intros Hv. apply andb_true_iff in Hv as [Hv Hlast]. repeat (apply andb_true_iff in Hv as [Hv ?]).
  unfold phaseOk, recovered. cbn [sTarget sState sChallenge sInstall sReady sRevoke]. rewrite Hst.
  assert (Hready : present rdBound (rtReady e) = true -> exists r, rtReady e = Some r /\ readied m t r).
  { intros [r Hr]%present_some. exists r. split; [done|]. apply loaded_ready; [done..|congruence]. }
  destruct (rtState e); try done.
  - apply andb_true_iff in Hlast as [Hp _]. pose proof Hp as [k Hk]%present_some. exists k. split; [done|].
    match goal with Hf : fits2 (present chBound _) _ _ _ = true |- _ => rewrite Hp, Hk in Hf; cbn in Hf; split; [|done] end.
    rewrite H1 in Hk. by apply latest_in in Hk as [? _].
  - apply andb_true_iff in Hlast as [Hp _]. apply present_some in Hp as [i Hx].
    destruct (loaded_install m t i Hi Ht) as (j & p & ? & ? & ?); [congruence|]. by exists j, p, i.
  - apply andb_true_iff in Hlast as [Hp _]. auto.
  - split; [apply Hready|apply present_some in Hlast as [v Hx]; exists v; split; [done|]; apply loaded_revoke; [done..|congruence]].
    rewrite Hlast in *. by destruct (present rdBound (rtReady e)).
  - split; [apply Hready|apply present_some in Hlast as [v Hx]; exists v; split; [done|]; apply loaded_revoke; [done..|congruence]].
    rewrite Hlast in *. by destruct (present rdBound (rtReady e)).
Qed.

Lemma resumeTargetsOk_all c l : forall seen, resumeTargetsOk c seen l = true -> forall e, e ∈ l ->
  exists s, cTargets c !! tConnectorID (rtTarget e) = Some s /\ sTarget s = rtTarget e
    /\ validateRotationResumeTarget (cPlan c) e = true.
Proof.
  induction l as [|x l IH]; intros seen Hl e; [set_solver|]. cbn [resumeTargetsOk] in Hl.
  apply andb_true_iff in Hl as [Hl Hr]. apply andb_true_iff in Hl as [Hl Hv]. apply andb_true_iff in Hl as [_ Hs].
  rewrite elem_of_cons. intros [->|He]; [|by eapply IH]. destruct (cTargets c !! _) as [s|]; [|done].
  exists s. by apply bool_decide_eq_true in Hs.
Qed.

(** What is recovered of the targets of a list. *)
Definition loadable (m : MemoryRotationPersistence) (e : RotationResumeTarget) : Prop :=
  exists t, t ∈ pTargets plan /\ e = loadTarget plan m t /\ validateRotationResumeTarget plan e = true.
Lemma recoverTarget_inv m c e : SInv m -> CInv m c -> loadable m e -> CInv m (recoverTarget c e).
Proof.
  intros Hi Hc (t & Ht & -> & Hv). unfold recoverTarget.
  rewrite (proj1 (load_fields plan m (si_pairs _ _ Hi) t)). destruct (cv_found m c t Hc Ht) as (s & Hs & He & _). rewrite Hs.
  eapply CInv_set; [done..|]. by apply recovered_ok.
Qed.
Lemma recoverTargets_inv m l c : SInv m -> CInv m c -> (forall e, e ∈ l -> loadable m e) -> CInv m (fold_left recoverTarget l c).
Proof.
  intros Hi. revert c. induction l as [|e l IH]; intros c Hc Hl; [done|]. cbn [fold_left].
  apply IH; [|set_solver]. apply recoverTarget_inv; [done..|]. set_solver.
Qed.
Lemma Resume_inv b now m c : WInv (m, c) -> WInv (m, (Resume b now (LoadCredentialRotation plan m) c).1).
Proof.
  intros [Hs Hc]. cbn [fst snd] in *. split; [done|]. cbn [fst snd]. unfold Resume, LoadCredentialRotation. destruct b; [done|].
  destruct (Failure m); [done|]. destruct (findStarted plan m) as [s0|]; [|done]. destruct (samePlan s0 plan); [|done].
  cbn [negb reStarted rePlan reTargets reFinishedAt]. destruct (_ || bool_decide (plan_Validate s0 <> None)); [done|].
  destruct (cStarted c); [done|]. destruct (_ || negb (resumeTargetsOk _ _ _)) eqn:Ho; [done|].
  apply orb_false_iff in Ho as [_ Ho%negb_false_iff]. destruct (negb (isZero _) && _); [done|].
  eapply (CInv_same _ (fold_left recoverTarget (map (loadTarget plan m) (pTargets s0)) c)); [|done|done].
  apply recoverTargets_inv; [done..|]. intros e He.
  destruct (resumeTargetsOk_all _ _ _ Ho e He) as (s & Hl & Hst & Hv). apply list_elem_of_fmap in He as (t & -> & Ht).
  exists t. rewrite (proj1 (load_fields plan m (si_pairs _ _ Hs) t)) in Hst. rewrite (cv_plan _ _ Hc) in Hv.
  split_and!; [|done..]. rewrite <- Hst. by destruct (cv_target _ _ Hc _ s Hl) as (_ & ? & _).
Qed.

Lemma rstep_inv w w' : rstep w w' -> WInv w -> WInv w'.
Proof.
  intros [v v' Hc|b m c|m c c' Hn|b now m c].
  - by apply rcall_inv.
  - intros [Hs Hc]. assert (Hg : grows m (m <| Failure := b |>)) by done. split; [by destruct (held_grows _ _ Hg Hs); split|].
    by eapply CInv_grows.
  - intros [Hs _]. split; [done|]. by apply new_inv.
  - apply Resume_inv.
Qed.
Lemma rrun_inv w w' : rtc rstep w w' -> WInv w -> WInv w'.
Proof. induction 1 as [|a b c Hab _ IH]; [done|]. intros Hi. apply IH. by eapply rstep_inv. Qed.

(** An operation that nothing is known of. *)
Definition emptyStore : MemoryRotationPersistence := mkMemory false [] [] [] [] [] [] [].
Lemma empty_inv c : NewRotationCoordinator plan = Some c -> WInv (emptyStore, c).
Proof. intros Hn. split; [|by apply new_inv]. by split; try done; intros x Hx; apply elem_of_nil in Hx. Qed.
End runs.

Lemma targetsOk_NoDup l previous seen : targetsOk previous seen l = true ->
  NoDup (map tConnectorID l) /\ forall t, t ∈ l -> target_valid t = true.
Proof.
  revert previous seen. induction l as [|x l IH]; intros previous seen Ho; [split; [constructor|set_solver]|].
  pose proof Ho as Hu%targetsOk_unique. cbn [targetsOk] in Ho. apply andb_true_iff in Ho as [Ho Hl].
  apply andb_true_iff in Ho as [Ho _]. apply andb_true_iff in Ho as [Hx _]. destruct (IH _ _ Hl) as [H1 H2].
  split; [|set_solver]. cbn [map]. constructor; [|done]. intros (t & He & Ht)%list_elem_of_fmap.
  apply targetsOk_unique in Hl as [Hn _]. specialize (Hn t Ht). set_solver.
Qed.

Section resume.
Context `{RotationEnv} (plan : RotationPlan) (verifyOld : CredentialRotationProof -> list byte -> list byte -> bool).
Hypothesis Hplan : plan_Validate plan = None.

Lemma plan_targets : NoDup (map tConnectorID (pTargets plan)) /\ forall t, t ∈ pTargets plan -> target_valid t = true.
Proof.
  pose proof Hplan as Hp. unfold plan_Validate in Hp. destruct (validateRotationPlanFields plan) eqn:Hf; [|done].
  unfold validateRotationPlanFields in Hf. apply andb_true_iff in Hf as [_ Ht]. by apply targetsOk_NoDup in Ht.
Qed.
Lemma plan_Target_is t : t ∈ pTargets plan -> plan_Target (tConnectorID t) plan = Some t.
Proof.
  intros Ht. unfold plan_Target. destruct (list_find _ _) as [[j u]|] eqn:Hf.
  - apply list_find_Some in Hf as (Hu & He & _). cbn. f_equal. apply (target_unique plan Hplan); [|done..].
    by eapply list_elem_of_lookup_2.
  - apply list_find_None in Hf. rewrite Forall_forall in Hf. by destruct (Hf t Ht).
Qed.

(** ** Entries that load *)

(** Each message fits the one before, and none is missing. *)
Definition chain (t : RotationTarget) (e : RotationResumeTarget) : Prop :=
  match rtChallenge e, rtInstall e, rtReady e, rtRevoke e with
  | None, None, None, None => True
  | Some k, None, None, None => challengeFits plan t k = true
  | Some k, Some i, None, None => challengeFits plan t k = true /\ installFits plan t k i = true
  | Some k, Some i, Some r, None => challengeFits plan t k = true /\ installFits plan t k i = true /\ readyFits plan t i r = true
  | Some k, Some i, Some r, Some v => challengeFits plan t k = true /\ installFits plan t k i = true
      /\ readyFits plan t i r = true /\ revokeFits plan t r v = true
  | _, _, _, _ => False
  end.

Lemma bound_present {A} (f : A -> Bound) a : bound_valid (f a) = true -> present f (Some a) = true.
Proof.
  unfold bound_valid, present. intros Hb. repeat (apply andb_true_iff in Hb as [Hb ?]).
  destruct (oSessionID (f a)) eqn:He; [|done]. match goal with Hx : identifier [] = true |- _ => done | Hx : identifier (oSessionID _) = true |- _ => by rewrite He in Hx end.
Qed.
Lemma challenge_fields k : challenge_Validate zeroTime k = None -> bound_valid (chBound k) = true /\ isZero (chOverlapUntil k) = false
  /\ isZero (chValidUntil k) = false /\ chOverlapUntil k < chValidUntil k.
Proof.
  unfold challenge_Validate. destruct (_ || (MaxRotationCredentialLifetime <? _)) eqn:Hf; [done|]. intros _.
  repeat (apply orb_false_iff in Hf as [Hf ?]). apply negb_false_iff in Hf. split_and!; try done. lia.
Qed.
Lemma install_bound i : install_Validate zeroTime i = None -> bound_valid (inBound i) = true.
Proof.
  unfold install_Validate. destruct (_ || (MaxRotationCredentialLifetime <? _)) eqn:Hf; [done|]. intros _.
  repeat (apply orb_false_iff in Hf as [Hf ?]). by apply negb_false_iff.
Qed.
Lemma ready_bound r : ready_Validate zeroTime r = None -> bound_valid (rdBound r) = true.
Proof.
  unfold ready_Validate. destruct (_ || isZero (rdReadyAt r)) eqn:Hf; [done|]. intros _.
  repeat (apply orb_false_iff in Hf as [Hf ?]). by apply negb_false_iff.
Qed.
Lemma revoke_bound v : revoke_Validate zeroTime v = None -> bound_valid (rvBound v) = true.
Proof.
  unfold revoke_Validate. destruct (_ || (DefaultAbortTimeout * 2 <? _)) eqn:Hf; [done|]. intros _.
  repeat (apply orb_false_iff in Hf as [Hf ?]). by apply negb_false_iff.
Qed.
Lemma fits_first b c d : b && c && d = true -> b = true.
Proof. intros [[? _]%andb_true_iff _]%andb_true_iff. done. Qed.

Lemma fits_present t : (forall k, challengeFits plan t k = true -> present chBound (Some k) = true)
  /\ (forall k i, installFits plan t k i = true -> present inBound (Some i) = true)
  /\ (forall i r, readyFits plan t i r = true -> present rdBound (Some r) = true)
  /\ (forall r v, revokeFits plan t r v = true -> present rvBound (Some v) = true).
Proof.
  split_and!; intros *; unfold challengeFits, installFits, readyFits, revokeFits; cbv zeta; intros Hf;
    repeat (apply andb_true_iff in Hf as [Hf _]); apply bool_decide_eq_true in Hf; apply bound_present.
  - by apply challenge_fields in Hf as [? _].
  - by apply install_bound.
  - by apply ready_bound.
  - by apply revoke_bound.
Qed.

Lemma chain_valid t k x r v : t ∈ pTargets plan -> (forall p, x <> Some (p, None)) -> chain t (entry t k x r v) ->
  validateRotationResumeTarget plan (entry t k x r v) = true.
Proof.
  intros Ht Hx Hc. destruct (fits_present t) as (P1 & P2 & P3 & P4).
  assert (Hk : forall k, challengeFits plan t k = true -> isZero (chOverlapUntil k) = false /\ isZero (chValidUntil k) = false
    /\ chOverlapUntil k < chValidUntil k).
  { intros k0 Hk. unfold challengeFits in Hk. apply fits_first, bool_decide_eq_true, challenge_fields in Hk. by destruct Hk. }
  unfold validateRotationResumeTarget. cbv zeta. unfold chain in Hc. unfold entry in *.
  cbn [rtTarget rtState rtCode rtOverlapUntil rtValidUntil rtChallenge rtProof rtInstall rtReady rtRevoke] in *.
  rewrite (proj2 plan_targets t Ht), (plan_Target_is t Ht), (bool_decide_true (Some t = Some t)) by done.
  destruct x as [[p [i|]]|]; [|by destruct (Hx p)|]; cbn [fmap option_fmap option_map mbind option_bind snd fst] in *.
  all: destruct k as [k|], r as [r|], v as [v|]; cbn [chain] in Hc; try done; destruct_and? Hc.
  all: change (present inBound None) with false; change (present rdBound None) with false; change (present rvBound None) with false;
    change (present chBound None) with false; unfold fits2.
  all: repeat match goal with
    | H : challengeFits _ _ _ = true |- _ => rewrite (P1 _ H), H; destruct (Hk _ H) as (-> & -> & Hlt); clear H
    | H : installFits _ _ _ _ = true |- _ => rewrite (P2 _ _ H), H; clear H
    | H : readyFits _ _ _ _ = true |- _ => rewrite (P3 _ _ H), H; clear H
    | H : revokeFits _ _ _ _ = true |- _ => rewrite (P4 _ _ H), H; clear H
    end.
  all: try (replace (chOverlapUntil k <? chValidUntil k) with true by lia). all: done.
Qed.

(** ** The invariant *)
(** What would be loaded of a target is a valid chain, and the target unless it has failed. *)
Record kept (m : MemoryRotationPersistence) (s : TargetState) : Prop := {
  kp_chain : chain (sTarget s) (loaded plan (sTarget s) m);
  kp_same : sState s <> RotationTargetFailed -> recovered (loaded plan (sTarget s) m) s = s }.
Record KInv (w : RWorld) : Prop := {
  li_started : Started w.1 = if cStarted w.2 then [plan] else [];
  li_kept : Results w.1 = [] -> forall id s, cTargets w.2 !! id = Some s -> kept w.1 s }.

Lemma paired_snoc m p i : length (Proofs m) = length (Installs m) ->
  paired ((m <| Proofs := Proofs m ++ [p] |>) <| Installs := Installs m ++ [i] |>) = paired m ++ [(p, Some i)].
Proof.
  intros Hl. unfold paired. cbn. rewrite imap_app. cbn. f_equal.
  - apply imap_ext. intros j x Hx. f_equal. apply lookup_app_l. rewrite <- Hl. by eapply lookup_lt_Some.
  - by rewrite Nat.add_0_r, Hl, lookup_app_r, Nat.sub_diag by lia.
Qed.

(** A store with a record for another target. *)
Definition others (o : Bound) (m m' : MemoryRotationPersistence) : Prop :=
  forall t, oConnectorID o <> tConnectorID t -> loaded plan t m' = loaded plan t m.
Lemma not_for t o : oConnectorID o <> tConnectorID t -> forTarget plan t o = false.
Proof. intros Hn. unfold forTarget. rewrite (bool_decide_false (oConnectorID o = _)) by done. by rewrite andb_false_r. Qed.
Lemma loaded_challenge t k m : loaded plan t (m <| Challenges := Challenges m ++ [k] |>)
  = entry t (if forTarget plan t (chBound k) then Some k else latest plan t chBound (Challenges m))
      (latest plan t (fun x => pfBound x.1) (paired m)) (latest plan t rdBound (Readiness m)) (latest plan t rvBound (Revocations m)).
Proof. rewrite <- latest_snoc. done. Qed.
Lemma loaded_proof t p i m : length (Proofs m) = length (Installs m) ->
  loaded plan t ((m <| Proofs := Proofs m ++ [p] |>) <| Installs := Installs m ++ [i] |>)
  = entry t (latest plan t chBound (Challenges m))
      (if forTarget plan t (pfBound p) then Some (p, Some i) else latest plan t (fun x => pfBound x.1) (paired m))
      (latest plan t rdBound (Readiness m)) (latest plan t rvBound (Revocations m)).
Proof.
  intros Hl. unfold loaded. rewrite paired_snoc by done. f_equal. apply (latest_snoc plan t (fun x => pfBound x.1)).
Qed.
Lemma reload_ready t r m : loaded plan t (m <| Readiness := Readiness m ++ [r] |>)
  = entry t (latest plan t chBound (Challenges m)) (latest plan t (fun x => pfBound x.1) (paired m))
      (if forTarget plan t (rdBound r) then Some r else latest plan t rdBound (Readiness m)) (latest plan t rvBound (Revocations m)).
Proof. rewrite <- latest_snoc. done. Qed.
Lemma reload_revoke t v m : loaded plan t (m <| Revocations := Revocations m ++ [v] |>)
  = entry t (latest plan t chBound (Challenges m)) (latest plan t (fun x => pfBound x.1) (paired m))
      (latest plan t rdBound (Readiness m)) (if forTarget plan t (rvBound v) then Some v else latest plan t rvBound (Revocations m)).
Proof. rewrite <- latest_snoc. done. Qed.
Lemma others_challenge k m : others (chBound k) m (m <| Challenges := Challenges m ++ [k] |>).
Proof. intros t Hn. by rewrite loaded_challenge, not_for. Qed.
Lemma others_proof p i m : length (Proofs m) = length (Installs m) ->
  others (pfBound p) m ((m <| Proofs := Proofs m ++ [p] |>) <| Installs := Installs m ++ [i] |>).
Proof. intros Hl t Hn. by rewrite loaded_proof, not_for. Qed.
Lemma others_ready r m : others (rdBound r) m (m <| Readiness := Readiness m ++ [r] |>).
Proof. intros t Hn. by rewrite reload_ready, not_for. Qed.
Lemma others_revoke v m : others (rvBound v) m (m <| Revocations := Revocations m ++ [v] |>).
Proof. intros t Hn. by rewrite reload_revoke, not_for. Qed.

(** The target of a call changes with its record, the others do not. *)
Lemma kept_set m m' c id s s' o : CInv plan verifyOld m c -> cTargets c !! id = Some s -> sTarget s' = sTarget s ->
  (forall id s, cTargets c !! id = Some s -> kept m s) -> oConnectorID o = tConnectorID (sTarget s) -> others o m m' -> kept m' s' ->
  forall j u, cTargets (setTarget s' c) !! j = Some u -> kept m' u.
Proof.
  intros Hc Hs Ht Hk Ho Hm Hs' j u. cbn. rewrite lookup_insert_Some. intros [[_ <-]|[Hj Hu]]; [done|].
  destruct (cv_target _ _ _ _ Hc j u Hu) as (He & _). destruct (Hk j u Hu) as [H1 H2].
  assert (Hx : loaded plan (sTarget u) m' = loaded plan (sTarget u) m) by (apply Hm; congruence). by split; rewrite Hx.
Qed.
Lemma kept_fail m s code : kept m s -> kept m (failTarget code s).
Proof. intros [H1 _]. by split. Qed.

(** ** The calls *)
Lemma for_bound t o : boundTo plan t o = true -> forTarget plan t o = true /\ oConnectorID o = tConnectorID t.
Proof. intros Hb. pose proof (boundTo_connector plan t o Hb). unfold boundTo in Hb. checked. unfold forTarget. by rewrite !bool_decide_true. Qed.

(** The phases before a record: what is loaded of them. *)
Lemma kept_latest m s : kept m s -> sState s <> RotationTargetFailed -> exists k x r v,
  latest plan (sTarget s) chBound (Challenges m) = k /\ latest plan (sTarget s) (fun x => pfBound x.1) (paired m) = x
  /\ latest plan (sTarget s) rdBound (Readiness m) = r /\ latest plan (sTarget s) rvBound (Revocations m) = v
  /\ chain (sTarget s) (entry (sTarget s) k x r v) /\ recovered (entry (sTarget s) k x r v) s = s.
Proof. intros [H1 H2] Hn. eexists _, _, _, _. split_and!; [reflexivity..|done|by apply H2]. Qed.
Lemma kept_entry m s t k x r v : sTarget s = t -> loaded plan t m = entry t k x r v -> chain t (entry t k x r v) ->
  recovered (entry t k x r v) s = s -> kept m s.
Proof. intros <- He Hc Hr. by split; rewrite He. Qed.

Lemma KInv_set m m' c id s s' o : WInv plan verifyOld (m, c) -> KInv (m, c) -> cTargets c !! id = Some s -> sTarget s' = sTarget s ->
  boundTo plan (sTarget s) o = true -> others o m m' -> Started m' = Started m -> Results m' = Results m ->
  (kept m s -> kept m' s') -> KInv (m', setTarget s' c).
Proof.
  intros [_ Hc] [K1 K2] Hs Ht Ho Hm Hst Hr Hk. cbn [fst snd] in *. split; cbn [fst snd]; [by rewrite Hst|].
  intros Hz j u Hu. rewrite Hr in Hz. destruct (for_bound _ _ Ho) as [_ Hid].
  apply (kept_set m m' c id s s' o Hc Hs Ht (K2 Hz) Hid Hm) with (j := j); [|done]. apply Hk. by eapply K2.
Qed.
Lemma KInv_fail m c id s code : WInv plan verifyOld (m, c) -> KInv (m, c) -> cTargets c !! id = Some s ->
  KInv (m, setTarget (failTarget code s) c).
Proof.
  intros Hw Hk Hs. eapply (KInv_set m m c id s _ (boundFor plan (sTarget s) [] 0)); try done; [apply boundFor_to|].
  apply kept_fail.
Qed.

Lemma Start_kept b w : KInv w -> cPlan w.2 = plan -> KInv (Start b w).1.
Proof.
  destruct w as [m c]. intros Hk Hp. unfold Start, BeginCredentialRotation. cbn [fst snd] in *. destruct b; [done|].
  pose proof (li_started _ Hk) as Hst. cbn [fst snd] in Hst. destruct (cStarted c) eqn:Hc; [done|]. destruct (Failure m); [done|].
  unfold findStarted. rewrite Hst, Hp. cbn. split; [done|].
  intros Hz id s Hs. by destruct (li_kept _ Hk Hz id s Hs); split.
Qed.

Lemma Challenge_kept b now id sid g k1 k2 n t1 t2 t3 t4 auth w : WInv plan verifyOld w -> KInv w ->
  KInv (ChallengeWithCredentialExpiry b now id sid g k1 k2 n t1 t2 t3 t4 auth w).1.
Proof.
  destruct w as [m c]. intros Hw Hk. pose proof Hw as [_ Hc]. cbn [fst snd] in Hc.
  unfold ChallengeWithCredentialExpiry, RecordCredentialRotationChallenge. cbn [fst snd]. destruct b; [done|].
  destruct (cStarted c); [|done]. cbn [negb]. destruct (cTargets c !! id) as [s|] eqn:Hid; [|done].
  destruct (negb _ && _) eqn:Hst; [done|]. destruct (challenge_Validate _ _) eqn:Hv; [done|]. destruct (auth _); [done|].
  destruct (Failure m); [done|]. cbn [fst]. rewrite (cv_plan _ _ _ _ Hc) in *. set (k := mkChallenge _ _ _ _ _ _ _ _ _) in *.
  assert (Hb : boundTo plan (sTarget s) (chBound k) = true) by apply boundFor_to.
  eapply (KInv_set m _ c id s _ (chBound k)); try done; [apply others_challenge|]. intros Hkp.
  assert (Hs : sState s = RotationTargetPending \/ sState s = RotationTargetChallenged).
  { apply andb_false_iff in Hst as [Hst|Hst]; [left|right; apply orb_false_iff in Hst as [Hst _]]; by apply negb_false_iff, bool_decide_eq_true in Hst. }
  destruct (kept_latest m s Hkp) as (k0 & x & r & v & H1 & H2 & H3 & H4 & Hch & Hre); [by destruct Hs as [-> | ->]|].
  assert (x = None /\ r = None /\ v = None) as (-> & -> & ->).
  { pose proof (f_equal sState Hre) as He. cbn in He. by destruct v, r, x, k0; destruct Hs as [Hs|Hs]; rewrite Hs in He. }
  eapply (kept_entry _ _ (sTarget s) (Some k) None None None); [done|..].
  - rewrite loaded_challenge. rewrite (proj1 (for_bound _ _ Hb)), H2, H3, H4. done.
  - unfold chain. cbn. unfold challengeFits. rewrite (bool_decide_true _ (challenge_later now k Hv)), Hb, bool_decide_true by done. done.
  - rewrite <- Hre. reflexivity.
Qed.

Lemma AcceptProof_kept b now p w : WInv plan verifyOld w -> KInv w -> KInv (AcceptProof b now (verifyOld p) p w).1.
Proof.
  destruct w as [m c]. intros Hw Hk. pose proof Hw as [Hsi Hc]. cbn [fst snd] in Hsi, Hc. unfold AcceptProof, RecordCredentialRotationProof.
  cbn [fst snd]. destruct b; [done|]. destruct (proof_Validate now p); [done|].
  destruct (cTargets c !! _) as [s|] eqn:Hid; [|done]. destruct (cv_target _ _ _ _ Hc _ s Hid) as (_ & _ & Hp). unfold phaseOk in Hp.
  destruct (sState s) eqn:Hst; try done. destruct Hp as (k & Hks & _ & Hfit). rewrite Hks.
  destruct (rotationProofMatchesChallenge p k (sTarget s)) eqn:Hm; [|done]. cbn [negb].
  destruct (VerifyCredentialRotationProofAt _ _ _); [done|]. destruct (install_Validate _ _) eqn:Hv; [done|].
  rewrite (cv_plan _ _ _ _ Hc) in *. destruct (matched_bound plan p k (sTarget s) Hfit Hm) as (Hb & Hg & He). rewrite He in *. clear He.
  set (i := mkInstall (pfBound p) _ _ _ _ _) in *. destruct (Failure m); [by eapply KInv_fail|]. cbn [fst].
  eapply (KInv_set m _ c _ s _ (pfBound p)); try done; [by apply others_proof, Hsi|]. intros Hkp.
  destruct (kept_latest m s Hkp) as (k0 & x & r & v & L1 & L2 & L3 & L4 & Hch & Hre); [by rewrite Hst|].
  assert (k0 = Some k /\ x = None /\ r = None /\ v = None) as (-> & -> & -> & ->).
  { pose proof (f_equal sState Hre) as He. pose proof (f_equal sChallenge Hre) as Hx. cbn in He, Hx. rewrite Hst in He. rewrite Hks in Hx.
    by destruct v, r, x, k0. }
  eapply (kept_entry _ _ (sTarget s) (Some k) (Some (p, Some i)) None None); [done|..].
  - rewrite loaded_proof by apply Hsi. rewrite (proj1 (for_bound _ _ Hb)), L1, L3, L4. done.
  - split; [done|]. unfold installFits. rewrite (bool_decide_true _ (install_later now i Hv)). cbn [inBound i]. rewrite Hb, Hg.
    unfold rotationProofMatchesChallenge in Hm. cbv zeta in Hm. checked. cbn. rewrite !bool_decide_true by done. cbn. rewrite andb_true_r. lia.
  - rewrite <- Hre. reflexivity.
Qed.

Lemma MarkReady_kept b z now r w : WInv plan verifyOld w -> KInv w -> KInv (MarkReady b z now r w).1.
Proof.
  destruct w as [m c]. intros Hw Hk. pose proof Hw as [Hsi Hc]. cbn [fst snd] in Hsi, Hc. unfold MarkReady, RecordCredentialRotationReady.
  cbn [fst snd]. destruct b; [done|]. destruct (ready_Validate now r) eqn:Hv; [done|].
  destruct (cTargets c !! _) as [s|] eqn:Hid; [|done]. destruct (cv_target _ _ _ _ Hc _ s Hid) as (_ & _ & Hp). unfold phaseOk in Hp.
  destruct (sState s) eqn:Hst; try done. destruct Hp as (j & p & i & Hi & _ & _ & Hl). rewrite Hi. rewrite (cv_plan _ _ _ _ Hc) in *.
  destruct (negb _) eqn:Hn; [done|]. checked. destruct (Failure m); [by eapply KInv_fail|]. cbn [fst].
  pose proof (linked_bound _ _ _ _ _ _ Hl) as [Hb Hg]. unfold boundTo, generations in Hb, Hg. checked.
  assert (Hb : boundTo plan (sTarget s) (rdBound r) = true) by (unfold boundTo; rewrite !bool_decide_true by congruence; done).
  assert (Hg : generations (sTarget s) (rdBound r) = true) by (unfold generations; rewrite andb_true_iff; lia).
  eapply (KInv_set m _ c _ s _ (rdBound r)); try done; [apply others_ready|]. intros Hkp.
  destruct (kept_latest m s Hkp) as (k & x & r0 & v & L1 & L2 & L3 & L4 & Hch & Hre); [by rewrite Hst|].
  assert (exists k1 p1, k = Some k1 /\ x = Some (p1, Some i) /\ r0 = None /\ v = None) as (k1 & p1 & -> & -> & -> & ->).
  { pose proof (f_equal sState Hre) as He. pose proof (f_equal sInstall Hre) as Hx. cbn in He, Hx. rewrite Hst in He. rewrite Hi in Hx.
    destruct v, r0, x as [[p1 [i1|]]|], k as [k1|]; try done. cbn in Hx. simplify_eq. by eexists _, _. }
  eapply (kept_entry _ _ (sTarget s) (Some k1) (Some (p1, Some i)) (Some r) None); [done|..].
  - rewrite reload_ready. rewrite (proj1 (for_bound _ _ Hb)), L1, L2, L4. done.
  - destruct Hch as [Hch1 Hch2]. split_and!; [done..|]. unfold readyFits.
    rewrite (bool_decide_true _ (proj1 (ready_later now r Hv))), Hb, Hg. done.
  - rewrite <- Hre. reflexivity.
Qed.

Lemma Revoke_kept b now random id w : WInv plan verifyOld w -> KInv w -> KInv (Revoke b now random id w).1.
Proof.
  destruct w as [m c]. intros Hw Hk. pose proof Hw as [Hsi Hc]. cbn [fst snd] in Hsi, Hc. unfold Revoke, RecordCredentialRotationRevoke.
  cbn [fst snd]. destruct b; [done|]. destruct (cTargets c !! id) as [s|] eqn:Hid; [|done]. case_bool_decide; [done|].
  destruct (negb _); [done|]. destruct (sState s) eqn:Hst; try (by repeat case_match).
  destruct (sReady s) as [r|] eqn:Hr; [|by destruct (sRevoke s), random]. destruct random as [random|]; [|by destruct (sRevoke s)].
  rewrite (cv_plan _ _ _ _ Hc) in *. set (v := mkRevoke _ _ _ _) in *.
  destruct (boundFor_to plan (sTarget s) (oSessionID (rdBound r)) (oProcessGeneration (rdBound r))) as [Hb Hg].
  change (boundFor plan (sTarget s) _ _) with (rvBound v) in Hb, Hg.
  assert (Hnew : revoke_Validate now v = None -> KInv (m <| Revocations := Revocations m ++ [v] |>,
      setTarget ((s <| sRevoke := Some v |>) <| sState := RotationTargetRevoking |>) c)).
  { intros Hv. eapply (KInv_set m _ c id s _ (rvBound v)); try done; [apply others_revoke|]. intros Hkp.
    destruct (kept_latest m s Hkp) as (k & x & r0 & v0 & L1 & L2 & L3 & L4 & Hch & Hre); [by rewrite Hst|].
    assert (exists k1 p1 i1, k = Some k1 /\ x = Some (p1, Some i1) /\ r0 = Some r /\ v0 = None) as (k1 & p1 & i1 & -> & -> & -> & ->).
    { pose proof (f_equal sState Hre) as He. pose proof (f_equal sReady Hre) as Hx. cbn in He, Hx. rewrite Hst in He. rewrite Hr in Hx.
      destruct v0, r0, x as [[p1 [i1|]]|], k as [k1|]; try done. simplify_eq. by eexists _, _, _. }
    eapply (kept_entry _ _ (sTarget s) (Some k1) (Some (p1, Some i1)) (Some r) (Some v)); [done|..].
    - rewrite reload_revoke. rewrite (proj1 (for_bound _ _ Hb)), L1, L2, L3. done.
    - destruct Hch as (Hch1 & Hch2 & Hch3). split_and!; [done..|]. unfold revokeFits. cbv zeta.
      rewrite (bool_decide_true _ (revoke_later now v Hv)), Hb, Hg. cbn. rewrite Z.eqb_refl, bool_decide_true by done. done.
    - rewrite <- Hre. reflexivity. }
  destruct (sRevoke s); (destruct (revoke_Validate now v) eqn:Hv; [done|]); destruct (Failure m);
    [by eapply KInv_fail|by apply Hnew|by eapply KInv_fail|by apply Hnew].
Qed.

(** A result ends the promise. *)
Lemma KInv_result m c c' su : KInv (m, c) -> cStarted c' = cStarted c -> KInv (m <| Results := Results m ++ [su] |>, c').
Proof.
  intros [K1 _] Hc. cbn [fst snd] in K1. split; cbn [fst snd]; [by rewrite Hc|]. intros Hz.
  assert (Hx : Results m ++ [su] = []) by exact Hz. by destruct (Results m).
Qed.
Lemma recordFailure_kept ack s code w : KInv w -> KInv (recordFailure ack s code w).1.
Proof.
  destruct w as [m c]. intros Hk. unfold recordFailure, RecordCredentialRotationResult. cbn [fst snd].
  destruct (Failure m); [done|]. by eapply KInv_result.
Qed.
Lemma HandleAck_kept b now a w : WInv plan verifyOld w -> KInv w -> KInv (HandleAck b now a w).1.
Proof.
  destruct w as [m c]. intros Hw Hk. unfold HandleAck. cbn [fst snd]. destruct (rotationAck_valid a); [|done]. destruct b; [done|].
  destruct (cTargets c !! _) as [s|] eqn:Hid; [|done]. cbn [negb]. destruct (negb _); [done|].
  assert (Hneg : KInv (match raCode a with
      | Some code => if negb (rotationNegativeAckMatches s a) then ((m, c), (None, Some identityMismatch)) else recordFailure a s code (m, c)
      | None => ((m, c), (None, Some ErrInvalidInput)) end).1).
  { destruct (raCode a); [|done]. destruct (negb _); [done|]. by apply recordFailure_kept. }
  destruct (sState s) eqn:Hst, (raStatus a); try done; try (by destruct (fromSession _ _)). destruct (fromSession _ _); [|done]. cbn [negb].
  set (c1 := setTarget _ c) in *. set (c2 := if bool_decide _ then _ else c1).
  assert (Hc2 : cStarted c2 = cStarted c /\ cTargets c2 = cTargets c1) by (unfold c2; by case_bool_decide). destruct Hc2 as [Hc2 Hc3].
  unfold RecordCredentialRotationResult. destruct (Failure m); cbn [fst snd]; [|by eapply KInv_result].
  destruct (KInv_fail m c _ s CodeCredentialRotationFailed Hw Hk Hid) as [K1 K2]. cbn [fst snd] in K1, K2.
  split; cbn [fst snd]; [by cbn; rewrite Hc2|]. intros Hz id u Hu. apply (K2 Hz id). cbn in Hu |- *. rewrite Hc3 in Hu. unfold c1 in Hu.
  cbn in Hu. by rewrite insert_insert_eq in Hu.
Qed.
Lemma Fail_kept id code w : KInv w -> KInv (Fail id code w).1.
Proof.
  intros Hk. unfold Fail. destruct (cTargets w.2 !! id) as [s|]; [|done]. destruct (sState s); try done; by apply recordFailure_kept.
Qed.
Lemma rcall_kept w w' : rcall verifyOld w w' -> WInv plan verifyOld w -> KInv w -> KInv w'.
Proof.
  intros [b v|b now id sid g k1 k2 n t1 t2 t3 t4 auth v|b now p v|b now r v|b now random id v|b now a v|id code v] Hw Hk.
  - apply Start_kept; [done|]. apply Hw.
  - by apply Challenge_kept.
  - by apply AcceptProof_kept.
  - by apply MarkReady_kept.
  - by apply Revoke_kept.
  - by apply HandleAck_kept.
  - by apply Fail_kept.
Qed.

(** ** Recovery *)
Lemma recoverTargets_lookup m l : forall c, NoDup (map tConnectorID l) -> (forall t, rtTarget (loadTarget plan m t) = t) ->
  (forall t, t ∈ l -> exists s, cTargets c !! tConnectorID t = Some s /\ sTarget s = t) ->
  let c' := fold_left recoverTarget (map (loadTarget plan m) l) c in
  (forall t s, t ∈ l -> cTargets c !! tConnectorID t = Some s -> cTargets c' !! tConnectorID t = Some (recovered (loadTarget plan m t) s))
  /\ (forall id, id ∉ map tConnectorID l -> cTargets c' !! id = cTargets c !! id).
Proof.
  induction l as [|x l IH]; intros c Hd Ht Hl; [split; [set_solver|done]|]. cbn [map fold_left] in *. apply NoDup_cons in Hd as [Hx Hd].
  destruct (Hl x) as (sx & Hsx & Hsxt); [set_solver|].
  set (c1 := recoverTarget c (loadTarget plan m x)).
  assert (Hc1 : cTargets c1 = <[tConnectorID x := recovered (loadTarget plan m x) sx]> (cTargets c)).
  { unfold c1, recoverTarget. rewrite Ht, Hsx. cbn. by rewrite Hsxt. }
  assert (Hne : forall t, t ∈ l -> tConnectorID x <> tConnectorID t).
  { intros t Hin He. apply Hx. rewrite He. apply list_elem_of_fmap. eauto. }
  destruct (IH c1) as [H1 H2]; [done..| |].
  { intros t Hin. rewrite Hc1, lookup_insert_ne by auto. apply Hl. set_solver. }
  split.
  - intros t s. rewrite elem_of_cons. intros [->|Hin] Hs.
    + rewrite H2 by done. rewrite Hc1, lookup_insert_eq. by rewrite Hs in Hsx; injection Hsx as ->.
    + apply H1; [done|]. rewrite Hc1, lookup_insert_ne by auto. done.
  - intros id Hid. rewrite H2 by set_solver. rewrite Hc1, lookup_insert_ne; [done|]. set_solver.
Qed.

Lemma new_targets c : NewRotationCoordinator plan = Some c -> cStarted c = false /\ cPlan c = plan
  /\ (forall t, t ∈ pTargets plan -> cTargets c !! tConnectorID t = Some (pendingTarget t))
  /\ size (cTargets c) = length (pTargets plan).
Proof.
  intros Hn. pose proof (new_inv plan verifyOld Hplan emptyStore c Hn) as Hc. unfold NewRotationCoordinator in Hn.
  rewrite Hplan, bool_decide_false in Hn by naive_solver. injection Hn as <-. destruct (pending_targets (pTargets plan) ∅) as (H1 & _ & H3).
  split_and!; [done..| |].
  - intros t Ht. destruct (H3 t Ht) as [s Hs]. cbn [cTargets]. rewrite Hs. f_equal.
    destruct (H1 _ s Hs) as [Hx|(u & Hu & He & ->)]; [by rewrite lookup_empty in Hx|]. f_equal. by apply (target_unique plan Hplan).
  - cbn [cTargets]. set (f := fold_left _ _ _) in *. rewrite <- size_dom.
    assert (Hd : dom f ≡ list_to_set (map tConnectorID (pTargets plan))).
    { intros id. rewrite elem_of_dom, elem_of_list_to_set, list_elem_of_fmap. split.
      - intros [s Hs]. destruct (H1 id s Hs) as [Hx|(u & Hu & He & _)]; [by rewrite lookup_empty in Hx|]. by exists u.
      - intros (t & -> & Ht). by apply H3. }
    rewrite Hd, size_list_to_set by apply plan_targets. by rewrite length_map.
Qed.

Lemma resumeTargetsOk_intro c l : forall seen, NoDup (map (fun e => tConnectorID (rtTarget e)) l) ->
  (forall e, e ∈ l -> tConnectorID (rtTarget e) ∉ seen) ->
  (forall e, e ∈ l -> (exists s, cTargets c !! tConnectorID (rtTarget e) = Some s /\ sTarget s = rtTarget e)
     /\ validateRotationResumeTarget (cPlan c) e = true) ->
  resumeTargetsOk c seen l = true.
Proof.
  induction l as [|e l IH]; intros seen Hd Hs He; [done|]. cbn [map resumeTargetsOk] in *. apply NoDup_cons in Hd as [Hx Hd].
  destruct (He e) as [(s & Hl & Ht) Hv]; [set_solver|]. rewrite bool_decide_false by (apply Hs; set_solver).
  rewrite Hl, (bool_decide_true _ Ht), Hv. cbn. apply IH; [done| |intros; apply He; set_solver].
  intros e' He'. apply not_elem_of_union. split; [|apply Hs; set_solver]. rewrite elem_of_singleton. intros Heq. apply Hx.
  rewrite <- Heq. apply list_elem_of_fmap. eauto.
Qed.
Lemma paired_installed m t p : length (Proofs m) = length (Installs m) ->
  latest plan t (fun x => pfBound x.1) (paired m) <> Some (p, None).
Proof. intros Hl [Hx _]%latest_in. by apply paired_some in Hx as (j & p' & i & Hx & _). Qed.

Lemma findStarted_plan m : Started m = [plan] -> findStarted plan m = Some plan.
Proof. intros Hs. unfold findStarted. rewrite Hs. cbn. by rewrite decide_True. Qed.
Lemma samePlan_refl : samePlan plan plan = true.
Proof. unfold samePlan. by rewrite !bool_decide_true, Z.eqb_refl by done. Qed.

Lemma resumes now m c c0 : WInv plan verifyOld (m, c) -> KInv (m, c) -> cStarted c = true -> Results m = [] -> Failure m = false ->
  NewRotationCoordinator plan = Some c0 -> exists c1, Resume false now (LoadCredentialRotation plan m) c0 = (c1, None)
    /\ forall t, t ∈ pTargets plan -> cTargets c1 !! tConnectorID t = Some (recovered (loaded plan t m) (pendingTarget t)).
Proof.
  intros [Hsi Hc] [K1 K2] Hst Hz Hf Hn. cbn [fst snd] in *. rewrite Hst in K1. pose proof (si_pairs _ _ _ _ Hsi) as Hp.
  destruct (new_targets c0 Hn) as (N1 & N2 & N3 & N4). destruct plan_targets as [Hd _].
  assert (He : forall t, loadTarget plan m t = loaded plan t m) by (intros t; by apply load_exact).
  assert (Ht : forall t, rtTarget (loadTarget plan m t) = t) by (intros t; by rewrite He).
  unfold Resume, LoadCredentialRotation. rewrite Hf, (findStarted_plan m K1), samePlan_refl, Hz, N1, N2.
  cbn [negb reStarted rePlan reTargets reFinishedAt fold_left]. rewrite Hplan, !bool_decide_true, bool_decide_false by naive_solver.
  cbn [negb orb]. assert (Hlen : len (map (loadTarget plan m) (pTargets plan)) = Z.of_nat (size (cTargets c0))).
  { unfold len. by rewrite N4, length_map. }
  rewrite Hlen, Z.eqb_refl. cbn [negb orb]. rewrite resumeTargetsOk_intro.
  - cbn [negb]. change (isZero zeroTime) with true. cbn [negb andb]. eexists. split; [reflexivity|]. intros t Hin. cbn.
    destruct (recoverTargets_lookup m (pTargets plan) c0 Hd Ht) as [H1 _]; [intros u Hu; exists (pendingTarget u); auto|].
    rewrite (H1 t (pendingTarget t) Hin (N3 t Hin)). by rewrite He.
  - rewrite map_map. by rewrite (map_ext _ tConnectorID) by (intros t; by rewrite Ht).
  - intros e _. set_solver.
  - intros e (t & -> & Hin)%list_elem_of_fmap. rewrite Ht, He, N2. split; [exists (pendingTarget t); auto|].
    destruct (cv_found plan verifyOld Hplan m c t Hc Hin) as (s & Hs & Hsx & _). destruct (K2 Hz _ s Hs) as [Hch _].
    rewrite Hsx in Hch. apply chain_valid; [done|intros p; by apply paired_installed|done].
Qed.

(** Runs in which a lost coordinator is replaced by one that has resumed. *)
Inductive lstep : RWorld -> RWorld -> Prop :=
| l_call w w' : rcall verifyOld w w' -> lstep w w'
| l_store b m c : lstep (m, c) (m <| Failure := b |>, c)
| l_recover now m c c0 c1 : NewRotationCoordinator plan = Some c0 ->
    Resume false now (LoadCredentialRotation plan m) c0 = (c1, None) -> lstep (m, c) (m, c1).

Lemma Resume_started now m c0 c1 : cStarted c0 = false -> Resume false now (LoadCredentialRotation plan m) c0 = (c1, None) ->
  cStarted c1 = true /\ Failure m = false /\ is_Some (findStarted plan m).
Proof.
  unfold Resume, LoadCredentialRotation. destruct (Failure m); [done|]. destruct (findStarted plan m); [|done].
  destruct (negb (samePlan _ _)); [done|]. destruct (_ || bool_decide _); [done|]. intros ->. destruct (_ || negb _); [done|].
  destruct (negb _ && _); [done|]. intros [= <-]. cbn. eauto.
Qed.
Lemma lstep_inv w w' : lstep w w' -> WInv plan verifyOld w -> KInv w -> WInv plan verifyOld w' /\ KInv w'.
Proof.
  intros [v v' Hc|b m c|now m c c0 c1 Hn Hr] Hw Hk.
  - split; [by eapply rcall_inv|by eapply rcall_kept].
  - split; [by apply (rstep_inv plan verifyOld Hplan (m, c)); [apply r_store|]|]. destruct Hk as [K1 K2].
    apply Build_KInv; [exact K1|]. cbn [fst snd]. intros Hz id s Hs. destruct (K2 Hz id s Hs). by apply Build_kept.
  - destruct Hw as [Hsi Hc]. destruct (new_targets c0 Hn) as (N1 & _). destruct (Resume_started _ _ _ _ N1 Hr) as (R1 & R2 & [p R3]).
    pose proof (Resume_inv plan verifyOld Hplan false now m c0) as Hw1. rewrite Hr in Hw1. specialize (Hw1 (conj Hsi (new_inv plan verifyOld Hplan m c0 Hn))).
    split; [done|]. pose proof (li_started _ Hk) as K1. cbn [fst snd] in K1.
    destruct (cStarted c) eqn:Hst; [|unfold findStarted in R3; by rewrite K1 in R3].
    split; cbn [fst snd]; [by rewrite R1|]. intros Hz id s Hs. destruct Hw1 as [_ Hc1]. cbn [fst snd] in Hc1.
    destruct (cv_target _ _ _ _ Hc1 id s Hs) as (<- & Hin & _).
    destruct (resumes now m c c0 (conj Hsi Hc) Hk Hst Hz R2 Hn) as (c2 & Hr2 & Hall). rewrite Hr2 in Hr. injection Hr as ->.
    rewrite (Hall _ Hin) in Hs. injection Hs as <-. cbn [recovered sTarget pendingTarget] in *. split; [|done].
    destruct (cv_found plan verifyOld Hplan m c _ Hc Hin) as (u & Hu & Hux & _). destruct (li_kept _ Hk Hz _ u Hu) as [Hch _]. by rewrite Hux in Hch.
Qed.
Lemma lrun_inv w w' : rtc lstep w w' -> WInv plan verifyOld w -> KInv w -> WInv plan verifyOld w' /\ KInv w'.
Proof. induction 1 as [|a b c Hab _ IH]; [done|]. intros Hw Hk. destruct (lstep_inv _ _ Hab Hw Hk). by apply IH. Qed.
Lemma new_kept c : NewRotationCoordinator plan = Some c -> KInv (emptyStore, c).
Proof.
  intros Hn. pose proof (new_inv plan verifyOld Hplan emptyStore c Hn) as Hc. destruct (new_targets c Hn) as (N1 & _ & N3 & _).
  split; cbn [fst snd]; [by rewrite N1|]. intros _ id s Hs. destruct (cv_target _ _ _ _ Hc id s Hs) as (<- & Hin & _).
  rewrite (N3 _ Hin) in Hs. injection Hs as <-. by split.
Qed.
End resume.
