(* ===== verification/RotationProps.v ===== *)
(** * Credential rotation: properties

    Signed proofs; what a rotation promises of the credentials that it revokes and of its
    recovery, and runs that show where it does not do what it means to. *)
From S2P Require Import Prelude.
From S2P Require Import Sha256.
From S2P Require Import TransferCodec.
From S2P Require Import UpdateGate.
From S2P Require Import WorkerFence.
From S2P Require Import Inbox.
From S2P Require Import Connector.
From S2P Require Import ConnectorServer.
From S2P Require Import Rotation.
From S2P Require Import RotationCoordinator.
From S2P Require Import RotationLife.
Set Warnings "-clear-no-such-hyp".

Lemma sextet_urlChar n : 0 <= n < 64 -> sextet (urlChar n) = Some n.
Proof.
  intros Hn. assert (Hz : n = Z.of_nat (Z.to_nat n)) by lia. rewrite Hz.
  assert (Hall : forallb (fun i => bool_decide (sextet (urlChar (Z.of_nat i)) = Some (Z.of_nat i))) (seq 0 64) = true) by reflexivity.
  rewrite forallb_forall in Hall. eapply bool_decide_eq_true, Hall, in_seq. lia.
Qed.

(** The four digits of a group. *)
Lemma sextets n : 0 <= n < 16777216 ->
  sextet (urlChar (n / 262144)) = Some (n / 262144) /\ sextet (urlChar (n / 4096 mod 64)) = Some (n / 4096 mod 64)
  /\ sextet (urlChar (n / 64 mod 64)) = Some (n / 64 mod 64) /\ sextet (urlChar (n mod 64)) = Some (n mod 64).
Proof.
  intros Hn. split_and!; apply sextet_urlChar;
    [split; [apply Z.div_pos|apply Z.div_lt_upper_bound]; lia|apply Z.mod_pos_bound; lia..].
Qed.
Lemma digits n : 0 <= n ->
  ((n / 262144 * 64 + n / 4096 mod 64) * 64 + n / 64 mod 64) * 64 + n mod 64 = n.
Proof. intros Hn. Z.div_mod_to_equations. lia. Qed.

(** The bytes of a group from its number. *)
Ltac group := apply be_put_get_aux; [done|]; unfold be_get; cbn [fold_left];
  match goal with |- ?x mod ?y = _ => let y' := eval compute in y in change y with y'; rewrite Z.mod_small by lia; lia end.
Lemma DecodeString_EncodeToString bs : DecodeString (EncodeToString bs) = Some bs.
Proof.
  induction bs as [bs IH] using (induction_ltof1 _ (@length byte)). unfold ltof in IH.
  destruct bs as [|a [|b [|c r]]]; [done|..]; cbn [EncodeToString]; cbv zeta; cbn [DecodeString];
    pose proof (Z_of_byte_range a); try pose proof (Z_of_byte_range b); try pose proof (Z_of_byte_range c).
  - set (n := Z_of_byte a * 65536). destruct (sextets n) as (-> & -> & _); [lia|]. cbn.
    assert (Hn : n / 262144 * 64 + n / 4096 mod 64 = Z_of_byte a * 16) by (subst n; Z.div_mod_to_equations; lia).
    rewrite Hn, Z.mod_mul, Z.div_mul by lia. cbn. f_equal. group.
  - set (n := Z_of_byte a * 65536 + Z_of_byte b * 256). destruct (sextets n) as (-> & -> & -> & _); [lia|]. cbn.
    assert (Hn : (n / 262144 * 64 + n / 4096 mod 64) * 64 + n / 64 mod 64 = (Z_of_byte a * 256 + Z_of_byte b) * 4)
      by (subst n; Z.div_mod_to_equations; lia).
    rewrite Hn, Z.mod_mul, Z.div_mul by lia. cbn. f_equal. group.
  - set (n := Z_of_byte a * 65536 + Z_of_byte b * 256 + Z_of_byte c). destruct (sextets n) as (-> & -> & -> & ->); [lia|].
    cbn [mbind option_bind]. rewrite digits, IH by (simpl; lia). cbn. f_equal. change (a :: b :: c :: r) with ([a; b; c] ++ r). f_equal.
    subst n. group.
Qed.

Section proofs.
Context `{RotationEnv} (now : Z) (verifyOld : list byte -> list byte -> bool) (oldSign newSign : list byte -> list byte).

Lemma SignProofPayload_decodes payload sign v : SignProofPayload payload sign = Some v -> ValidateProof v = true ->
  DecodeProof v = Some (sign payload).
Proof.
  unfold SignProofPayload, DecodeProof. destruct (_ || (16384 <? len payload)); [done|]. cbv zeta.
  destruct (_ || _) eqn:Hl; [done|]. intros [= <-] ->. cbn [negb]. by rewrite DecodeString_EncodeToString; cbn; rewrite Hl.
Qed.

(** What was signed does not depend on the signatures. *)
Lemma SignCredentialRotationProof_payload p q : SignCredentialRotationProof p oldSign newSign = Ok q ->
  CredentialRotationProofPayload q = Ok (transcript p) /\ proof_Validate zeroTime q = None
  /\ SignProofPayload (transcript p) oldSign = Some (pfOldSignedProof q)
  /\ SignProofPayload (transcript p) newSign = Some (pfNewSignedProof q)
  /\ pfKey q = pfKey p /\ pfIssuedAt q = pfIssuedAt p.
Proof.
  unfold SignCredentialRotationProof, CredentialRotationProofPayload. destruct (proof_validate p) eqn:Hv; [done|].
  destruct (SignProofPayload _ oldSign) as [o|]; [|done]. destruct (SignProofPayload _ newSign) as [n|]; [|done]. cbv zeta.
  destruct (proof_Validate zeroTime _) eqn:Hz; [done|]. intros [= <-]. cbn [pfOldSignedProof pfNewSignedProof pfKey pfIssuedAt].
  split_and!; try done. unfold proof_validate in Hv |- *. cbn [pfBound pfOldKeyID pfOldThumbprint pfKey pfNonce pfIssuedAt pfValidUntil].
  by rewrite Hv.
Qed.

(** A proof signed with keys whose signatures verify is accepted, while its time is near. *)
Theorem signed_proof_verifies p q publicKey : SignCredentialRotationProof p oldSign newSign = Ok q ->
  decodeRotationPublicKey (NewPublicKey (pfKey p)) = Some publicKey ->
  verifyOld (transcript p) (oldSign (transcript p)) = true ->
  ed25519_Verify publicKey (transcript p) (newSign (transcript p)) = true ->
  pfIssuedAt p <= now + MaxClockSkew -> now - pfIssuedAt p <= MaxClockSkew ->
  VerifyCredentialRotationProofAt now q verifyOld = None.
Proof.
  intros Hs Hk Ho Hn H1 H2. apply SignCredentialRotationProof_payload in Hs as (Hp & Hv & So & Sn & Ek & Et).
  unfold proof_Validate in Hv. destruct (proof_validate q) eqn:Hq; [done|].
  destruct (negb _ || negb _) eqn:Hx; [done|]. apply orb_false_iff in Hx as [Xo%negb_false_iff Xn%negb_false_iff].
  unfold VerifyCredentialRotationProofAt, proof_Validate. rewrite Hq, Xo, Xn, Et. cbn [negb orb].
  replace (now + MaxClockSkew <? pfIssuedAt p) with false by lia. replace (MaxClockSkew <? now - pfIssuedAt p) with false by lia.
  rewrite andb_false_r, Hp, (SignProofPayload_decodes _ _ _ So Xo), Ho. cbn [negb].
  by rewrite (SignProofPayload_decodes _ _ _ Sn Xn), Ek, Hk, Hn.
Qed.
End proofs.

Section properties.
Context `{RotationEnv} (plan : RotationPlan) (verifyOld : CredentialRotationProof -> list byte -> list byte -> bool).

Lemma new_valid c : NewRotationCoordinator plan = Some c -> plan_Validate plan = None.
Proof. unfold NewRotationCoordinator. case_bool_decide as Hv; [done|]. intros _. by destruct (plan_Validate plan). Qed.

(** C28: However the calls of a rotation are ordered, whatever the connectors send, whenever the
    store fails and however often the coordinator is lost, made again and resumed from what the
    store holds: once the store has a revocation of an old credential, every target of the plan,
    not only the one revoked, has moved to its new key.  For each the store holds a challenge of
    the plan, a proof that answers it and was verified under the old and the new key, the
    install of just that key, and a report, usable in all three respects, of a later session
    that runs with it; and a revocation is of a target of the plan.  A result that says the
    rotation succeeded is recorded only after every target was revoked. *)
Theorem revoked_after_ready c m c' : NewRotationCoordinator plan = Some c ->
  rtc (rstep plan verifyOld) (emptyStore, c) (m, c') ->
  (forall v, v ∈ Revocations m -> (exists t, t ∈ pTargets plan /\ boundTo plan t (rvBound v) = true)
     /\ forall t, t ∈ pTargets plan -> exists k p i r,
          k ∈ Challenges m /\ challengeFits plan t k = true
          /\ p ∈ Proofs m /\ rotationProofMatchesChallenge p k t = true
          /\ (exists now, VerifyCredentialRotationProofAt now p (verifyOld p) = None)
          /\ i ∈ Installs m /\ inBound i = pfBound p /\ inKey i = pfKey p
          /\ r ∈ Readiness m /\ boundTo plan t (rdBound r) = true /\ generations t (rdBound r) = true
          /\ replaces i r = true /\ rdEdge r && rdRoute r && rdOrigin r = true)
  /\ forall s, s ∈ Results m -> suStatus s = RotationAggregateSucceeded ->
       forall t, t ∈ pTargets plan -> exists v, v ∈ Revocations m /\ boundTo plan t (rvBound v) = true.
Proof.
  intros Hn Hr. pose proof (new_valid c Hn) as Hp.
  pose proof (rrun_inv plan verifyOld Hp _ _ Hr (empty_inv plan verifyOld Hp c Hn)) as [[_ _ _ Hv Hs] _]. cbn [fst snd] in *.
  split; [|exact Hs]. intros v [Ht Ha]%Hv. split.
  - destruct Ht as (t & Ht & _ & Hb). eauto.
  - intros t Hin. destruct (Ha t Hin) as (r & [R1 R2 R3 R4 (j & p & i & P1 & P2 & [L1 (k & L2 & L3 & L4) L5 L6 L7] & R5)]).
    exists k, p, i, r. split_and!; try done; by eapply list_elem_of_lookup_2.
Qed.

(** C29: A coordinator that is lost loses nothing as long as no result was recorded: a new one,
    however often it was lost before, resumes from what the store holds, and every target
    that had not failed is in the state, with the challenge, proof, install, readiness and
    revocation, that the lost coordinator had for it. *)
Theorem resume_restores now c m c1 : NewRotationCoordinator plan = Some c ->
  rtc (lstep plan verifyOld) (emptyStore, c) (m, c1) -> cStarted c1 = true -> Results m = [] -> Failure m = false ->
  exists c2, Resume false now (LoadCredentialRotation plan m) c = (c2, None) /\ cStarted c2 = true
    /\ forall t, t ∈ pTargets plan -> exists s s2, cTargets c1 !! tConnectorID t = Some s /\ cTargets c2 !! tConnectorID t = Some s2
         /\ (sState s <> RotationTargetFailed -> s2 = s).
Proof.
  intros Hn Hr Hst Hz Hf. pose proof (new_valid c Hn) as Hp.
  destruct (lrun_inv plan verifyOld Hp _ _ Hr (empty_inv plan verifyOld Hp c Hn) (new_kept plan verifyOld Hp c Hn)) as [Hw Hk].
  destruct (resumes plan verifyOld Hp now m c1 c Hw Hk Hst Hz Hf Hn) as (c2 & Hr2 & Hall). exists c2. split; [done|].
  destruct (new_targets plan verifyOld Hp c Hn) as (N1 & _). split; [by eapply Resume_started|]. intros t Ht.
  destruct Hw as [_ Hc]. destruct (cv_found plan verifyOld Hp m c1 t Hc Ht) as (s & Hs & Hsx & _). cbn [fst snd] in *.
  exists s, (recovered (loaded plan t m) (pendingTarget t)). split_and!; [done|by apply Hall|].
  intros Hnf. destruct (li_kept _ _ Hk Hz _ s Hs) as [_ Hsame]. etrans; [|exact (Hsame Hnf)]. unfold recovered. by rewrite Hsx.
Qed.
End properties.

(** ** A rotation of two connectors *)
Module Demo.
(** Every reference parses, and a signature is any text of the right size. *)
#[export] Instance env : RotationEnv := {|
  url_Parse _ := Some (mkURL (bytes "keychain") (bytes "paperboat") false [] [] [] (bytes "/connector"));
  json_String := jsonString;
  json_Time t := Itoa 20 (t - zeroTime);
  ed25519_Verify _ _ signature := len signature =? 24 |}.
Definition old (p : CredentialRotationProof) (payload signature : list byte) : bool := len signature =? 24.

Definition seconds (n : Z) : Z := n * 1000 * Millisecond.
Definition start : Z := seconds 1000.
Definition target1 : RotationTarget := mkTarget (bytes "connect1") (bytes "host0001") 1 2.
Definition target2 : RotationTarget := mkTarget (bytes "connect2") (bytes "host0002") 4 5.
Definition plan : RotationPlan := Eval vm_compute in
  match NewRotationPlan (bytes "account1") (bytes "tunnel01") (bytes "rotation") [target2; target1] with
  | Ok p => p
  | Err _ => mkPlan [] [] [] [] []
  end.
Definition publicKey (b : byte) : list byte := repeat b 32.
Definition keyOf (b : byte) : NewKey :=
  let t := IdentityThumbprint (publicKey b) in
  mkNewKey (bytes "ed25519:" ++ t) t (EncodeToString (publicKey b)) (bytes "keychain://paperboat/connector").
Definition key1 : NewKey := Eval vm_compute in keyOf x01.
Definition key2 : NewKey := Eval vm_compute in keyOf x02.
Definition oldKey : gostring := bytes "abcdefghijklmnopqrstuvwxyzABCDEFGHIJKLMNOPQ".
Definition nonce : gostring := bytes "nonce-0123456789".
Definition signature : gostring := bytes "signed-proof-of-thirty-two-bytes".

(** The session of a connector before and after it restarts. *)
Definition before : gostring := bytes "session1".
Definition after : gostring := bytes "session2".
Definition later : Z := start + seconds 60.
Definition overlap : Z := start + seconds 600.
Definition expiry : Z := start + seconds 86400.
Definition challenges (t : RotationTarget) (w : RWorld) : RWorld :=
  (ChallengeWithCredentialExpiry false start (tConnectorID t) before 1 (bytes "ed25519:" ++ oldKey) oldKey nonce start later overlap
     expiry (fun _ => None) w).1.
Definition proofOf (t : RotationTarget) (k : NewKey) : CredentialRotationProof :=
  mkProof (boundFor plan t before 1) (bytes "ed25519:" ++ oldKey) oldKey k nonce start expiry signature signature.
Definition proves (t : RotationTarget) (k : NewKey) (w : RWorld) : RWorld :=
  (AcceptProof false start (old (proofOf t k)) (proofOf t k) w).1.
Definition hash : gostring := Eval vm_compute in contentHash (bytes "{}").
Definition readyOf (t : RotationTarget) (k : NewKey) : CredentialRotationReady :=
  mkReady (boundFor plan t after 2) before k expiry 1 hash true true true start.
Definition readies (t : RotationTarget) (k : NewKey) (w : RWorld) : RWorld := (MarkReady false true start (readyOf t k) w).1.
Definition revokes (t : RotationTarget) (w : RWorld) : RWorld := (Revoke false start (Some nonce) (tConnectorID t) w).1.
Definition ackOf (t : RotationTarget) : CredentialRotationAck :=
  mkRotationAck (boundFor plan t after 2) RotationAckRevoked None [].
Definition acknowledges (t : RotationTarget) (w : RWorld) : RWorld := (HandleAck false later (ackOf t) w).1.

(** The new coordinator, the rotation begun, both connectors ready, one and both revoked. *)
Definition coordinator : Coordinator := Eval vm_compute in
  match NewRotationCoordinator plan with Some c => c | None => mkCoordinator plan false 0 ∅ end.
Definition begun : RWorld := Eval vm_compute in (Start false (emptyStore, coordinator)).1.
Definition ready1 : RWorld := Eval vm_compute in readies target1 key1 (proves target1 key1 (challenges target1 begun)).
Definition ready2 : RWorld := Eval vm_compute in readies target2 key2 (proves target2 key2 (challenges target2 ready1)).
Definition revoking1 : RWorld := Eval vm_compute in revokes target1 ready2.

Lemma new : NewRotationCoordinator plan = Some coordinator.
Proof. vm_compute. reflexivity. Qed.
(** Runs of calls, whatever else may happen between them. *)
Section calls.
Context (R : RWorld -> RWorld -> Prop) (Hr : forall a b, rcall old a b -> R a b).
Lemma ready_run x t k w : rtc R x w -> rtc R x (readies t k (proves t k (challenges t w))).
Proof.
  intros Hx. eapply rtc_r; [eapply rtc_r; [eapply rtc_r; [exact Hx|]|]|]; apply Hr.
  - exact (rc_challenge old false start (tConnectorID t) before 1 (bytes "ed25519:" ++ oldKey) oldKey nonce start later overlap expiry
      (fun _ => None) w).
  - exact (rc_proof old false start (proofOf t k) _).
  - exact (rc_ready old false true start (readyOf t k) _).
Qed.
Lemma revoke_run : rtc R (emptyStore, coordinator) revoking1.
Proof.
  replace revoking1 with (revokes target1 (readies target2 key2 (proves target2 key2 (challenges target2
    (readies target1 key1 (proves target1 key1 (challenges target1 (Start false (emptyStore, coordinator)).1)))))))
    by (vm_compute; reflexivity).
  eapply rtc_r; [apply ready_run, ready_run; eapply rtc_r; [apply rtc_refl|]|]; apply Hr.
  - exact (rc_start old false _).
  - exact (rc_revoke old false start (Some nonce) (tConnectorID target1) _).
Qed.
End calls.
End Demo.
#[local] Existing Instance Demo.env.

Lemma revoked_after_ready_witness : rtc (rstep Demo.plan Demo.old) (emptyStore, Demo.coordinator) Demo.revoking1
  /\ exists r, r ∈ Readiness Demo.revoking1.1 /\ boundTo Demo.plan Demo.target2 (rdBound r) = true.
Proof.
  assert (Hr : rtc (rstep Demo.plan Demo.old) (emptyStore, Demo.coordinator) Demo.revoking1).
  { apply Demo.revoke_run. intros a b. apply r_call. }
  split; [exact Hr|].
  destruct (revoked_after_ready Demo.plan Demo.old Demo.coordinator Demo.revoking1.1 Demo.revoking1.2 Demo.new) as [Ha _];
    [by rewrite <- surjective_pairing|].
  destruct (Revocations Demo.revoking1.1) as [|v l] eqn:Hl; [vm_compute in Hl; discriminate|].
  assert (Hv : v ∈ v :: l) by left.
  destruct (Ha v Hv) as [_ Hx]. destruct (Hx Demo.target2) as (k & p & i & r & Hk); [right; left|].
  exists r. by destruct_and! Hk.
Defined.

Lemma resume_restores_witness : cTargets Demo.revoking1.2 !! bytes "connect1" <> None
  /\ exists c2, Resume false Demo.later (LoadCredentialRotation Demo.plan Demo.revoking1.1) Demo.coordinator = (c2, None)
    /\ cTargets c2 !! bytes "connect1" = cTargets Demo.revoking1.2 !! bytes "connect1".
Proof.
  split; [by vm_compute|].
  destruct (resume_restores Demo.plan Demo.old Demo.later Demo.coordinator Demo.revoking1.1 Demo.revoking1.2 Demo.new)
    as (c2 & Hr & _ & Hs); [|done..|].
  { rewrite <- surjective_pairing. apply Demo.revoke_run. intros a b. apply l_call. }
  exists c2. split; [exact Hr|]. destruct (Hs Demo.target1) as (s & s2 & H1 & H2 & H3); [left|].
  change (bytes "connect1") with (tConnectorID Demo.target1). rewrite H1, H2, H3; [done|].
  intros Hf. vm_compute in H1. injection H1 as <-. done.
Defined.

(** ** Runs that go wrong *)
Module Runs.
Import Demo.
Definition stateOf (t : RotationTarget) (c : Coordinator) : option RotationTargetState :=
  s ← cTargets c !! tConnectorID t; Some (sState s).
Definition resumed (w : RWorld) : Coordinator * option Error := Resume false later (LoadCredentialRotation plan w.1) coordinator.

(** A result recorded when the first connector was revoked says that the second is ready; it is
    loaded over the revocation that came after it, and the coordinator cannot resume. *)
Example result_hides_revocation :
  let w := revokes target2 (acknowledges target1 revoking1) in
  stateOf target2 w.2 = Some RotationTargetRevoking /\ resumed w = (coordinator, Some recoveryMismatch).
Proof. vm_compute. done. Qed.

(** A connector that failed before it was revoked has not failed when the coordinator resumes. *)
Example failure_forgotten :
  let w := (Fail (tConnectorID target1) CodeCredentialRotationFailed ready1).1 in
  stateOf target1 w.2 = Some RotationTargetFailed /\ suStatus (summary w.2) = RotationAggregateFailed
  /\ (resumed w).2 = None /\ stateOf target1 (resumed w).1 = Some RotationTargetReady
  /\ suStatus (summary (resumed w).1) = RotationAggregatePending.
Proof. vm_compute. done. Qed.

(** The acknowledgement that records a failure before any challenge is not a valid one. *)
Example failure_ack_invalid :
  let s := pendingTarget target1 in
  rotationAck_valid (failureAck coordinator s CodeCredentialRotationFailed) = false
  /\ length (Results (Fail (tConnectorID target1) CodeCredentialRotationFailed begun).1.1) = 1%nat.
Proof. vm_compute. done. Qed.

(** After a failure the other connectors go on. *)
Example failure_does_not_stop :
  let w := (Fail (tConnectorID target1) CodeCredentialRotationFailed ready1).1 in
  stateOf target2 (readies target2 key2 (proves target2 key2 (challenges target2 w))).2 = Some RotationTargetReady.
Proof. vm_compute. done. Qed.
End Runs.
